(* ===== verification/_CoqProject ===== *)
-Q . S2P
Prelude.v
Text.v
Ring.v
RingConc.v
Cast.v
RingLayout.v
Mode.v
Mpmc.v
Pool.v
Ser.v
Lfsr.v
Crc.v
Reliable.v
Backpressure.v
Mesh.v
Mux.v
Service.v
Float.v
Safety.v
SafetyLoop.v
Cipher.v
Trust.v
SecLink.v
FloatText.v
Domain.v
Json.v
Http.v
Sfu.v
Recorder.v
Fleet.v
Gate.v
Mcp.v
Dashboard.v
Server.v
ServerLoop.v
Mavlink.v
DirectIo.v
Fdr.v
Npy.v
FloatFacts.v
Hal.v
HalLinux.v
Input.v
Sim.v
Media.v
BurnIn.v
CoreProfile.v
CmdWire.v
MuxSocket.v
Pipeline.v
HeapCount.v
Uring.v
Terminal.v
Console.v
ConsoleFleet.v
Path.v
Scaffold.v
Fmt.v
Replay.v
Simulate.v
Doctor.v
Cli.v
EventLoop.v
Robot.v
SafetyThread.v
Hid.v
Platform.v
