(* ===== verification/Prelude.v ===== *)
(** * tpt-teleop: a verification development

    tpt-teleop is a teleoperation stack in Rust: operator commands travel over
    UDP to a unit, a safety loop bounds them, and actuators read the result from
    lock-free rings; a cloud server manages a fleet of units.  This library models
    the stack as executable functions and step relations and proves what each part
    promises to the next.  Paths are under [src/crates/tpt-t-<crate>/src/].

    ** Parts and how they meet

    - Link.  Commands arrive in datagrams.  The multiplexer ([link/mux.rs]) checks
      and takes them apart with the checksum ([link/crc.rs]), the plain-byte casts
      ([ring/cast.rs]) and the wire structs ([core/ser]); the reliable channel
      ([link/reliable.rs]) orders control frames, the mesh ([link/mesh.rs]) finds
      peers, the token bucket ([link/backpressure.rs]) admits traffic, the service
      ([link/service.rs]) drives all of them from one thread, and hands datagrams
      to the kernel by the io_uring queue ([link/uring.rs]) or the socket.
    - Between threads everything crosses rings ([ring]), queues, pools and buses
      ([core]); a thread that waits for several descriptors uses the readiness
      loop ([core/eventloop]).
    - Safety.  The loop ([safety/loop_.rs]) stands between an input and an output
      ring and is bound to the mode machine ([core/machine.rs]); it runs on a
      thread of its own, pinned and raised by [safety/rt.rs].
    - Security.  [sec] seals payloads for the secure channel and decides who may do
      what; the cloud server asks the same broker.
    - Operator side.  [input] turns device events into commands and chooses among
      operators; [media] paces a video encoder by the link's congestion signal and
      burns telemetry into frames.
    - Unit side.  [hal] is the boundary to buses, motors, cameras and registers,
      with a flight simulator behind the virtual bus and a MAVLink codec;
      [domain-bridge] gates a domain adapter by the handover lifecycle; [analytics]
      records the flight to direct-I/O files and exports training data.
    - Cloud.  [cloud] serves the fleet over HTTP: a JSON codec, a request parser, an
      admission gate, the fleet registry, the media fan-out, the session recorder
      and a JSON-RPC tool interface for agents, under one event loop.
    - [integration] wires input, bus, safety loop, simulator and link together.
    - Tools.  [macros] derives a robot's channels and threads from its struct;
      [cli] scaffolds projects, checks licences, replays recordings, flies the
      simulator, inspects the machine, writes core profiles and gives the operator
      a console on the fleet.

    ** Files

    - [Prelude]: results, the [exec] monad (return, panic, undefined behaviour,
      out of fuel), machine integers as wrapped [Z], powers of two, little-endian
      images, slices, hint databases and tactics.  [Text]: strings, UTF-8, decimal
      and hexadecimal numbers.  [Float]: IEEE binary32 and binary64 as Rust uses
      them; [FloatFacts]: when an operation yields a number; [FloatText]: parsing
      and printing [f64].  [Lfsr]: what the two checksums share.
    - [Ring]: [ring/spsc.rs], and the interface [BoundedFifo] through which every
      client uses a queue; its laws are proved of [SpscRing].  [RingConc]: the
      same push and pop split at their atomic accesses and interleaved by two
      threads.  [RingLayout]: [ring/layout.rs], [ring/shared.rs].
    - [Cast]: [ring/cast.rs], the class [PlainBytes]; instances are built by
      [pod] from the fields of a dense [repr(C)] struct.
    - [Mode]: [core/mode.rs], [core/machine.rs]; [Module Race] runs the lock-free
      transition among several threads.  [Mpmc]: [core/mpmc.rs].  [Pool]:
      [core/pool.rs], [core/bus.rs].  [Ser]: [core/ser].  [CoreProfile]:
      [core/profile.rs], [affinity.rs] and [cli/profile.rs].
    - [Crc], [Reliable] ([sys_step] composes sender and receiver with a network that
      loses, repeats and reorders frames and acknowledgements), [Backpressure], [Mesh], [Mux], [Service] (the
      sink callback is an arbitrary program over the core's public operations) and
      [Uring]: the files of those names in [link].  [MuxSocket]: the socket half of
      [link/mux.rs].  [CmdWire]: commands as the loop computes them and as the link
      carries them.
    - [Safety]: [safety/limits.rs], [geo.rs], [latency.rs], [spline.rs],
      [veto.rs].  [SafetyLoop]: [safety/loop_.rs].
    - [Cipher]: [sec/cipher.rs].  [Trust]: [sec/rbac.rs], [identity.rs],
      [session.rs], [zerotrust.rs].  [SecLink]: [sec/link.rs].
    - [Json], [Http], [Sfu], [Recorder], [Fleet], [Mcp]: the files of those names in
      [cloud].  [Gate]: [cloud/auth.rs] over [sec/cloud.rs].  [Server]: the routes of
      [cloud/server.rs], [ServerLoop] its connections, [Dashboard] its page.
    - [Domain]: [domain-bridge].  [Mavlink]: [hal/mavlink.rs].  [Hal]: the types, the
      virtual bus, the simulated motor and the register window of [hal]; [HalLinux]
      its Linux back ends; [Sim]: [hal/sim].
    - [DirectIo], [Fdr], [Npy]: [analytics/direct_io.rs], [record.rs], [npy.rs] with
      [export.rs].
    - [Input]: [input]; [NumericSource] is what its stage asks of a device.  [Hid]: the
      Windows, macOS and hand-tracking sources.  [Media]: [media/pool.rs], [encoder.rs], [capture.rs];
      [BurnIn]: [media/burnin.rs].
    - [Pipeline]: [integration/pipeline.rs].  [HeapCount]: [integration/alloc.rs].
    - [Terminal]: standard output and error as the tools use them; a line that cannot
      be written is the panic of [println!].  [Console]:
      [cli/console.rs]; [ConsoleFleet] composes it with [Server], over connections that
      are refused, break off or lose their answer.  [Path]: the paths
      of the standard library, for [Scaffold]: [cli/scaffold.rs] and the licence
      policy.  [Fmt]: width and precision in format strings.  [Replay]:
      [cli/replay.rs], over the records of [Fdr].  [Simulate]: [cli/sim.rs], over
      [Pipeline].  [Doctor]: [cli/doctor.rs].  [Cli]: [cli/main.rs] and the
      profile command, over all of these.
    - [EventLoop]: [core/eventloop], three back ends; [Watcher] is the one step
      that the proofs about the epoll and kqueue ones share.  [Robot]: [macros/lib.rs] with
      [core/robot.rs], the derive and the meaning of the code it generates.
      [SafetyThread]: [run_until], [spawn] and the handle of [safety/loop_.rs], each
      access to a shared ring a step of its own, with the Linux part of [safety/rt.rs].
      [Platform]: what [affinity.rs], [rt.rs] and [direct_io.rs] do on Windows and macOS.

    A struct is a [Record] with the source's fields, an enum an [Inductive], a
    method a [Definition] that takes the struct and returns it changed, next to
    the method's result.  A slice index that may fail, an [assert!] or an
    [expect] is a [Panic]; reading a slot that was never written is [Undef];
    theorems that an operation returns [Ret] rule these out.  Arithmetic wraps
    or saturates at the source's width.

    ** What the theorems show

    - Safety: an emergency stop wins over every later command whatever else
      happens; a tick processes the newest command exactly once, never blocks and
      counts what it drops; outputs respect the kinematic envelope; the veto only
      restricts; the ceiling brake pins the throttle.  Further theorems record
      where the code falls short of its comments (NaN axes, dives, off-axis
      breaches, the hand-over blend).
    - The data plane end to end, over a network that loses, delays, repeats and
      reorders: the harness's loop does what the safety loop alone would do, and what
      comes out at the far end of the link is what it emitted, unaltered, though
      possibly of an earlier step; on a network that delivers at once, all of it in
      order ([Pipeline.pipeline_refines_loop]).
    - Rings and queues: the single-producer ring refines a bounded FIFO queue,
      sequentially and under interleaving, and its slot accesses never race; the MPMC
      queue refines one, and a pool hands out disjoint slots, one call after another
      and whatever compare-exchanges fail spuriously; layouts are sound for the ring
      over shared memory.
    - Modes: the machine follows its table, the stop latch opens by
      acknowledgment only; with concurrent callers every committed edge is legal,
      and a stop may still be lost to a race.
    - Link: framing round trips and rejects every single-byte error; the reliable
      channel delivers a prefix of what was sent, in order, for [2^31] frames, and
      after any loss one retransmission brings back everything sent, except empty
      frames, those sent when the clock read zero, and the window that one
      acknowledgement covers whole;
      admission keeps to the configured rate; the neighbour table is a finite
      map until an expiry cuts a probe chain.  A service tick always completes and
      counts every datagram; the outbox goes out complete and in order; as driven
      by the service the reliable channel stalls after one window and hands
      repeated commands on again.  Memory in the kernel's hands is never touched by
      the io_uring queue; an interrupted wait sends a datagram twice.
    - Security: the broker's decision is exactly enrolment, signature and policy;
      an undisturbed handshake agrees on suite and key; sealing and opening are
      inverse; nonces of one box never repeat; sealed payloads arrive end to end.
    - Cloud: JSON prints and parses back, and parsing terminates; a request is
      framed by its length however it arrives; the gate stands before every
      privileged change of the fleet, though the command route asks for less than the
      route named after manual control and performs the same operation; modes are staged; the connection cap
      holds; recordings parse back; one slow subscriber does not disturb another.
    - Unit: the domain session follows its lifecycle and a stop latches it; MAVLink
      frames are accepted exactly when laid out as the code has it and, for messages of
      the dialect in their full length, with the checksum the code defines, a byte at a
      time or at once;
      the flight recorder leaves whole sectors of whole frames in order after any
      crash, and a stop may lose the last record; NumPy files read back; the virtual
      bus keeps order; register accesses stay in their window; a simulated body
      never sinks into the ground and the drone flies when told to.
    - Operator: an input tick never panics, and returns with axes that are numbers over
      any device that does not send without end; a Windows read that times out leaves its buffer
      with the kernel; one operator commands at a time; the bitrate governor settles on what the link asks for;
      burning in draws exactly the reference picture.
    - Threads: the epoll loop passes on what the kernel reports, of descriptors that
      are watched and under the token they were registered with, though its tables
      leak; a launched robot
      keeps every role on the processors its profile reserves; the safety thread
      is the bare loop on what its drains take, and its handle ends it unless a
      producer outpaces the drain, but an emergency stop
      latched on the mode machine elsewhere never reaches it.  Pinning asks for exactly
      the listed processors on Linux and Windows, for the last of them on macOS.
    - Tools: a console line does on the fleet what was typed, or nothing, as the
      connection has it; while the standard streams can be written, a replay shows the
      frames the recorder wrote, in order; relative dependency paths of a scaffolded
      project lead to the workspace; a simulated flight ends and shows what the loop
      let through; the doctor's exit code is a gate; every command line in
      Unicode ends with zero or one, except the replay of a damaged log.

    ** Parameters, bounds and fuel

    Code outside the repository is a parameter with its documented laws: [rkyv]
    (class [Rkyv]), the AEAD suites ([AeadInPlace]), [getrandom], Ed25519,
    X25519, HKDF; [hypot] is an arbitrary function, the trigonometry of the
    simulator is [Libm].  The operating system appears as [Host] (the service),
    [UdpOs] (sockets; [UdpNet] says only that what is received was sent, and
    [delivers], a condition of some clauses, that it is handed over at once), [IoUringOs] with [UringLaws], [CloudOs],
    [ServerOs], [AppendFile] and [RawFd] (files), [WinFileOs], [EvdevOs]
    (with [FiniteTraffic]: some read is short of the buffer), [OverlappedOs], [DevMemOs], [CanSockOs], [PinOs], [WinThreads], [MachThreads] (with
    [MachLaws]), [SchedOs], [EpollOs] and [KqueueOs] (with [EpollLaws] and
    [KqueueLaws]), [IocpOs], [Spawner] (with [SpawnerLaws]), [ConsoleOs], [Terminal],
    (writes that may fail; [streams_open] says they do not), [FileSystem], [ToolHost], [Sleeper] and [Pace] (sleeping) and [SystemAlloc]; the
    order in which a hash map is walked is [HashOrder], single-precision
    trigonometry [Libm32]; the tables of Unicode are [Unicode], the [Debug]
    escape of a string [StrDebug].  Traits of the source are classes too:
    [UnitTransport], [DomainTeleopInterface], [TeleopLink], [HapticSink],
    [CommandSource], [BitrateSignal], [VideoEncoder].  Each class with laws has a
    concrete instance, so no assumption is vacuous.  Clock readings and what sockets
    answer are inputs.

    Fuel appears where the source loops: the compare-exchange retries of [Mpmc] and
    [Mode], the drains of [Reliable] (33 rounds, one more than the receive bitmap
    has bits), [SafetyLoop] and [Fdr] (one more than what waits), the acknowledgement
    loop (window + 1), the outbox flush (capacity + 1), the socket drain of
    [Service] (more than the datagrams to come, under the hypothesis
    [FiniteTraffic]), the JSON parser (three times the text's length, plus one), the
    reader of recordings (its length), the accept loop of [ServerLoop] (the cap plus
    one), and the sector writer of [DirectIo] (the sector's size, when each write
    makes progress); the theorems show that the fuel suffices.  [Pipeline] receives
    for at most 400 rounds, as the source does; the simulator runs one step a tick
    and the walk up the directories one step a level, by structural recursion.
    Rings hold at most [2^63] slots.  The theorems on the reliable channel speak of
    sessions of fewer than [2^31] frames: beyond, a frame delayed long enough is taken
    for a new one ([Reliable.old_frame_taken_for_new]).

    ** Not modelled

    Socket creation inside the service and [Debug] implementations, which only hand
    their arguments to the operating system or to a formatter.  Generic parameters of
    a derived struct are left out of [Robot], which starts from the syntax tree of the
    parser library.  Arithmetic on which a debug build panics for overflow wraps, as in
    a release build.  Memory orderings weaker than sequential consistency are outside [RingConc],
    threads that call one MPMC queue or pool at the same time outside [Mpmc] and [Pool],
    and the depth of the native stack outside [Json], whose parser recurses once a bracket;
    unit tests are not modelled. *)

From Stdlib Require Export ZArith Lia.
From stdpp Require Export base tactics option numbers sets list.

#[global] Open Scope Z_scope.

(** ** Results and executions

    [result A E] is Rust's [Result<A, E>].  [exec A] is the outcome of running
    code that may panic (a failed [assert!], an out-of-range slice index) or
    reach undefined behaviour (reading an uninitialised [MaybeUninit], an
    out-of-range [get_unchecked]); [NoFuel] is a loop cut off by its fuel.  A
    theorem that a function returns [Ret] says that none of them happens. *)

Inductive result (A E : Type) : Type :=
| Ok (a : A)
| Err (e : E).
Arguments Ok {A E} a.
Arguments Err {A E} e.

Inductive exec (A : Type) : Type :=
| Ret (a : A)
| Panic
| Undef
| NoFuel.
Arguments Ret {A} a.
Arguments Panic {A}.
Arguments Undef {A}.
Arguments NoFuel {A}.

#[global] Instance result_eq_dec {A E} `{EqDecision A} `{EqDecision E} :
  EqDecision (result A E).
Proof. solve_decision. Defined.

#[global] Instance exec_ret : MRet exec := fun A a => Ret a.
#[global] Instance exec_bind : MBind exec := fun A B f m =>
  match m with
  | Ret a => f a
  | Panic => Panic
  | Undef => Undef
  | NoFuel => NoFuel
  end.
#[global] Instance result_bind {E} : MBind (fun A => result A E) := fun A B f m =>
  match m with
  | Ok a => f a
  | Err e => Err e
  end.

Definition is_ok {A E} (r : result A E) : bool :=
  match r with Ok _ => true | Err _ => false end.

(** [assert!(b)] and [slice[i]] *)
Definition assert (b : bool) : exec unit := if b then Ret tt else Panic.
Definition index {A} (l : list A) (i : nat) : exec A :=
  match l !! i with Some x => Ret x | None => Panic end.

Lemma ret_bind {A B} (a : A) (f : A -> exec B) : Ret a ≫= f = f a.
Proof. reflexivity. Qed.

Lemma bind_assoc {A B C} (m : exec A) (f : A -> exec B) (g : B -> exec C) :
  (m ≫= f) ≫= g = m ≫= fun a => f a ≫= g.
Proof. by destruct m. Qed.

Lemma bind_ret_inv {A B} (m : exec A) (f : A -> exec B) (b : B) :
  m ≫= f = Ret b -> exists a, m = Ret a /\ f a = Ret b.
Proof. destruct m; simpl; intros H; try discriminate; eauto. Qed.

(** ** Machine integers

    A [w]-bit unsigned integer is a [Z] in [[0, 2^w)].  The operations are
    those of a release build ([Cargo.toml] leaves overflow checks off in
    [profile.release]): [+], [-], [*] wrap, like [wrapping_add] and friends. *)

Definition umax (w : Z) : Z := 2 ^ w - 1.
Definition uint (w z : Z) : Prop := 0 <= z < 2 ^ w.
Definition uintb (w z : Z) : bool := (0 <=? z) && (z <? 2 ^ w).
Definition wrap (w z : Z) : Z := z mod 2 ^ w.
Definition wadd (w a b : Z) : Z := wrap w (a + b).
Definition wsub (w a b : Z) : Z := wrap w (a - b).
Definition wmul (w a b : Z) : Z := wrap w (a * b).
Definition ssub (a b : Z) : Z := Z.max 0 (a - b).
Definition sadd (w a b : Z) : Z := Z.min (umax w) (a + b).
Definition smul (w a b : Z) : Z := Z.min (umax w) (a * b).
(** the two's-complement reading of a [w]-bit pattern ([x as i32]) *)
Definition to_signed (w z : Z) : Z := if z <? 2 ^ (w - 1) then z else z - 2 ^ w.

Definition byte (z : Z) : Prop := uint 8 z.
Definition bytes (bs : list Z) : Prop := Forall byte bs.

#[global] Instance uint_dec w z : Decision (uint w z).
Proof. unfold uint. apply _. Defined.
#[global] Instance bytes_dec bs : Decision (bytes bs).
Proof. unfold bytes, byte. apply _. Defined.

Lemma uintb_spec w z : uintb w z = true <-> uint w z.
Proof. unfold uintb, uint. rewrite andb_true_iff, Z.leb_le, Z.ltb_lt. tauto. Qed.

Lemma pow2_pos w : 0 <= w -> 0 < 2 ^ w.
Proof. intros. apply Z.pow_pos_nonneg; lia. Qed.

Lemma wrap_uint w z : 0 <= w -> uint w (wrap w z).
Proof. intros. apply Z.mod_pos_bound, pow2_pos, H. Qed.

Lemma wrap_id w z : uint w z -> wrap w z = z.
Proof. apply Z.mod_small. Qed.

Lemma wrap_0 w : wrap w 0 = 0.
Proof. apply Zmod_0_l. Qed.

Lemma wrap_add_l w a b : wrap w (wrap w a + b) = wrap w (a + b).
Proof. apply Zplus_mod_idemp_l. Qed.
Lemma wrap_add_r w a b : wrap w (a + wrap w b) = wrap w (a + b).
Proof. apply Zplus_mod_idemp_r. Qed.
Lemma wrap_sub_l w a b : wrap w (wrap w a - b) = wrap w (a - b).
Proof. apply Zminus_mod_idemp_l. Qed.
Lemma wrap_sub_r w a b : wrap w (a - wrap w b) = wrap w (a - b).
Proof. apply Zminus_mod_idemp_r. Qed.

Lemma wadd_wrap w a b : wadd w (wrap w a) b = wrap w (a + b).
Proof. apply wrap_add_l. Qed.
Lemma wsub_wrap w a b : wsub w (wrap w a) (wrap w b) = wrap w (a - b).
Proof. unfold wsub. rewrite wrap_sub_l, wrap_sub_r. reflexivity. Qed.
Lemma wsub_wrap_l w a b : wsub w (wrap w a) b = wrap w (a - b).
Proof. apply wrap_sub_l. Qed.
Lemma wsub_wrap_r w a b : wsub w a (wrap w b) = wrap w (a - b).
Proof. apply wrap_sub_r. Qed.

Create HintDb teleop.
Create Rewrite HintDb wrap.
Create Rewrite HintDb len.
#[export] Hint Rewrite wadd_wrap wsub_wrap wsub_wrap_l wsub_wrap_r : wrap.
#[export] Hint Resolve wrap_uint pow2_pos : teleop.

(** A distance below the modulus is recovered exactly from wrapped cursors. *)
Lemma wsub_dist w a b :
  0 <= a - b < 2 ^ w -> wsub w (wrap w a) (wrap w b) = a - b.
Proof. intros. rewrite wsub_wrap. apply wrap_id. done. Qed.

Lemma wrap_inj w a b : Z.abs (a - b) < 2 ^ w -> wrap w a = wrap w b -> a = b.
Proof.
  unfold wrap. intros Hd He.
  destruct (Z.eq_dec (2 ^ w) 0) as [E|E]; [lia|].
  pose proof (Z.div_mod a _ E). pose proof (Z.div_mod b _ E).
  assert (a / 2 ^ w = b / 2 ^ w) by nia. nia.
Qed.

Lemma to_signed_wrap w d : 0 < w -> - 2 ^ (w - 1) <= d < 2 ^ (w - 1) ->
  to_signed w (wrap w d) = d.
Proof.
  intros Hw Hd. assert (E : 2 ^ w = 2 * 2 ^ (w - 1)).
  { rewrite <- Z.pow_succ_r by lia. f_equal. lia. }
  unfold to_signed, wrap. destruct (Z.le_gt_cases 0 d).
  - rewrite Z.mod_small by lia. destruct (Z.ltb_spec d (2 ^ (w - 1))); lia.
  - replace (d mod 2 ^ w) with (d + 2 ^ w).
    + destruct (Z.ltb_spec (d + 2 ^ w) (2 ^ (w - 1))); lia.
    + rewrite <- (Z.mod_small (d + 2 ^ w) (2 ^ w)) by lia.
      rewrite <- (Z.mod_add d 1 (2 ^ w)) by lia. f_equal. lia.
Qed.

(** ** Masks and powers of two *)

(** [usize::next_power_of_two] (no overflow for capacities below [2^63]). *)
Definition next_power_of_two (n : Z) : Z := 2 ^ Z.log2_up n.
Definition is_power_of_two (n : Z) : bool := (0 <? n) && (2 ^ Z.log2 n =? n).
Definition pow2 (n : Z) : Prop := exists k, 0 <= k /\ n = 2 ^ k.

Lemma next_power_of_two_pow2 n : pow2 (next_power_of_two n).
Proof. exists (Z.log2_up n). split; [apply Z.log2_up_nonneg | done]. Qed.

Lemma next_power_of_two_ge n : n <= next_power_of_two n.
Proof.
  unfold next_power_of_two. destruct (Z.le_gt_cases n 1).
  - rewrite Z.log2_up_eqn0 by lia. simpl. lia.
  - apply Z.log2_up_spec. lia.
Qed.

Lemma next_power_of_two_le n k :
  0 <= k -> n <= 2 ^ k -> next_power_of_two n <= 2 ^ k.
Proof.
  intros. unfold next_power_of_two. apply Z.pow_le_mono_r; [lia|].
  rewrite <- (Z.log2_up_pow2 k) by lia. apply Z.log2_up_le_mono. done.
Qed.

Lemma pow2_ge1 n : pow2 n -> 1 <= n.
Proof. intros (k & ? & ->). pose proof (pow2_pos k). lia. Qed.

Lemma is_power_of_two_spec n : is_power_of_two n = true <-> pow2 n.
Proof.
  unfold is_power_of_two. rewrite andb_true_iff, Z.ltb_lt, Z.eqb_eq. split.
  - intros [? <-]. exists (Z.log2 n). split; [apply Z.log2_nonneg | done].
  - intros (k & ? & ->). rewrite Z.log2_pow2 by done.
    split; [apply pow2_pos; done | done].
Qed.

(** [x & (cap - 1)] is [x mod cap] when [cap] is a power of two. *)
Lemma land_mask n cap : pow2 cap -> Z.land n (cap - 1) = n mod cap.
Proof.
  intros (k & ? & ->). rewrite <- Z.land_ones by done.
  f_equal. rewrite Z.ones_equiv. lia.
Qed.

(** The mask of a wrapped cursor is the mask of the unbounded one. *)
Lemma wrap_mod n w cap : pow2 cap -> cap <= 2 ^ w -> 0 <= w ->
  wrap w n mod cap = n mod cap.
Proof.
  intros (k & Hk & ->) Hle Hw. unfold wrap.
  assert (k <= w) by (destruct (Z.le_gt_cases k w); [done|];
    pose proof (Z.pow_lt_mono_r 2 w k); lia).
  apply Z.mod_mod_divide.
  exists (2 ^ (w - k)). rewrite <- Z.pow_add_r by lia. f_equal. lia.
Qed.

(** Two indices less than [cap] apart with the same residue are equal. *)
Lemma mod_inj_dist cap a b : 0 < cap -> Z.abs (a - b) < cap ->
  a mod cap = b mod cap -> a = b.
Proof.
  intros Hc Hd He.
  pose proof (Z.div_mod a cap). pose proof (Z.div_mod b cap).
  assert (a / cap = b / cap) by nia. nia.
Qed.

(** ** Little-endian byte images *)

Fixpoint le_bytes (n : nat) (z : Z) : list Z :=
  match n with
  | O => []
  | S n => z mod 256 :: le_bytes n (z / 256)
  end.

Fixpoint le_val (bs : list Z) : Z :=
  match bs with
  | [] => 0
  | b :: bs => b + 256 * le_val bs
  end.

Lemma length_le_bytes n z : length (le_bytes n z) = n.
Proof. revert z. induction n; intros; simpl; auto. Qed.

Lemma le_bytes_bytes n z : bytes (le_bytes n z).
Proof.
  revert z. induction n; intros; simpl; constructor; [|apply IHn].
  apply Z.mod_pos_bound. lia.
Qed.

Lemma pow2_succ8 n : 2 ^ (8 * Z.of_nat (S n)) = 256 * 2 ^ (8 * Z.of_nat n).
Proof.
  replace (8 * Z.of_nat (S n)) with (8 + 8 * Z.of_nat n) by lia.
  rewrite Z.pow_add_r by lia. reflexivity.
Qed.

Lemma le_val_bytes n z : le_val (le_bytes n z) = wrap (8 * Z.of_nat n) z.
Proof.
  revert z. induction n as [|n IH]; intros; cbn [le_bytes le_val].
  - unfold wrap. rewrite Z.mod_1_r. done.
  - rewrite IH. unfold wrap. rewrite pow2_succ8, Z.rem_mul_r; [lia|lia|].
    apply pow2_pos. lia.
Qed.

Lemma le_val_uint bs : bytes bs -> uint (8 * Z.of_nat (length bs)) (le_val bs).
Proof.
  induction 1 as [|b bs Hb _ IH]; simpl length; unfold uint in *.
  - simpl. lia.
  - rewrite pow2_succ8. simpl. unfold byte, uint in Hb. simpl in Hb. lia.
Qed.

Lemma le_bytes_val bs : bytes bs -> le_bytes (length bs) (le_val bs) = bs.
Proof.
  induction 1 as [|b bs Hb _ IH]; [done|]. cbn [length le_bytes le_val].
  unfold byte, uint in Hb. simpl in Hb.
  rewrite (Z.mul_comm 256), Z.mod_add, Z.mod_small, Z.div_add by lia.
  rewrite (Z.div_small b) by lia. rewrite Z.add_0_l, IH. done.
Qed.

Lemma le_val_bytes_id n z : uint (8 * Z.of_nat n) z -> le_val (le_bytes n z) = z.
Proof. intros. rewrite le_val_bytes. apply wrap_id. done. Qed.

Lemma le_val_inj a b : bytes a -> bytes b -> length a = length b -> le_val a = le_val b -> a = b.
Proof. intros Ha Hb Hl E. rewrite <- (le_bytes_val a Ha), <- (le_bytes_val b Hb), E, Hl. done. Qed.

#[export] Hint Rewrite length_le_bytes : len.
#[export] Hint Rewrite @length_app @length_take @length_drop @length_insert
  @length_replicate @length_fmap : len.
#[export] Hint Resolve le_bytes_bytes le_val_uint : teleop.

(** the low [n] bits and what lies above them *)
Lemma lor_disjoint n a b : 0 <= n -> uint n a -> Z.lor a (Z.shiftl b n) = a + b * 2 ^ n.
Proof.
  intros Hn Ha. rewrite Z.shiftl_mul_pow2 by done.
  assert (E : Z.land a (b * 2 ^ n) = 0).
  { apply Z.bits_inj'. intros i Hi. rewrite Z.land_spec, Z.bits_0, <- Z.shiftl_mul_pow2, Z.shiftl_spec by lia.
    destruct (Z.ltb_spec i n).
    - rewrite (Z.testbit_neg_r b) by lia. apply andb_false_r.
    - replace (Z.testbit a i) with false; [done|]. symmetry. rewrite <- (Z.mod_small a (2 ^ n)) by apply Ha.
      by rewrite Z.mod_pow2_bits_high by lia. }
  pose proof (Z.add_lor_land a (b * 2 ^ n)). lia.
Qed.

(** ** List helpers *)

(** [a ++ b] with [b] written over [l] at offset [i]
    ([out[i..i + b.len()].copy_from_slice(b)]); out of range panics. *)
Definition splice {A} (l : list A) (i : nat) (b : list A) : list A :=
  take i l ++ b ++ drop (i + length b) l.
Definition copy_from_slice {A} (l : list A) (i : nat) (b : list A) : exec (list A) :=
  if decide (i + length b <= length l)%nat then Ret (splice l i b) else Panic.

Lemma length_splice {A} (l b : list A) i :
  (i + length b <= length l)%nat -> length (splice l i b) = length l.
Proof. intros. unfold splice. autorewrite with len. lia. Qed.

Lemma take_splice {A} (l b : list A) i :
  (i <= length l)%nat -> take i (splice l i b) = take i l.
Proof.
  intros. unfold splice. rewrite take_app_le by (autorewrite with len; lia).
  apply take_idemp || (rewrite take_take; f_equal; lia).
Qed.

Lemma copy_mid {A} (a b b' c : list A) (i : nat) : i = length a -> length b' = length b ->
  copy_from_slice (a ++ b ++ c) i b' = Ret (a ++ b' ++ c).
Proof.
  intros -> Hb. unfold copy_from_slice. rewrite decide_True by (autorewrite with len; lia).
  unfold splice. by rewrite take_app_length, <- drop_drop, drop_app_length, Hb, drop_app_length.
Qed.

(** filling a fresh buffer from left to right *)
Lemma copy_zeros (a b : list Z) i n : i = length a -> (length b <= n)%nat ->
  copy_from_slice (a ++ replicate n 0) i b = Ret ((a ++ b) ++ replicate (n - length b) 0).
Proof.
  intros Hi Hb. replace n with (length b + (n - length b))%nat at 1 by lia.
  rewrite replicate_add, (copy_mid a _ b _ i Hi) by (by rewrite length_replicate).
  by rewrite <- app_assoc.
Qed.

Lemma copy_zeros_0 (b : list Z) n : (length b <= n)%nat ->
  copy_from_slice (replicate n 0) 0 b = Ret (b ++ replicate (n - length b) 0).
Proof. apply (copy_zeros [] b 0 n eq_refl). Qed.

Lemma copy_len {A} (l b l' : list A) i : copy_from_slice l i b = Ret l' -> length l' = length l.
Proof. unfold copy_from_slice. case_decide; [|done]. intros [= <-]. by apply length_splice. Qed.

(** [bytes[i..i + n]] *)
Definition range {A} (bs : list A) (i n : nat) : exec (list A) :=
  if decide (i + n <= length bs)%nat then Ret (take n (drop i bs)) else Panic.

Lemma range_mid {A} (a b c : list A) (i n : nat) : i = length a -> n = length b ->
  range (a ++ b ++ c) i n = Ret b.
Proof.
  intros -> ->. unfold range. rewrite decide_True by (rewrite !length_app; lia).
  by rewrite drop_app_length, take_app_length.
Qed.

Lemma elem_of_concat {A} (x : A) ls : x ∈ concat ls <-> exists l, x ∈ l /\ l ∈ ls.
Proof.
  rewrite list_elem_of_In, in_concat. setoid_rewrite list_elem_of_In. naive_solver.
Qed.

Lemma insert_neq {A} (l : list A) i a b : l !! i = Some a -> a <> b -> <[i := b]> l <> l.
Proof.
  intros Ha Hne E. apply Hne. rewrite <- E, list_lookup_insert_eq in Ha; [congruence|].
  rewrite E in Ha. apply lookup_lt_Some in Ha. done.
Qed.

(** ** Automation *)

Ltac case_if :=
  match goal with
  | |- context [if ?b then _ else _] => destruct b eqn:?
  | H : context [if ?b then _ else _] |- _ => destruct b eqn:?
  end.

Tactic Notation "case_if" "as" ident(Hb) :=
  match goal with
  | |- context [if ?b then _ else _] => destruct b eqn:Hb
  | H : context [if ?b then _ else _] |- _ => destruct b eqn:Hb
  end.

(** turn boolean tests in the context into arithmetic *)
Ltac zbool :=
  repeat match goal with
  | H : (_ && _)%bool = true |- _ => apply andb_true_iff in H; destruct H
  | H : (_ || _)%bool = false |- _ => apply orb_false_iff in H; destruct H
  | H : (_ =? _) = true |- _ => apply Z.eqb_eq in H
  | H : (_ =? _) = false |- _ => apply Z.eqb_neq in H
  | H : (_ <? _) = true |- _ => apply Z.ltb_lt in H
  | H : (_ <? _) = false |- _ => apply Z.ltb_ge in H
  | H : (_ <=? _) = true |- _ => apply Z.leb_le in H
  | H : (_ <=? _) = false |- _ => apply Z.leb_gt in H
  | H : bool_decide _ = true |- _ => apply bool_decide_eq_true in H
  | H : bool_decide _ = false |- _ => apply bool_decide_eq_false in H
  | H : negb _ = true |- _ => apply negb_true_iff in H
  | H : negb _ = false |- _ => apply negb_false_iff in H
  end.
