(* ===== verification/Text.v ===== *)
(** * Text

    Rust strings and what the standard library does with them: a [String] is the
    list of its [char]s (Unicode scalar values as [Z]), its bytes are their UTF-8
    encoding; decimal and hexadecimal printing of integers, and reading digits
    back. *)

From stdpp Require Import strings.
From S2P Require Import Prelude.

(** the characters of an ASCII literal *)
Definition ascii_bytes (s : string) : list Z :=
  (fun a => Z.of_N (Ascii.N_of_ascii a)) <$> String.list_ascii_of_string s.

Definition ascii (s : list Z) : Prop := Forall (fun c => 0 <= c < 128) s.

#[global] Instance ascii_dec s : Decision (ascii s).
Proof. unfold ascii. apply _. Defined.

(** [char]: a scalar value; [char::from_u32] *)
Definition is_char (c : Z) : bool :=
  (0 <=? c) && (c <? 0x110000) && negb ((0xD800 <=? c) && (c <? 0xE000)).
Definition char_from_u32 (c : Z) : option Z := if is_char c then Some c else None.

(** [char::encode_utf8] and [str::as_bytes] *)
Definition encode_utf8 (c : Z) : list Z :=
  if c <? 0x80 then [c]
  else if c <? 0x800 then [0xC0 + c / 64; 0x80 + c mod 64]
  else if c <? 0x10000 then [0xE0 + c / 4096; 0x80 + (c / 64) mod 64; 0x80 + c mod 64]
  else [0xF0 + c / 262144; 0x80 + (c / 4096) mod 64; 0x80 + (c / 64) mod 64; 0x80 + c mod 64].
Definition utf8 (s : list Z) : list Z := concat (map encode_utf8 s).

Lemma utf8_app a b : utf8 (a ++ b) = utf8 a ++ utf8 b.
Proof. unfold utf8. by rewrite map_app, concat_app. Qed.

Lemma utf8_ascii s : ascii s -> utf8 s = s.
Proof.
  induction 1 as [|c s Hc _ IH]; [done|]. unfold utf8 in *; simpl. rewrite IH.
  unfold encode_utf8. destruct (Z.ltb_spec c 128); [done | lia].
Qed.

(** beyond ASCII every byte of the encoding is at least [0x80] *)
Lemma encode_utf8_high c : 128 <= c -> is_char c = true ->
  Forall (fun b => 128 <= b < 256) (encode_utf8 c).
Proof.
  intros H1 H2. unfold is_char in H2. zbool. unfold encode_utf8.
  repeat case_match; zbool; repeat constructor;
    repeat match goal with
    | |- context [?a / ?b] => pose proof (Z.div_mod a b ltac:(lia));
        pose proof (Z.mod_pos_bound a b ltac:(lia)); generalize dependent (a / b); intros
    | |- context [?a mod ?b] => pose proof (Z.mod_pos_bound a b ltac:(lia));
        generalize dependent (a mod b); intros
    end; lia.
Qed.

Lemma encode_utf8_length c : is_char c = true ->
  (1 <= length (encode_utf8 c))%nat /\ (length (encode_utf8 c) = 1%nat -> 0 <= c < 128).
Proof.
  intros H. unfold is_char in H. zbool. unfold encode_utf8.
  repeat case_match; zbool; simpl; lia.
Qed.

(** Only ASCII strings are their own bytes. *)
Lemma utf8_fix s : Forall (fun c => is_char c = true) s ->
  (length s <= length (utf8 s))%nat /\ (length (utf8 s) = length s -> ascii s).
Proof.
  induction 1 as [|c s Hc _ [IH1 IH2]]; [split; [done | by constructor]|].
  destruct (encode_utf8_length c Hc) as [H1 H2].
  unfold utf8 in *; simpl. rewrite length_app. split; [lia|].
  intros E. constructor; [apply H2; lia | apply IH2; lia].
Qed.

(** ** Decimal *)

Definition is_digit (c : Z) : bool := (48 <=? c) && (c <=? 57).
Definition digits (ds : list Z) : Prop := Forall (fun c => is_digit c = true) ds.

(** [{}] of a non-negative integer *)
Fixpoint dec_aux (fuel : nat) (n : Z) (acc : list Z) : list Z :=
  match fuel with
  | O => acc
  | S fuel =>
      let acc := (48 + n mod 10) :: acc in
      if n <? 10 then acc else dec_aux fuel (n / 10) acc
  end.
Definition dec (n : Z) : list Z := dec_aux (S (Z.to_nat (Z.log2 n))) n [].
(** [{}] of a signed integer *)
Definition dec_signed (n : Z) : list Z := if n <? 0 then 45 :: dec (- n) else dec n.

(** the number a digit string denotes *)
Definition dec_val (ds : list Z) : Z := foldl (fun v d => 10 * v + (d - 48)) 0 ds.

(** the longest prefix of digits, and the rest *)
Fixpoint span_digits (b : list Z) : list Z * list Z :=
  match b with
  | [] => ([], [])
  | c :: b' => if is_digit c then let '(ds, r) := span_digits b' in (c :: ds, r) else ([], b)
  end.

Lemma foldl_dec v ds :
  foldl (fun v d => 10 * v + (d - 48)) v ds = v * 10 ^ Z.of_nat (length ds) + dec_val ds.
Proof.
  unfold dec_val. revert v. induction ds as [|d ds IH]; intros v; simpl foldl.
  - simpl length. rewrite Z.pow_0_r. lia.
  - rewrite IH, (IH (10 * 0 + (d - 48))). cbn [length].
    rewrite Nat2Z.inj_succ, Z.pow_succ_r by lia. ring.
Qed.

Lemma dec_val_app a b :
  dec_val (a ++ b) = dec_val a * 10 ^ Z.of_nat (length b) + dec_val b.
Proof. unfold dec_val at 1. by rewrite foldl_app, foldl_dec. Qed.

Lemma dec_val_zeros n : dec_val (replicate n 48) = 0.
Proof.
  induction n as [|n IH]; [done|]. change (replicate (S n) 48) with ([48] ++ replicate n 48).
  rewrite dec_val_app, IH. change (dec_val [48]) with 0. lia.
Qed.

Lemma dec_val_nonneg ds : digits ds -> 0 <= dec_val ds.
Proof.
  induction 1 as [|d ds Hd _ IH]; [done|]. change (d :: ds) with ([d] ++ ds).
  rewrite dec_val_app. unfold is_digit in Hd. zbool.
  assert (0 <= 10 ^ Z.of_nat (length ds)) by (apply Z.pow_nonneg; lia).
  unfold dec_val at 1; simpl. nia.
Qed.

Lemma dec_aux_spec fuel n acc : 0 <= n < 10 ^ Z.of_nat (S fuel) ->
  exists ds, dec_aux (S fuel) n acc = ds ++ acc /\ digits ds /\ dec_val ds = n /\ ds <> [].
Proof.
  revert n acc. induction fuel as [|fuel IH]; intros n acc Hn;
    assert (Hd : is_digit (48 + n mod 10) = true)
      by (unfold is_digit; pose proof (Z.mod_pos_bound n 10); apply andb_true_iff; lia);
    cbn [dec_aux]; destruct (Z.ltb_spec n 10).
  1, 3: exists [48 + n mod 10]; split_and!; [done | by repeat constructor | | done];
    unfold dec_val; simpl; rewrite Z.mod_small by lia; lia.
  - exfalso. change (Z.of_nat 1) with 1 in Hn. lia.
  - assert (Hq : 0 <= n / 10 < 10 ^ Z.of_nat (S fuel)).
    { split; [apply Z.div_pos; lia|]. apply Z.div_lt_upper_bound; [lia|].
      rewrite <- Z.pow_succ_r, <- Nat2Z.inj_succ by lia. lia. }
    destruct (IH (n / 10) ((48 + n mod 10) :: acc) Hq) as (ds & E & H1 & H2 & H3).
    exists (ds ++ [48 + n mod 10]). split_and!.
    + cbn [dec_aux] in E. rewrite E, <- app_assoc. done.
    + apply Forall_app. split; [done | by repeat constructor].
    + rewrite dec_val_app, H2. unfold dec_val; simpl. pose proof (Z.div_mod n 10). lia.
    + by destruct ds.
Qed.

(** printing and reading back *)
Lemma dec_spec n : 0 <= n -> digits (dec n) /\ dec_val (dec n) = n /\ dec n <> [].
Proof.
  intros Hn. unfold dec.
  destruct (dec_aux_spec (Z.to_nat (Z.log2 n)) n []) as (ds & -> & H); [|by rewrite app_nil_r].
  split; [done|]. rewrite Nat2Z.inj_succ, Z2Nat.id by apply Z.log2_nonneg.
  destruct (Z.eq_dec n 0) as [->|]; [done|].
  apply Z.lt_le_trans with (2 ^ Z.succ (Z.log2 n)); [apply Z.log2_spec; lia|].
  apply Z.pow_le_mono_l. lia.
Qed.

Lemma dec_inj a b : 0 <= a -> 0 <= b -> dec a = dec b -> a = b.
Proof.
  intros Ha Hb E. rewrite <- (proj1 (proj2 (dec_spec a Ha))), E. by apply dec_spec.
Qed.

Lemma digits_ascii ds : digits ds -> ascii ds.
Proof. intros H. apply (Forall_impl _ _ _ H). intros c Hc. unfold is_digit in Hc. zbool. lia. Qed.

Lemma digits_zeros n : digits (replicate n 48).
Proof. by apply Forall_replicate. Qed.

(** the first character after a digit string is not a digit *)
Definition no_digit (rest : list Z) : Prop :=
  match rest with [] => True | c :: _ => is_digit c = false end.

Lemma span_digits_app ds rest : digits ds -> no_digit rest ->
  span_digits (ds ++ rest) = (ds, rest).
Proof.
  intros Hd Hr. induction Hd as [|c ds Hc _ IH]; simpl.
  - destruct rest as [|c rest]; [done|]. simpl in Hr |- *. by rewrite Hr.
  - by rewrite Hc, IH.
Qed.

Lemma span_digits_length b ds r : span_digits b = (ds, r) -> length b = (length ds + length r)%nat.
Proof.
  revert ds r. induction b as [|c b IH]; intros ds r; simpl; [by intros [= <- <-]|].
  destruct (is_digit c); [|by intros [= <- <-]].
  destruct (span_digits b) as [ds' r']. intros [= <- <-]. simpl. by rewrite (IH ds' r').
Qed.

(** ** Hexadecimal *)

Definition hex_digit (n : Z) : Z := if n <? 10 then 48 + n else 87 + n.
(** [char::to_digit(16)] *)
Definition hex_val (c : Z) : option Z :=
  if is_digit c then Some (c - 48)
  else if (97 <=? c) && (c <=? 102) then Some (c - 87)
  else if (65 <=? c) && (c <=? 70) then Some (c - 55)
  else None.

Lemma hex_val_digit n : 0 <= n < 16 -> hex_val (hex_digit n) = Some n.
Proof.
  intros H. unfold hex_digit, hex_val, is_digit.
  destruct (Z.ltb_spec n 10).
  - replace ((48 <=? 48 + n) && (48 + n <=? 57)) with true by (symmetry; apply andb_true_iff; lia).
    f_equal. lia.
  - replace ((48 <=? 87 + n) && (87 + n <=? 57)) with false by (symmetry; apply andb_false_iff; lia).
    replace ((97 <=? 87 + n) && (87 + n <=? 102)) with true by (symmetry; apply andb_true_iff; lia).
    f_equal. lia.
Qed.

(** ** Strings of the standard library *)

Section List.
Context {A : Type} `{!EqDecision A}.

(** [windows(n).position(..)], [str::find]: the first occurrence *)
Fixpoint find_at (needle hay : list A) : option nat :=
  if bool_decide (take (length needle) hay = needle) then Some 0%nat
  else match hay with
       | [] => None
       | _ :: hay => S <$> find_at needle hay
       end.

(** [str::split_once] *)
Definition split_once (sep : list A) (s : list A) : option (list A * list A) :=
  (fun p => (take p s, drop (p + length sep) s)) <$> find_at sep s.

(** [str::split] with a non-empty separator; a string has at most [length]
    separators *)
Fixpoint split_aux (fuel : nat) (sep s : list A) : list (list A) :=
  match fuel, split_once sep s with
  | S fuel, Some (a, b) => a :: split_aux fuel sep b
  | _, _ => [s]
  end.
Definition split (sep s : list A) : list (list A) := split_aux (length s) sep s.

Lemma find_at_spec needle hay p : find_at needle hay = Some p ->
  (p + length needle <= length hay)%nat /\ take (length needle) (drop p hay) = needle.
Proof.
  revert p. induction hay as [|c hay IH]; intros p; simpl.
  - case_if; [|done]. intros [= <-]. apply bool_decide_eq_true in Heqb.
    apply (f_equal length) in Heqb as Hl. rewrite length_take in Hl. simpl in *.
    split; [lia | done].
  - case_if.
    + intros [= <-]. apply bool_decide_eq_true in Heqb. rewrite drop_0. split; [|done].
      apply (f_equal length) in Heqb. rewrite length_take in Heqb. cbn [length] in *. lia.
    + destruct (find_at needle hay) as [q|] eqn:E; [|done]. intros [= <-].
      destruct (IH q eq_refl). simpl. split; [lia | done].
Qed.

(** an occurrence stays the first when more is appended *)
Lemma find_at_app needle hay more p : find_at needle hay = Some p ->
  find_at needle (hay ++ more) = Some p.
Proof.
  revert p. induction hay as [|c hay IH]; intros p H.
  - simpl in H. case_if; [|done]. injection H as <-. apply bool_decide_eq_true in Heqb.
    assert (needle = []) as -> by (rewrite <- Heqb; apply take_nil).
    by destruct more.
  - pose proof (find_at_spec _ _ _ H) as [Hl _]. cbn [find_at app] in H |- *.
    assert (E : forall q, (q + length needle <= length (c :: hay))%nat ->
      take (length needle) (c :: hay ++ more) = take (length needle) (c :: hay)).
    { intros q Hq. change (c :: hay ++ more) with ((c :: hay) ++ more).
      apply take_app_le. lia. }
    rewrite (E p Hl). case_if; [done|].
    destruct (find_at needle hay) as [q|] eqn:Eq; [|done]. by rewrite (IH q eq_refl).
Qed.
End List.

(** *** One-character separators *)

Lemma split_aux_fuel (sep s : list Z) fuel : sep <> [] -> (length s <= fuel)%nat ->
  split_aux fuel sep s = split_aux (length s) sep s.
Proof.
  intros Hsep. remember (length s) as n eqn:En. revert s fuel En.
  induction (lt_wf n) as [n _ IH]. intros s fuel -> Hf.
  destruct fuel as [|fuel]; [by replace (length s) with 0%nat by lia|].
  assert (Hl : forall p, find_at sep s = Some p -> (length (drop (p + length sep) s) < length s)%nat).
  { intros p Ep. apply find_at_spec in Ep as [Hp _]. rewrite length_drop. destruct sep; simpl in *; [done|lia]. }
  cbn [split_aux]. unfold split_once. destruct (length s) as [|m] eqn:Em.
  - destruct s; [|done]. by destruct sep.
  - cbn [split_aux]. unfold split_once. destruct (find_at sep s) as [p|] eqn:Ep; [|done]. simpl. f_equal.
    specialize (Hl p eq_refl). rewrite (IH _ Hl _ fuel eq_refl) by lia.
    rewrite (IH _ Hl _ m eq_refl) by lia. done.
Qed.

Lemma find_at_one (c : Z) a b : c ∉ a -> find_at [c] (a ++ c :: b) = Some (length a).
Proof.
  induction a as [|x a IH]; intros Hc; simpl.
  - rewrite bool_decide_true by by rewrite firstn_O. done.
  - rewrite firstn_O, bool_decide_false by (intros [= ->]; apply Hc; set_solver).
    by rewrite IH by set_solver.
Qed.
Lemma find_at_none (c : Z) a : c ∉ a -> find_at [c] a = None.
Proof.
  induction a as [|x a IH]; intros Hc; simpl; [done|].
  rewrite firstn_O, bool_decide_false by (intros [= ->]; apply Hc; set_solver).
  by rewrite IH by set_solver.
Qed.

Lemma split_cons (c : Z) a b : c ∉ a -> split [c] (a ++ c :: b) = a :: split [c] b.
Proof.
  intros Hc. unfold split. rewrite length_app. cbn [length]. rewrite Nat.add_succ_r. cbn [split_aux].
  unfold split_once. rewrite find_at_one by done. cbn [fmap option_fmap option_map length].
  rewrite take_app_length. f_equal. rewrite Nat.add_1_r.
  replace (drop (S (length a)) (a ++ c :: b)) with b
    by (rewrite drop_app_ge by lia; by replace (S (length a) - length a)%nat with 1%nat by lia).
  apply split_aux_fuel; [done | lia].
Qed.
Lemma split_one (c : Z) a : c ∉ a -> split [c] a = [a].
Proof. intros Hc. unfold split. destruct a; [done|]. cbn [length split_aux]. unfold split_once. by rewrite find_at_none. Qed.

Lemma no_char (c : Z) s : forallb (fun x => negb (x =? c)) s = true -> c ∉ s.
Proof.
  intros Hs Hin. rewrite forallb_forall in Hs. apply list_elem_of_In, Hs in Hin.
  by rewrite Z.eqb_refl in Hin.
Qed.

(** text without the needle's first character is skipped *)
Lemma find_at_skip (c : Z) needle a b : c ∉ a ->
  find_at (c :: needle) (a ++ b) = Nat.add (length a) <$> find_at (c :: needle) b.
Proof.
  induction a as [|x a IH]; intros Hc; [cbn [app]; by destruct (find_at (c :: needle) b)|].
  cbn [find_at app length take].
  rewrite bool_decide_false by (intros [= ->]; apply Hc; set_solver).
  rewrite IH by set_solver. by destruct (find_at _ b).
Qed.

(** [str::from_utf8]: shortest forms only, no surrogates *)
Definition is_cont (b : Z) : bool := (0x80 <=? b) && (b <? 0xC0).
Fixpoint from_utf8 (bs : list Z) : option (list Z) :=
  match bs with
  | [] => Some []
  | b0 :: r =>
      if b0 <? 0x80 then cons b0 <$> from_utf8 r
      else if (0xC2 <=? b0) && (b0 <=? 0xDF) then
        match r with
        | b1 :: r => if is_cont b1 then cons ((b0 - 0xC0) * 64 + (b1 - 0x80)) <$> from_utf8 r else None
        | _ => None
        end
      else if (0xE0 <=? b0) && (b0 <=? 0xEF) then
        match r with
        | b1 :: b2 :: r =>
            if is_cont b1 && is_cont b2 && negb ((b0 =? 0xE0) && (b1 <? 0xA0))
               && negb ((b0 =? 0xED) && (0xA0 <=? b1)) then
              cons ((b0 - 0xE0) * 4096 + (b1 - 0x80) * 64 + (b2 - 0x80)) <$> from_utf8 r
            else None
        | _ => None
        end
      else if (0xF0 <=? b0) && (b0 <=? 0xF4) then
        match r with
        | b1 :: b2 :: b3 :: r =>
            if is_cont b1 && is_cont b2 && is_cont b3 && negb ((b0 =? 0xF0) && (b1 <? 0x90))
               && negb ((b0 =? 0xF4) && (0x90 <=? b1)) then
              cons ((b0 - 0xF0) * 262144 + (b1 - 0x80) * 4096 + (b2 - 0x80) * 64 + (b3 - 0x80))
                <$> from_utf8 r
            else None
        | _ => None
        end
      else None
  end.

Lemma from_utf8_ascii s : ascii s -> from_utf8 s = Some s.
Proof.
  induction 1 as [|c s Hc _ IH]; [done|]. simpl. destruct (Z.ltb_spec c 0x80); [|lia].
  by rewrite IH.
Qed.

(** [char::is_whitespace] *)
Definition is_whitespace (c : Z) : bool :=
  ((9 <=? c) && (c <=? 13)) || (c =? 32) || (c =? 0x85) || (c =? 0xA0) || (c =? 0x1680)
  || ((0x2000 <=? c) && (c <=? 0x200A)) || (c =? 0x2028) || (c =? 0x2029) || (c =? 0x202F)
  || (c =? 0x205F) || (c =? 0x3000).

Fixpoint trim_start (s : list Z) : list Z :=
  match s with
  | [] => []
  | c :: s' => if is_whitespace c then trim_start s' else s
  end.
Definition trim (s : list Z) : list Z := reverse (trim_start (reverse (trim_start s))).

(** the maximal runs of non-whitespace; [w] is the run being read *)
Fixpoint words (s w : list Z) : list (list Z) :=
  match s with
  | [] => if bool_decide (w = []) then [] else [w]
  | c :: s =>
      if is_whitespace c then (if bool_decide (w = []) then words s [] else w :: words s [])
      else words s (w ++ [c])
  end.
Definition split_whitespace (s : list Z) : list (list Z) := words s [].

Definition ascii_lower (c : Z) : Z := if (65 <=? c) && (c <=? 90) then c + 32 else c.
Definition to_ascii_lowercase (s : list Z) : list Z := map ascii_lower s.

(** [str::to_lowercase] follows the Unicode tables; on ASCII it is the ASCII map. *)
Class Unicode := {
  to_lowercase : list Z -> list Z;
  to_lowercase_ascii s : ascii s -> to_lowercase s = to_ascii_lowercase s
}.

(** [str::strip_prefix], [str::ends_with] *)
Definition strip_prefix (p s : list Z) : option (list Z) :=
  if bool_decide (take (length p) s = p) then Some (drop (length p) s) else None.
Definition ends_with (s p : list Z) : bool :=
  bool_decide (drop (length s - length p) s = p).

Lemma strip_prefix_app p s : strip_prefix p (p ++ s) = Some s.
Proof.
  unfold strip_prefix. rewrite bool_decide_true by by rewrite take_app_length.
  by rewrite drop_app_length.
Qed.

(** a string by its bytes *)
Definition string_of (s : list Z) : string :=
  String.string_of_list_ascii ((fun b => Ascii.ascii_of_N (Z.to_N b)) <$> utf8 s).

(** [str::parse] of an unsigned integer of [w] bits *)
Definition parse_uint (w : Z) (s : list Z) : option Z :=
  let ds := match s with c :: s' => if c =? 43 then s' else s | [] => [] end in
  if bool_decide (ds = []) || negb (forallb is_digit ds) then None
  else if dec_val ds <? 2 ^ w then Some (dec_val ds) else None.

Lemma parse_uint_range w s n : parse_uint w s = Some n -> 0 <= n < 2 ^ w.
Proof.
  unfold parse_uint. set (ds := match s with c :: s' => if c =? 43 then s' else s | [] => [] end).
  destruct (bool_decide (ds = []) || negb (forallb is_digit ds)) eqn:E; [done|]. zbool.
  case_if; [|done]. intros [= <-]. zbool. split; [|done].
  apply dec_val_nonneg. apply Forall_forall. intros c Hc.
  rewrite forallb_forall in H0. apply H0. by apply list_elem_of_In.
Qed.

(** an integer printed is parsed back *)
Lemma parse_uint_dec w n : 0 <= n < 2 ^ w -> parse_uint w (dec n) = Some n.
Proof.
  intros [H0 Hw]. destruct (dec_spec n H0) as (Hd & Hv & Hne). unfold parse_uint.
  assert (E : match dec n with c :: s' => if c =? 43 then s' else dec n | [] => [] end = dec n).
  { destruct Hd as [|c ds Hc _]; [done|]. unfold is_digit in Hc. zbool.
    destruct (Z.eqb_spec c 43); [lia | done]. }
  rewrite E, bool_decide_false by done. simpl.
  assert (F : forallb is_digit (dec n) = true).
  { apply forallb_forall. intros c Hc. rewrite <- list_elem_of_In in Hc.
    by apply (proj1 (Forall_forall _ _) Hd). }
  rewrite F, Hv. simpl. by destruct (Z.ltb_spec n (2 ^ w)); [|lia].
Qed.

Lemma digits_no c ds : digits ds -> is_digit c = false -> c ∉ ds.
Proof. intros Hd Hc Hin. apply (proj1 (Forall_forall _ _) Hd) in Hin. congruence. Qed.

Lemma dec_no c n : 0 <= n -> is_digit c = false -> c ∉ dec n.
Proof. intros Hn. by apply digits_no, dec_spec. Qed.

(** *** Trimming *)

Definition visible (s : list Z) : Prop := Forall (fun c => is_whitespace c = false) s.

Lemma trim_start_visible c s : is_whitespace c = false -> trim_start (c :: s) = c :: s.
Proof. simpl. by intros ->. Qed.

Lemma trim_unchanged s : visible s -> trim s = s.
Proof.
  intros Hs. assert (E : forall l, visible l -> trim_start l = l).
  { intros l Hl. destruct Hl; [done|]. by apply trim_start_visible. }
  unfold trim. rewrite (E s Hs), E by by apply Forall_reverse. apply reverse_involutive.
Qed.

Lemma trim_space s : visible s -> trim (32 :: s) = s.
Proof. intros Hs. exact (trim_unchanged s Hs). Qed.

Lemma digits_visible ds : digits ds -> visible ds.
Proof.
  intros Hd. eapply Forall_impl; [exact Hd|]. intros c Hc. unfold is_digit in Hc. unfold is_whitespace. zbool.
  repeat (apply orb_false_iff; split); try apply andb_false_iff; lia.
Qed.

Lemma dec_visible n : 0 <= n -> visible (dec n).
Proof. intros Hn. by apply digits_visible, dec_spec. Qed.

Lemma trim_space_r s : visible s -> trim (s ++ [32]) = s.
Proof.
  intros Hs. destruct s as [|c s]; [done|]. unfold trim. inversion Hs as [|? ? Hc Hs']. subst.
  cbn [app]. rewrite trim_start_visible by done. rewrite app_comm_cons, reverse_app.
  change (reverse [32] ++ reverse (c :: s)) with (32 :: reverse (c :: s)). cbn [trim_start].
  change (is_whitespace 32) with true. cbv iota.
  assert (E : forall l, visible l -> trim_start l = l) by (intros l Hl; destruct Hl; [done|by apply trim_start_visible]).
  rewrite E by by apply Forall_reverse. apply reverse_involutive.
Qed.

Lemma trim_visible s c d : is_whitespace c = false -> is_whitespace d = false ->
  trim (c :: s ++ [d]) = c :: s ++ [d].
Proof.
  intros Hc Hd. unfold trim. simpl. rewrite Hc.
  replace (c :: s ++ [d]) with ((c :: s) ++ [d]) by done. rewrite reverse_app. simpl.
  rewrite Hd. change (d :: reverse (c :: s)) with ([d] ++ reverse (c :: s)).
  by rewrite reverse_app, reverse_involutive.
Qed.

(** a table that knows the ASCII letters only *)
Definition ascii_unicode : Unicode :=
  {| to_lowercase := to_ascii_lowercase; to_lowercase_ascii := fun s _ => eq_refl |}.
