(* ===== verification/Ring.v ===== *)
(** * The SPSC ring: [tpt-t-ring/src/spsc.rs]

    The wait-free single-producer/single-consumer ring as its two owners see it
    in sequence, and [BoundedFifo], the interface the other components use rings
    through.  [RingConc] runs the same accesses from two threads, [RingLayout]
    puts the ring over shared memory. *)

From S2P Require Import Prelude.

(** ** The interface clients program against *)

Class BoundedFifo (Q A : Type) := {
  fifo_with_capacity : Z -> Q;
  fifo_capacity : Q -> Z;
  fifo_push : Q -> A -> exec (Q * result unit A);
  fifo_pop : Q -> exec (Q * option A);
  fifo_len : Q -> Z;
  (** [fifo_rep q l]: [q] is well formed and holds [l], oldest first *)
  fifo_rep : Q -> list A -> Prop;
  (** the smallest capacity the implementation supports *)
  fifo_min : Z;
  fifo_new_rep c : fifo_min <= c <= 2 ^ 63 -> fifo_rep (fifo_with_capacity c) [];
  fifo_new_cap c : fifo_capacity (fifo_with_capacity c) = next_power_of_two (Z.max c 1);
  fifo_push_ok q l v : fifo_rep q l -> Z.of_nat (length l) < fifo_capacity q ->
    exists q', fifo_push q v = Ret (q', Ok tt) /\ fifo_rep q' (l ++ [v]) /\
               fifo_capacity q' = fifo_capacity q;
  fifo_push_full q l v : fifo_rep q l -> fifo_capacity q <= Z.of_nat (length l) ->
    fifo_push q v = Ret (q, Err v);
  fifo_pop_some q v l : fifo_rep q (v :: l) ->
    exists q', fifo_pop q = Ret (q', Some v) /\ fifo_rep q' l /\
               fifo_capacity q' = fifo_capacity q;
  fifo_pop_nil q : fifo_rep q [] -> fifo_pop q = Ret (q, None);
  fifo_len_rep q l : fifo_rep q l -> fifo_len q = Z.of_nat (length l);
  fifo_bound q l : fifo_rep q l -> Z.of_nat (length l) <= fifo_capacity q
}.

(** ** The hot algorithm (spsc.rs) *)

Module Spsc.
Section Spsc.
Context {T : Type}.

(** The cells ([MaybeUninit<T>]; [None] is uninitialised) and the two
    cursors.  A read leaves the cell's bytes in place. *)
Record ring_mem := { slots : list (option T); head : Z; tail : Z }.

Definition do_push (m : ring_mem) (mask cap : Z) (value : T)
    : exec (ring_mem * result unit T) :=
  let t := tail m in
  if cap <=? wsub 64 t (head m) then Ret (m, Err value)
  else
    let i := Z.to_nat (Z.land t mask) in
    if decide (i < length (slots m))%nat then
      Ret ({| slots := <[i := Some value]> (slots m);
              head := head m;
              tail := wadd 64 t 1 |}, Ok tt)
    else Undef.

Definition do_pop (m : ring_mem) (mask : Z) : exec (ring_mem * option T) :=
  let h := head m in
  if h =? tail m then Ret (m, None)
  else
    match slots m !! Z.to_nat (Z.land h mask) with
    | Some (Some value) =>
        Ret ({| slots := slots m; head := wadd 64 h 1; tail := tail m |}, Some value)
    | _ => Undef
    end.

Record SpscRing := { mem : ring_mem; cap : Z }.

Definition with_capacity (capacity : Z) : SpscRing :=
  let cap := next_power_of_two (Z.max capacity 1) in
  {| mem := {| slots := replicate (Z.to_nat cap) None; head := 0; tail := 0 |};
     cap := cap |}.

Definition capacity (r : SpscRing) : Z := cap r.
Definition len (r : SpscRing) : Z := wsub 64 (tail (mem r)) (head (mem r)).
Definition is_empty (r : SpscRing) : bool := len r =? 0.
Definition is_full (r : SpscRing) : bool := cap r <=? len r.

Definition push (r : SpscRing) (value : T) : exec (SpscRing * result unit T) :=
  '(m, res) ← do_push (mem r) (cap r - 1) (cap r) value;
  Ret ({| mem := m; cap := cap r |}, res).

Definition pop (r : SpscRing) : exec (SpscRing * option T) :=
  '(m, res) ← do_pop (mem r) (cap r - 1);
  Ret ({| mem := m; cap := cap r |}, res).

(** the number of elements moved, and the ring after *)
Fixpoint push_slice (r : SpscRing) (slice : list T) : exec (SpscRing * Z) :=
  match slice with
  | [] => Ret (r, 0)
  | v :: slice' =>
      '(r', res) ← push r v;
      match res with
      | Ok _ => '(r'', n) ← push_slice r' slice'; Ret (r'', 1 + n)
      | Err _ => Ret (r', 0)
      end
  end.

(** *** Representation

    [np] values were ever pushed and [nc] popped; the cursors are those counts
    modulo [2^64], and cell [i mod cap] holds the [i]-th value for every [i] in
    [[nc, np)]. *)

Definition cells_hold (sl : list (option T)) (cap nc : Z) (l : list T) : Prop :=
  forall i v, l !! i = Some v ->
    sl !! Z.to_nat ((nc + Z.of_nat i) mod cap) = Some (Some v).

Record mem_rep (m : ring_mem) (cap : Z) (nc : Z) (l : list T) : Prop := {
  rep_pow2 : pow2 cap;
  rep_cap : cap <= 2 ^ 63;
  rep_nc : 0 <= nc;
  rep_head : head m = wrap 64 nc;
  rep_tail : tail m = wrap 64 (nc + Z.of_nat (length l));
  rep_slots : Z.of_nat (length (slots m)) = cap;
  rep_bound : Z.of_nat (length l) <= cap;
  rep_cells : cells_hold (slots m) cap nc l
}.

Definition rep (r : SpscRing) (l : list T) : Prop :=
  exists nc, mem_rep (mem r) (cap r) nc l.

Lemma mask_index n cap : pow2 cap -> cap <= 2 ^ 63 ->
  Z.land (wrap 64 n) (cap - 1) = n mod cap.
Proof.
  intros. rewrite land_mask by done. apply wrap_mod; [done| |lia].
  transitivity (2 ^ 63); [done | lia].
Qed.

Lemma mod_index_lt n cap : 0 < cap -> (Z.to_nat (n mod cap) < Z.to_nat cap)%nat.
Proof. intros. pose proof (Z.mod_pos_bound n cap). lia. Qed.

(** Writing the cell of a fresh index keeps the cells of a full window. *)
Lemma cells_hold_snoc sl cap nc l v :
  pow2 cap -> 0 <= nc -> Z.of_nat (length sl) = cap ->
  Z.of_nat (length l) < cap -> cells_hold sl cap nc l ->
  cells_hold (<[Z.to_nat ((nc + Z.of_nat (length l)) mod cap) := Some v]> sl) cap nc (l ++ [v]).
Proof.
  intros Hp Hnc Hlen Hlt Hc i w Hi. pose proof (pow2_ge1 _ Hp).
  destruct (decide (i = length l)) as [->|Hne].
  - rewrite list_lookup_insert_eq.
    + rewrite list_lookup_middle in Hi by done. congruence.
    + pose proof (mod_index_lt (nc + Z.of_nat (length l)) cap). lia.
  - apply lookup_app_Some in Hi as [Hi|[Hge Hi]].
    + pose proof (lookup_lt_Some _ _ _ Hi).
      rewrite list_lookup_insert_ne; [by apply Hc|].
      intros He. apply Z2Nat.inj in He; [|apply Z.mod_pos_bound; lia..].
      apply mod_inj_dist in He; lia.
    + pose proof (lookup_lt_Some _ _ _ Hi) as Hlt1. simpl in Hlt1. lia.
Qed.

Lemma cells_hold_tail sl cap nc v l :
  cells_hold sl cap nc (v :: l) -> cells_hold sl cap (nc + 1) l.
Proof.
  intros Hc i w Hi. specialize (Hc (S i) w Hi).
  replace (nc + 1 + Z.of_nat i) with (nc + Z.of_nat (S i)) by lia. done.
Qed.

Lemma rep_used m cap nc l : mem_rep m cap nc l ->
  wsub 64 (tail m) (head m) = Z.of_nat (length l).
Proof.
  intros [? ? ? -> -> ? ? ?]. rewrite wsub_dist; [lia|].
  replace (nc + Z.of_nat (length l) - nc) with (Z.of_nat (length l)) by lia. lia.
Qed.

Lemma do_push_ok m cap nc l v : mem_rep m cap nc l -> Z.of_nat (length l) < cap ->
  exists m', do_push m (cap - 1) cap v = Ret (m', Ok tt) /\ mem_rep m' cap nc (l ++ [v]).
Proof.
  intros Hr Hlt. unfold do_push. rewrite (rep_used _ _ _ _ Hr).
  destruct (Z.leb_spec cap (Z.of_nat (length l))); [lia|].
  destruct Hr as [Hp Hb Hnc Hh Ht Hs Hl Hc]. rewrite Ht, mask_index by done.
  pose proof (pow2_ge1 _ Hp).
  rewrite decide_True by (pose proof (mod_index_lt (nc + Z.of_nat (length l)) cap); lia).
  eexists; split; [done|]. constructor; simpl; autorewrite with len; try done.
  - rewrite wadd_wrap. f_equal. simpl. lia.
  - simpl. lia.
  - by apply cells_hold_snoc.
Qed.

Lemma do_push_full m cap nc l v : mem_rep m cap nc l -> cap <= Z.of_nat (length l) ->
  do_push m (cap - 1) cap v = Ret (m, Err v).
Proof.
  intros Hr ?. unfold do_push. rewrite (rep_used _ _ _ _ Hr).
  destruct (Z.leb_spec cap (Z.of_nat (length l))); [done|lia].
Qed.

Lemma do_pop_some m cap nc v l : mem_rep m cap nc (v :: l) ->
  exists m', do_pop m (cap - 1) = Ret (m', Some v) /\ mem_rep m' cap (nc + 1) l.
Proof.
  intros Hr. pose proof (rep_used _ _ _ _ Hr) as Hu.
  destruct Hr as [Hp Hb Hnc Hh Ht Hs Hl Hc]. unfold do_pop.
  destruct (Z.eqb_spec (head m) (tail m)) as [E|_].
  { rewrite E, <- (wrap_id 64 (tail m)), wsub_wrap, Z.sub_diag in Hu.
    - rewrite wrap_0 in Hu. simpl in Hu. lia.
    - rewrite Ht. apply wrap_uint. lia. }
  rewrite Hh, mask_index by done.
  pose proof (Hc 0%nat v eq_refl) as Hv. rewrite Z.add_0_r in Hv. rewrite Hv.
  eexists; split; [done|]. constructor; simpl in *; try done; try lia.
  - rewrite wadd_wrap. done.
  - rewrite Ht. f_equal. lia.
  - by eapply cells_hold_tail.
Qed.

Lemma do_pop_nil m cap nc : mem_rep m cap nc [] -> do_pop m (cap - 1) = Ret (m, None).
Proof.
  intros [? ? ? Hh Ht]. unfold do_pop. rewrite Hh, Ht. simpl.
  rewrite Z.add_0_r, Z.eqb_refl. done.
Qed.

Lemma rep_with_capacity c : 0 <= c <= 2 ^ 63 -> rep (with_capacity c) [].
Proof.
  intros Hc. exists 0. unfold with_capacity. constructor; simpl; try done.
  - apply next_power_of_two_pow2.
  - apply next_power_of_two_le; lia.
  - rewrite length_replicate. pose proof (next_power_of_two_ge (Z.max c 1)). lia.
  - pose proof (next_power_of_two_ge (Z.max c 1)). lia.
Qed.

Lemma push_ok r l v : rep r l -> Z.of_nat (length l) < cap r ->
  exists r', push r v = Ret (r', Ok tt) /\ rep r' (l ++ [v]) /\ cap r' = cap r.
Proof.
  intros [nc Hr] Hlt. destruct (do_push_ok _ _ _ _ v Hr Hlt) as (m' & E & Hr').
  unfold push. rewrite E. eexists; split; [done|]. split; [by exists nc | done].
Qed.

Lemma push_full r l v : rep r l -> cap r <= Z.of_nat (length l) ->
  push r v = Ret (r, Err v).
Proof.
  intros [nc Hr] ?. unfold push. rewrite (do_push_full _ _ _ _ v Hr) by done.
  destruct r. done.
Qed.

Lemma pop_some r v l : rep r (v :: l) ->
  exists r', pop r = Ret (r', Some v) /\ rep r' l /\ cap r' = cap r.
Proof.
  intros [nc Hr]. destruct (do_pop_some _ _ _ _ _ Hr) as (m' & E & Hr').
  unfold pop. rewrite E. eexists; split; [done|]. split; [by exists (nc + 1) | done].
Qed.

Lemma pop_nil r : rep r [] -> pop r = Ret (r, None).
Proof.
  intros [nc Hr]. unfold pop. rewrite (do_pop_nil _ _ _ Hr). destruct r. done.
Qed.

Lemma len_rep r l : rep r l -> len r = Z.of_nat (length l).
Proof. intros [nc Hr]. by eapply rep_used. Qed.

Lemma rep_le_cap r l : rep r l -> Z.of_nat (length l) <= cap r.
Proof. intros [nc Hr]. by eapply rep_bound. Qed.

End Spsc.
Arguments ring_mem : clear implicits.
Arguments SpscRing : clear implicits.
End Spsc.

#[export] Instance spsc_fifo (A : Type) : BoundedFifo (Spsc.SpscRing A) A := {|
  fifo_with_capacity := Spsc.with_capacity;
  fifo_capacity := Spsc.capacity;
  fifo_push := Spsc.push;
  fifo_pop := Spsc.pop;
  fifo_len := Spsc.len;
  fifo_rep := Spsc.rep;
  fifo_min := 0;
  fifo_new_rep := Spsc.rep_with_capacity;
  fifo_new_cap := fun c => eq_refl;
  fifo_push_ok := Spsc.push_ok;
  fifo_push_full := Spsc.push_full;
  fifo_pop_some := Spsc.pop_some;
  fifo_pop_nil := Spsc.pop_nil;
  fifo_len_rep := Spsc.len_rep;
  fifo_bound := Spsc.rep_le_cap
|}.

(** ** Clients of a FIFO: drain loops and operation sequences *)

Section Clients.
Context {Q A : Type} `{!BoundedFifo Q A}.
Implicit Types (q : Q) (l : list A).

(** [while let Some(v) = ring.pop() { .. }]: the values in pop order. *)
Fixpoint fifo_drain (fuel : nat) (q : Q) : exec (Q * list A) :=
  match fuel with
  | O => NoFuel
  | S fuel =>
      '(q', res) ← fifo_pop q;
      match res with
      | None => Ret (q', [])
      | Some v => '(q'', vs) ← fifo_drain fuel q'; Ret (q'', v :: vs)
      end
  end.

Lemma fifo_drain_spec l : forall fuel q, fifo_rep q l -> (length l < fuel)%nat ->
  exists q', fifo_drain fuel q = Ret (q', l) /\ fifo_rep q' [] /\
             fifo_capacity q' = fifo_capacity q.
Proof.
  induction l as [|v l IH]; intros [|fuel] q Hr Hf; simpl in Hf; try lia; cbn [fifo_drain].
  - rewrite (fifo_pop_nil _ Hr). simpl. eauto.
  - destruct (fifo_pop_some _ _ _ Hr) as (q' & -> & Hr' & Hc).
    destruct (IH fuel q' Hr') as (q'' & E & Hr'' & Hc''); [lia|].
    cbn. rewrite E. cbn. eexists. split; [done|]. split; [done | congruence].
Qed.

Inductive fifo_op := OpPush (v : A) | OpPop.
Inductive fifo_out := OutPushed | OutRejected (v : A) | OutPopped (o : option A).

Definition fifo_exec (q : Q) (op : fifo_op) : exec (Q * fifo_out) :=
  match op with
  | OpPush v => '(q', r) ← fifo_push q v;
      Ret (q', match r with Ok _ => OutPushed | Err w => OutRejected w end)
  | OpPop => '(q', o) ← fifo_pop q; Ret (q', OutPopped o)
  end.

Fixpoint fifo_run (q : Q) (ops : list fifo_op) : exec (Q * list fifo_out) :=
  match ops with
  | [] => Ret (q, [])
  | op :: ops =>
      '(q', o) ← fifo_exec q op;
      '(q'', os) ← fifo_run q' ops;
      Ret (q'', o :: os)
  end.

(** The specification: a list that refuses pushes at [cap] elements. *)
Definition spec_exec (cap : Z) (l : list A) (op : fifo_op) : list A * fifo_out :=
  match op with
  | OpPush v => if Z.of_nat (length l) <? cap then (l ++ [v], OutPushed)
                else (l, OutRejected v)
  | OpPop => match l with
             | [] => ([], OutPopped None)
             | v :: l' => (l', OutPopped (Some v))
             end
  end.

Fixpoint spec_run (cap : Z) (l : list A) (ops : list fifo_op) : list A * list fifo_out :=
  match ops with
  | [] => (l, [])
  | op :: ops =>
      let '(l', o) := spec_exec cap l op in
      let '(l'', os) := spec_run cap l' ops in
      (l'', o :: os)
  end.

Lemma fifo_exec_refines q l op : fifo_rep q l ->
  exists q', fifo_exec q op = Ret (q', (spec_exec (fifo_capacity q) l op).2) /\
             fifo_rep q' (spec_exec (fifo_capacity q) l op).1 /\
             fifo_capacity q' = fifo_capacity q.
Proof.
  intros Hr. destruct op as [v|]; simpl.
  - destruct (Z.ltb_spec (Z.of_nat (length l)) (fifo_capacity q)).
    + destruct (fifo_push_ok _ _ v Hr) as (q' & -> & ? & ?); [done|]. cbn. eauto.
    + rewrite (fifo_push_full _ _ v Hr) by done. cbn. eauto.
  - destruct l as [|v l].
    + rewrite (fifo_pop_nil _ Hr). cbn. eauto.
    + destruct (fifo_pop_some _ _ _ Hr) as (q' & -> & ? & ?). cbn. eauto.
Qed.

Lemma fifo_run_refines ops : forall q l, fifo_rep q l ->
  exists q', fifo_run q ops = Ret (q', (spec_run (fifo_capacity q) l ops).2) /\
             fifo_rep q' (spec_run (fifo_capacity q) l ops).1 /\
             fifo_capacity q' = fifo_capacity q.
Proof.
  induction ops as [|op ops IH]; intros q l Hr; [simpl; eauto|].
  destruct (fifo_exec_refines q l op Hr) as (q1 & E1 & Hr1 & Hc1).
  destruct (IH _ _ Hr1) as (q2 & E2 & Hr2 & Hc2). rewrite Hc1 in *.
  cbn [fifo_run spec_run]. rewrite E1. cbn. rewrite E2. cbn.
  destruct (spec_exec _ l op) as [l1 o1]. simpl in *.
  destruct (spec_run _ l1 ops) as [l2 os]. simpl in *.
  eexists. split; [done|]. split; [done | congruence].
Qed.

End Clients.
Arguments fifo_op : clear implicits.
Arguments fifo_out : clear implicits.
Arguments OpPush {A} v.
Arguments OpPop {A}.
Arguments OutPushed {A}.
Arguments OutRejected {A} v.
Arguments OutPopped {A} o.

(** ** Theorems *)

(** C7: Every sequence of pushes and pops on a fresh ring returns exactly what a
    bounded FIFO list returns (a push is refused, handing the value back, iff
    [capacity] values are in flight), whatever the cursors' wrap-around, and
    never reads an uninitialised slot or indexes out of range. *)
Theorem spsc_refines_bounded_fifo {A} (c : Z) (ops : list (fifo_op A)) :
  0 <= c <= 2 ^ 63 ->
  let q := Spsc.with_capacity c in
  exists q', fifo_run q ops = Ret (q', (spec_run (Spsc.capacity q) [] ops).2) /\
             Spsc.rep q' (spec_run (Spsc.capacity q) [] ops).1 /\
             Spsc.len q' = Z.of_nat (length (spec_run (Spsc.capacity q) [] ops).1).
Proof.
  intros Hc q. destruct (@fifo_run_refines _ _ (spsc_fifo A) ops q [] (Spsc.rep_with_capacity c Hc))
    as (q' & E & Hr & _).
  exists q'. split; [exact E|]. split; [exact Hr|]. exact (Spsc.len_rep _ _ Hr).
Qed.

Lemma spsc_refines_bounded_fifo_witness :
  let q := Spsc.with_capacity 2 in
  let ops := [OpPush 1; OpPush 2; OpPush 3; OpPop; OpPush 4; OpPop; OpPop; OpPop] in
  (exists q', fifo_run q ops = Ret (q', (spec_run (Spsc.capacity q) [] ops).2) /\
     Spsc.rep q' (spec_run (Spsc.capacity q) [] ops).1 /\
     Spsc.len q' = Z.of_nat (length (spec_run (Spsc.capacity q) [] ops).1)) /\
  (spec_run (Spsc.capacity q) [] ops).2 =
    [OutPushed; OutPushed; OutRejected 3; OutPopped (Some 1); OutPushed;
     OutPopped (Some 2); OutPopped (Some 4); OutPopped None].
Proof. split; [apply (spsc_refines_bounded_fifo 2); lia | reflexivity]. Defined.
