(* ===== verification/RingConc.v ===== *)
(** * The ring under two threads: [tpt-t-ring/src/spsc.rs], [shared.rs]

    [do_push] and [do_pop] split at their atomic accesses and interleaved
    arbitrarily by one producer and one consumer, under sequential
    consistency (the Release store of each cursor publishes the slot access
    that precedes it).  The ghost lists [pushed] and [popped] record the values
    in the order their cursor stores commit. *)

From S2P Require Import Prelude Ring.
Import Spsc.

Section Interleaved.
Context {T : Type}.

(** where the producer is inside [do_push] *)
Inductive producer_pc :=
| PIdle
| PLoaded (t : Z) (value : T)      (* [t = tail.load] done *)
| PClaimed (t : Z) (value : T)     (* [t - head < cap] observed *)
| PWritten (t : Z) (value : T).    (* slot written, [tail] not yet stored *)

(** where the consumer is inside [do_pop] *)
Inductive consumer_pc :=
| CIdle
| CLoaded (h : Z)
| CClaimed (h : Z)                 (* [h <> tail] observed *)
| CRead (h : Z) (value : T).       (* slot read, [head] not yet stored *)

Record state := {
  ring : ring_mem T;
  prod : producer_pc;
  cons : consumer_pc;
  pushed : list T;
  popped : list T
}.

Variable cap : Z.

Definition slot_index (c : Z) : nat := Z.to_nat (Z.land c (cap - 1)).
Definition store_slot (m : ring_mem T) (i : nat) (v : T) : ring_mem T :=
  {| slots := <[i := Some v]> (slots m); head := head m; tail := tail m |}.
Definition store_tail (m : ring_mem T) (t : Z) : ring_mem T :=
  {| slots := slots m; head := head m; tail := t |}.
Definition store_head (m : ring_mem T) (h : Z) : ring_mem T :=
  {| slots := slots m; head := h; tail := tail m |}.

Inductive step : state -> state -> Prop :=
| p_load r c pu po v :
    step {| ring := r; prod := PIdle; cons := c; pushed := pu; popped := po |}
         {| ring := r; prod := PLoaded (tail r) v; cons := c; pushed := pu; popped := po |}
| p_full r c pu po t v :
    cap <= wsub 64 t (head r) ->
    step {| ring := r; prod := PLoaded t v; cons := c; pushed := pu; popped := po |}
         {| ring := r; prod := PIdle; cons := c; pushed := pu; popped := po |}
| p_claim r c pu po t v :
    wsub 64 t (head r) < cap ->
    step {| ring := r; prod := PLoaded t v; cons := c; pushed := pu; popped := po |}
         {| ring := r; prod := PClaimed t v; cons := c; pushed := pu; popped := po |}
| p_write r c pu po t v :
    step {| ring := r; prod := PClaimed t v; cons := c; pushed := pu; popped := po |}
         {| ring := store_slot r (slot_index t) v; prod := PWritten t v; cons := c;
            pushed := pu; popped := po |}
| p_publish r c pu po t v :
    step {| ring := r; prod := PWritten t v; cons := c; pushed := pu; popped := po |}
         {| ring := store_tail r (wadd 64 t 1); prod := PIdle; cons := c;
            pushed := pu ++ [v]; popped := po |}
| c_load r p pu po :
    step {| ring := r; prod := p; cons := CIdle; pushed := pu; popped := po |}
         {| ring := r; prod := p; cons := CLoaded (head r); pushed := pu; popped := po |}
| c_empty r p pu po h :
    h = tail r ->
    step {| ring := r; prod := p; cons := CLoaded h; pushed := pu; popped := po |}
         {| ring := r; prod := p; cons := CIdle; pushed := pu; popped := po |}
| c_claim r p pu po h :
    h <> tail r ->
    step {| ring := r; prod := p; cons := CLoaded h; pushed := pu; popped := po |}
         {| ring := r; prod := p; cons := CClaimed h; pushed := pu; popped := po |}
| c_read r p pu po h v :
    slots r !! slot_index h = Some (Some v) ->
    step {| ring := r; prod := p; cons := CClaimed h; pushed := pu; popped := po |}
         {| ring := r; prod := p; cons := CRead h v; pushed := pu; popped := po |}
| c_release r p pu po h v :
    step {| ring := r; prod := p; cons := CRead h v; pushed := pu; popped := po |}
         {| ring := store_head r (wadd 64 h 1); prod := p; cons := CIdle;
            pushed := pu; popped := po ++ [v] |}.

Definition init (m : ring_mem T) : state :=
  {| ring := m; prod := PIdle; cons := CIdle; pushed := []; popped := [] |}.

(** ** The invariant *)

Definition prod_ok (s : state) : Prop :=
  let np := Z.of_nat (length (pushed s)) in
  let nc := Z.of_nat (length (popped s)) in
  match prod s with
  | PIdle => True
  | PLoaded t _ => t = tail (ring s)
  | PClaimed t _ => t = tail (ring s) /\ np - nc < cap
  | PWritten t v => t = tail (ring s) /\ np - nc < cap /\
      slots (ring s) !! Z.to_nat (np mod cap) = Some (Some v)
  end.

Definition cons_ok (s : state) : Prop :=
  let nc := length (popped s) in
  match cons s with
  | CIdle => True
  | CLoaded h => h = head (ring s)
  | CClaimed h => h = head (ring s) /\ (nc < length (pushed s))%nat
  | CRead h v => h = head (ring s) /\ pushed s !! nc = Some v
  end.

Record inv (s : state) : Prop := {
  inv_fifo : popped s = take (length (popped s)) (pushed s);
  inv_mem : mem_rep (ring s) cap (Z.of_nat (length (popped s)))
                    (drop (length (popped s)) (pushed s));
  inv_prod : prod_ok s;
  inv_cons : cons_ok s
}.

Lemma inv_le s : inv s -> (length (popped s) <= length (pushed s))%nat.
Proof.
  intros H. pose proof (f_equal length (inv_fifo _ H)) as E.
  rewrite length_take in E. lia.
Qed.

Lemma inv_init m : mem_rep m cap 0 [] -> inv (init m).
Proof. intros. constructor; simpl; done. Qed.

(** Reading a slot the invariant describes. *)
Lemma inv_cell s i v : inv s -> pushed s !! i = Some v -> (length (popped s) <= i)%nat ->
  slots (ring s) !! Z.to_nat (Z.of_nat i mod cap) = Some (Some v).
Proof.
  intros H Hi Hle. pose proof (rep_cells _ _ _ _ (inv_mem _ H)) as Hc.
  specialize (Hc (i - length (popped s))%nat v).
  rewrite lookup_drop in Hc.
  replace (length (popped s) + (i - length (popped s)))%nat with i in Hc by lia.
  specialize (Hc Hi).
  replace (Z.of_nat (length (popped s)) + Z.of_nat (i - length (popped s)))
    with (Z.of_nat i) in Hc by lia. done.
Qed.

Lemma inv_head_index s : inv s ->
  slot_index (head (ring s)) = Z.to_nat (Z.of_nat (length (popped s)) mod cap).
Proof.
  intros [_ [Hp Hb _ Hh _ _ _ _] _ _]. unfold slot_index. rewrite Hh, mask_index by done. done.
Qed.

Lemma inv_tail_index s : inv s ->
  slot_index (tail (ring s)) = Z.to_nat (Z.of_nat (length (pushed s)) mod cap).
Proof.
  intros H. pose proof (inv_le _ H). destruct H as [_ [Hp Hb _ _ Ht _ _ _] _ _].
  unfold slot_index. rewrite Ht, length_drop, mask_index by done.
  do 2 f_equal. lia.
Qed.

Lemma inv_used s : inv s -> wsub 64 (tail (ring s)) (head (ring s)) =
  Z.of_nat (length (pushed s)) - Z.of_nat (length (popped s)).
Proof.
  intros H. pose proof (inv_le _ H). rewrite (rep_used _ _ _ _ (inv_mem _ H)), length_drop. lia.
Qed.

Lemma inv_bound s : inv s ->
  Z.of_nat (length (pushed s)) - Z.of_nat (length (popped s)) <= cap.
Proof.
  intros H. pose proof (inv_le _ H).
  pose proof (rep_bound _ _ _ _ (inv_mem _ H)) as E. rewrite length_drop in E. lia.
Qed.

(** A slot write beyond the window leaves the window alone. *)
Lemma mem_rep_store m nc l v : mem_rep m cap nc l -> Z.of_nat (length l) < cap ->
  mem_rep (store_slot m (Z.to_nat ((nc + Z.of_nat (length l)) mod cap)) v) cap nc l.
Proof.
  intros [Hp Hb Hnc Hh Ht Hs Hl Hc] Hlt.
  constructor; simpl; autorewrite with len; try done.
  pose proof (cells_hold_snoc _ _ _ _ v Hp Hnc Hs Hlt Hc) as Hc'.
  intros i w Hi. apply Hc'. apply lookup_app_l_Some. done.
Qed.

Lemma mem_rep_publish m nc l v : mem_rep m cap nc l -> Z.of_nat (length l) < cap ->
  slots m !! Z.to_nat ((nc + Z.of_nat (length l)) mod cap) = Some (Some v) ->
  mem_rep (store_tail m (wadd 64 (tail m) 1)) cap nc (l ++ [v]).
Proof.
  intros [Hp Hb Hnc Hh Ht Hs Hl Hc] Hlt Hv.
  constructor; simpl; autorewrite with len; try done.
  - rewrite Ht, wadd_wrap. f_equal. simpl. lia.
  - simpl. lia.
  - intros i w Hi. apply lookup_app_Some in Hi as [Hi|[Hge Hi]]; [by apply Hc|].
    destruct (i - length l)%nat eqn:E; simpl in Hi; [|done].
    replace i with (length l) by lia. congruence.
Qed.

Lemma mem_rep_release m nc v l : mem_rep m cap nc (v :: l) ->
  mem_rep (store_head m (wadd 64 (head m) 1)) cap (nc + 1) l.
Proof.
  intros [Hp Hb Hnc Hh Ht Hs Hl Hc]. constructor; simpl in *; try done; try lia.
  - rewrite Hh, wadd_wrap. done.
  - rewrite Ht. f_equal. lia.
  - by eapply cells_hold_tail.
Qed.

Lemma inv_step s s' : inv s -> step s s' -> inv s'.
Proof.
  intros H Hs. pose proof (inv_le _ H) as Hle. pose proof (inv_used _ H) as Hu.
  pose proof (inv_tail_index _ H) as Hti. pose proof (inv_head_index _ H) as Hhi.
  pose proof (inv_cell s) as Hcell. specialize (fun i v => Hcell i v H).
  assert (Hlen : Z.of_nat (length (popped s)) +
      Z.of_nat (length (drop (length (popped s)) (pushed s))) = Z.of_nat (length (pushed s)))
    by (rewrite length_drop; lia).
  destruct H as [Hf Hm Hp Hc].
  inversion Hs; subst; clear Hs; unfold prod_ok, cons_ok in *; simpl in *.
  - constructor; done.
  - constructor; done.
  - constructor; try done. unfold prod_ok. simpl. subst t. split; [done | lia].
  - destruct Hp as [-> Hlt]. rewrite Hti in *. pose proof (rep_slots _ _ _ _ Hm).
    pose proof (pow2_ge1 _ (rep_pow2 _ _ _ _ Hm)).
    constructor; simpl; try done.
    + rewrite <- Hlen. apply mem_rep_store; [done | lia].
    + unfold prod_ok. simpl. split; [done|]. split; [done|].
      apply list_lookup_insert_eq.
      pose proof (mod_index_lt (Z.of_nat (length pu)) cap). lia.
  - destruct Hp as (-> & Hlt & Hv). constructor; simpl.
    + rewrite take_app_le by done. done.
    + rewrite drop_app_le by done. apply mem_rep_publish; [done | lia |].
      rewrite Hlen. done.
    + done.
    + unfold cons_ok. simpl. destruct c; simpl; try done.
      * destruct Hc as [-> ?]. split; [done|]. autorewrite with len. lia.
      * destruct Hc as [-> ?]. split; [done|]. by apply lookup_app_l_Some.
  - constructor; done.
  - constructor; done.
  - constructor; try done. unfold cons_ok. simpl. subst h. split; [done|].
    assert (length po <> length pu); [|lia]. intros E.
    destruct Hm as [_ _ _ Hh Ht _ _ _]. rewrite length_drop in Ht.
    apply H. rewrite Hh, Ht. f_equal. lia.
  - destruct Hc as [-> Hlt]. constructor; try done. unfold cons_ok. simpl. split; [done|].
    destruct (lookup_lt_is_Some_2 pu (length po) Hlt) as [w Hw].
    specialize (Hcell _ _ Hw (le_n _)). rewrite Hhi, Hcell in H. congruence.
  - destruct Hc as [-> Hv]. constructor; simpl.
    + autorewrite with len. simpl. rewrite Nat.add_1_r, (take_S_r _ _ v) by done.
      f_equal. done.
    + autorewrite with len. simpl. rewrite Nat.add_1_r, Nat2Z.inj_succ.
      erewrite drop_S in Hm by done. by eapply mem_rep_release.
    + unfold prod_ok in *. simpl. autorewrite with len. simpl. destruct p; simpl in *; try done.
      * destruct Hp. split; [done | lia].
      * destruct Hp as (? & ? & ?). split; [done|]. split; [lia | done].
    + done.
Qed.

Inductive reachable (m : ring_mem T) : state -> Prop :=
| reach_init : reachable m (init m)
| reach_step s s' : reachable m s -> step s s' -> reachable m s'.

Lemma reachable_inv m s : mem_rep m cap 0 [] -> reachable m s -> inv s.
Proof. induction 2; [by apply inv_init | by eapply inv_step]. Qed.

End Interleaved.
Arguments state : clear implicits.

(** ** Theorems *)

Lemma with_capacity_mem {T} c : 0 <= c <= 2 ^ 63 ->
  mem_rep (mem (with_capacity (T := T) c)) (capacity (with_capacity (T := T) c)) 0 [].
Proof.
  intros Hc. constructor; simpl; try done.
  - apply next_power_of_two_pow2.
  - apply next_power_of_two_le; lia.
  - rewrite length_replicate. pose proof (next_power_of_two_ge (Z.max c 1)). lia.
  - pose proof (next_power_of_two_ge (Z.max c 1)). lia.
Qed.

(** C6: However the two threads interleave, what the consumer has popped is a
    prefix of what the producer has pushed - nothing lost, duplicated or
    reordered - and at most [capacity] values are ever in flight. *)
Theorem spsc_interleaved_fifo {T} c (s : state T) :
  0 <= c <= 2 ^ 63 ->
  reachable (capacity (with_capacity (T := T) c)) (mem (with_capacity c)) s ->
  popped s `prefix_of` pushed s /\
  Z.of_nat (length (pushed s)) <= Z.of_nat (length (popped s)) +
                                  capacity (with_capacity (T := T) c).
Proof.
  intros Hc Hr. pose proof (reachable_inv _ _ _ (with_capacity_mem c Hc) Hr) as H.
  split; [|pose proof (inv_bound _ _ H); lia].
  exists (drop (length (popped s)) (pushed s)). rewrite (inv_fifo _ _ H) at 1.
  rewrite take_drop. done.
Qed.

(** a run of the interleaving in which the consumer reads while the producer is
    about to write: one value is through, a second is in its slot *)
Definition demo_state : state Z := {|
  ring := {| slots := [Some 7; None]; head := 0; tail := 1 |};
  prod := PClaimed 1 8; cons := CClaimed 0; pushed := [7]; popped := [] |}.

Lemma demo_reachable :
  reachable (capacity (with_capacity (T := Z) 2)) (mem (with_capacity 2)) demo_state.
Proof.
  eapply reach_step; [|apply c_claim; vm_compute; discriminate].
  eapply reach_step; [|apply (c_load _ {| slots := [Some 7; None]; head := 0; tail := 1 |})].
  eapply reach_step; [|apply p_claim; vm_compute; reflexivity].
  eapply reach_step; [|apply (p_load _ {| slots := [Some 7; None]; head := 0; tail := 1 |})].
  eapply reach_step;
    [|apply (p_publish _ {| slots := [Some 7; None]; head := 0; tail := 0 |} CIdle [] [] 0 7)].
  eapply reach_step;
    [|apply (p_write _ {| slots := [None; None]; head := 0; tail := 0 |} CIdle [] [] 0 7)].
  eapply reach_step; [|apply p_claim; vm_compute; reflexivity].
  eapply reach_step; [|apply (p_load _ {| slots := [None; None]; head := 0; tail := 0 |})].
  apply reach_init.
Qed.

Lemma spsc_interleaved_fifo_witness :
  popped demo_state `prefix_of` pushed demo_state /\
  Z.of_nat (length (pushed demo_state)) <= Z.of_nat (length (popped demo_state)) +
                                  capacity (with_capacity (T := Z) 2).
Proof. apply spsc_interleaved_fifo; [lia | exact demo_reachable]. Defined.

(** The unsafe slot accesses are sound: when the producer is about to write
    a slot and the consumer about to read one, the slots differ and are in
    bounds; and the slot the consumer reads always holds an initialised value,
    so its read step is enabled. *)
Theorem spsc_slots_race_free {T} c (s : state T) :
  0 <= c <= 2 ^ 63 ->
  let cap := capacity (with_capacity (T := T) c) in
  reachable cap (mem (with_capacity c)) s ->
  (forall t v, prod s = PClaimed t v ->
     (slot_index cap t < length (slots (ring s)))%nat) /\
  (forall h, cons s = CClaimed h ->
     exists v, slots (ring s) !! slot_index cap h = Some (Some v)) /\
  (forall t v h, prod s = PClaimed t v -> cons s = CClaimed h ->
     slot_index cap t <> slot_index cap h).
Proof.
  intros Hc cap Hr. pose proof (reachable_inv _ _ _ (with_capacity_mem c Hc) Hr) as H.
  fold cap in H. pose proof (pow2_ge1 _ (rep_pow2 _ _ _ _ (inv_mem _ _ H))) as Hpos.
  pose proof (inv_tail_index _ _ H) as Ht. pose proof (inv_head_index _ _ H) as Hh.
  pose proof (inv_prod _ _ H) as Hp. pose proof (inv_cons _ _ H) as Hco.
  unfold prod_ok in Hp. unfold cons_ok in Hco. split; [|split].
  - intros t v E. rewrite E in Hp. destruct Hp as [-> _]. rewrite Ht.
    pose proof (rep_slots _ _ _ _ (inv_mem _ _ H)).
    pose proof (mod_index_lt (Z.of_nat (length (pushed s))) cap). lia.
  - intros h E. rewrite E in Hco. destruct Hco as [-> Hlt]. rewrite Hh.
    destruct (lookup_lt_is_Some_2 _ _ Hlt) as [w Hw].
    exists w. by apply (inv_cell cap).
  - intros t v h E1 E2. rewrite E1 in Hp. rewrite E2 in Hco.
    destruct Hp as [-> Hlt], Hco as [-> Hlt']. rewrite Ht, Hh.
    intros E. apply Z2Nat.inj in E; [|apply Z.mod_pos_bound; lia..].
    apply mod_inj_dist in E; lia.
Qed.

Lemma spsc_slots_race_free_witness :
  slot_index 2 1 <> slot_index 2 0.
Proof.
  destruct (spsc_slots_race_free 2 demo_state ltac:(lia) demo_reachable) as (_ & _ & H).
  exact (H 1 8 0 eq_refl eq_refl).
Defined.
