(* ===== verification/Cast.v ===== *)
(** * Plain-byte casting: [tpt-t-ring/src/cast.rs]

    [PlainBytes] is the unsafe trait as a type class: a type whose values and
    byte images are in bijection (no padding, no invalid bit pattern), with the
    casts built on it.  [pod] builds the instance of a [repr(C)] struct from its
    dense field widths, on a little-endian target. *)

From S2P Require Import Prelude.

Class PlainBytes (T : Type) := {
  size_of : nat;
  align_of : Z;
  (** every field is in the range of its machine type *)
  pb_wf : T -> Prop;
  bytes_of : T -> list Z;
  (** the reinterpretation of exactly [size_of] bytes *)
  of_raw : list Z -> T;
  length_bytes_of v : pb_wf v -> length (bytes_of v) = size_of;
  bytes_of_bytes v : pb_wf v -> bytes (bytes_of v);
  of_raw_bytes_of v : pb_wf v -> of_raw (bytes_of v) = v;
  bytes_of_of_raw bs : bytes bs -> length bs = size_of -> bytes_of (of_raw bs) = bs;
  of_raw_wf bs : bytes bs -> length bs = size_of -> pb_wf (of_raw bs)
}.

Inductive CastError :=
| TooShort (needed got : Z)
| Misaligned (needed : Z).

#[global] Instance CastError_eq_dec : EqDecision CastError.
Proof. solve_decision. Defined.

(** A borrowed slice: the address of its first byte and its bytes. *)
Record slice := { addr : Z; data : list Z }.

Section Cast.
Context {T : Type} `{!PlainBytes T}.

Definition check_len (s : slice) : result unit CastError :=
  let needed := size_of (T := T) in
  if decide (length (data s) < needed)%nat then
    Err (TooShort (Z.of_nat needed) (Z.of_nat (length (data s))))
  else Ok tt.

Definition check_align (s : slice) : result unit CastError :=
  let needed := align_of (T := T) in
  if addr s mod needed =? 0 then Ok tt else Err (Misaligned needed).

Definition ref_from_bytes (s : slice) : result T CastError :=
  match check_len s with
  | Err e => Err e
  | Ok _ =>
      match check_align s with
      | Err e => Err e
      | Ok _ => Ok (of_raw (take (size_of (T := T)) (data s)))
      end
  end.

Definition split_prefix (s : slice) : result (T * slice) CastError :=
  match check_len s with
  | Err e => Err e
  | Ok _ =>
      match check_align s with
      | Err e => Err e
      | Ok _ =>
          let n := size_of (T := T) in
          Ok (of_raw (take n (data s)),
              {| addr := addr s + Z.of_nat n; data := drop n (data s) |})
      end
  end.

(** Writing [bytes] through the reference [bytes_of_mut(v)] gives. *)
Definition write_through (v : T) (bs : list Z) : T := of_raw bs.

End Cast.

(** ** Dense structs *)

Fixpoint enc_fields (ws : list nat) (zs : list Z) : list Z :=
  match ws, zs with
  | w :: ws, z :: zs => le_bytes w z ++ enc_fields ws zs
  | _, _ => []
  end.

Fixpoint dec_fields (ws : list nat) (bs : list Z) : list Z :=
  match ws with
  | [] => []
  | w :: ws => le_val (take w bs) :: dec_fields ws (drop w bs)
  end.

Definition fields_wf (ws : list nat) (zs : list Z) : Prop :=
  Forall2 (fun w z => uint (8 * Z.of_nat w) z) ws zs.

Lemma length_enc_fields ws zs : length ws = length zs ->
  length (enc_fields ws zs) = list_sum ws.
Proof.
  revert zs. induction ws as [|w ws IH]; intros [|z zs] H; simpl in *; try done.
  rewrite length_app, length_le_bytes, IH; lia.
Qed.

Lemma enc_fields_bytes ws zs : bytes (enc_fields ws zs).
Proof.
  revert zs. induction ws as [|w ws IH]; intros [|z zs]; simpl; try constructor.
  apply Forall_app. split; [apply le_bytes_bytes | apply IH].
Qed.

Lemma dec_enc_fields ws zs : fields_wf ws zs -> dec_fields ws (enc_fields ws zs) = zs.
Proof.
  induction 1 as [|w z ws zs Hz _ IH]; [done|]. cbn [enc_fields dec_fields].
  rewrite take_app_length', drop_app_length' by (by rewrite length_le_bytes).
  rewrite le_val_bytes_id, IH by done. done.
Qed.

Lemma length_dec_fields ws bs : length (dec_fields ws bs) = length ws.
Proof. revert bs. induction ws; simpl; auto. Qed.

Lemma enc_dec_fields ws bs : bytes bs -> length bs = list_sum ws ->
  enc_fields ws (dec_fields ws bs) = bs.
Proof.
  revert bs. induction ws as [|w ws IH]; intros bs Hb Hl; simpl in *.
  - by apply nil_length_inv in Hl.
  - rewrite IH.
    + replace w with (length (take w bs)) at 1 by (rewrite length_take; lia).
      rewrite le_bytes_val by (by apply Forall_take). apply take_drop.
    + by apply Forall_drop.
    + rewrite length_drop. lia.
Qed.

Lemma dec_fields_wf ws bs : bytes bs -> length bs = list_sum ws ->
  fields_wf ws (dec_fields ws bs).
Proof.
  revert bs. induction ws as [|w ws IH]; intros bs Hb Hl; simpl in *; constructor.
  - pose proof (le_val_uint (take w bs) (Forall_take _ _ _ Hb)) as Hu.
    rewrite length_take in Hu. replace (Nat.min w (length bs)) with w in Hu by lia. done.
  - apply IH; [by apply Forall_drop | rewrite length_drop; lia].
Qed.

(** The instance of a struct given by the widths of its fields, in order, and
    the isomorphism with its list of field values. *)
Section Pod.
Context {T : Type} (ws : list nat) (align : Z)
  (fields : T -> list Z) (of_fields : list Z -> T).
Hypothesis fields_of : forall zs, length zs = length ws -> fields (of_fields zs) = zs.
Hypothesis of_fields_fields : forall v, length (fields v) = length ws -> of_fields (fields v) = v.

Program Definition pod : PlainBytes T := {|
  size_of := list_sum ws;
  align_of := align;
  pb_wf v := fields_wf ws (fields v);
  bytes_of v := enc_fields ws (fields v);
  of_raw bs := of_fields (dec_fields ws bs)
|}.
Next Obligation. intros v Hv. apply length_enc_fields. by apply Forall2_length in Hv. Qed.
Next Obligation. intros v _. apply enc_fields_bytes. Qed.
Next Obligation.
  intros v Hv. simpl. rewrite dec_enc_fields by done. apply of_fields_fields.
  symmetry. by apply Forall2_length in Hv.
Qed.
Next Obligation.
  intros bs Hb Hl. simpl. rewrite fields_of by apply length_dec_fields.
  by apply enc_dec_fields.
Qed.
Next Obligation.
  intros bs Hb Hl. simpl. rewrite fields_of by apply length_dec_fields.
  by apply dec_fields_wf.
Qed.
End Pod.

(** Solves the two isomorphism obligations of [pod] for a record whose fields
    form a list of known length. *)
Ltac solve_pod :=
  match goal with
  | |- forall zs, length zs = _ -> _ =>
      let zs := fresh "zs" in intros zs ?;
      repeat (destruct zs as [|? zs]; simpl in *; try discriminate); reflexivity
  | |- forall v, _ -> _ =>
      let v := fresh "v" in intros v ?; destruct v; simpl in *; reflexivity
  end.

Lemma ref_from_bytes_ok {T} `{!PlainBytes T} (v : T) rest a :
  pb_wf v -> a mod align_of (T := T) = 0 ->
  ref_from_bytes {| addr := a; data := bytes_of v ++ rest |} = Ok v.
Proof.
  intros Hv Ha. unfold ref_from_bytes, check_len, check_align. simpl data. simpl addr.
  rewrite decide_False by (rewrite length_app, length_bytes_of by done; lia).
  rewrite Ha. simpl. by rewrite take_app_length', of_raw_bytes_of by (by rewrite ?length_bytes_of).
Qed.

(** ** Theorems *)

Section Theorems.
Context {T : Type} `{!PlainBytes T}.

(** Casting is a faithful reinterpretation: a cast succeeds exactly when the
    slice is long enough and aligned; it then yields the unique well-formed value
    whose bytes are the prefix, leaves exactly the suffix, and a value's own
    bytes cast back to it. *)
Theorem cast_faithful (s : slice) :
  bytes (data s) ->
  (forall e, ref_from_bytes (T := T) s = Err e <->
     (length (data s) < size_of (T := T))%nat /\
       e = TooShort (Z.of_nat (size_of (T := T))) (Z.of_nat (length (data s))) \/
     (size_of (T := T) <= length (data s))%nat /\
       addr s mod align_of (T := T) <> 0 /\ e = Misaligned (align_of (T := T))) /\
  (forall v, ref_from_bytes (T := T) s = Ok v ->
     pb_wf v /\ data s = bytes_of v ++ drop (size_of (T := T)) (data s) /\
     split_prefix s = Ok (v, {| addr := addr s + Z.of_nat (size_of (T := T));
                                data := drop (size_of (T := T)) (data s) |})) /\
  (forall v rest, pb_wf v -> addr s mod align_of (T := T) = 0 ->
     data s = bytes_of v ++ rest -> ref_from_bytes s = Ok v).
Proof.
  intros Hb. unfold ref_from_bytes, split_prefix, check_len, check_align.
  destruct (decide _) as [Hlt|Hge].
  - split; [|split]; [intros e; split|intros v H; done|].
    + intros [= <-]. by left.
    + intros [[_ ->]|[? _]]; [done | lia].
    + intros v rest Hv _ E. rewrite E, length_app, length_bytes_of in Hlt by done. lia.
  - assert (Ht : length (take (size_of (T := T)) (data s)) = size_of (T := T))
      by (rewrite length_take; lia).
    assert (Hbt : bytes (take (size_of (T := T)) (data s))) by (by apply Forall_take).
    destruct (Z.eqb_spec (addr s mod align_of (T := T)) 0) as [Ha|Ha].
    + split; [|split].
      * intros e. split; [done|]. intros [[? _]|(_ & ? & _)]; [lia | done].
      * intros v [= <-]. split; [by apply of_raw_wf|]. split; [|done].
        rewrite bytes_of_of_raw by done. symmetry. apply take_drop.
      * intros v rest Hv _ E. rewrite E, take_app_length' by (by rewrite length_bytes_of).
        rewrite of_raw_bytes_of by done. done.
    + split; [|split]; [|intros v H; done|intros; done].
      intros e. split; [intros [= <-]; right; split; [lia | done]|].
      intros [[? _]|(_ & _ & ->)]; [lia | done].
Qed.

End Theorems.

(** [impl_plain_bytes!]: an unsigned integer of [w] bytes *)
Definition plain_uint (w : nat) : PlainBytes Z.
Proof.
  refine (pod [w] (Z.of_nat w) (fun v => [v]) (fun zs => nth 0 zs 0) _ _); solve_pod.
Defined.

Lemma cast_faithful_witness :
  @ref_from_bytes Z (plain_uint 4) {| addr := 8; data := [1; 2; 0; 0; 9] |} = Ok 513 /\
  @ref_from_bytes Z (plain_uint 4) {| addr := 6; data := [1; 2; 0; 0; 9] |}
    = Err (Misaligned 4).
Proof.
  pose proof (@cast_faithful Z (plain_uint 4) {| addr := 8; data := [1; 2; 0; 0; 9] |}) as H1.
  pose proof (@cast_faithful Z (plain_uint 4) {| addr := 6; data := [1; 2; 0; 0; 9] |}) as H2.
  assert (Hb : bytes [1; 2; 0; 0; 9]) by (vm_compute; repeat constructor; discriminate).
  split.
  - destruct (H1 Hb) as (_ & _ & H). apply (H 513 [9]); [|reflexivity..].
    repeat constructor; vm_compute; first [discriminate | reflexivity].
  - destruct (H2 Hb) as (H & _). apply H. right. vm_compute.
    split; [|split; [discriminate | reflexivity]]. repeat constructor.
Defined.
