(* ===== verification/RingLayout.v ===== *)
(** * Shared-memory rings: [tpt-t-ring/src/layout.rs], [shared.rs], [ptr.rs]

    The byte layout of a ring in one contiguous region ([RingLayout]), the
    inverse computation [fit], and the ring over caller-provided memory. *)

From S2P Require Import Prelude Ring.

Definition CACHE_LINE : Z := 64.

(** [usize::div_ceil] *)
Definition div_ceil (a b : Z) : Z := (a + b - 1) / b.

(** [size_of::<SharedHeader>()]: two cursors, each padded to a cache line,
    in a struct aligned to 64 bytes. *)
Definition size_of_AtomicUsize : Z := 8.
Definition SharedHeader_size : Z :=
  let pad := CACHE_LINE - size_of_AtomicUsize in
  (size_of_AtomicUsize + pad) + (size_of_AtomicUsize + pad).

Module RingLayout.

Record RingLayout := {
  header_len : Z;
  slots_off : Z;
  slot_size : Z;
  capacity : Z;
  total_len : Z
}.

(** [size] is [size_of::<T>()]. *)
Definition for_slots (size capacity : Z) : RingLayout :=
  let cap := next_power_of_two (Z.max capacity 1) in
  let header_len := SharedHeader_size in
  let slot_size := wmul 64 (div_ceil (Z.max size 1) 8) 8 in
  let slots_off := wmul 64 (div_ceil header_len CACHE_LINE) CACHE_LINE in
  let total_len := wadd 64 slots_off (wmul 64 slot_size cap) in
  {| header_len := header_len; slots_off := slots_off; slot_size := slot_size;
     capacity := cap; total_len := total_len |}.

(** [u64::leading_zeros] *)
Definition leading_zeros (n : Z) : Z := if n =? 0 then 64 else 63 - Z.log2 n.

(** [1 << (usize::BITS - 1 - n.leading_zeros())]: the subtraction is on [u32]
    and the shift amount is masked to 6 bits. *)
Definition floor_pow2 (n : Z) : Z :=
  if is_power_of_two n then n
  else wrap 64 (Z.shiftl 1 (wsub 32 63 (leading_zeros n) mod 64)).

Definition fit (total_len header_len slot_size : Z) : option Z :=
  let slots_off := wmul 64 (div_ceil header_len CACHE_LINE) CACHE_LINE in
  if total_len <? slots_off then None
  else
    let avail := total_len - slots_off in
    let slot_size := Z.max slot_size 1 in
    Some (floor_pow2 (avail / slot_size)).

Definition validate (l : RingLayout) (region_len : Z) : bool :=
  (slots_off l mod CACHE_LINE =? 0) && is_power_of_two (capacity l)
  && (total_len l <=? region_len).

(** ** Lemmas *)

Lemma floor_pow2_spec n : 0 < n < 2 ^ 64 ->
  floor_pow2 n = 2 ^ Z.log2 n.
Proof.
  intros Hn. unfold floor_pow2. destruct (is_power_of_two n) eqn:E.
  - apply is_power_of_two_spec in E as (k & ? & ->). rewrite Z.log2_pow2; done.
  - assert (0 <= Z.log2 n < 64).
    { split; [apply Z.log2_nonneg|]. apply Z.log2_lt_pow2; lia. }
    unfold leading_zeros. destruct (Z.eqb_spec n 0); [lia|].
    replace (wsub 32 63 (63 - Z.log2 n)) with (Z.log2 n).
    2:{ unfold wsub. rewrite wrap_id; [lia|]. unfold uint. lia. }
    rewrite Z.mod_small, Z.shiftl_1_l by lia.
    apply wrap_id. split; [apply Z.lt_le_incl, pow2_pos; lia|].
    apply Z.pow_lt_mono_r; lia.
Qed.

Lemma div_ceil_mul_ge a b : 0 < b -> a <= div_ceil a b * b < a + b.
Proof.
  intros Hb. unfold div_ceil.
  pose proof (Z.div_mod (a + b - 1) b). pose proof (Z.mod_pos_bound (a + b - 1) b). lia.
Qed.

Lemma for_slots_off size c : slots_off (for_slots size c) = 128.
Proof. reflexivity. Qed.

End RingLayout.

(** ** [SharedSpsc]: handles onto one shared region *)

Module SharedSpsc.
Section SharedSpsc.
Context {T : Type}.

(** A handle is the capacity it was attached with; the header and slots it
    points at are the shared [ring_mem], passed explicitly. *)
Record SharedSpsc := { cap : Z }.

Definition attach (capacity : Z) : SharedSpsc :=
  {| cap := next_power_of_two (Z.max capacity 1) |}.

(** [SharedHeader::new] over [n] zeroed slots *)
Definition fresh_region (n : Z) : Spsc.ring_mem T :=
  {| Spsc.slots := replicate (Z.to_nat n) None; Spsc.head := 0; Spsc.tail := 0 |}.

Definition len (m : Spsc.ring_mem T) : Z := wsub 64 (Spsc.tail m) (Spsc.head m).
Definition is_empty (m : Spsc.ring_mem T) : bool := len m =? 0.

Definition push (h : SharedSpsc) (m : Spsc.ring_mem T) (value : T)
    : exec (Spsc.ring_mem T * result unit T) :=
  Spsc.do_push m (cap h - 1) (cap h) value.

Definition pop (h : SharedSpsc) (m : Spsc.ring_mem T)
    : exec (Spsc.ring_mem T * option T) :=
  Spsc.do_pop m (cap h - 1).

(** two processes: the producer's handle pushes, the consumer's pops *)
Definition shared_exec (hp hc : SharedSpsc) (m : Spsc.ring_mem T) (op : fifo_op T)
    : exec (Spsc.ring_mem T * fifo_out T) :=
  match op with
  | OpPush v => '(m', r) ← push hp m v;
      Ret (m', match r with Ok _ => OutPushed | Err w => OutRejected w end)
  | OpPop => '(m', o) ← pop hc m; Ret (m', OutPopped o)
  end.

Fixpoint shared_run (hp hc : SharedSpsc) (m : Spsc.ring_mem T) (ops : list (fifo_op T))
    : exec (Spsc.ring_mem T * list (fifo_out T)) :=
  match ops with
  | [] => Ret (m, [])
  | op :: ops =>
      '(m', o) ← shared_exec hp hc m op;
      '(m'', os) ← shared_run hp hc m' ops;
      Ret (m'', o :: os)
  end.

Lemma shared_run_refines ops : forall h m nc l, Spsc.mem_rep m (cap h) nc l ->
  exists m' nc', shared_run h h m ops = Ret (m', (spec_run (cap h) l ops).2) /\
                 Spsc.mem_rep m' (cap h) nc' (spec_run (cap h) l ops).1.
Proof.
  induction ops as [|op ops IH]; intros h m nc l Hr; [simpl; eauto|].
  assert (exists m1 nc1, shared_exec h h m op = Ret (m1, (spec_exec (cap h) l op).2) /\
                         Spsc.mem_rep m1 (cap h) nc1 (spec_exec (cap h) l op).1)
    as (m1 & nc1 & E1 & Hr1).
  { destruct op as [v|]; simpl; unfold push, pop.
    - destruct (Z.ltb_spec (Z.of_nat (length l)) (cap h)).
      + destruct (Spsc.do_push_ok _ _ _ _ v Hr) as (m1 & -> & ?); [done|]. cbn. eauto.
      + rewrite (Spsc.do_push_full _ _ _ _ v Hr) by done. cbn. eauto.
    - destruct l as [|v l].
      + rewrite (Spsc.do_pop_nil _ _ _ Hr). cbn. eauto.
      + destruct (Spsc.do_pop_some _ _ _ _ _ Hr) as (m1 & -> & ?). cbn. eauto. }
  destruct (IH h m1 nc1 _ Hr1) as (m2 & nc2 & E2 & Hr2).
  cbn [shared_run spec_run]. rewrite E1. cbn. rewrite E2. cbn.
  destruct (spec_exec _ l op) as [l1 o1]. simpl in *.
  destruct (spec_run _ l1 ops) as [l2 os]. eauto.
Qed.

End SharedSpsc.
End SharedSpsc.

(** ** Theorems *)

Import RingLayout.

(** A region sized by [for_slots] holds the ring: the slots start 64-byte
    aligned right after the header, every slot is 8-byte aligned and large
    enough for [T], slot [i]'s bytes end within [total_len], the layout
    validates exactly the regions of at least [total_len] bytes, and [fit]
    recovers the capacity from [total_len]. *)
Theorem for_slots_sound size c :
  0 <= size -> 0 <= c <= 2 ^ 63 -> 128 + (size + 8) * (2 * Z.max c 1) < 2 ^ 64 ->
  let l := for_slots size c in
  slots_off l mod CACHE_LINE = 0 /\ header_len l <= slots_off l /\
  slot_size l mod 8 = 0 /\ size <= slot_size l /\ c <= capacity l /\
  (forall i, 0 <= i < capacity l -> slots_off l + (i + 1) * slot_size l <= total_len l) /\
  (forall n, validate l n = (total_len l <=? n)) /\
  fit (total_len l) (header_len l) (slot_size l) = Some (capacity l).
Proof.
  intros Hs Hc Hov. set (cap := next_power_of_two (Z.max c 1)).
  assert (Hcap : 1 <= cap < 2 * Z.max c 1).
  { split; [apply pow2_ge1, next_power_of_two_pow2|]. subst cap. unfold next_power_of_two.
    destruct (Z.le_gt_cases c 1).
    - replace (Z.max c 1) with 1 by lia. reflexivity.
    - pose proof (Z.log2_up_spec (Z.max c 1)). pose proof (Z.log2_up_pos (Z.max c 1)).
      replace (Z.log2_up (Z.max c 1)) with (1 + Z.pred (Z.log2_up (Z.max c 1))) by lia.
      rewrite Z.pow_add_r by lia. lia. }
  set (ss := div_ceil (Z.max size 1) 8 * 8).
  pose proof (div_ceil_mul_ge (Z.max size 1) 8) as Hss. fold ss in Hss.
  assert (E1 : wmul 64 (div_ceil (Z.max size 1) 8) 8 = ss).
  { apply wrap_id. unfold uint. nia. }
  assert (E2 : wmul 64 ss cap = ss * cap). { apply wrap_id. unfold uint. nia. }
  assert (E3 : wadd 64 128 (ss * cap) = 128 + ss * cap). { apply wrap_id. unfold uint. nia. }
  assert (El : for_slots size c = {| header_len := 128; slots_off := 128; slot_size := ss;
      capacity := cap; total_len := 128 + ss * cap |}).
  { unfold for_slots. fold cap. rewrite E1, E2. rewrite <- E3. reflexivity. }
  rewrite El. simpl. split_and!; try done; try lia.
  - subst ss. apply Z.mod_mul. lia.
  - subst cap. pose proof (next_power_of_two_ge (Z.max c 1)). lia.
  - intros i Hi. nia.
  - intros n. unfold validate. simpl.
    rewrite (proj2 (is_power_of_two_spec cap) (next_power_of_two_pow2 _)). done.
  - unfold fit. change (wmul 64 (div_ceil 128 CACHE_LINE) CACHE_LINE) with 128.
    destruct (Z.ltb_spec (128 + ss * cap) 128); [nia|]. do 2 f_equal.
    replace (128 + ss * cap - 128) with (cap * ss) by lia.
    rewrite Z.max_l, Z.div_mul by lia. unfold floor_pow2.
    rewrite (proj2 (is_power_of_two_spec cap) (next_power_of_two_pow2 _)). done.
Qed.

Lemma for_slots_sound_witness :
  fit (total_len (for_slots 56 100)) 128 56 = Some 128.
Proof.
  destruct (for_slots_sound 56 100 ltac:(lia) ltac:(lia) ltac:(vm_compute; reflexivity))
    as (_ & _ & _ & _ & _ & _ & _ & H). exact H.
Defined.

(** [fit] returns the largest power-of-two capacity whose slots fit when at
    least one slot fits; when the region holds the header but no slot it
    returns [Some (2^63)] (the shift amount of [floor_pow2 0] underflows)
    instead of the documented [None]. *)
Theorem fit_spec total header slot :
  uint 64 total -> 0 <= header <= 2 ^ 32 -> 1 <= slot ->
  let off := div_ceil header CACHE_LINE * CACHE_LINE in
  (total < off -> fit total header slot = None) /\
  (off <= total -> slot <= total - off ->
     exists n, fit total header slot = Some n /\ pow2 n /\
               n * slot <= total - off < 2 * n * slot) /\
  (off <= total -> total - off < slot -> fit total header slot = Some (2 ^ 63)).
Proof.
  intros Ht Hh Hs off.
  pose proof (div_ceil_mul_ge header CACHE_LINE eq_refl) as Ho. fold off in Ho.
  assert (E : wmul 64 (div_ceil header CACHE_LINE) CACHE_LINE = off).
  { apply wrap_id. unfold uint, CACHE_LINE in *. lia. }
  unfold fit. rewrite E, Z.max_l by lia. unfold uint in Ht.
  split; [|split]; intros; destruct (Z.ltb_spec total off); try lia; [done|..].
  - set (a := total - off) in *. set (q := a / slot).
    assert (Hq : slot * q <= a < slot * q + slot).
    { pose proof (Z.div_mod a slot). pose proof (Z.mod_pos_bound a slot). unfold q. lia. }
    assert (0 < q < 2 ^ 64).
    { split; [|nia]. apply Z.div_str_pos. lia. }
    eexists. split; [done|]. rewrite floor_pow2_spec by done.
    pose proof (Z.log2_spec q ltac:(lia)) as Hl. pose proof (Z.log2_nonneg q).
    rewrite Z.pow_succ_r in Hl by done.
    split; [by exists (Z.log2 q)|]. nia.
  - rewrite Z.div_small by lia. reflexivity.
Qed.

Lemma fit_spec_witness :
  fit 1024 128 56 = Some 16 /\ fit 150 128 56 = Some (2 ^ 63).
Proof.
  split; [reflexivity|].
  apply (fit_spec 150 128 56); vm_compute; try (split; discriminate || reflexivity);
    try discriminate; reflexivity.
Defined.

(** Two processes holding handles onto one freshly initialised region - one
    pushing, one popping - observe exactly a bounded FIFO of the attached
    capacity. *)
Theorem shared_ring_fifo {T} c (ops : list (fifo_op T)) :
  0 <= c <= 2 ^ 63 ->
  let h := SharedSpsc.attach c in
  let m := SharedSpsc.fresh_region (SharedSpsc.cap h) in
  exists m', SharedSpsc.shared_run h h m ops =
               Ret (m', (spec_run (SharedSpsc.cap h) [] ops).2) /\
             SharedSpsc.len m' = Z.of_nat (length (spec_run (SharedSpsc.cap h) [] ops).1).
Proof.
  intros Hc h m. destruct (SharedSpsc.shared_run_refines ops h m 0 []) as (m' & nc & E & Hr).
  - destruct (Spsc.rep_with_capacity (T := T) c Hc) as [nc Hr]. constructor; simpl; try done.
    + apply next_power_of_two_pow2.
    + apply next_power_of_two_le; lia.
    + rewrite length_replicate. pose proof (next_power_of_two_ge (Z.max c 1)). lia.
    + pose proof (next_power_of_two_ge (Z.max c 1)). lia.
  - exists m'. split; [exact E|]. exact (Spsc.rep_used _ _ _ _ Hr).
Qed.

Lemma shared_ring_fifo_witness :
  let h := SharedSpsc.attach 1 in
  exists m', SharedSpsc.shared_run h h (SharedSpsc.fresh_region 1)
     [OpPush 5; OpPush 6; OpPop; OpPop] =
     Ret (m', [OutPushed; OutRejected 6; OutPopped (Some 5); OutPopped None]).
Proof.
  destruct (shared_ring_fifo 1 [OpPush 5; OpPush 6; OpPop; OpPop] ltac:(lia)) as (m' & E & _).
  exists m'. exact E.
Defined.
