(* ===== verification/Mode.v ===== *)
(** * Operating modes: [tpt-t-core/src/mode.rs], [machine.rs]

    The control-authority modes, the legal-transition table, and the mode state
    machine with its best-effort transition log.  The machine's log is any ring
    implementing [BoundedFifo]. *)

From stdpp Require Import strings.
From S2P Require Import Prelude Ring.

Inductive Mode := Auto | Assist | FullTeleop | EmergencyStop.

#[global] Instance Mode_eq_dec : EqDecision Mode.
Proof. solve_decision. Defined.

Module Mode.

Definition ALL : list Mode := [Auto; Assist; FullTeleop; EmergencyStop].

Definition as_u8 (m : Mode) : Z :=
  match m with Auto => 0 | Assist => 1 | FullTeleop => 2 | EmergencyStop => 3 end.

Definition from_u8 (v : Z) : option Mode :=
  if v =? 0 then Some Auto
  else if v =? 1 then Some Assist
  else if v =? 2 then Some FullTeleop
  else if v =? 3 then Some EmergencyStop
  else None.

Definition name (m : Mode) : string :=
  match m with
  | Auto => "AUTO" | Assist => "ASSIST" | FullTeleop => "TELEOP" | EmergencyStop => "ESTOP"
  end.

Lemma from_as_u8 m : from_u8 (as_u8 m) = Some m.
Proof. destruct m; reflexivity. Qed.

Lemma from_u8_Some v m : from_u8 v = Some m <-> v = as_u8 m.
Proof.
  split; [|intros ->; apply from_as_u8]. unfold from_u8. intros H.
  repeat case_if; zbool; simplify_eq; done.
Qed.

End Mode.

Record Transition := { from : Mode; to : Mode; at_unix_ns : Z }.

Inductive ModeError := Disallowed (from to : Mode).

(** ** The transition table *)

Module TransitionTable.

(** [allowed: [[bool; 4]; 4]] *)
Record TransitionTable := { allowed : list (list bool) }.

Definition row (m : Mode) : nat := Z.to_nat (Mode.as_u8 m).

Definition allows (t : TransitionTable) (f d : Mode) : bool :=
  nth (row d) (nth (row f) (allowed t) []) false.

Definition set_allowed (t : TransitionTable) (f d : Mode) (b : bool) : TransitionTable :=
  {| allowed := alter (fun r => <[row d := b]> r) (row f) (allowed t) |}.

Definition deny_entry (t : TransitionTable) (d : Mode) : TransitionTable :=
  foldl (fun t m => set_allowed t m d false) t Mode.ALL.

Definition none : TransitionTable := {| allowed := replicate 4 (replicate 4 false) |}.

Definition spec_default : TransitionTable :=
  let t := none in
  let t := set_allowed t Auto Assist true in
  let t := set_allowed t Assist Auto true in
  let t := set_allowed t Assist FullTeleop true in
  let t := set_allowed t FullTeleop Assist true in
  let t := foldl (fun t m => set_allowed t m EmergencyStop true) t Mode.ALL in
  set_allowed t EmergencyStop Assist true.

(** the shape of the array type *)
Definition wf (t : TransitionTable) : Prop :=
  length (allowed t) = 4%nat /\ Forall (fun r => length r = 4%nat) (allowed t).

Lemma row_lt m : (row m < 4)%nat.
Proof. destruct m; compute; lia. Qed.

Lemma row_inj m m' : row m = row m' -> m = m'.
Proof. by destruct m, m'. Qed.

Lemma set_allowed_wf t f d b : wf t -> wf (set_allowed t f d b).
Proof.
  intros [Hl Hr]. split; simpl; [by rewrite length_alter|].
  apply Forall_alter; [done|]. intros r _ Hlen. by rewrite length_insert.
Qed.

Lemma allows_set_allowed t f d b f' d' : wf t ->
  allows (set_allowed t f d b) f' d' =
  if decide (f = f' /\ d = d') then b else allows t f' d'.
Proof.
  intros [Hl Hr]. unfold allows, set_allowed; simpl.
  rewrite !nth_lookup, !list_lookup_alter.
  pose proof (row_lt f'). pose proof (row_lt d').
  destruct (lookup_lt_is_Some_2 (allowed t) (row f')) as [r Er]; [lia|].
  pose proof (Forall_lookup_1 _ _ _ _ Hr Er) as Hlen. simpl in Hlen.
  destruct (decide (row f = row f')) as [E|E].
  - apply row_inj in E as ->. rewrite Er. simpl.
    destruct (decide (row d = row d')) as [E|E].
    + apply row_inj in E as ->. rewrite list_lookup_insert_eq by lia.
      by rewrite decide_True.
    + rewrite list_lookup_insert_ne by done.
      rewrite decide_False; [done|]. intros [_ ->]. done.
  - rewrite decide_False; [done|]. intros [-> _]. done.
Qed.

End TransitionTable.

(** ** The state machine *)

Module Machine.
Section Machine.
Context {Q : Type} `{!BoundedFifo Q Transition}.

(** The mode is an [AtomicU8]; [events] is the transition log. *)
Record StateMachine := {
  current_raw : Z;
  rules : TransitionTable.TransitionTable;
  events : Q
}.

Definition DEFAULT_EVENT_RING : Z := 64.

Definition with_event_ring (event_capacity : Z) : StateMachine :=
  {| current_raw := Mode.as_u8 Auto;
     rules := TransitionTable.spec_default;
     events := fifo_with_capacity event_capacity |}.

Definition new : StateMachine := with_event_ring DEFAULT_EVENT_RING.

Definition current (sm : StateMachine) : Mode :=
  match Mode.from_u8 (current_raw sm) with
  | Some m => m
  | None => EmergencyStop
  end.

(** [now] is what [unix_ns_now] reads; a full log drops the record. *)
Definition commit (sm : StateMachine) (now : Z) (f t : Mode) : exec StateMachine :=
  '(ev, _) ← fifo_push (events sm) {| from := f; to := t; at_unix_ns := now |};
  Ret {| current_raw := Mode.as_u8 t; rules := rules sm; events := ev |}.

Definition try_transition (sm : StateMachine) (now : Z) (t : Mode)
    : exec (StateMachine * result Mode ModeError) :=
  let f := current sm in
  if negb (TransitionTable.allows (rules sm) f t) then Ret (sm, Err (Disallowed f t))
  else
    sm' ← commit sm now f t;
    Ret (sm', Ok f).

Definition force_emergency_stop (sm : StateMachine) (now : Z)
    : exec (StateMachine * Mode) :=
  let f := current sm in
  if decide (f = EmergencyStop) then Ret (sm, f)
  else
    sm' ← commit sm now f EmergencyStop;
    Ret (sm', f).

(** [out] grows by the drained log. *)
Definition take_transitions (fuel : nat) (sm : StateMachine) (out : list Transition)
    : exec (StateMachine * list Transition * Z) :=
  '(ev, ts) ← fifo_drain fuel (events sm);
  Ret ({| current_raw := current_raw sm; rules := rules sm; events := ev |},
       out ++ ts, Z.of_nat (length ts)).

(** *** Invariant and lemmas *)

(** The log holds [l], and the mode byte is a discriminant. *)
Record sm_rep (sm : StateMachine) (m : Mode) (l : list Transition) : Prop := {
  sm_mode : current_raw sm = Mode.as_u8 m;
  sm_log : fifo_rep (events sm) l
}.

Lemma sm_current sm m l : sm_rep sm m l -> current sm = m.
Proof. intros [E _]. unfold current. rewrite E, Mode.from_as_u8. done. Qed.

(** What pushing onto a log bounded by [c] leaves in it. *)
Definition log_push (c : Z) (l : list Transition) (t : Transition) : list Transition :=
  if Z.of_nat (length l) <? c then l ++ [t] else l.

Lemma commit_spec sm m l now f t : sm_rep sm m l ->
  exists sm', commit sm now f t = Ret sm' /\
    sm_rep sm' t (log_push (fifo_capacity (events sm)) l
                    {| from := f; to := t; at_unix_ns := now |}) /\
    rules sm' = rules sm /\ fifo_capacity (events sm') = fifo_capacity (events sm).
Proof.
  intros [_ Hl]. unfold commit, log_push.
  destruct (Z.ltb_spec (Z.of_nat (length l)) (fifo_capacity (events sm))).
  - destruct (fifo_push_ok _ _ {| from := f; to := t; at_unix_ns := now |} Hl)
      as (q & -> & Hr & Hc); [done|].
    eexists. split; [done|]. split_and!; [constructor; done | done | exact Hc].
  - rewrite (fifo_push_full _ _ _ Hl) by done.
    eexists. split; [done|]. split_and!; [constructor; done | done | done].
Qed.

(** *** Call sequences of one mutator thread *)

Inductive sm_call := Try (now : Z) (t : Mode) | Stop (now : Z).

Definition sm_call_exec (sm : StateMachine) (c : sm_call) : exec StateMachine :=
  match c with
  | Try now t => '(sm', _) ← try_transition sm now t; Ret sm'
  | Stop now => '(sm', _) ← force_emergency_stop sm now; Ret sm'
  end.

Fixpoint sm_run (sm : StateMachine) (cs : list sm_call) : exec StateMachine :=
  match cs with
  | [] => Ret sm
  | c :: cs => sm' ← sm_call_exec sm c; sm_run sm' cs
  end.

(** the specification: modes and the edges taken *)
Definition spec_call (tbl : TransitionTable.TransitionTable) (m : Mode) (c : sm_call)
    : Mode * list Transition :=
  match c with
  | Try now t => if TransitionTable.allows tbl m t
                 then (t, [{| from := m; to := t; at_unix_ns := now |}]) else (m, [])
  | Stop now => if decide (m = EmergencyStop) then (m, [])
                else (EmergencyStop, [{| from := m; to := EmergencyStop; at_unix_ns := now |}])
  end.

Fixpoint spec_trace (tbl : TransitionTable.TransitionTable) (m : Mode) (cs : list sm_call)
    : Mode * list Transition :=
  match cs with
  | [] => (m, [])
  | c :: cs =>
      let '(m', e) := spec_call tbl m c in
      let '(m'', es) := spec_trace tbl m' cs in
      (m'', e ++ es)
  end.

Lemma sm_call_spec sm m l c : sm_rep sm m l ->
  exists sm', sm_call_exec sm c = Ret sm' /\
    sm_rep sm' (spec_call (rules sm) m c).1
      (foldl (log_push (fifo_capacity (events sm))) l (spec_call (rules sm) m c).2) /\
    rules sm' = rules sm /\ fifo_capacity (events sm') = fifo_capacity (events sm).
Proof.
  intros H. pose proof (sm_current _ _ _ H) as Hm.
  destruct c as [now t|now]; simpl; unfold try_transition, force_emergency_stop; rewrite Hm.
  - destruct (TransitionTable.allows (rules sm) m t); simpl; [|eauto].
    destruct (commit_spec sm m l now m t H) as (sm' & -> & ?). cbn. eauto.
  - destruct (decide _); simpl; [eauto|].
    destruct (commit_spec sm m l now m EmergencyStop H) as (sm' & -> & ?). cbn. eauto.
Qed.

Lemma sm_run_spec cs : forall sm m l, sm_rep sm m l ->
  exists sm', sm_run sm cs = Ret sm' /\
    sm_rep sm' (spec_trace (rules sm) m cs).1
      (foldl (log_push (fifo_capacity (events sm))) l (spec_trace (rules sm) m cs).2) /\
    rules sm' = rules sm /\ fifo_capacity (events sm') = fifo_capacity (events sm).
Proof.
  induction cs as [|c cs IH]; intros sm m l H; [simpl; eauto|].
  destruct (sm_call_spec sm m l c H) as (sm1 & E1 & H1 & Hr1 & Hc1).
  destruct (IH _ _ _ H1) as (sm2 & E2 & H2 & Hr2 & Hc2). rewrite Hr1, Hc1 in *.
  cbn [sm_run spec_trace]. rewrite E1. cbn. rewrite E2.
  destruct (spec_call _ m c) as [m1 e1]. simpl in *.
  destruct (spec_trace _ m1 cs) as [m2 e2]. simpl in *.
  rewrite foldl_app. eauto.
Qed.

End Machine.
Arguments StateMachine : clear implicits.
End Machine.

(** ** Concurrent mutators

    [try_transition] and [force_emergency_stop] take [&self] and are called from
    any thread; each is a load of the mode byte followed, if the guard passes,
    by a store.  Threads are numbered, [history] lists the committed edges. *)

Module Race.

Inductive pc := Idle | TryLoaded (from to : Mode) | StopLoaded (from : Mode).

Record rstate := {
  mode : Mode;
  pcs : list pc;
  history : list (Mode * Mode);
  stops_done : nat
}.

Definition set_pc (s : rstate) (i : nat) (p : pc) : list pc := <[i := p]> (pcs s).

Inductive rstep (tbl : TransitionTable.TransitionTable) : rstate -> rstate -> Prop :=
| try_load s i t :
    pcs s !! i = Some Idle ->
    rstep tbl s {| mode := mode s; pcs := set_pc s i (TryLoaded (mode s) t);
                   history := history s; stops_done := stops_done s |}
| try_refuse s i f t :
    pcs s !! i = Some (TryLoaded f t) -> TransitionTable.allows tbl f t = false ->
    rstep tbl s {| mode := mode s; pcs := set_pc s i Idle;
                   history := history s; stops_done := stops_done s |}
| try_store s i f t :
    pcs s !! i = Some (TryLoaded f t) -> TransitionTable.allows tbl f t = true ->
    rstep tbl s {| mode := t; pcs := set_pc s i Idle;
                   history := history s ++ [(f, t)]; stops_done := stops_done s |}
| stop_load s i :
    pcs s !! i = Some Idle ->
    rstep tbl s {| mode := mode s; pcs := set_pc s i (StopLoaded (mode s));
                   history := history s; stops_done := stops_done s |}
| stop_noop s i :
    pcs s !! i = Some (StopLoaded EmergencyStop) ->
    rstep tbl s {| mode := mode s; pcs := set_pc s i Idle;
                   history := history s; stops_done := S (stops_done s) |}
| stop_store s i f :
    pcs s !! i = Some (StopLoaded f) -> f <> EmergencyStop ->
    rstep tbl s {| mode := EmergencyStop; pcs := set_pc s i Idle;
                   history := history s ++ [(f, EmergencyStop)];
                   stops_done := S (stops_done s) |}.

Definition rinit (threads : nat) (m : Mode) : rstate :=
  {| mode := m; pcs := replicate threads Idle; history := []; stops_done := 0 |}.

Inductive rreach (tbl : TransitionTable.TransitionTable) (n : nat) (m : Mode) : rstate -> Prop :=
| rreach_init : rreach tbl n m (rinit n m)
| rreach_step s s' : rreach tbl n m s -> rstep tbl s s' -> rreach tbl n m s'.

(** the mode byte always holds the target of the last committed edge *)
Definition last_target (m : Mode) (h : list (Mode * Mode)) : Mode :=
  foldl (fun _ e => e.2) m h.

Lemma last_target_snoc m h f t : last_target m (h ++ [(f, t)]) = t.
Proof. unfold last_target. rewrite foldl_app. done. Qed.

End Race.

(** ** Theorems *)

Import Machine.

(** consecutive edges: each starts where the previous one ended *)
Fixpoint chained (m : Mode) (es : list Transition) (m' : Mode) : Prop :=
  match es with
  | [] => m = m'
  | e :: es => from e = m /\ chained (to e) es m'
  end.

Lemma spec_trace_legal tbl cs : forall m,
  (forall f, TransitionTable.allows tbl f EmergencyStop = true) ->
  Forall (fun e => TransitionTable.allows tbl (from e) (to e) = true) (spec_trace tbl m cs).2 /\
  chained m (spec_trace tbl m cs).2 (spec_trace tbl m cs).1.
Proof.
  induction cs as [|c cs IH]; intros m He; simpl; [split; [constructor | done]|].
  destruct (spec_call tbl m c) as [m1 e1] eqn:E1.
  specialize (IH m1 He). destruct (spec_trace tbl m1 cs) as [m2 e2]. simpl in *.
  destruct IH as [IHf IHc].
  destruct c as [now t|now]; simpl in E1; [destruct (TransitionTable.allows tbl m t) eqn:Ea
    | destruct (decide (m = EmergencyStop))]; simplify_eq; simpl; auto.
Qed.

Lemma spec_default_estop f : TransitionTable.allows TransitionTable.spec_default f EmergencyStop = true.
Proof. destruct f; reflexivity. Qed.

Section MachineTheorems.
Context {Q : Type} `{!BoundedFifo Q Transition}.

Lemma new_rep c : fifo_min (Q := Q) (A := Transition) <= c <= 2 ^ 63 ->
  sm_rep (with_event_ring (Q := Q) c) Auto [].
Proof. intros Hc. constructor; [done|]. by apply fifo_new_rep. Qed.

(** C8: From a new machine, any sequence of transition requests and emergency
    stops (any number of them, at any times) never panics and follows the
    specification automaton: the mode is its state, every edge it takes is legal
    under the default table and the edges are contiguous from [Auto], and the
    log holds the edges in order, dropping only those that found the ring full. *)
Theorem machine_follows_table (c : Z) (cs : list sm_call) :
  fifo_min (Q := Q) (A := Transition) <= c <= 2 ^ 63 ->
  let sm := with_event_ring (Q := Q) c in
  let es := (spec_trace TransitionTable.spec_default Auto cs).2 in
  exists sm', sm_run sm cs = Ret sm' /\
    current sm' = (spec_trace TransitionTable.spec_default Auto cs).1 /\
    Forall (fun e => TransitionTable.allows TransitionTable.spec_default (from e) (to e) = true) es /\
    chained Auto es (current sm') /\
    fifo_rep (events sm') (foldl (log_push (next_power_of_two (Z.max c 1))) [] es).
Proof.
  intros Hc sm es. destruct (sm_run_spec cs sm Auto [] (new_rep c Hc)) as (sm' & E & H & _ & _).
  destruct (spec_trace_legal TransitionTable.spec_default cs Auto spec_default_estop) as [Hf Hch].
  exists sm'. split; [exact E|]. pose proof (sm_current _ _ _ H) as Hm. simpl in Hm.
  rewrite Hm. split_and!; [done | exact Hf | exact Hch |].
  pose proof (sm_log _ _ _ H) as Hl. simpl in Hl. rewrite fifo_new_cap in Hl. exact Hl.
Qed.

End MachineTheorems.

Lemma machine_follows_table_witness :
  exists sm', sm_run (with_event_ring (Q := Spsc.SpscRing Transition) 64)
      [Try 1 FullTeleop; Try 2 Assist; Try 3 FullTeleop; Stop 4; Stop 5; Try 6 Auto; Try 7 Assist]
      = Ret sm' /\ current sm' = Assist.
Proof.
  destruct (machine_follows_table (Q := Spsc.SpscRing Transition) 64
    [Try 1 FullTeleop; Try 2 Assist; Try 3 FullTeleop; Stop 4; Stop 5; Try 6 Auto; Try 7 Assist])
    as (sm' & E & Hm & _); [simpl; lia|]. exists sm'. split; [exact E | exact Hm].
Defined.

(** C9: Once stopped, the machine stays in [EmergencyStop] through any requests
    other than [Assist] (and through further stops), and a request for [Assist]
    is then granted: the latch opens by acknowledgment only. *)
Theorem estop_latched_until_ack {Q} `{!BoundedFifo Q Transition} (sm : StateMachine Q) m l now cs :
  sm_rep sm m l -> rules sm = TransitionTable.spec_default ->
  Forall (fun c => match c with Try _ t => t <> Assist | Stop _ => True end) cs ->
  exists sm1 sm2, force_emergency_stop sm now = Ret (sm1, m) /\
    sm_run sm1 cs = Ret sm2 /\ current sm2 = EmergencyStop /\
    forall now', exists sm3,
      try_transition sm2 now' Assist = Ret (sm3, Ok EmergencyStop) /\ current sm3 = Assist.
Proof.
  intros H Ht Hcs.
  assert (exists sm1 l1, force_emergency_stop sm now = Ret (sm1, m) /\
    sm_rep sm1 EmergencyStop l1 /\ rules sm1 = TransitionTable.spec_default)
    as (sm1 & l1 & E1 & H1 & Ht1).
  { unfold force_emergency_stop. rewrite (sm_current _ _ _ H). destruct (decide _) as [->|].
    - eauto.
    - destruct (commit_spec sm m l now m EmergencyStop H) as (sm1 & -> & ? & Hr & _).
      cbn. do 2 eexists. split_and!; [done | done | congruence]. }
  destruct (sm_run_spec cs sm1 _ _ H1) as (sm2 & E2 & H2 & Ht2 & _).
  assert (Hm : (spec_trace (rules sm1) EmergencyStop cs).1 = EmergencyStop).
  { rewrite Ht1. clear -Hcs. induction Hcs as [|c cs Hc _ IH]; [done|].
    simpl. assert (E : (spec_call TransitionTable.spec_default EmergencyStop c).1 = EmergencyStop)
      by (destruct c as [n t|n]; [destruct t|]; done).
    destruct (spec_call _ EmergencyStop c) as [m1 e1]. simpl in E. subst m1.
    destruct (spec_trace _ EmergencyStop cs). done. }
  rewrite Hm in H2. exists sm1, sm2. split_and!; [done | done | by eapply sm_current |].
  intros now'. unfold try_transition. rewrite (sm_current _ _ _ H2).
  assert (rules sm2 = TransitionTable.spec_default) as -> by congruence. simpl.
  destruct (commit_spec sm2 _ _ now' EmergencyStop Assist H2) as (sm3 & -> & H3 & _).
  cbn. exists sm3. split; [done | by eapply sm_current].
Qed.

Lemma estop_latched_until_ack_witness :
  exists sm1 sm2,
    force_emergency_stop (with_event_ring (Q := Spsc.SpscRing Transition) 1) 9 = Ret (sm1, Auto) /\
    sm_run sm1 [Try 1 Auto; Stop 2; Try 3 FullTeleop] = Ret sm2 /\
    current sm2 = EmergencyStop.
Proof.
  destruct (estop_latched_until_ack (with_event_ring (Q := Spsc.SpscRing Transition) 1) Auto [] 9
    [Try 1 Auto; Stop 2; Try 3 FullTeleop]) as (sm1 & sm2 & E1 & E2 & E3 & _).
  - apply new_rep. simpl. lia.
  - reflexivity.
  - repeat constructor; discriminate.
  - eauto.
Defined.

(** However any number of threads interleave their loads and stores, every
    edge ever committed is legal under the table or an emergency stop, and the
    mode byte is the target of the last one. *)
Theorem concurrent_edges_legal tbl n m s :
  Race.rreach tbl n m s ->
  Forall (fun e => TransitionTable.allows tbl e.1 e.2 = true \/ e.2 = EmergencyStop)
         (Race.history s) /\
  Race.mode s = Race.last_target m (Race.history s).
Proof.
  induction 1 as [|s s' _ [IHf IHm] Hs]; [split; [constructor | done]|].
  inversion Hs; subst; simpl; try done;
    (split; [apply Forall_app; split; [done | constructor; [|constructor]]
            | rewrite Race.last_target_snoc; done]); simpl; auto.
Qed.

(** a transition request that passed its check before an emergency stop
    completed, and stored after it *)
Definition race_lost : Race.rstate := {|
  Race.mode := FullTeleop; Race.pcs := [Race.Idle; Race.Idle];
  Race.history := [(Assist, EmergencyStop); (Assist, FullTeleop)]; Race.stops_done := 1 |}.

Lemma race_lost_reachable :
  Race.rreach TransitionTable.spec_default 2 Assist race_lost.
Proof.
  pose (st m p0 p1 h n := {| Race.mode := m; Race.pcs := [p0; p1];
                             Race.history := h; Race.stops_done := n |}).
  pose (s0 := st Assist Race.Idle Race.Idle [] 0%nat).
  pose (s1 := st Assist (Race.TryLoaded Assist FullTeleop) Race.Idle [] 0%nat).
  pose (s2 := st Assist (Race.TryLoaded Assist FullTeleop) (Race.StopLoaded Assist) [] 0%nat).
  pose (s3 := st EmergencyStop (Race.TryLoaded Assist FullTeleop) Race.Idle
                 [(Assist, EmergencyStop)] 1%nat).
  apply Race.rreach_step with (s := s3);
    [|exact (Race.try_store TransitionTable.spec_default s3 0 Assist FullTeleop eq_refl eq_refl)].
  apply Race.rreach_step with (s := s2);
    [|exact (Race.stop_store _ s2 1 Assist eq_refl (fun e => ltac:(discriminate e)))].
  apply Race.rreach_step with (s := s1); [|exact (Race.stop_load _ s1 1 eq_refl)].
  apply Race.rreach_step with (s := s0); [|exact (Race.try_load _ s0 0 FullTeleop eq_refl)].
  apply Race.rreach_init.
Qed.

Lemma concurrent_edges_legal_witness :
  Race.mode race_lost = Race.last_target Assist (Race.history race_lost).
Proof. apply (concurrent_edges_legal _ _ _ _ race_lost_reachable). Defined.

(** The mode store is not a compare-exchange: there is a run of two threads,
    one requesting [FullTeleop] from [Assist] and one emergency-stopping, after
    which the stop has completed, every thread is idle, no edge out of
    [EmergencyStop] was ever taken, and yet the machine is in [FullTeleop]. *)
Theorem estop_lost_to_race :
  exists s, Race.rreach TransitionTable.spec_default 2 Assist s /\
    Race.stops_done s = 1%nat /\ Forall (eq Race.Idle) (Race.pcs s) /\
    Forall (fun e => e.1 <> EmergencyStop) (Race.history s) /\
    Race.mode s = FullTeleop.
Proof.
  exists race_lost. split; [apply race_lost_reachable|].
  split; [done|]. split; [repeat constructor|]. split; [|done].
  repeat constructor; discriminate.
Qed.
