(* ===== verification/Mpmc.v ===== *)
(** * The bounded MPMC queue: [tpt-t-core/src/mpmc.rs]

    Vyukov's queue with per-cell sequence numbers, one call at a time.  The retry
    loops carry fuel.  [compare_exchange_weak] may fail although the cursor still holds
    the loaded position: each call is given the outcomes of its attempts, [true] for a
    failure of that kind.  For capacities of at least two the queue implements
    [BoundedFifo]; at capacity one the sequence protocol breaks down. *)

From S2P Require Import Prelude Ring.

Module Mpmc.
Section Mpmc.
Context {T : Type}.

Record Cell := { seq : Z; value : option T }.

Record MpmcRing := {
  cells : list Cell;
  enqueue_pos : Z;
  dequeue_pos : Z;
  cap : Z
}.

Definition with_capacity (capacity : Z) : MpmcRing :=
  let cap := next_power_of_two (Z.max capacity 1) in
  {| cells := (fun i => {| seq := i; value := None |}) <$> seqZ 0 cap;
     enqueue_pos := 0; dequeue_pos := 0; cap := cap |}.

Definition capacity (r : MpmcRing) : Z := cap r.

Definition cell_index (r : MpmcRing) (pos : Z) : nat := Z.to_nat (Z.land pos (cap r - 1)).

(** the next outcome; once the list is used up no attempt fails spuriously *)
Definition spurious (weak : list bool) : bool := match weak with f :: _ => f | [] => false end.

Fixpoint push_loop (fuel : nat) (weak : list bool) (r : MpmcRing) (pos : Z) (v : T)
    : exec (MpmcRing * result unit T) :=
  match fuel with
  | O => NoFuel
  | S fuel =>
      match cells r !! cell_index r pos with
      | None => Undef
      | Some cell =>
          let diff := to_signed 64 (wsub 64 (seq cell) pos) in
          if diff =? 0 then
            if (enqueue_pos r =? pos) && negb (spurious weak) then
              Ret ({| cells := <[cell_index r pos :=
                                  {| seq := wadd 64 pos 1; value := Some v |}]> (cells r);
                      enqueue_pos := wadd 64 pos 1;
                      dequeue_pos := dequeue_pos r; cap := cap r |}, Ok tt)
            else push_loop fuel (drop 1 weak) r (enqueue_pos r) v
          else if diff <? 0 then Ret (r, Err v)
          else push_loop fuel weak r (enqueue_pos r) v
      end
  end.

Fixpoint pop_loop (fuel : nat) (weak : list bool) (r : MpmcRing) (pos : Z) : exec (MpmcRing * option T) :=
  match fuel with
  | O => NoFuel
  | S fuel =>
      match cells r !! cell_index r pos with
      | None => Undef
      | Some cell =>
          let diff := to_signed 64 (wsub 64 (seq cell) (wadd 64 pos 1)) in
          if diff =? 0 then
            if (dequeue_pos r =? pos) && negb (spurious weak) then
              match value cell with
              | None => Undef
              | Some v =>
                  Ret ({| cells := <[cell_index r pos :=
                                      {| seq := wadd 64 pos (cap r); value := Some v |}]> (cells r);
                          enqueue_pos := enqueue_pos r;
                          dequeue_pos := wadd 64 pos 1; cap := cap r |}, Some v)
              end
            else pop_loop fuel (drop 1 weak) r (dequeue_pos r)
          else if diff <? 0 then Ret (r, None)
          else pop_loop fuel weak r (dequeue_pos r)
      end
  end.

(** One iteration for every spurious failure and one that decides. *)
Definition push (weak : list bool) (r : MpmcRing) (v : T) : exec (MpmcRing * result unit T) :=
  push_loop (S (length weak)) weak r (enqueue_pos r) v.
Definition pop (weak : list bool) (r : MpmcRing) : exec (MpmcRing * option T) :=
  pop_loop (S (length weak)) weak r (dequeue_pos r).

(** Spurious failures cost iterations and nothing else. *)
Lemma push_retry weak r v : push weak r v = push [] r v.
Proof.
  unfold push. destruct (cells r !! cell_index r (enqueue_pos r)) as [cell|] eqn:Ec; [|cbn; by rewrite Ec].
  set (d := to_signed 64 (wsub 64 (seq cell) (enqueue_pos r))).
  destruct (d =? 0) eqn:E0; [|destruct (d <? 0) eqn:E1].
  - induction weak as [|f weak IH]; [done|]. cbn [length]. revert IH. generalize (S (length weak)). intros n IH.
    cbn [push_loop]. rewrite Ec. fold d. rewrite E0, Z.eqb_refl.
    destruct f; cbn [andb spurious negb]; [|done].
    rewrite skipn_cons, drop_0, IH. cbn [length push_loop]. by rewrite Ec; fold d; rewrite E0, Z.eqb_refl.
  - cbn [length push_loop]. rewrite Ec. fold d. by rewrite E0, E1.
  - assert (G : forall n w, push_loop n w r (enqueue_pos r) v = NoFuel).
    { induction n as [|n IH]; intros w; [done|]. cbn [push_loop]. rewrite Ec. fold d. by rewrite E0, E1. }
    exact (eq_trans (G _ _) (eq_sym (G _ _))).
Qed.
Lemma pop_retry weak r : pop weak r = pop [] r.
Proof.
  unfold pop. destruct (cells r !! cell_index r (dequeue_pos r)) as [cell|] eqn:Ec; [|cbn; by rewrite Ec].
  set (d := to_signed 64 (wsub 64 (seq cell) (wadd 64 (dequeue_pos r) 1))).
  destruct (d =? 0) eqn:E0; [|destruct (d <? 0) eqn:E1].
  - induction weak as [|f weak IH]; [done|]. cbn [length]. revert IH. generalize (S (length weak)). intros n IH.
    cbn [pop_loop]. rewrite Ec. fold d. rewrite E0, Z.eqb_refl.
    destruct f; cbn [andb spurious negb]; [|done].
    rewrite skipn_cons, drop_0, IH. cbn [length pop_loop]. by rewrite Ec; fold d; rewrite E0, Z.eqb_refl.
  - cbn [length pop_loop]. rewrite Ec. fold d. by rewrite E0, E1.
  - assert (G : forall n w, pop_loop n w r (dequeue_pos r)  = NoFuel).
    { induction n as [|n IH]; intros w; [done|]. cbn [pop_loop]. rewrite Ec. fold d. by rewrite E0, E1. }
    exact (eq_trans (G _ _) (eq_sym (G _ _))).
Qed.

Definition len (r : MpmcRing) : Z := wsub 64 (enqueue_pos r) (dequeue_pos r).
Definition is_empty (r : MpmcRing) : bool := len r =? 0.

(** ** Representation

    Positions [[nd, nd + len)] are published ([seq = pos + 1]), positions
    [[nd + len, nd + cap)] are free ([seq = pos]). *)

Record mpmc_rep_at (r : MpmcRing) (nd : Z) (l : list T) : Prop := {
  mr_pow2 : pow2 (cap r);
  mr_cap : 1 <= cap r <= 2 ^ 63;
  mr_len : Z.of_nat (length (cells r)) = cap r;
  mr_bound : Z.of_nat (length l) <= cap r;
  mr_nd : 0 <= nd;
  mr_deq : dequeue_pos r = wrap 64 nd;
  mr_enq : enqueue_pos r = wrap 64 (nd + Z.of_nat (length l));
  mr_full : forall i v, l !! i = Some v ->
    cells r !! Z.to_nat ((nd + Z.of_nat i) mod cap r) =
      Some {| seq := wrap 64 (nd + Z.of_nat i + 1); value := Some v |};
  mr_free : forall p, nd + Z.of_nat (length l) <= p < nd + cap r ->
    exists v, cells r !! Z.to_nat (p mod cap r) = Some {| seq := wrap 64 p; value := v |}
}.

Definition mpmc_rep (r : MpmcRing) (l : list T) : Prop := exists nd, mpmc_rep_at r nd l.

Lemma cell_index_wrap r n : pow2 (cap r) -> cap r <= 2 ^ 63 ->
  cell_index r (wrap 64 n) = Z.to_nat (n mod cap r).
Proof. intros. unfold cell_index. rewrite Spsc.mask_index by done. done. Qed.

Lemma diff_signed a b : - 2 ^ 63 <= a - b < 2 ^ 63 ->
  to_signed 64 (wsub 64 (wrap 64 a) (wrap 64 b)) = a - b.
Proof. intros. rewrite wsub_wrap. apply to_signed_wrap; [lia | done]. Qed.

(** Cells of distinct positions of one window are distinct. *)
Lemma window_ne c a b : 0 < c -> Z.abs (a - b) < c -> a <> b ->
  Z.to_nat (a mod c) <> Z.to_nat (b mod c).
Proof.
  intros Hc Hd Hne E. apply Z2Nat.inj in E; [|apply Z.mod_pos_bound; lia..].
  by apply mod_inj_dist in E.
Qed.

Lemma mpmc_push_ok weak r l v : mpmc_rep r l -> Z.of_nat (length l) < capacity r ->
  exists r', push weak r v = Ret (r', Ok tt) /\ mpmc_rep r' (l ++ [v]) /\ capacity r' = capacity r.
Proof.
  rewrite push_retry. intros [nd [Hp Hc Hl Hb Hn Hd He Hfull Hfree]] Hlt. unfold push, push_loop, capacity in *.
  cbn [length].
  rewrite He, cell_index_wrap by (done || lia).
  destruct (Hfree (nd + Z.of_nat (length l))) as [w Hw]; [lia|]. rewrite Hw. simpl.
  rewrite diff_signed, Z.sub_diag, !Z.eqb_refl by lia.
  eexists. split; [done|]. split; [|done]. exists nd.
  constructor; simpl; autorewrite with len; try done; try (simpl; lia).
  - rewrite wadd_wrap. f_equal. simpl. lia.
  - intros i u Hi. destruct (decide (i = length l)) as [->|Hne].
    + rewrite list_lookup_insert_eq; [|by apply lookup_lt_Some in Hw].
      rewrite list_lookup_middle in Hi by done. rewrite wadd_wrap. congruence.
    + rewrite lookup_app_l in Hi by (apply lookup_lt_Some in Hi;
        rewrite length_app in Hi; simpl in Hi; lia).
      pose proof (lookup_lt_Some _ _ _ Hi).
      rewrite list_lookup_insert_ne; [by apply Hfull|]. apply window_ne; lia.
  - intros p Hpp. simpl in Hpp. destruct (Hfree p) as [u Hu]; [lia|]. exists u.
    rewrite list_lookup_insert_ne; [done|]. apply window_ne; lia.
Qed.

Lemma mpmc_push_full weak r l v : mpmc_rep r l -> 2 <= capacity r -> capacity r <= Z.of_nat (length l) ->
  push weak r v = Ret (r, Err v).
Proof.
  rewrite push_retry. intros [nd [Hp Hc Hl Hb Hn Hd He Hfull Hfree]] H2 Hge. unfold push, push_loop, capacity in *.
  cbn [length].
  rewrite He, cell_index_wrap by (done || lia).
  destruct l as [|u l]; [simpl in *; lia|].
  pose proof (Hfull 0%nat u eq_refl) as Hu. rewrite Z.add_0_r in Hu.
  replace (nd + Z.of_nat (length (u :: l))) with (nd + 1 * cap r) by lia.
  rewrite Z.mod_add by lia. rewrite Hu. cbn [seq].
  rewrite diff_signed by lia.
  destruct (Z.eqb_spec (nd + 1 - (nd + 1 * cap r)) 0); [lia|].
  destruct (Z.ltb_spec (nd + 1 - (nd + 1 * cap r)) 0); [done | lia].
Qed.

Lemma mpmc_pop_some weak r v l : mpmc_rep r (v :: l) ->
  exists r', pop weak r = Ret (r', Some v) /\ mpmc_rep r' l /\ capacity r' = capacity r.
Proof.
  rewrite pop_retry. intros [nd [Hp Hc Hl Hb Hn Hd He Hfull Hfree]]. unfold pop, pop_loop, capacity in *.
  cbn [length].
  rewrite Hd, cell_index_wrap by (done || lia).
  pose proof (Hfull 0%nat v eq_refl) as Hv. rewrite Z.add_0_r in Hv. rewrite Hv. cbn [seq value].
  rewrite wadd_wrap, diff_signed, Z.sub_diag, !Z.eqb_refl by lia.
  eexists. split; [done|]. split; [|done]. exists (nd + 1). simpl length in *.
  constructor; simpl; autorewrite with len; try done; try lia.
  - rewrite He. f_equal. lia.
  - intros i u Hi. pose proof (lookup_lt_Some _ _ _ Hi).
    replace (nd + 1 + Z.of_nat i) with (nd + Z.of_nat (S i)) by lia.
    rewrite list_lookup_insert_ne; [by apply Hfull|]. apply window_ne; lia.
  - intros p Hpp. destruct (decide (p = nd + 1 * cap r)) as [->|Hne].
    + rewrite Z.mod_add, list_lookup_insert_eq by (lia || by apply lookup_lt_Some in Hv).
      exists (Some v). do 2 f_equal. rewrite wadd_wrap. f_equal. lia.
    + destruct (Hfree p) as [u Hu]; [lia|]. exists u.
      rewrite list_lookup_insert_ne; [done|]. apply window_ne; lia.
Qed.

Lemma mpmc_pop_nil weak r : mpmc_rep r [] -> pop weak r = Ret (r, None).
Proof.
  rewrite pop_retry. intros [nd [Hp Hc Hl Hb Hn Hd He Hfull Hfree]]. unfold pop, pop_loop. cbn [length].
  rewrite Hd, cell_index_wrap by (done || lia).
  destruct (Hfree nd) as [w Hw]; [simpl; lia|]. rewrite Hw. cbn [seq].
  rewrite wadd_wrap, diff_signed by lia.
  destruct (Z.eqb_spec (nd - (nd + 1)) 0); [lia|].
  destruct (Z.ltb_spec (nd - (nd + 1)) 0); [done | lia].
Qed.

Lemma mpmc_new_rep c : 1 <= c <= 2 ^ 63 -> mpmc_rep (with_capacity c) [].
Proof.
  intros Hc. exists 0. pose proof (next_power_of_two_ge (Z.max c 1)).
  pose proof (next_power_of_two_le (Z.max c 1) 63). pose proof (next_power_of_two_pow2 (Z.max c 1)).
  constructor; simpl; try done; try lia.
  - rewrite length_fmap, length_seqZ. lia.
  - intros p Hp. exists None. rewrite list_lookup_fmap.
    rewrite Z.mod_small by lia. rewrite lookup_seqZ_lt by lia. simpl.
    do 2 f_equal. rewrite wrap_id; [lia|]. unfold uint. lia.
Qed.

Lemma mpmc_len_rep r l : mpmc_rep r l -> len r = Z.of_nat (length l).
Proof.
  intros [nd [? ? ? ? ? Hd He _ _]]. unfold len. rewrite Hd, He, wsub_dist; lia.
Qed.

(** a queue that can tell a full cell from a free one *)
Definition mpmc_fifo_rep (r : MpmcRing) (l : list T) : Prop := mpmc_rep r l /\ 2 <= capacity r.

Lemma mpmc_fifo_new c : 2 <= c <= 2 ^ 63 -> mpmc_fifo_rep (with_capacity c) [].
Proof.
  intros Hc. split; [apply mpmc_new_rep; lia|]. simpl. pose proof (next_power_of_two_ge (Z.max c 1)). lia.
Qed.
Lemma mpmc_fifo_push_ok weak r l v : mpmc_fifo_rep r l -> Z.of_nat (length l) < capacity r ->
  exists r', push weak r v = Ret (r', Ok tt) /\ mpmc_fifo_rep r' (l ++ [v]) /\ capacity r' = capacity r.
Proof.
  intros [Hr H2] Hl. destruct (mpmc_push_ok weak r l v Hr Hl) as (r' & E & Hr' & Hc).
  exists r'. unfold mpmc_fifo_rep. by rewrite Hc.
Qed.
Lemma mpmc_fifo_pop_some weak r v l : mpmc_fifo_rep r (v :: l) ->
  exists r', pop weak r = Ret (r', Some v) /\ mpmc_fifo_rep r' l /\ capacity r' = capacity r.
Proof.
  intros [Hr H2]. destruct (mpmc_pop_some weak r v l Hr) as (r' & E & Hr' & Hc).
  exists r'. unfold mpmc_fifo_rep. by rewrite Hc.
Qed.

Lemma mpmc_le_cap r l : mpmc_rep r l -> Z.of_nat (length l) <= capacity r.
Proof. intros [nd H]. by eapply mr_bound. Qed.

End Mpmc.
Arguments Cell : clear implicits.
Arguments MpmcRing : clear implicits.
End Mpmc.

#[export] Instance mpmc_fifo (A : Type) : BoundedFifo (Mpmc.MpmcRing A) A := {|
  fifo_with_capacity := Mpmc.with_capacity;
  fifo_capacity := Mpmc.capacity;
  fifo_push := Mpmc.push [];
  fifo_pop := Mpmc.pop [];
  fifo_len := Mpmc.len;
  fifo_rep := Mpmc.mpmc_fifo_rep;
  fifo_min := 2;
  fifo_new_rep := Mpmc.mpmc_fifo_new;
  fifo_new_cap := fun c => eq_refl;
  fifo_push_ok := Mpmc.mpmc_fifo_push_ok [];
  fifo_push_full q l v H := Mpmc.mpmc_push_full [] q l v (proj1 H) (proj2 H);
  fifo_pop_some := Mpmc.mpmc_fifo_pop_some [];
  fifo_pop_nil q H := Mpmc.mpmc_pop_nil [] q (proj1 H);
  fifo_len_rep q l H := Mpmc.mpmc_len_rep q l (proj1 H);
  fifo_bound q l H := Mpmc.mpmc_le_cap q l (proj1 H)
|}.

(** ** Theorems *)

(** calls with the outcomes of their compare-exchange attempts *)
Definition mpmc_exec {A} (q : Mpmc.MpmcRing A) (weak : list bool) (op : fifo_op A)
    : exec (Mpmc.MpmcRing A * fifo_out A) :=
  match op with
  | OpPush v => '(q, r) ← Mpmc.push weak q v;
      Ret (q, match r with Ok _ => OutPushed | Err w => OutRejected w end)
  | OpPop => '(q, o) ← Mpmc.pop weak q; Ret (q, OutPopped o)
  end.
Fixpoint mpmc_run {A} (q : Mpmc.MpmcRing A) (ops : list (list bool * fifo_op A))
    : exec (Mpmc.MpmcRing A * list (fifo_out A)) :=
  match ops with
  | [] => Ret (q, [])
  | (weak, op) :: ops =>
      '(q, o) ← mpmc_exec q weak op;
      '(q, os) ← mpmc_run q ops;
      Ret (q, o :: os)
  end.

Lemma mpmc_run_strong {A} (q : Mpmc.MpmcRing A) ops : mpmc_run q ops = fifo_run q ops.*2.
Proof.
  revert q. induction ops as [|[weak op] ops IH]; intros q; [done|]. cbn [mpmc_run fmap list_fmap fifo_run].
  unfold mpmc_exec, fifo_exec. cbn [snd fifo_push fifo_pop mpmc_fifo].
  destruct op; rewrite ?(Mpmc.push_retry weak), ?(Mpmc.pop_retry weak);
    [destruct (Mpmc.push [] q v) as [[q' r]| | |] | destruct (Mpmc.pop [] q) as [[q' o]| | |]];
    cbn [mbind exec_bind]; rewrite ?ret_bind; try done; by rewrite IH.
Qed.

(** C34: For any capacity of at least two, every sequence of pushes and pops made one
    after another on a fresh MPMC queue returns exactly what a bounded FIFO list
    returns, however many of the compare-exchange attempts of each call fail
    spuriously: a call ends one iteration after the last of them. *)
Theorem mpmc_refines_bounded_fifo {A} (c : Z) (ops : list (list bool * fifo_op A)) :
  2 <= c <= 2 ^ 63 ->
  let q := Mpmc.with_capacity c in
  exists q', mpmc_run q ops = Ret (q', (spec_run (Mpmc.capacity q) [] ops.*2).2) /\
             Mpmc.len q' = Z.of_nat (length (spec_run (Mpmc.capacity q) [] ops.*2).1).
Proof.
  intros Hc q. rewrite mpmc_run_strong.
  destruct (@fifo_run_refines _ _ (mpmc_fifo A) ops.*2 q [] (Mpmc.mpmc_fifo_new c Hc))
    as (q' & E & Hr & _).
  exists q'. split; [exact E|]. exact (Mpmc.mpmc_len_rep _ _ (proj1 Hr)).
Qed.

Lemma mpmc_refines_bounded_fifo_witness :
  exists q', mpmc_run (Mpmc.with_capacity 2)
    [([true; true], OpPush 1); ([false], OpPush 2); ([], OpPush 3); ([true], OpPop); ([], OpPop); ([true], OpPop)]
    = Ret (q', [OutPushed; OutPushed; OutRejected 3; OutPopped (Some 1); OutPopped (Some 2);
                OutPopped None]).
Proof.
  destruct (mpmc_refines_bounded_fifo 2
    [([true; true], OpPush 1); ([false], OpPush 2); ([], OpPush 3); ([true], OpPop); ([], OpPop); ([true], OpPop)])
    as (q' & E & _); [lia|]. exists q'. exact E.
Defined.

(** A queue created with capacity 1 (or 0, which rounds up to 1) breaks the
    protocol: a second push is accepted over the unread first value, which is
    lost, and from then on [pop] spins forever - it returns with no fuel. *)
Theorem mpmc_capacity_one_broken {A} (c : Z) (v w : A) :
  0 <= c <= 1 ->
  let q := Mpmc.with_capacity c in
  exists q1 q2, Mpmc.capacity q = 1 /\
    Mpmc.push [] q v = Ret (q1, Ok tt) /\ Mpmc.push [] q1 w = Ret (q2, Ok tt) /\
    Mpmc.len q2 = 2 /\
    (forall cell, cell ∈ Mpmc.cells q2 -> Mpmc.value cell = Some w) /\
    forall fuel, Mpmc.pop_loop fuel [] q2 (Mpmc.dequeue_pos q2) = NoFuel.
Proof.
  intros Hc q. assert (c = 0 \/ c = 1) as [-> | ->] by lia;
    (do 2 eexists; split_and!; [reflexivity..| |]);
    [intros cell Hi; apply list_elem_of_singleton in Hi as ->; reflexivity
    |induction fuel as [|fuel IH]; [done | exact IH]
    |intros cell Hi; apply list_elem_of_singleton in Hi as ->; reflexivity
    |induction fuel as [|fuel IH]; [done | exact IH]].
Qed.

Lemma mpmc_capacity_one_broken_witness :
  exists q1, Mpmc.push [] (Mpmc.with_capacity 1) 7 = Ret (q1, Ok tt) /\
             is_ok (match Mpmc.push [] q1 8 with Ret (_, r) => r | _ => Err 0 end) = true.
Proof.
  destruct (mpmc_capacity_one_broken 1 7 8) as (q1 & q2 & _ & E1 & E2 & _); [lia|].
  exists q1. split; [exact E1|]. rewrite E2. reflexivity.
Defined.
