(* ===== verification/Pool.v ===== *)
(** * Pre-allocated buffer pool and message bus: [tpt-t-core/src/pool.rs], [bus.rs]

    [Module Pool]: fixed slots handed out through a free-list of indices, the queue of
    [Mpmc], one call at a time.  [Module Bus]: fan-out over one ring per subscriber. *)

From S2P Require Import Prelude Ring Mpmc.

Module Pool.
Section Pool.
Context {T : Type}.

Record BufferPool := {
  slots : list (option T);
  free : Mpmc.MpmcRing Z;
  initialized : list bool;
  outstanding : Z
}.

(** [for i in 0..size as u32 { let _ = free.push(i); }]; [weak i]: the outcomes of the
    compare-exchange attempts of the push of [i] *)
Fixpoint fill (weak : Z -> list bool) (q : Mpmc.MpmcRing Z) (ids : list Z) : exec (Mpmc.MpmcRing Z) :=
  match ids with
  | [] => Ret q
  | i :: ids => '(q', _) ← Mpmc.push (weak i) q i; fill weak q' ids
  end.

Definition new (weak : Z -> list bool) (size : Z) : exec BufferPool :=
  let size := Z.max size 1 in
  free ← fill weak (Mpmc.with_capacity size) (seqZ 0 (wrap 32 size));
  Ret {| slots := replicate (Z.to_nat size) None; free := free;
         initialized := replicate (Z.to_nat size) false; outstanding := 0 |}.

Definition capacity (p : BufferPool) : Z := Z.of_nat (length (slots p)).
Definition in_use (p : BufferPool) : Z := outstanding p.

(** The guard returned is its slot index.  A panic of [init] unwinds before there is a
    guard: the slot is then never given back. *)
Definition get_with (weak : list bool) (p : BufferPool) (init : exec T) : exec (BufferPool * option Z) :=
  '(q, o) ← Mpmc.pop weak (free p);
  match o with
  | None => Ret ({| slots := slots p; free := q; initialized := initialized p;
                    outstanding := outstanding p |}, None)
  | Some idx =>
      let out := wadd 64 (outstanding p) 1 in
      ini ← index (initialized p) (Z.to_nat idx);
      if negb ini then
        v ← init;
        if decide (Z.to_nat idx < length (slots p))%nat then
          Ret ({| slots := <[Z.to_nat idx := Some v]> (slots p); free := q;
                  initialized := <[Z.to_nat idx := true]> (initialized p);
                  outstanding := out |}, Some idx)
        else Undef
      else
        Ret ({| slots := slots p; free := q; initialized := initialized p;
                outstanding := out |}, Some idx)
  end.

(** [Deref] and [DerefMut] of a guard *)
Definition deref (p : BufferPool) (idx : Z) : exec T :=
  match slots p !! Z.to_nat idx with
  | Some (Some v) => Ret v
  | _ => Undef
  end.

Definition deref_mut (p : BufferPool) (idx : Z) (v : T) : exec BufferPool :=
  match slots p !! Z.to_nat idx with
  | Some (Some _) =>
      Ret {| slots := <[Z.to_nat idx := Some v]> (slots p); free := free p;
             initialized := initialized p; outstanding := outstanding p |}
  | _ => Undef
  end.

(** [Drop] of a guard *)
Definition release (weak : list bool) (p : BufferPool) (idx : Z) : exec BufferPool :=
  '(q, _) ← Mpmc.push weak (free p) idx;
  Ret {| slots := slots p; free := q; initialized := initialized p;
         outstanding := wsub 64 (outstanding p) 1 |}.

(** ** Invariant

    [out] are the indices held by live guards. *)
Record pool_rep (p : BufferPool) (n : Z) (out : list Z) : Prop := {
  pl_n : 0 < n < 2 ^ 32;
  pl_cap : n <= Mpmc.capacity (free p);
  pl_slots : length (slots p) = Z.to_nat n;
  pl_init : length (initialized p) = Z.to_nat n;
  pl_out : outstanding p = Z.of_nat (length out);
  pl_free : exists l, Mpmc.mpmc_rep (free p) l /\ l ++ out ≡ₚ seqZ 0 n;
  pl_live : forall i, 0 <= i < n -> initialized p !! Z.to_nat i = Some true ->
    exists v, slots p !! Z.to_nat i = Some (Some v);
  pl_outi : forall i, i ∈ out -> initialized p !! Z.to_nat i = Some true
}.

Lemma fill_spec weak ids : forall q l, Mpmc.mpmc_rep q l ->
  Z.of_nat (length l + length ids) <= Mpmc.capacity q ->
  exists q', fill weak q ids = Ret q' /\ Mpmc.mpmc_rep q' (l ++ ids) /\ Mpmc.capacity q' = Mpmc.capacity q.
Proof.
  induction ids as [|i ids IH]; intros q l Hr Hle; cbn [fill length] in *.
  - exists q. rewrite app_nil_r. done.
  - destruct (Mpmc.mpmc_push_ok (weak i) q l i Hr) as (q1 & E & Hr1 & Hc1); [lia|]. rewrite E, ret_bind. cbn beta iota.
    destruct (IH q1 (l ++ [i]) Hr1) as (q2 & -> & Hr2 & Hc2).
    { rewrite length_app, Hc1. simpl. lia. }
    exists q2. rewrite <- app_assoc in Hr2. split_and!; [done | done | congruence].
Qed.

Lemma pool_new_spec weak size : size < 2 ^ 32 ->
  exists p, new weak size = Ret p /\ pool_rep p (Z.max size 1) [] /\ capacity p = Z.max size 1.
Proof.
  intros Hs. unfold new. rewrite wrap_id by (unfold uint; lia).
  pose proof (next_power_of_two_ge (Z.max (Z.max size 1) 1)).
  destruct (fill_spec weak (seqZ 0 (Z.max size 1)) (Mpmc.with_capacity (Z.max size 1)) [])
    as (q & E & Hr & Hc).
  - apply Mpmc.mpmc_new_rep. lia.
  - rewrite length_seqZ. simpl. lia.
  - rewrite E, ret_bind. eexists. split; [done|]. simpl in Hc. split.
    + constructor; simpl; rewrite ?length_replicate; try done.
      * lia.
      * rewrite Hc. lia.
      * exists (seqZ 0 (Z.max size 1)). rewrite app_nil_r. done.
      * intros i _ H'. apply lookup_replicate in H' as [? _]. done.
      * intros i H'. by apply not_elem_of_nil in H'.
    + unfold capacity. simpl. rewrite length_replicate. lia.
Qed.

(** A size that is a multiple of [2^32] gives a pool without a free slot: the indices
    are counted in 32 bits. *)
Lemma pool_size_truncated weak weak' size init : 2 ^ 32 <= size <= 2 ^ 63 -> wrap 32 size = 0 ->
  exists p, new weak size = Ret p /\ capacity p = size /\
    exists p', get_with weak' p init = Ret (p', None).
Proof.
  intros Hs Hw. unfold new. rewrite Z.max_l, Hw by lia. change (seqZ 0 0) with (@nil Z). cbn [fill].
  rewrite ret_bind. eexists. split; [done|]. split.
  { unfold capacity. simpl. rewrite length_replicate. lia. }
  unfold get_with. cbn [free]. rewrite (Mpmc.mpmc_pop_nil weak') by (apply Mpmc.mpmc_new_rep; lia).
  rewrite ret_bind. by eexists.
Qed.

Lemma pool_perm_range l out n i : (l ++ out) ≡ₚ seqZ 0 n -> i ∈ l ++ out -> 0 <= i < n.
Proof. intros Hp Hi. rewrite Hp in Hi. apply elem_of_seqZ in Hi. lia. Qed.

Lemma pool_get_spec weak p n out init : pool_rep p n out ->
  if decide (Z.of_nat (length out) = n)
  then exists p', get_with weak p (Ret init) = Ret (p', None) /\ pool_rep p' n out
  else exists p' idx v, get_with weak p (Ret init) = Ret (p', Some idx) /\ pool_rep p' n (idx :: out) /\
         0 <= idx < n /\ (idx ∉ out) /\ deref p' idx = Ret v /\
         (forall j, j ∈ out -> deref p' j = deref p j).
Proof.
  intros [Hn Hcap Hs Hi Ho (l & Hr & Hperm) Hlive Hout].
  assert (Hlen : (length l + length out)%nat = Z.to_nat n).
  { rewrite <- length_app, Hperm, length_seqZ. done. }
  assert (Hnd : NoDup (l ++ out)) by (rewrite Hperm; apply NoDup_seqZ).
  unfold get_with. destruct l as [|idx l]; simpl in Hlen.
  - rewrite decide_True by lia. rewrite (Mpmc.mpmc_pop_nil weak _ Hr). cbn.
    eexists. split; [done|]. constructor; simpl; try done. exists []. done.
  - rewrite decide_False by lia.
    destruct (Mpmc.mpmc_pop_some weak _ _ _ Hr) as (q & -> & Hr' & Hc'). cbn.
    assert (Hidx : 0 <= idx < n).
    { eapply pool_perm_range; [done|]. apply elem_of_app. left. left. }
    assert (Hnew : idx ∉ out).
    { apply NoDup_app in Hnd as (_ & Hd & _). apply Hd. left. }
    assert (Hperm' : (l ++ idx :: out) ≡ₚ seqZ 0 n) by (rewrite <- Hperm; solve_Permutation).
    assert (Hw : wadd 64 (outstanding p) 1 = Z.of_nat (length (idx :: out))).
    { rewrite Ho. unfold wadd. rewrite wrap_id; simpl length; [lia|]. unfold uint. lia. }
    destruct (lookup_lt_is_Some_2 (initialized p) (Z.to_nat idx)) as [b Hb]; [lia|].
    unfold index. rewrite Hb. cbn. destruct b; cbn.
    + destruct (Hlive idx Hidx Hb) as [v Hv].
      eexists _, idx, v. split; [done|]. split_and!; try done; [|lia|lia|..].
      * constructor; simpl; try done; [rewrite Hc'; done | by exists l |].
        intros i [->|Hin]%elem_of_cons; [done | by apply Hout].
      * unfold deref. simpl. rewrite Hv. done.
    + rewrite decide_True by lia. eexists _, idx, init. split; [done|]. split_and!; try done; [|lia|lia|..].
      * constructor; simpl; rewrite ?length_insert; try done; [rewrite Hc'; done | by exists l | |].
        -- intros i Hir Hti. destruct (decide (i = idx)) as [->|Hne].
           ++ rewrite list_lookup_insert_eq by lia. eauto.
           ++ rewrite list_lookup_insert_ne by lia. rewrite list_lookup_insert_ne in Hti by lia. by apply Hlive.
        -- intros i Hin. destruct (decide (i = idx)) as [->|Hne].
           ++ rewrite list_lookup_insert_eq by lia. done.
           ++ apply elem_of_cons in Hin as [->|Hin]; [done|].
              assert (0 <= i < n) by (apply (pool_perm_range _ _ _ _ Hperm), elem_of_app; by right).
              rewrite list_lookup_insert_ne by lia. by apply Hout.
      * unfold deref. simpl. rewrite list_lookup_insert_eq by lia. done.
      * intros j Hj. assert (0 <= j < n) by (apply (pool_perm_range _ _ _ _ Hperm), elem_of_app; by right).
        unfold deref. simpl. rewrite list_lookup_insert_ne; [done|].
        intros E. assert (j = idx) as -> by lia. done.
Qed.

Lemma pool_release_spec weak p n idx out : pool_rep p n (idx :: out) ->
  exists p', release weak p idx = Ret p' /\ pool_rep p' n out /\
    (forall j, deref p' j = deref p j).
Proof.
  intros [Hn Hcap Hs Hi Ho (l & Hr & Hperm) Hlive Hout]. unfold release.
  assert (Hlen : (length l + S (length out))%nat = Z.to_nat n).
  { change (S (length out)) with (length (idx :: out)).
    rewrite <- length_app, Hperm, length_seqZ. done. }
  destruct (Mpmc.mpmc_push_ok weak (free p) l idx Hr) as (q & -> & Hr' & Hc'); [lia|]. cbn.
  eexists. split; [done|]. split; [|done].
  constructor; simpl; try done; [rewrite Hc'; done | | |].
  - rewrite Ho. unfold wsub. rewrite wrap_id; simpl length; [lia|]. unfold uint. simpl. lia.
  - exists (l ++ [idx]). split; [done|]. rewrite <- Hperm. solve_Permutation.
  - intros i Hin. apply Hout. by right.
Qed.

Lemma pool_write_spec p n out idx v : pool_rep p n out -> idx ∈ out ->
  exists p', deref_mut p idx v = Ret p' /\ pool_rep p' n out /\ deref p' idx = Ret v /\
    (forall j, j ∈ out -> j <> idx -> deref p' j = deref p j).
Proof.
  intros [Hn Hcap Hs Hi Ho (l & Hr & Hperm) Hlive Hout] Hin.
  assert (0 <= idx < n) by (apply (pool_perm_range _ _ _ _ Hperm), elem_of_app; by right).
  destruct (Hlive idx) as [w Hw]; [done | by apply Hout|].
  unfold deref_mut, deref. rewrite Hw. eexists. split; [done|]. simpl. split_and!.
  - constructor; simpl; rewrite ?length_insert; try done; [by exists l|].
    intros i Hir Hti. destruct (decide (i = idx)) as [->|Hne].
    + rewrite list_lookup_insert_eq by lia. eauto.
    + rewrite list_lookup_insert_ne by lia. by apply Hlive.
  - rewrite list_lookup_insert_eq by lia. done.
  - intros j Hj Hne. assert (0 <= j < n) by (apply (pool_perm_range _ _ _ _ Hperm), elem_of_app; by right).
    rewrite list_lookup_insert_ne by lia. done.
Qed.

End Pool.
Arguments BufferPool : clear implicits.
End Pool.

(** ** The message bus *)

Module Bus.
Section Bus.
Context {Q A : Type} `{!BoundedFifo Q A}.

Record MessageBus := { subscribers : list Q; per_subscriber_capacity : Z }.

Definition new (cap : Z) : MessageBus :=
  {| subscribers := []; per_subscriber_capacity := cap |}.

(** The identifier is the subscriber's position. *)
Definition subscribe (b : MessageBus) : MessageBus * nat :=
  ({| subscribers := subscribers b ++ [fifo_with_capacity (per_subscriber_capacity b)];
      per_subscriber_capacity := per_subscriber_capacity b |},
   length (subscribers b)).

Definition subscriber_count (b : MessageBus) : Z := Z.of_nat (length (subscribers b)).

Fixpoint publish_all (rings : list Q) (value : A) : exec (list Q * Z) :=
  match rings with
  | [] => Ret ([], 0)
  | ring :: rings =>
      '(ring', r) ← fifo_push ring value;
      '(rings', delivered) ← publish_all rings value;
      Ret (ring' :: rings', if is_ok r then 1 + delivered else delivered)
  end.

Definition publish (b : MessageBus) (value : A) : exec (MessageBus * Z) :=
  '(rings, n) ← publish_all (subscribers b) value;
  Ret ({| subscribers := rings; per_subscriber_capacity := per_subscriber_capacity b |}, n).

Definition set_ring (b : MessageBus) (id : nat) (q : Q) : MessageBus :=
  {| subscribers := <[id := q]> (subscribers b);
     per_subscriber_capacity := per_subscriber_capacity b |}.

Definition try_deliver (b : MessageBus) (id : nat) (value : A) : exec (MessageBus * bool) :=
  ring ← index (subscribers b) id;
  '(ring', r) ← fifo_push ring value;
  Ret (set_ring b id ring', is_ok r).

(** the messages appended to [out]; their number is the returned count *)
Definition poll (fuel : nat) (b : MessageBus) (id : nat) : exec (MessageBus * list A) :=
  ring ← index (subscribers b) id;
  '(ring', vs) ← fifo_drain fuel ring;
  Ret (set_ring b id ring', vs).

Definition pending (b : MessageBus) (id : nat) : exec Z :=
  ring ← index (subscribers b) id;
  Ret (fifo_len ring).

(** ** Specification: one bounded queue per subscriber *)

Definition bus_rep (b : MessageBus) (c : Z) (qs : list (list A)) : Prop :=
  per_subscriber_capacity b = c /\
  Forall2 (fun q l => fifo_rep q l /\ fifo_capacity q = next_power_of_two (Z.max c 1))
          (subscribers b) qs.

Definition offer (cap : Z) (v : A) (l : list A) : list A :=
  if Z.of_nat (length l) <? cap then l ++ [v] else l.

Definition accepts (cap : Z) (l : list A) : bool := Z.of_nat (length l) <? cap.

Lemma ring_offer q l c v : fifo_rep q l -> fifo_capacity q = c ->
  exists q' r, fifo_push q v = Ret (q', r) /\ is_ok r = accepts c l /\
    fifo_rep q' (offer c v l) /\ fifo_capacity q' = c.
Proof.
  intros Hr Hc. unfold offer, accepts. destruct (Z.ltb_spec (Z.of_nat (length l)) c).
  - destruct (fifo_push_ok q l v Hr) as (q' & ? & ? & ?); [lia|].
    exists q', (Ok tt). split_and!; try done. congruence.
  - rewrite (fifo_push_full _ _ v Hr) by lia. exists q, (Err v). done.
Qed.

Lemma publish_all_spec c v rings qs :
  Forall2 (fun q l => fifo_rep q l /\ fifo_capacity q = c) rings qs ->
  exists rings', publish_all rings v = Ret (rings', Z.of_nat (length (List.filter (accepts c) qs))) /\
    Forall2 (fun q l => fifo_rep q l /\ fifo_capacity q = c) rings' (offer c v <$> qs).
Proof.
  induction 1 as [|q l rings qs [Hr Hc] _ (rings' & IH & IHf)]; [simpl; eauto|].
  destruct (ring_offer q l c v Hr Hc) as (q' & r & E & Er & Hr' & Hc').
  cbn [publish_all]. rewrite E. cbn. rewrite IH. cbn. rewrite Er.
  exists (q' :: rings'). split; [|constructor; done].
  do 2 f_equal. destruct (accepts c l); simpl; lia.
Qed.

Lemma bus_lookup b c qs id l : bus_rep b c qs -> qs !! id = Some l ->
  exists q, subscribers b !! id = Some q /\ fifo_rep q l /\
            fifo_capacity q = next_power_of_two (Z.max c 1).
Proof.
  intros [_ Hf] Hl. destruct (Forall2_lookup_r _ _ _ _ _ Hf Hl) as (q & ? & ? & ?). eauto.
Qed.

Lemma bus_set b c qs id q l : bus_rep b c qs -> fifo_rep q l ->
  fifo_capacity q = next_power_of_two (Z.max c 1) ->
  bus_rep (set_ring b id q) c (<[id := l]> qs).
Proof. intros [? Hf] ? ?. split; [done|]. simpl. by apply Forall2_insert. Qed.

End Bus.
Arguments MessageBus : clear implicits.
End Bus.

(** ** Theorems *)

(** C35: The pool, used by one call at a time, hands out each slot to one guard at a
    time: a pool of any size below [2^32], one slot included, starts with every slot
    free; [get_with] fails only when all [n] slots are out, otherwise it returns an
    in-range slot no live guard holds, initialised and readable, leaving other guards'
    contents alone; writing through a guard changes its slot only; dropping it returns
    the slot; and the in-use count is exact.  Spurious failures of the free-list's
    compare-exchange change nothing. *)
Theorem pool_exclusive {T} (weak : list bool) (weak_new : Z -> list bool) (p : Pool.BufferPool T) n out init :
  (forall size, size < 2 ^ 32 -> exists p0 : Pool.BufferPool T, Pool.new weak_new size = Ret p0 /\
     Pool.pool_rep p0 (Z.max size 1) [] /\ Pool.capacity p0 = Z.max size 1) /\
  (Pool.pool_rep p n out ->
  Pool.in_use p = Z.of_nat (length out) /\ NoDup out /\
  (Z.of_nat (length out) = n -> exists p', Pool.get_with weak p (Ret init) = Ret (p', None)) /\
  (Z.of_nat (length out) < n -> exists p' idx v,
     Pool.get_with weak p (Ret init) = Ret (p', Some idx) /\ Pool.pool_rep p' n (idx :: out) /\
     0 <= idx < n /\ (idx ∉ out) /\ Pool.deref p' idx = Ret v /\
     (forall j, j ∈ out -> Pool.deref p' j = Pool.deref p j) /\
     (forall w, exists p'', Pool.deref_mut p' idx w = Ret p'' /\ Pool.deref p'' idx = Ret w /\
        Pool.pool_rep p'' n (idx :: out) /\
        (forall j, j ∈ out -> Pool.deref p'' j = Pool.deref p j)) /\
     exists p3, Pool.release weak p' idx = Ret p3 /\ Pool.pool_rep p3 n out)).
Proof.
  split; [intros size Hs; by apply Pool.pool_new_spec|].
  intros Hp. pose proof (Pool.pool_get_spec weak p n out init Hp) as Hg.
  destruct Hp as [Hn Hcap Hs Hi Ho (l & Hr & Hperm) Hlive Hout].
  assert (Hnd : NoDup (l ++ out)) by (rewrite Hperm; apply NoDup_seqZ).
  apply NoDup_app in Hnd as (_ & _ & Hnd).
  split; [done|]. split; [done|]. split.
  - intros E. rewrite decide_True in Hg by done. destruct Hg as (p' & ? & _). eauto.
  - intros Hlt. rewrite decide_False in Hg by lia.
    destruct Hg as (p' & idx & v & Hg & Hp' & Hidx & Hnew & Hd & Hold).
    exists p', idx, v. split_and!; try done; [lia|lia| |].
    + intros w. destruct (Pool.pool_write_spec p' n (idx :: out) idx w Hp')
        as (p'' & ? & ? & ? & Hne); [left|].
      exists p''. split_and!; try done. intros j Hj.
      rewrite Hne; [by apply Hold | by right | intros ->; done].
    + destruct (Pool.pool_release_spec weak p' n idx out Hp') as (p3 & ? & ? & _). eauto.
Qed.

Lemma pool_exclusive_witness :
  exists p : Pool.BufferPool Z, Pool.new (fun _ => []) 1 = Ret p /\
    exists p' idx v, Pool.get_with [true] p (Ret 7) = Ret (p', Some idx) /\ Pool.deref p' idx = Ret v.
Proof.
  destruct (Pool.pool_new_spec (T := Z) (fun _ => []) 1) as (p & E & Hr & _); [lia |].
  exists p. split; [exact E|].
  destruct (proj2 (pool_exclusive [true] (fun _ => []) p (Z.max 1 1) [] 7) Hr) as (_ & _ & _ & H).
  destruct (H eq_refl) as (p' & idx & v & E1 & _ & _ & _ & E2 & _). eauto.
Defined.

(** Publishing offers the message to every subscriber independently - each
    full ring drops it, every other ring appends it - and returns the number
    that accepted; polling returns exactly a subscriber's pending messages in
    order and empties its ring only. *)
Theorem bus_fan_out {Q A} `{!BoundedFifo Q A} (b : Bus.MessageBus Q) c qs v :
  Bus.bus_rep b c qs ->
  let cap := next_power_of_two (Z.max c 1) in
  (exists b', Bus.publish b v =
      Ret (b', Z.of_nat (length (List.filter (Bus.accepts cap) qs))) /\
    Bus.bus_rep b' c (Bus.offer cap v <$> qs)) /\
  (forall id l fuel, qs !! id = Some l ->
    Bus.pending b id = Ret (Z.of_nat (length l)) /\
    ((length l < fuel)%nat -> exists b', Bus.poll fuel b id = Ret (b', l) /\
       Bus.bus_rep b' c (<[id := []]> qs)) /\
    (exists b', Bus.try_deliver b id v = Ret (b', Bus.accepts cap l) /\
       Bus.bus_rep b' c (<[id := Bus.offer cap v l]> qs))).
Proof.
  intros Hb cap. split.
  - destruct Hb as [Hc Hf]. destruct (Bus.publish_all_spec cap v _ _ Hf) as (rings & E & Hf').
    unfold Bus.publish. rewrite E. cbn. eexists. split; [done|]. split; done.
  - intros id l fuel Hl. destruct (Bus.bus_lookup _ _ _ _ _ Hb Hl) as (q & Eq & Hr & Hc).
    unfold Bus.pending, Bus.poll, Bus.try_deliver, index. rewrite Eq. cbn. split_and!.
    + by rewrite (fifo_len_rep _ _ Hr).
    + intros Hf. destruct (fifo_drain_spec l fuel q Hr Hf) as (q' & -> & Hr' & Hc'). cbn.
      eexists. split; [done|]. apply Bus.bus_set; [done | done | congruence].
    + destruct (Bus.ring_offer q l cap v Hr Hc) as (q' & r & -> & Er & Hr' & Hc'). cbn.
      rewrite Er. eexists. split; [done|]. by apply Bus.bus_set.
Qed.

(** a bus with two subscribers, one of which already holds its only message *)
Definition demo_bus : Bus.MessageBus (Spsc.SpscRing Z) := {|
  Bus.subscribers := [ {| Spsc.mem := {| Spsc.slots := [None]; Spsc.head := 0; Spsc.tail := 0 |};
                          Spsc.cap := 1 |};
                       {| Spsc.mem := {| Spsc.slots := [Some 5]; Spsc.head := 0; Spsc.tail := 1 |};
                          Spsc.cap := 1 |} ];
  Bus.per_subscriber_capacity := 1 |}.

Lemma demo_bus_rep : Bus.bus_rep demo_bus 1 [[]; [5]].
Proof.
  assert (P : pow2 1) by (exists 0; done).
  split; [done|]. repeat constructor; exists 0; constructor; simpl; try done; try lia;
    intros i v Hi; apply list_lookup_singleton_Some in Hi as [-> <-]; done.
Qed.

Lemma bus_fan_out_witness :
  exists b', Bus.publish demo_bus 9 = Ret (b', 1) /\
    Bus.bus_rep b' 1 [[9]; [5]].
Proof.
  destruct (bus_fan_out demo_bus 1 [[]; [5]] 9 demo_bus_rep) as [(b' & E & H) _].
  exists b'. split; [exact E | exact H].
Defined.
