(* ===== verification/Ser.v ===== *)
(** * Wire structs: [tpt-t-core/src/ser/mod.rs], [cmd.rs], [telemetry.rs]

    The [repr(C)] structs exchanged between subsystems.  A floating-point field
    is kept as its bit pattern on the wire; [ControlCommand] is generic in the
    representation of its axes so that the safety loop can compute with them. *)

From S2P Require Import Prelude Cast Mode.

(** ** [WireFrame] *)

Definition FRAME_MAGIC : Z := 0x54505431.
Definition PROTOCOL_VERSION : Z := 1.
Definition WIRE_ALIGN : Z := 64.

Module WireFrame.
Record WireFrame := { magic : Z; version : Z; payload_len : Z }.
Definition widths : list nat := [4; 2; 2]%nat.
#[global] Instance plain : PlainBytes WireFrame.
Proof.
  refine (pod widths 4 (fun v => [magic v; version v; payload_len v])
    (fun zs => {| magic := nth 0 zs 0; version := nth 1 zs 0; payload_len := nth 2 zs 0 |}) _ _);
    solve_pod.
Defined.
End WireFrame.

(** ** [ControlCommand] *)

Definition MAGIC_COMMAND : Z := 0x434D4401.
Definition FLAG_AI_ORIGIN : Z := 2.

Module Cmd.

Record ControlCommand (F : Type) := {
  magic : Z; version : Z; reserved : Z;
  seq : Z; timestamp_ns : Z;
  mode_raw : Z; flags : Z; axis_count : Z; pad0 : Z;
  axes : list F;
  crc : Z
}.
Arguments magic {F}. Arguments version {F}. Arguments reserved {F}.
Arguments seq {F}. Arguments timestamp_ns {F}. Arguments mode_raw {F}.
Arguments flags {F}. Arguments axis_count {F}. Arguments pad0 {F}.
Arguments axes {F}. Arguments crc {F}.

(** field updates *)
Definition with_seq {F} (c : ControlCommand F) (x : Z) : ControlCommand F :=
  {| magic := magic c; version := version c; reserved := reserved c; seq := x;
     timestamp_ns := timestamp_ns c; mode_raw := mode_raw c; flags := flags c;
     axis_count := axis_count c; pad0 := pad0 c; axes := axes c; crc := crc c |}.
Definition with_timestamp {F} (c : ControlCommand F) (x : Z) : ControlCommand F :=
  {| magic := magic c; version := version c; reserved := reserved c; seq := seq c;
     timestamp_ns := x; mode_raw := mode_raw c; flags := flags c;
     axis_count := axis_count c; pad0 := pad0 c; axes := axes c; crc := crc c |}.
Definition with_mode {F} (c : ControlCommand F) (x : Z) : ControlCommand F :=
  {| magic := magic c; version := version c; reserved := reserved c; seq := seq c;
     timestamp_ns := timestamp_ns c; mode_raw := x; flags := flags c;
     axis_count := axis_count c; pad0 := pad0 c; axes := axes c; crc := crc c |}.
Definition with_flags {F} (c : ControlCommand F) (x : Z) : ControlCommand F :=
  {| magic := magic c; version := version c; reserved := reserved c; seq := seq c;
     timestamp_ns := timestamp_ns c; mode_raw := mode_raw c; flags := x;
     axis_count := axis_count c; pad0 := pad0 c; axes := axes c; crc := crc c |}.
Definition with_axes {F} (c : ControlCommand F) (x : list F) : ControlCommand F :=
  {| magic := magic c; version := version c; reserved := reserved c; seq := seq c;
     timestamp_ns := timestamp_ns c; mode_raw := mode_raw c; flags := flags c;
     axis_count := axis_count c; pad0 := pad0 c; axes := x; crc := crc c |}.
Definition with_crc {F} (c : ControlCommand F) (x : Z) : ControlCommand F :=
  {| magic := magic c; version := version c; reserved := reserved c; seq := seq c;
     timestamp_ns := timestamp_ns c; mode_raw := mode_raw c; flags := flags c;
     axis_count := axis_count c; pad0 := pad0 c; axes := axes c; crc := x |}.

(** [zero] is the representation of [0.0]. *)
Definition zeroed {F} (zero : F) (mode : Mode) : ControlCommand F :=
  {| magic := MAGIC_COMMAND; version := 1; reserved := 0; seq := 0; timestamp_ns := 0;
     mode_raw := Mode.as_u8 mode; flags := 0; axis_count := 6; pad0 := 0;
     axes := replicate 6 zero; crc := 0 |}.

Definition mode {F} (c : ControlCommand F) : option Mode := Mode.from_u8 (mode_raw c).
Definition set_mode {F} (c : ControlCommand F) (m : Mode) : ControlCommand F :=
  with_mode c (Mode.as_u8 m).
Definition is_ai_origin {F} (c : ControlCommand F) : bool :=
  negb (Z.land (flags c) FLAG_AI_ORIGIN =? 0).
Definition set_ai_origin {F} (c : ControlCommand F) : ControlCommand F :=
  with_flags c (Z.lor (flags c) FLAG_AI_ORIGIN).
Definition clear_ai_origin {F} (c : ControlCommand F) : ControlCommand F :=
  with_flags c (Z.ldiff (flags c) FLAG_AI_ORIGIN).

Ltac destruct_list_6 l :=
  do 6 (destruct l as [|? l]; [discriminate|]); destruct l; [|discriminate].

(** the wire view: axes are [f32] bit patterns *)
Definition widths : list nat := [4; 2; 2; 8; 8; 1; 1; 1; 1; 4; 4; 4; 4; 4; 4; 4]%nat.

Definition fields (c : ControlCommand Z) : list Z :=
  [magic c; version c; reserved c; seq c; timestamp_ns c; mode_raw c; flags c;
   axis_count c; pad0 c] ++ axes c ++ [crc c].

Definition of_fields (zs : list Z) : ControlCommand Z :=
  {| magic := nth 0 zs 0; version := nth 1 zs 0; reserved := nth 2 zs 0; seq := nth 3 zs 0;
     timestamp_ns := nth 4 zs 0; mode_raw := nth 5 zs 0; flags := nth 6 zs 0;
     axis_count := nth 7 zs 0; pad0 := nth 8 zs 0; axes := take 6 (drop 9 zs);
     crc := nth 15 zs 0 |}.

#[global] Instance plain : PlainBytes (ControlCommand Z).
Proof.
  refine (pod widths 8 fields of_fields _ _); [solve_pod|].
  intros v Hl. unfold fields in Hl. rewrite !length_app in Hl. simpl in Hl.
  assert (H6 : length (axes v) = 6%nat) by lia. destruct v. simpl in H6.
  destruct_list_6 axes0; reflexivity.
Defined.

End Cmd.

(** ** Telemetry *)

Definition MAGIC_TELEMETRY : Z := 0x544C4D00.

Inductive TelemetryKind := Generic | Battery | Pose | Temperature.

Module Telemetry.

Definition as_u16 (k : TelemetryKind) : Z :=
  match k with Generic => 0 | Battery => 1 | Pose => 2 | Temperature => 3 end.

Definition from_u16 (v : Z) : option TelemetryKind :=
  if v =? 0 then Some Generic
  else if v =? 1 then Some Battery
  else if v =? 2 then Some Pose
  else if v =? 3 then Some Temperature
  else None.

Record ImuSample := {
  imu_magic : Z; imu_version : Z; imu_reserved : Z; imu_seq : Z; imu_timestamp_ns : Z;
  gyro_rps : list Z; accel_g : list Z
}.

Definition IMU_MAGIC : Z := Z.lor MAGIC_TELEMETRY 1.

Definition imu_zeroed (seq timestamp_ns : Z) : ImuSample :=
  {| imu_magic := IMU_MAGIC; imu_version := 1; imu_reserved := 0; imu_seq := seq;
     imu_timestamp_ns := timestamp_ns; gyro_rps := replicate 3 0; accel_g := replicate 3 0 |}.

(** the two vectors have three elements each; the dense field list *)
Definition imu_widths : list nat := [4; 2; 2; 8; 8; 4; 4; 4; 4; 4; 4]%nat.
Definition imu_fields (v : ImuSample) : list Z :=
  [imu_magic v; imu_version v; imu_reserved v; imu_seq v; imu_timestamp_ns v]
    ++ gyro_rps v ++ accel_g v.

Definition imu_of_fields (zs : list Z) : ImuSample :=
  {| imu_magic := nth 0 zs 0; imu_version := nth 1 zs 0; imu_reserved := nth 2 zs 0;
     imu_seq := nth 3 zs 0; imu_timestamp_ns := nth 4 zs 0;
     gyro_rps := take 3 (drop 5 zs); accel_g := drop 8 zs |}.

#[global] Program Instance imu_plain : PlainBytes ImuSample := {|
  size_of := list_sum imu_widths;
  align_of := 8;
  pb_wf v := fields_wf imu_widths (imu_fields v) /\ length (gyro_rps v) = 3%nat;
  bytes_of v := enc_fields imu_widths (imu_fields v);
  of_raw bs := imu_of_fields (dec_fields imu_widths bs)
|}.
Next Obligation. intros v [Hv _]. apply length_enc_fields. by apply Forall2_length in Hv. Qed.
Next Obligation. intros v _. apply enc_fields_bytes. Qed.
Next Obligation.
  intros v [Hv Hg]. cbv beta. rewrite dec_enc_fields by done. destruct v as [? ? ? ? ? g a].
  simpl in Hg. by do 4 (destruct g as [|? g]; try discriminate).
Qed.
Next Obligation.
  intros bs Hb Hl. transitivity (enc_fields imu_widths (dec_fields imu_widths bs));
    [|by apply enc_dec_fields]. apply (f_equal (enc_fields imu_widths)).
  pose proof (length_dec_fields imu_widths bs) as Hd.
  destruct (dec_fields imu_widths bs) as [|? zs]; [discriminate|].
  do 7 (destruct zs as [|? zs]; [discriminate|]). reflexivity.
Qed.
Next Obligation.
  intros bs Hb Hl. pose proof (dec_fields_wf imu_widths bs Hb Hl) as Hw.
  pose proof (length_dec_fields imu_widths bs) as Hd. cbv beta.
  destruct (dec_fields imu_widths bs) as [|? zs]; [discriminate|].
  do 7 (destruct zs as [|? zs]; [discriminate|]). split; [exact Hw | reflexivity].
Qed.

Record GpsSample := {
  gps_magic : Z; gps_version : Z; gps_reserved : Z; gps_seq : Z; gps_timestamp_ns : Z;
  lat_deg : Z; lon_deg : Z; alt_m : Z; speed_mps : Z; course_deg : Z; sats : Z; fix_ok : Z
}.

Definition GPS_MAGIC : Z := Z.lor MAGIC_TELEMETRY 2.

Definition gps_zeroed (seq timestamp_ns : Z) : GpsSample :=
  {| gps_magic := GPS_MAGIC; gps_version := 1; gps_reserved := 0; gps_seq := seq;
     gps_timestamp_ns := timestamp_ns; lat_deg := 0; lon_deg := 0; alt_m := 0;
     speed_mps := 0; course_deg := 0; sats := 0; fix_ok := 0 |}.

Definition gps_widths : list nat := [4; 2; 2; 8; 8; 8; 8; 8; 4; 4; 4; 4]%nat.

#[global] Instance gps_plain : PlainBytes GpsSample.
Proof.
  refine (pod gps_widths 8
    (fun v => [gps_magic v; gps_version v; gps_reserved v; gps_seq v; gps_timestamp_ns v;
               lat_deg v; lon_deg v; alt_m v; speed_mps v; course_deg v; sats v; fix_ok v])
    (fun zs => {| gps_magic := nth 0 zs 0; gps_version := nth 1 zs 0;
       gps_reserved := nth 2 zs 0; gps_seq := nth 3 zs 0; gps_timestamp_ns := nth 4 zs 0;
       lat_deg := nth 5 zs 0; lon_deg := nth 6 zs 0; alt_m := nth 7 zs 0;
       speed_mps := nth 8 zs 0; course_deg := nth 9 zs 0; sats := nth 10 zs 0;
       fix_ok := nth 11 zs 0 |}) _ _); solve_pod.
Defined.

Record TelemetryPacket := {
  tp_magic : Z; tp_kind : Z; tp_reserved : Z; tp_seq : Z; tp_timestamp_ns : Z;
  values : list Z
}.

Definition TP_MAGIC : Z := MAGIC_TELEMETRY.

Definition tp_zeroed (kind : TelemetryKind) (seq timestamp_ns : Z) : TelemetryPacket :=
  {| tp_magic := TP_MAGIC; tp_kind := as_u16 kind; tp_reserved := 0; tp_seq := seq;
     tp_timestamp_ns := timestamp_ns; values := replicate 8 0 |}.

Definition tp_widths : list nat := [4; 2; 2; 8; 8; 4; 4; 4; 4; 4; 4; 4; 4]%nat.

#[global] Instance tp_plain : PlainBytes TelemetryPacket.
Proof.
  refine (pod tp_widths 8
    (fun v => [tp_magic v; tp_kind v; tp_reserved v; tp_seq v; tp_timestamp_ns v] ++ values v)
    (fun zs => {| tp_magic := nth 0 zs 0; tp_kind := nth 1 zs 0; tp_reserved := nth 2 zs 0;
       tp_seq := nth 3 zs 0; tp_timestamp_ns := nth 4 zs 0; values := drop 5 zs |}) _ _);
    solve_pod.
Defined.

Lemma from_as_u16 k : from_u16 (as_u16 k) = Some k.
Proof. destruct k; reflexivity. Qed.

End Telemetry.

(** ** Theorems *)

Definition u8_flags_dec (P : Z -> bool) : bool := forallb P (seqZ 0 256).

Lemma u8_exhaust (P : Z -> bool) z : u8_flags_dec P = true -> byte z -> P z = true.
Proof.
  intros H Hz. unfold u8_flags_dec in H. rewrite forallb_forall in H. apply H.
  apply list_elem_of_In, elem_of_seqZ. unfold byte, uint in Hz. lia.
Qed.

(** The structs have the dense sizes the wire format relies on (8, 56, 64
    and 56 bytes, the field sums of [WireFrame], [ControlCommand], [GpsSample]
    and [TelemetryPacket]); a [ControlCommand] survives its raw image exactly;
    and on any flags byte the AI-origin tag is set, cleared and read back
    without touching the other seven bits. *)
Theorem wire_structs_dense (c : Cmd.ControlCommand Z) :
  pb_wf c ->
  size_of (T := WireFrame.WireFrame) = 8%nat /\
  size_of (T := Cmd.ControlCommand Z) = 56%nat /\
  size_of (T := Telemetry.GpsSample) = 64%nat /\
  size_of (T := Telemetry.TelemetryPacket) = 56%nat /\
  length (bytes_of c) = 56%nat /\ of_raw (bytes_of c) = c /\
  Cmd.is_ai_origin (Cmd.set_ai_origin c) = true /\
  Cmd.is_ai_origin (Cmd.clear_ai_origin c) = false /\
  Z.ldiff (Cmd.flags (Cmd.set_ai_origin c)) FLAG_AI_ORIGIN = Z.ldiff (Cmd.flags c) FLAG_AI_ORIGIN /\
  Cmd.flags (Cmd.clear_ai_origin c) = Z.ldiff (Cmd.flags c) FLAG_AI_ORIGIN /\
  byte (Cmd.flags (Cmd.set_ai_origin c)) /\ byte (Cmd.flags (Cmd.clear_ai_origin c)).
Proof.
  intros Hw. assert (Hf : byte (Cmd.flags c)).
  { destruct c. repeat (apply Forall2_cons in Hw as [? Hw]; simpl in * ). done. }
  split; [done|]. split; [done|]. split; [done|]. split; [done|].
  split; [exact (length_bytes_of c Hw)|]. split; [exact (of_raw_bytes_of c Hw)|].
  unfold Cmd.is_ai_origin, Cmd.set_ai_origin, Cmd.clear_ai_origin, Cmd.with_flags, FLAG_AI_ORIGIN.
  cbn [Cmd.flags]. set (f := Cmd.flags c) in *.
  pose proof (u8_exhaust (fun f => negb (Z.land (Z.lor f 2) 2 =? 0)
    && (Z.land (Z.ldiff f 2) 2 =? 0) && (Z.ldiff (Z.lor f 2) 2 =? Z.ldiff f 2)
    && uintb 8 (Z.lor f 2) && uintb 8 (Z.ldiff f 2)) f eq_refl Hf) as H.
  simpl in H. repeat (apply andb_true_iff in H as [H ?]).
  split; [done|]. split; [by apply negb_false_iff|]. split; [by apply Z.eqb_eq|].
  split; [done|]. split; by apply uintb_spec.
Qed.

Lemma wire_structs_dense_witness :
  of_raw (bytes_of (Cmd.set_ai_origin (Cmd.zeroed 0 Assist))) =
    Cmd.set_ai_origin (Cmd.zeroed 0 Assist).
Proof.
  apply (wire_structs_dense (Cmd.set_ai_origin (Cmd.zeroed 0 Assist))).
  repeat constructor; vm_compute; first [discriminate | reflexivity].
Defined.
