(* ===== verification/Lfsr.v ===== *)
(** * Reflected shift registers

    What the two checksums of the code share, the link's CRC-32 and MAVLink's
    CRC-16: one register of [w] bits shifted right, a polynomial with its top bit
    set, one byte at a time.  The register is invertible, so no change confined to
    one byte of a message goes unseen. *)

From S2P Require Import Prelude.

Lemma testbit_low z : negb (Z.land z 1 =? 0) = Z.testbit z 0.
Proof.
  replace 1 with (Z.ones 1) by done. rewrite Z.land_ones by lia.
  rewrite Z.bit0_odd. change (2 ^ 1) with 2. rewrite Zmod_odd. by destruct (Z.odd z).
Qed.

Lemma lxor_cancel_l a b c : Z.lxor a b = Z.lxor a c -> b = c.
Proof.
  intros E. apply (f_equal (Z.lxor a)) in E.
  rewrite <- !Z.lxor_assoc, Z.lxor_nilpotent, !Z.lxor_0_l in E. done.
Qed.

Section Lfsr.
Variables w poly : Z.
Hypothesis w_byte : 8 <= w.
Hypothesis poly_uint : uint w poly.
Hypothesis poly_top : Z.testbit poly (w - 1) = true.

Definition lfsr_step (c : Z) : Z :=
  if negb (Z.land c 1 =? 0) then Z.lxor poly (Z.shiftr c 1) else Z.shiftr c 1.
Definition lfsr_steps (n : nat) (c : Z) : Z := Nat.iter n lfsr_step c.
Definition lfsr_byte (c b : Z) : Z := lfsr_steps 8 (Z.lxor c b).

Lemma uint_log2 z : uint w z <-> 0 <= z /\ Z.log2 z < w.
Proof.
  unfold uint. split; intros [H0 H]; (split; [done|]).
  - destruct (Z.eq_dec z 0) as [->|]; [simpl; lia|]. apply Z.log2_lt_pow2; lia.
  - destruct (Z.eq_dec z 0) as [->|]; [apply Z.pow_pos_nonneg; lia|]. apply Z.log2_lt_pow2; lia.
Qed.

Lemma uint_lxor a b : uint w a -> uint w b -> uint w (Z.lxor a b).
Proof.
  rewrite !uint_log2. intros [Ha La] [Hb Lb]. split; [apply Z.lxor_nonneg; split; lia|].
  pose proof (Z.log2_lxor a b Ha Hb). lia.
Qed.

Lemma uint_shiftr c n : 0 <= n -> uint w c -> uint w (Z.shiftr c n).
Proof.
  intros Hn. rewrite !uint_log2. intros [Hc Lc]. split; [by apply Z.shiftr_nonneg|].
  destruct (Z.eq_dec c 0) as [->|]; [rewrite Z.shiftr_0_l; simpl; lia|].
  rewrite Z.log2_shiftr by lia. lia.
Qed.

Lemma byte_uint b : byte b -> uint w b.
Proof.
  unfold byte, uint. intros Hb. assert (2 ^ 8 <= 2 ^ w) by (apply Z.pow_le_mono_r; lia). lia.
Qed.

Lemma lfsr_step_uint c : uint w c -> uint w (lfsr_step c).
Proof.
  intros Hc. unfold lfsr_step. case_if; [apply uint_lxor; [done|]|]; by apply uint_shiftr.
Qed.

(** The top bit of the result says whether the polynomial was added. *)
Lemma lfsr_step_inj a b : uint w a -> uint w b -> lfsr_step a = lfsr_step b -> a = b.
Proof.
  intros Ha Hb. unfold lfsr_step. rewrite !testbit_low.
  assert (Hh : forall z, uint w z -> Z.testbit (Z.shiftr z 1) (w - 1) = false).
  { intros z Hz. rewrite Z.shiftr_spec by lia. apply Z.testbit_false; [lia|].
    replace (w - 1 + 1) with w by lia. by rewrite Z.div_small. }
  assert (Hsplit : forall z, z = 2 * Z.shiftr z 1 + Z.b2z (Z.testbit z 0)).
  { intros z. rewrite Z.bit0_mod, Z.shiftr_div_pow2 by lia. apply Z.div_mod. lia. }
  destruct (Z.testbit a 0) eqn:Ea, (Z.testbit b 0) eqn:Eb; intros E.
  - apply lxor_cancel_l in E. by rewrite (Hsplit a), (Hsplit b), Ea, Eb, E.
  - apply (f_equal (fun z => Z.testbit z (w - 1))) in E. by rewrite Z.lxor_spec, !Hh, poly_top in E.
  - apply (f_equal (fun z => Z.testbit z (w - 1))) in E. by rewrite Z.lxor_spec, !Hh, poly_top in E.
  - by rewrite (Hsplit a), (Hsplit b), Ea, Eb, E.
Qed.

Lemma lfsr_steps_uint n c : uint w c -> uint w (lfsr_steps n c).
Proof. intros. unfold lfsr_steps. induction n; simpl; [done|]. by apply lfsr_step_uint. Qed.

Lemma lfsr_steps_inj n a b : uint w a -> uint w b -> lfsr_steps n a = lfsr_steps n b -> a = b.
Proof.
  unfold lfsr_steps. revert a b. induction n as [|n IH]; intros a b Ha Hb; simpl; [done|].
  intros E. apply lfsr_step_inj in E; [by apply IH| |]; by apply (lfsr_steps_uint n).
Qed.

Lemma lfsr_byte_uint c b : uint w c -> byte b -> uint w (lfsr_byte c b).
Proof. intros Hc Hb. apply lfsr_steps_uint, uint_lxor; [done | by apply byte_uint]. Qed.

Lemma lfsr_byte_inj_state c d b : uint w c -> uint w d -> byte b ->
  lfsr_byte c b = lfsr_byte d b -> c = d.
Proof.
  intros Hc Hd Hb E. apply lfsr_steps_inj in E; [|by apply uint_lxor, byte_uint..].
  rewrite !(Z.lxor_comm _ b) in E. by apply lxor_cancel_l in E.
Qed.

Lemma lfsr_byte_inj c a b : uint w c -> byte a -> byte b -> lfsr_byte c a = lfsr_byte c b -> a = b.
Proof.
  intros Hc Ha Hb E. apply lfsr_steps_inj in E; [|by apply uint_lxor, byte_uint..].
  by apply lxor_cancel_l in E.
Qed.

Lemma lfsr_fold_uint l : forall c, uint w c -> bytes l -> uint w (foldl lfsr_byte c l).
Proof.
  induction l as [|b l IH]; intros c Hc Hl; simpl; [done|].
  apply Forall_cons in Hl as [Hb Hl]. apply IH; [by apply lfsr_byte_uint | done].
Qed.

Lemma lfsr_fold_inj l : forall c d, uint w c -> uint w d -> bytes l ->
  foldl lfsr_byte c l = foldl lfsr_byte d l -> c = d.
Proof.
  induction l as [|b l IH]; intros c d Hc Hd Hl E; simpl in E; [done|].
  apply Forall_cons in Hl as [Hb Hl].
  apply IH in E; [|by apply lfsr_byte_uint..|done]. by apply lfsr_byte_inj_state in E.
Qed.

(** one byte of a message changed: the register ends elsewhere *)
Lemma lfsr_byte_error init pre a b post : uint w init ->
  bytes pre -> bytes post -> byte a -> byte b -> a <> b ->
  foldl lfsr_byte init (pre ++ a :: post) <> foldl lfsr_byte init (pre ++ b :: post).
Proof.
  intros Hi Hpre Hpost Ha Hb Hne E. apply Hne. rewrite !foldl_app in E. simpl in E.
  pose proof (lfsr_fold_uint pre init Hi Hpre) as Hc.
  apply lfsr_fold_inj in E; [|by apply lfsr_byte_uint..|done]. by apply lfsr_byte_inj in E.
Qed.

End Lfsr.
