(* ===== verification/Crc.v ===== *)
(** * Frame integrity: [tpt-t-link/src/crc.rs]

    The table-driven CRC-32, its bit-at-a-time specification, and the error
    detection the link relies on. *)

From S2P Require Import Prelude Lfsr Cast Mode Ser.

(** one iteration of the inner [while k < 8] loop *)
Definition crc_step (c : Z) : Z :=
  if negb (Z.land c 1 =? 0) then Z.lxor 0xEDB88320 (Z.shiftr c 1) else Z.shiftr c 1.

Definition crc_steps (n : nat) (c : Z) : Z := Nat.iter n crc_step c.

(** [build_table] *)
Definition TABLE : list Z := (fun i => crc_steps 8 i) <$> seqZ 0 256.

Definition crc_update (c b : Z) : Z :=
  Z.lxor (nth (Z.to_nat (Z.land (Z.lxor c b) 0xFF)) TABLE 0) (Z.shiftr c 8).

Definition u32_max : Z := 0xFFFFFFFF.

Definition crc32 (data : list Z) : Z := Z.lxor (foldl crc_update u32_max data) u32_max.

Definition command_crc (cmd : Cmd.ControlCommand Z) : Z :=
  crc32 (bytes_of (Cmd.with_crc cmd 0)).

(** The specification: shift the message in bit by bit. *)
Definition crc32_bitwise (data : list Z) : Z :=
  Z.lxor (foldl (fun c b => crc_steps 8 (Z.lxor c b)) u32_max data) u32_max.

(** ** The table is the eight-step function *)

Lemma crc_step_lxor a b : crc_step (Z.lxor a b) = Z.lxor (crc_step a) (crc_step b).
Proof.
  unfold crc_step. rewrite !testbit_low, Z.lxor_spec, Z.shiftr_lxor.
  set (p := 0xEDB88320).
  destruct (Z.testbit a 0), (Z.testbit b 0); simpl;
    apply Z.bits_inj'; intros n Hn; rewrite ?Z.lxor_spec; repeat destruct (Z.testbit _ n); done.
Qed.

Lemma crc_steps_lxor n a b : crc_steps n (Z.lxor a b) = Z.lxor (crc_steps n a) (crc_steps n b).
Proof.
  unfold crc_steps. induction n as [|n IH]; simpl; [done|]. by rewrite IH, crc_step_lxor.
Qed.

(** a value whose low [n] bits are zero is only shifted *)
Lemma crc_steps_shift n z : crc_steps n (Z.shiftl z (Z.of_nat n)) = z.
Proof.
  revert z. induction n as [|n IH]; intros; [apply Z.shiftl_0_r|].
  unfold crc_steps in *. rewrite Nat.iter_succ_r.
  assert (E : crc_step (Z.shiftl z (Z.of_nat (S n))) = Z.shiftl z (Z.of_nat n)); [|by rewrite E].
  unfold crc_step. rewrite testbit_low, Z.shiftl_spec_low by lia. simpl.
  rewrite Z.shiftr_shiftl_l by lia. f_equal. lia.
Qed.

Lemma split_low8 z : z = Z.lxor (Z.shiftl (Z.shiftr z 8) 8) (Z.land z 0xFF).
Proof.
  apply Z.bits_inj'. intros n Hn. rewrite Z.lxor_spec.
  change 0xFF with (Z.ones 8). rewrite Z.land_spec, Z.testbit_ones by lia.
  destruct (Z.ltb_spec n 8).
  - rewrite Z.shiftl_spec_low by lia. rewrite (proj2 (Z.leb_le 0 n)) by lia.
    rewrite andb_true_r. by destruct (Z.testbit z n).
  - rewrite Z.shiftl_spec, Z.shiftr_spec by lia. rewrite andb_false_r, andb_false_r, xorb_false_r.
    f_equal. lia.
Qed.

Lemma TABLE_lookup i : 0 <= i < 256 -> nth (Z.to_nat i) TABLE 0 = crc_steps 8 i.
Proof.
  intros Hi. unfold TABLE. rewrite nth_lookup, list_lookup_fmap, lookup_seqZ_lt by lia.
  rewrite Z2Nat.id by lia. reflexivity.
Qed.

Lemma land_ff z : 0 <= Z.land z 0xFF < 256.
Proof. change 0xFF with (Z.ones 8). rewrite Z.land_ones by lia. apply Z.mod_pos_bound. lia. Qed.

Lemma shiftr8_byte b : byte b -> Z.shiftr b 8 = 0.
Proof. intros Hb. rewrite Z.shiftr_div_pow2 by lia. apply Z.div_small. exact Hb. Qed.

Lemma crc_update_steps c b : byte b -> crc_update c b = crc_steps 8 (Z.lxor c b).
Proof.
  intros Hb. unfold crc_update. rewrite TABLE_lookup by apply land_ff.
  rewrite (split_low8 (Z.lxor c b)) at 2. rewrite crc_steps_lxor.
  rewrite (crc_steps_shift 8), Z.shiftr_lxor, (shiftr8_byte b Hb), Z.lxor_0_r.
  apply Z.lxor_comm.
Qed.

Lemma foldl_ext {A B} (f g : A -> B -> A) (P : B -> Prop) l : forall a, Forall P l ->
  (forall a b, P b -> f a b = g a b) -> foldl f a l = foldl g a l.
Proof.
  intros a H Hfg. revert a. induction H as [|b l Hb _ IH]; intros a; simpl; [done|].
  by rewrite Hfg.
Qed.

(** ** The update is a shift register's *)

Abbreviation POLY := 0xEDB88320.

Lemma poly_uint : uint 32 POLY.
Proof. vm_compute. split; congruence. Qed.

Lemma crc_steps_lfsr n c : crc_steps n c = lfsr_steps POLY n c.
Proof. reflexivity. Qed.

Lemma crc_fold_lfsr data : bytes data -> foldl crc_update u32_max data = foldl (lfsr_byte POLY) u32_max data.
Proof.
  intros Hd. apply foldl_ext with (P := byte); [done|]. intros c b Hb. by apply crc_update_steps.
Qed.

Lemma u32_max_uint : uint 32 u32_max.
Proof. split; vm_compute; congruence. Qed.

Lemma crc32_uint data : bytes data -> uint 32 (crc32 data).
Proof.
  intros Hd. unfold crc32. rewrite crc_fold_lfsr by done.
  apply uint_lxor; [lia | | apply u32_max_uint].
  apply lfsr_fold_uint; [lia | apply poly_uint | apply u32_max_uint | done].
Qed.

(** a one-byte error, as an inequality usable by the link layers *)
Lemma crc32_byte_error pre a b post :
  bytes pre -> bytes post -> byte a -> byte b -> a <> b ->
  crc32 (pre ++ a :: post) <> crc32 (pre ++ b :: post).
Proof.
  intros Hpre Hpost Ha Hb Hne. unfold crc32.
  rewrite !crc_fold_lfsr by (apply Forall_app; split; [done | by constructor]).
  rewrite !(Z.lxor_comm _ u32_max). intros E. apply lxor_cancel_l in E. revert E.
  by apply lfsr_byte_error with (w := 32).
Qed.

Lemma crc32_insert_ne l i a b : bytes l -> l !! i = Some a -> byte b -> a <> b ->
  crc32 (<[i := b]> l) <> crc32 l.
Proof.
  intros Hl Ha Hb Hne. pose proof (lookup_lt_Some _ _ _ Ha).
  rewrite insert_take_drop by done. rewrite <- (take_drop_middle l i a Ha) at 3.
  apply not_eq_sym, crc32_byte_error; try done; [by apply Forall_take | by apply Forall_drop|].
  by apply (Forall_lookup_1 _ _ _ _ Hl Ha).
Qed.

(** ** Theorems *)

(** The table-driven CRC computes the bit-at-a-time CRC-32 (reflected
    polynomial [0xEDB88320], initial and final complement) of any byte string,
    as a 32-bit value. *)
Theorem crc32_table_correct (data : list Z) :
  bytes data -> crc32 data = crc32_bitwise data /\ uint 32 (crc32 data).
Proof.
  intros Hd. split.
  - unfold crc32, crc32_bitwise. f_equal.
    apply foldl_ext with (P := byte); [done|]. intros. by apply crc_update_steps.
  - by apply crc32_uint.
Qed.

Lemma crc32_table_correct_witness :
  crc32_bitwise [0x31; 0x32; 0x33; 0x34; 0x35; 0x36; 0x37; 0x38; 0x39] = 0xCBF43926.
Proof.
  rewrite <- (proj1 (crc32_table_correct
    [0x31; 0x32; 0x33; 0x34; 0x35; 0x36; 0x37; 0x38; 0x39]
    ltac:(repeat constructor; vm_compute; first [discriminate | reflexivity]))).
  vm_compute. reflexivity.
Defined.

(** Any corruption confined to one byte of a frame, at any position, changes
    its CRC. *)
Theorem crc32_detects_byte_error pre a b post :
  bytes pre -> bytes post -> byte a -> byte b -> a <> b ->
  crc32 (pre ++ a :: post) <> crc32 (pre ++ b :: post).
Proof. apply crc32_byte_error. Qed.

Lemma crc32_detects_byte_error_witness :
  crc32 ([1; 2] ++ 3 :: [4]) <> crc32 ([1; 2] ++ 7 :: [4]).
Proof.
  apply crc32_detects_byte_error; try (repeat constructor; vm_compute; first [discriminate | reflexivity]).
Defined.

(** The command tag ignores the [crc] field it is stored in, so stamping is
    verifiable at the receiver, and it changes when any one byte of the rest of
    the command's image does. *)
Theorem command_crc_stamp (c d : Cmd.ControlCommand Z) pre a b post :
  command_crc (Cmd.with_crc c (command_crc c)) = Cmd.crc (Cmd.with_crc c (command_crc c)) /\
  (bytes_of (Cmd.with_crc c 0) = pre ++ a :: post ->
   bytes_of (Cmd.with_crc d 0) = pre ++ b :: post -> a <> b ->
   command_crc c <> command_crc d).
Proof.
  split; [reflexivity|]. intros Ec Ed Hne. unfold command_crc. rewrite Ec, Ed.
  assert (Hc : bytes (bytes_of (Cmd.with_crc c 0))) by apply enc_fields_bytes.
  assert (Hd : bytes (bytes_of (Cmd.with_crc d 0))) by apply enc_fields_bytes.
  rewrite Ec in Hc. rewrite Ed in Hd. apply Forall_app in Hc as [? Hc], Hd as [_ Hd].
  apply Forall_cons in Hc as [? ?], Hd as [? _]. by apply crc32_byte_error.
Qed.

Lemma command_crc_stamp_witness :
  command_crc (Cmd.zeroed 0 Auto) <> command_crc (Cmd.zeroed 0 Assist).
Proof.
  pose (c := Cmd.zeroed 0 Auto). pose (d := Cmd.zeroed 0 Assist).
  apply (command_crc_stamp c d (take 24 (bytes_of c)) 0 1 (drop 25 (bytes_of c)));
    [vm_compute; reflexivity..|discriminate].
Defined.
