(* ===== verification/Reliable.v ===== *)
(** * Reliable control channel: [tpt-t-link/src/reliable.rs]

    Selective-repeat sender and receiver.  [Tx] and [Rx] follow the two structs
    operation by operation; [sys_step] composes them with a network that may lose,
    duplicate, reorder and delay both frames and acknowledgements. *)

From stdpp Require Import gmap.
From S2P Require Import Prelude Cast.

Definition MAX_RELIABLE_PAYLOAD : nat := 256.
Definition SACK_BITS : Z := 32.
Definition SACK_MAX : Z := SACK_BITS - 1.
Definition U32_HALF : Z := umax 32 / 2.

Module Ack.
Record AckFrame := { base_seq : Z; bitmap : Z; rtt_sample_ns : Z }.

#[global] Instance plain : PlainBytes AckFrame.
Proof.
  refine (pod [4; 4; 8]%nat 8 (fun v => [base_seq v; bitmap v; rtt_sample_ns v])
    (fun zs => {| base_seq := nth 0 zs 0; bitmap := nth 1 zs 0; rtt_sample_ns := nth 2 zs 0 |})
    _ _); solve_pod.
Defined.

Definition encode_into (a : AckFrame) (out : list Z) : exec (list Z * nat) :=
  out ← copy_from_slice out 0 (bytes_of a);
  Ret (out, length (bytes_of a)).

Definition decode (s : slice) : option AckFrame :=
  match ref_from_bytes (T := AckFrame) s with Ok a => Some a | Err _ => None end.

Definition covers (a : AckFrame) (seq : Z) : bool :=
  let diff := wsub 32 seq (base_seq a) in
  if U32_HALF <? diff then true
  else if diff =? 0 then true
  else if (1 <=? diff) && (diff <=? SACK_MAX) then
    negb (Z.land (bitmap a) (Z.shiftl 1 (diff - 1)) =? 0)
  else false.
End Ack.

Abbreviation AckFrame := Ack.AckFrame.

(** [&bytes[..n]] *)
Definition slice_to {A} (l : list A) (n : nat) : exec (list A) :=
  if decide (n <= length l)%nat then Ret (take n l) else Panic.

(** ** The sender *)

Module Tx.

Record TxSlot := {
  seq : Z; len : nat; bytes : list Z; first_ns : Z; last_ns : Z; resends : Z
}.

Record ReliableTx := { slots : list TxSlot; mask : Z; oldest : Z }.

Definition TxFull := Z.

Definition window_of (cfg_window : Z) : Z := Z.max (next_power_of_two cfg_window) 1.

Definition fresh_slot (i : Z) : TxSlot :=
  {| seq := wrap 32 i; len := 0; bytes := replicate MAX_RELIABLE_PAYLOAD 0;
     first_ns := 0; last_ns := 0; resends := 0 |}.

Definition new (cfg_window : Z) : ReliableTx :=
  let window := window_of cfg_window in
  {| slots := fresh_slot <$> seqZ 0 window; mask := window - 1; oldest := 0 |}.

Definition window (t : ReliableTx) : nat := length (slots t).
(** [self.slots.len() as u32] *)
Definition window32 (t : ReliableTx) : Z := wrap 32 (Z.of_nat (window t)).

Definition in_flight (t : ReliableTx) : nat :=
  length (List.filter (fun s => (0 <? len s)%nat
    && (wsub 32 (seq s) (oldest t) <? window32 t)) (slots t)).

Definition slot_ix (t : ReliableTx) (s : Z) : nat := Z.to_nat (Z.land s (mask t)).

Definition set_slot (t : ReliableTx) (i : nat) (s : TxSlot) : ReliableTx :=
  {| slots := <[i := s]> (slots t); mask := mask t; oldest := oldest t |}.

Definition send (t : ReliableTx) (sq : Z) (payload : list Z) (now_ns : Z) :
    exec (ReliableTx * result unit TxFull) :=
  _ ← assert (length payload <=? MAX_RELIABLE_PAYLOAD)%nat;
  if Z.of_nat (window t) <=? wsub 32 sq (oldest t) then Ret (t, Err sq)
  else
    slot ← index (slots t) (slot_ix t sq);
    if (0 <? len slot)%nat && (seq slot =? sq) && negb (first_ns slot =? 0) then Ret (t, Err sq)
    else
      b ← copy_from_slice (bytes slot) 0 payload;
      Ret (set_slot t (slot_ix t sq)
             {| seq := sq; len := length payload; bytes := b;
                first_ns := now_ns; last_ns := now_ns; resends := 0 |}, Ok tt).

(** [slot.len = 0; slot.first_ns = 0] *)
Definition freed (s : TxSlot) : TxSlot :=
  {| seq := seq s; len := 0; bytes := bytes s; first_ns := 0;
     last_ns := last_ns s; resends := resends s |}.

Definition free_slot (t : ReliableTx) (i : nat) (s : TxSlot) : ReliableTx := set_slot t i (freed s).

(** the [loop] that advances [oldest] *)
Fixpoint ack_loop (fuel : nat) (t : ReliableTx) (base now_ns : Z) (rtt : option Z) :
    exec (ReliableTx * option Z) :=
  match fuel with
  | O => NoFuel
  | S fuel =>
      let diff := wsub 32 base (oldest t) in
      if (diff =? 0) || (window32 t <=? diff) then Ret (t, rtt)
      else
        slot ← index (slots t) (slot_ix t (oldest t));
        let rtt :=
          match rtt with
          | None => if (0 <? len slot)%nat && negb (first_ns slot =? 0)
                    then Some (ssub now_ns (first_ns slot)) else None
          | Some _ => rtt
          end in
        let t := free_slot t (slot_ix t (oldest t)) slot in
        ack_loop fuel {| slots := slots t; mask := mask t; oldest := wadd 32 (oldest t) 1 |}
          base now_ns rtt
  end.

(** the body of the SACK [for] loop *)
Definition sack_step (a : AckFrame) (now_ns i : Z) (t : ReliableTx) (rtt : option Z) :
    exec (ReliableTx * option Z) :=
  if negb (Z.land (Ack.bitmap a) (Z.shiftl 1 i) =? 0) then
    let sq := wadd 32 (Ack.base_seq a) (1 + i) in
    if wsub 32 sq (oldest t) <? window32 t then
      slot ← index (slots t) (slot_ix t sq);
      if (seq slot =? sq) && (0 <? len slot)%nat then
        let rtt :=
          match rtt with
          | None => if negb (first_ns slot =? 0) then Some (ssub now_ns (first_ns slot)) else None
          | Some _ => rtt
          end in
        Ret (free_slot t (slot_ix t sq) slot, rtt)
      else Ret (t, rtt)
    else Ret (t, rtt)
  else Ret (t, rtt).

Fixpoint sack_loop (a : AckFrame) (now_ns : Z) (ixs : list Z) (t : ReliableTx) (rtt : option Z) :
    exec (ReliableTx * option Z) :=
  match ixs with
  | [] => Ret (t, rtt)
  | i :: ixs => '(t, rtt) ← sack_step a now_ns i t rtt; sack_loop a now_ns ixs t rtt
  end.

Definition on_ack (t : ReliableTx) (a : AckFrame) (now_ns : Z) : exec (ReliableTx * option Z) :=
  '(t, rtt) ← ack_loop (S (window t)) t (Ack.base_seq a) now_ns None;
  sack_loop a now_ns (seqZ 0 (SACK_BITS - 1)) t rtt.

(** one iteration of [tick]: the slot after it and what it sends *)
Definition overdue (now_ns rto_ns : Z) (s : TxSlot) : bool :=
  negb ((len s =? 0)%nat || (first_ns s =? 0)) && (rto_ns <=? ssub now_ns (last_ns s)).

Definition resent (now_ns : Z) (s : TxSlot) : TxSlot :=
  {| seq := seq s; len := len s; bytes := bytes s; first_ns := first_ns s;
     last_ns := now_ns; resends := wadd 32 (resends s) 1 |}.

Fixpoint tick_loop (now_ns rto_ns : Z) (ss : list TxSlot) :
    exec (list TxSlot * list (Z * list Z)) :=
  match ss with
  | [] => Ret ([], [])
  | s :: ss =>
      if overdue now_ns rto_ns s then
        p ← slice_to (bytes s) (len s);
        '(ss', out) ← tick_loop now_ns rto_ns ss;
        Ret (resent now_ns s :: ss', (seq s, p) :: out)
      else
        '(ss', out) ← tick_loop now_ns rto_ns ss;
        Ret (s :: ss', out)
  end.

(** the frames passed to [out] and their number *)
Definition tick (t : ReliableTx) (now_ns rto_ns : Z) :
    exec (ReliableTx * list (Z * list Z) * nat) :=
  '(ss, out) ← tick_loop now_ns rto_ns (slots t);
  Ret ({| slots := ss; mask := mask t; oldest := oldest t |}, out, length out).

Definition max_resends (t : ReliableTx) : Z :=
  foldr Z.max 0 (resends <$> List.filter (fun s => 0 <? len s)%nat (slots t)).

End Tx.

Abbreviation ReliableTx := Tx.ReliableTx.

(** ** The receiver *)

Inductive Accept := InOrder | Buffered | Duplicate | Overflow.

#[global] Instance Accept_eq_dec : EqDecision Accept.
Proof. solve_decision. Defined.

Module Rx.

Record RxSlot := { len : nat; bytes : list Z }.
Record ReliableRx := { next : Z; map : Z; slots : list RxSlot }.

Definition empty_slot : RxSlot := {| len := 0; bytes := replicate MAX_RELIABLE_PAYLOAD 0 |}.

Definition new : ReliableRx :=
  {| next := 0; map := 0; slots := replicate (Z.to_nat SACK_BITS) empty_slot |}.

Definition next_expected (r : ReliableRx) : Z := next r.

Fixpoint popcount (p : positive) : Z :=
  match p with xH => 1 | xO p => popcount p | xI p => 1 + popcount p end.
Definition count_ones (z : Z) : Z := match z with Zpos p => popcount p | _ => 0 end.

Definition buffered_count (r : ReliableRx) : Z := count_ones (Z.shiftr (map r) 1).

Definition accept (r : ReliableRx) (sq : Z) (payload : list Z) : exec (ReliableRx * Accept) :=
  _ ← assert (length payload <=? MAX_RELIABLE_PAYLOAD)%nat;
  let diff := wsub 32 sq (next r) in
  if U32_HALF <? diff then Ret (r, Duplicate)
  else if SACK_BITS <=? diff then Ret (r, Overflow)
  else
    let bit := Z.shiftl 1 diff in
    if negb (Z.land (map r) bit =? 0) then Ret (r, Duplicate)
    else
      slot ← index (slots r) (Z.to_nat diff);
      b ← copy_from_slice (bytes slot) 0 payload;
      let r := {| next := next r; map := Z.lor (map r) bit;
                  slots := <[Z.to_nat diff := {| len := length payload; bytes := b |}]> (slots r) |} in
      Ret (r, if diff =? 0 then InOrder else Buffered).

(** the inner [for]: every slot takes its successor, the last one is cleared *)
Definition shift_slots (ss : list RxSlot) : list RxSlot := drop 1 ss ++ [empty_slot].

Fixpoint drain_loop (fuel : nat) (r : ReliableRx) : exec (ReliableRx * list (Z * list Z)) :=
  match fuel with
  | O => NoFuel
  | S fuel =>
      if negb (Z.land (map r) 1 =? 0) then
        slot ← index (slots r) 0;
        frame ← slice_to (bytes slot) (len slot);
        '(r', out) ← drain_loop fuel
           {| next := wadd 32 (next r) 1; map := Z.shiftr (map r) 1; slots := shift_slots (slots r) |};
        Ret (r', (next r, frame) :: out)
      else Ret (r, [])
  end.

Definition drain (r : ReliableRx) : exec (ReliableRx * list (Z * list Z)) :=
  drain_loop (S (Z.to_nat SACK_BITS)) r.

Definition build_ack (r : ReliableRx) (rtt_sample_ns : Z) : AckFrame :=
  {| Ack.base_seq := next r; Ack.bitmap := Z.shiftr (map r) 1;
     Ack.rtt_sample_ns := rtt_sample_ns |}.

End Rx.

Abbreviation ReliableRx := Rx.ReliableRx.

(** ** The network

    [net] holds the frames and [acks] the acknowledgements on the wire; a delivery
    picks any of them and leaves it there, so it may come again, and [StepLose] takes
    away what it likes.  [stamps] are the clock readings of the sends. *)

Record sys := {
  tx : ReliableTx; rx : ReliableRx;
  sent : list (list Z); stamps : list Z; delivered : list (Z * list Z);
  net : list (Z * list Z); acks : list AckFrame
}.

Definition sys_init (cfg_window : Z) : sys :=
  {| tx := Tx.new cfg_window; rx := Rx.new; sent := []; stamps := []; delivered := []; net := []; acks := [] |}.

(** The sequence numbers of a session: beyond them a frame as old as half the number
    space passes for a new one ([old_frame_taken_for_new]). *)
Definition session_limit : Z := 2 ^ 31 - 1.
Definition in_session (s : sys) : Prop := Z.of_nat (length (sent s)) <= session_limit.

(** what happens at the receiver *)
Inductive arrival : sys -> sys -> Prop :=
| ArrRecv s sq p r' res :
    (sq, p) ∈ net s -> Rx.accept (rx s) sq p = Ret (r', res) ->
    arrival s {| tx := tx s; rx := r'; sent := sent s; stamps := stamps s; delivered := delivered s;
                 net := net s; acks := acks s |}
| ArrDrain s r' out :
    Rx.drain (rx s) = Ret (r', out) ->
    arrival s {| tx := tx s; rx := r'; sent := sent s; stamps := stamps s; delivered := delivered s ++ out;
                 net := net s; acks := acks s |}.

Inductive sys_step : sys -> sys -> Prop :=
| StepSend s p now t' :
    Tx.send (tx s) (wrap 32 (Z.of_nat (length (sent s)))) p now = Ret (t', Ok tt) ->
    sys_step s {| tx := t'; rx := rx s; sent := sent s ++ [p]; stamps := stamps s ++ [now]; delivered := delivered s;
                  net := (wrap 32 (Z.of_nat (length (sent s))), p) :: net s; acks := acks s |}
| StepTick s now rto t' out n :
    Tx.tick (tx s) now rto = Ret (t', out, n) ->
    sys_step s {| tx := t'; rx := rx s; sent := sent s; stamps := stamps s; delivered := delivered s;
                  net := out ++ net s; acks := acks s |}
| StepArrive s s' : arrival s s' -> sys_step s s'
| StepAck s rtt :
    sys_step s {| tx := tx s; rx := rx s; sent := sent s; stamps := stamps s; delivered := delivered s;
                  net := net s; acks := Rx.build_ack (rx s) rtt :: acks s |}
| StepOnAck s a now t' r :
    a ∈ acks s -> Tx.on_ack (tx s) a now = Ret (t', r) ->
    sys_step s {| tx := t'; rx := rx s; sent := sent s; stamps := stamps s; delivered := delivered s;
                  net := net s; acks := acks s |}
| StepLose s net' acks' :
    net' ⊆ net s -> acks' ⊆ acks s ->
    sys_step s {| tx := tx s; rx := rx s; sent := sent s; stamps := stamps s; delivered := delivered s;
                  net := net'; acks := acks' |}.

(** ** Bits *)

Lemma land_bit z i : 0 <= i -> negb (Z.land z (Z.shiftl 1 i) =? 0) = Z.testbit z i.
Proof.
  intros Hi. rewrite Z.shiftl_1_l. destruct (Z.eqb_spec (Z.land z (2 ^ i)) 0) as [E|E]; simpl.
  - apply (f_equal (fun w => Z.testbit w i)) in E.
    rewrite Z.land_spec, Z.pow2_bits_true, andb_true_r, Z.bits_0 in E by done. done.
  - destruct (Z.testbit z i) eqn:Hb; [done|]. destruct E. apply Z.bits_inj'. intros n Hn.
    rewrite Z.land_spec, Z.bits_0. destruct (Z.eq_dec n i) as [->|]; [by rewrite Hb|].
    rewrite Z.pow2_bits_false by done. apply andb_false_r.
Qed.

Lemma land_bit0 z : negb (Z.land z 1 =? 0) = Z.testbit z 0.
Proof. apply (land_bit z 0). done. Qed.

Lemma testbit_set z i j : 0 <= i -> 0 <= j ->
  Z.testbit (Z.lor z (Z.shiftl 1 i)) j = Z.testbit z j || (i =? j).
Proof.
  intros. rewrite Z.lor_spec, Z.shiftl_1_l, Z.pow2_bits_eqb by done. done.
Qed.

(** ** The receiver against its specification

    The specification keeps unbounded sequence numbers: the next one expected
    and the set of those held ahead of it. *)

Module RxSpec.
Record spec := { s_next : Z; held : gset Z }.

Definition init : spec := {| s_next := 0; held := ∅ |}.

Definition accept (s : spec) (k : Z) : spec * Accept :=
  if k <? s_next s then (s, Duplicate)
  else if s_next s + SACK_BITS <=? k then (s, Overflow)
  else if decide (k ∈ held s) then (s, Duplicate)
  else ({| s_next := s_next s; held := {[k]} ∪ held s |},
        if k =? s_next s then InOrder else Buffered).

(** deliver the maximal run of held frames that starts at [s_next] *)
Fixpoint drain_upto (fuel : nat) (s : spec) : spec * list Z :=
  match fuel with
  | O => (s, [])
  | S fuel =>
      if decide (s_next s ∈ held s) then
        let '(s', out) := drain_upto fuel
          {| s_next := s_next s + 1; held := held s ∖ {[s_next s]} |} in
        (s', s_next s :: out)
      else (s, [])
  end.
Definition drain (s : spec) : spec * list Z := drain_upto (S (Z.to_nat SACK_BITS)) s.

Definition received (s : spec) (k : Z) : Prop := 0 <= k < s_next s \/ k ∈ held s.
End RxSpec.
Import RxSpec (received).
Abbreviation spec := RxSpec.spec.

Lemma copy_at_0 (b p : list Z) : (length p <= MAX_RELIABLE_PAYLOAD)%nat ->
  length b = MAX_RELIABLE_PAYLOAD ->
  exists b', copy_from_slice b 0 p = Ret b' /\ length b' = MAX_RELIABLE_PAYLOAD /\
    take (length p) b' = p.
Proof.
  intros Hp Hb. exists (splice b 0 p). unfold copy_from_slice.
  rewrite decide_True by lia. split; [done|]. split.
  - rewrite length_splice by lia. done.
  - unfold splice. simpl. apply take_app_length.
Qed.

Lemma slice_to_ok {A} (l : list A) n : (n <= length l)%nat -> slice_to l n = Ret (take n l).
Proof. intros. unfold slice_to. by rewrite decide_True. Qed.

Lemma slice_to_inv {A} (l x : list A) n : slice_to l n = Ret x -> (n <= length l)%nat /\ x = take n l.
Proof. unfold slice_to. case_decide; [|done]. by intros [= <-]. Qed.

Lemma index_ok {A} (l : list A) i x : l !! i = Some x -> index l i = Ret x.
Proof. unfold index. by intros ->. Qed.

(** ** What the specification delivers *)

Lemma drain_upto_seq fuel s :
  let '(s', out) := RxSpec.drain_upto fuel s in
  RxSpec.s_next s <= RxSpec.s_next s' /\
  out = seqZ (RxSpec.s_next s) (RxSpec.s_next s' - RxSpec.s_next s) /\
  (0 <= RxSpec.s_next s -> forall k, received s' k <-> received s k) /\
  (forall k, k ∈ RxSpec.held s' -> k ∈ RxSpec.held s).
Proof.
  revert s. induction fuel as [|fuel IH]; intros s; simpl.
  { rewrite Z.sub_diag. split_and!; done || lia. }
  destruct (decide _) as [Hin|Hin].
  2:{ rewrite Z.sub_diag. split_and!; done || lia. }
  specialize (IH {| RxSpec.s_next := RxSpec.s_next s + 1;
                    RxSpec.held := RxSpec.held s ∖ {[RxSpec.s_next s]} |}).
  destruct (RxSpec.drain_upto _ _) as [s' out]. simpl in IH.
  destruct IH as (Hle & -> & Hrec & Hsub). split_and!; [lia| |intros Hp k; rewrite Hrec by lia|clear Hrec; set_solver].
  - rewrite (seqZ_cons _ (RxSpec.s_next s' - RxSpec.s_next s)) by lia.
    f_equal. f_equal; lia.
  - unfold received; simpl. rewrite elem_of_difference, elem_of_singleton.
    destruct (decide (k = RxSpec.s_next s)) as [->|]; [intuition lia|]. intuition lia.
Qed.

Lemma accept_received s k : 0 <= RxSpec.s_next s ->
  RxSpec.s_next (RxSpec.accept s k).1 = RxSpec.s_next s /\
  (forall j, received s j -> received (RxSpec.accept s k).1 j) /\
  (forall j, j ∈ RxSpec.held (RxSpec.accept s k).1 -> j = k \/ j ∈ RxSpec.held s).
Proof.
  intros. unfold RxSpec.accept, received.
  repeat (case_if || case_decide); simpl; split_and!; set_solver.
Qed.

Section RxRefinement.
(** the payload of frame [k] of the sender's unbounded sequence *)
Variable msg : Z -> list Z.
Hypothesis msg_len : forall k, (length (msg k) <= MAX_RELIABLE_PAYLOAD)%nat.

Record rx_rep (r : ReliableRx) (s : spec) : Prop := {
  rr_next : Rx.next r = wrap 32 (RxSpec.s_next s);
  rr_pos : 0 <= RxSpec.s_next s;
  rr_map i : 0 <= i -> Z.testbit (Rx.map r) i = bool_decide (RxSpec.s_next s + i ∈ RxSpec.held s);
  rr_held k : k ∈ RxSpec.held s -> RxSpec.s_next s <= k < RxSpec.s_next s + SACK_BITS;
  rr_slots : length (Rx.slots r) = Z.to_nat SACK_BITS;
  rr_bytes : Forall (fun sl => length (Rx.bytes sl) = MAX_RELIABLE_PAYLOAD) (Rx.slots r);
  rr_frame (i : nat) : RxSpec.s_next s + Z.of_nat i ∈ RxSpec.held s ->
    exists sl, Rx.slots r !! i = Some sl /\ (Rx.len sl <= MAX_RELIABLE_PAYLOAD)%nat /\
      take (Rx.len sl) (Rx.bytes sl) = msg (RxSpec.s_next s + Z.of_nat i)
}.

Lemma rx_new_rep : rx_rep Rx.new RxSpec.init.
Proof.
  constructor; simpl; try done.
  - intros i Hi. rewrite Z.testbit_0_l. symmetry. by apply bool_decide_eq_false.
  - repeat constructor.
Qed.

(** [k] is close enough to be told apart modulo [2^32] *)
Definition near (s : spec) (k : Z) : Prop :=
  RxSpec.s_next s - 2 ^ 31 <= k < RxSpec.s_next s + 2 ^ 31.

Lemma near_diff n k : n - 2 ^ 31 <= k < n + 2 ^ 31 ->
  wsub 32 (wrap 32 k) (wrap 32 n) = if k <? n then k - n + 2 ^ 32 else k - n.
Proof.
  intros H. rewrite wsub_wrap. unfold wrap. case_if; zbool.
  - symmetry. apply Z.mod_unique with (-1); lia.
  - apply Z.mod_small. lia.
Qed.

Lemma U32_HALF_val : U32_HALF = 2147483647.
Proof. reflexivity. Qed.

Lemma rx_accept_refines r s k : rx_rep r s -> near s k ->
  exists r', Rx.accept r (wrap 32 k) (msg k) = Ret (r', (RxSpec.accept s k).2) /\
    rx_rep r' (RxSpec.accept s k).1.
Proof.
  intros R Hk. unfold Rx.accept. rewrite (proj2 (Nat.leb_le _ _) (msg_len k)). simpl.
  rewrite (rr_next _ _ R), near_diff by exact Hk. unfold RxSpec.accept, near in *.
  pose proof (rr_pos _ _ R).
  destruct (Z.ltb_spec k (RxSpec.s_next s)).
  { rewrite (proj2 (Z.ltb_lt U32_HALF _)) by (rewrite U32_HALF_val; lia). eauto. }
  rewrite (proj2 (Z.ltb_ge U32_HALF _)) by (rewrite U32_HALF_val; lia).
  destruct (Z.leb_spec (RxSpec.s_next s + SACK_BITS) k).
  { rewrite (proj2 (Z.leb_le SACK_BITS _)) by lia. eauto. }
  rewrite (proj2 (Z.leb_gt SACK_BITS _)) by lia.
  rewrite land_bit, (rr_map _ _ R) by lia.
  replace (RxSpec.s_next s + (k - RxSpec.s_next s)) with k by lia.
  destruct (decide (k ∈ RxSpec.held s)) as [Hin|Hin].
  { rewrite bool_decide_true by done. eauto. }
  rewrite bool_decide_false by done.
  set (d := k - RxSpec.s_next s) in *.
  destruct (lookup_lt_is_Some_2 (Rx.slots r) (Z.to_nat d)) as [sl Hsl].
  { rewrite (rr_slots _ _ R). unfold SACK_BITS in *. lia. }
  rewrite (index_ok _ _ _ Hsl). simpl.
  destruct (copy_at_0 (Rx.bytes sl) (msg k)) as (b & -> & Hb & Htk); [apply msg_len| |].
  { by apply (Forall_lookup_1 _ _ _ _ (rr_bytes _ _ R) Hsl). }
  simpl. replace (d =? 0) with (k =? RxSpec.s_next s) by (apply eq_true_iff_eq; rewrite !Z.eqb_eq; lia).
  eexists. split; [reflexivity|]. constructor; simpl.
  - done.
  - done.
  - intros i Hi. rewrite testbit_set, (rr_map _ _ R) by lia. apply eq_true_iff_eq.
    rewrite orb_true_iff, Z.eqb_eq, !bool_decide_eq_true, elem_of_union, elem_of_singleton.
    split; [intros [?|?]; [by right | left; lia] | intros [?|?]; [right; lia | by left]].
  - intros j. rewrite elem_of_union, elem_of_singleton.
    intros [->|Hj]; [lia | by apply (rr_held _ _ R)].
  - rewrite length_insert. apply (rr_slots _ _ R).
  - apply Forall_insert; [apply (rr_bytes _ _ R) | done].
  - intros i. rewrite elem_of_union, elem_of_singleton.
    destruct (decide (i = Z.to_nat d)) as [->|Hne].
    + intros _. eexists. split; [by apply list_lookup_insert_eq, lookup_lt_is_Some_1|].
      simpl. split; [apply msg_len|]. rewrite Htk. f_equal. lia.
    + intros [Hi|Hi]; [lia|]. rewrite list_lookup_insert_ne by done. by apply (rr_frame _ _ R).
Qed.

Lemma rx_drain_refines fuel r s : rx_rep r s ->
  (size (RxSpec.held s) < fuel)%nat ->
  exists r' : ReliableRx, Rx.drain_loop fuel r =
      Ret (r', (fun k => (wrap 32 k, msg k)) <$> (RxSpec.drain_upto fuel s).2) /\
    rx_rep r' (RxSpec.drain_upto fuel s).1.
Proof.
  revert r s. induction fuel as [|fuel IH]; intros r s R Hf; [lia|]. simpl.
  rewrite land_bit0, (rr_map _ _ R 0), Z.add_0_r by done.
  destruct (decide (RxSpec.s_next s ∈ RxSpec.held s)) as [Hin|Hin].
  2:{ rewrite bool_decide_false by done. eauto. }
  rewrite bool_decide_true by done.
  destruct (rr_frame _ _ R 0) as (sl & Hsl & Hlen & Htk); [by rewrite Z.add_0_r|].
  rewrite (index_ok _ _ _ Hsl). simpl.
  rewrite slice_to_ok.
  2:{ rewrite (Forall_lookup_1 _ _ _ _ (rr_bytes _ _ R) Hsl). done. }
  simpl. destruct (IH {| Rx.next := wadd 32 (Rx.next r) 1; Rx.map := Z.shiftr (Rx.map r) 1;
      Rx.slots := Rx.shift_slots (Rx.slots r) |}
    {| RxSpec.s_next := RxSpec.s_next s + 1; RxSpec.held := RxSpec.held s ∖ {[RxSpec.s_next s]} |})
    as (r' & -> & R').
  - constructor; simpl.
    + rewrite (rr_next _ _ R). apply wadd_wrap.
    + pose proof (rr_pos _ _ R). lia.
    + intros i Hi. rewrite Z.shiftr_spec, (rr_map _ _ R) by lia. apply bool_decide_ext.
      rewrite elem_of_difference, elem_of_singleton.
      replace (RxSpec.s_next s + 1 + i) with (RxSpec.s_next s + (i + 1)) by lia.
      split; [intros ?; split; [done | lia] | tauto].
    + intros k. rewrite elem_of_difference, elem_of_singleton. intros [Hk ?].
      apply (rr_held _ _ R) in Hk. lia.
    + unfold Rx.shift_slots. rewrite length_app, length_drop, (rr_slots _ _ R). done.
    + apply Forall_app. split; [apply Forall_drop, (rr_bytes _ _ R) | by repeat constructor].
    + intros i. rewrite elem_of_difference, elem_of_singleton. intros [Hk _].
      destruct (rr_frame _ _ R (S i)) as (sl' & Hsl' & Hrest).
      { replace (RxSpec.s_next s + Z.of_nat (S i)) with (RxSpec.s_next s + 1 + Z.of_nat i) by lia.
        done. }
      exists sl'. unfold Rx.shift_slots. rewrite lookup_app_l, lookup_drop.
      * split; [done|]. replace (RxSpec.s_next s + 1 + Z.of_nat i)
          with (RxSpec.s_next s + Z.of_nat (S i)) by lia. done.
      * apply lookup_lt_Some in Hsl'. rewrite length_drop. lia.
  - simpl. rewrite size_difference, size_singleton by set_solver.
    assert (size (RxSpec.held s) <> 0%nat) by (intros ?%size_empty_inv; set_solver). lia.
  - simpl. destruct (RxSpec.drain_upto _ _) as [s' out]. simpl in *.
    rewrite (rr_next _ _ R). rewrite Z.add_0_r in Htk. rewrite Htk. eauto.
Qed.

Lemma rx_held_size r s : rx_rep r s -> (size (RxSpec.held s) <= Z.to_nat SACK_BITS)%nat.
Proof.
  intros R. transitivity (size (list_to_set (C := gset Z) (seqZ (RxSpec.s_next s) SACK_BITS))).
  - apply subseteq_size. intros k Hk. apply elem_of_list_to_set, elem_of_seqZ.
    by apply (rr_held _ _ R).
  - rewrite size_list_to_set by apply NoDup_seqZ. by rewrite length_seqZ.
Qed.

Lemma rx_drain_spec r s : rx_rep r s ->
  exists r', Rx.drain r = Ret (r', (fun k => (wrap 32 k, msg k)) <$> (RxSpec.drain s).2) /\
    rx_rep r' (RxSpec.drain s).1.
Proof.
  intros R. apply rx_drain_refines; [done|]. pose proof (rx_held_size r s R). lia.
Qed.

(** ** Runs *)

Inductive rx_op := OfferFrame (k : Z) | DrainAll.
Inductive rx_out := Verdict (a : Accept) | Delivered (fs : list (Z * list Z)).

Fixpoint rx_run (ops : list rx_op) (r : ReliableRx) : exec (ReliableRx * list rx_out) :=
  match ops with
  | [] => Ret (r, [])
  | OfferFrame k :: ops =>
      '(r, a) ← Rx.accept r (wrap 32 k) (msg k);
      '(r, outs) ← rx_run ops r;
      Ret (r, Verdict a :: outs)
  | DrainAll :: ops =>
      '(r, fs) ← Rx.drain r;
      '(r, outs) ← rx_run ops r;
      Ret (r, Delivered fs :: outs)
  end.

Fixpoint spec_run (ops : list rx_op) (s : spec) : spec * list rx_out :=
  match ops with
  | [] => (s, [])
  | OfferFrame k :: ops =>
      let '(s, a) := RxSpec.accept s k in
      let '(s, outs) := spec_run ops s in (s, Verdict a :: outs)
  | DrainAll :: ops =>
      let '(s, ks) := RxSpec.drain s in
      let '(s, outs) := spec_run ops s in
      (s, Delivered ((fun k => (wrap 32 k, msg k)) <$> ks) :: outs)
  end.

(** every offered frame is within half the sequence space of the next expected *)
Fixpoint all_near (ops : list rx_op) (s : spec) : Prop :=
  match ops with
  | [] => True
  | OfferFrame k :: ops => near s k /\ all_near ops (RxSpec.accept s k).1
  | DrainAll :: ops => all_near ops (RxSpec.drain s).1
  end.

Definition delivered_of (o : rx_out) : list (Z * list Z) :=
  match o with Verdict _ => [] | Delivered fs => fs end.

Lemma rx_run_refines ops : forall r s, rx_rep r s -> all_near ops s ->
  exists r', rx_run ops r = Ret (r', (spec_run ops s).2) /\ rx_rep r' (spec_run ops s).1.
Proof.
  induction ops as [|[k|] ops IH]; intros r s R Hn; simpl in *; [eauto| |].
  - destruct Hn as [Hk Hn]. destruct (rx_accept_refines r s k R Hk) as (r' & -> & R').
    simpl. destruct (RxSpec.accept s k) as [s' a]; simpl in *.
    destruct (IH r' s' R' Hn) as (r'' & -> & R''). simpl.
    destruct (spec_run ops s'); simpl in *. eauto.
  - destruct (rx_drain_spec r s R) as (r' & -> & R').
    simpl. destruct (RxSpec.drain s) as [s' ks]; simpl in *.
    destruct (IH r' s' R' Hn) as (r'' & -> & R''). simpl.
    destruct (spec_run ops s'); simpl in *. eauto.
Qed.

Lemma spec_run_delivers ops : forall s, 0 <= RxSpec.s_next s ->
  let '(s', outs) := spec_run ops s in
  RxSpec.s_next s <= RxSpec.s_next s' /\
  concat (delivered_of <$> outs) = (fun k => (wrap 32 k, msg k)) <$>
    seqZ (RxSpec.s_next s) (RxSpec.s_next s' - RxSpec.s_next s).
Proof.
  induction ops as [|[k|] ops IH]; intros s Hs; simpl.
  - rewrite Z.sub_diag. split; [lia | done].
  - destruct (accept_received s k Hs) as (Hn & _). destruct (RxSpec.accept s k) as [s1 a].
    simpl in Hn. specialize (IH s1 ltac:(lia)). destruct (spec_run ops s1) as [s' outs].
    rewrite Hn in IH. exact IH.
  - pose proof (drain_upto_seq (S (Z.to_nat SACK_BITS)) s) as Hd. unfold RxSpec.drain.
    destruct (RxSpec.drain_upto _ s) as [s1 ks]. destruct Hd as (Hle & -> & _).
    specialize (IH s1 ltac:(lia)). destruct (spec_run ops s1) as [s' outs].
    destruct IH as [Hle' IH]. split; [lia|].
    rewrite fmap_cons. cbn [concat delivered_of]. rewrite IH, <- fmap_app. f_equal.
    replace (RxSpec.s_next s' - RxSpec.s_next s) with
      ((RxSpec.s_next s1 - RxSpec.s_next s) + (RxSpec.s_next s' - RxSpec.s_next s1)) by lia.
    rewrite seqZ_app by lia. f_equal. f_equal. lia.
Qed.

(** The receiver implements its specification for every sequence of arrivals
    and drains: nothing panics, each arrival gets the verdict the unbounded-
    sequence specification gives it, and the frames handed to the application
    over the whole run are exactly frames [0, 1, .., n-1], each once, in order
    and with the payload the sender gave them, whatever was lost, duplicated or
    reordered on the way, across wrap-around of the 32-bit sequence numbers. *)
Theorem reliable_rx_ordered ops : all_near ops RxSpec.init ->
  exists r' outs, rx_run ops Rx.new = Ret (r', outs) /\
    outs = (spec_run ops RxSpec.init).2 /\
    concat (delivered_of <$> outs) = (fun k => (wrap 32 k, msg k)) <$>
      seqZ 0 (RxSpec.s_next (spec_run ops RxSpec.init).1) /\
    Rx.next r' = wrap 32 (RxSpec.s_next (spec_run ops RxSpec.init).1).
Proof.
  intros Hn. destruct (rx_run_refines ops _ _ rx_new_rep Hn) as (r' & E & R').
  exists r', (spec_run ops RxSpec.init).2. split_and!; [done | done | | apply (rr_next _ _ R')].
  pose proof (spec_run_delivers ops RxSpec.init ltac:(done)) as Hd.
  destruct (spec_run ops RxSpec.init) as [s' outs]. destruct Hd as [_ Hd].
  cbn [fst snd]. rewrite Hd. simpl. by rewrite Z.sub_0_r.
Qed.

End RxRefinement.

(** ** The sender's retention invariant *)

Definition frame_of (msgs : list (list Z)) (k : Z) (p : list Z) : Prop :=
  0 <= k /\ msgs !! Z.to_nat k = Some p.

Record tx_inv (t : ReliableTx) (o : Z) (msgs : list (list Z)) : Prop := {
  ti_pow2 : pow2 (Z.of_nat (Tx.window t));
  ti_small : Z.of_nat (Tx.window t) <= 2 ^ 31;
  ti_mask : Tx.mask t = Z.of_nat (Tx.window t) - 1;
  ti_oldest : Tx.oldest t = o;
  ti_range : 0 <= o <= Z.of_nat (length msgs);
  ti_fits : Z.of_nat (length msgs) <= o + Z.of_nat (Tx.window t);
  ti_session : Z.of_nat (length msgs) <= session_limit;
  ti_bytes : Forall (fun s => length (Tx.bytes s) = MAX_RELIABLE_PAYLOAD) (Tx.slots t);
  ti_live : Forall (fun s => Tx.len s <> 0%nat ->
    exists p, frame_of msgs (Tx.seq s) p /\ (Tx.len s <= MAX_RELIABLE_PAYLOAD)%nat /\
      take (Tx.len s) (Tx.bytes s) = p) (Tx.slots t)
}.

(** frame [k] is held for retransmission *)
Definition retained (t : ReliableTx) (k : Z) : Prop :=
  exists s, Tx.slots t !! Tx.slot_ix t k = Some s /\ Tx.seq s = k /\
    Tx.len s <> 0%nat /\ Tx.first_ns s <> 0.

Lemma slot_ix_mod t o msgs k : tx_inv t o msgs ->
  Tx.slot_ix t k = Z.to_nat (k mod Z.of_nat (Tx.window t)).
Proof. intros I. unfold Tx.slot_ix. by rewrite (ti_mask _ _ _ I), land_mask by apply I. Qed.

Lemma slot_ix_lookup t o msgs k : tx_inv t o msgs ->
  exists s, Tx.slots t !! Tx.slot_ix t k = Some s.
Proof.
  intros I. apply lookup_lt_is_Some_2. rewrite (slot_ix_mod _ _ _ _ I).
  pose proof (pow2_ge1 _ (ti_pow2 _ _ _ I)).
  pose proof (Z.mod_pos_bound k (Z.of_nat (Tx.window t))). unfold Tx.window in *. lia.
Qed.

Lemma slot_ix_inj t o msgs j k : tx_inv t o msgs -> j < k < j + Z.of_nat (Tx.window t) ->
  Tx.slot_ix t j <> Tx.slot_ix t k.
Proof.
  intros I Hk. rewrite !(slot_ix_mod _ _ _ _ I). intros E.
  pose proof (Z.mod_pos_bound j (Z.of_nat (Tx.window t))).
  pose proof (Z.mod_pos_bound k (Z.of_nat (Tx.window t))).
  assert (j = k); [|lia]. apply (mod_inj_dist (Z.of_nat (Tx.window t))); lia.
Qed.

Lemma window32_eq t o msgs : tx_inv t o msgs -> Tx.window32 t = Z.of_nat (Tx.window t).
Proof. intros I. apply wrap_id. pose proof (ti_small _ _ _ I). unfold uint. lia. Qed.

Lemma window_set t i s : Tx.window (Tx.set_slot t i s) = Tx.window t.
Proof. apply length_insert. Qed.

(** replacing one slot keeps the invariant when the new slot is consistent *)
Lemma tx_inv_set t o msgs i s : tx_inv t o msgs ->
  length (Tx.bytes s) = MAX_RELIABLE_PAYLOAD ->
  (Tx.len s <> 0%nat -> exists p, frame_of msgs (Tx.seq s) p /\
    (Tx.len s <= MAX_RELIABLE_PAYLOAD)%nat /\ take (Tx.len s) (Tx.bytes s) = p) ->
  tx_inv (Tx.set_slot t i s) o msgs.
Proof.
  intros I Hb Hl. destruct I. constructor; rewrite ?window_set; try done.
  - by apply Forall_insert.
  - by apply Forall_insert.
Qed.

Lemma retained_set_ne t i s k : Tx.slot_ix t k <> i -> retained t k ->
  retained (Tx.set_slot t i s) k.
Proof.
  intros Hne (s' & Hs & Hr). exists s'. split; [|done].
  unfold Tx.set_slot, Tx.slot_ix in *; simpl. by rewrite list_lookup_insert_ne by done.
Qed.

Lemma tx_inv_free t o msgs i s : tx_inv t o msgs -> Tx.slots t !! i = Some s ->
  tx_inv (Tx.free_slot t i s) o msgs.
Proof.
  intros I Hs. apply tx_inv_set; [done | | done].
  by apply (Forall_lookup_1 _ _ _ _ (ti_bytes _ _ _ I) Hs).
Qed.

(** freeing a slot that does not hold [k] *)
Lemma retained_free_ne t i s k : Tx.slots t !! i = Some s -> Tx.seq s <> k ->
  retained t k -> retained (Tx.free_slot t i s) k.
Proof.
  intros Hs Hne Hk. apply retained_set_ne; [|done]. intros Ei.
  destruct Hk as (s' & Hs' & Hsq & _). rewrite Ei in Hs'. congruence.
Qed.

Lemma tx_new_inv w : 0 <= w <= 2 ^ 31 -> tx_inv (Tx.new w) 0 [].
Proof.
  intros Hw. assert (Hn : Tx.window_of w = next_power_of_two w).
  { unfold Tx.window_of. pose proof (pow2_ge1 _ (next_power_of_two_pow2 w)). lia. }
  assert (Hlen : Z.of_nat (Tx.window (Tx.new w)) = next_power_of_two w).
  { unfold Tx.window, Tx.new; simpl. rewrite length_fmap, length_seqZ, Hn.
    pose proof (pow2_ge1 _ (next_power_of_two_pow2 w)). lia. }
  constructor; rewrite ?Hlen; simpl; try done.
  - apply next_power_of_two_pow2.
  - apply next_power_of_two_le; lia.
  - by rewrite Hn.
  - pose proof (next_power_of_two_ge w). lia.
  - apply Forall_fmap, Forall_true. reflexivity.
  - apply Forall_fmap, Forall_true. intros i Hl. by destruct Hl.
Qed.

(** *** [send] *)

Lemma send_spec t o msgs p now : tx_inv t o msgs ->
  Z.of_nat (length msgs) < session_limit ->
  (length p <= MAX_RELIABLE_PAYLOAD)%nat ->
  let N := Z.of_nat (length msgs) in
  if decide (N < o + Z.of_nat (Tx.window t)) then
    exists t', Tx.send t N p now = Ret (t', Ok tt) /\ tx_inv t' o (msgs ++ [p]) /\
      (p <> [] -> now <> 0 -> retained t' N) /\ forall k, o <= k < N -> retained t k -> retained t' k
  else Tx.send t N p now = Ret (t, Err N).
Proof.
  intros I Hses Hp N. pose proof (ti_range _ _ _ I). unfold Tx.send, session_limit in *.
  rewrite (proj2 (Nat.leb_le _ _) Hp). simpl. rewrite (ti_oldest _ _ _ I).
  unfold wsub. rewrite wrap_id by (unfold uint; lia).
  case_decide as Hd.
  2:{ rewrite (proj2 (Z.leb_le _ (N - o))) by lia. done. }
  rewrite (proj2 (Z.leb_gt _ (N - o))) by lia.
  destruct (slot_ix_lookup t o msgs N I) as [s Hs]. rewrite (index_ok _ _ _ Hs). simpl.
  assert (Hfree : (0 <? Tx.len s)%nat && (Tx.seq s =? N) = false).
  { apply andb_false_iff. destruct (Nat.eq_dec (Tx.len s) 0%nat) as [->|Hl]; [by left | right].
    destruct (Forall_lookup_1 _ _ _ _ (ti_live _ _ _ I) Hs Hl) as (q & [? Hq] & _).
    apply lookup_lt_Some in Hq. apply Z.eqb_neq. lia. }
  rewrite Hfree. simpl.
  destruct (copy_at_0 (Tx.bytes s) p Hp) as (b & -> & Hb & Htk).
  { by apply (Forall_lookup_1 _ _ _ _ (ti_bytes _ _ _ I) Hs). }
  simpl. eexists. split; [reflexivity|]. split_and!.
  - assert (I' : tx_inv t o (msgs ++ [p])).
    { destruct I. constructor; rewrite ?length_app; simpl; try done; try (unfold session_limit in *; lia).
      eapply Forall_impl; [exact ti_live0|]. intros s' Hs' Hl. destruct (Hs' Hl) as (q & [? Hq] & ?).
      exists q. split; [|done]. split; [done|]. rewrite lookup_app_l; [done|]. by apply lookup_lt_Some in Hq. }
    apply tx_inv_set; simpl; [done..|]. intros _. exists p. split_and!; [|done..].
    split; [lia|]. rewrite lookup_app_r by lia. by replace (Z.to_nat N - length msgs)%nat with 0%nat by lia.
  - intros Hp0 Hnow. eexists. split; [by apply list_lookup_insert_eq, lookup_lt_is_Some_1|].
    simpl. destruct p; [done|]. simpl. lia.
  - intros k Hk. apply retained_set_ne. apply (slot_ix_inj t o msgs); [done | lia].
Qed.

(** *** [tick] *)

Definition emits (now rto : Z) (s : Tx.TxSlot) : list (Z * list Z) :=
  if Tx.overdue now rto s then [(Tx.seq s, take (Tx.len s) (Tx.bytes s))] else [].

Definition ticked (now rto : Z) (s : Tx.TxSlot) : Tx.TxSlot :=
  if Tx.overdue now rto s then Tx.resent now s else s.

Lemma tick_loop_spec now rto ss :
  Forall (fun s => (Tx.len s <= length (Tx.bytes s))%nat) ss ->
  Tx.tick_loop now rto ss = Ret (ticked now rto <$> ss, concat (emits now rto <$> ss)).
Proof.
  induction 1 as [|s ss Hs _ IH]; [done|]. cbn [Tx.tick_loop].
  rewrite !fmap_cons. cbn [concat]. unfold ticked at 1, emits at 1.
  destruct (Tx.overdue now rto s); rewrite ?(slice_to_ok _ _ Hs), IH; done.
Qed.

Lemma tx_len_fits t o msgs : tx_inv t o msgs ->
  Forall (fun s => (Tx.len s <= length (Tx.bytes s))%nat) (Tx.slots t).
Proof.
  intros I. apply Forall_lookup. intros i s Hs.
  rewrite (Forall_lookup_1 _ _ _ _ (ti_bytes _ _ _ I) Hs).
  destruct (Nat.eq_dec (Tx.len s) 0%nat); [lia|].
  by destruct (Forall_lookup_1 _ _ _ _ (ti_live _ _ _ I) Hs) as (p & _ & ? & _).
Qed.

Lemma tick_spec t o msgs now rto : tx_inv t o msgs ->
  exists t', Tx.tick t now rto = Ret (t', concat (emits now rto <$> Tx.slots t),
                                 length (concat (emits now rto <$> Tx.slots t))) /\
    tx_inv t' o msgs /\ (forall k, retained t k -> retained t' k) /\
    (forall k p, (k, p) ∈ concat (emits now rto <$> Tx.slots t) -> frame_of msgs k p).
Proof.
  intros I. unfold Tx.tick. rewrite (tick_loop_spec now rto _ (tx_len_fits _ _ _ I)). simpl.
  eexists. split; [reflexivity|].
  assert (Hsame : forall s, Tx.seq (ticked now rto s) = Tx.seq s /\
    Tx.len (ticked now rto s) = Tx.len s /\ Tx.bytes (ticked now rto s) = Tx.bytes s /\
    Tx.first_ns (ticked now rto s) = Tx.first_ns s).
  { intros s. unfold ticked. by destruct (Tx.overdue now rto s). }
  split_and!.
  - destruct I. constructor; unfold Tx.window; simpl; rewrite ?length_fmap; try done;
      apply Forall_fmap; [apply (Forall_impl _ _ _ ti_bytes0) | apply (Forall_impl _ _ _ ti_live0)];
      intros s Hs; unfold compose;
      destruct (Hsame s) as (E1 & E2 & E3 & _); rewrite ?E1, ?E2, ?E3; exact Hs.
  - intros k (s & Hs & Hr). exists (ticked now rto s). unfold Tx.slot_ix in *. simpl.
    rewrite list_lookup_fmap, Hs. split; [done|].
    by destruct (Hsame s) as (-> & -> & _ & ->).
  - intros k p Hin. apply elem_of_concat in Hin as (l & Hkp & Hl).
    apply list_elem_of_fmap in Hl as (s & -> & Hs). unfold emits in Hkp.
    destruct (Tx.overdue now rto s) eqn:Ho; [|by apply elem_of_nil in Hkp].
    apply list_elem_of_singleton in Hkp. injection Hkp as -> ->.
    apply list_elem_of_lookup in Hs as [i Hs].
    destruct (Forall_lookup_1 _ _ _ _ (ti_live _ _ _ I) Hs) as (q & Hq & _ & ->); [|done].
    intros Hl. unfold Tx.overdue in Ho. by rewrite Hl in Ho.
Qed.

(** *** [on_ack] *)

Lemma tx_inv_advance t o msgs s : tx_inv t o msgs ->
  o < Z.of_nat (length msgs) ->
  Tx.slots t !! Tx.slot_ix t o = Some s ->
  let t' := Tx.free_slot t (Tx.slot_ix t o) s in
  let t'' := {| Tx.slots := Tx.slots t'; Tx.mask := Tx.mask t'; Tx.oldest := wadd 32 (Tx.oldest t) 1 |} in
  tx_inv t'' (o + 1) msgs /\
  forall k, o < k < Z.of_nat (length msgs) -> retained t k -> retained t'' k.
Proof.
  intros I Ho Hs t' t''. assert (I' : tx_inv t' o msgs) by (by apply tx_inv_free).
  assert (E : wadd 32 (Tx.oldest t) 1 = o + 1).
  { rewrite (ti_oldest _ _ _ I). apply wrap_id. pose proof (ti_session _ _ _ I). pose proof (ti_range _ _ _ I).
    unfold session_limit, uint in *. lia. }
  split.
  - destruct I'. subst t''. rewrite E. constructor; simpl; try done.
    + lia.
    + change (Tx.window _) with (Tx.window t'). lia.
  - intros k Hk Hr. pose proof (ti_fits _ _ _ I).
    assert (Hr' : retained t' k).
    { apply retained_set_ne; [|done]. apply not_eq_sym, (slot_ix_inj t o msgs); [done | lia]. }
    done.
Qed.

Lemma ack_loop_spec fuel : forall t o msgs base now rtt, tx_inv t o msgs ->
  0 <= base <= Z.of_nat (length msgs) ->
  (0 < fuel)%nat -> (o <= base < o + Z.of_nat (Tx.window t) -> base - o < Z.of_nat fuel) ->
  exists t' rtt' o', Tx.ack_loop fuel t base now rtt = Ret (t', rtt') /\
    tx_inv t' o' msgs /\ o <= o' <= Z.max o base /\
    (forall k, o' <= k < Z.of_nat (length msgs) -> retained t k -> retained t' k) /\
    (o <= base < o + Z.of_nat (Tx.window t) -> o' = base) /\ Tx.window t' = Tx.window t.
Proof.
  induction fuel as [|fuel IH]; intros t o msgs base now rtt I Hb Hf Hd; [lia|]. cbn [Tx.ack_loop].
  rewrite (ti_oldest _ _ _ I), (window32_eq _ _ _ I).
  pose proof (ti_range _ _ _ I). pose proof (ti_session _ _ _ I) as Hs0.
  pose proof (ti_small _ _ _ I). unfold session_limit in Hs0.
  assert (Hdiff : wsub 32 base o = if base <? o then base - o + 2 ^ 32 else base - o).
  { rewrite <- (wrap_id 32 base), <- (wrap_id 32 o) at 1 by (unfold uint; lia).
    apply near_diff. lia. }
  destruct ((wsub 32 base o =? 0) || (Z.of_nat (Tx.window t) <=? wsub 32 base o)) eqn:Hstop.
  { exists t, rtt, o. split_and!; try done; try lia.
    intros ?. apply orb_true_iff in Hstop. rewrite Hdiff, Z.eqb_eq, Z.leb_le in Hstop.
    destruct (Z.ltb_spec base o); lia. }
  apply orb_false_iff in Hstop. rewrite Hdiff, Z.eqb_neq, Z.leb_gt in Hstop.
  assert (Hlt : o < base < o + Z.of_nat (Tx.window t)) by (destruct (Z.ltb_spec base o); lia).
  destruct (slot_ix_lookup t o msgs o I) as [s Hs]. rewrite (index_ok _ _ _ Hs). cbn [mbind exec_bind].
  destruct (tx_inv_advance t o msgs s I ltac:(lia) Hs) as [I' Hret].
  match goal with |- context [Tx.ack_loop fuel ?t'' base now ?r] =>
    destruct (IH t'' (o + 1) msgs base now r) as (t' & rtt' & o' & -> & I'' & Ho' & Hk & Hend & Hw) end.
  - exact I'.
  - done.
  - lia.
  - intros _. lia.
  - exists t', rtt', o'. assert (Hw' : Tx.window t' = Tx.window t).
    { rewrite Hw. unfold Tx.window, Tx.free_slot, Tx.set_slot; simpl. apply length_insert. }
    split_and!; try done; try lia.
    + intros k Hk' Hr. apply Hk; [done|]. apply Hret; [lia | done].
Qed.

(** the frames an acknowledgement names in its bitmap *)
Definition sacked (a : AckFrame) (k : Z) : Prop :=
  exists i, 0 <= i < SACK_BITS - 1 /\ Z.testbit (Ack.bitmap a) i = true /\
    k = wadd 32 (Ack.base_seq a) (1 + i).

Lemma sack_loop_spec a now ixs : forall t o msgs rtt, tx_inv t o msgs ->
  Forall (fun i => 0 <= i < SACK_BITS - 1) ixs ->
  exists t' rtt', Tx.sack_loop a now ixs t rtt = Ret (t', rtt') /\ tx_inv t' o msgs /\
    forall k, ~ sacked a k -> retained t k -> retained t' k.
Proof.
  induction ixs as [|i ixs IH]; intros t o msgs rtt I Hix; [simpl; eauto 6|].
  apply Forall_cons in Hix as [Hi Hix]. cbn [Tx.sack_loop].
  assert (Hstep : exists t1 r1, Tx.sack_step a now i t rtt = Ret (t1, r1) /\ tx_inv t1 o msgs /\
    forall k, ~ sacked a k -> retained t k -> retained t1 k).
  { unfold Tx.sack_step. rewrite land_bit by lia.
    destruct (Z.testbit (Ack.bitmap a) i) eqn:Hbit; [|by eauto 6].
    set (sq := wadd 32 (Ack.base_seq a) (1 + i)).
    destruct (wsub 32 sq (Tx.oldest t) <? Tx.window32 t); [|by eauto 6].
    destruct (slot_ix_lookup t o msgs sq I) as [s Hs]. rewrite (index_ok _ _ _ Hs).
    cbn [mbind exec_bind].
    destruct ((Tx.seq s =? sq) && (0 <? Tx.len s)%nat) eqn:Hc; [|by eauto 6].
    apply andb_true_iff in Hc as [Hsq%Z.eqb_eq _]. do 2 eexists. split; [reflexivity|].
    split; [by apply tx_inv_free|]. intros k Hk. apply retained_free_ne; [done|].
    rewrite Hsq. intros <-. apply Hk. exists i. done. }
  destruct Hstep as (t1 & r1 & -> & I1 & Hk1). cbn [mbind exec_bind].
  destruct (IH t1 o msgs r1 I1 Hix) as (t' & rtt' & -> & I' & Hk'). eauto 10.
Qed.

Lemma on_ack_spec t o msgs a now : tx_inv t o msgs ->
  0 <= Ack.base_seq a <= Z.of_nat (length msgs) ->
  exists t' r o', Tx.on_ack t a now = Ret (t', r) /\ tx_inv t' o' msgs /\
    o <= o' <= Z.max o (Ack.base_seq a) /\
    (forall k, o' <= k < Z.of_nat (length msgs) -> ~ sacked a k -> retained t k -> retained t' k) /\
    (o <= Ack.base_seq a < o + Z.of_nat (Tx.window t) -> o' = Ack.base_seq a).
Proof.
  intros I Hb. unfold Tx.on_ack.
  destruct (ack_loop_spec (S (Tx.window t)) t o msgs (Ack.base_seq a) now None I Hb)
    as (t1 & r1 & o1 & -> & I1 & Ho1 & Hk1 & Hend & _); [lia | lia|].
  cbn [mbind exec_bind].
  destruct (sack_loop_spec a now (seqZ 0 (SACK_BITS - 1)) t1 o1 msgs r1 I1) as (t2 & r2 & -> & I2 & Hk2).
  { apply Forall_forall. intros i. rewrite elem_of_seqZ. lia. }
  exists t2, r2, o1. split_and!; try done; try lia. intros k Hk Hs Hr. apply Hk2; [done|]. auto.
Qed.

(** ** The system invariant *)

Definition payload_at (msgs : list (list Z)) (k : Z) : list Z := default [] (msgs !! Z.to_nat k).

Lemma frame_of_payload msgs k p : frame_of msgs k p -> payload_at msgs k = p.
Proof. intros [_ H]. unfold payload_at. by rewrite H. Qed.

Lemma frame_of_at msgs k : 0 <= k < Z.of_nat (length msgs) -> frame_of msgs k (payload_at msgs k).
Proof.
  intros Hk. split; [lia|]. unfold payload_at.
  destruct (lookup_lt_is_Some_2 msgs (Z.to_nat k)) as [p ->]; [lia | done].
Qed.

Lemma frame_of_app msgs p k q : frame_of msgs k q -> frame_of (msgs ++ [p]) k q.
Proof. intros [? H]. split; [done|]. rewrite lookup_app_l; [done|]. by apply lookup_lt_Some in H. Qed.

Lemma payload_at_len msgs : Forall (fun p => (length p <= MAX_RELIABLE_PAYLOAD)%nat) msgs ->
  forall k, (length (payload_at msgs k) <= MAX_RELIABLE_PAYLOAD)%nat.
Proof.
  intros H k. unfold payload_at. destruct (msgs !! Z.to_nat k) as [p|] eqn:E; simpl; [|lia].
  by apply (Forall_lookup_1 _ _ _ _ H E).
Qed.

(** frames the sender keeps for retransmission: not empty, and sent by a clock that
    had started *)
Definition repeatable (s : sys) (k : Z) : Prop :=
  exists p now, sent s !! Z.to_nat k = Some p /\ stamps s !! Z.to_nat k = Some now /\ p <> [] /\ now <> 0.

Record sys_inv (s : sys) (o : Z) (sp : spec) : Prop := {
  si_tx : tx_inv (tx s) o (sent s);
  si_rx : rx_rep (payload_at (sent s)) (rx s) sp;
  si_len : Forall (fun p => (length p <= MAX_RELIABLE_PAYLOAD)%nat) (sent s);
  si_next : o <= RxSpec.s_next sp <= Z.of_nat (length (sent s));
  si_held k : k ∈ RxSpec.held sp -> k < Z.of_nat (length (sent s));
  si_delivered : delivered s =
    (fun k => (wrap 32 k, payload_at (sent s) k)) <$> seqZ 0 (RxSpec.s_next sp);
  si_net k p : (k, p) ∈ net s -> frame_of (sent s) k p;
  si_acks a : a ∈ acks s -> 0 <= Ack.base_seq a <= RxSpec.s_next sp /\
    forall k, sacked a k -> received sp k;
  si_stamps : length (stamps s) = length (sent s);
  si_no_loss k : o <= k < Z.of_nat (length (sent s)) -> repeatable s k -> received sp k \/ retained (tx s) k
}.

Lemma sys_init_inv w : 0 <= w <= 2 ^ 31 -> sys_inv (sys_init w) 0 RxSpec.init.
Proof.
  intros Hw. constructor; simpl; try done.
  - by apply tx_new_inv.
  - apply rx_new_rep.
  - intros k p H. by apply elem_of_nil in H.
  - intros a H. by apply elem_of_nil in H.
  - lia.
Qed.

Lemma payload_at_app msgs p k : 0 <= k < Z.of_nat (length msgs) ->
  payload_at (msgs ++ [p]) k = payload_at msgs k.
Proof. intros Hk. unfold payload_at. by rewrite lookup_app_l by lia. Qed.

Lemma rx_rep_app msgs p r sp : rx_rep (payload_at msgs) r sp ->
  (forall k, k ∈ RxSpec.held sp -> k < Z.of_nat (length msgs)) ->
  rx_rep (payload_at (msgs ++ [p])) r sp.
Proof.
  intros R Hh. destruct R. constructor; try done. intros i Hi.
  pose proof (Hh _ Hi). destruct (rr_frame0 i Hi) as (sl & ? & ? & E).
  exists sl. rewrite payload_at_app by lia. done.
Qed.

Lemma sys_send_inv s o sp p now t' : sys_inv s o sp ->
  Z.of_nat (length (sent s)) < session_limit ->
  Tx.send (tx s) (wrap 32 (Z.of_nat (length (sent s)))) p now = Ret (t', Ok tt) ->
  sys_inv {| tx := t'; rx := rx s; sent := sent s ++ [p]; stamps := stamps s ++ [now]; delivered := delivered s;
             net := (wrap 32 (Z.of_nat (length (sent s))), p) :: net s; acks := acks s |} o sp.
Proof.
  intros I Hses. rewrite wrap_id by (unfold session_limit, uint in *; lia). intros Hsend. destruct I.
  assert (Hlen : (length p <= MAX_RELIABLE_PAYLOAD)%nat).
  { unfold Tx.send in Hsend.
    destruct (length p <=? MAX_RELIABLE_PAYLOAD)%nat eqn:E; [by apply Nat.leb_le | discriminate]. }
  pose proof (send_spec _ _ _ p now si_tx0 Hses Hlen) as H. simpl in H.
  case_decide; [|rewrite H in Hsend; discriminate].
  destruct H as (t & Et & It & Hret & Hkeep). rewrite Et in Hsend. injection Hsend as <-.
  pose proof (rr_pos _ _ _ si_rx0).
  constructor; simpl; rewrite ?length_app; simpl; try done; try lia.
  - by apply rx_rep_app.
  - apply Forall_app. split; [done|]. by apply Forall_singleton.
  - intros k Hk%si_held0. lia.
  - rewrite si_delivered0. apply list_fmap_ext. intros i k Hk%lookup_seqZ. f_equal.
    rewrite payload_at_app; [done | lia].
  - intros k q [Heq|Hin]%elem_of_cons; [|by apply frame_of_app, si_net0].
    injection Heq as -> ->. split; [lia|].
    rewrite lookup_app_r by lia. by rewrite Nat2Z.id, Nat.sub_diag.
  - intros k Hk (q & u & Hq & Hu & Hq0 & Hu0). simpl in Hq, Hu.
    assert (o <= k < Z.of_nat (length (sent s)) + 1) by lia. clear Hk. pose proof (ti_range _ _ _ It).
    destruct (Z.eq_dec k (Z.of_nat (length (sent s)))) as [->|].
    + right. rewrite Nat2Z.id in *. rewrite lookup_app_r, Nat.sub_diag in Hq by lia.
      rewrite lookup_app_r, si_stamps0, Nat.sub_diag in Hu by lia.
      injection Hq as <-. injection Hu as <-. by apply Hret.
    + rewrite lookup_app_l in Hq by lia. rewrite lookup_app_l in Hu by lia.
      destruct (si_no_loss0 k) as [?|Hr]; [lia | by exists q, u | by left | right]. apply Hkeep; [lia | done].
Qed.

Lemma sys_recv_inv s o sp sq p r' res : sys_inv s o sp -> (sq, p) ∈ net s ->
  Rx.accept (rx s) sq p = Ret (r', res) ->
  sys_inv {| tx := tx s; rx := r'; sent := sent s; stamps := stamps s; delivered := delivered s;
             net := net s; acks := acks s |} o (RxSpec.accept sp sq).1.
Proof.
  intros I Hin Hacc. destruct I. destruct (si_net0 _ _ Hin) as [Hsq Hlk].
  pose proof (rr_pos _ _ _ si_rx0) as Hpos. pose proof (ti_session _ _ _ si_tx0) as Hses.
  pose proof (lookup_lt_Some _ _ _ Hlk). unfold session_limit in Hses.
  destruct (rx_accept_refines (payload_at (sent s)) (payload_at_len _ si_len0) (rx s) sp sq)
    as (r & Er & Rr); [done | unfold near; lia|].
  rewrite wrap_id in Er by (unfold uint; lia).
  rewrite (frame_of_payload _ _ p) in Er by done. rewrite Er in Hacc. injection Hacc as <- _.
  destruct (accept_received sp sq Hpos) as (Hn & Hrec & Hheld).
  constructor; simpl; rewrite ?Hn; try done.
  - intros k [->|Hk]%Hheld; [lia | by apply si_held0].
  - intros a Ha. destruct (si_acks0 a Ha) as [? Hs]. split; [done|]. intros k Hk. by apply Hrec, Hs.
  - intros k Hk Hp. destruct (si_no_loss0 k Hk Hp) as [?|?]; [left; by apply Hrec | by right].
Qed.

Lemma sys_drain_inv s o sp r' out : sys_inv s o sp -> Rx.drain (rx s) = Ret (r', out) ->
  sys_inv {| tx := tx s; rx := r'; sent := sent s; stamps := stamps s; delivered := delivered s ++ out;
             net := net s; acks := acks s |} o (RxSpec.drain sp).1.
Proof.
  intros I Hd. destruct I. pose proof (rr_pos _ _ _ si_rx0) as Hpos.
  destruct (rx_drain_spec (payload_at (sent s)) (payload_at_len _ si_len0) (rx s) sp si_rx0)
    as (r & Er & Rr). rewrite Er in Hd. injection Hd as <- <-.
  pose proof (drain_upto_seq (S (Z.to_nat SACK_BITS)) sp) as Hseq. unfold RxSpec.drain in *.
  destruct (RxSpec.drain_upto _ sp) as [sp' ks]. destruct Hseq as (Hle & -> & Hrec & Hheld).
  cbn [fst snd] in *. specialize (Hrec Hpos).
  assert (Hmax : RxSpec.s_next sp' <= Z.of_nat (length (sent s))).
  { destruct (Z.eq_dec (RxSpec.s_next sp') (RxSpec.s_next sp)) as [->|]; [lia|].
    assert (Hk : received sp (RxSpec.s_next sp' - 1)) by (apply Hrec; left; lia).
    destruct Hk as [?|Hk%si_held0]; lia. }
  constructor; simpl; try done; try lia.
  - intros k Hk%Hheld. by apply si_held0.
  - rewrite si_delivered0, <- fmap_app. f_equal.
    replace (RxSpec.s_next sp') with (RxSpec.s_next sp + (RxSpec.s_next sp' - RxSpec.s_next sp)) at 2 by lia.
    rewrite seqZ_app by lia. by rewrite Z.add_0_l.
  - intros a Ha. destruct (si_acks0 a Ha) as [? Hs]. split; [lia|]. intros k Hk. by apply Hrec, Hs.
  - intros k Hk Hp. destruct (si_no_loss0 k Hk Hp) as [?|?]; [left; by apply Hrec | by right].
Qed.

Lemma build_ack_sound r msgs sp rtt : rx_rep (payload_at msgs) r sp ->
  Z.of_nat (length msgs) <= session_limit -> RxSpec.s_next sp <= Z.of_nat (length msgs) ->
  let a := Rx.build_ack r rtt in
  Ack.base_seq a = RxSpec.s_next sp /\ (forall k, sacked a k -> received sp k).
Proof.
  intros R Hses Hn a. pose proof (rr_pos _ _ _ R). unfold session_limit in Hses.
  assert (Hb : Ack.base_seq a = RxSpec.s_next sp).
  { simpl. rewrite (rr_next _ _ _ R). apply wrap_id. unfold uint. lia. }
  split; [done|]. intros k (i & Hi & Hbit & ->). right. rewrite Hb.
  unfold SACK_BITS in Hi. unfold wadd. rewrite wrap_id by (unfold uint; lia).
  simpl in Hbit. rewrite Z.shiftr_spec, (rr_map _ _ _ R) in Hbit by lia.
  apply bool_decide_eq_true in Hbit.
  by replace (RxSpec.s_next sp + (1 + i)) with (RxSpec.s_next sp + (i + 1)) by lia.
Qed.

Lemma sys_tick_inv s o sp now rto t' out n : sys_inv s o sp ->
  Tx.tick (tx s) now rto = Ret (t', out, n) ->
  sys_inv {| tx := t'; rx := rx s; sent := sent s; stamps := stamps s; delivered := delivered s;
             net := out ++ net s; acks := acks s |} o sp.
Proof.
  intros I H. destruct (tick_spec _ _ _ now rto (si_tx _ _ _ I)) as (t1 & E & I1 & Hret & Hout).
  rewrite E in H. injection H as <- <- _. destruct I. constructor; simpl; try done.
  - intros k p [Hin|Hin]%elem_of_app; [by apply Hout | by apply si_net0].
  - intros k Hk Hp. destruct (si_no_loss0 k Hk Hp); [by left | right; by apply Hret].
Qed.

Lemma arrival_inv s s' o sp : sys_inv s o sp -> arrival s s' ->
  exists sp', sys_inv s' o sp' /\ sent s' = sent s.
Proof.
  intros I H. destruct H as [s sq p r' res Hin E | s r' out E].
  - exists (RxSpec.accept sp sq).1. split; [by apply (sys_recv_inv s o sp sq p r' res) | done].
  - exists (RxSpec.drain sp).1. split; [by apply (sys_drain_inv s o sp) | done].
Qed.

Lemma sys_ack_inv s o sp rtt : sys_inv s o sp ->
  sys_inv {| tx := tx s; rx := rx s; sent := sent s; stamps := stamps s; delivered := delivered s;
             net := net s; acks := Rx.build_ack (rx s) rtt :: acks s |} o sp.
Proof.
  intros I. pose proof (si_tx _ _ _ I) as It.
  destruct (build_ack_sound _ _ _ rtt (si_rx _ _ _ I) (ti_session _ _ _ It)
    (proj2 (si_next _ _ _ I))) as [Hb Hs].
  pose proof (rr_pos _ _ _ (si_rx _ _ _ I)). destruct I. constructor; simpl; try done.
  intros a [->|Ha]%elem_of_cons; [|by apply si_acks0]. rewrite Hb. split; [lia | done].
Qed.

Lemma sys_on_ack_inv s o sp a now t' r : sys_inv s o sp -> a ∈ acks s ->
  Tx.on_ack (tx s) a now = Ret (t', r) ->
  exists o', sys_inv {| tx := t'; rx := rx s; sent := sent s; stamps := stamps s; delivered := delivered s;
                        net := net s; acks := acks s |} o' sp.
Proof.
  intros I H H0. pose proof (si_acks _ _ _ I _ H) as [Hb Hs]. pose proof (si_next _ _ _ I) as Hn.
  destruct (on_ack_spec _ _ _ a now (si_tx _ _ _ I) ltac:(lia))
    as (t1 & r1 & o1 & E & I1 & Ho & Hret & _). rewrite E in H0. injection H0 as <- _.
  exists o1. destruct I. constructor; simpl; try done; [lia|].
  intros k Hk Hp. destruct (si_no_loss0 k ltac:(lia) Hp) as [?|Hr]; [by left|].
  destruct (decide (k < RxSpec.s_next sp)).
  + pose proof (ti_range _ _ _ I1). left. left. lia.
  + destruct (decide (k ∈ RxSpec.held sp)); [left; by right|]. right. apply Hret; [done| |done].
    intros [?|?]%Hs; [lia | done].
Qed.

Lemma sys_lose_inv s o sp net' acks' : sys_inv s o sp -> net' ⊆ net s -> acks' ⊆ acks s ->
  sys_inv {| tx := tx s; rx := rx s; sent := sent s; stamps := stamps s; delivered := delivered s;
             net := net'; acks := acks' |} o sp.
Proof. intros I Hn Ha. destruct I. constructor; simpl; try done; [intros k p Hk; by apply si_net0, Hn | intros a Hk; by apply si_acks0, Ha]. Qed.

Lemma sys_step_inv s s' o sp : sys_inv s o sp -> sys_step s s' -> in_session s' ->
  exists o' sp', sys_inv s' o' sp'.
Proof.
  unfold in_session. intros I Hstep Hses. destruct Hstep; simpl in Hses.
  - exists o, sp. rewrite length_app in Hses. simpl in Hses. apply (sys_send_inv s o sp p now); [done | lia | done].
  - exists o, sp. by apply (sys_tick_inv s o sp now rto t' out n).
  - destruct (arrival_inv _ _ _ _ I H) as (sp' & I' & _). eauto.
  - exists o, sp. by apply sys_ack_inv.
  - destruct (sys_on_ack_inv _ _ _ _ _ _ _ I H H0) as [o' I']. eauto.
  - exists o, sp. by apply sys_lose_inv.
Qed.

Lemma step_sends s s' : sys_step s s' -> in_session s' -> in_session s.
Proof.
  unfold in_session. intros Hst Hses. destruct Hst as [| | ? ? []| | |]; simpl in Hses |- *; try done.
  rewrite length_app in Hses. simpl in Hses. lia.
Qed.

Lemma sys_reachable_inv w s : 0 <= w <= 2 ^ 31 -> rtc sys_step (sys_init w) s -> in_session s ->
  exists o sp, sys_inv s o sp.
Proof.
  intros Hw. revert s. apply (rtc_ind_r (fun s => in_session s -> exists o sp, sys_inv s o sp) (sys_init w)).
  - eauto using sys_init_inv.
  - intros s1 s2 _ Hstep IH Hs. destruct (IH (step_sends _ _ Hstep Hs)) as (o & sp & I).
    exact (sys_step_inv _ _ _ _ I Hstep Hs).
Qed.

Lemma wrap_payloads msgs n : 0 <= n <= Z.of_nat (length msgs) -> Z.of_nat (length msgs) < 2 ^ 32 ->
  (fun k => (wrap 32 k, payload_at msgs k)) <$> seqZ 0 n =
    zip (seqZ 0 n) (take (Z.to_nat n) msgs).
Proof.
  intros Hn Hs. apply list_eq. intros i. rewrite list_lookup_fmap.
  destruct (decide (Z.of_nat i < n)) as [Hi|Hi].
  - rewrite lookup_seqZ_lt by lia. simpl. symmetry. apply lookup_zip_with_Some.
    destruct (lookup_lt_is_Some_2 msgs i ltac:(lia)) as [p Hp].
    exists (0 + Z.of_nat i), p. split_and!.
    + unfold payload_at. rewrite Z.add_0_l, Nat2Z.id, Hp, wrap_id; [done|]. unfold uint. lia.
    + by apply lookup_seqZ_lt.
    + rewrite lookup_take_lt by lia. done.
  - rewrite (lookup_ge_None_2 (seqZ 0 n)) by (rewrite length_seqZ; lia). simpl. symmetry.
    apply lookup_ge_None_2. rewrite length_zip_with, length_seqZ. lia.
Qed.

(** C36: Over a network that loses, duplicates, reorders and delays datagrams and
    acknowledgements arbitrarily, what the receiving application has been handed is at
    every moment a prefix of what the sending application sent: the frames numbered
    [0, 1, ..], in order, each once and unaltered, empty ones included.  This holds as
    long as fewer than [2^31] frames were sent, so that no sequence number comes round
    while a copy of its first use may still be delayed. *)
Theorem reliable_channel_prefix w s : 0 <= w <= 2 ^ 31 -> rtc sys_step (sys_init w) s -> in_session s ->
  exists n, delivered s = zip (seqZ 0 n) (take (Z.to_nat n) (sent s)) /\
    0 <= n <= Z.of_nat (length (sent s)) /\ Rx.next (rx s) = n.
Proof.
  intros Hw Hr Hses. destruct (sys_reachable_inv w s Hw Hr Hses) as (o & sp & I). unfold in_session, session_limit in Hses.
  pose proof (rr_pos _ _ _ (si_rx _ _ _ I)). pose proof (si_next _ _ _ I).
  exists (RxSpec.s_next sp). rewrite (si_delivered _ _ _ I), wrap_payloads by lia.
  split_and!; [done | lia.. |]. rewrite (rr_next _ _ _ (si_rx _ _ _ I)).
  apply wrap_id. unfold uint. lia.
Qed.

(** Beyond a session the receiver takes a copy of a frame sent [2^32] frames ago for
    the one it waits for. *)
Lemma old_frame_taken_for_new r k p : Rx.next r = wrap 32 (k + 2 ^ 32) -> Rx.map r = 0 ->
  length (Rx.slots r) = Z.to_nat SACK_BITS ->
  Forall (fun sl => length (Rx.bytes sl) = MAX_RELIABLE_PAYLOAD) (Rx.slots r) ->
  (length p <= MAX_RELIABLE_PAYLOAD)%nat ->
  exists r', Rx.accept r (wrap 32 k) p = Ret (r', InOrder).
Proof.
  intros Hn Hm Hl Hb Hp. unfold Rx.accept. rewrite (proj2 (Nat.leb_le _ _) Hp). cbn [assert mbind exec_bind].
  assert (E : wsub 32 (wrap 32 k) (Rx.next r) = 0).
  { rewrite Hn. unfold wsub, wrap. change (k + 2 ^ 32) with (k + 1 * 2 ^ 32). by rewrite Z.mod_add, Z.sub_diag by lia. }
  rewrite E, Hm, Z.land_0_l. destruct (lookup_lt_is_Some_2 (Rx.slots r) 0) as [sl Hsl]; [rewrite Hl; cbv; lia|].
  change (Z.to_nat 0) with 0%nat. rewrite (index_ok _ _ _ Hsl). cbn [mbind exec_bind].
  destruct (copy_at_0 (Rx.bytes sl) p Hp) as (b & Eb & _); [exact (Forall_lookup_1 _ _ _ _ Hb Hsl)|].
  cbn. rewrite Eb. by eexists.
Qed.

(** An empty frame, and one sent when the clock reads zero, is never sent again. *)
Lemma not_retransmitted now rto s : Tx.len s = 0%nat \/ Tx.first_ns s = 0 -> Tx.overdue now rto s = false.
Proof. unfold Tx.overdue. intros [-> | ->]; [done|]. by rewrite Z.eqb_refl, orb_true_r. Qed.

(** a retained, overdue frame is among what [tick] sends *)
Lemma tick_emits s o sp now rto k : sys_inv s o sp ->
  o <= k < Z.of_nat (length (sent s)) -> repeatable s k -> ~ received sp k ->
  Forall (fun sl => rto <= ssub now (Tx.last_ns sl)) (Tx.slots (tx s)) ->
  (k, payload_at (sent s) k) ∈ concat (emits now rto <$> Tx.slots (tx s)).
Proof.
  intros I Hk Hrp Hnr Hdue. destruct (si_no_loss _ _ _ I k Hk Hrp) as [?|(sl & Hsl & Hsq & Hlen & Hfirst)]; [done|].
  apply elem_of_concat. exists (emits now rto sl). split.
  - pose proof (Forall_lookup_1 _ _ _ _ Hdue Hsl) as Hd. simpl in Hd.
    destruct (Forall_lookup_1 _ _ _ _ (ti_live _ _ _ (si_tx _ _ _ I)) Hsl Hlen) as (p & Hp & _ & Htk).
    unfold emits, Tx.overdue. rewrite (proj2 (Nat.eqb_neq _ _) Hlen), (proj2 (Z.eqb_neq _ _) Hfirst).
    rewrite (proj2 (Z.leb_le _ _) Hd). simpl. rewrite Hsq in *.
    rewrite (frame_of_payload _ _ _ Hp), Htk. by apply list_elem_of_singleton.
  - apply list_elem_of_fmap. exists sl. split; [done|]. by apply list_elem_of_lookup_2 in Hsl.
Qed.

Lemma drain_upto_advances f sp : RxSpec.s_next sp ∈ RxSpec.held sp ->
  RxSpec.s_next sp < RxSpec.s_next (RxSpec.drain_upto (S f) sp).1.
Proof.
  intros Hin. cbn [RxSpec.drain_upto]. rewrite decide_True by done.
  set (sp1 := {| RxSpec.s_next := _; RxSpec.held := _ |}).
  pose proof (drain_upto_seq f sp1) as Hd.
  destruct (RxSpec.drain_upto _ sp1) as [sp2 ks]. destruct Hd as [Hd _]. simpl in *. lia.
Qed.

Lemma drain_advances sp : RxSpec.s_next sp ∈ RxSpec.held sp ->
  RxSpec.s_next sp < RxSpec.s_next (RxSpec.drain sp).1.
Proof. apply drain_upto_advances. Qed.

Lemma drain_progress s o sp : sys_inv s o sp -> RxSpec.s_next sp ∈ RxSpec.held sp ->
  exists s' sp', arrival s s' /\ sys_inv s' o sp' /\ sent s' = sent s /\ net s' = net s /\
    RxSpec.s_next sp < RxSpec.s_next sp' /\ forall k, received sp k -> received sp' k.
Proof.
  intros I Hin. pose proof (rr_pos _ _ _ (si_rx _ _ _ I)) as Hpos.
  destruct (rx_drain_spec _ (payload_at_len _ (si_len _ _ _ I)) _ _ (si_rx _ _ _ I)) as (r' & E & _).
  do 2 eexists. split; [exact (ArrDrain s r' _ E)|]. split; [exact (sys_drain_inv s o sp r' _ I E)|].
  split; [done|]. split; [done|]. split; [by apply drain_advances|].
  pose proof (drain_upto_seq (S (Z.to_nat SACK_BITS)) sp) as Hd. unfold RxSpec.drain.
  destruct (RxSpec.drain_upto _ sp) as [sp' ks]. destruct Hd as (_ & _ & Hk & _). intros k. by apply Hk.
Qed.

(** every frame the receiver still misses is on the wire *)
Definition on_wire (s : sys) (sp : spec) : Prop :=
  forall k, 0 <= k < Z.of_nat (length (sent s)) -> received sp k \/ (k, payload_at (sent s) k) ∈ net s.

(** the frame the receiver waits for gets there *)
Lemma awaited_arrives s o sp : sys_inv s o sp -> on_wire s sp ->
  RxSpec.s_next sp < Z.of_nat (length (sent s)) ->
  exists s' sp', rtc arrival s s' /\ sys_inv s' o sp' /\ sent s' = sent s /\ net s' = net s /\
    RxSpec.s_next sp' = RxSpec.s_next sp /\ RxSpec.s_next sp' ∈ RxSpec.held sp' /\
    forall k, received sp k -> received sp' k.
Proof.
  intros I Hw Hlt. pose proof (rr_pos _ _ _ (si_rx _ _ _ I)) as Hpos. set (k := RxSpec.s_next sp) in *.
  destruct (decide (k ∈ RxSpec.held sp)) as [Hin|Hin]; [by exists s, sp; split_and!; [apply rtc_refl|..]|].
  destruct (Hw k ltac:(lia)) as [[?|?]|Hnet]; [lia | done|].
  destruct (rx_accept_refines _ (payload_at_len _ (si_len _ _ _ I)) _ _ k (si_rx _ _ _ I))
    as (r2 & Ea & _); [unfold near; lia|].
  pose proof (ti_session _ _ _ (si_tx _ _ _ I)) as Hses. unfold session_limit in Hses.
  rewrite wrap_id in Ea by (unfold uint; lia).
  exists {| tx := tx s; rx := r2; sent := sent s; stamps := stamps s; delivered := delivered s; net := net s; acks := acks s |},
    (RxSpec.accept sp k).1.
  split; [exact (rtc_once _ _ (ArrRecv s k _ r2 _ Hnet Ea))|].
  split; [exact (sys_recv_inv s o sp k _ r2 _ I Hnet Ea)|]. split; [done|]. split; [done|].
  destruct (accept_received sp k Hpos) as (-> & Hrec & _). split; [done|]. split; [|done].
  unfold RxSpec.accept. fold k. rewrite Z.ltb_irrefl, decide_False by done.
  rewrite (proj2 (Z.leb_gt _ _)) by (unfold SACK_BITS; lia). simpl. set_solver.
Qed.

Lemma round_progress s o sp : sys_inv s o sp -> on_wire s sp ->
  RxSpec.s_next sp < Z.of_nat (length (sent s)) ->
  exists s' sp', rtc arrival s s' /\ sys_inv s' o sp' /\ sent s' = sent s /\ on_wire s' sp' /\
    RxSpec.s_next sp < RxSpec.s_next sp'.
Proof.
  intros I Hw Hlt. destruct (awaited_arrives s o sp I Hw Hlt) as (s1 & sp1 & Hr & I1 & Hs & Hn & Hk & Hin & Hrec).
  destruct (drain_progress _ _ _ I1 Hin) as (s2 & sp2 & Ha & I2 & Hs2 & Hn2 & Hp & Hrec2).
  exists s2, sp2. split_and!; [by eapply rtc_r | done | by rewrite Hs2 | | lia].
  intros j. rewrite Hs2, Hn2, Hs, Hn. intros Hj. destruct (Hw j Hj); [left; by apply Hrec2, Hrec | by right].
Qed.

Lemma arrivals_hand_over s o sp : sys_inv s o sp -> on_wire s sp ->
  exists s', rtc arrival s s' /\ sent s' = sent s /\ (delivered s').*2 = sent s.
Proof.
  remember (Z.to_nat (Z.of_nat (length (sent s)) - RxSpec.s_next sp)) as m eqn:Hm.
  revert s sp Hm. induction m as [m IH] using lt_wf_ind. intros s sp Hm I Hw.
  pose proof (si_next _ _ _ I). pose proof (rr_pos _ _ _ (si_rx _ _ _ I)).
  destruct (decide (RxSpec.s_next sp < Z.of_nat (length (sent s)))) as [Hlt|Hge].
  - destruct (round_progress s o sp I Hw Hlt) as (s1 & sp1 & Hr1 & I1 & Hs1 & Hw1 & Hp).
    pose proof (si_next _ _ _ I1). rewrite Hs1 in *.
    destruct (IH (Z.to_nat (Z.of_nat (length (sent s)) - RxSpec.s_next sp1)) ltac:(lia) s1 sp1)
      as (s' & Hr' & Hs' & Hd); [by rewrite Hs1 | done..|].
    rewrite Hs1 in *. exists s'. split_and!; [by etrans | done | done].
  - exists s. split_and!; [apply rtc_refl | done|]. rewrite (si_delivered _ _ _ I).
    pose proof (ti_session _ _ _ (si_tx _ _ _ I)) as Hses. unfold session_limit in Hses.
    rewrite wrap_payloads by lia. rewrite snd_zip.
    + apply take_ge. lia.
    + rewrite length_take, length_seqZ. lia.
Qed.

Lemma all_repeatable s k : length (stamps s) = length (sent s) ->
  Forall (fun p => p <> []) (sent s) -> Forall (fun t => t <> 0) (stamps s) ->
  0 <= k < Z.of_nat (length (sent s)) -> repeatable s k.
Proof.
  intros Hl Hp Ht Hk. destruct (lookup_lt_is_Some_2 (sent s) (Z.to_nat k)) as [p Ep]; [lia|].
  destruct (lookup_lt_is_Some_2 (stamps s) (Z.to_nat k)) as [u Eu]; [lia|].
  exists p, u. split_and!; try done; [exact (Forall_lookup_1 _ _ _ _ Hp Ep) | exact (Forall_lookup_1 _ _ _ _ Ht Eu)].
Qed.

(** C37: Whatever the network lost, the sender's own retransmission brings it back:
    from every reachable state in which everything on the wire is lost, one tick at a
    time when the retained frames are overdue puts frames on the wire whose arrival
    alone, without a further send, tick or acknowledgement, hands the receiving
    application everything that was sent.  The frames must be non-empty and sent by a
    clock that does not read zero, as others are never sent again
    ([not_retransmitted]), and fewer than [2^31]. *)
Theorem reliable_channel_recovers w s now rto : 0 <= w <= 2 ^ 31 -> rtc sys_step (sys_init w) s -> in_session s ->
  Forall (fun p => p <> []) (sent s) -> Forall (fun t => t <> 0) (stamps s) ->
  Forall (fun sl => rto <= ssub now (Tx.last_ns sl)) (Tx.slots (tx s)) ->
  exists t' out n s', Tx.tick (tx s) now rto = Ret (t', out, n) /\
    rtc arrival {| tx := t'; rx := rx s; sent := sent s; stamps := stamps s; delivered := delivered s;
                   net := out; acks := [] |} s' /\
    (delivered s').*2 = sent s.
Proof.
  intros Hw Hr Hses Hp Ht Hdue. destruct (sys_reachable_inv w s Hw Hr Hses) as (o & sp & I).
  pose proof (rr_pos _ _ _ (si_rx _ _ _ I)). pose proof (si_next _ _ _ I).
  destruct (tick_spec _ _ _ now rto (si_tx _ _ _ I)) as (t' & E & _).
  set (out := concat (emits now rto <$> Tx.slots (tx s))) in *.
  pose proof (sys_lose_inv _ _ _ out [] (sys_tick_inv s o sp now rto _ _ _ I E)) as I1. cbn in I1.
  destruct (arrivals_hand_over _ o sp (I1 ltac:(set_solver) ltac:(set_solver))) as (s' & Ha & _ & Hd).
  - intros k Hk. cbn in Hk |- *. destruct (decide (k < RxSpec.s_next sp)); [left; left; lia|].
    destruct (decide (k ∈ RxSpec.held sp)); [left; by right|]. right.
    apply (tick_emits s o sp); [done | lia | by apply all_repeatable; [apply I|..] | | done].
    intros [?|?]; [lia | done].
  - exists t', out, (length out), s'. split; [exact E|]. by split.
Qed.

(** The sender cannot digest an acknowledgement of its whole window: when
    all [w] retained frames are acknowledged by one cumulative ack, nothing is
    freed, no RTT is reported, and the next frame is refused. *)
Theorem reliable_full_window_ack_stalls t o msgs a now p : tx_inv t o msgs ->
  Z.of_nat (length msgs) = o + Z.of_nat (Tx.window t) ->
  Ack.base_seq a = Z.of_nat (length msgs) -> Ack.bitmap a = 0 ->
  (length p <= MAX_RELIABLE_PAYLOAD)%nat ->
  Tx.on_ack t a now = Ret (t, None) /\
  Tx.send t (Z.of_nat (length msgs)) p now = Ret (t, Err (Z.of_nat (length msgs))).
Proof.
  intros I Hfull Hb Hm Hp. pose proof (ti_session _ _ _ I) as Hses. pose proof (ti_range _ _ _ I).
  unfold session_limit in Hses.
  assert (Hd : wsub 32 (Z.of_nat (length msgs)) (Tx.oldest t) = Z.of_nat (Tx.window t)).
  { rewrite (ti_oldest _ _ _ I). unfold wsub. rewrite Hfull. apply eq_trans with (wrap 32 (Z.of_nat (Tx.window t))).
    - f_equal. lia.
    - exact (window32_eq _ _ _ I). }
  split.
  - unfold Tx.on_ack. cbn [Tx.ack_loop]. rewrite Hb, Hd, (window32_eq _ _ _ I), Z.leb_refl, orb_true_r.
    cbn [mbind exec_bind]. destruct a as [ab am ar]. simpl in Hm. subst am.
    set (ixs := seqZ 0 (SACK_BITS - 1)).
    assert (Hpos : Forall (fun i => 0 <= i) ixs) by (apply Forall_forall; intros i; subst ixs; rewrite elem_of_seqZ; lia).
    induction ixs as [|i ixs IH]; [done|]. apply Forall_cons in Hpos as [Hi Hpos].
    cbn [Tx.sack_loop]. unfold Tx.sack_step. rewrite land_bit by done. cbn [Ack.bitmap].
    rewrite Z.testbit_0_l. cbn [mbind exec_bind]. by apply IH.
  - unfold Tx.send. rewrite (proj2 (Nat.leb_le _ _) Hp). cbn [assert mbind exec_bind].
    by rewrite Hd, Z.leb_refl.
Qed.

(** ** Concrete runs *)

Definition get {A} (d : A) (m : exec A) : A := match m with Ret a => a | _ => d end.

(** a frame sent and lost, a second one delivered twice while the first is missing *)
Definition demo_tx : ReliableTx := (get (Tx.new 4, Ok tt) (Tx.send (Tx.new 4) 0 [7] 5)).1.
Definition demo_tx' : ReliableTx := (get (Tx.new 4, Ok tt) (Tx.send demo_tx 1 [8] 6)).1.
Definition demo_rx : ReliableRx := (get (Rx.new, InOrder) (Rx.accept Rx.new 1 [8])).1.
Definition demo : sys :=
  {| tx := demo_tx'; rx := demo_rx; sent := [[7]; [8]]; stamps := [5; 6]; delivered := [];
     net := [(wrap 32 (Z.of_nat 1), [8])]; acks := [] |}.

Lemma demo_reach : rtc sys_step (sys_init 4) demo.
Proof.
  eapply rtc_l; [apply (StepSend (sys_init 4) [7] 5 demo_tx); vm_compute; reflexivity|]. simpl.
  eapply rtc_l; [apply (StepLose _ [] []); set_solver|]. simpl.
  eapply rtc_l; [eapply (StepSend _ [8] 6 demo_tx'); vm_compute; reflexivity|]. simpl.
  eapply rtc_l.
  { apply StepArrive. eapply (ArrRecv _ (wrap 32 (Z.of_nat 1)) [8] demo_rx Buffered); [simpl; set_solver | vm_compute; reflexivity]. }
  simpl. eapply rtc_l; [|apply rtc_refl]. apply StepArrive.
  exact (ArrRecv demo (wrap 32 (Z.of_nat 1)) [8] demo_rx Duplicate ltac:(apply list_elem_of_singleton; reflexivity) eq_refl).
Qed.

Lemma reliable_rx_ordered_witness :
  exists r' outs, rx_run (fun k => [k; 7])
    [OfferFrame 1; OfferFrame 0; OfferFrame 1; DrainAll; OfferFrame 40; DrainAll] Rx.new
      = Ret (r', outs) /\ concat (delivered_of <$> outs) = [(0, [0; 7]); (1, [1; 7])].
Proof.
  destruct (reliable_rx_ordered (fun k => [k; 7]) ltac:(intros; simpl; unfold MAX_RELIABLE_PAYLOAD; lia)
    [OfferFrame 1; OfferFrame 0; OfferFrame 1; DrainAll; OfferFrame 40; DrainAll])
    as (r' & outs & E & _ & Hd & _).
  - cbn [all_near]. repeat split; vm_compute; discriminate || reflexivity.
  - exists r', outs. split; [exact E|]. rewrite Hd. vm_compute. reflexivity.
Defined.

Lemma reliable_channel_prefix_witness :
  exists n, delivered demo = zip (seqZ 0 n) (take (Z.to_nat n) (sent demo)) /\
    0 <= n <= Z.of_nat (length (sent demo)) /\ Rx.next (rx demo) = n.
Proof. apply (reliable_channel_prefix 4 demo); [lia | apply demo_reach | vm_compute; discriminate]. Defined.

Lemma reliable_channel_recovers_witness :
  exists t' out n s', Tx.tick (tx demo) 100 50 = Ret (t', out, n) /\
    rtc arrival {| tx := t'; rx := rx demo; sent := sent demo; stamps := stamps demo; delivered := delivered demo;
                   net := out; acks := [] |} s' /\
    (delivered s').*2 = [[7]; [8]].
Proof.
  apply (reliable_channel_recovers 4 demo 100 50); [lia | apply demo_reach | vm_compute; discriminate | | |].
  - repeat constructor; discriminate.
  - repeat constructor; discriminate.
  - vm_compute. repeat constructor; discriminate.
Defined.

Lemma demo_tx1_inv :
  tx_inv (get (Tx.new 1, Ok tt) (Tx.send (Tx.new 1) 0 [7] 5)).1 0 [[7]].
Proof.
  pose proof (send_spec (Tx.new 1) 0 [] [7] 5 (tx_new_inv 1 ltac:(lia)) ltac:(done)
    ltac:(unfold MAX_RELIABLE_PAYLOAD; simpl; lia)) as H.
  cbv zeta in H. rewrite decide_True in H by (vm_compute; reflexivity).
  destruct H as (t' & E & I & _). simpl length in E. change (Z.of_nat 0) with 0 in E.
  rewrite E. exact I.
Qed.

Lemma reliable_full_window_ack_stalls_witness :
  let t := (get (Tx.new 1, Ok tt) (Tx.send (Tx.new 1) 0 [7] 5)).1 in
  let a := {| Ack.base_seq := 1; Ack.bitmap := 0; Ack.rtt_sample_ns := 0 |} in
  Tx.on_ack t a 9 = Ret (t, None) /\ Tx.send t 1 [8] 9 = Ret (t, Err 1).
Proof.
  intros t a. apply (reliable_full_window_ack_stalls t 0 [[7]] a 9 [8] demo_tx1_inv);
    [vm_compute; reflexivity | reflexivity | reflexivity | unfold MAX_RELIABLE_PAYLOAD; simpl; lia].
Defined.
