(* ===== verification/Backpressure.v ===== *)
(** * Bandwidth admission: [tpt-t-link/src/backpressure.rs]

    The congestion estimator and token bucket.  The network thread is the only
    writer, so its updates are a state transformer over the atomics' contents. *)

From S2P Require Import Prelude.

Definition TOKEN_SCALE : Z := 2 ^ 16.

Inductive Congestion := Normal | Elevated | High | Critical.

#[global] Instance Congestion_eq_dec : EqDecision Congestion.
Proof. solve_decision. Defined.

Module Congestion.

Definition bitrate_fraction_bp (c : Congestion) : Z :=
  match c with Normal => 10000 | Elevated => 7000 | High => 4500 | Critical => 2500 end.

Definition as_u8 (c : Congestion) : Z :=
  match c with Normal => 0 | Elevated => 1 | High => 2 | Critical => 3 end.

Definition from_u8 (v : Z) : option Congestion :=
  if v =? 0 then Some Normal else if v =? 1 then Some Elevated
  else if v =? 2 then Some High else if v =? 3 then Some Critical else None.

End Congestion.

Module Bp.

Record Backpressure := {
  capacity_bps : Z; tokens : Z; last_refill_ns : Z; queue_depth : Z; peak_queue_depth : Z;
  blocked_sends : Z; blocked_window : Z; window_start_ns : Z; dropped_frames : Z;
  rtt_ewma_ns : Z
}.

Definition new (cap : Z) : Backpressure :=
  {| capacity_bps := Z.max cap 1; tokens := 0; last_refill_ns := 0; queue_depth := 0;
     peak_queue_depth := 0; blocked_sends := 0; blocked_window := 0; window_start_ns := 0;
     dropped_frames := 0; rtt_ewma_ns := 0 |}.

(** field updates ([store]) *)
Definition store_capacity (b : Backpressure) (x : Z) : Backpressure :=
  {| capacity_bps := x; tokens := tokens b; last_refill_ns := last_refill_ns b;
     queue_depth := queue_depth b; peak_queue_depth := peak_queue_depth b;
     blocked_sends := blocked_sends b; blocked_window := blocked_window b;
     window_start_ns := window_start_ns b; dropped_frames := dropped_frames b;
     rtt_ewma_ns := rtt_ewma_ns b |}.
Definition store_bucket (b : Backpressure) (t last : Z) : Backpressure :=
  {| capacity_bps := capacity_bps b; tokens := t; last_refill_ns := last;
     queue_depth := queue_depth b; peak_queue_depth := peak_queue_depth b;
     blocked_sends := blocked_sends b; blocked_window := blocked_window b;
     window_start_ns := window_start_ns b; dropped_frames := dropped_frames b;
     rtt_ewma_ns := rtt_ewma_ns b |}.
Definition store_depth (b : Backpressure) (d peak : Z) : Backpressure :=
  {| capacity_bps := capacity_bps b; tokens := tokens b; last_refill_ns := last_refill_ns b;
     queue_depth := d; peak_queue_depth := peak;
     blocked_sends := blocked_sends b; blocked_window := blocked_window b;
     window_start_ns := window_start_ns b; dropped_frames := dropped_frames b;
     rtt_ewma_ns := rtt_ewma_ns b |}.
Definition store_blocked (b : Backpressure) (total window start : Z) : Backpressure :=
  {| capacity_bps := capacity_bps b; tokens := tokens b; last_refill_ns := last_refill_ns b;
     queue_depth := queue_depth b; peak_queue_depth := peak_queue_depth b;
     blocked_sends := total; blocked_window := window; window_start_ns := start;
     dropped_frames := dropped_frames b; rtt_ewma_ns := rtt_ewma_ns b |}.
Definition store_dropped (b : Backpressure) (n : Z) : Backpressure :=
  {| capacity_bps := capacity_bps b; tokens := tokens b; last_refill_ns := last_refill_ns b;
     queue_depth := queue_depth b; peak_queue_depth := peak_queue_depth b;
     blocked_sends := blocked_sends b; blocked_window := blocked_window b;
     window_start_ns := window_start_ns b; dropped_frames := n; rtt_ewma_ns := rtt_ewma_ns b |}.
Definition store_rtt (b : Backpressure) (n : Z) : Backpressure :=
  {| capacity_bps := capacity_bps b; tokens := tokens b; last_refill_ns := last_refill_ns b;
     queue_depth := queue_depth b; peak_queue_depth := peak_queue_depth b;
     blocked_sends := blocked_sends b; blocked_window := blocked_window b;
     window_start_ns := window_start_ns b; dropped_frames := dropped_frames b;
     rtt_ewma_ns := n |}.

Definition set_capacity_bps (b : Backpressure) (bps : Z) : Backpressure :=
  store_capacity b (Z.max bps 1).

Definition note_rtt_ns (b : Backpressure) (sample_ns : Z) : Backpressure :=
  let old := rtt_ewma_ns b in
  store_rtt b (if old =? 0 then sample_ns
               else wadd 64 (wsub 64 old (old / 4)) (sample_ns / 4)).

Definition set_queue_depth (b : Backpressure) (depth : Z) : Backpressure :=
  store_depth b depth (Z.max (peak_queue_depth b) depth).

Definition note_send_blocked (b : Backpressure) (now_ns : Z) : Backpressure :=
  let start := window_start_ns b in
  let total := wadd 64 (blocked_sends b) 1 in
  if (start =? 0) || (100000000 <? ssub now_ns start) then
    store_blocked b total 1 (Z.max now_ns 1)
  else store_blocked b total (wadd 64 (blocked_window b) 1) start.

Definition note_drop (b : Backpressure) : Backpressure :=
  store_dropped b (wadd 64 (dropped_frames b) 1).

Definition gained (cap dt : Z) : Z := smul 64 (smul 64 cap dt / 8000000000) TOKEN_SCALE.
Definition burst (cap : Z) : Z := Z.max (wmul 64 (cap / 8) TOKEN_SCALE) TOKEN_SCALE.

Definition refill (b : Backpressure) (now_ns : Z) : Backpressure :=
  let last := last_refill_ns b in
  if now_ns <=? last then b
  else
    let g := gained (capacity_bps b) (now_ns - last) in
    let t := if 0 <? g
             then Z.min (wadd 64 (tokens b) g) (burst (capacity_bps b)) else tokens b in
    store_bucket b t now_ns.

Definition admit_bytes (b : Backpressure) (n now_ns : Z) : Backpressure * bool :=
  let b := refill b now_ns in
  let want := smul 64 n TOKEN_SCALE in
  if want <=? tokens b
  then (store_bucket b (tokens b - want) (last_refill_ns b), true)
  else (note_drop b, false).

Definition available_bytes (b : Backpressure) : Z := tokens b / TOKEN_SCALE.

Definition congestion (b : Backpressure) : Congestion :=
  let depth := queue_depth b in
  let blocked := Z.min (blocked_window b) 64 in
  let score := sadd 64 (smul 64 depth 2) blocked in
  if score =? 0 then Normal
  else if (1 <=? score) && (score <=? 7) then Elevated
  else if (8 <=? score) && (score <=? 39) then High
  else Critical.

Definition suggested_bitrate_bps (b : Backpressure) : Z :=
  wmul 64 (capacity_bps b) (Congestion.bitrate_fraction_bp (congestion b)) / 10000.

End Bp.
Import Bp.

(** ** Runs of the admission interface *)

Inductive bp_op :=
| OpAdmit (n now : Z) | OpRefill (now : Z) | OpBlocked (now : Z) | OpDepth (d : Z)
| OpRtt (ns : Z) | OpDrop.

(** the bytes admitted by one call *)
Definition bp_step (b : Backpressure) (op : bp_op) : Backpressure * Z :=
  match op with
  | OpAdmit n now => let '(b, ok) := admit_bytes b n now in (b, if ok then n else 0)
  | OpRefill now => (refill b now, 0)
  | OpBlocked now => (note_send_blocked b now, 0)
  | OpDepth d => (set_queue_depth b d, 0)
  | OpRtt ns => (note_rtt_ns b ns, 0)
  | OpDrop => (note_drop b, 0)
  end.

Fixpoint bp_run (b : Backpressure) (ops : list bp_op) : Backpressure * Z :=
  match ops with
  | [] => (b, 0)
  | op :: ops =>
      let '(b, n) := bp_step b op in
      let '(b, m) := bp_run b ops in (b, n + m)
  end.

Definition op_ok (op : bp_op) : Prop :=
  match op with
  | OpAdmit n now => 0 <= n < 2 ^ 40 /\ uint 64 now
  | OpRefill now => uint 64 now
  | _ => True
  end.

(** ** Lemmas *)

Definition bucket_inv (b : Backpressure) : Prop :=
  1 <= capacity_bps b < 2 ^ 50 /\ 0 <= tokens b <= burst (capacity_bps b) /\ 0 <= last_refill_ns b.

Lemma burst_bounds cap : 1 <= cap < 2 ^ 50 ->
  TOKEN_SCALE <= burst cap < 2 ^ 63 + 1 /\ burst cap = Z.max (cap / 8 * TOKEN_SCALE) TOKEN_SCALE.
Proof.
  intros Hc. assert (0 <= cap / 8 < 2 ^ 47) by (split; [apply Z.div_pos; lia | apply Z.div_lt_upper_bound; lia]).
  unfold burst, wmul, TOKEN_SCALE. rewrite wrap_id by (unfold uint; lia). lia.
Qed.

Lemma gained_bounds cap dt : 1 <= cap -> 0 <= dt ->
  0 <= gained cap dt < 2 ^ 48 /\ 8000000000 * gained cap dt <= cap * dt * TOKEN_SCALE.
Proof.
  intros Hc Hd. unfold gained, smul, umax, TOKEN_SCALE.
  set (m := Z.min (2 ^ 64 - 1) (cap * dt)).
  assert (Hm : 0 <= m <= 2 ^ 64 - 1 /\ m <= cap * dt) by (subst m; nia).
  assert (Hq : 0 <= m / 8000000000 <= 2305843010) by
    (split; [apply Z.div_pos; lia | apply Z.div_le_upper_bound; lia]).
  pose proof (Z.mul_div_le m 8000000000 ltac:(lia)). lia.
Qed.

Lemma refill_inv b now : bucket_inv b ->
  bucket_inv (refill b now) /\ capacity_bps (refill b now) = capacity_bps b /\
  last_refill_ns (refill b now) = Z.max (last_refill_ns b) now /\
  8000000000 * (tokens (refill b now) - tokens b) <=
    capacity_bps b * (last_refill_ns (refill b now) - last_refill_ns b) * TOKEN_SCALE.
Proof.
  intros (Hc & Ht & Hl). destruct (burst_bounds _ Hc) as [Hb _]. unfold refill.
  destruct (Z.leb_spec now (last_refill_ns b)) as [Hn|Hn].
  { split_and!; done || lia. }
  destruct (gained_bounds (capacity_bps b) (now - last_refill_ns b)) as [Hg Hgr]; [lia..|].
  set (g := gained _ _) in *. unfold bucket_inv, store_bucket; simpl.
  unfold TOKEN_SCALE in *.
  destruct (Z.ltb_spec 0 g); [|split_and!; lia].
  unfold wadd. rewrite wrap_id by (unfold uint; lia). split_and!; lia.
Qed.

Lemma admit_bytes_inv b n now : bucket_inv b -> 0 <= n < 2 ^ 40 ->
  let '(b', ok) := admit_bytes b n now in
  bucket_inv b' /\ capacity_bps b' = capacity_bps b /\
  last_refill_ns b' = Z.max (last_refill_ns b) now /\
  8000000000 * (tokens b' - tokens b + (if ok then n else 0) * TOKEN_SCALE) <=
    capacity_bps b * (last_refill_ns b' - last_refill_ns b) * TOKEN_SCALE.
Proof.
  intros I Hn. destruct (refill_inv b now I) as (I' & Hc & Hl & Hr). unfold admit_bytes.
  set (b1 := refill b now) in *.
  assert (Hw : smul 64 n TOKEN_SCALE = n * TOKEN_SCALE) by (unfold smul, umax, TOKEN_SCALE; lia).
  rewrite Hw. destruct I' as (Hc' & Ht' & Hl').
  destruct (Z.leb_spec (n * TOKEN_SCALE) (tokens b1)); unfold bucket_inv; simpl;
    split_and!; unfold TOKEN_SCALE in *; try lia.
Qed.

Lemma bp_step_inv b op : bucket_inv b -> op_ok op ->
  let '(b', n) := bp_step b op in
  bucket_inv b' /\ capacity_bps b' = capacity_bps b /\
  last_refill_ns b <= last_refill_ns b' /\ 0 <= n /\
  8000000000 * (tokens b' - tokens b + n * TOKEN_SCALE) <=
    capacity_bps b * (last_refill_ns b' - last_refill_ns b) * TOKEN_SCALE.
Proof.
  intros I Hop. destruct op as [n now|now|now|d|ns|]; simpl in *.
  - destruct Hop as [Hn _]. pose proof (admit_bytes_inv b n now I Hn) as H.
    destruct (admit_bytes b n now) as [b' ok]. destruct H as (? & ? & ? & ?). destruct ok; split_and!; done || lia.
  - destruct (refill_inv b now I) as (? & ? & ? & ?). split_and!; done || lia.
  - unfold note_send_blocked. case_if; split_and!; done || (simpl; lia).
  - split_and!; done || (simpl; lia).
  - split_and!; done || (simpl; lia).
  - split_and!; done || (simpl; lia).
Qed.

Lemma bp_run_inv ops : forall b, bucket_inv b -> Forall op_ok ops ->
  let '(b', n) := bp_run b ops in
  bucket_inv b' /\ last_refill_ns b <= last_refill_ns b' /\
  8000000000 * (tokens b' - tokens b + n * TOKEN_SCALE) <=
    capacity_bps b * (last_refill_ns b' - last_refill_ns b) * TOKEN_SCALE.
Proof.
  induction ops as [|op ops IH]; intros b I Hok; simpl; [split_and!; done || lia|].
  apply Forall_cons in Hok as [Hop Hok]. pose proof (bp_step_inv b op I Hop) as H1.
  destruct (bp_step b op) as [b1 n1]. destruct H1 as (I1 & Hc1 & Hl1 & _ & Hr1).
  specialize (IH b1 I1 Hok). destruct (bp_run b1 ops) as [b2 n2]. destruct IH as (I2 & Hl2 & Hr2).
  rewrite Hc1 in Hr2. unfold TOKEN_SCALE in *. split_and!; [done | lia | nia].
Qed.

(** ** Theorems *)

(** C38: The admission bucket enforces the link rate: over any run of admissions,
    refills and congestion notes, the bytes admitted are at most capacity times
    elapsed time ([cap/8] bytes per second up to the latest timestamp seen), and
    the credit left never exceeds the burst allowance of one second of capacity
    (at least one byte). *)
Theorem admission_rate_bound cap ops : cap < 2 ^ 50 -> Forall op_ok ops ->
  let '(b, admitted) := bp_run (new cap) ops in
  8000000000 * admitted <= Z.max cap 1 * last_refill_ns b /\
  0 <= tokens b <= Z.max (Z.max cap 1 / 8 * TOKEN_SCALE) TOKEN_SCALE.
Proof.
  intros Hc Hok. assert (I : bucket_inv (new cap)).
  { unfold bucket_inv, new; simpl. destruct (burst_bounds (Z.max cap 1)); [lia|].
    unfold TOKEN_SCALE in *. lia. }
  assert (Hcap : forall ops b, capacity_bps (bp_run b ops).1 = capacity_bps b).
  { clear. induction ops as [|op ops IH]; intros b; [done|]. simpl.
    assert (H1 : capacity_bps (bp_step b op).1 = capacity_bps b).
    { destruct op; simpl; unfold admit_bytes, refill, note_send_blocked; repeat case_if; done. }
    destruct (bp_step b op) as [b1 n]. specialize (IH b1).
    destruct (bp_run b1 ops). simpl in *. congruence. }
  pose proof (bp_run_inv ops _ I Hok) as H. specialize (Hcap ops (new cap)).
  destruct (bp_run (new cap) ops) as [b n]. simpl in Hcap, H.
  destruct H as ((Hcb & Ht & _) & _ & Hr). destruct (burst_bounds _ Hcb) as [_ Hb].
  rewrite Hb, Hcap in Ht. unfold TOKEN_SCALE in *. lia.
Qed.

Lemma admission_rate_bound_witness :
  let '(b, admitted) := bp_run (new 8000000)
    [OpAdmit 500 1000000; OpAdmit 600 1100000; OpBlocked 1200000; OpAdmit 600 2000000] in
  admitted = 1700 /\ 8000000000 * admitted <= Z.max 8000000 1 * last_refill_ns b.
Proof.
  pose proof (admission_rate_bound 8000000
    [OpAdmit 500 1000000; OpAdmit 600 1100000; OpBlocked 1200000; OpAdmit 600 2000000]
    ltac:(lia) ltac:(repeat constructor; vm_compute; congruence)) as H.
  destruct (bp_run (new 8000000) _) as [b n] eqn:E. split; [|apply H].
  vm_compute in E. injection E as _ <-. reflexivity.
Defined.

(** Credit that accrues in steps of less than one byte is lost: however long
    they last, polls closer together than one byte time leave the bucket empty
    and every non-empty packet is refused, although [TOKEN_SCALE] is meant to
    accumulate sub-byte refills. *)
Theorem frequent_refill_starves cap (gap : Z) (k : nat) : 1 <= cap < 2 ^ 50 ->
  0 < gap -> cap * gap < 8000000000 -> Z.of_nat k * gap < 2 ^ 64 ->
  let polls := (fun i => OpAdmit 1 (i * gap)) <$> seqZ 1 (Z.of_nat k) in
  let '(b, admitted) := bp_run (new cap) polls in
  admitted = 0 /\ tokens b = 0 /\ last_refill_ns b = Z.of_nat k * gap.
Proof.
  intros Hc Hg Hslow Hk polls. subst polls.
  assert (Hzero : gained cap gap = 0).
  { unfold gained. replace (smul 64 cap gap) with (cap * gap) by (unfold smul, umax; lia).
    rewrite Z.div_small by nia. reflexivity. }
  assert (Hgen : forall k (i : Z) b, capacity_bps b = cap -> tokens b = 0 ->
    last_refill_ns b = i * gap ->
    let '(b', n) := bp_run b ((fun i => OpAdmit 1 (i * gap)) <$> seqZ (i + 1) (Z.of_nat k)) in
    n = 0 /\ tokens b' = 0 /\ last_refill_ns b' = (i + Z.of_nat k) * gap).
  { clear k Hk. induction k as [|k IH]; intros i b Hcap Ht Hl.
    { simpl. split_and!; [done | done | rewrite Hl; lia]. }
    rewrite seqZ_cons by lia. rewrite fmap_cons. cbn [bp_run bp_step].
    assert (Ha : admit_bytes b 1 ((i + 1) * gap) =
      (note_drop (store_bucket b 0 ((i + 1) * gap)), false)).
    { unfold admit_bytes, refill. rewrite Hl, Hcap, Ht.
      rewrite (proj2 (Z.leb_gt ((i + 1) * gap) (i * gap))) by lia.
      replace ((i + 1) * gap - i * gap) with gap by lia. rewrite Hzero. reflexivity. }
    rewrite Ha. cbv zeta iota.
    specialize (IH (i + 1) (note_drop (store_bucket b 0 ((i + 1) * gap))) Hcap eq_refl eq_refl).
    replace (Z.of_nat (S k) - 1) with (Z.of_nat k) by lia.
    replace (Z.pred (Z.of_nat (S k))) with (Z.of_nat k) by lia.
    unfold Z.succ.
    destruct (bp_run _ _) as [b' n]. destruct IH as (-> & -> & ->). split_and!; lia. }
  pose proof (Hgen k 0 (new cap) ltac:(simpl; lia) eq_refl eq_refl) as H. simpl Z.add in H.
  destruct (bp_run _ _) as [b n]. destruct H as (-> & -> & ->). split_and!; lia.
Qed.

Lemma frequent_refill_starves_witness :
  let '(b, admitted) := bp_run (new 64000) ((fun i => OpAdmit 1 (i * 100000)) <$> seqZ 1 50) in
  admitted = 0 /\ tokens b = 0.
Proof.
  pose proof (frequent_refill_starves 64000 100000 50 ltac:(lia) ltac:(lia) ltac:(lia) ltac:(lia)) as H.
  change (Z.of_nat 50) with 50 in H. cbv zeta in H.
  destruct (bp_run _ _) as [b n]. destruct H as (? & ? & _). done.
Defined.

(** ** Congestion *)

Definition score (b : Backpressure) : Z := 2 * queue_depth b + Z.min (blocked_window b) 64.

(** Congestion only worsens: a deeper queue and more blocked sends never give
    a lower level, and the bitrate suggested to the encoder never rises with them;
    it stays between a quarter of the capacity and the capacity. *)
Theorem congestion_monotone b c : uint 64 (queue_depth b) -> uint 64 (queue_depth c) ->
  uint 64 (blocked_window b) -> uint 64 (blocked_window c) ->
  capacity_bps b = capacity_bps c -> 1 <= capacity_bps c < 2 ^ 50 ->
  queue_depth b <= queue_depth c -> blocked_window b <= blocked_window c ->
  Congestion.as_u8 (congestion b) <= Congestion.as_u8 (congestion c) /\
  suggested_bitrate_bps c <= suggested_bitrate_bps b /\
  capacity_bps c / 4 <= suggested_bitrate_bps c <= capacity_bps c.
Proof.
  intros Hqb Hqc Hbb Hbc Hcap Hc Hq Hbl.
  assert (Hlev : forall x, uint 64 (queue_depth x) -> uint 64 (blocked_window x) ->
    Congestion.as_u8 (congestion x) =
      (if score x =? 0 then 0 else if score x <=? 7 then 1 else if score x <=? 39 then 2 else 3)
    /\ Congestion.bitrate_fraction_bp (congestion x) =
      (if score x =? 0 then 10000 else if score x <=? 7 then 7000 else if score x <=? 39 then 4500 else 2500)).
  { intros x Hx Hy. unfold congestion, score, sadd, smul, umax, uint in *.
    repeat case_if; zbool; simpl; split; try reflexivity; exfalso;
      repeat match goal with H : (_ && _)%bool = false |- _ => apply andb_false_iff in H end; zbool; lia. }
  assert (Hsug : forall x, 1 <= capacity_bps x < 2 ^ 50 ->
    suggested_bitrate_bps x = capacity_bps x * Congestion.bitrate_fraction_bp (congestion x) / 10000).
  { intros x Hx. unfold suggested_bitrate_bps, wmul. rewrite wrap_id; [done|].
    unfold uint. destruct (congestion x); simpl; lia. }
  destruct (Hlev b Hqb Hbb) as [-> Hfb], (Hlev c Hqc Hbc) as [-> Hfc].
  rewrite (Hsug c Hc), (Hsug b) by lia. rewrite Hfb, Hfc, Hcap.
  assert (Hs : score b <= score c /\ 0 <= score b) by (unfold score, uint in *; lia).
  set (k := capacity_bps c) in *.
  assert (Hmono : forall f g, f <= g -> k * f / 10000 <= k * g / 10000)
    by (intros; apply Z.div_le_mono; nia).
  assert (Hq4 : k / 4 = k * 2500 / 10000).
  { change 10000 with (4 * 2500).
    rewrite Z.div_mul_cancel_r by lia. done. }
  assert (H1 : k = k * 10000 / 10000) by (rewrite Z.div_mul by lia; done).
  split; [repeat case_if; zbool; lia|]. split; [apply Hmono; repeat case_if; zbool; lia|].
  rewrite Hq4. split; [apply Hmono; repeat case_if; lia|].
  etransitivity; [|apply Z.eq_le_incl; symmetry; exact H1]. apply Hmono. repeat case_if; lia.
Qed.

Lemma congestion_monotone_witness :
  let b := set_queue_depth (new 1000) 1 in
  let c := set_queue_depth (note_send_blocked b 5) 20 in
  Congestion.as_u8 (congestion b) <= Congestion.as_u8 (congestion c) /\
  suggested_bitrate_bps c <= suggested_bitrate_bps b.
Proof.
  intros b c. destruct (congestion_monotone b c) as (H1 & H2 & _);
    [vm_compute; repeat split; discriminate || reflexivity ..|].
  split; [exact H1 | exact H2].
Defined.
