(* ===== verification/Mesh.v ===== *)
(** * Neighbor discovery: [tpt-t-link/src/mesh.rs]

    The beacon codec and the open-addressed neighbor table, with its
    specification as a finite map from unit identifiers to entries. *)

From S2P Require Import Prelude Cast.

Definition MESH_MAGIC : Z := 0x4D534801.

Module Beacon.
Record MeshBeacon := {
  magic : Z; version : Z; flags : Z; pad0 : Z; unit_id : Z; seq : Z; pad1 : Z;
  ts_ns : Z; listen_port : Z; pad2 : Z; pad3 : Z
}.

#[global] Instance plain : PlainBytes MeshBeacon.
Proof.
  refine (pod [4; 2; 1; 1; 8; 4; 4; 8; 2; 2; 4]%nat 8
    (fun v => [magic v; version v; flags v; pad0 v; unit_id v; seq v; pad1 v; ts_ns v;
               listen_port v; pad2 v; pad3 v])
    (fun zs => {| magic := nth 0 zs 0; version := nth 1 zs 0; flags := nth 2 zs 0;
       pad0 := nth 3 zs 0; unit_id := nth 4 zs 0; seq := nth 5 zs 0; pad1 := nth 6 zs 0;
       ts_ns := nth 7 zs 0; listen_port := nth 8 zs 0; pad2 := nth 9 zs 0;
       pad3 := nth 10 zs 0 |}) _ _); solve_pod.
Defined.

Definition BEACON_LEN : nat := size_of (T := MeshBeacon).

Definition new (unit_id seq ts_ns listen_port : Z) : MeshBeacon :=
  {| magic := MESH_MAGIC; version := 1; flags := 0; pad0 := 0; unit_id := unit_id; seq := seq;
     pad1 := 0; ts_ns := ts_ns; listen_port := listen_port; pad2 := 0; pad3 := 0 |}.

Definition encode_into (b : MeshBeacon) (out : list Z) : exec (list Z * nat) :=
  out ← copy_from_slice out 0 (bytes_of b);
  Ret (out, length (bytes_of b)).

(** a copy of the first [BEACON_LEN] bytes into an aligned value *)
Definition decode (bs : list Z) : option MeshBeacon :=
  if decide (length bs < BEACON_LEN)%nat then None
  else
    let beacon := of_raw (take BEACON_LEN bs) in
    if (magic beacon =? MESH_MAGIC) && (version beacon =? 1) then Some beacon else None.

End Beacon.

Abbreviation MeshBeacon := Beacon.MeshBeacon.

Record MeshConfig := { max_clock_skew_ns : Z; flap_cooldown_ns : Z }.
Definition default_config : MeshConfig :=
  {| max_clock_skew_ns := 30000000000; flap_cooldown_ns := 2000000000 |}.

(** [(unit_id.wrapping_mul(..) >> 47) as usize] *)
Definition probe_start (unit_id : Z) : nat :=
  Z.to_nat (Z.shiftr (wmul 64 unit_id 0x9E3779B97F4A7C15) 47).

Section Table.
(** [SocketAddr], which the table only compares *)
Context {Addr : Type} `{!EqDecision Addr}.

Record NeighborEntry := {
  unit_id : Z; addr : Addr; last_seen_ns : Z; last_seq : Z; last_flap_ns : Z
}.

Record NeighborTable := { slots : list (option NeighborEntry); len : Z; cfg : MeshConfig }.

Definition with_config (capacity : nat) (c : MeshConfig) : NeighborTable :=
  {| slots := replicate (Nat.max capacity 1) None; len := 0; cfg := c |}.
Definition with_capacity (capacity : nat) : NeighborTable := with_config capacity default_config.

Definition is_empty (t : NeighborTable) : bool := len t =? 0.

(** where the linear probe of [observe] and [find] ends *)
Inductive probed := Found (i : nat) (e : NeighborEntry) | Vacant (i : nat) | Full.

Fixpoint probe (fuel : nat) (ss : list (option NeighborEntry)) (id : Z) (idx : nat) : probed :=
  match fuel with
  | O => Full
  | S fuel =>
      match ss !! idx with
      | Some (Some e) =>
          if unit_id e =? id then Found idx e
          else probe fuel ss id ((idx + 1) mod length ss)
      | _ => Vacant idx
      end
  end.

Definition lookup_slot (t : NeighborTable) (id : Z) : probed :=
  let cap := length (slots t) in probe cap (slots t) id (probe_start id mod cap).

(** the [Some(e) if e.unit_id == unit_id] arm: the entry after it and the result *)
Definition refresh (c : MeshConfig) (e : NeighborEntry) (a : Addr) (seq now_ns : Z) :
    NeighborEntry * bool :=
  let advanced := 0 <? to_signed 32 (wsub 32 seq (last_seq e)) in
  if bool_decide (addr e <> a) then
    if ssub now_ns (last_flap_ns e) <? flap_cooldown_ns c then
      ({| unit_id := unit_id e; addr := addr e; last_seen_ns := now_ns;
          last_seq := last_seq e; last_flap_ns := last_flap_ns e |}, false)
    else
      ({| unit_id := unit_id e; addr := a; last_seen_ns := now_ns;
          last_seq := if advanced then seq else last_seq e; last_flap_ns := now_ns |}, true)
  else
    ({| unit_id := unit_id e; addr := addr e; last_seen_ns := now_ns;
        last_seq := if advanced then seq else last_seq e; last_flap_ns := last_flap_ns e |},
     advanced).

Definition new_entry (id : Z) (a : Addr) (seq now_ns : Z) : NeighborEntry :=
  {| unit_id := id; addr := a; last_seen_ns := now_ns; last_seq := seq; last_flap_ns := now_ns |}.

Definition skewed (c : MeshConfig) (beacon_ts_ns now_ns : Z) : bool :=
  max_clock_skew_ns c <? Z.abs (beacon_ts_ns - now_ns).

Definition observe (t : NeighborTable) (id : Z) (a : Addr) (seq beacon_ts_ns now_ns : Z) :
    NeighborTable * bool :=
  if skewed (cfg t) beacon_ts_ns now_ns then (t, false)
  else
    match lookup_slot t id with
    | Found i e =>
        let '(e', r) := refresh (cfg t) e a seq now_ns in
        ({| slots := <[i := Some e']> (slots t); len := len t; cfg := cfg t |}, r)
    | Vacant i =>
        ({| slots := <[i := Some (new_entry id a seq now_ns)]> (slots t);
            len := wadd 64 (len t) 1; cfg := cfg t |}, true)
    | Full => (t, false)
    end.

Definition find (t : NeighborTable) (id : Z) : option NeighborEntry :=
  match lookup_slot t id with Found _ e => Some e | _ => None end.

Definition stale (now_ns ttl_ns : Z) (e : NeighborEntry) : bool :=
  ttl_ns <? ssub now_ns (last_seen_ns e).

Fixpoint expire_slots (now_ns ttl_ns : Z) (ss : list (option NeighborEntry)) :
    list (option NeighborEntry) * Z :=
  match ss with
  | [] => ([], 0)
  | s :: ss =>
      let '(ss', n) := expire_slots now_ns ttl_ns ss in
      match s with
      | Some e => if stale now_ns ttl_ns e then (None :: ss', n + 1) else (s :: ss', n)
      | None => (s :: ss', n)
      end
  end.

Definition expire (t : NeighborTable) (now_ns ttl_ns : Z) : NeighborTable * Z :=
  let '(ss, removed) := expire_slots now_ns ttl_ns (slots t) in
  ({| slots := ss; len := wsub 64 (len t) removed; cfg := cfg t |}, removed).

Definition iter (t : NeighborTable) : list NeighborEntry := omap id (slots t).

(** ** The probe *)

Definition path (cap : nat) (id : Z) (j : nat) : nat := ((probe_start id + j) mod cap)%nat.

(** the first [j] slots of [id]'s probe path hold other units *)
Definition passed (ss : list (option NeighborEntry)) (id : Z) (j : nat) : Prop :=
  forall j', (j' < j)%nat -> exists e, ss !! path (length ss) id j' = Some (Some e) /\ unit_id e <> id.

Lemma path_succ cap id j : (0 < cap)%nat ->
  ((path cap id j + 1) mod cap)%nat = path cap id (S j).
Proof.
  intros. unfold path. rewrite Nat.Div0.add_mod_idemp_l. f_equal. lia.
Qed.

Lemma path_lt cap id j : (0 < cap)%nat -> (path cap id j < cap)%nat.
Proof. intros. apply Nat.mod_upper_bound. lia. Qed.

Lemma passed_succ ss id j e : passed ss id j ->
  ss !! path (length ss) id j = Some (Some e) -> unit_id e <> id -> passed ss id (S j).
Proof.
  intros Hp He Hne j' Hj'. destruct (decide (j' = j)) as [->|]; [eauto|]. apply Hp. lia.
Qed.

Lemma probe_spec fuel : forall ss id j, (0 < length ss)%nat -> passed ss id j ->
  match probe fuel ss id (path (length ss) id j) with
  | Found i e => exists j', (j <= j' < j + fuel)%nat /\ i = path (length ss) id j' /\
      passed ss id j' /\ ss !! i = Some (Some e) /\ unit_id e = id
  | Vacant i => exists j', (j <= j' < j + fuel)%nat /\ i = path (length ss) id j' /\
      passed ss id j' /\ ss !! i = Some None
  | Full => passed ss id (j + fuel)
  end.
Proof.
  induction fuel as [|fuel IH]; intros ss id j Hc Hp; simpl; [by rewrite Nat.add_0_r|].
  destruct (lookup_lt_is_Some_2 ss (path (length ss) id j)) as [[e|] He]; [by apply path_lt| |].
  - rewrite He. destruct (Z.eqb_spec (unit_id e) id) as [Hid|Hid].
    + exists j. split_and!; done || lia.
    + rewrite path_succ by done. specialize (IH ss id (S j) Hc (passed_succ _ _ _ _ Hp He Hid)).
      destruct (probe fuel ss id _).
      * destruct IH as (j' & ? & ?). exists j'. split; [lia | done].
      * destruct IH as (j' & ? & ?). exists j'. split; [lia | done].
      * by replace (j + S fuel)%nat with (S j + fuel)%nat by lia.
  - rewrite He. exists j. split_and!; done || lia.
Qed.

(** ** The invariant *)

Record table_inv (t : NeighborTable) : Prop := {
  inv_cap : (0 < length (slots t))%nat;
  inv_path i e : slots t !! i = Some (Some e) ->
    exists j, (j < length (slots t))%nat /\ i = path (length (slots t)) (unit_id e) j /\
      passed (slots t) (unit_id e) j;
  inv_len : len t = Z.of_nat (length (iter t))
}.

Lemma lookup_slot_spec t id : table_inv t ->
  match lookup_slot t id with
  | Found i e => slots t !! i = Some (Some e) /\ unit_id e = id
  | Vacant i => exists j, (j < length (slots t))%nat /\ i = path (length (slots t)) id j /\
      passed (slots t) id j /\ slots t !! i = Some None
  | Full => passed (slots t) id (length (slots t))
  end.
Proof.
  intros I. pose proof (probe_spec (length (slots t)) (slots t) id 0 (inv_cap _ I)) as H.
  unfold lookup_slot. replace (probe_start id mod length (slots t))%nat
    with (path (length (slots t)) id 0) by (unfold path; by rewrite Nat.add_0_r).
  specialize (H ltac:(intros j' Hj'; lia)).
  destruct (probe _ _ _ _); [destruct H as (j' & _ & _ & _ & ?); done | | done].
  destruct H as (j' & ? & ?). exists j'. split; [lia | done].
Qed.

(** an entry that is in the table is where its probe ends *)
Lemma find_stored t i e : table_inv t -> slots t !! i = Some (Some e) ->
  lookup_slot t (unit_id e) = Found i e.
Proof.
  intros I He. destruct (inv_path _ I i e He) as (j & Hj & -> & Hp).
  pose proof (probe_spec (length (slots t)) (slots t) (unit_id e) 0 (inv_cap _ I)
    ltac:(intros j' Hj'; lia)) as H.
  unfold lookup_slot. replace (probe_start (unit_id e) mod length (slots t))%nat
    with (path (length (slots t)) (unit_id e) 0) by (unfold path; by rewrite Nat.add_0_r).
  assert (Hends : forall j', passed (slots t) (unit_id e) j' ->
    (forall e', slots t !! path (length (slots t)) (unit_id e) j' = Some (Some e') ->
      unit_id e' <> unit_id e -> False) -> (j' < length (slots t))%nat -> j' = j).
  { intros j' Hp' Hend Hj'. destruct (Nat.lt_trichotomy j' j) as [Hlt|[->|Hlt]]; [|done|].
    - destruct (Hp j' Hlt) as (e' & He' & Hne). exfalso. eauto.
    - destruct (Hp' j Hlt) as (e' & He' & Hne). simplify_eq. }
  destruct (probe _ _ _ _) as [i' e'|i'|].
  - destruct H as (j' & Hj' & -> & Hp' & He' & Hid).
    assert (j' = j) as -> by (apply Hends; [done | intros; simplify_eq | lia]). congruence.
  - destruct H as (j' & Hj' & -> & Hp' & He').
    assert (j' = j) as -> by (apply Hends; [done | intros; simplify_eq | lia]). congruence.
  - destruct (H j Hj) as (e' & He' & Hne). simplify_eq.
Qed.

Lemma find_iff t id e : table_inv t ->
  find t id = Some e <-> unit_id e = id /\ exists i, slots t !! i = Some (Some e).
Proof.
  intros I. split.
  - unfold find. pose proof (lookup_slot_spec t id I) as H. destruct (lookup_slot t id); try done.
    intros [= <-]. destruct H. eauto.
  - intros (<- & i & He). unfold find. by rewrite (find_stored t i e).
Qed.
End Table.
Arguments NeighborEntry : clear implicits.
Arguments NeighborTable : clear implicits.

Section TableTheorems.
Context {Addr : Type} `{!EqDecision Addr}.
Implicit Types (t : NeighborTable Addr) (ss : list (option (NeighborEntry Addr))).

Lemma count_cons s ss :
  length (omap id (s :: ss)) = (match s with Some _ => 1 | None => 0 end + length (omap id ss))%nat.
Proof. by destruct s. Qed.

Lemma count_insert ss i x y : ss !! i = Some x ->
  (length (omap id (<[i := y]> ss)) + length (omap id [x]) =
   length (omap id ss) + length (omap id [y]))%nat.
Proof.
  revert i. induction ss as [|s ss IH]; intros [|i] Hi; simpl in *; try done.
  - injection Hi as ->. destruct x, y; simpl in *; lia.
  - specialize (IH i Hi). destruct s; [exact (f_equal S IH) | exact IH].
Qed.

Lemma count_le ss : (length (omap id ss) <= length ss)%nat.
Proof. induction ss as [|[e|] ss IH]; rewrite ?count_cons; simpl length; [done|lia..]. Qed.

Lemma count_lt ss i : ss !! i = Some None -> (length (omap id ss) < length ss)%nat.
Proof.
  revert i. induction ss as [|s ss IH]; intros [|i] Hi; simpl in Hi; try done.
  - injection Hi as ->. pose proof (count_le ss). rewrite count_cons. simpl length. lia.
  - specialize (IH i Hi). rewrite count_cons. destruct s; simpl length; lia.
Qed.

Lemma count_full ss : (forall i, (i < length ss)%nat -> exists e, ss !! i = Some (Some e)) ->
  length (omap id ss) = length ss.
Proof.
  induction ss as [|s ss IH]; intros H; [done|].
  destruct (H 0%nat) as [e He]; [simpl; lia|]. injection He as ->. rewrite count_cons. simpl length. f_equal.
  apply IH. intros i Hi. apply (H (S i)). simpl. lia.
Qed.

Lemma path_surj cap id i : (i < cap)%nat -> exists j, (j < cap)%nat /\ path cap id j = i.
Proof.
  intros Hi. pose proof (Nat.mod_upper_bound (probe_start id) cap ltac:(lia)) as Hs.
  exists ((i + (cap - probe_start id mod cap)) mod cap)%nat. split; [apply Nat.mod_upper_bound; lia|].
  unfold path. rewrite Nat.Div0.add_mod_idemp_r, <- Nat.Div0.add_mod_idemp_l.
  replace (probe_start id mod cap + (i + (cap - probe_start id mod cap)))%nat with (i + 1 * cap)%nat by lia.
  rewrite Nat.Div0.mod_add. by apply Nat.mod_small.
Qed.

(** writing an entry of unit [id] where [id]'s probe ended keeps every path *)
Lemma passed_insert ss i e id' j : (i < length ss)%nat ->
  (unit_id e <> id' \/ forall j', (j' < j)%nat -> path (length ss) id' j' <> i) ->
  passed ss id' j -> passed (<[i := Some e]> ss) id' j.
Proof.
  intros Hi Hor Hp j' Hj'. rewrite length_insert. destruct (Hp j' Hj') as (e' & He' & Hne).
  destruct (decide (path (length ss) id' j' = i)) as [<-|Hni].
  - exists e. split; [by apply list_lookup_insert_eq|]. destruct Hor as [|Hor]; [done|].
    by destruct (Hor j' Hj').
  - exists e'. by rewrite list_lookup_insert_ne.
Qed.

Lemma table_inv_write t i e n : table_inv t -> (i < length (slots t))%nat ->
  (exists j, (j < length (slots t))%nat /\ i = path (length (slots t)) (unit_id e) j /\
    passed (slots t) (unit_id e) j) ->
  (slots t !! i = Some None \/ exists e0, slots t !! i = Some (Some e0) /\ unit_id e0 = unit_id e) ->
  n = Z.of_nat (length (omap id (<[i := Some e]> (slots t)))) ->
  table_inv {| slots := <[i := Some e]> (slots t); len := n; cfg := cfg t |}.
Proof.
  intros I Hi (j & Hj & Hpath & Hp) Hold Hn.
  assert (Hkeep : forall (e' : NeighborEntry Addr) j', passed (slots t) (unit_id e') j' ->
    (unit_id e <> unit_id e' \/ forall j'', (j'' < j')%nat -> path (length (slots t)) (unit_id e') j'' <> i)).
  { intros e' j' Hp'. destruct (decide (unit_id e = unit_id e')) as [He|]; [right|by left].
    intros j'' Hj'' Hi''. destruct (Hp' j'' Hj'') as (e1 & He1 & Hne). rewrite Hi'' in He1.
    destruct Hold as [Ho|(e0 & Ho & Hid)]; [congruence|].
    assert (e0 = e1) by congruence. subst. congruence. }
  constructor; simpl; rewrite ?length_insert; [apply I | | done].
  intros i' e'. rewrite list_lookup_insert_Some.
  intros [(<- & [= <-] & _)|(Hne & He')].
  - exists j. split_and!; [done | done |]. apply passed_insert; [done | | done]. by apply Hkeep.
  - destruct (inv_path _ I i' e' He') as (j' & Hj' & -> & Hp'). exists j'.
    split_and!; [done | done |]. apply passed_insert; [done | | done]. by apply Hkeep.
Qed.

Lemma find_write t i e n id' : table_inv t ->
  table_inv {| slots := <[i := Some e]> (slots t); len := n; cfg := cfg t |} ->
  (i < length (slots t))%nat ->
  (slots t !! i = Some None \/ exists e0, slots t !! i = Some (Some e0) /\ unit_id e0 = unit_id e) ->
  find {| slots := <[i := Some e]> (slots t); len := n; cfg := cfg t |} id' =
    if id' =? unit_id e then Some e else find t id'.
Proof.
  intros I I' Hi Hold. destruct (Z.eqb_spec id' (unit_id e)) as [->|Hne].
  - apply find_iff; [done|]. split; [done|]. exists i. by apply list_lookup_insert_eq.
  - apply option_eq. intros e'. rewrite !find_iff by done. simpl.
    split; intros (Hid & i' & He'); (split; [done|]).
    + rewrite list_lookup_insert_Some in He'.
      destruct He' as [(_ & [= <-] & _)|(_ & He')]; [congruence | eauto].
    + exists i'. rewrite list_lookup_insert_ne; [done|]. intros <-.
      destruct Hold as [?|(e0 & ? & ?)]; congruence.
Qed.

(** the table as a partial function: what observing a beacon does to it *)
Definition observed (c : MeshConfig) (room : bool) (old : option (NeighborEntry Addr))
    (id : Z) (a : Addr) (seq ts now : Z) : option (NeighborEntry Addr) * bool :=
  if skewed c ts now then (old, false)
  else match old with
       | Some e => let '(e', r) := refresh c e a seq now in (Some e', r)
       | None => if room then (Some (new_entry id a seq now), true) else (None, false)
       end.

Lemma observe_len t i e : table_inv t -> Z.of_nat (length (slots t)) < 2 ^ 64 ->
  slots t !! i = Some None ->
  wadd 64 (len t) 1 = Z.of_nat (length (omap id (<[i := Some e]> (slots t)))).
Proof.
  intros I Hcap Hi. pose proof (count_insert _ _ _ (Some e) Hi) as Hc. simpl in Hc.
  pose proof (count_lt _ _ Hi). rewrite (inv_len _ I). unfold iter.
  unfold wadd. rewrite wrap_id by (unfold uint; lia).
  change (omap id) with (list_omap (option (NeighborEntry Addr)) _ id) in *. lia.
Qed.

(** The neighbor table is a map: observing a beacon changes the entry of its
    own unit only, to exactly what the specification [observed] says (skewed
    beacons ignored, address changes inside the flap cool-down refused, sequence
    numbers compared modulo wrap, a new unit dropped only when the table is
    full), [find] returns that entry, and the invariant behind linear probing,
    entry count included, is kept. *)
Theorem observe_refines_map t id a seq ts now : table_inv t ->
  Z.of_nat (length (slots t)) < 2 ^ 64 ->
  let room := len t <? Z.of_nat (length (slots t)) in
  let '(t', r) := observe t id a seq ts now in
  let '(old', r') := observed (cfg t) room (find t id) id a seq ts now in
  table_inv t' /\ r = r' /\ find t' id = old' /\
  forall id', id' <> id -> find t' id' = find t id'.
Proof.
  intros I Hcap room. unfold observe, observed. destruct (skewed (cfg t) ts now); [done|].
  unfold find at 1. pose proof (lookup_slot_spec t id I) as Hl.
  destruct (lookup_slot t id) as [i e|i|] eqn:Hs.
  - destruct Hl as [He Hid]. destruct (refresh (cfg t) e a seq now) as [e' r] eqn:Hr.
    assert (Hid' : unit_id e' = unit_id e).
    { unfold refresh in Hr. repeat case_if; injection Hr as <- _; done. }
    assert (Hi : (i < length (slots t))%nat) by (by apply lookup_lt_Some in He).
    assert (Hold : slots t !! i = Some None \/
      exists e0, slots t !! i = Some (Some e0) /\ unit_id e0 = unit_id e') by (right; exists e; done).
    assert (I' : table_inv {| slots := <[i := Some e']> (slots t); len := len t; cfg := cfg t |}).
    { apply table_inv_write; try done.
      - rewrite Hid'. by apply (inv_path _ I).
      - rewrite (inv_len _ I). unfold iter. pose proof (count_insert _ _ _ (Some e') He). f_equal.
        change (@omap list _ ) with (@omap list _) in *. simpl length in *. lia. }
    split_and!; [done | done | |]; [rewrite find_write by done | intros id' Hne; rewrite find_write by done];
      rewrite Hid', Hid.
    + by rewrite Z.eqb_refl.
    + by rewrite (proj2 (Z.eqb_neq _ _) Hne).
  - destruct Hl as (j & Hj & -> & Hp & Hn). pose proof (count_lt _ _ Hn) as Hlt.
    assert (room = true) as ->.
    { subst room. rewrite (inv_len _ I). unfold iter. apply Z.ltb_lt. lia. }
    set (e' := new_entry id a seq now). set (i := path (length (slots t)) id j) in *.
    assert (Hi : (i < length (slots t))%nat) by (by apply lookup_lt_Some in Hn).
    assert (I' : table_inv {| slots := <[i := Some e']> (slots t); len := wadd 64 (len t) 1; cfg := cfg t |}).
    { apply table_inv_write; [done | done | by exists j | by left | by apply observe_len]. }
    split_and!; [done | done | |]; [rewrite find_write by (done || by left)
      | intros id' Hne; rewrite find_write by (done || by left)].
    + change (unit_id e') with id. by rewrite Z.eqb_refl.
    + change (unit_id e') with id. by rewrite (proj2 (Z.eqb_neq _ _) Hne).
  - assert (room = false) as ->.
    { subst room. rewrite (inv_len _ I). unfold iter. rewrite count_full; [apply Z.ltb_irrefl|].
      intros i Hi. destruct (path_surj _ id i Hi) as (j & Hj & <-).
      destruct (Hl j Hj) as (e & He & _). eauto. }
    split_and!; try done. unfold find. by rewrite Hs.
Qed.

(** ** Expiry *)

Lemma expire_slots_spec now ttl ss :
  let '(ss', n) := expire_slots now ttl ss in
  omap id ss' = List.filter (fun e => negb (stale now ttl e)) (omap id ss) /\
  n = Z.of_nat (length (omap id ss)) - Z.of_nat (length (omap id ss')) /\
  length ss' = length ss.
Proof.
  induction ss as [|s ss IH]; [done|]. cbn [expire_slots].
  destruct (expire_slots now ttl ss) as [ss' n]. destruct IH as (IH & -> & Hl).
  destruct s as [e|]; [destruct (stale now ttl e) eqn:He|];
    rewrite ?count_cons; cbn [length]; rewrite ?Hl;
    (split; [|split; [lia | done]]).
  - change (omap id (None :: ss')) with (omap id ss').
    change (omap id (Some e :: ss)) with (e :: omap id ss). cbn [List.filter].
    by rewrite He.
  - change (omap id (Some e :: ss')) with (e :: omap id ss').
    change (omap id (Some e :: ss)) with (e :: omap id ss). cbn [List.filter].
    rewrite He. by rewrite IH.
  - exact IH.
Qed.

End TableTheorems.

(** [expire] removes exactly the stale entries and keeps the count right,
    but, since it leaves no tombstone, it cuts probe chains: with units 4 and 12
    sharing a probe path, once unit 4 expires the live unit 12 is still listed by
    [iter] but [find] no longer returns it, and its next beacon is reported as a
    new neighbor and stored a second time. *)
Theorem expire_cuts_probe_chain :
  (forall (Addr : Type) (t : NeighborTable Addr) now ttl, len t = Z.of_nat (length (iter t)) ->
     Z.of_nat (length (iter t)) < 2 ^ 64 ->
     let '(t', removed) := expire t now ttl in
     iter t' = List.filter (fun e => negb (stale now ttl e)) (iter t) /\
     len t' = Z.of_nat (length (iter t')) /\
     removed = Z.of_nat (length (iter t)) - Z.of_nat (length (iter t'))) /\
  let t1 := (observe (with_capacity 8) 4 10 1 0 0).1 in
  let t2 := (observe t1 12 11 1 100 100).1 in
  let t3 := (expire t2 150 100).1 in
  let '(t4, fresh) := observe t3 12 11 1 160 160 in
  unit_id <$> iter t3 = [12] /\ find t2 12 <> None /\ find t3 12 = None /\
  fresh = true /\ unit_id <$> iter t4 = [12; 12].
Proof.
  split.
  - intros Addr t now ttl Hlen Hcap. unfold expire.
    pose proof (expire_slots_spec now ttl (slots t)) as H.
    destruct (expire_slots now ttl (slots t)) as [ss n]. destruct H as (Hf & -> & _).
    unfold iter in *. cbn [slots len]. split_and!; [done| |done].
    assert (length (omap id ss) <= length (omap id (slots t)))%nat
      by (rewrite Hf; apply filter_length_le).
    rewrite Hlen. unfold wsub. rewrite wrap_id; [lia|]. unfold uint. lia.
  - vm_compute. split_and!; done.
Qed.

Lemma with_capacity_inv {Addr} n : table_inv (with_capacity (Addr := Addr) n).
Proof.
  assert (He : forall m, omap id (replicate m (@None (NeighborEntry Addr))) = [])
    by (induction m; done).
  constructor; simpl slots.
  - unfold with_capacity, with_config. simpl. rewrite length_replicate. lia.
  - intros i e H. unfold with_capacity, with_config in H. simpl in H.
    apply lookup_replicate in H as [? _]. discriminate.
  - unfold iter, with_capacity, with_config. cbn [slots len]. by rewrite He.
Qed.

Lemma observe_refines_map_witness :
  let t := with_capacity 8 in
  find (observe t 4 10 1 0 0).1 4 = Some (new_entry 4 10 1 0).
Proof.
  intros t. pose proof (observe_refines_map t 4 10 1 0 0 (with_capacity_inv 8) ltac:(vm_compute; reflexivity)) as H.
  cbv zeta in H. destruct (observe t 4 10 1 0 0) as [t' r]. simpl fst.
  change (find t 4) with (@None (NeighborEntry Z)) in H.
  change (len t <? Z.of_nat (length (slots t))) with true in H. cbn in H.
  destruct H as (_ & _ & H & _). exact H.
Defined.
