(* ===== verification/Mux.v ===== *)
(** * The UDP multiplexer: [tpt-t-link/src/mux.rs]

    Framing of the six channels into datagrams and the validating parser that
    takes them apart.  The archive format of [rkyv] is a parameter (class
    [Rkyv]); the socket's answers are inputs of the operations that use it. *)

From S2P Require Import Prelude Mesh Backpressure Reliable Cast Mode Ser Crc.

Definition DEFAULT_PORT : Z := 443.
Definition MAX_DATAGRAM : nat := 1500.
Definition HEADER_LEN : nat := 16.
Definition TRAILER_LEN : nat := 4.
Definition MAX_PAYLOAD : nat := MAX_DATAGRAM - HEADER_LEN - TRAILER_LEN.

(** What the link relies on of [rkyv]: serialising a value yields bytes, and
    accessing them at an aligned address yields the value. *)
Class Rkyv (T : Type) (wf : T -> Prop) := {
  to_bytes : T -> option (list Z);
  access_root : slice -> option T;
  to_bytes_bytes v bs : to_bytes v = Some bs -> bytes bs;
  access_to_bytes v bs a : wf v -> to_bytes v = Some bs -> a mod 16 = 0 ->
    access_root {| addr := a; data := bs |} = Some v
}.

Inductive Channel := Control | Telemetry | Media | Ice | Mesh | Secure.

Module Channel.
Definition as_u8 (c : Channel) : Z :=
  match c with
  | Control => 1 | Telemetry => 2 | Media => 3 | Ice => 4 | Mesh => 5 | Secure => 6
  end.

Definition from_u8 (v : Z) : option Channel :=
  if v =? 1 then Some Control else if v =? 2 then Some Telemetry
  else if v =? 3 then Some Media else if v =? 4 then Some Ice
  else if v =? 5 then Some Mesh else if v =? 6 then Some Secure else None.

Lemma channel_from_as_u8 c : from_u8 (as_u8 c) = Some c.
Proof. by destruct c. Qed.
End Channel.

Definition FLAG_ACK : Z := 1.
Definition FLAG_RELIABLE : Z := 2.
Definition INNER_CONTROL : Z := 1.
Definition INNER_TELEMETRY : Z := 2.

Record LinkStats := {
  tx_frames : Z; tx_payload_bytes : Z; tx_errors : Z;
  rx_frames : Z; rx_malformed : Z; rx_crc_errors : Z; rx_rejected : Z
}.
Definition no_stats : LinkStats :=
  {| tx_frames := 0; tx_payload_bytes := 0; tx_errors := 0; rx_frames := 0;
     rx_malformed := 0; rx_crc_errors := 0; rx_rejected := 0 |}.

Inductive IoError := SerializeFailed | InvalidData | InvalidInput | WouldBlock | TimedOut | OtherIo.
Inductive FrameError := Malformed | CrcMismatch | PayloadRejected.

#[global] Instance FrameError_eq_dec : EqDecision FrameError.
Proof. solve_decision. Defined.

(** ** Framing *)

Definition write_header (out : list Z) (channel : Channel) (frame_flags payload_len : Z) :
    exec (list Z) :=
  let hdr := {| WireFrame.magic := FRAME_MAGIC; WireFrame.version := PROTOCOL_VERSION;
                WireFrame.payload_len := payload_len |} in
  out ← copy_from_slice out 0 (bytes_of hdr);
  out ← copy_from_slice out 8 [Channel.as_u8 channel];
  out ← copy_from_slice out 9 [frame_flags];
  copy_from_slice out 10 (replicate (HEADER_LEN - 10) 0).

Definition finish_frame (out : list Z) (fin : nat) : exec (list Z * nat) :=
  covered ← slice_to out fin;
  out ← copy_from_slice out fin (le_bytes 4 (crc32 covered));
  Ret (out, (fin + TRAILER_LEN)%nat).

(** [encode_into(&mut out[HEADER_LEN..])] *)
Definition encode_payload (enc : list Z -> exec (list Z * nat)) (out : list Z) :
    exec (list Z * nat) :=
  '(tail, n) ← enc (drop HEADER_LEN out);
  Ret (take HEADER_LEN out ++ tail, n).

Section Operations.
Context `{RC : !Rkyv (Cmd.ControlCommand Z) pb_wf} `{RT : !Rkyv Telemetry.TelemetryPacket pb_wf}.
Context {Addr : Type}.

Record UdpMux := { scratch : list Z; stats : LinkStats; backpressure : Bp.Backpressure }.

(** [serialize_into]: on failure the scratch buffer has been taken *)
Definition serialize_into (m : UdpMux) (r : option (list Z)) : UdpMux * option nat :=
  match r with
  | Some bs => ({| scratch := bs; stats := stats m; backpressure := backpressure m |},
                Some (length bs))
  | None => ({| scratch := []; stats := stats m; backpressure := backpressure m |}, None)
  end.

(** the common tail of the two archived channels *)
Definition write_archived (m : UdpMux) (r : option (list Z)) (ch : Channel) (fl : Z)
    (out : list Z) : exec (UdpMux * list Z * result nat IoError) :=
  let '(m, n) := serialize_into m r in
  match n with
  | None => Ret (m, out, Err SerializeFailed)
  | Some n =>
      if (MAX_PAYLOAD <? n)%nat then Ret (m, out, Err InvalidData)
      else
        out ← write_header out ch fl (wrap 16 (Z.of_nat n));
        out ← copy_from_slice out HEADER_LEN (take n (scratch m));
        '(out, len) ← finish_frame out (HEADER_LEN + n);
        Ret (m, out, Ok len)
  end.

Definition write_control_frame (m : UdpMux) (cmd : Cmd.ControlCommand Z) (frame_flags : Z)
    (out : list Z) : exec (UdpMux * list Z * result nat IoError) :=
  let stamped := Cmd.with_crc cmd (command_crc cmd) in
  write_archived m (to_bytes stamped) Control frame_flags out.

Definition write_telemetry_frame (m : UdpMux) (pkt : Telemetry.TelemetryPacket)
    (out : list Z) : exec (UdpMux * list Z * result nat IoError) :=
  write_archived m (to_bytes pkt) Telemetry 0 out.

(** the common tail of the two raw-cast channels *)
Definition write_encoded (m : UdpMux) (enc : list Z -> exec (list Z * nat)) (ch : Channel)
    (fl : Z) (out : list Z) : exec (UdpMux * list Z * result nat IoError) :=
  '(out, n) ← encode_payload enc out;
  out ← write_header out ch fl (wrap 16 (Z.of_nat n));
  '(out, len) ← finish_frame out (HEADER_LEN + n);
  Ret (m, out, Ok len).

Definition write_mesh_frame (m : UdpMux) (beacon : MeshBeacon) (out : list Z) :=
  write_encoded m (Beacon.encode_into beacon) Mesh 0 out.

Definition write_ack_frame (m : UdpMux) (ack : AckFrame) (out : list Z) :=
  write_encoded m (Ack.encode_into ack) Control FLAG_ACK out.

(** the two opaque channels *)
Definition write_opaque (m : UdpMux) (bs : list Z) (ch : Channel) (fl : Z) (out : list Z) :
    exec (UdpMux * list Z * result nat IoError) :=
  if (MAX_PAYLOAD <? length bs)%nat then Ret (m, out, Err InvalidData)
  else
    out ← copy_from_slice out HEADER_LEN bs;
    out ← write_header out ch fl (wrap 16 (Z.of_nat (length bs)));
    '(out, len) ← finish_frame out (HEADER_LEN + length bs);
    Ret (m, out, Ok len).

Definition write_ice_frame (m : UdpMux) (bs out : list Z) := write_opaque m bs Ice 0 out.
Definition write_secure_frame (m : UdpMux) (sealed : list Z) (frame_flags : Z) (out : list Z) :=
  write_opaque m sealed Secure frame_flags out.

(** ** Transmit *)

Definition bump (z : Z) : Z := wadd 64 z 1.

(** [res] is what [socket.send_to] answered *)
Definition send_framed (m : UdpMux) (res : result nat IoError) (now_ns : Z) :
    UdpMux * result nat IoError :=
  let s := stats m in
  let failed := {| tx_frames := tx_frames s; tx_payload_bytes := tx_payload_bytes s;
      tx_errors := bump (tx_errors s); rx_frames := rx_frames s; rx_malformed := rx_malformed s;
      rx_crc_errors := rx_crc_errors s; rx_rejected := rx_rejected s |} in
  match res with
  | Ok n =>
      ({| scratch := scratch m; backpressure := backpressure m;
          stats := {| tx_frames := bump (tx_frames s);
            tx_payload_bytes := wadd 64 (tx_payload_bytes s)
              (ssub (Z.of_nat n) (Z.of_nat (HEADER_LEN + TRAILER_LEN)));
            tx_errors := tx_errors s; rx_frames := rx_frames s; rx_malformed := rx_malformed s;
            rx_crc_errors := rx_crc_errors s; rx_rejected := rx_rejected s |} |}, res)
  | Err WouldBlock | Err TimedOut =>
      ({| scratch := scratch m; stats := failed;
          backpressure := Bp.note_send_blocked (backpressure m) now_ns |}, res)
  | Err _ => ({| scratch := scratch m; stats := failed; backpressure := backpressure m |}, res)
  end.

(** ** Receive *)

Inductive Inbound :=
| InControl (cmd : Cmd.ControlCommand Z) (from : Addr) (reliable : bool)
| InTelemetry (pkt : Telemetry.TelemetryPacket) (from : Addr)
| InIce (payload : list Z) (from : Addr)
| InMesh (beacon : MeshBeacon) (from : Addr)
| InAck (ack : AckFrame) (from : Addr)
| InSecure (sealed : list Z) (from : Addr) (inner : Z).

(** the archived command's fields, one by one *)
Definition command_from_archived (a : Cmd.ControlCommand Z) : Cmd.ControlCommand Z :=
  {| Cmd.magic := Cmd.magic a; Cmd.version := Cmd.version a; Cmd.reserved := Cmd.reserved a;
     Cmd.seq := Cmd.seq a; Cmd.timestamp_ns := Cmd.timestamp_ns a; Cmd.mode_raw := Cmd.mode_raw a;
     Cmd.flags := Cmd.flags a; Cmd.axis_count := Cmd.axis_count a; Cmd.pad0 := Cmd.pad0 a;
     Cmd.axes := Cmd.axes a; Cmd.crc := Cmd.crc a |}.

(** the [match Channel::from_u8(buf[8])] *)
Definition demux_payload (ch fl : Z) (payload : slice) (from : Addr) : result Inbound FrameError :=
  match Channel.from_u8 ch with
  | Some Control =>
      if negb (Z.land fl FLAG_ACK =? 0) then
        match Ack.decode payload with Some ack => Ok (InAck ack from) | None => Err PayloadRejected end
      else
        match access_root (T := Cmd.ControlCommand Z) payload with
        | Some arch =>
            let owned := command_from_archived arch in
            if command_crc owned =? Cmd.crc owned
            then Ok (InControl arch from (negb (Z.land fl FLAG_RELIABLE =? 0)))
            else Err CrcMismatch
        | None => Err PayloadRejected
        end
  | Some Telemetry =>
      match access_root (T := Telemetry.TelemetryPacket) payload with
      | Some pkt => Ok (InTelemetry pkt from) | None => Err PayloadRejected end
  | Some Ice => Ok (InIce (data payload) from)
  | Some Mesh =>
      match Beacon.decode (data payload) with
      | Some b => Ok (InMesh b from) | None => Err PayloadRejected end
  | Some Secure => Ok (InSecure (data payload) from fl)
  | Some Media | None => Err PayloadRejected
  end.

(** [buf] is the [RxBuffer] at address [base], [n] the datagram's length *)
Definition demux (base : Z) (buf : list Z) (n : nat) (from : Addr) :
    exec (result Inbound FrameError) :=
  if (n <? HEADER_LEN + TRAILER_LEN)%nat then Ret (Err Malformed)
  else
    head ← slice_to buf 8;
    match ref_from_bytes (T := WireFrame.WireFrame) {| addr := base; data := head |} with
    | Err _ => Ret (Err Malformed)
    | Ok hdr =>
        if negb (WireFrame.magic hdr =? FRAME_MAGIC)
           || negb (WireFrame.version hdr =? PROTOCOL_VERSION) then Ret (Err Malformed)
        else
          let fin := (HEADER_LEN + Z.to_nat (WireFrame.payload_len hdr))%nat in
          let total := (fin + TRAILER_LEN)%nat in
          if negb (total =? n)%nat then Ret (Err Malformed)
          else
            framed ← slice_to buf total;
            let expect := le_val (drop fin framed) in
            covered ← slice_to buf fin;
            if negb (crc32 covered =? expect) then Ret (Err CrcMismatch)
            else
              ch ← index buf 8;
              fl ← index buf 9;
              Ret (demux_payload ch fl
                     {| addr := base + Z.of_nat HEADER_LEN; data := drop HEADER_LEN covered |} from)
    end.

(** [fill]'s [recv_from], then [demux]: [got] is [None] on would-block, the
    buffer after the receive otherwise *)
Definition recv_frame (m : UdpMux) (base : Z) (got : option (list Z * nat * Addr)) :
    exec (UdpMux * option (result Inbound FrameError)) :=
  match got with
  | None => Ret (m, None)
  | Some (buf, n, from) =>
      step ← demux base buf n from;
      let s := stats m in
      let m := if is_ok step then
        {| scratch := scratch m; backpressure := backpressure m;
           stats := {| tx_frames := tx_frames s; tx_payload_bytes := tx_payload_bytes s;
             tx_errors := tx_errors s; rx_frames := bump (rx_frames s);
             rx_malformed := rx_malformed s; rx_crc_errors := rx_crc_errors s;
             rx_rejected := rx_rejected s |} |} else m in
      Ret (m, Some step)
  end.

End Operations.
Arguments Inbound : clear implicits.

(** ** Layout of a frame *)

Definition header (ch : Channel) (fl : Z) (payload_len : nat) : list Z :=
  bytes_of {| WireFrame.magic := FRAME_MAGIC; WireFrame.version := PROTOCOL_VERSION;
              WireFrame.payload_len := Z.of_nat payload_len |}
    ++ [Channel.as_u8 ch; fl] ++ replicate 6 0.

Definition framed (ch : Channel) (fl : Z) (payload : list Z) : list Z :=
  let covered := header ch fl (length payload) ++ payload in
  covered ++ le_bytes 4 (crc32 covered).

Lemma length_header ch fl n : length (header ch fl n) = 16%nat.
Proof. done. Qed.

Lemma header_bytes ch fl n : byte fl -> bytes (header ch fl n).
Proof.
  intros Hf. unfold header. apply Forall_app. split; [apply enc_fields_bytes|].
  apply Forall_app. split; [|repeat constructor; vm_compute; congruence].
  apply Forall_cons. split; [destruct ch; vm_compute; split; congruence|]. by apply Forall_singleton.
Qed.

(** writing the header over the first sixteen bytes *)
Lemma write_header_spec h rest ch fl n : length h = 16%nat -> (n <= MAX_PAYLOAD)%nat ->
  write_header (h ++ rest) ch fl (wrap 16 (Z.of_nat n)) = Ret (header ch fl n ++ rest).
Proof.
  intros Hh Hn. rewrite wrap_id.
  2:{ unfold uint, MAX_PAYLOAD, MAX_DATAGRAM, HEADER_LEN, TRAILER_LEN in *. lia. }
  rewrite <- (take_drop 8 h), <- (take_drop 1 (drop 8 h)), <- (take_drop 1 (drop 1 (drop 8 h))).
  set (h0 := take 8 h). set (h1 := take 1 (drop 8 h)). set (h2 := take 1 (drop 1 (drop 8 h))).
  set (h3 := drop 1 (drop 1 (drop 8 h))).
  assert (length h0 = 8%nat /\ length h1 = 1%nat /\ length h2 = 1%nat /\ length h3 = 6%nat) as (H0 & H1 & H2 & H3).
  { subst h0 h1 h2 h3. autorewrite with len. rewrite Hh. done. }
  unfold write_header, header. rewrite <- !app_assoc.
  set (w := bytes_of _). assert (Hw : length w = 8%nat) by done.
  pose proof (copy_mid [] h0 w (h1 ++ h2 ++ h3 ++ rest) 0 eq_refl (eq_trans Hw (eq_sym H0))) as E0.
  cbn [app] in E0. rewrite E0. cbn [mbind exec_bind].
  rewrite (copy_mid w h1) by done. cbn [mbind exec_bind].
  rewrite (app_assoc w [_]), (copy_mid (w ++ _) h2) by (rewrite ?length_app; simpl; lia).
  cbn [mbind exec_bind].
  rewrite (app_assoc (w ++ _)), (copy_mid ((w ++ _) ++ _) h3);
    [|rewrite !length_app; simpl; lia | rewrite length_replicate; done].
  by rewrite <- !app_assoc.
Qed.

(** the checksum over everything before it *)
Lemma finish_frame_spec covered q r : length q = 4%nat ->
  finish_frame (covered ++ q ++ r) (length covered) =
    Ret (covered ++ le_bytes 4 (crc32 covered) ++ r, (length covered + TRAILER_LEN)%nat).
Proof.
  intros Hq. unfold finish_frame. rewrite slice_to_ok by (autorewrite with len; lia).
  rewrite take_app_length. cbn [mbind exec_bind].
  rewrite (copy_mid covered q) by (rewrite ?length_le_bytes; done). done.
Qed.

(** a datagram buffer cut into header, payload, trailer and the rest *)
Lemma split_out (out : list Z) n : length out = MAX_DATAGRAM -> (n <= MAX_PAYLOAD)%nat ->
  exists h p q r, out = h ++ p ++ q ++ r /\ length h = 16%nat /\ length p = n /\ length q = 4%nat.
Proof.
  intros Ho Hn. exists (take 16 out), (take n (drop 16 out)), (take 4 (drop n (drop 16 out))),
    (drop 4 (drop n (drop 16 out))).
  rewrite !take_drop. autorewrite with len.
  unfold MAX_PAYLOAD, MAX_DATAGRAM, HEADER_LEN, TRAILER_LEN in *. split_and!; done || lia.
Qed.

Lemma length_framed ch fl p : length (framed ch fl p) = (20 + length p)%nat.
Proof. unfold framed. rewrite !length_app, length_le_bytes, length_header. lia. Qed.

Lemma covered_length ch fl p : length (header ch fl (length p) ++ p) = (HEADER_LEN + length p)%nat.
Proof. by rewrite length_app, length_header. Qed.

Lemma drop_framed ch fl p : drop (HEADER_LEN + length p) (framed ch fl p) =
  le_bytes 4 (crc32 (header ch fl (length p) ++ p)).
Proof. unfold framed. by rewrite drop_app_length' by (by rewrite covered_length). Qed.

Lemma take_framed ch fl p r : take (HEADER_LEN + length p) (framed ch fl p ++ r) =
  header ch fl (length p) ++ p.
Proof. unfold framed. by rewrite <- app_assoc, take_app_length' by (by rewrite covered_length). Qed.

(** header over [h], payload already in place, then the trailer *)
Lemma header_finish h p q r ch fl : length h = 16%nat -> (length p <= MAX_PAYLOAD)%nat ->
  length q = 4%nat ->
  (out ← write_header (h ++ p ++ q ++ r) ch fl (wrap 16 (Z.of_nat (length p)));
   finish_frame out (HEADER_LEN + length p)) =
  Ret (framed ch fl p ++ r, (20 + length p)%nat).
Proof.
  intros Hh Hp Hq. rewrite write_header_spec by done. cbn [mbind exec_bind].
  rewrite (app_assoc (header _ _ _)), <- (covered_length ch fl p), finish_frame_spec by done.
  unfold framed. rewrite <- !app_assoc. f_equal. f_equal. rewrite length_app, length_header. 
  unfold TRAILER_LEN. lia.
Qed.

Lemma write_opaque_spec m bs ch fl out : length out = MAX_DATAGRAM ->
  (length bs <= MAX_PAYLOAD)%nat ->
  exists r, write_opaque m bs ch fl out = Ret (m, framed ch fl bs ++ r, Ok (20 + length bs)%nat).
Proof.
  intros Ho Hb. destruct (split_out out (length bs) Ho Hb) as (h & p & q & r & -> & Hh & Hp & Hq).
  exists r. unfold write_opaque. rewrite (proj2 (Nat.ltb_ge _ _)) by lia.
  rewrite (copy_mid h p bs) by done. cbn [mbind exec_bind].
  pose proof (header_finish h bs q r ch fl Hh Hb Hq) as H.
  destruct (write_header _ _ _ _) as [o| | |]; try discriminate. cbn [mbind exec_bind] in *.
  by rewrite H.
Qed.

Lemma write_archived_spec m bs ch fl out : length out = MAX_DATAGRAM ->
  exists m', if decide (length bs <= MAX_PAYLOAD)%nat then
      exists r, write_archived m (Some bs) ch fl out =
        Ret (m', framed ch fl bs ++ r, Ok (20 + length bs)%nat)
    else write_archived m (Some bs) ch fl out = Ret (m', out, Err InvalidData).
Proof.
  intros Ho. exists {| scratch := bs; stats := stats m; backpressure := backpressure m |}.
  case_decide as Hb; unfold write_archived; cbn [serialize_into].
  - rewrite (proj2 (Nat.ltb_ge _ _)) by lia.
    destruct (split_out out (length bs) Ho Hb) as (h & p & q & r & -> & Hh & Hp & Hq). exists r.
    rewrite write_header_spec by done. cbn [mbind exec_bind scratch]. rewrite take_ge by lia.
    rewrite (copy_mid (header _ _ _) p bs) by done. cbn [mbind exec_bind].
    rewrite (app_assoc (header _ _ _)), <- (covered_length ch fl bs), finish_frame_spec by done.
    cbn [mbind exec_bind]. unfold framed. rewrite <- !app_assoc. f_equal. f_equal. f_equal.
    rewrite length_app, length_header. unfold TRAILER_LEN. lia.
  - by rewrite (proj2 (Nat.ltb_lt _ _)) by lia.
Qed.

(** a writer keeps the counters and the buffer's size *)
Definition same_link (m m' : UdpMux) : Prop := stats m' = stats m /\ backpressure m' = backpressure m.

Lemma write_header_len out ch fl n o : write_header out ch fl n = Ret o -> length o = length out.
Proof.
  unfold write_header. intros E. apply bind_ret_inv in E as (o1 & E1%copy_len & E).
  apply bind_ret_inv in E as (o2 & E2%copy_len & E). apply bind_ret_inv in E as (o3 & E3%copy_len & E).
  apply copy_len in E. congruence.
Qed.

Lemma finish_frame_len out fin o n : finish_frame out fin = Ret (o, n) -> length o = length out.
Proof.
  unfold finish_frame. intros E. apply bind_ret_inv in E as (c & _ & E).
  apply bind_ret_inv in E as (o1 & E1%copy_len & [= <- <-]). done.
Qed.

Lemma write_archived_inv m bs ch fl out m' t x : write_archived m (Some bs) ch fl out = Ret (m', t, x) ->
  same_link m m' /\ length t = length out.
Proof.
  unfold write_archived. cbn [serialize_into]. case_if; [intros [= <- <- <-]; by repeat split|].
  intros E. apply bind_ret_inv in E as (o1 & E1%write_header_len & E).
  apply bind_ret_inv in E as (o2 & E2%copy_len & E).
  apply bind_ret_inv in E as ([o3 n3] & E3%finish_frame_len & E). injection E as <- <- <-.
  split; [by split | congruence].
Qed.

Lemma write_archived_ok m r ch fl out : length out = MAX_DATAGRAM ->
  exists m' t x, write_archived m r ch fl out = Ret (m', t, x) /\ same_link m m' /\
    length t = MAX_DATAGRAM /\
    match x with
    | Ok n => exists bs, r = Some bs /\ (length bs <= MAX_PAYLOAD)%nat /\ n = (20 + length bs)%nat /\
        take n t = framed ch fl bs
    | Err _ => match r with None => True | Some bs => (MAX_PAYLOAD < length bs)%nat end
    end.
Proof.
  intros Ho. destruct r as [bs|]; [|by do 3 eexists].
  destruct (write_archived_spec m bs ch fl out Ho) as (m' & H).
  case_decide as Hb.
  - destruct H as (r & E). pose proof (write_archived_inv _ _ _ _ _ _ _ _ E) as [Hs Hl].
    do 3 eexists. split; [exact E|]. split; [done|]. split; [congruence|].
    exists bs. split_and!; try done. by rewrite take_app_length' by (by rewrite length_framed).
  - pose proof (write_archived_inv _ _ _ _ _ _ _ _ H) as [Hs Hl].
    do 3 eexists. split; [exact H|]. split_and!; try done. lia.
Qed.

(** [encode_into] of a raw-cast struct copies its bytes to the front *)
Lemma write_encoded_spec m (bs : list Z) ch fl out : length out = MAX_DATAGRAM ->
  (length bs <= MAX_PAYLOAD)%nat ->
  exists r, write_encoded m (fun o => o ← copy_from_slice o 0 bs; Ret (o, length bs)) ch fl out =
    Ret (m, framed ch fl bs ++ r, Ok (20 + length bs)%nat).
Proof.
  intros Ho Hb. destruct (split_out out (length bs) Ho Hb) as (h & p & q & r & -> & Hh & Hp & Hq).
  exists r. unfold write_encoded, encode_payload.
  rewrite drop_app_length', take_app_length' by done.
  pose proof (copy_mid [] p bs (q ++ r) 0 eq_refl (eq_sym Hp)) as E. cbn [app] in E. rewrite E.
  cbn [mbind exec_bind]. pose proof (header_finish h bs q r ch fl Hh Hb Hq) as H.
  destruct (write_header _ _ _ _) as [o| | |]; try discriminate. cbn [mbind exec_bind] in *.
  by rewrite H.
Qed.

(** ** Parsing a well-formed frame *)

Section Parse.
Context `{RC : !Rkyv (Cmd.ControlCommand Z) pb_wf} `{RT : !Rkyv Telemetry.TelemetryPacket pb_wf}.
Context {Addr : Type}.

Lemma wire_header_raw n : (n <= MAX_PAYLOAD)%nat ->
  of_raw (bytes_of {| WireFrame.magic := FRAME_MAGIC; WireFrame.version := PROTOCOL_VERSION;
     WireFrame.payload_len := Z.of_nat n |}) =
  {| WireFrame.magic := FRAME_MAGIC; WireFrame.version := PROTOCOL_VERSION;
     WireFrame.payload_len := Z.of_nat n |}.
Proof.
  intros Hn. apply of_raw_bytes_of. unfold pb_wf. simpl. unfold MAX_PAYLOAD, MAX_DATAGRAM in Hn.
  simpl in Hn. repeat constructor; simpl; unfold FRAME_MAGIC, PROTOCOL_VERSION; try lia; done.
Qed.

Lemma demux_framed base ch fl p r (from : Addr) : base mod 16 = 0 ->
  (length p <= MAX_PAYLOAD)%nat -> bytes p -> byte fl ->
  demux base (framed ch fl p ++ r) (20 + length p) from =
    Ret (demux_payload (Channel.as_u8 ch) fl
           {| addr := base + Z.of_nat HEADER_LEN; data := p |} from).
Proof.
  intros Hbase Hp Hpb Hfl. unfold demux. rewrite (proj2 (Nat.ltb_ge _ _)) by (unfold HEADER_LEN, TRAILER_LEN; lia).
  rewrite slice_to_ok by (rewrite length_app, length_framed; lia). cbn [mbind exec_bind].
  set (w := {| WireFrame.magic := FRAME_MAGIC; WireFrame.version := PROTOCOL_VERSION;
     WireFrame.payload_len := Z.of_nat (length p) |}).
  assert (Hfr : framed ch fl p ++ r = bytes_of w ++ [Channel.as_u8 ch; fl] ++ replicate 6 0 ++ p ++
    le_bytes 4 (crc32 (header ch fl (length p) ++ p)) ++ r).
  { unfold framed, header. by rewrite <- !app_assoc. }
  assert (H8 : take 8 (framed ch fl p ++ r) = bytes_of w).
  { rewrite Hfr. apply (take_app_length' (bytes_of w)). done. }
  rewrite H8.
  assert (Hw : pb_wf w).
  { unfold MAX_PAYLOAD, MAX_DATAGRAM in Hp. simpl in Hp.
    repeat constructor; unfold uint; simpl; unfold FRAME_MAGIC, PROTOCOL_VERSION; lia. }
  assert (Href : ref_from_bytes (T := WireFrame.WireFrame) {| addr := base; data := bytes_of w |} = Ok w).
  { rewrite <- (app_nil_r (bytes_of w)). apply ref_from_bytes_ok; [done|].
    change (align_of (T := WireFrame.WireFrame)) with 4.
    rewrite <- (Z.mod_mod_divide base 16 4) by (by exists 4). by rewrite Hbase. }
  rewrite Href. cbn [WireFrame.magic WireFrame.version WireFrame.payload_len w].
  rewrite !Z.eqb_refl. cbn [negb orb]. rewrite Nat2Z.id.
  replace (HEADER_LEN + length p + TRAILER_LEN)%nat with (20 + length p)%nat
    by (unfold HEADER_LEN, TRAILER_LEN; lia).
  rewrite Nat.eqb_refl. cbn [negb].
  rewrite !slice_to_ok by (rewrite length_app, length_framed; unfold HEADER_LEN; lia).
  cbn [mbind exec_bind].
  rewrite (take_app_length' (framed ch fl p) r (20 + length p)) by (by rewrite length_framed).
  rewrite drop_framed, take_framed.
  rewrite le_val_bytes_id by (apply crc32_uint, Forall_app; split; [by apply header_bytes | done]).
  rewrite Z.eqb_refl. cbn [negb]. rewrite drop_app_length' by done.
  rewrite Hfr. unfold index. assert (Hl : length (bytes_of w) = 8%nat) by done.
  rewrite !lookup_app_r by (rewrite Hl; lia). rewrite Hl. done.
Qed.

(** ** Theorems *)

Inductive Outbound :=
| OutControl (cmd : Cmd.ControlCommand Z) (frame_flags : Z)
| OutTelemetry (pkt : Telemetry.TelemetryPacket)
| OutMesh (beacon : MeshBeacon)
| OutAck (ack : AckFrame)
| OutIce (bs : list Z)
| OutSecure (sealed : list Z) (inner : Z).

Definition write_frame (m : UdpMux) (o : Outbound) (out : list Z) :
    exec (UdpMux * list Z * result nat IoError) :=
  match o with
  | OutControl cmd fl => write_control_frame m cmd fl out
  | OutTelemetry pkt => write_telemetry_frame m pkt out
  | OutMesh b => write_mesh_frame m b out
  | OutAck a => write_ack_frame m a out
  | OutIce bs => write_ice_frame m bs out
  | OutSecure bs inner => write_secure_frame m bs inner out
  end.

(** values in range; acknowledgements are not sent as commands *)
Definition outbound_wf (o : Outbound) : Prop :=
  match o with
  | OutControl cmd fl => pb_wf cmd /\ byte fl /\ Z.land fl FLAG_ACK = 0
  | OutTelemetry pkt => pb_wf pkt
  | OutMesh b => pb_wf b /\ Beacon.magic b = MESH_MAGIC /\ Beacon.version b = 1
  | OutAck a => pb_wf a
  | OutIce bs => bytes bs
  | OutSecure bs inner => bytes bs /\ byte inner
  end.

(** the payload an outbound value carries, if it can be serialised *)
Definition payload_of (o : Outbound) : option (list Z) :=
  match o with
  | OutControl cmd _ => to_bytes (Cmd.with_crc cmd (command_crc cmd))
  | OutTelemetry pkt => to_bytes pkt
  | OutMesh b => Some (bytes_of b)
  | OutAck a => Some (bytes_of a)
  | OutIce bs | OutSecure bs _ => Some bs
  end.

Definition channel_of (o : Outbound) : Channel * Z :=
  match o with
  | OutControl _ fl => (Control, fl)
  | OutTelemetry _ => (Telemetry, 0)
  | OutMesh _ => (Mesh, 0)
  | OutAck _ => (Control, FLAG_ACK)
  | OutIce _ => (Ice, 0)
  | OutSecure _ inner => (Secure, inner)
  end.

Definition inbound_of (o : Outbound) (from : Addr) : Inbound Addr :=
  match o with
  | OutControl cmd fl =>
      InControl (Cmd.with_crc cmd (command_crc cmd)) from (negb (Z.land fl FLAG_RELIABLE =? 0))
  | OutTelemetry pkt => InTelemetry pkt from
  | OutMesh b => InMesh b from
  | OutAck a => InAck a from
  | OutIce bs => InIce bs from
  | OutSecure bs inner => InSecure bs from inner
  end.

Lemma beacon_len b : pb_wf b -> length (bytes_of (T := MeshBeacon) b) = Beacon.BEACON_LEN.
Proof. intros. by apply (length_bytes_of b). Qed.

(** what every writer does *)
Lemma write_frame_spec m o out : length out = MAX_DATAGRAM -> outbound_wf o ->
  let '(ch, fl) := channel_of o in
  match payload_of o with
  | None => exists m', write_frame m o out = Ret (m', out, Err SerializeFailed)
  | Some p =>
      exists m', if decide (length p <= MAX_PAYLOAD)%nat
      then exists r, write_frame m o out = Ret (m', framed ch fl p ++ r, Ok (20 + length p)%nat)
      else write_frame m o out = Ret (m', out, Err InvalidData)
  end.
Proof.
  intros Ho Hw. destruct o as [cmd fl|pkt|b|a|bs|bs inner]; cbn [channel_of payload_of write_frame].
  - unfold write_control_frame. destruct (to_bytes _) as [bs|]; [by apply write_archived_spec|].
    eexists. done.
  - unfold write_telemetry_frame. destruct (to_bytes _) as [bs|]; [by apply write_archived_spec|].
    eexists. done.
  - exists m. destruct Hw as [Hw _]. pose proof (beacon_len b Hw) as Hl. change Beacon.BEACON_LEN with 40%nat in Hl.
    rewrite decide_True by (rewrite Hl; vm_compute; lia).
    apply write_encoded_spec; [done | rewrite Hl; vm_compute; lia].
  - exists m. pose proof (length_bytes_of a Hw) as Hl. change (size_of (T := AckFrame)) with 16%nat in Hl.
    rewrite decide_True by (rewrite Hl; vm_compute; lia).
    apply write_encoded_spec; [done | rewrite Hl; vm_compute; lia].
  - exists m. case_decide; [by apply write_opaque_spec|].
    unfold write_ice_frame, write_opaque. by rewrite (proj2 (Nat.ltb_lt _ _)) by lia.
  - exists m. case_decide; [by apply write_opaque_spec|].
    unfold write_secure_frame, write_opaque. by rewrite (proj2 (Nat.ltb_lt _ _)) by lia.
Qed.

Lemma with_crc_wf (c : Cmd.ControlCommand Z) : pb_wf c -> pb_wf (Cmd.with_crc c (command_crc c)).
Proof.
  intros H. destruct c as [? ? ? ? ? ? ? ? ? ax cr].
  assert (Hu : uint 32 (command_crc {| Cmd.magic := magic; Cmd.version := version;
    Cmd.reserved := reserved; Cmd.seq := seq; Cmd.timestamp_ns := timestamp_ns;
    Cmd.mode_raw := mode_raw; Cmd.flags := flags; Cmd.axis_count := axis_count;
    Cmd.pad0 := pad0; Cmd.axes := ax; Cmd.crc := cr |})).
  { apply crc32_uint, enc_fields_bytes. }
  revert Hu. generalize (command_crc {| Cmd.magic := magic; Cmd.version := version;
    Cmd.reserved := reserved; Cmd.seq := seq; Cmd.timestamp_ns := timestamp_ns;
    Cmd.mode_raw := mode_raw; Cmd.flags := flags; Cmd.axis_count := axis_count;
    Cmd.pad0 := pad0; Cmd.axes := ax; Cmd.crc := cr |}). intros k Hk.
  unfold pb_wf in *; simpl in *. unfold fields_wf, Cmd.fields in *; simpl in *.
  pose proof (Forall2_length _ _ _ H) as Hl. simpl in Hl. rewrite length_app in Hl. simpl in Hl.
  assert (H6 : length ax = 6%nat) by lia.
  do 6 (destruct ax as [|? ax]; [discriminate|]). destruct ax; [|discriminate]. simpl in *.
  repeat (apply Forall2_cons in H as [? H]). repeat (constructor; [assumption|]). constructor.
Qed.

Lemma demux_payload_inbound base o p (from : Addr) : base mod 16 = 0 -> outbound_wf o ->
  payload_of o = Some p ->
  demux_payload (Channel.as_u8 (channel_of o).1) (channel_of o).2
    {| addr := base + Z.of_nat HEADER_LEN; data := p |} from = Ok (inbound_of o from).
Proof.
  intros Hb Hw Hp. assert (Ha : (base + Z.of_nat HEADER_LEN) mod 16 = 0).
  { change (Z.of_nat HEADER_LEN) with (1 * 16). by rewrite Z.mod_add. }
  destruct o as [cmd fl|pkt|b|a|bs|bs inner]; cbn [channel_of payload_of fst snd inbound_of] in *;
    unfold demux_payload; rewrite Channel.channel_from_as_u8.
  - destruct Hw as (Hw & _ & Hack). rewrite Hack. cbn [negb Z.eqb].
    rewrite (access_to_bytes _ _ _ (with_crc_wf cmd Hw) Hp Ha). cbv zeta.
    change (command_crc (command_from_archived (Cmd.with_crc cmd (command_crc cmd))))
      with (command_crc cmd).
    cbn [Cmd.crc command_from_archived Cmd.with_crc]. by rewrite Z.eqb_refl.
  - by rewrite (access_to_bytes (T := Telemetry.TelemetryPacket) pkt p _ Hw Hp Ha).
  - destruct Hw as (Hw & Hm & Hv). assert (p = bytes_of b) as -> by congruence. unfold Beacon.decode. cbn [data].
    pose proof (beacon_len b Hw) as Hl.
    rewrite decide_False by (rewrite Hl; apply Nat.lt_irrefl). rewrite take_ge by (by rewrite Hl).
    rewrite (of_raw_bytes_of b Hw), Hm, Hv. done.
  - assert (p = bytes_of a) as -> by congruence. unfold Ack.decode. rewrite <- (app_nil_r (bytes_of a)).
    rewrite ref_from_bytes_ok; [done | done|].
    change (align_of (T := AckFrame)) with 8. rewrite <- (Z.mod_mod_divide _ 16 8) by (by exists 2).
    by rewrite Ha.
  - by injection Hp as <-.
  - by injection Hp as <-.
Qed.

Lemma payload_bytes o p : outbound_wf o -> payload_of o = Some p ->
  bytes p /\ byte (channel_of o).2.
Proof.
  intros Hw Hp. destruct o as [cmd fl|pkt|b|a|bs|bs inner]; cbn [payload_of channel_of outbound_wf snd] in *.
  - destruct Hw as (_ & Hf & _). split; [by apply (to_bytes_bytes _ _ Hp) | done].
  - split; [by apply (to_bytes_bytes (T := Telemetry.TelemetryPacket) _ _ Hp) | done].
  - assert (p = bytes_of b) as -> by congruence. split; [by apply enc_fields_bytes | done].
  - assert (p = bytes_of a) as -> by congruence. split; [by apply enc_fields_bytes | done].
  - by simplify_eq.
  - by simplify_eq.
Qed.

(** C39: What is framed is what arrives: on every channel (control with its
    integrity stamp and reliable flag, telemetry, mesh beacons, acknowledgements,
    opaque ICE bytes and sealed envelopes with their inner tag) a writer either
    reports the serialisation or size error and leaves the buffer alone, or
    produces a datagram that the receiver's parser turns back into exactly the
    value sent, whatever the buffers held before. *)
Theorem mux_roundtrip m o out rest base (from : Addr) :
  length out = MAX_DATAGRAM -> outbound_wf o -> base mod 16 = 0 ->
  match payload_of o with
  | None => exists m', write_frame m o out = Ret (m', out, Err SerializeFailed)
  | Some p =>
      if decide (length p <= MAX_PAYLOAD)%nat then
        exists m' out' n, write_frame m o out = Ret (m', out', Ok n) /\
          n = (length p + HEADER_LEN + TRAILER_LEN)%nat /\
          demux base (take n out' ++ rest) n from = Ret (Ok (inbound_of o from))
      else exists m', write_frame m o out = Ret (m', out, Err InvalidData)
  end.
Proof.
  intros Ho Hw Hb. pose proof (write_frame_spec m o out Ho Hw) as H.
  pose proof (demux_payload_inbound base o) as Hd.
  destruct (channel_of o) as [ch fl] eqn:Hch. destruct (payload_of o) as [p|] eqn:Hp; [|done].
  destruct H as [m' H]. case_decide as Hl; [|by exists m'].
  destruct H as [r H]. exists m', (framed ch fl p ++ r), (20 + length p)%nat.
  split; [done|]. split; [unfold HEADER_LEN, TRAILER_LEN; lia|].
  rewrite take_app_length' by (by rewrite length_framed).
  destruct (payload_bytes o p Hw Hp) as [Hpb Hfb]. rewrite Hch in Hfb.
  rewrite demux_framed by done. f_equal. by apply Hd.
Qed.

(** ** Corruption *)

(** what a successful parse has checked *)
Lemma demux_ok_inv base buf n (from : Addr) v : demux base buf n from = Ret (Ok v) ->
  exists fin, (fin + TRAILER_LEN = n)%nat /\ (10 <= fin)%nat /\ (n <= length buf)%nat /\
    crc32 (take fin buf) = le_val (drop fin (take n buf)).
Proof.
  unfold demux. destruct (n <? _)%nat; [done|]. intros (head & _ & H)%bind_ret_inv.
  destruct (ref_from_bytes _) as [hdr|]; [|done]. destruct (negb _ || negb _); [done|].
  cbv zeta in H. destruct (negb (_ =? n)%nat) eqn:Ht; [done|]. apply negb_false_iff, Nat.eqb_eq in Ht.
  apply bind_ret_inv in H as (fr & [Hn Hfr]%slice_to_inv & H).
  apply bind_ret_inv in H as (cov & [_ Hcov]%slice_to_inv & H).
  destruct (negb (_ =? le_val _)) eqn:Hc; [done|]. apply negb_false_iff, Z.eqb_eq in Hc.
  rewrite Ht in Hn, Hfr. subst fr cov.
  eexists. split; [exact Ht|]. split; [unfold HEADER_LEN; lia|]. done.
Qed.

Lemma demux_total base buf n (from : Addr) : length buf = MAX_DATAGRAM -> (n <= MAX_DATAGRAM)%nat ->
  exists r, demux base buf n from = Ret r.
Proof.
  intros Hl Hn. unfold demux, MAX_DATAGRAM in *. destruct (n <? _)%nat; [by eexists|].
  rewrite slice_to_ok by lia. cbn [mbind exec_bind].
  destruct (ref_from_bytes _) as [hdr|]; [|by eexists]. destruct (negb _ || negb _); [by eexists|].
  cbv zeta. destruct (negb (_ =? n)%nat) eqn:Ht; [by eexists|].
  apply negb_false_iff, Nat.eqb_eq in Ht. rewrite Ht. unfold TRAILER_LEN in *.
  rewrite !slice_to_ok by lia. cbn [mbind exec_bind]. destruct (negb _); [by eexists|].
  destruct (lookup_lt_is_Some_2 buf 8%nat ltac:(lia)) as [x Hx].
  destruct (lookup_lt_is_Some_2 buf 9%nat ltac:(lia)) as [y Hy].
  rewrite (index_ok _ _ _ Hx), (index_ok _ _ _ Hy). by eexists.
Qed.

(** The parser never panics on any datagram, and a frame it accepts stops being
    accepted as soon as any one byte of it (header, payload or trailer) is
    altered. *)
Theorem mux_rejects_byte_error base buf n (from : Addr) :
  length buf = MAX_DATAGRAM -> (n <= MAX_DATAGRAM)%nat -> bytes buf ->
  (exists r, demux base buf n from = Ret r) /\
  forall v i b, demux base buf n from = Ret (Ok v) -> (i < n)%nat -> byte b ->
    buf !! i <> Some b -> exists e, demux base (<[i := b]> buf) n from = Ret (Err e).
Proof.
  intros Hlen Hn Hbytes.
  pose proof (fun buf' Hl => demux_total base buf' n from Hl Hn) as Htot.
  split; [by apply Htot|]. intros v i b Hok Hi Hb Hne.
  destruct (Htot (<[i := b]> buf)) as [[v'|e] Hr]; [by rewrite length_insert | exfalso | eauto].
  destruct (demux_ok_inv _ _ _ _ _ Hok) as (fin & Hfin & H10 & _ & Hcrc).
  destruct (demux_ok_inv _ _ _ _ _ Hr) as (fin' & Hfin' & _ & _ & Hcrc').
  assert (fin' = fin) as -> by lia. unfold TRAILER_LEN in *.
  destruct (lookup_lt_is_Some_2 buf i ltac:(lia)) as [a Ha].
  assert (a <> b) by (intros ->; done).
  destruct (decide (i < fin)%nat) as [Hlt|Hge].
  - rewrite (take_insert_lt buf fin), (take_insert_lt buf n), drop_insert_lt, <- Hcrc in Hcrc' by lia.
    revert Hcrc'. apply (crc32_insert_ne _ _ a); [by apply Forall_take | | done | done].
    by rewrite lookup_take_lt.
  - rewrite (take_insert_ge buf fin), (take_insert_lt buf n), drop_insert_ge, Hcrc in Hcrc' by lia.
    assert (Htr : bytes (drop fin (take n buf))) by (by apply Forall_drop, Forall_take).
    apply le_val_inj in Hcrc'; [|done | by apply Forall_insert | by rewrite length_insert].
    symmetry in Hcrc'. revert Hcrc'. apply (insert_neq _ _ a); [|done].
    rewrite lookup_drop, lookup_take_lt by lia. rewrite <- Ha. f_equal. lia.
Qed.


End Parse.

(** ** Concrete runs

    The raw image is an archive format that meets [Rkyv]. *)

Definition raw_access {T} `{!PlainBytes T} (s : slice) : option T :=
  match ref_from_bytes (T := T) s with Ok v => Some v | Err _ => None end.

Lemma raw_access_ok {T} `{!PlainBytes T} (v : T) bs a : 16 mod align_of (T := T) = 0 ->
  0 < align_of (T := T) -> pb_wf v -> Some (bytes_of v) = Some bs -> a mod 16 = 0 ->
  raw_access {| addr := a; data := bs |} = Some v.
Proof.
  intros Hal Hpos Hw [= <-] Ha. unfold raw_access. rewrite <- (app_nil_r (bytes_of v)).
  rewrite ref_from_bytes_ok; [done | done|].
  rewrite <- (Z.mod_mod_divide a 16); [by rewrite Ha|]. apply Z.mod_divide; [lia | done].
Qed.

Lemma raw_cmd_bytes (v : Cmd.ControlCommand Z) bs : Some (bytes_of v) = Some bs -> bytes bs.
Proof. intros E. assert (bs = bytes_of v) as -> by congruence. apply enc_fields_bytes. Qed.
Lemma raw_tp_bytes (v : Telemetry.TelemetryPacket) bs : Some (bytes_of v) = Some bs -> bytes bs.
Proof. intros E. assert (bs = bytes_of v) as -> by congruence. apply enc_fields_bytes. Qed.

Definition raw_cmd : Rkyv (Cmd.ControlCommand Z) pb_wf :=
  {| to_bytes v := Some (bytes_of v); access_root := raw_access;
     to_bytes_bytes := raw_cmd_bytes;
     access_to_bytes v bs a := raw_access_ok v bs a eq_refl eq_refl |}.

Definition raw_tp : Rkyv Telemetry.TelemetryPacket pb_wf :=
  {| to_bytes v := Some (bytes_of v); access_root := raw_access;
     to_bytes_bytes := raw_tp_bytes;
     access_to_bytes v bs a := raw_access_ok v bs a eq_refl eq_refl |}.

Definition demo_mux : UdpMux :=
  {| scratch := []; stats := no_stats; backpressure := Bp.new 100000000 |}.
Definition demo_cmd : Cmd.ControlCommand Z := Cmd.zeroed 0 Assist.

Lemma demo_cmd_wf : pb_wf demo_cmd.
Proof. repeat constructor; vm_compute; congruence. Qed.

Lemma mux_roundtrip_witness :
  exists m' out' n, write_frame (RC := raw_cmd) (RT := raw_tp) demo_mux
      (OutControl demo_cmd FLAG_RELIABLE) (replicate MAX_DATAGRAM 0) = Ret (m', out', Ok n) /\
    n = 76%nat /\
    demux (RC := raw_cmd) (RT := raw_tp) 0 (take n out' ++ []) n tt =
      Ret (Ok (InControl (Cmd.with_crc demo_cmd (command_crc demo_cmd)) tt true)).
Proof.
  pose proof (mux_roundtrip (RC := raw_cmd) (RT := raw_tp) demo_mux
    (OutControl demo_cmd FLAG_RELIABLE) (replicate MAX_DATAGRAM 0) [] 0 tt eq_refl) as H.
  cbn [payload_of to_bytes raw_cmd] in H. rewrite decide_True in H by (vm_compute; lia).
  apply H; [|reflexivity]. split; [apply demo_cmd_wf|]. split; [vm_compute; split; congruence | reflexivity].
Defined.

Definition demo_frame : list Z := framed Ice 0 [1; 2; 3] ++ replicate 1477 0.

Lemma mux_rejects_byte_error_witness :
  exists e, demux (RC := raw_cmd) (RT := raw_tp) 0 (<[17%nat := 9]> demo_frame) 23 tt = Ret (Err e).
Proof.
  assert (Hb : forallb (uintb 8) demo_frame = true) by (vm_compute; reflexivity).
  destruct (mux_rejects_byte_error (RC := raw_cmd) (RT := raw_tp) 0 demo_frame 23 tt) as [_ H].
  - vm_compute. reflexivity.
  - vm_compute. lia.
  - apply Forall_forall. intros x Hx. apply uintb_spec.
    rewrite forallb_forall in Hb. apply Hb. by apply list_elem_of_In.
  - apply (H (InIce [1; 2; 3] tt) 17%nat 9).
    + vm_compute. reflexivity.
    + lia.
    + vm_compute. split; congruence.
    + vm_compute. congruence.
Defined.
