(* ===== verification/Service.v ===== *)
(** * The network service: [tpt-t-link/src/service.rs]

    One thread drives the multiplexer, the reliable channel, the mesh and the
    token bucket: it drains the socket, hands events to a sink that may reply on
    the spot, flushes the ring of approved commands, sends beacons and resends
    overdue frames.  The machine it runs on (clock, socket, transmit ring) is the
    class [Host]; the sink is a program over the core's public operations. *)

From S2P Require Import Prelude Ring Mesh Backpressure Reliable Cast Mode Ser Crc Mux.

Record SocketAddr := { ip : Z; port : Z }.
#[global] Instance SocketAddr_eq_dec : EqDecision SocketAddr.
Proof. solve_decision. Defined.
Definition set_port (a : SocketAddr) (p : Z) : SocketAddr := {| ip := ip a; port := p |}.

Inductive received := NoDatagram | RecvFailed | Datagram (rxbuf : list Z) (n : nat) (from : SocketAddr).

(** The operating system as the service sees it.  A datagram arrives in the
    receive buffer, whose bytes past the datagram are whatever was there. *)
Class Host (W : Type) := {
  elapsed : W -> W * Z;
  send_to : W -> SocketAddr -> list Z -> W * result nat IoError;
  (** stage, submit, wait and reap one send: did it complete? *)
  uring_send : W -> SocketAddr -> list Z -> W * bool;
  recv_from : W -> W * received;
  local_port : W -> option Z;
  recv_shape w w' b n a : recv_from w = (w', Datagram b n a) ->
    length b = MAX_DATAGRAM /\ (n <= MAX_DATAGRAM)%nat /\ bytes b;
  port_shape w p : local_port w = Some p -> uint 16 p
}.

Record ServiceConfig := {
  unit_id : Z; listen_port : Z; beacon_interval_ns : Z; mesh_ttl_ns : Z;
  beacon_peers : list SocketAddr; primary_peer : option SocketAddr;
  reliable_control : bool; rto_ns : Z
}.
Definition default_service : ServiceConfig :=
  {| unit_id := 0; listen_port := 0; beacon_interval_ns := 200000000; mesh_ttl_ns := 5000000000;
     beacon_peers := []; primary_peer := None; reliable_control := false; rto_ns := 10000000 |}.

Definition RELIABLE_WINDOW : Z := 128.

Inductive Event :=
| EvControl (cmd : Cmd.ControlCommand Z) (from : SocketAddr) (reliable : bool)
| EvTelemetry (pkt : Telemetry.TelemetryPacket) (from : SocketAddr)
| EvIce (bs : list Z) (from : SocketAddr)
| EvNeighborUp (id : Z) (a : SocketAddr)
| EvSecure (sealed : list Z) (from : SocketAddr) (inner : Z).

(** The calls a sink can make on the core, and a sink's run: it makes calls,
    looks at their results, and ends with its own new state. *)
Inductive call :=
| SendControl (cmd : Cmd.ControlCommand Z) (dst : SocketAddr)
| SendTelemetry (pkt : Telemetry.TelemetryPacket) (dst : SocketAddr)
| SendIce (bs : list Z) (dst : SocketAddr)
| SendSecure (sealed : list Z) (inner : Z) (dst : SocketAddr)
| BeaconFanout.

Inductive sink_run (U : Type) :=
| Done (u : U)
| Call (c : call) (k : result unit IoError -> sink_run U).
Arguments Done {U} u.
Arguments Call {U} c k.

Section Service.
Context `{RC : !Rkyv (Cmd.ControlCommand Z) pb_wf} `{RT : !Rkyv Telemetry.TelemetryPacket pb_wf}.
Context {W : Type} `{HW : !Host W}.
Context {Q : Type} `{BF : !BoundedFifo Q (Cmd.ControlCommand Z)}.

Record ServiceCore := {
  mux : UdpMux; tx : list Z; cfg : ServiceConfig; mesh : NeighborTable SocketAddr;
  rel_tx : ReliableTx; rel_rx : ReliableRx; outbox : Q;
  last_beacon_ns : Z; beacon_seq : Z; uring : bool;
  (** where the receive buffer lies *)
  rx_base : Z
}.

(** the core, the machine, and every datagram handed to the kernel so far *)
Record st := { core : ServiceCore; world : W; wire : list (SocketAddr * list Z) }.

Definition new_core (c : ServiceConfig) (m : UdpMux) (safety_out : Q) (has_uring : bool) (base : Z) : ServiceCore :=
  {| mux := m; tx := replicate MAX_DATAGRAM 0; cfg := c; mesh := with_capacity 128;
     rel_tx := Tx.new RELIABLE_WINDOW; rel_rx := Rx.new; outbox := safety_out;
     last_beacon_ns := 0; beacon_seq := 0; uring := has_uring; rx_base := base |}.

(** field updates *)
Definition set_core (s : st) (c : ServiceCore) : st := {| core := c; world := world s; wire := wire s |}.
Definition set_world (s : st) (w : W) : st := {| core := core s; world := w; wire := wire s |}.
Definition upd_mux (s : st) (m : UdpMux) (t : list Z) : st :=
  let c := core s in
  set_core s {| mux := m; tx := t; cfg := cfg c; mesh := mesh c; rel_tx := rel_tx c;
    rel_rx := rel_rx c; outbox := outbox c; last_beacon_ns := last_beacon_ns c;
    beacon_seq := beacon_seq c; uring := uring c; rx_base := rx_base c |}.
Definition upd_rel (s : st) (t : ReliableTx) (r : ReliableRx) : st :=
  let c := core s in
  set_core s {| mux := mux c; tx := tx c; cfg := cfg c; mesh := mesh c; rel_tx := t;
    rel_rx := r; outbox := outbox c; last_beacon_ns := last_beacon_ns c;
    beacon_seq := beacon_seq c; uring := uring c; rx_base := rx_base c |}.
Definition upd_mesh (s : st) (t : NeighborTable SocketAddr) : st :=
  let c := core s in
  set_core s {| mux := mux c; tx := tx c; cfg := cfg c; mesh := t; rel_tx := rel_tx c;
    rel_rx := rel_rx c; outbox := outbox c; last_beacon_ns := last_beacon_ns c;
    beacon_seq := beacon_seq c; uring := uring c; rx_base := rx_base c |}.
Definition upd_outbox (s : st) (q : Q) : st :=
  let c := core s in
  set_core s {| mux := mux c; tx := tx c; cfg := cfg c; mesh := mesh c; rel_tx := rel_tx c;
    rel_rx := rel_rx c; outbox := q; last_beacon_ns := last_beacon_ns c;
    beacon_seq := beacon_seq c; uring := uring c; rx_base := rx_base c |}.
Definition upd_beacon (s : st) (last sq : Z) : st :=
  let c := core s in
  set_core s {| mux := mux c; tx := tx c; cfg := cfg c; mesh := mesh c; rel_tx := rel_tx c;
    rel_rx := rel_rx c; outbox := outbox c; last_beacon_ns := last;
    beacon_seq := sq; uring := uring c; rx_base := rx_base c |}.
Definition upd_bp (m : UdpMux) (b : Bp.Backpressure) : UdpMux :=
  {| scratch := scratch m; stats := stats m; backpressure := b |}.
Definition upd_stats (m : UdpMux) (s : LinkStats) : UdpMux :=
  {| scratch := scratch m; stats := s; backpressure := backpressure m |}.

Definition now_ns (s : st) : st * Z :=
  let '(w, t) := elapsed (world s) in (set_world s w, t).

Definition bump_tx_frames (s : LinkStats) : LinkStats :=
  {| tx_frames := bump (tx_frames s); tx_payload_bytes := tx_payload_bytes s;
     tx_errors := tx_errors s; rx_frames := rx_frames s; rx_malformed := rx_malformed s;
     rx_crc_errors := rx_crc_errors s; rx_rejected := rx_rejected s |}.
Definition bump_reject (s : LinkStats) (e : FrameError) : LinkStats :=
  {| tx_frames := tx_frames s; tx_payload_bytes := tx_payload_bytes s;
     tx_errors := tx_errors s; rx_frames := rx_frames s;
     rx_malformed := match e with Malformed => bump (rx_malformed s) | _ => rx_malformed s end;
     rx_crc_errors := match e with CrcMismatch => bump (rx_crc_errors s) | _ => rx_crc_errors s end;
     rx_rejected := match e with PayloadRejected => bump (rx_rejected s) | _ => rx_rejected s end |}.

(** [self.mux.send_framed(dst, buf, now)] *)
Definition socket_path (s : st) (dst : SocketAddr) (b : list Z) (now : Z) : st * result nat IoError :=
  let '(w, r) := send_to (world s) dst b in
  let s := set_world s w in
  let '(m, r) := send_framed (mux (core s)) r now in
  (upd_mux s m (tx (core s)), r).

Definition log_wire (s : st) (dst : SocketAddr) (b : list Z) : st :=
  {| core := core s; world := world s; wire := wire s ++ [(dst, b)] |}.

Definition transmit (s : st) (dst : SocketAddr) (b : list Z) (now : Z) : st * result nat IoError :=
  let s := log_wire s dst b in
  if uring (core s) then
    let '(w, ok) := uring_send (world s) dst b in
    let s := set_world s w in
    if ok then
      let m := mux (core s) in
      (upd_mux s (upd_stats m (bump_tx_frames (stats m))) (tx (core s)), Ok (length b))
    else socket_path s dst b now
  else socket_path s dst b now.

(** the copy of [self.tx[..n]] into a stack frame, and its transmission *)
Definition transmit_tx (s : st) (dst : SocketAddr) (n : nat) (now : Z) :
    exec (st * result unit IoError) :=
  out ← slice_to (tx (core s)) n;
  frame ← copy_from_slice (replicate MAX_DATAGRAM 0) 0 out;
  b ← slice_to frame n;
  let '(s, r) := transmit s dst b now in
  Ret (s, match r with Ok _ => Ok tt | Err e => Err e end).

Definition primary_dst (c : ServiceCore) : option SocketAddr :=
  match primary_peer (cfg c) with
  | Some a => Some a
  | None => match Mesh.iter (mesh c) with [] => None | e :: _ => Some (Mesh.addr e) end
  end.

(** ** The core's public operations *)

(** the copy of a reliable command kept for retransmission *)
Definition retain (reliable : bool) (cmd : Cmd.ControlCommand Z) (now : Z) (s : st) (n : nat) : exec st :=
  if reliable && (n <=? MAX_RELIABLE_PAYLOAD)%nat then
    out ← slice_to (tx (core s)) n;
    retained ← copy_from_slice (replicate MAX_RELIABLE_PAYLOAD 0) 0 out;
    p ← slice_to retained n;
    '(rt, _) ← Tx.send (rel_tx (core s)) (wrap 32 (Cmd.seq cmd)) p now;
    Ret (upd_rel s rt (rel_rx (core s)))
  else Ret s.

Definition send_control (s : st) (cmd : Cmd.ControlCommand Z) (dst : SocketAddr) :
    exec (st * result unit IoError) :=
  let '(s, now) := now_ns s in
  let reliable := reliable_control (cfg (core s)) in
  let frame_flags := if reliable then FLAG_RELIABLE else 0 in
  '(m, t, r) ← write_control_frame (mux (core s)) cmd frame_flags (tx (core s));
  let s := upd_mux s m t in
  match r with
  | Err e => Ret (s, Err e)
  | Ok n =>
      s ← retain reliable cmd now s n;
      transmit_tx s dst n now
  end.

Definition send_telemetry (s : st) (pkt : Telemetry.TelemetryPacket) (dst : SocketAddr) :
    exec (st * result unit IoError) :=
  let '(s, now) := now_ns s in
  '(m, t, r) ← write_telemetry_frame (mux (core s)) pkt (tx (core s));
  let s := upd_mux s m t in
  match r with
  | Err e => Ret (s, Err e)
  | Ok n =>
      let m := mux (core s) in
      let '(b, granted) := Bp.admit_bytes (backpressure m) (Z.of_nat n) now in
      let s := upd_mux s (upd_bp m b) (tx (core s)) in
      if negb granted then Ret (s, Ok tt) else transmit_tx s dst n now
  end.

Definition send_ice (s : st) (bs : list Z) (dst : SocketAddr) : exec (st * result unit IoError) :=
  let '(s, now) := now_ns s in
  '(m, t, r) ← write_ice_frame (mux (core s)) bs (tx (core s));
  let s := upd_mux s m t in
  match r with Err e => Ret (s, Err e) | Ok n => transmit_tx s dst n now end.

Definition send_secure (s : st) (sealed : list Z) (inner : Z) (dst : SocketAddr) :
    exec (st * result unit IoError) :=
  let '(s, now) := now_ns s in
  '(m, t, r) ← write_secure_frame (mux (core s)) sealed inner (tx (core s));
  let s := upd_mux s m t in
  match r with Err e => Ret (s, Err e) | Ok n => transmit_tx s dst n now end.

Definition send_beacon_to (s : st) (dst : SocketAddr) : exec (st * result unit IoError) :=
  let '(s, now) := now_ns s in
  let c := core s in
  let port := match local_port (world s) with Some p => p | None => listen_port (cfg c) end in
  let beacon := Beacon.new (unit_id (cfg c)) (beacon_seq c) now port in
  '(m, t, r) ← write_mesh_frame (mux c) beacon (tx c);
  let s := upd_mux s m t in
  match r with Err e => Ret (s, Err e) | Ok n => transmit_tx s dst n now end.

Fixpoint beacons_to (s : st) (peers : list SocketAddr) : exec st :=
  match peers with
  | [] => Ret s
  | dst :: peers => '(s, _) ← send_beacon_to s dst; beacons_to s peers
  end.
Definition beacon_fanout (s : st) : exec st :=
  beacons_to s (beacon_peers (cfg (core s)) ++ (Mesh.addr <$> Mesh.iter (mesh (core s)))).

Definition run_call (s : st) (c : call) : exec (st * result unit IoError) :=
  match c with
  | SendControl cmd dst => send_control s cmd dst
  | SendTelemetry pkt dst => send_telemetry s pkt dst
  | SendIce bs dst => send_ice s bs dst
  | SendSecure sealed inner dst => send_secure s sealed inner dst
  | BeaconFanout => s ← beacon_fanout s; Ret (s, Ok tt)
  end.

Fixpoint run_sink {U} (p : sink_run U) (s : st) : exec (st * U) :=
  match p with
  | Done u => Ret (s, u)
  | Call c k => '(s, r) ← run_call s c; run_sink (k r) s
  end.

(** ** Receiving *)

(** phase C: protocol state, and the event for the sink *)
Definition on_frame (s : st) (f : Inbound SocketAddr) : exec (st * option Event) :=
  let '(s, now) := now_ns s in
  match f with
  | InControl arch from reliable =>
      let cmd := command_from_archived arch in
      s ← (if reliable then
             '(rr, _) ← Rx.accept (rel_rx (core s)) (wrap 32 (Cmd.seq cmd)) [];
             let s := upd_rel s (rel_tx (core s)) rr in
             let ack := Rx.build_ack rr 0 in
             '(m, t, r) ← write_ack_frame (mux (core s)) ack (tx (core s));
             let s := upd_mux s m t in
             match r with
             | Ok n => '(s, _) ← transmit_tx s from n now; Ret s
             | Err _ => Ret s
             end
           else Ret s);
      Ret (s, Some (EvControl cmd from reliable))
  | InTelemetry pkt from => Ret (s, Some (EvTelemetry pkt from))
  | InIce bs from => Ret (s, Some (EvIce bs from))
  | InSecure sealed from inner => Ret (s, Some (EvSecure sealed from inner))
  | InMesh beacon src =>
      let peer := set_port src (Beacon.listen_port beacon) in
      let '(t, up) := Mesh.observe (mesh (core s)) (Beacon.unit_id beacon) peer
                        (Beacon.seq beacon) (Beacon.ts_ns beacon) now in
      let s := upd_mesh s t in
      if up then
        '(s, _) ← send_beacon_to s peer;
        Ret (s, Some (EvNeighborUp (Beacon.unit_id beacon) peer))
      else Ret (s, None)
  | InAck ack _ =>
      '(rt, rtt) ← Tx.on_ack (rel_tx (core s)) ack now;
      let s := upd_rel s rt (rel_rx (core s)) in
      let m := mux (core s) in
      let s := match rtt with
               | Some r => upd_mux s (upd_bp m (Bp.note_rtt_ns (backpressure m) r)) (tx (core s))
               | None => s
               end in
      Ret (s, None)
  end.

Section Sink.
Context {U : Type} (sink : U -> Event -> sink_run U).

Fixpoint drain_now (fuel : nat) (s : st) (u : U) (handled : nat) : exec (st * U * nat) :=
  match fuel with
  | O => NoFuel
  | S fuel =>
      let '(w, got) := recv_from (world s) in
      let s := set_world s w in
      match got with
      | NoDatagram | RecvFailed => Ret (s, u, handled)
      | Datagram b n from =>
          '(m, step) ← recv_frame (mux (core s)) (rx_base (core s)) (Some (b, n, from));
          let s := upd_mux s m (tx (core s)) in
          match step with
          | None => Ret (s, u, handled)
          | Some (Err e) =>
              let s := upd_mux s (upd_stats m (bump_reject (stats m) e)) (tx (core s)) in
              drain_now fuel s u handled
          | Some (Ok f) =>
              '(s, ev) ← on_frame s f;
              match ev with
              | None => drain_now fuel s u handled
              | Some ev =>
                  '(s, u) ← run_sink (sink u ev) s;
                  drain_now fuel s u (S handled)
              end
          end
      end
  end.

(** ** Timers *)

Fixpoint flush_outbox (fuel : nat) (s : st) : exec st :=
  match fuel with
  | O => NoFuel
  | S fuel =>
      '(q, c) ← fifo_pop (outbox (core s));
      let s := upd_outbox s q in
      match c with
      | None => Ret s
      | Some cmd =>
          match primary_dst (core s) with
          | Some dst =>
              '(s, r) ← send_control s cmd dst;
              if is_ok r then flush_outbox fuel s else Ret s
          | None => Ret s
          end
      end
  end.

Fixpoint resend (s : st) (dst : SocketAddr) (out : list (Z * list Z)) (now : Z) : st :=
  match out with
  | [] => s
  | (_, b) :: out => let '(s, _) := socket_path (log_wire s dst b) dst b now in resend s dst out now
  end.

Definition heartbeat (s : st) (now : Z) : exec st :=
  if beacon_interval_ns (cfg (core s)) <=? ssub now (last_beacon_ns (core s)) then
    let s := upd_beacon s now (wadd 32 (beacon_seq (core s)) 1) in
    s ← beacon_fanout s;
    Ret (upd_mesh s (Mesh.expire (mesh (core s)) now (mesh_ttl_ns (cfg (core s)))).1)
  else Ret s.

Definition background (s : st) : exec st :=
  let '(s, now) := now_ns s in
  s ← flush_outbox (S (Z.to_nat (fifo_capacity (outbox (core s))))) s;
  s ← heartbeat s now;
  match primary_dst (core s) with
  | None => Ret s
  | Some dst =>
      let '(s, now) := now_ns s in
      '(rt, out, _) ← Tx.tick (rel_tx (core s)) now (rto_ns (cfg (core s)));
      Ret (resend (upd_rel s rt (rel_rx (core s))) dst out now)
  end.

(** the readiness callbacks of one [dispatch] *)
Fixpoint drains (k fuel : nat) (s : st) (u : U) (handled : nat) : exec (st * U * nat) :=
  match k with
  | O => Ret (s, u, handled)
  | S k => '(s, u, handled) ← drain_now fuel s u handled; drains k fuel s u handled
  end.

(** [dispatched] is what the platform loop returned, [reads] how often it
    reported the socket readable meanwhile *)
Definition poll (fuel : nat) (dispatched : result nat IoError) (reads : nat) (s : st) (u : U) :
    exec (st * U * result nat IoError) :=
  '(s, u, handled) ← drains reads fuel s u 0;
  match dispatched with
  | Err e => Ret (s, u, Err e)
  | Ok d =>
      '(s, u, handled) ← drain_now fuel s u handled;
      s ← background s;
      Ret (s, u, Ok (Nat.max d handled))
  end.
End Sink.

End Service.

Arguments ServiceCore : clear implicits.
Arguments st : clear implicits.

(** ** Shapes: what keeps the reliable channel's arrays in range *)

Record tx_shape (t : ReliableTx) : Prop := {
  ts_pow2 : pow2 (Z.of_nat (Tx.window t));
  ts_small : Z.of_nat (Tx.window t) <= 2 ^ 31;
  ts_mask : Tx.mask t = Z.of_nat (Tx.window t) - 1;
  ts_slots : Forall (fun s => length (Tx.bytes s) = MAX_RELIABLE_PAYLOAD /\
                              (Tx.len s <= MAX_RELIABLE_PAYLOAD)%nat) (Tx.slots t)
}.

Definition rx_shape (r : ReliableRx) : Prop :=
  length (Rx.slots r) = Z.to_nat SACK_BITS /\
  Forall (fun s => length (Rx.bytes s) = MAX_RELIABLE_PAYLOAD) (Rx.slots r).

Lemma tx_slot t sq : tx_shape t -> exists s, Tx.slots t !! Tx.slot_ix t sq = Some s /\
  length (Tx.bytes s) = MAX_RELIABLE_PAYLOAD /\ (Tx.len s <= MAX_RELIABLE_PAYLOAD)%nat.
Proof.
  intros [Hp Hs Hm Hf]. unfold Tx.slot_ix. rewrite Hm, land_mask by done.
  pose proof (pow2_ge1 _ Hp). destruct (lookup_lt_is_Some_2 (Tx.slots t)
    (Z.to_nat (sq mod Z.of_nat (Tx.window t)))) as [s Hl].
  { pose proof (Z.mod_pos_bound sq (Z.of_nat (Tx.window t))). fold (Tx.window t). lia. }
  exists s. split; [done|]. exact (Forall_lookup_1 _ _ _ _ Hf Hl).
Qed.

Lemma set_slot_shape t i s : tx_shape t -> length (Tx.bytes s) = MAX_RELIABLE_PAYLOAD ->
  (Tx.len s <= MAX_RELIABLE_PAYLOAD)%nat -> tx_shape (Tx.set_slot t i s).
Proof.
  intros [Hp Hs Hm Hf] Hb Hl.
  assert (Hw : Tx.window (Tx.set_slot t i s) = Tx.window t) by apply length_insert.
  constructor; rewrite ?Hw; try done. by apply Forall_insert.
Qed.

Lemma free_slot_shape t i s : tx_shape t -> length (Tx.bytes s) = MAX_RELIABLE_PAYLOAD ->
  tx_shape (Tx.free_slot t i s).
Proof. intros H Hb. apply set_slot_shape; [done | done | cbn; lia]. Qed.

Lemma tx_new_shape : tx_shape (Tx.new RELIABLE_WINDOW).
Proof.
  constructor; try by (vm_compute; congruence || done).
  - exists 7. split; [lia | vm_compute; reflexivity].
  - unfold Tx.new. cbn [Tx.slots]. apply Forall_fmap, Forall_true. intros i.
    split; [apply length_replicate | apply Nat.le_0_l].
Qed.

Lemma rx_new_shape : rx_shape Rx.new.
Proof.
  split; [apply length_replicate|]. apply Forall_replicate. apply length_replicate.
Qed.

Lemma tx_send_shape t sq p now : tx_shape t -> (length p <= MAX_RELIABLE_PAYLOAD)%nat ->
  exists t' r, Tx.send t sq p now = Ret (t', r) /\ tx_shape t' /\ Tx.oldest t' = Tx.oldest t.
Proof.
  intros Hs Hp. unfold Tx.send. rewrite (proj2 (Nat.leb_le _ _) Hp). cbn [assert mbind exec_bind].
  case_if; [by do 2 eexists|].
  destruct (tx_slot t sq Hs) as (s & Hl & Hb & _). rewrite (index_ok _ _ _ Hl). cbn [mbind exec_bind].
  case_if; [by do 2 eexists|]. unfold copy_from_slice. rewrite decide_True by (rewrite Hb; cbn; lia).
  cbn [mbind exec_bind]. do 2 eexists. split; [done|]. split; [|done].
  apply set_slot_shape; [done | | done]. cbn [Tx.bytes]. rewrite length_splice by (rewrite Hb; cbn; lia). done.
Qed.

Lemma ack_loop_shape fuel : forall t base now rtt, tx_shape t ->
  (wsub 32 base (Tx.oldest t) < Z.of_nat fuel \/ Z.of_nat (Tx.window t) <= wsub 32 base (Tx.oldest t)) ->
  (0 < fuel)%nat ->
  exists t' r, Tx.ack_loop fuel t base now rtt = Ret (t', r) /\ tx_shape t' /\
    Tx.window t' = Tx.window t /\ (base = Tx.oldest t -> Tx.oldest t' = Tx.oldest t).
Proof.
  induction fuel as [|fuel IH]; intros t base now rtt Hs Hf H0; [lia|]. cbn [Tx.ack_loop].
  pose proof (ts_small _ Hs) as Hsm. pose proof (pow2_ge1 _ (ts_pow2 _ Hs)) as H1.
  assert (Hw : Tx.window32 t = Z.of_nat (Tx.window t)).
  { unfold Tx.window32. apply wrap_id. unfold uint. lia. }
  pose proof (wrap_uint 32 (base - Tx.oldest t) ltac:(lia)) as Hu. fold (wsub 32 base (Tx.oldest t)) in Hu.
  case_if as Hc; [by do 2 eexists|]. apply orb_false_iff in Hc as [Hne Hlt]. zbool. rewrite Hw in Hlt.
  destruct (tx_slot t (Tx.oldest t) Hs) as (s & Hl & Hb & _). rewrite (index_ok _ _ _ Hl). cbn [mbind exec_bind].
  set (t1 := {| Tx.slots := _; Tx.mask := _; Tx.oldest := _ |}).
  assert (Hs1 : tx_shape t1).
  { pose proof (free_slot_shape t (Tx.slot_ix t (Tx.oldest t)) s Hs Hb) as [? ? ? ?]. by constructor. }
  assert (Hw1 : Tx.window t1 = Tx.window t) by apply length_insert.
  assert (Hd : wsub 32 base (Tx.oldest t1) = wsub 32 base (Tx.oldest t) - 1).
  { subst t1. cbn [Tx.oldest Tx.free_slot Tx.set_slot]. unfold wadd. rewrite wsub_wrap_r.
    replace (base - (Tx.oldest t + 1)) with (base - Tx.oldest t - 1) by lia.
    rewrite <- wrap_sub_l. fold (wsub 32 base (Tx.oldest t)). apply wrap_id. unfold uint in *. lia. }
  destruct (IH t1 base now (match rtt with None => if (0 <? Tx.len s)%nat && negb (Tx.first_ns s =? 0)
    then Some (ssub now (Tx.first_ns s)) else None | Some _ => rtt end) Hs1) as (t' & r & E & Hs' & Hw' & _).
  { rewrite Hd, Hw1. unfold uint in Hu. lia. } { unfold uint in Hu. lia. }
  exists t', r. split; [exact E|]. split; [done|]. split; [congruence|]. intros ->. exfalso. apply Hne.
  unfold wsub. rewrite Z.sub_diag. apply wrap_0.
Qed.

Lemma sack_loop_shape a now ixs : forall t rtt, tx_shape t ->
  exists t' r, Tx.sack_loop a now ixs t rtt = Ret (t', r) /\ tx_shape t' /\ Tx.window t' = Tx.window t /\
    Tx.oldest t' = Tx.oldest t.
Proof.
  induction ixs as [|i ixs IH]; intros t rtt Hs; cbn [Tx.sack_loop]; [by do 2 eexists|].
  assert (exists t1 r1, Tx.sack_step a now i t rtt = Ret (t1, r1) /\ tx_shape t1 /\ Tx.window t1 = Tx.window t /\
    Tx.oldest t1 = Tx.oldest t) as (t1 & r1 & -> & Hs1 & Hw & Ho).
  { unfold Tx.sack_step. case_if; [|by do 2 eexists]. case_if; [|by do 2 eexists].
    destruct (tx_slot t (wadd 32 (Ack.base_seq a) (1 + i)) Hs) as (s & Hl & Hb & _).
    rewrite (index_ok _ _ _ Hl). cbn [mbind exec_bind]. case_if; [|by do 2 eexists].
    do 2 eexists. split; [reflexivity|]. split; [by apply free_slot_shape|].
    split; [apply length_insert | done]. }
  cbn [mbind exec_bind]. destruct (IH t1 r1 Hs1) as (t' & r & E & Hs' & Hw' & Ho').
  exists t', r. split; [done|]. split; [done|]. split; congruence.
Qed.

Lemma on_ack_shape t a now : tx_shape t ->
  exists t' r, Tx.on_ack t a now = Ret (t', r) /\ tx_shape t' /\ Tx.window t' = Tx.window t /\
    (Ack.base_seq a = Tx.oldest t -> Tx.oldest t' = Tx.oldest t).
Proof.
  intros Hs. unfold Tx.on_ack.
  destruct (ack_loop_shape (S (Tx.window t)) t (Ack.base_seq a) now None Hs) as (t1 & r1 & -> & Hs1 & Hw & Ho); [|lia|].
  { lia. }
  cbn [mbind exec_bind]. destruct (sack_loop_shape a now (seqZ 0 (SACK_BITS - 1)) t1 r1 Hs1) as (t' & r & E & Hs' & Hw' & Ho').
  exists t', r. split; [done|]. split; [done|]. split; [congruence|]. intros Hb. rewrite Ho'. auto.
Qed.

Lemma tick_shape t now rto : tx_shape t ->
  exists t' out n, Tx.tick t now rto = Ret (t', out, n) /\ tx_shape t' /\ Tx.oldest t' = Tx.oldest t.
Proof.
  intros [Hp Hs Hm Hf]. unfold Tx.tick.
  assert (exists ss out, Tx.tick_loop now rto (Tx.slots t) = Ret (ss, out) /\ length ss = length (Tx.slots t) /\
    Forall (fun s => length (Tx.bytes s) = MAX_RELIABLE_PAYLOAD /\ (Tx.len s <= MAX_RELIABLE_PAYLOAD)%nat) ss)
    as (ss & out & -> & Hl & Hf').
  { clear -Hf. induction Hf as [|s ss [Hb Hl] _ (ss' & out & E & Hlen & Hf')]; cbn [Tx.tick_loop].
    { by exists [], []. }
    case_if; [rewrite slice_to_ok by lia; cbn [mbind exec_bind]|]; rewrite E; cbn [mbind exec_bind];
      do 2 eexists; (split; [reflexivity|]); (split; [simpl; lia|]); by constructor. }
  cbn [mbind exec_bind]. do 3 eexists. split; [reflexivity|]. split; [|done].
  constructor; unfold Tx.window in *; cbn [Tx.slots Tx.mask] in *; rewrite ?Hl; done.
Qed.

(** the receive window of the service only ever marks frames *)
Lemma rx_accept_shape r sq : rx_shape r ->
  exists r' a, Rx.accept r sq [] = Ret (r', a) /\ rx_shape r' /\ Rx.next r' = Rx.next r.
Proof.
  intros [Hl Hf]. unfold Rx.accept. cbn [length Nat.leb assert mbind exec_bind].
  case_if; [by do 2 eexists|]. case_if as H1; [by do 2 eexists|]. case_if; [by do 2 eexists|].
  zbool. pose proof (wrap_uint 32 (sq - Rx.next r) ltac:(lia)) as Hu.
  fold (wsub 32 sq (Rx.next r)) in Hu. unfold uint in Hu.
  destruct (lookup_lt_is_Some_2 (Rx.slots r) (Z.to_nat (wsub 32 sq (Rx.next r)))) as [s Hs]; [lia|].
  pose proof (Forall_lookup_1 _ _ _ _ Hf Hs) as Hb. cbn in Hb.
  rewrite (index_ok _ _ _ Hs). cbn [mbind exec_bind]. unfold copy_from_slice.
  rewrite decide_True by (cbn; lia). cbn [mbind exec_bind]. do 2 eexists. split; [reflexivity|].
  split; [|done]. split; cbn [Rx.slots]; [by rewrite length_insert|].
  apply Forall_insert; [done|]. cbn [Rx.bytes]. rewrite length_splice by (cbn; lia). done.
Qed.

(** ** Finite traffic

    [pending w]: the datagrams the machine has yet to deliver.  Only receiving
    one changes it. *)

Class FiniteTraffic (W : Type) `{!Host W} := {
  pending : W -> nat;
  pend_elapsed w : pending (elapsed w).1 = pending w;
  pend_send w a b : pending (send_to w a b).1 = pending w;
  pend_uring w a b : pending (uring_send w a b).1 = pending w;
  pend_datagram w w' b n a : recv_from w = (w', Datagram b n a) -> pending w = S (pending w');
  pend_idle w : match (recv_from w).2 with Datagram _ _ _ => True | _ => pending (recv_from w).1 = pending w end
}.

(** ** What the operations preserve *)

Section Invariant.
Context `{RC : !Rkyv (Cmd.ControlCommand Z) pb_wf} `{RT : !Rkyv Telemetry.TelemetryPacket pb_wf}.
Context {W : Type} `{HW : !Host W} `{FT : !FiniteTraffic W}.
Context {Q : Type} `{BF : !BoundedFifo Q (Cmd.ControlCommand Z)}.
Implicit Types (s : st W Q) (c : ServiceCore Q).

Record core_inv c (l : list (Cmd.ControlCommand Z)) : Prop := {
  ci_tx : length (tx c) = MAX_DATAGRAM;
  ci_rel_tx : tx_shape (rel_tx c);
  ci_rel_rx : rx_shape (rel_rx c);
  ci_outbox : fifo_rep (outbox c) l
}.

Definition rx4 (l : LinkStats) : Z * Z * Z * Z :=
  (rx_frames l, rx_malformed l, rx_crc_errors l, rx_rejected l).
Definition rx_total (l : LinkStats) : Z :=
  wrap 64 (rx_frames l + rx_malformed l + rx_crc_errors l + rx_rejected l).

(** an operation that received nothing and took nothing from the outbox *)
Record ext s s' : Prop := {
  ex_rx : rx4 (stats (mux (core s'))) = rx4 (stats (mux (core s)));
  ex_pending : pending (world s') = pending (world s);
  ex_cfg : cfg (core s') = cfg (core s);
  ex_base : rx_base (core s') = rx_base (core s);
  ex_uring : uring (core s') = uring (core s);
  ex_outbox : outbox (core s') = outbox (core s);
  ex_next : Rx.next (rel_rx (core s')) = Rx.next (rel_rx (core s))
}.

#[global] Instance ext_preorder : PreOrder ext.
Proof.
  split; [by intros s; split|]. intros s1 s2 s3 [] []. split; congruence.
Qed.

Lemma now_ext s : ext s (now_ns s).1.
Proof.
  unfold now_ns. pose proof (pend_elapsed (world s)). destruct (elapsed (world s)) as [w t]. by split.
Qed.

Lemma now_core s : core (now_ns s).1 = core s.
Proof. unfold now_ns. by destruct (elapsed (world s)). Qed.

(** what [send_framed] leaves alone *)
Lemma send_framed_rx m r now m' r' : send_framed m r now = (m', r') -> rx4 (stats m') = rx4 (stats m) /\ r' = r.
Proof. unfold send_framed. destruct r as [n|[]]; intros [= <- <-]; done. Qed.

Lemma socket_path_ok s dst b now s' r l : socket_path s dst b now = (s', r) -> core_inv (core s) l ->
  core_inv (core s') l /\ ext s s' /\ wire s' = wire s /\ rel_tx (core s') = rel_tx (core s) /\
  mesh (core s') = mesh (core s) /\ tx (core s') = tx (core s).
Proof.
  unfold socket_path. pose proof (pend_send (world s) dst b) as Hp.
  destruct (send_to (world s) dst b) as [w r0]. cbn [set_world core].
  destruct (send_framed (mux (core s)) r0 now) as [m r1] eqn:E. intros [= <- <-] [? ? ? ?].
  apply send_framed_rx in E as [Hrx _]. split; [by constructor|]. split; [by constructor|]. done.
Qed.

Lemma transmit_ok s dst b now s' r l : transmit s dst b now = (s', r) -> core_inv (core s) l ->
  core_inv (core s') l /\ ext s s' /\ wire s' = wire s ++ [(dst, b)] /\ rel_tx (core s') = rel_tx (core s) /\
  mesh (core s') = mesh (core s) /\ tx (core s') = tx (core s).
Proof.
  unfold transmit. cbn [log_wire core world]. pose proof (pend_uring (world s) dst b) as Hp.
  destruct (uring (core s)) eqn:Hu.
  - destruct (uring_send (world s) dst b) as [w ok]. destruct ok.
    + intros [= <- <-] [? ? ? ?]. split; [by constructor|]. split; [by constructor|]. done.
    + intros E I. apply (socket_path_ok _ _ _ _ _ _ l) in E as (I' & [] & Hw & Hr & Hm & Ht); [|by destruct I].
      split; [done|]. split; [constructor; cbn in *; congruence|]. done.
  - intros E I. apply (socket_path_ok _ _ _ _ _ _ l) in E as (I' & [] & Hw & Hr & Hm & Ht); [|by destruct I].
    split; [done|]. split; [by constructor|]. done.
Qed.

Lemma transmit_tx_ok s dst n now l : core_inv (core s) l -> (n <= MAX_DATAGRAM)%nat ->
  exists s' r, transmit_tx s dst n now = Ret (s', r) /\ core_inv (core s') l /\ ext s s' /\
    wire s' = wire s ++ [(dst, take n (tx (core s)))] /\ rel_tx (core s') = rel_tx (core s) /\
    mesh (core s') = mesh (core s).
Proof.
  intros I Hn. unfold transmit_tx. rewrite slice_to_ok by (rewrite (ci_tx _ _ I); lia).
  cbn [mbind exec_bind]. unfold copy_from_slice.
  assert (Hl : length (take n (tx (core s))) = n) by (rewrite length_take, (ci_tx _ _ I); lia).
  rewrite decide_True by (rewrite Hl, length_replicate; lia). cbn [mbind exec_bind].
  unfold splice. rewrite take_0, app_nil_l.
  rewrite slice_to_ok by (rewrite length_app, Hl; lia). cbn [mbind exec_bind].
  rewrite take_app_length' by done.
  destruct (transmit s dst (take n (tx (core s))) now) as [s' r] eqn:E.
  apply (transmit_ok _ _ _ _ _ _ l) in E as (I' & He & Hw & Hr & Hm & _); [|done].
  do 2 eexists. split; [reflexivity|]. done.
Qed.

(** *** Writers *)

(** every writer returns, keeps the link's counters and the buffer's size *)
Definition writes (m : UdpMux) (w : exec (UdpMux * list Z * result nat IoError)) : Prop :=
  exists m' t x, w = Ret (m', t, x) /\ same_link m m' /\ length t = MAX_DATAGRAM /\
    forall n, x = Ok n -> (n <= MAX_DATAGRAM)%nat.

Lemma frame_fits (bs : list Z) : (length bs <= MAX_PAYLOAD)%nat -> (20 + length bs <= MAX_DATAGRAM)%nat.
Proof. unfold MAX_PAYLOAD, HEADER_LEN, TRAILER_LEN, MAX_DATAGRAM. lia. Qed.

Lemma archived_writes m r ch fl out : length out = MAX_DATAGRAM -> writes m (write_archived m r ch fl out).
Proof.
  intros Ho. destruct (write_archived_ok m r ch fl out Ho) as (m' & t & x & E & Hs & Ht & Hx).
  exists m', t, x. split_and!; try done. intros n ->. destruct Hx as (bs & _ & Hb & -> & _). by apply frame_fits.
Qed.

Lemma opaque_writes m bs ch fl out : length out = MAX_DATAGRAM -> writes m (write_opaque m bs ch fl out).
Proof.
  intros Ho. destruct (decide (length bs <= MAX_PAYLOAD)%nat) as [Hb|Hb].
  - destruct (write_opaque_spec m bs ch fl out Ho Hb) as (r & E).
    generalize dependent (framed ch fl bs ++ r). intros t E.
    do 3 eexists. split; [exact E|].
    split; [by split|]. split; [|intros n [= <-]; by apply frame_fits].
    unfold write_opaque in E. rewrite (proj2 (Nat.ltb_ge _ _)) in E by lia.
    apply bind_ret_inv in E as (o1 & E1%copy_len & E). apply bind_ret_inv in E as (o2 & E2%write_header_len & E).
    apply bind_ret_inv in E as ([o3 n3] & E3%finish_frame_len & E). injection E as <- _. congruence.
  - unfold write_opaque. rewrite (proj2 (Nat.ltb_lt _ _)) by lia. do 3 eexists. split; [done|]. by split_and!.
Qed.

Lemma encoded_writes m bs ch fl out : length out = MAX_DATAGRAM -> (length bs <= MAX_PAYLOAD)%nat ->
  exists t, write_encoded m (fun o => o ← copy_from_slice o 0 bs; Ret (o, length bs)) ch fl out =
      Ret (m, t, Ok (20 + length bs)%nat) /\ length t = MAX_DATAGRAM /\ take (20 + length bs) t = framed ch fl bs.
Proof.
  intros Ho Hb. destruct (write_encoded_spec m bs ch fl out Ho Hb) as (r & E). eexists. split; [exact E|].
  split; [|by rewrite take_app_length' by (by rewrite length_framed)].
  generalize dependent (framed ch fl bs ++ r). intros t E.
  unfold write_encoded, encode_payload in E.
  apply bind_ret_inv in E as ([o1 n1] & E1 & E).
  apply bind_ret_inv in E1 as ([o0 n0] & E0 & E1). injection E1 as <- <-.
  apply bind_ret_inv in E0 as (o & Eo%copy_len & E0). injection E0 as <- <-.
  apply bind_ret_inv in E as (o2 & E2%write_header_len & E).
  apply bind_ret_inv in E as ([o3 n3] & E3%finish_frame_len & E). injection E as <- _.
  rewrite E3, E2, length_app, Eo, <- length_app, take_drop. done.
Qed.

Lemma beacon_writes m (u sq now p : Z) out : length out = MAX_DATAGRAM ->
  writes m (write_mesh_frame m (Beacon.new u sq now p) out).
Proof.
  intros Ho. unfold write_mesh_frame.
  destruct (encoded_writes m (bytes_of (Beacon.new u sq now p)) Mesh 0 out Ho) as (t & E & Ht & _).
  { vm_compute. lia. }
  do 3 eexists. split; [exact E|]. split; [by split|]. split; [done|]. intros n [= <-]. vm_compute. lia.
Qed.

Lemma ack_writes m r rtt out : length out = MAX_DATAGRAM ->
  exists t, write_ack_frame m (Rx.build_ack r rtt) out = Ret (m, t, Ok 36%nat) /\
    length t = MAX_DATAGRAM /\ take 36 t = framed Control FLAG_ACK (bytes_of (Rx.build_ack r rtt)).
Proof.
  intros Ho. destruct (encoded_writes m (bytes_of (Rx.build_ack r rtt)) Control FLAG_ACK out Ho)
    as (t & E & Ht & Hk); [vm_compute; lia|].
  exists t. split; [exact E|]. split; [exact Ht | exact Hk].
Qed.

(** *** Operations *)

Definition op_ok {A} s l (o : exec (st W Q * A)) : Prop :=
  exists s' a, o = Ret (s', a) /\ core_inv (core s') l /\ ext s s'.

Lemma now_inv s l : core_inv (core s) l -> core_inv (core (now_ns s).1) l.
Proof. by rewrite now_core. Qed.

Lemma upd_mux_inv s m t l : core_inv (core s) l -> length t = MAX_DATAGRAM ->
  core_inv (core (upd_mux s m t)) l.
Proof. intros [? ? ? ?] Ht. by constructor. Qed.

Lemma upd_mux_ext s m t : rx4 (stats m) = rx4 (stats (mux (core s))) -> ext s (upd_mux s m t).
Proof. intros H. by constructor. Qed.

(** write a frame and send it: the common shape of the senders *)
Lemma write_send_ok s l w dst now (f : st W Q -> nat -> exec (st W Q)) :
  core_inv (core s) l -> writes (mux (core s)) w ->
  (forall s1 n, core_inv (core s1) l -> (n <= MAX_DATAGRAM)%nat ->
     exists s2, f s1 n = Ret s2 /\ core_inv (core s2) l /\ ext s1 s2) ->
  op_ok s l ('(m, t, r) ← w;
             let s1 := upd_mux s m t in
             match r with
             | Err e => Ret (s1, Err e)
             | Ok n => s2 ← f s1 n; transmit_tx s2 dst n now
             end).
Proof.
  intros I (m' & t & x & -> & [Hs _] & Ht & Hx) Hf. cbn [mbind exec_bind].
  pose proof (upd_mux_inv s m' t l I Ht) as I1.
  assert (He : ext s (upd_mux s m' t)) by (apply upd_mux_ext; by rewrite Hs).
  destruct x as [n|e]; [|by do 2 eexists].
  specialize (Hx n eq_refl). destruct (Hf _ n I1 Hx) as (s2 & -> & I2 & He2). cbn [mbind exec_bind].
  destruct (transmit_tx_ok s2 dst n now l I2 Hx) as (s' & r & -> & I' & He' & _).
  do 2 eexists. split; [done|]. split; [done|]. by etrans; [|etrans].
Qed.

Lemma op_ok_ext {A} s0 s l (o : exec (st W Q * A)) : ext s0 s -> op_ok s l o -> op_ok s0 l o.
Proof. intros He (s' & a & E & I & He'). exists s', a. split_and!; [done..|]. by etrans. Qed.

Lemma send_ice_ok s l bs dst : core_inv (core s) l -> op_ok s l (send_ice s bs dst).
Proof.
  intros I. apply (op_ok_ext _ (now_ns s).1); [apply now_ext|]. unfold send_ice.
  pose proof (now_inv s l I) as I0. destruct (now_ns s) as [s0 now]. cbn [fst] in *.
  apply (write_send_ok s0 l _ dst now (fun s _ => Ret s) I0); [apply opaque_writes, I0|].
  intros s1 n I1 _. by exists s1.
Qed.

Lemma send_secure_ok s l sealed inner dst : core_inv (core s) l -> op_ok s l (send_secure s sealed inner dst).
Proof.
  intros I. apply (op_ok_ext _ (now_ns s).1); [apply now_ext|]. unfold send_secure.
  pose proof (now_inv s l I) as I0. destruct (now_ns s) as [s0 now]. cbn [fst] in *.
  apply (write_send_ok s0 l _ dst now (fun s _ => Ret s) I0); [apply opaque_writes, I0|].
  intros s1 n I1 _. by exists s1.
Qed.

Lemma send_beacon_ok s l dst : core_inv (core s) l -> op_ok s l (send_beacon_to s dst).
Proof.
  intros I. apply (op_ok_ext _ (now_ns s).1); [apply now_ext|]. unfold send_beacon_to.
  pose proof (now_inv s l I) as I0. destruct (now_ns s) as [s0 now]. cbn [fst] in *.
  apply (write_send_ok s0 l _ dst now (fun s _ => Ret s) I0); [apply beacon_writes, I0|].
  intros s1 n I1 _. by exists s1.
Qed.

Lemma send_telemetry_ok s l pkt dst : core_inv (core s) l -> op_ok s l (send_telemetry s pkt dst).
Proof.
  intros I. apply (op_ok_ext _ (now_ns s).1); [apply now_ext|]. unfold send_telemetry.
  pose proof (now_inv s l I) as I0. destruct (now_ns s) as [s0 now]. cbn [fst] in *.
  destruct (archived_writes (mux (core s0)) (to_bytes pkt) Telemetry 0 (tx (core s0)) (ci_tx _ _ I0))
    as (m' & t & x & E & [Hs _] & Ht & Hx). unfold write_telemetry_frame. rewrite E. cbn [mbind exec_bind].
  pose proof (upd_mux_inv s0 m' t l I0 Ht) as I1.
  assert (He : ext s0 (upd_mux s0 m' t)) by (apply upd_mux_ext; by rewrite Hs).
  destruct x as [n|e]; [|by do 2 eexists].
  destruct (Bp.admit_bytes _ _ _) as [b granted].
  set (s2 := upd_mux (upd_mux s0 m' t) _ _). assert (I2 : core_inv (core s2) l) by (by destruct I1; constructor).
  assert (He2 : ext s0 s2) by (constructor; try done; cbn; by rewrite Hs).
  destruct granted; cbn [negb]; [|by do 2 eexists].
  destruct (transmit_tx_ok s2 dst n now l I2 (Hx n eq_refl)) as (s' & r & E' & I' & He' & _).
  do 2 eexists. split; [exact E'|]. split; [done|]. by etrans.
Qed.

Lemma retain_ok rel cmd now s1 n l : core_inv (core s1) l -> (n <= MAX_DATAGRAM)%nat ->
  exists s2, retain rel cmd now s1 n = Ret s2 /\ core_inv (core s2) l /\ ext s1 s2.
Proof.
  intros I1 Hn. unfold retain. case_if as Hc; [|by exists s1]. apply andb_true_iff in Hc as [_ Hle%Nat.leb_le].
  rewrite slice_to_ok by (rewrite (ci_tx _ _ I1); lia). cbn [mbind exec_bind].
  assert (Hl : length (take n (tx (core s1))) = n) by (rewrite length_take, (ci_tx _ _ I1); lia).
  unfold copy_from_slice. rewrite decide_True by (rewrite Hl, length_replicate; lia).
  cbn [mbind exec_bind]. unfold splice. rewrite take_0, app_nil_l.
  rewrite slice_to_ok by (rewrite length_app, Hl; lia). cbn [mbind exec_bind]. rewrite take_app_length' by done.
  destruct (tx_send_shape (rel_tx (core s1)) (wrap 32 (Cmd.seq cmd)) (take n (tx (core s1))) now (ci_rel_tx _ _ I1))
    as (rt & r & -> & Hs & _); [lia|].
  cbn [mbind exec_bind]. eexists. split; [done|]. split; [by destruct I1; constructor | by constructor].
Qed.

Lemma send_control_ok s l cmd dst : core_inv (core s) l -> op_ok s l (send_control s cmd dst).
Proof.
  intros I. apply (op_ok_ext _ (now_ns s).1); [apply now_ext|]. unfold send_control.
  pose proof (now_inv s l I) as I0. destruct (now_ns s) as [s0 now]. cbn [fst] in *.
  apply (write_send_ok s0 l _ dst now (retain _ cmd now) I0); [apply archived_writes, I0|].
  intros s1 n I1 Hn. by apply retain_ok.
Qed.

Lemma beacons_ok peers : forall s l, core_inv (core s) l ->
  exists s', beacons_to s peers = Ret s' /\ core_inv (core s') l /\ ext s s'.
Proof.
  induction peers as [|dst peers IH]; intros s l I; cbn [beacons_to]; [by exists s|].
  destruct (send_beacon_ok s l dst I) as (s1 & r & -> & I1 & He). cbn [mbind exec_bind].
  destruct (IH s1 l I1) as (s' & E & I' & He'). exists s'. split_and!; [done..|]. by etrans.
Qed.

Lemma run_call_ok s l k : core_inv (core s) l -> op_ok s l (run_call s k).
Proof.
  intros I. destruct k; cbn [run_call].
  - by apply send_control_ok.
  - by apply send_telemetry_ok.
  - by apply send_ice_ok.
  - by apply send_secure_ok.
  - unfold beacon_fanout. destruct (beacons_ok (beacon_peers (cfg (core s)) ++
      (Mesh.addr <$> Mesh.iter (mesh (core s)))) s l I) as (s' & -> & I' & He).
    cbn [mbind exec_bind]. by do 2 eexists.
Qed.

Lemma run_sink_ok {U} (p : sink_run U) : forall s l, core_inv (core s) l -> op_ok s l (run_sink p s).
Proof.
  induction p as [u|c k IH]; intros s l I; cbn [run_sink]; [by do 2 eexists|].
  destruct (run_call_ok s l c I) as (s1 & r & -> & I1 & He). cbn [mbind exec_bind].
  by apply (op_ok_ext _ s1), IH.
Qed.

(** *** Frames *)

Lemma on_frame_ok s l f : core_inv (core s) l -> op_ok s l (on_frame s f).
Proof.
  intros I. apply (op_ok_ext _ (now_ns s).1); [apply now_ext|]. unfold on_frame.
  pose proof (now_inv s l I) as I0. destruct (now_ns s) as [s0 now]. cbn [fst] in *.
  destruct f as [arch from rel|pkt from|bs from|b src|ack from|sealed from inner]; try (by do 2 eexists).
  - destruct rel; [|by do 2 eexists].
    destruct (rx_accept_shape (rel_rx (core s0)) (wrap 32 (Cmd.seq (command_from_archived arch))) (ci_rel_rx _ _ I0))
      as (rr & a & -> & Hr & Hn). cbn [mbind exec_bind upd_rel set_core core mux tx].
    destruct (ack_writes (mux (core s0)) rr 0 (tx (core s0)) (ci_tx _ _ I0)) as (t & -> & Ht & _).
    cbn [mbind exec_bind]. set (s1 := upd_mux _ _ _).
    assert (I1 : core_inv (core s1) l) by (by destruct I0; constructor).
    destruct (transmit_tx_ok s1 from 36 now l I1) as (s' & r & -> & I' & He & _); [vm_compute; lia|].
    cbn [mbind exec_bind]. do 2 eexists. split; [done|]. split; [done|].
    etrans; [|exact He]. by constructor.
  - destruct (Mesh.observe _ _ _ _ _ _) as [t up]. set (s1 := upd_mesh s0 t).
    assert (I1 : core_inv (core s1) l) by (by destruct I0; constructor).
    assert (He : ext s0 s1) by (by constructor).
    destruct up; [|by do 2 eexists].
    destruct (send_beacon_ok s1 l (set_port src (Beacon.listen_port b)) I1) as (s' & r & -> & I' & He').
    cbn [mbind exec_bind]. do 2 eexists. split; [done|]. split; [done|]. by etrans.
  - destruct (on_ack_shape (rel_tx (core s0)) ack now (ci_rel_tx _ _ I0)) as (rt & rtt & -> & Hs & _ & _).
    cbn [mbind exec_bind]. do 2 eexists. split; [reflexivity|].
    destruct rtt; (split; [by destruct I0; constructor | by constructor]).
Qed.

(** *** The receive loop *)

(** received and still to come, together *)
Definition traffic s : Z := wrap 64 (rx_total (stats (mux (core s))) + Z.of_nat (pending (world s))).

Lemma ext_traffic s s' : ext s s' -> traffic s' = traffic s.
Proof. intros [Hr Hp _ _ _ _ _]. unfold traffic. rewrite Hp. unfold rx4 in Hr. unfold rx_total. congruence. Qed.

(** what a whole drain keeps *)
Record drained s s' : Prop := {
  dr_traffic : traffic s' = traffic s;
  dr_pending : (pending (world s') <= pending (world s))%nat;
  dr_cfg : cfg (core s') = cfg (core s);
  dr_outbox : outbox (core s') = outbox (core s);
  dr_next : Rx.next (rel_rx (core s')) = Rx.next (rel_rx (core s))
}.
#[global] Instance drained_preorder : PreOrder drained.
Proof.
  split; [by intros s; split|]. intros s1 s2 s3 [] []. split; try congruence. lia.
Qed.
Lemma ext_drained s s' : ext s s' -> drained s s'.
Proof. intros H. pose proof (ext_traffic _ _ H). destruct H. split; try done. lia. Qed.

(** one datagram in, counted once *)
Lemma counted_once x y p t t' : t = wadd 64 x 1 + y -> t' = x + y ->
  wrap 64 (wrap 64 t + p) = wrap 64 (wrap 64 t' + (p + 1)).
Proof.
  intros -> ->. unfold wadd. rewrite !wrap_add_l, <- Z.add_assoc, wrap_add_l. f_equal. lia.
Qed.

Lemma received_drained s w w' b n from m' : world s = w -> recv_from w = (w', Datagram b n from) ->
  (exists f1 f2 f3 f4, rx4 (stats (mux (core s))) = (f1, f2, f3, f4) /\
     (rx4 (stats m') = (bump f1, f2, f3, f4) \/ rx4 (stats m') = (f1, bump f2, f3, f4) \/
      rx4 (stats m') = (f1, f2, bump f3, f4) \/ rx4 (stats m') = (f1, f2, f3, bump f4))) ->
  drained s (upd_mux (set_world s w') m' (tx (core s))).
Proof.
  intros <- Hr (f1 & f2 & f3 & f4 & E & Hc). pose proof (pend_datagram _ _ _ _ _ Hr) as Hp.
  split; try done; [|cbn; lia].
  unfold traffic, rx_total, rx4, bump in *. cbn [upd_mux set_core set_world core mux world stats].
  injection E as <- <- <- <-. rewrite Hp, Nat2Z.inj_succ. unfold Z.succ.
  set (l := stats (mux (core s))) in *. destruct Hc as [Hc|[Hc|[Hc|Hc]]]; injection Hc as -> -> -> ->.
  - apply (counted_once (rx_frames l) (rx_malformed l + rx_crc_errors l + rx_rejected l)); lia.
  - apply (counted_once (rx_malformed l) (rx_frames l + rx_crc_errors l + rx_rejected l)); lia.
  - apply (counted_once (rx_crc_errors l) (rx_frames l + rx_malformed l + rx_rejected l)); lia.
  - apply (counted_once (rx_rejected l) (rx_frames l + rx_malformed l + rx_crc_errors l)); lia.
Qed.

(** the multiplexer's own count of what it accepts *)
Lemma recv_frame_some m base b n (from : SocketAddr) : length b = MAX_DATAGRAM -> (n <= MAX_DATAGRAM)%nat ->
  exists r m', recv_frame m base (Some (b, n, from)) = Ret (m', Some r) /\
    let '(f1, f2, f3, f4) := rx4 (stats m) in
    rx4 (stats m') = (if is_ok r then bump f1 else f1, f2, f3, f4).
Proof.
  intros Hb Hn. destruct (demux_total base b n from Hb Hn) as [r E]. unfold recv_frame. rewrite E.
  cbn [mbind exec_bind]. do 2 eexists. split; [reflexivity|]. by destruct r.
Qed.

Section Sink.
Context {U : Type} (sink : U -> Event -> sink_run U).

Lemma drain_now_ok fuel : forall s u h l, core_inv (core s) l -> (pending (world s) < fuel)%nat ->
  exists s' u' h', drain_now sink fuel s u h = Ret (s', u', h') /\ core_inv (core s') l /\ drained s s'.
Proof.
  induction fuel as [|fuel IH]; intros s u h l I Hf; [lia|]. cbn [drain_now].
  destruct (recv_from (world s)) as [w got] eqn:Er. pose proof (pend_idle (world s)) as Hi. rewrite Er in Hi. cbn in Hi.
  assert (Hidle : pending w = pending (world s) -> drained s (set_world s w)).
  { intros Hp. apply ext_drained. by constructor. }
  destruct got as [| |b n from]; [do 3 eexists; split; [done|]; split; [done|]; by apply Hidle ..|].
  destruct (recv_shape _ _ _ _ _ Er) as (Hb & Hn & _).
  destruct (recv_frame_some (mux (core (set_world s w))) (rx_base (core (set_world s w))) b n from Hb Hn)
    as (r & m' & -> & Hst). cbn [mbind exec_bind].
  destruct (rx4 (stats (mux (core (set_world s w))))) as [[[f1 f2] f3] f4] eqn:E4.
  pose proof (pend_datagram _ _ _ _ _ Er) as Hp.
  assert (Hgo : forall m2 s2 u2 h2, drained s (upd_mux (set_world s w) m2 (tx (core s))) ->
    core_inv (core s2) l -> ext (upd_mux (set_world s w) m2 (tx (core s))) s2 ->
    exists s' u' h', drain_now sink fuel s2 u2 h2 = Ret (s', u', h') /\ core_inv (core s') l /\ drained s s').
  { intros m2 s2 u2 h2 Hd I2 He. destruct (IH s2 u2 h2 l I2) as (s' & u' & h' & E & I' & Hd').
    - rewrite (ex_pending _ _ He). cbn. lia.
    - do 3 eexists. split; [exact E|]. split; [done|]. etrans; [exact Hd|]. etrans; [by apply ext_drained | done]. }
  destruct r as [f|e].
  - assert (Hd : drained s (upd_mux (set_world s w) m' (tx (core s)))).
    { eapply received_drained; [done | exact Er|]. exists f1, f2, f3, f4. split; [exact E4 | by left]. }
    destruct (on_frame_ok (upd_mux (set_world s w) m' (tx (core (set_world s w)))) l f) as (s1 & ev & -> & I1 & He1).
    { by destruct I; constructor. }
    cbn [mbind exec_bind]. destruct ev as [ev|]; [|by eapply Hgo].
    destruct (run_sink_ok (sink u ev) s1 l I1) as (s2 & u2 & -> & I2 & He2). cbn [mbind exec_bind].
    eapply Hgo; [exact Hd | done | by etrans].
  - cbn [is_ok] in Hst.
    apply (Hgo (upd_stats m' (bump_reject (stats m') e))); [| by destruct I; constructor | by constructor].
    eapply received_drained; [done | exact Er|]. exists f1, f2, f3, f4. split; [exact E4|].
    unfold rx4 in *. injection Hst as <- <- <- <-. destruct e; cbn; auto.
Qed.

Lemma drains_ok k fuel : forall s u h l, core_inv (core s) l -> (pending (world s) < fuel)%nat ->
  exists s' u' h', drains sink k fuel s u h = Ret (s', u', h') /\ core_inv (core s') l /\ drained s s'.
Proof.
  induction k as [|k IH]; intros s u h l I Hf; cbn [drains]; [by do 3 eexists|].
  destruct (drain_now_ok fuel s u h l I Hf) as (s1 & u1 & h1 & -> & I1 & Hd). cbn [mbind exec_bind].
  destruct (IH s1 u1 h1 l I1) as (s' & u' & h' & E & I' & Hd'); [pose proof (dr_pending _ _ Hd); lia|].
  do 3 eexists. split; [exact E|]. split; [done|]. by etrans.
Qed.
End Sink.

(** *** Timers *)

(** an operation of the timers: it may take from the outbox *)
Record timed s s' : Prop := {
  ti_traffic : traffic s' = traffic s;
  ti_pending : pending (world s') = pending (world s);
  ti_cfg : cfg (core s') = cfg (core s);
  ti_next : Rx.next (rel_rx (core s')) = Rx.next (rel_rx (core s))
}.
#[global] Instance timed_preorder : PreOrder timed.
Proof. split; [by intros s; split|]. intros s1 s2 s3 [] []. split; congruence. Qed.
Lemma ext_timed s s' : ext s s' -> timed s s'.
Proof. intros H. pose proof (ext_traffic _ _ H). destruct H. by split. Qed.

Lemma flush_ok l : forall fuel s, core_inv (core s) l -> (length l < fuel)%nat ->
  exists s' l', flush_outbox fuel s = Ret s' /\ core_inv (core s') l' /\ l' `suffix_of` l /\ timed s s'.
Proof.
  induction l as [|c l IH]; intros fuel s I Hf; (destruct fuel as [|fuel]; [cbn in Hf; lia|]); cbn [flush_outbox].
  - rewrite (fifo_pop_nil _ (ci_outbox _ _ I)). cbn [mbind exec_bind]. exists (upd_outbox s (outbox (core s))), [].
    split; [done|]. split; [by destruct I; constructor|]. split; [done|]. by split.
  - destruct (fifo_pop_some _ _ _ (ci_outbox _ _ I)) as (q & -> & Hq & _). cbn [mbind exec_bind].
    set (s1 := upd_outbox s q). assert (I1 : core_inv (core s1) l) by (by destruct I; constructor).
    assert (T1 : timed s s1) by (by split).
    destruct (primary_dst (core s1)) as [dst|].
    + destruct (send_control_ok s1 l c dst I1) as (s2 & r & -> & I2 & He). cbn [mbind exec_bind].
      destruct (is_ok r).
      * destruct (IH fuel s2 I2) as (s' & l' & E & I' & Hs & T'); [cbn in Hf; lia|].
        exists s', l'. split_and!; [done | done | by apply suffix_cons_r|]. etrans; [exact T1|].
        etrans; [by apply ext_timed | done].
      * exists s2, l. split_and!; [done | done | by apply suffix_cons_r|]. etrans; [exact T1|]. by apply ext_timed.
    + exists s1, l. split_and!; [done | done | by apply suffix_cons_r | done].
Qed.

Lemma resend_ok out now dst : forall s l, core_inv (core s) l ->
  core_inv (core (resend s dst out now)) l /\ timed s (resend s dst out now).
Proof.
  induction out as [|[q b] out IH]; intros s l I; cbn [resend]; [done|].
  destruct (socket_path (log_wire s dst b) dst b now) as [s1 r] eqn:E.
  apply (socket_path_ok _ _ _ _ _ _ l) in E as (I1 & He & _); [|by destruct I].
  destruct (IH s1 l I1) as [I' T]. split; [done|]. etrans; [|exact T].
  apply ext_timed. etrans; [|exact He]. by constructor.
Qed.

Lemma heartbeat_ok s l now : core_inv (core s) l ->
  exists s', heartbeat s now = Ret s' /\ core_inv (core s') l /\ timed s s'.
Proof.
  intros I. unfold heartbeat. case_if; [|by exists s]. cbv zeta. set (sb := upd_beacon _ _ _).
  assert (Ib : core_inv (core sb) l) by (by destruct I; constructor).
  unfold beacon_fanout. destruct (beacons_ok (beacon_peers (cfg (core sb)) ++
    (Mesh.addr <$> Mesh.iter (mesh (core sb)))) sb l Ib) as (s2 & -> & I2 & He). cbn [mbind exec_bind].
  eexists. split; [reflexivity|]. split; [by destruct I2; constructor|].
  etrans; [|etrans; [apply ext_timed, He|]]; by split.
Qed.

Lemma background_ok s l : core_inv (core s) l ->
  exists s' l', background s = Ret s' /\ core_inv (core s') l' /\ l' `suffix_of` l /\ timed s s'.
Proof.
  intros I. unfold background. pose proof (now_inv s l I) as I0. pose proof (ext_timed _ _ (now_ext s)) as T0.
  destruct (now_ns s) as [s0 now]. cbn [fst] in *.
  destruct (flush_ok l (S (Z.to_nat (fifo_capacity (outbox (core s0))))) s0 I0) as (s1 & l' & -> & I1 & Hs & T1).
  { pose proof (fifo_bound _ _ (ci_outbox _ _ I0)). lia. }
  cbn [mbind exec_bind].
  destruct (heartbeat_ok s1 l' now I1) as (s2 & -> & I2 & T2).
  cbn [mbind exec_bind]. assert (T : timed s s2) by (by etrans; [|etrans]).
  destruct (primary_dst (core s2)) as [dst|]; [|by do 2 eexists].
  pose proof (now_inv s2 l' I2) as I3. pose proof (ext_timed _ _ (now_ext s2)) as T3.
  destruct (now_ns s2) as [s3 now']. cbn [fst] in *.
  destruct (tick_shape (rel_tx (core s3)) now' (rto_ns (cfg (core s3))) (ci_rel_tx _ _ I3)) as (rt & out & n & -> & Ht & _).
  cbn [mbind exec_bind]. set (s4 := upd_rel _ _ _).
  assert (I4 : core_inv (core s4) l') by (by destruct I3; constructor).
  destruct (resend_ok out now' dst s4 l' I4) as [I5 T5].
  do 2 eexists. split; [reflexivity|]. split; [done|]. split; [done|].
  etrans; [exact T|]. etrans; [exact T3|]. etrans; [|exact T5]. by split.
Qed.

(** ** Theorems *)

(** A service tick always completes and loses count of nothing.  On any
    machine with finite traffic, whatever datagrams arrive, whatever the sink
    does with the core, and however often the platform loop reports readiness,
    [poll] returns with the state well formed; the frames accepted, malformed,
    corrupt and rejected, together with the datagrams still to come, add up to
    what they were before (in the counters' 64 bits); and the outbox only loses
    a prefix. *)
Theorem service_tick_accounts {U} (sink : U -> Event -> sink_run U) fuel d reads s u l :
  core_inv (core s) l -> (pending (world s) < fuel)%nat ->
  exists s' u' r l', poll sink fuel d reads s u = Ret (s', u', r) /\ is_ok r = is_ok d /\
    core_inv (core s') l' /\ l' `suffix_of` l /\ traffic s' = traffic s /\
    (pending (world s') <= pending (world s))%nat /\
    Rx.next (rel_rx (core s')) = Rx.next (rel_rx (core s)).
Proof.
  intros I Hf. unfold poll.
  destruct (drains_ok sink reads fuel s u 0 l I Hf) as (s1 & u1 & h1 & -> & I1 & [T1 P1 _ _ N1]).
  cbn [mbind exec_bind]. destruct d as [d|e].
  - destruct (drain_now_ok sink fuel s1 u1 h1 l I1) as (s2 & u2 & h2 & -> & I2 & [T2 P2 _ _ N2]); [lia|].
    cbn [mbind exec_bind]. destruct (background_ok s2 l I2) as (s3 & l' & -> & I3 & Hs & [T3 P3 _ N3]).
    cbn [mbind exec_bind]. do 4 eexists. split; [reflexivity|]. split_and!; try done; congruence || lia.
  - do 4 eexists. split; [reflexivity|]. split_and!; done || lia.
Qed.

(** a machine whose sends all succeed *)
Definition sends_succeed : Prop := forall w a b, exists n, (send_to w a b).2 = Ok n.

(** the datagram a command becomes *)
Definition control_frame (rel : bool) (cmd : Cmd.ControlCommand Z) (b : list Z) : Prop :=
  exists p, to_bytes (Cmd.with_crc cmd (command_crc cmd)) = Some p /\ (length p <= MAX_PAYLOAD)%nat /\
    b = framed Control (if rel then FLAG_RELIABLE else 0) p.

Definition sendable (cmd : Cmd.ControlCommand Z) : Prop :=
  exists p, to_bytes (Cmd.with_crc cmd (command_crc cmd)) = Some p /\ (length p <= MAX_PAYLOAD)%nat.

Lemma transmit_succeeds s dst b now : sends_succeed -> is_ok (transmit s dst b now).2 = true.
Proof.
  intros Hok. unfold transmit, socket_path. cbn [log_wire core world]. destruct (uring (core s)).
  - destruct (uring_send (world s) dst b) as [w []]; [done|]. cbn [set_world world core].
    destruct (Hok w dst b) as [n Hn]. destruct (send_to w dst b) as [w' r]. cbn in Hn. subst r. done.
  - destruct (Hok (world s) dst b) as [n Hn]. destruct (send_to (world s) dst b) as [w' r]. cbn in Hn. subst r. done.
Qed.

Lemma transmit_tx_succeeds s dst n now s' r : sends_succeed -> transmit_tx s dst n now = Ret (s', r) ->
  is_ok r = true.
Proof.
  intros Hok E. unfold transmit_tx in E. do 3 apply bind_ret_inv in E as (? & _ & E).
  pose proof (transmit_succeeds s dst x1 now Hok) as H. destruct (transmit s dst x1 now) as [s1 [a|e]]; [|done].
  by injection E as _ <-.
Qed.

(** sending one command to the primary peer *)
Lemma send_control_sends s l cmd dst : core_inv (core s) l -> sends_succeed -> sendable cmd ->
  exists s' b, send_control s cmd dst = Ret (s', Ok tt) /\ core_inv (core s') l /\ ext s s' /\
    wire s' = wire s ++ [(dst, b)] /\ control_frame (reliable_control (cfg (core s))) cmd b /\
    mesh (core s') = mesh (core s).
Proof.
  intros I Hok (p & Hp & Hl). pose proof (now_inv s l I) as I0. pose proof (now_ext s) as He0.
  assert (Hw0 : wire (now_ns s).1 = wire s /\ core (now_ns s).1 = core s)
    by (unfold now_ns; by destruct (elapsed (world s))).
  unfold send_control. destruct (now_ns s) as [s0 now]. cbn [fst] in *. destruct Hw0 as [Hw0 Hc0].
  unfold write_control_frame. set (fl := if reliable_control (cfg (core s0)) then FLAG_RELIABLE else 0).
  destruct (write_archived_ok (mux (core s0)) (to_bytes (Cmd.with_crc cmd (command_crc cmd))) Control fl
    (tx (core s0)) (ci_tx _ _ I0)) as (m' & t & x & -> & [Hs _] & Ht & Hx). rewrite Hp in Hx.
  cbn [mbind exec_bind]. destruct x as [n|]; [|lia]. destruct Hx as (bs & [= <-] & _ & -> & Htk).
  pose proof (upd_mux_inv s0 m' t l I0 Ht) as I1.
  assert (He1 : ext s0 (upd_mux s0 m' t)) by (apply upd_mux_ext; by rewrite Hs).
  pose proof (frame_fits p Hl) as Hn.
  destruct (retain_ok (reliable_control (cfg (core s0))) cmd now _ (20 + length p) l I1 Hn) as (s2 & Er & I2 & He2).
  rewrite Er. cbn [mbind exec_bind].
  assert (Hr : wire s2 = wire s0 /\ tx (core s2) = t /\ mesh (core s2) = mesh (core s0)).
  { unfold retain in Er. case_if; [|by injection Er as <-].
    do 3 apply bind_ret_inv in Er as (? & _ & Er). apply bind_ret_inv in Er as ([? ?] & _ & Er). by injection Er as <-. }
  destruct Hr as (Hw2 & Ht2 & Hm2).
  destruct (transmit_tx_ok s2 dst (20 + length p) now l I2 Hn) as (s' & r & E & I' & He' & Hw & _ & Hm).
  pose proof (transmit_tx_succeeds _ _ _ _ _ _ Hok E) as Hr. destruct r as [[]|]; [|done].
  exists s', (framed Control fl p). split; [exact E|]. split; [done|]. split; [by etrans; [|etrans; [|etrans]]|].
  split; [rewrite Hw, Ht2, Htk, Hw2, Hw0; done|]. split; [|rewrite Hm, Hm2, Hc0; done].
  exists p. split; [done|]. split; [done|]. subst fl. by rewrite Hc0.
Qed.

(** The safety loop's commands go out complete and in order.  With a
    destination, sends that succeed and commands that serialise into a datagram,
    the timers empty the outbox and put exactly one control frame per command on
    the wire, oldest first, each to the primary destination. *)
Theorem outbox_flushed_in_order s l dst : core_inv (core s) l -> sends_succeed ->
  primary_dst (core s) = Some dst -> Forall sendable l ->
  exists s' bs, flush_outbox (S (Z.to_nat (fifo_capacity (outbox (core s))))) s = Ret s' /\
    core_inv (core s') [] /\ wire s' = wire s ++ (pair dst <$> bs) /\
    Forall2 (control_frame (reliable_control (cfg (core s)))) l bs.
Proof.
  intros I Hok Hd Hl.
  assert (Hf : (length l < S (Z.to_nat (fifo_capacity (outbox (core s)))))%nat).
  { pose proof (fifo_bound _ _ (ci_outbox _ _ I)). lia. }
  generalize dependent (S (Z.to_nat (fifo_capacity (outbox (core s))))). intros fuel Hf.
  revert fuel s I Hd Hf. induction Hl as [|c l Hc Hl IH]; intros fuel s I Hd Hf;
    (destruct fuel as [|fuel]; [cbn in Hf; lia|]); cbn [flush_outbox].
  - rewrite (fifo_pop_nil _ (ci_outbox _ _ I)). cbn [mbind exec_bind]. exists (upd_outbox s (outbox (core s))), [].
    split; [done|]. split; [by destruct I; constructor|]. split; [by rewrite app_nil_r | constructor].
  - destruct (fifo_pop_some _ _ _ (ci_outbox _ _ I)) as (q & -> & Hq & _). cbn [mbind exec_bind].
    set (s1 := upd_outbox s q). assert (I1 : core_inv (core s1) l) by (by destruct I; constructor).
    change (primary_dst (core s1)) with (primary_dst (core s)). rewrite Hd.
    destruct (send_control_sends s1 l c dst I1 Hok Hc) as (s2 & b & -> & I2 & He & Hw & Hb & Hm).
    cbn [mbind exec_bind is_ok]. destruct (IH fuel s2 I2) as (s' & bs & E & I' & Hw' & Hbs).
    { unfold primary_dst in *. rewrite (ex_cfg _ _ He), Hm. exact Hd. } { cbn in Hf. lia. }
    exists s', (b :: bs). split; [exact E|]. split; [done|]. split.
    + rewrite Hw', Hw, <- app_assoc. done.
    + constructor; [exact Hb|]. rewrite (ex_cfg _ _ He) in Hbs. exact Hbs.
Qed.

(** With nobody to talk to, each run of the timers takes one command out of the
    outbox and sends it nowhere. *)
Theorem outbox_drops_without_peer s l cmd : core_inv (core s) (cmd :: l) -> primary_dst (core s) = None ->
  exists s', flush_outbox (S (Z.to_nat (fifo_capacity (outbox (core s))))) s = Ret s' /\
    core_inv (core s') l /\ wire s' = wire s /\ rel_tx (core s') = rel_tx (core s).
Proof.
  intros I Hd. cbn [flush_outbox].
  destruct (fifo_pop_some _ _ _ (ci_outbox _ _ I)) as (q & -> & Hq & _). cbn [mbind exec_bind].
  change (primary_dst (core (upd_outbox s q))) with (primary_dst (core s)). rewrite Hd.
  eexists. split; [reflexivity|]. split; [by destruct I; constructor | done].
Qed.

(** the answer to a reliable command *)
Lemma on_reliable s l arch from : core_inv (core s) l ->
  exists s' rr a, on_frame s (InControl arch from true) =
      Ret (s', Some (EvControl (command_from_archived arch) from true)) /\
    Rx.accept (rel_rx (core s)) (wrap 32 (Cmd.seq (command_from_archived arch))) [] = Ret (rr, a) /\
    rel_rx (core s') = rr /\ core_inv (core s') l /\
    wire s' = wire s ++ [(from, framed Control FLAG_ACK (bytes_of (Rx.build_ack rr 0)))].
Proof.
  intros I. unfold on_frame. pose proof (now_inv s l I) as I0.
  assert (Hw0 : wire (now_ns s).1 = wire s /\ core (now_ns s).1 = core s)
    by (unfold now_ns; by destruct (elapsed (world s))).
  destruct (now_ns s) as [s0 now]. cbn [fst] in *. destruct Hw0 as [Hw0 Hc0]. rewrite <- Hc0.
  destruct (rx_accept_shape (rel_rx (core s0)) (wrap 32 (Cmd.seq (command_from_archived arch))) (ci_rel_rx _ _ I0))
    as (rr & a & -> & Hr & Hn). cbn [mbind exec_bind upd_rel set_core core mux tx].
  destruct (ack_writes (mux (core s0)) rr 0 (tx (core s0)) (ci_tx _ _ I0)) as (t & -> & Ht & Htk).
  cbn [mbind exec_bind]. set (s1 := upd_mux _ _ _).
  assert (I1 : core_inv (core s1) l) by (by destruct I0; constructor).
  destruct (transmit_tx_ok s1 from 36 now l I1) as (s' & r & E & I' & He & Hw & _); [vm_compute; lia|].
  assert (Hrr : rel_rx (core s') = rr).
  { unfold transmit_tx in E. do 3 apply bind_ret_inv in E as (? & _ & E).
    unfold transmit, socket_path in E. cbn [log_wire core world] in E.
    repeat (case_match; simplify_eq; try done). all: by injection E as <- _. }
  rewrite E. cbn [mbind exec_bind]. exists s', rr, a. split_and!; try done.
  change (wire s1) with (wire s0) in Hw. change (tx (core s1)) with t in Hw.
  rewrite Htk, Hw0 in Hw. exact Hw.
Qed.

Lemma accept_twice r sq r' : rx_shape r -> wsub 32 sq (Rx.next r) < SACK_BITS ->
  forall a, Rx.accept r sq [] = Ret (r', a) -> Rx.accept r' sq [] = Ret (r', Duplicate).
Proof.
  intros [Hl Hf] Hd a. unfold Rx.accept. cbn [length Nat.leb assert mbind exec_bind].
  pose proof (wrap_uint 32 (sq - Rx.next r) ltac:(lia)) as Hu.
  fold (wsub 32 sq (Rx.next r)) in Hu. unfold uint in Hu.
  destruct (U32_HALF <? wsub 32 sq (Rx.next r)) eqn:H1; [intros [= <- _]; by rewrite H1|].
  destruct (SACK_BITS <=? wsub 32 sq (Rx.next r)) eqn:H2; [zbool; lia|].
  rewrite land_bit by lia. destruct (Z.testbit (Rx.map r) (wsub 32 sq (Rx.next r))) eqn:H3.
  { intros [= <- _]. rewrite H1, H2, land_bit, H3 by lia. done. }
  intros E. apply bind_ret_inv in E as (sl & _ & E). apply bind_ret_inv in E as (b & _ & E).
  injection E as <- _. cbn [Rx.next Rx.map]. rewrite H1, H2, land_bit by lia.
  rewrite Z.lor_spec, Z.shiftl_1_l, Z.pow2_bits_true, orb_true_r by lia. done.
Qed.

(** A repeated command is acted on again.  When the same reliable command
    arrives twice (a resend whose acknowledgement was lost), the receive window
    marks the second copy a duplicate, yet the service hands it to the sink a
    second time, exactly like the first. *)
Theorem duplicate_command_delivered s l arch from : core_inv (core s) l ->
  wsub 32 (Cmd.seq arch) (Rx.next (rel_rx (core s))) < SACK_BITS ->
  exists s1 s2, on_frame s (InControl arch from true) =
      Ret (s1, Some (EvControl (command_from_archived arch) from true)) /\
    Rx.accept (rel_rx (core s1)) (wrap 32 (Cmd.seq arch)) [] = Ret (rel_rx (core s1), Duplicate) /\
    on_frame s1 (InControl arch from true) =
      Ret (s2, Some (EvControl (command_from_archived arch) from true)).
Proof.
  intros I Hd. destruct (on_reliable s l arch from I) as (s1 & rr & a & E1 & Ha & Hr & I1 & _).
  destruct (on_reliable s1 l arch from I1) as (s2 & rr2 & a2 & E2 & _). cbn [command_from_archived Cmd.seq] in *.
  exists s1, s2. split; [exact E1|]. split; [|exact E2]. rewrite Hr.
  eapply accept_twice; [apply (ci_rel_rx _ _ I) | | exact Ha]. by rewrite wsub_wrap_l.
Qed.

(** The reliable channel as the service drives it stops after one window.
    The service never takes frames out of its receive window, so a receiver that
    starts at zero stays there through any ticks; every command numbered 32 to
    [2^31] (modulo [2^32]) is then answered by an acknowledgement that does not
    cover it, and a sender that gets such answers never advances: its commands
    from number 128 on are no longer retained. *)
Theorem reliable_control_stalls :
  (forall {U} (sink : U -> Event -> sink_run U) fuel d reads s u s' u' r l, core_inv (core s) l ->
     (pending (world s) < fuel)%nat -> poll sink fuel d reads s u = Ret (s', u', r) ->
     Rx.next (rel_rx (core s')) = Rx.next (rel_rx (core s))) /\
  (forall s l arch from, core_inv (core s) l -> Rx.next (rel_rx (core s)) = 0 ->
     SACK_BITS <= wrap 32 (Cmd.seq arch) <= U32_HALF ->
     exists s' ack, on_frame s (InControl arch from true) =
         Ret (s', Some (EvControl (command_from_archived arch) from true)) /\
       wire s' = wire s ++ [(from, framed Control FLAG_ACK (bytes_of ack))] /\
       Ack.base_seq ack = 0 /\ Ack.covers ack (wrap 32 (Cmd.seq arch)) = false) /\
  (forall t a now sq p, tx_shape t -> Tx.oldest t = 0 -> Ack.base_seq a = 0 ->
     Z.of_nat (Tx.window t) <= wrap 32 sq -> (length p <= MAX_RELIABLE_PAYLOAD)%nat ->
     exists t' r, Tx.on_ack t a now = Ret (t', r) /\ Tx.oldest t' = 0 /\
       Tx.send t' (wrap 32 sq) p now = Ret (t', Err (wrap 32 sq))).
Proof.
  split_and!.
  - intros U sink fuel d reads s u s' u' r l I Hf E.
    destruct (drains_ok sink reads fuel s u 0 l I Hf) as (s1 & u1 & h1 & E1 & I1 & [_ P1 _ _ N1]).
    unfold poll in E. rewrite E1 in E. cbn [mbind exec_bind] in E. destruct d as [d|e]; [|by injection E as <- _ _].
    destruct (drain_now_ok sink fuel s1 u1 h1 l I1) as (s2 & u2 & h2 & E2 & I2 & [_ _ _ _ N2]); [lia|].
    destruct (background_ok s2 l I2) as (s3 & l' & E3 & I3 & _ & [_ _ _ N3]).
    rewrite E2 in E. cbn [mbind exec_bind] in E. rewrite E3 in E. cbn [mbind exec_bind] in E.
    injection E as <- _ _. congruence.
  - intros s l arch from I Hn Hsq. destruct (on_reliable s l arch from I) as (s' & rr & a & E & Ha & Hr & I' & Hw).
    destruct (rx_accept_shape (rel_rx (core s)) (wrap 32 (Cmd.seq (command_from_archived arch))) (ci_rel_rx _ _ I))
      as (r2 & a2 & E2 & _ & Hn2). rewrite Ha in E2. injection E2 as <- <-.
    exists s', (Rx.build_ack rr 0). split; [exact E|]. split; [exact Hw|].
    cbn [Rx.build_ack Ack.base_seq]. rewrite Hn2, Hn. split; [done|].
    unfold Ack.covers. cbn [Ack.base_seq Rx.build_ack]. rewrite Hn2, Hn, wsub_wrap_l, Z.sub_0_r.
    change SACK_MAX with 31. change SACK_BITS with 32 in Hsq. change U32_HALF with 2147483647 in *.
    rewrite (proj2 (Z.ltb_ge _ _)), (proj2 (Z.eqb_neq _ _)), (proj2 (Z.leb_gt (wrap 32 _) _)), andb_false_r by lia. done.
  - intros t a now sq p Hs Ho Hb Hsq Hp. destruct (on_ack_shape t a now Hs) as (t' & r & E & Hs' & Hw & Ho').
    exists t', r. split; [exact E|]. rewrite Ho in Ho'. specialize (Ho' Hb). split; [done|].
    unfold Tx.send. rewrite (proj2 (Nat.leb_le _ _) Hp). cbn [assert mbind exec_bind].
    rewrite Ho', wsub_wrap_l, Z.sub_0_r, Hw. by rewrite (proj2 (Z.leb_le _ _)).
Qed.
End Invariant.

(** ** A concrete machine

    Its socket holds a list of datagrams, its sends succeed, its clock counts. *)

Module DemoHost.
Record machine := { ticks : Z; inbox : list (list Z * SocketAddr) }.
Definition pad (b : list Z) : list Z := resize MAX_DATAGRAM 0 ((fun z => z mod 256) <$> b).

Lemma pad_bytes b : bytes (pad b).
Proof.
  apply Forall_resize; [vm_compute; split; congruence|]. apply Forall_fmap, Forall_true.
  intros z. apply Z.mod_pos_bound. lia.
Qed.

Definition elapsed (w : machine) : machine * Z := ({| ticks := ticks w + 1; inbox := inbox w |}, ticks w).
Definition recv (w : machine) : machine * received :=
  match inbox w with
  | [] => (w, NoDatagram)
  | (b, a) :: rest =>
      ({| ticks := ticks w; inbox := rest |}, Datagram (pad b) (Nat.min (length b) MAX_DATAGRAM) a)
  end.
End DemoHost.

#[global] Program Instance demo_host : Host DemoHost.machine := {|
  elapsed := DemoHost.elapsed;
  send_to w a b := (w, Ok (length b));
  uring_send w a b := (w, false);
  recv_from := DemoHost.recv;
  local_port w := Some 443 |}.
Next Obligation.
  intros w w' b n a. unfold DemoHost.recv. destruct (DemoHost.inbox w) as [|[b0 a0] rest]; [done|].
  intros [= _ <- <- <-]. split_and!; [apply length_resize | lia | apply DemoHost.pad_bytes].
Qed.
Next Obligation. intros w p [= <-]. vm_compute. split; congruence. Qed.

#[global] Program Instance demo_traffic : FiniteTraffic DemoHost.machine := {|
  pending w := length (DemoHost.inbox w) |}.
Next Obligation. done. Qed.
Next Obligation. done. Qed.
Next Obligation. done. Qed.
Next Obligation.
  intros w w' b n a. cbn. unfold DemoHost.recv. destruct (DemoHost.inbox w) as [|[b0 a0] rest] eqn:E; [done|].
  by intros [= <- _ _ _].
Qed.
Next Obligation. intros w. cbn. unfold DemoHost.recv. destruct (DemoHost.inbox w) as [|[b0 a0] rest] eqn:E; cbn; by rewrite ?E. Qed.

Module DemoService.
Abbreviation ring := (Spsc.SpscRing (Cmd.ControlCommand Z)).
Definition peer : SocketAddr := {| ip := 16777343; port := 4000 |}.
Definition config : ServiceConfig :=
  {| unit_id := 7; listen_port := 443; beacon_interval_ns := 200000000; mesh_ttl_ns := 5000000000;
     beacon_peers := [peer]; primary_peer := Some peer; reliable_control := true; rto_ns := 10000000 |}.
Definition state (q : ring) (inb : list (list Z * SocketAddr)) : st DemoHost.machine ring :=
  {| core := new_core config demo_mux q false 4096;
     world := {| DemoHost.ticks := 1; DemoHost.inbox := inb |}; wire := [] |}.
(** a reliable command, twice, then noise *)
Definition inbound : list (list Z * SocketAddr) :=
  let p := framed Control FLAG_RELIABLE (bytes_of (Cmd.with_crc demo_cmd (command_crc demo_cmd))) in
  [(p, peer); (p, peer); ([1; 2; 3], peer)].
Definition sink (u : nat) (_ : Event) : sink_run nat := Call BeaconFanout (fun _ => Done (S u)).
Definition empty : ring := Spsc.with_capacity 4.

Lemma inv q inb l : fifo_rep q l -> core_inv (core (state q inb)) l.
Proof.
  intros H. constructor; [apply length_replicate | apply tx_new_shape | apply rx_new_shape | exact H].
Qed.
Lemma empty_rep : fifo_rep empty [].
Proof. apply Spsc.rep_with_capacity. lia. Qed.
End DemoService.

Lemma service_tick_accounts_witness :
  exists s' u' r, poll (RC := raw_cmd) (RT := raw_tp) DemoService.sink 4 (Ok 0%nat) 1
      (DemoService.state DemoService.empty DemoService.inbound) 0%nat = Ret (s', u', r) /\
    traffic s' = 3.
Proof.
  destruct (service_tick_accounts (RC := raw_cmd) (RT := raw_tp) DemoService.sink 4 (Ok 0%nat) 1
    (DemoService.state DemoService.empty DemoService.inbound) 0%nat []) as (s' & u' & r & l' & E & _ & _ & _ & Ht & _).
  - apply DemoService.inv, DemoService.empty_rep.
  - simpl. lia.
  - exists s', u', r. split; [exact E|]. rewrite Ht. reflexivity.
Defined.

Lemma outbox_flushed_in_order_witness :
  exists q : DemoService.ring, fifo_rep q [demo_cmd] /\ exists s' bs,
    flush_outbox (RC := raw_cmd) (S (Z.to_nat (fifo_capacity q))) (DemoService.state q []) = Ret s' /\
    wire s' = pair DemoService.peer <$> bs /\ length bs = 1%nat.
Proof.
  destruct (fifo_push_ok DemoService.empty [] demo_cmd DemoService.empty_rep eq_refl) as (q & _ & Hq & _).
  exists q. split; [exact Hq|].
  destruct (outbox_flushed_in_order (RC := raw_cmd) (DemoService.state q []) [demo_cmd] DemoService.peer)
    as (s' & bs & E & _ & Hw & Hbs).
  - by apply DemoService.inv.
  - intros w a b. by eexists.
  - reflexivity.
  - constructor; [|constructor]. eexists. split; [reflexivity|]. vm_compute. lia.
  - exists s', bs. split; [exact E|]. split; [exact Hw|]. symmetry. exact (Forall2_length _ _ _ Hbs).
Defined.

Lemma duplicate_command_delivered_witness :
  exists s1 s2, on_frame (DemoService.state DemoService.empty [])
      (InControl demo_cmd DemoService.peer true) = Ret (s1, Some (EvControl demo_cmd DemoService.peer true)) /\
    on_frame s1
      (InControl demo_cmd DemoService.peer true) = Ret (s2, Some (EvControl demo_cmd DemoService.peer true)).
Proof.
  destruct (duplicate_command_delivered (DemoService.state DemoService.empty []) []
    demo_cmd DemoService.peer) as (s1 & s2 & E1 & _ & E2).
  - apply DemoService.inv, DemoService.empty_rep.
  - vm_compute. reflexivity.
  - exists s1, s2. split; [exact E1 | exact E2].
Defined.

Lemma reliable_control_stalls_witness :
  exists s' ack, on_frame (DemoService.state DemoService.empty [])
      (InControl (Cmd.with_seq demo_cmd 40) DemoService.peer true) =
        Ret (s', Some (EvControl (Cmd.with_seq demo_cmd 40) DemoService.peer true)) /\
    Ack.covers ack 40 = false.
Proof.
  destruct (reliable_control_stalls (RC := raw_cmd) (RT := raw_tp) (W := DemoHost.machine) (Q := DemoService.ring))
    as (_ & H & _).
  destruct (H (DemoService.state DemoService.empty []) [] (Cmd.with_seq demo_cmd 40) DemoService.peer)
    as (s' & ack & E & _ & _ & Hc).
  - apply DemoService.inv, DemoService.empty_rep.
  - reflexivity.
  - vm_compute. split; congruence.
  - exists s', ack. split; [exact E | exact Hc].
Defined.
