(* ===== verification/Float.v ===== *)
(** * IEEE arithmetic

    [f32] and [f64] are the Standard Library's [spec_float] with the binary32
    and binary64 formats; every operation rounds to nearest even as in Rust.
    NaN payloads are not distinguished. *)

From Stdlib Require Export SpecFloat.
From S2P Require Import Prelude.

Definition f32 := spec_float.
Definition f64 := spec_float.

Definition f32_add : f32 -> f32 -> f32 := SFadd 24 128.
Definition f32_sub : f32 -> f32 -> f32 := SFsub 24 128.
Definition f32_mul : f32 -> f32 -> f32 := SFmul 24 128.
Definition f32_div : f32 -> f32 -> f32 := SFdiv 24 128.
Definition f64_add : f64 -> f64 -> f64 := SFadd 53 1024.
Definition f64_sub : f64 -> f64 -> f64 := SFsub 53 1024.
Definition f64_mul : f64 -> f64 -> f64 := SFmul 53 1024.
Definition f64_div : f64 -> f64 -> f64 := SFdiv 53 1024.

(** [as f64], [as f32] *)
Definition convert (prec emax : Z) (x : spec_float) : spec_float :=
  match x with
  | S754_finite s m e => binary_normalize prec emax (if s then Zneg m else Zpos m) e s
  | _ => x
  end.
Definition f32_to_f64 (x : f32) : f64 := convert 53 1024 x.
Definition f64_to_f32 (x : f64) : f32 := convert 24 128 x.
(** an integer [as f32], [as f64] *)
Definition f32_of_Z (z : Z) : f32 := binary_normalize 24 128 z 0 false.
Definition f64_of_Z (z : Z) : f64 := binary_normalize 53 1024 z 0 false.
(** the literal [num/den]: one rounding of the exact quotient *)
Definition f32_lit (num den : Z) : f32 := f32_div (f32_of_Z num) (f32_of_Z den).
Definition f64_lit (num den : Z) : f64 := f64_div (f64_of_Z num) (f64_of_Z den).

Definition f_zero : spec_float := S754_zero false.

Definition is_nan (x : spec_float) : bool := match x with S754_nan => true | _ => false end.

(** [<], [<=], [==]; false on NaN *)
Definition flt : spec_float -> spec_float -> bool := SFltb.
Definition fle : spec_float -> spec_float -> bool := SFleb.
Definition feq : spec_float -> spec_float -> bool := SFeqb.

(** [f32::max], [f64::min]: a NaN operand is ignored *)
Definition fmax (a b : spec_float) : spec_float :=
  if is_nan a then b else if is_nan b then a else if flt a b then b else a.
Definition fmin (a b : spec_float) : spec_float :=
  if is_nan a then b else if is_nan b then a else if flt b a then b else a.

(** [x.clamp(lo, hi)]: panics unless [lo <= hi]; a NaN [x] stays NaN *)
Definition fclamp (x lo hi : spec_float) : exec spec_float :=
  _ ← assert (fle lo hi);
  let x := if flt x lo then lo else x in
  Ret (if flt hi x then hi else x).

(** ** Bit patterns

    [from_bits]; [to_bits] takes the pattern a NaN is given, which IEEE 754 and
    Rust leave open. *)
Definition of_bits (mbits ebits : Z) (z : Z) : spec_float :=
  let s := Z.testbit z (mbits + ebits) in
  let e := Z.land (Z.shiftr z mbits) (2 ^ ebits - 1) in
  let m := Z.land z (2 ^ mbits - 1) in
  let emin := 3 - 2 ^ (ebits - 1) - (mbits + 1) in
  if e =? 2 ^ ebits - 1 then (if m =? 0 then S754_infinity s else S754_nan)
  else if e =? 0 then (match m with Zpos p => S754_finite s p emin | _ => S754_zero s end)
  else match m + 2 ^ mbits with Zpos p => S754_finite s p (e + emin - 1) | _ => S754_nan end.
Definition to_bits (mbits ebits nan : Z) (x : spec_float) : Z :=
  let sign (s : bool) := if s then 2 ^ (mbits + ebits) else 0 in
  let emin := 3 - 2 ^ (ebits - 1) - (mbits + 1) in
  match x with
  | S754_nan => nan
  | S754_zero s => sign s
  | S754_infinity s => sign s + Z.shiftl (2 ^ ebits - 1) mbits
  | S754_finite s m e =>
      sign s + (if Zpos m <? 2 ^ mbits then Zpos m
                else Z.shiftl (e - emin + 1) mbits + (Zpos m - 2 ^ mbits))
  end.
Definition f32_of_bits : Z -> f32 := of_bits 23 8.
Definition f64_of_bits : Z -> f64 := of_bits 52 11.
Definition f32_bits : Z -> f32 -> Z := to_bits 23 8.
Definition f64_bits : Z -> f64 -> Z := to_bits 52 11.

Example bit_patterns :
  f32_of_bits 0x3FC00000 = f32_lit 3 2 /\ f32_bits 0 (f32_lit 3 2) = 0x3FC00000 /\
  f32_of_bits 1 = S754_finite false 1 (-149) /\ f64_of_bits 0x3FF8000000000000 = f64_lit 3 2 /\
  f64_bits 0 (f64_lit 3 2) = 0x3FF8000000000000 /\ f64_of_bits 1 = S754_finite false 1 (-1074) /\
  f32_bits 7 S754_nan = 7 /\ f32_of_bits 0xFF800000 = S754_infinity true.
Proof. vm_compute. split_and!; reflexivity. Qed.

(** ** Comparison *)

Lemma SFcompare_some x y : is_nan x = false -> is_nan y = false ->
  exists c, SFcompare x y = Some c.
Proof. destruct x, y; try done; simpl; intros _ _; repeat case_match; eauto. Qed.

Lemma SFcompare_nan x y c : SFcompare x y = Some c -> is_nan x = false /\ is_nan y = false.
Proof. by destruct x, y. Qed.

Lemma SFcompare_swap x y c : SFcompare x y = Some c -> SFcompare y x = Some (CompOpp c).
Proof.
  destruct x as [s|s| |s m e], y as [s'|s'| |s' m' e']; try done;
    try (destruct s; try destruct s'; intros [= <-]; done).
  simpl. destruct s, s'; try (intros [= <-]; done);
    rewrite (Z.compare_antisym e e'); destruct (e ?= e') eqn:E; simpl;
    intros [= <-]; try done; rewrite (Pos.compare_cont_antisym m m');
    by rewrite ?CompOpp_involutive.
Qed.

Lemma fle_nan x y : fle x y = true -> is_nan x = false /\ is_nan y = false.
Proof.
  unfold fle, SFleb. destruct (SFcompare x y) eqn:E; [|done]. intros _. by eapply SFcompare_nan.
Qed.

Lemma flt_false_fle x y : is_nan x = false -> is_nan y = false ->
  flt x y = false -> fle y x = true.
Proof.
  intros Hx Hy. destruct (SFcompare_some x y Hx Hy) as [c E]. unfold flt, fle, SFltb, SFleb.
  rewrite E, (SFcompare_swap _ _ _ E). by destruct c.
Qed.

Lemma flt_true_fle x y : flt x y = true -> fle x y = true.
Proof. unfold flt, fle, SFltb, SFleb. by destruct (SFcompare x y) as [[]|]. Qed.

Lemma fle_not_flt x y : fle x y = true -> flt y x = false.
Proof.
  unfold flt, fle, SFltb, SFleb. destruct (SFcompare x y) as [c|] eqn:E; [|done].
  rewrite (SFcompare_swap _ _ _ E). by destruct c.
Qed.

Lemma flt_nan_l y : flt S754_nan y = false.
Proof. done. Qed.

Lemma flt_nan_r x : flt x S754_nan = false.
Proof. by destruct x as [[]|[]| |[]]. Qed.

Lemma fle_refl x : is_nan x = false -> fle x x = true.
Proof.
  destruct x as [s|s| |s m e]; try done; intros _; [by destruct s|].
  unfold fle, SFleb; simpl. rewrite Z.compare_refl, Pos.compare_cont_refl. by destruct s.
Qed.

(** ** Clamping *)

Lemma fclamp_total x lo hi : fle lo hi = true -> exists r, fclamp x lo hi = Ret r.
Proof. intros H. unfold fclamp. rewrite H. simpl. eauto. Qed.

Lemma fclamp_bounds x lo hi r : fclamp x lo hi = Ret r -> is_nan x = false ->
  fle lo r = true /\ fle r hi = true.
Proof.
  unfold fclamp. destruct (fle lo hi) eqn:H; [|done]. cbn [assert mbind exec_bind].
  intros [= <-] Hx. destruct (fle_nan _ _ H) as [Hl Hh].
  destruct (flt x lo) eqn:E1.
  - rewrite (fle_not_flt _ _ H). split; [by apply fle_refl | done].
  - destruct (flt hi x) eqn:E2; (split; [|first [by apply fle_refl | by apply flt_false_fle]]);
      [done | by apply flt_false_fle].
Qed.

Lemma fclamp_nan lo hi r : fclamp S754_nan lo hi = Ret r -> r = S754_nan.
Proof.
  unfold fclamp. destruct (fle lo hi); [|done]. cbn [assert mbind exec_bind].
  rewrite flt_nan_l, flt_nan_r. by intros [= <-].
Qed.

(** clamping keeps the value or returns a bound *)
Lemma fclamp_cases x lo hi r : fclamp x lo hi = Ret r -> r = x \/ r = lo \/ r = hi.
Proof.
  unfold fclamp. destruct (fle lo hi); [|done]. cbn [assert mbind exec_bind]. intros [= <-].
  repeat case_match; auto.
Qed.

(** ** NaN propagation *)

Lemma f32_add_nan_l y : f32_add S754_nan y = S754_nan.
Proof. done. Qed.
Lemma f32_add_nan_r x : f32_add x S754_nan = S754_nan.
Proof. by destruct x. Qed.
Lemma f32_sub_nan_r x : f32_sub x S754_nan = S754_nan.
Proof. by destruct x. Qed.

(** the value a legal clamp returns *)
Definition clampv (x lo hi : spec_float) : spec_float :=
  let x := if flt x lo then lo else x in if flt hi x then hi else x.

Lemma fclamp_eq x lo hi : fle lo hi = true -> fclamp x lo hi = Ret (clampv x lo hi).
Proof. intros H. unfold fclamp. by rewrite H. Qed.

Lemma clampv_bounds x lo hi : fle lo hi = true -> is_nan x = false ->
  fle lo (clampv x lo hi) = true /\ fle (clampv x lo hi) hi = true.
Proof. intros H Hx. apply (fclamp_bounds x); [by apply fclamp_eq | done]. Qed.

Lemma clampv_nan lo hi : fle lo hi = true -> clampv S754_nan lo hi = S754_nan.
Proof. intros H. apply (fclamp_nan lo hi). by apply fclamp_eq. Qed.
