(* ===== verification/Safety.v ===== *)
(** * The safety stages: [tpt-t-safety/src/{limits,geo,latency,spline,veto}.rs]

    The stages the safety loop runs a command through, on IEEE floats.  [hypot]
    comes from the platform's math library with unspecified precision, so it is a
    parameter of the geofence and no theorem assumes anything about it. *)

From S2P Require Import Prelude Cast Mode Ser Float.

Abbreviation Command := (Cmd.ControlCommand f32).

Definition ROLL : nat := 0.
Definition PITCH : nat := 1.
Definition YAW : nat := 2.
Definition THROTTLE : nat := 3.
Definition LAT_X : nat := 4.
Definition LAT_Y : nat := 5.

(** [cmd.axes[k]] and its assignment; [axes] is an array of six *)
Definition axis (c : Command) (k : nat) : f32 := nth k (Cmd.axes c) f_zero.
Definition set_axis (c : Command) (k : nat) (v : f32) : Command :=
  Cmd.with_axes c (<[k := v]> (Cmd.axes c)).

(** ** Kinematic limits *)

Module Limits.

Record KinematicLimits := {
  max_tilt_norm : f32; max_yaw_norm : f32; max_lateral_norm : f32;
  max_axis_step : f32; max_throttle_step : f32
}.

Definition default : KinematicLimits :=
  {| max_tilt_norm := f32_lit 35 100; max_yaw_norm := f32_lit 5 10;
     max_lateral_norm := f32_lit 8 10; max_axis_step := f32_lit 2 100;
     max_throttle_step := f32_lit 1 100 |}.

Definition clamp_abs (cmd : Command) (ax : nat) (limit : f32) : exec (Command * bool) :=
  let before := axis cmd ax in
  r ← fclamp before (SFopp limit) limit;
  let cmd := set_axis cmd ax r in
  Ret (cmd, negb (feq before (axis cmd ax))).

Definition slew (prev cmd : Command) (ax : nat) (max_step : f32) : exec (Command * bool) :=
  let target := axis cmd ax in
  let last := axis prev ax in
  delta ← fclamp (f32_sub target last) (SFopp max_step) max_step;
  let limited := f32_add last delta in
  Ret (set_axis cmd ax limited, negb (feq limited target)).

(** [for ax in .. { touched |= f(cmd, ax) }] *)
Fixpoint for_axes (f : Command -> nat -> exec (Command * bool)) (axs : list nat)
    (cmd : Command) (touched : bool) : exec (Command * bool) :=
  match axs with
  | [] => Ret (cmd, touched)
  | ax :: axs => '(cmd, t) ← f cmd ax; for_axes f axs cmd (touched || t)
  end.

Definition apply (l : KinematicLimits) (prev cmd : Command) : exec (Command * bool) :=
  '(cmd, touched) ← for_axes (fun c ax => clamp_abs c ax (max_tilt_norm l)) [ROLL; PITCH] cmd false;
  '(cmd, t) ← clamp_abs cmd YAW (max_yaw_norm l);
  '(cmd, touched) ← for_axes (fun c ax => clamp_abs c ax (max_lateral_norm l)) [LAT_X; LAT_Y]
                      cmd (touched || t);
  thr ← fclamp (axis cmd THROTTLE) f_zero (f32_of_Z 1);
  let cmd := set_axis cmd THROTTLE thr in
  '(cmd, touched) ← for_axes (fun c ax => slew prev c ax (max_axis_step l))
                      [ROLL; PITCH; YAW; LAT_X; LAT_Y] cmd touched;
  '(cmd, t) ← slew prev cmd THROTTLE (max_throttle_step l);
  Ret (cmd, touched || t).

(** [write_emergency_stop]: the command it leaves *)
Definition write_emergency_stop (seq timestamp_ns : Z) : Command :=
  let cmd := Cmd.zeroed f_zero EmergencyStop in
  let cmd := Cmd.with_seq cmd seq in
  let cmd := Cmd.with_timestamp cmd timestamp_ns in
  Cmd.with_flags cmd (Z.lor (Cmd.flags cmd) 1).

End Limits.

(** ** Geofence *)

Module Geo.

Record Pose6D := { x : f64; y : f64; z : f64; yaw : f32; pitch : f32; roll : f32; reserved : Z }.
Definition pose_default : Pose6D :=
  {| x := f_zero; y := f_zero; z := f_zero; yaw := f_zero; pitch := f_zero; roll := f_zero;
     reserved := 0 |}.

Definition THROTTLE_NEUTRAL : f32 := f32_lit 1 2.

Record GeoFence := {
  center_east_m : f64; center_north_m : f64; radius_m : f64; min_alt_m : f64; max_alt_m : f64
}.
Definition default : GeoFence :=
  {| center_east_m := f_zero; center_north_m := f_zero; radius_m := f64_of_Z 500;
     min_alt_m := f_zero; max_alt_m := f64_of_Z 120 |}.

Inductive FenceVerdict := Inside | SoftWarn | HardBreach.
#[global] Instance FenceVerdict_eq_dec : EqDecision FenceVerdict.
Proof. solve_decision. Defined.

Section Fence.
Context (hypot : f64 -> f64 -> f64).

Definition horizontal_dist (g : GeoFence) (p : Pose6D) : f64 :=
  hypot (f64_sub (x p) (center_east_m g)) (f64_sub (y p) (center_north_m g)).

Definition soft_frac : f64 := f64_lit 95 100.

Definition evaluate (g : GeoFence) (p : Pose6D) : FenceVerdict :=
  let d := horizontal_dist g p in
  let soft_r := f64_mul (radius_m g) soft_frac in
  let soft_hi := f64_mul (max_alt_m g) soft_frac in
  if flt (radius_m g) d || flt (max_alt_m g) (z p) || flt (z p) (min_alt_m g) then HardBreach
  else if flt soft_r d || flt soft_hi (z p) then SoftWarn
  else Inside.

(** the body of the two [for (axis_idx, u)] loops *)
Definition suppress (severity : f64) (cmd : Command) (ax : nat) (u : f64) : Command :=
  let outward := f64_mul (f32_to_f64 (axis cmd ax)) u in
  if flt f_zero outward then
    set_axis cmd ax (f32_sub (axis cmd ax)
      (f64_to_f32 (f64_mul (f64_mul outward severity) u)))
  else cmd.

Definition clamp_command (g : GeoFence) (p : Pose6D) (verdict : FenceVerdict) (cmd : Command) :
    exec Command :=
  let dx := f64_sub (x p) (center_east_m g) in
  let dy := f64_sub (y p) (center_north_m g) in
  let dist := hypot dx dy in
  cmd ← (if flt (f64_lit 1 1000000000) dist then
    let ux := f64_div dx dist in
    let uy := f64_div dy dist in
    severity ← (if decide (verdict = HardBreach) then Ret (f64_of_Z 1)
      else fclamp (f64_div (f64_sub dist (f64_mul (radius_m g) soft_frac))
                           (f64_mul (radius_m g) (f64_lit 5 100))) f_zero (f64_of_Z 1));
    Ret (if flt f_zero severity then
      let cmd := suppress severity cmd LAT_X ux in
      let cmd := suppress severity cmd LAT_Y uy in
      let cmd := suppress severity cmd ROLL ux in
      suppress severity cmd PITCH uy
    else cmd)
  else Ret cmd);
  let cmd := if fle (f64_mul (max_alt_m g) soft_frac) (z p)
                && flt THROTTLE_NEUTRAL (axis cmd THROTTLE)
             then set_axis cmd THROTTLE THROTTLE_NEUTRAL else cmd in
  Ret (if fle (z p) (min_alt_m g) && flt (axis cmd THROTTLE) THROTTLE_NEUTRAL
       then set_axis cmd THROTTLE THROTTLE_NEUTRAL else cmd).

End Fence.
End Geo.

(** ** Latency compensation *)

Module Latency.

Record LatencyCompensator := { ewma_ns : f64; alpha : f64; max_ns : f64; samples : Z }.

Definition new (a : f64) (max : Z) : exec LatencyCompensator :=
  a ← fclamp a (f64_lit 1 100) (f64_of_Z 1);
  Ret {| ewma_ns := f_zero; alpha := a; max_ns := f64_of_Z (Z.max max 1); samples := 0 |}.

Definition observe (l : LatencyCompensator) (now_ns stamp_ns : Z) : LatencyCompensator * Z :=
  let delay := ssub now_ns stamp_ns in
  let d := f64_of_Z delay in
  let e := if samples l =? 0 then d
           else f64_add (f64_mul (ewma_ns l) (f64_sub (f64_of_Z 1) (alpha l))) (f64_mul d (alpha l)) in
  ({| ewma_ns := e; alpha := alpha l; max_ns := max_ns l; samples := wadd 64 (samples l) 1 |}, delay).

Definition attenuation (l : LatencyCompensator) : f32 :=
  if fle (ewma_ns l) f_zero then f32_of_Z 1
  else f64_to_f32 (f64_sub (f64_of_Z 1)
         (f64_mul (fmin (f64_div (ewma_ns l) (max_ns l)) (f64_of_Z 1)) (f64_lit 8 10))).

Definition compensate (l : LatencyCompensator) (cmd : Command) : Command :=
  let k := attenuation l in
  if flt k (f32_of_Z 1) then
    foldl (fun c ax => set_axis c ax (f32_mul (axis c ax) k)) cmd [ROLL; PITCH; LAT_X; LAT_Y]
  else cmd.

End Latency.

(** ** Authority blending *)

Module Spline.

Definition smootherstep (v : f64) : exec f64 :=
  v ← fclamp v f_zero (f64_of_Z 1);
  Ret (f64_mul (f64_mul (f64_mul v v) v)
    (f64_add (f64_mul v (f64_sub (f64_mul v (f64_of_Z 6)) (f64_of_Z 15))) (f64_of_Z 10))).

Definition authority_target (m : Mode) : f32 :=
  match m with
  | Auto => f_zero
  | Assist => f32_lit 1 2
  | FullTeleop => f32_of_Z 1
  | EmergencyStop => f_zero
  end.

Record AuthorityBlend := { from_weight : f32; to_weight : f32; duration_s : f32; elapsed_s : f32 }.

Definition new (f t duration : f32) : AuthorityBlend :=
  {| from_weight := f; to_weight := t; duration_s := fmax duration (f32_lit 1 1000);
     elapsed_s := f_zero |}.

Definition weight (b : AuthorityBlend) : exec f32 :=
  s ← smootherstep (f64_div (f32_to_f64 (elapsed_s b)) (f32_to_f64 (duration_s b)));
  Ret (f32_add (from_weight b)
         (f32_mul (f32_sub (to_weight b) (from_weight b)) (f64_to_f32 s))).

Definition advance (b : AuthorityBlend) (dt_s : f32) : exec (AuthorityBlend * f32) :=
  let b := {| from_weight := from_weight b; to_weight := to_weight b; duration_s := duration_s b;
              elapsed_s := fmin (f32_add (elapsed_s b) dt_s) (duration_s b) |} in
  w ← weight b;
  Ret (b, w).

Definition done (b : AuthorityBlend) : bool := fle (duration_s b) (elapsed_s b).

Definition check_transition (current requested : Mode) (table_allows : Mode -> Mode -> bool) :
    result unit ModeError :=
  if table_allows current requested then Ok tt else Err (Disallowed current requested).

End Spline.

(** ** AI veto *)

Module Veto.

Definition TRANSLATIONAL : list nat := [0; 1; 4; 5]%nat.

(** the cap is stored as its bit pattern; zero initially *)
Record VetoGate := { active : bool; cap_bits : f32 }.
Definition default : VetoGate := {| active := false; cap_bits := f_zero |}.

Definition min_cap : f32 := f32_lit 1 100.

Definition engage (v : VetoGate) (max_translational_norm : f32) : exec VetoGate :=
  cap ← fclamp max_translational_norm min_cap (f32_of_Z 1);
  Ret {| active := true; cap_bits := cap |}.

Definition disengage (v : VetoGate) : VetoGate := {| active := false; cap_bits := cap_bits v |}.

Fixpoint apply_loop (cap : f32) (axs : list nat) (cmd : Command) (touched : bool) :
    exec (Command * bool) :=
  match axs with
  | [] => Ret (cmd, touched)
  | ax :: axs =>
      let before := axis cmd ax in
      after ← fclamp before (SFopp cap) cap;
      if negb (feq after before) then apply_loop cap axs (set_axis cmd ax after) true
      else apply_loop cap axs cmd touched
  end.

Definition apply (v : VetoGate) (cmd : Command) : exec (Command * bool) :=
  if negb (active v) then Ret (cmd, false)
  else apply_loop (fmax (cap_bits v) min_cap) TRANSLATIONAL cmd false.

End Veto.

(** ** Axes *)

Definition wf6 (c : Command) : Prop := length (Cmd.axes c) = 6%nat.

(** everything but the axes *)
Definition same_header (c d : Command) : Prop := Cmd.with_axes c [] = Cmd.with_axes d [].

Lemma wf6_inv c : wf6 c -> exists a0 a1 a2 a3 a4 a5, Cmd.axes c = [a0; a1; a2; a3; a4; a5].
Proof.
  unfold wf6. destruct (Cmd.axes c) as [|a0 [|a1 [|a2 [|a3 [|a4 [|a5 [|? ?]]]]]]]; try done. eauto 10.
Qed.

Lemma wf6_set c k v : wf6 c -> wf6 (set_axis c k v).
Proof. unfold wf6, set_axis. simpl. by rewrite length_insert. Qed.

Lemma same_header_set c k v : same_header (set_axis c k v) c.
Proof. done. Qed.

Lemma axis_set c k j v : wf6 c -> (k < 6)%nat ->
  axis (set_axis c k v) j = if decide (j = k) then v else axis c j.
Proof.
  intros Hw Hk. unfold axis, set_axis. simpl. rewrite !nth_lookup. case_decide as Hj.
  - subst. rewrite list_lookup_insert_eq; [done|]. unfold wf6 in Hw. lia.
  - by rewrite list_lookup_insert_ne.
Qed.

(** [view c f d]: [d] is [c] with its axes set to [f 0 .. f 5] *)
Record view (c : Command) (f : nat -> f32) (d : Command) : Prop := {
  view_wf : wf6 d;
  view_header : same_header d c;
  view_axis k : (k < 6)%nat -> axis d k = f k
}.

Lemma view_self c : wf6 c -> view c (axis c) c.
Proof. by constructor. Qed.

Lemma view_set c f d k v : view c f d -> (k < 6)%nat ->
  view c (fun j => if decide (j = k) then v else f j) (set_axis d k v).
Proof.
  intros V Hk. destruct V as [Hw Hh Ha]. constructor; [by apply wf6_set | done|].
  intros j Hj. rewrite axis_set by done. case_decide; [done | by apply Ha].
Qed.

Lemma view_eq c f d g : view c f d -> (forall k, (k < 6)%nat -> f k = g k) ->
  d = Cmd.with_axes c (g <$> seq 0 6).
Proof.
  intros [Hw Hh Ha] Hfg. destruct (wf6_inv d Hw) as (a0 & a1 & a2 & a3 & a4 & a5 & E).
  assert (Hk : forall k, (k < 6)%nat -> axis d k = g k) by (intros; rewrite Ha, Hfg by done; done).
  assert (Hax : Cmd.axes d = g <$> seq 0 6).
  { rewrite E. unfold axis in Hk. rewrite E in Hk. simpl.
    rewrite <- (Hk 0%nat), <- (Hk 1%nat), <- (Hk 2%nat), <- (Hk 3%nat), <- (Hk 4%nat), <- (Hk 5%nat) by lia.
    done. }
  rewrite <- Hax. unfold same_header in Hh. destruct c, d. unfold Cmd.with_axes in *. simpl in *.
  by inversion Hh; subst.
Qed.

Lemma clamp_abs_view c f d ax limit : view c f d -> (ax < 6)%nat -> fle (SFopp limit) limit = true ->
  exists d' t, Limits.clamp_abs d ax limit = Ret (d', t) /\
    view c (fun j => if decide (j = ax) then clampv (f ax) (SFopp limit) limit else f j) d'.
Proof.
  intros V Hax Hl. unfold Limits.clamp_abs. rewrite (fclamp_eq _ _ _ Hl). cbn [mbind exec_bind].
  do 2 eexists. split; [reflexivity|]. rewrite (view_axis _ _ _ V) by done. by apply view_set.
Qed.

Lemma slew_view c prev f d ax step : view c f d -> (ax < 6)%nat -> fle (SFopp step) step = true ->
  exists d' t, Limits.slew prev d ax step = Ret (d', t) /\
    view c (fun j => if decide (j = ax) then
      f32_add (axis prev ax) (clampv (f32_sub (f ax) (axis prev ax)) (SFopp step) step) else f j) d'.
Proof.
  intros V Hax Hl. unfold Limits.slew. rewrite (fclamp_eq _ _ _ Hl). cbn [mbind exec_bind].
  do 2 eexists. split; [reflexivity|]. rewrite (view_axis _ _ _ V) by done. by apply view_set.
Qed.

(** the envelope of each axis *)
Section Envelope.
Context (l : Limits.KinematicLimits).

Definition lo_of (k : nat) : f32 :=
  match k with
  | 0%nat | 1%nat => SFopp (Limits.max_tilt_norm l)
  | 2%nat => SFopp (Limits.max_yaw_norm l)
  | 3%nat => f_zero
  | _ => SFopp (Limits.max_lateral_norm l)
  end.
Definition hi_of (k : nat) : f32 :=
  match k with
  | 0%nat | 1%nat => Limits.max_tilt_norm l
  | 2%nat => Limits.max_yaw_norm l
  | 3%nat => f32_of_Z 1
  | _ => Limits.max_lateral_norm l
  end.
Definition step_of (k : nat) : f32 :=
  match k with 3%nat => Limits.max_throttle_step l | _ => Limits.max_axis_step l end.

(** each limit is a non-negative number *)
Definition limits_ok : bool :=
  let ok v := fle (SFopp v) v in
  ok (Limits.max_tilt_norm l) && ok (Limits.max_yaw_norm l) && ok (Limits.max_lateral_norm l)
    && ok (Limits.max_axis_step l) && ok (Limits.max_throttle_step l).

Definition limited (prev cmd : Command) (k : nat) : f32 :=
  let target := clampv (axis cmd k) (lo_of k) (hi_of k) in
  let delta := clampv (f32_sub target (axis prev k)) (SFopp (step_of k)) (step_of k) in
  f32_add (axis prev k) delta.

Lemma bounds_ok k : limits_ok = true -> fle (lo_of k) (hi_of k) = true /\
  fle (SFopp (step_of k)) (step_of k) = true.
Proof.
  unfold limits_ok. intros H. zbool.
  destruct k as [|[|[|[|k]]]]; simpl; split; first [assumption | by vm_compute].
Qed.

Lemma apply_limited prev cmd : limits_ok = true -> wf6 prev -> wf6 cmd ->
  exists t, Limits.apply l prev cmd =
    Ret (Cmd.with_axes cmd (limited prev cmd <$> seq 0 6), t).
Proof.
  intros Hl Hp Hc.
  assert (Hb : forall k, fle (lo_of k) (hi_of k) = true) by (intros; by apply bounds_ok).
  assert (Hs : forall k, fle (SFopp (step_of k)) (step_of k) = true) by (intros; by apply bounds_ok).
  pose proof (Hs 0%nat : fle (SFopp (Limits.max_axis_step l)) (Limits.max_axis_step l) = true) as Hs0.
  pose proof (Hs 3%nat : fle (SFopp (Limits.max_throttle_step l)) (Limits.max_throttle_step l) = true) as Hs3.
  pose proof (view_self cmd Hc) as V.
  unfold Limits.apply, ROLL, PITCH, YAW, THROTTLE, LAT_X, LAT_Y. cbn [Limits.for_axes].
  destruct (clamp_abs_view cmd _ _ 0 _ V ltac:(lia) (Hb 0%nat)) as (c1 & t1 & -> & V1). cbn [mbind exec_bind].
  destruct (clamp_abs_view _ _ _ 1 _ V1 ltac:(lia) (Hb 1%nat)) as (c2 & t2 & -> & V2). cbn [mbind exec_bind].
  destruct (clamp_abs_view _ _ _ 2 _ V2 ltac:(lia) (Hb 2%nat)) as (c3 & t3 & -> & V3). cbn [mbind exec_bind].
  destruct (clamp_abs_view _ _ _ 4 _ V3 ltac:(lia) (Hb 4%nat)) as (c4 & t4 & -> & V4). cbn [mbind exec_bind].
  destruct (clamp_abs_view _ _ _ 5 _ V4 ltac:(lia) (Hb 5%nat)) as (c5 & t5 & -> & V5). cbn [mbind exec_bind].
  rewrite (fclamp_eq _ _ _ (Hb 3%nat)). cbn [mbind exec_bind].
  pose proof (view_set _ _ _ 3 (clampv (axis c5 3) (lo_of 3) (hi_of 3)) V5 ltac:(lia)) as V6.
  destruct (slew_view _ prev _ _ 0 _ V6 ltac:(lia) Hs0) as (c7 & t7 & -> & V7). cbn [mbind exec_bind].
  destruct (slew_view _ prev _ _ 1 _ V7 ltac:(lia) Hs0) as (c8 & t8 & -> & V8). cbn [mbind exec_bind].
  destruct (slew_view _ prev _ _ 2 _ V8 ltac:(lia) Hs0) as (c9 & t9 & -> & V9). cbn [mbind exec_bind].
  destruct (slew_view _ prev _ _ 4 _ V9 ltac:(lia) Hs0) as (c10 & t10 & -> & V10). cbn [mbind exec_bind].
  destruct (slew_view _ prev _ _ 5 _ V10 ltac:(lia) Hs0) as (c11 & t11 & -> & V11). cbn [mbind exec_bind].
  destruct (slew_view _ prev _ _ 3 _ V11 ltac:(lia) Hs3) as (c12 & t12 & -> & V12). cbn [mbind exec_bind].
  eexists. f_equal. f_equal. apply (view_eq _ _ _ _ V12). intros k Hk.
  rewrite (view_axis _ _ _ V5) by lia.
  do 6 (destruct k as [|k]; [reflexivity|]). lia.
Qed.
End Envelope.

(** what a clamp promises, whatever the input: below the range it gives the lower
    bound, above it the upper one, inside the input itself; what is not a number stays
    so *)
Record clamped (x lo hi r : f32) : Prop := {
  cl_below : flt x lo = true -> r = lo;
  cl_above : flt x lo = false -> flt hi x = true -> r = hi;
  cl_inside : fle lo x = true -> fle x hi = true -> r = x;
  cl_nan : is_nan x = true -> is_nan r = true;
  cl_range : is_nan x = false -> fle lo r = true /\ fle r hi = true
}.

Lemma clampv_clamped x lo hi : fle lo hi = true -> clamped x lo hi (clampv x lo hi).
Proof.
  intros H. constructor.
  - intros E. unfold clampv. rewrite E. by rewrite (fle_not_flt _ _ H).
  - intros E1 E2. unfold clampv. by rewrite E1, E2.
  - intros H1 H2. unfold clampv. by rewrite (fle_not_flt _ _ H1), (fle_not_flt _ _ H2).
  - intros Hn. destruct x; try done. by rewrite clampv_nan.
  - intros Hn. by apply clampv_bounds.
Qed.

(** C4: The kinematic stage never panics on sane limits, touches only the axes, and on
    every axis steers to the operator's value clamped to the configured bounds
    (throttle to [0, 1]) by the difference to the previously accepted value clamped to
    the configured step per tick.  A value or a difference that is not a number is
    held to nothing: it makes the output one that is not a number. *)
Theorem kinematic_envelope (l : Limits.KinematicLimits) (prev cmd : Command) :
  limits_ok l = true -> wf6 prev -> wf6 cmd ->
  exists cmd' t, Limits.apply l prev cmd = Ret (cmd', t) /\ wf6 cmd' /\ same_header cmd' cmd /\
    forall k, (k < 6)%nat -> exists target delta,
      clamped (axis cmd k) (lo_of l k) (hi_of l k) target /\
      clamped (f32_sub target (axis prev k)) (SFopp (step_of l k)) (step_of l k) delta /\
      axis cmd' k = f32_add (axis prev k) delta /\
      (is_nan (axis cmd k) = true \/ is_nan (axis prev k) = true -> is_nan (axis cmd' k) = true).
Proof.
  intros Hl Hp Hc. destruct (apply_limited l prev cmd Hl Hp Hc) as [t E].
  eexists _, t. split; [exact E|]. split; [done|]. split; [done|]. intros k Hk.
  destruct (bounds_ok l k Hl) as [Hb Hs].
  set (target := clampv (axis cmd k) (lo_of l k) (hi_of l k)).
  set (delta := clampv (f32_sub target (axis prev k)) (SFopp (step_of l k)) (step_of l k)).
  exists target, delta. split; [by apply clampv_clamped|]. split; [by apply clampv_clamped|].
  assert (Ea : axis (Cmd.with_axes cmd (limited l prev cmd <$> seq 0 6)) k = f32_add (axis prev k) delta).
  { unfold axis at 1. cbn [Cmd.with_axes Cmd.axes]. do 6 (destruct k as [|k]; [reflexivity|]). lia. }
  split; [exact Ea|]. rewrite Ea. intros Hn.
  assert (Hd : is_nan (f32_sub target (axis prev k)) = true).
  { destruct Hn as [Hn|Hn]; [|destruct (axis prev k); try done; by rewrite f32_sub_nan_r].
    unfold target. destruct (axis cmd k); try done. by rewrite clampv_nan. }
  unfold delta. destruct (f32_sub target (axis prev k)); try done. by rewrite clampv_nan, f32_add_nan_r.
Qed.

Lemma kinematic_envelope_witness :
  exists cmd' t, Limits.apply Limits.default (Cmd.zeroed f_zero Auto)
      (set_axis (Cmd.zeroed f_zero FullTeleop) ROLL (f32_of_Z 1)) = Ret (cmd', t) /\
    wf6 cmd' /\ axis cmd' ROLL = f32_lit 2 100.
Proof.
  destruct (kinematic_envelope Limits.default (Cmd.zeroed f_zero Auto)
    (set_axis (Cmd.zeroed f_zero FullTeleop) ROLL (f32_of_Z 1)))
    as (c & t & E & Hw & _); [vm_compute; reflexivity | reflexivity | reflexivity|].
  exists c, t. split; [exact E|]. split; [exact Hw|]. vm_compute in E. injection E as <- _.
  vm_compute. reflexivity.
Defined.

(** ** The veto only restricts *)

Lemma clampv_feq v lo hi : fle lo hi = true -> feq (clampv v lo hi) v = true -> clampv v lo hi = v.
Proof.
  assert (Hlt : forall a b, flt a b = true -> feq a b = false /\ feq b a = false).
  { intros a b. unfold flt, feq, SFltb, SFeqb. destruct (SFcompare a b) as [c|] eqn:E; [|done].
    rewrite (SFcompare_swap _ _ _ E). by destruct c. }
  intros Hle. unfold clampv. destruct (flt v lo) eqn:E1.
  - rewrite (fle_not_flt _ _ Hle). destruct (Hlt _ _ E1) as [_ ->]. done.
  - destruct (flt hi v) eqn:E2; [|done]. destruct (Hlt _ _ E2) as [-> _]. done.
Qed.

Lemma veto_loop_view cap axs : fle (SFopp cap) cap = true -> Forall (fun k => (k < 6)%nat) axs ->
  forall c f d t, view c f d -> NoDup axs -> exists d' t', Veto.apply_loop cap axs d t = Ret (d', t') /\
    view c (fun j => if decide (j ∈ axs) then clampv (f j) (SFopp cap) cap else f j) d'.
Proof.
  intros Hcap Hk. induction Hk as [|ax axs Hax _ IH]; intros c f d t V Hnd.
  { exists d, t. split; [done|]. destruct V. constructor; try done. }
  apply NoDup_cons in Hnd as [Hni Hnd]. cbn [Veto.apply_loop].
  rewrite (fclamp_eq _ _ _ Hcap). cbn [mbind exec_bind]. rewrite (view_axis _ _ _ V) by done.
  set (r := clampv (f ax) (SFopp cap) cap).
  assert (V1 : view c (fun j => if decide (j = ax) then r else f j)
    (if negb (feq r (f ax)) then set_axis d ax r else d)).
  { destruct (feq r (f ax)) eqn:E; simpl; [|by apply view_set].
    apply clampv_feq in E; [|done]. destruct V as [? ? Ha]. constructor; try done.
    intros k Hk. rewrite Ha by done. case_decide; subst; done. }
  assert (Hgo : exists d' t', (if negb (feq r (f ax)) then Veto.apply_loop cap axs (set_axis d ax r) true
      else Veto.apply_loop cap axs d t) = Ret (d', t') /\
    view c (fun j => if decide (j ∈ axs) then
      clampv (if decide (j = ax) then r else f j) (SFopp cap) cap
      else if decide (j = ax) then r else f j) d').
  { destruct (negb (feq r (f ax))); apply (IH c _ _ _ V1 Hnd). }
  destruct Hgo as (d' & t' & E & V'). exists d', t'. split; [exact E|].
  destruct V' as [Hw Hh Ha]. constructor; [done | done|]. intros j Hj. rewrite Ha by done.
  destruct (decide (j = ax)) as [->|Hne].
  - rewrite decide_False by done. rewrite decide_True by (by apply elem_of_cons; left). done.
  - destruct (decide (j ∈ axs)); [rewrite decide_True by (by apply elem_of_cons; right); done|].
    rewrite decide_False; [done|]. intros [?|?]%elem_of_cons; done.
Qed.

(** the cap [apply] uses *)
Definition veto_cap (v : Veto.VetoGate) : f32 := fmax (Veto.cap_bits v) Veto.min_cap.

Definition veto_ok (v : Veto.VetoGate) : Prop :=
  fle Veto.min_cap (veto_cap v) = true /\ fle (veto_cap v) (f32_of_Z 1) = true.

Lemma cap_symmetric r : fle Veto.min_cap r = true -> fle (SFopp r) r = true.
Proof.
  assert (E : exists m e, Veto.min_cap = S754_finite false m e) by (do 2 eexists; vm_compute; reflexivity).
  destruct E as (m & e & ->). by destruct r as [[]|[]| |[] m' e'].
Qed.

Lemma default_veto_ok : veto_ok Veto.default.
Proof. split; vm_compute; reflexivity. Qed.

Lemma engage_ok v norm : exists v', Veto.engage v norm = Ret v' /\ veto_ok v' /\ Veto.active v' = true.
Proof.
  assert (Hle : fle Veto.min_cap (f32_of_Z 1) = true) by (vm_compute; reflexivity).
  unfold Veto.engage. rewrite (fclamp_eq _ _ _ Hle). cbn [mbind exec_bind].
  eexists. split; [reflexivity|]. split; [|done]. unfold veto_ok, veto_cap, fmax. cbn [Veto.cap_bits].
  destruct (is_nan norm) eqn:Hn.
  - destruct norm; done.
  - destruct (clampv_bounds norm _ _ Hle Hn) as [H1 H2].
    destruct (fle_nan _ _ H1) as [Hm Hr]. rewrite Hr, Hm, (fle_not_flt _ _ H1). done.
Qed.

(** a clamp to a symmetric range moves towards zero and not past it *)
Lemma clamp_towards_zero x cap : fle Veto.min_cap cap = true ->
  (fle f_zero x = true -> fle f_zero (clampv x (SFopp cap) cap) = true /\ fle (clampv x (SFopp cap) cap) x = true) /\
  (fle x f_zero = true -> fle x (clampv x (SFopp cap) cap) = true /\ fle (clampv x (SFopp cap) cap) f_zero = true).
Proof.
  intros Hc. assert (Hp : fle f_zero cap = true /\ fle (SFopp cap) f_zero = true /\
    (fle f_zero x = true -> flt x (SFopp cap) = false) /\ (fle x f_zero = true -> flt cap x = false)).
  { destruct cap as [[]|[]| |[] m e]; try discriminate Hc; try (by vm_compute in Hc);
      (split; [done|]); (split; [done|]); split; destruct x as [[]|[]| |[] mx ex]; done. }
  destruct Hp as (Hc0 & Hc1 & Hpos & Hneg). split; intros Hx; destruct (fle_nan _ _ Hx) as [Hn1 Hn2]; unfold clampv.
  - rewrite (Hpos Hx). destruct (flt cap x) eqn:E; [split; [done | by apply flt_true_fle] | split; [done | by apply fle_refl]].
  - destruct (flt x (SFopp cap)) eqn:E.
    + rewrite (fle_not_flt (SFopp cap) cap) by by apply cap_symmetric. split; [by apply flt_true_fle | done].
    + rewrite (Hneg Hx). split; [by apply fle_refl | done].
Qed.

(** C5: The AI veto is downward-only: whatever cap it was engaged with, it clamps
    exactly roll, pitch and the two lateral axes to [-cap, cap] with cap between 0.01
    and 1, each towards zero and never past it, leaves yaw, throttle and every other
    field of the command alone, and a command already inside the cap passes unchanged
    on that axis.  An axis that is not a number is not restricted. *)
Theorem veto_restrict_only (v : Veto.VetoGate) (norm : f32) (cmd : Command) : wf6 cmd ->
  exists v' cmd' t, Veto.engage v norm = Ret v' /\ Veto.apply v' cmd = Ret (cmd', t) /\
    let cap := veto_cap v' in
    fle Veto.min_cap cap = true /\ fle cap (f32_of_Z 1) = true /\
    wf6 cmd' /\ same_header cmd' cmd /\
    forall k, (k < 6)%nat ->
      if decide (k ∈ Veto.TRANSLATIONAL) then
        clamped (axis cmd k) (SFopp cap) cap (axis cmd' k) /\
        (fle f_zero (axis cmd k) = true -> fle f_zero (axis cmd' k) = true /\ fle (axis cmd' k) (axis cmd k) = true) /\
        (fle (axis cmd k) f_zero = true -> fle (axis cmd k) (axis cmd' k) = true /\ fle (axis cmd' k) f_zero = true)
      else axis cmd' k = axis cmd k.
Proof.
  intros Hc. destruct (engage_ok v norm) as (v' & E & [Hlo Hhi] & Hact).
  assert (Hcap : fle (SFopp (veto_cap v')) (veto_cap v') = true) by (by apply cap_symmetric).
  destruct (veto_loop_view (veto_cap v') Veto.TRANSLATIONAL Hcap) with (c := cmd) (f := axis cmd)
    (d := cmd) (t := false) as (cmd' & t & El & [Hw Hh Ha]).
  { repeat constructor; lia. }
  { by apply view_self. }
  { apply (bool_decide_unpack _). vm_compute. done. }
  exists v', cmd', t. split; [done|]. split; [unfold Veto.apply; by rewrite Hact|].
  cbv zeta. split_and!; [done | done | done | done|]. intros k Hk. rewrite Ha by done.
  case_decide; [|done]. split; [by apply clampv_clamped | by apply clamp_towards_zero].
Qed.

Lemma veto_restrict_only_witness :
  exists v' cmd' t, Veto.engage Veto.default (f32_lit 1 2) = Ret v' /\
    Veto.apply v' (set_axis (Cmd.zeroed f_zero FullTeleop) ROLL (f32_of_Z 1)) = Ret (cmd', t) /\
    axis cmd' ROLL = f32_lit 1 2.
Proof.
  destruct (veto_restrict_only Veto.default (f32_lit 1 2)
    (set_axis (Cmd.zeroed f_zero FullTeleop) ROLL (f32_of_Z 1)) eq_refl)
    as (v' & c & t & E1 & E2 & _).
  exists v', c, t. split; [exact E1|]. split; [exact E2|]. vm_compute in E1. injection E1 as <-.
  vm_compute in E2. injection E2 as <- _. vm_compute. reflexivity.
Defined.

(** ** The geofence *)

Lemma fence_clamp_total hypot g p verdict cmd : exists cmd',
  Geo.clamp_command hypot g p verdict cmd = Ret cmd' /\ same_header cmd' cmd /\ (wf6 cmd -> wf6 cmd').
Proof.
  assert (Hset : forall c k v, same_header c cmd /\ (wf6 cmd -> wf6 c) ->
    same_header (set_axis c k v) cmd /\ (wf6 cmd -> wf6 (set_axis c k v))).
  { intros c k v [H1 H2]. split; [exact H1 | intros H; apply wf6_set; auto]. }
  assert (Hsup : forall s c k u, same_header c cmd /\ (wf6 cmd -> wf6 c) ->
    same_header (Geo.suppress s c k u) cmd /\ (wf6 cmd -> wf6 (Geo.suppress s c k u))).
  { intros s c k u H. unfold Geo.suppress. case_if; [by apply Hset | done]. }
  unfold Geo.clamp_command. set (dist := hypot _ _).
  assert (H1 : fle f_zero (f64_of_Z 1) = true) by (vm_compute; reflexivity).
  destruct (flt (f64_lit 1 1000000000) dist); [destruct (decide (verdict = Geo.HardBreach))|];
    rewrite ?(fclamp_eq _ _ _ H1); cbn [mbind exec_bind];
    (eexists; split; [reflexivity|]); repeat case_if; repeat apply Hset; repeat apply Hsup; done.
Qed.

(** A pose that is not a number is inside every fence. *)
Theorem nan_pose_is_inside hypot g p : is_nan (Geo.horizontal_dist hypot g p) = true ->
  is_nan (Geo.z p) = true -> Geo.evaluate hypot g p = Geo.Inside.
Proof.
  unfold Geo.evaluate. destruct (Geo.horizontal_dist hypot g p); try done.
  destruct (Geo.z p); try done. intros _ _. by rewrite !flt_nan_r, flt_nan_l.
Qed.

(** A hard breach does not zero outward motion: the fence projects each axis
    separately, so off the coordinate axes an outward lateral command keeps an
    outward component (at bearing (0.6, 0.8), the command (1, 1) leaves as
    (0.64, 0.36), still pointing out). *)
Theorem hard_breach_leaves_outward hypot (cmd : Command) (p : Geo.Pose6D) :
  hypot (f64_of_Z 3) (f64_of_Z 4) = f64_of_Z 5 -> wf6 cmd ->
  Geo.x p = f64_of_Z 3 -> Geo.y p = f64_of_Z 4 ->
  axis cmd LAT_X = f32_of_Z 1 -> axis cmd LAT_Y = f32_of_Z 1 ->
  exists cmd', Geo.clamp_command hypot Geo.default p Geo.HardBreach cmd = Ret cmd' /\
    axis cmd' LAT_X = f32_lit 64 100 /\ axis cmd' LAT_Y = f32_lit 36 100.
Proof.
  intros Hh Hw Hx Hy Hlx Hly. unfold Geo.clamp_command. rewrite Hx, Hy.
  cbn [Geo.default Geo.center_east_m Geo.center_north_m].
  replace (f64_sub (f64_of_Z 3) f_zero) with (f64_of_Z 3) by (vm_compute; reflexivity).
  replace (f64_sub (f64_of_Z 4) f_zero) with (f64_of_Z 4) by (vm_compute; reflexivity).
  rewrite Hh.
  replace (flt (f64_lit 1 1000000000) (f64_of_Z 5)) with true by (vm_compute; reflexivity).
  rewrite decide_True by done. cbn [mbind exec_bind].
  replace (flt f_zero (f64_of_Z 1)) with true by (vm_compute; reflexivity).
  set (ux := f64_div (f64_of_Z 3) (f64_of_Z 5)). set (uy := f64_div (f64_of_Z 4) (f64_of_Z 5)).
  assert (S1 : Geo.suppress (f64_of_Z 1) cmd LAT_X ux = set_axis cmd LAT_X (f32_lit 64 100)).
  { unfold Geo.suppress. rewrite Hlx.
    replace (flt f_zero _) with true by (vm_compute; reflexivity). by f_equal. }
  rewrite S1. set (c1 := set_axis cmd LAT_X (f32_lit 64 100)).
  assert (W1 : wf6 c1) by (by apply wf6_set).
  assert (S2 : Geo.suppress (f64_of_Z 1) c1 LAT_Y uy = set_axis c1 LAT_Y (f32_lit 36 100)).
  { unfold Geo.suppress. subst c1. rewrite axis_set by (done || unfold LAT_X; lia).
    rewrite decide_False by done. rewrite Hly.
    replace (flt f_zero _) with true by (vm_compute; reflexivity). by f_equal. }
  rewrite S2. set (c2 := set_axis c1 LAT_Y (f32_lit 36 100)).
  set (lateral := fun c : Command => wf6 c /\ axis c LAT_X = f32_lit 64 100 /\ axis c LAT_Y = f32_lit 36 100).
  assert (L2 : lateral c2).
  { split; [by apply wf6_set|]. subst c2 c1.
    rewrite !axis_set by (first [by apply wf6_set | done | unfold LAT_X, LAT_Y; lia]). done. }
  assert (Hset : forall c k v, lateral c -> (k < 4)%nat -> lateral (set_axis c k v)).
  { intros c k v (Hc & HX & HY) Hk. split; [by apply wf6_set|].
    rewrite !axis_set, !decide_False by (done || unfold LAT_X, LAT_Y; lia). done. }
  assert (Hsup : forall sv c k u, lateral c -> (k < 4)%nat -> lateral (Geo.suppress sv c k u)).
  { intros sv c k u Hc Hk. unfold Geo.suppress. case_if; [by apply Hset | done]. }
  assert (L3 : lateral (Geo.suppress (f64_of_Z 1) (Geo.suppress (f64_of_Z 1) c2 ROLL ux) PITCH uy)).
  { apply Hsup; [apply Hsup; [done|]|]; unfold ROLL, PITCH; lia. }
  set (c3 := Geo.suppress _ _ PITCH uy) in *.
  assert (Hthr : forall (t : bool) c v, lateral c -> lateral (if t then set_axis c THROTTLE v else c)).
  { intros [] c v Hc; [|done]. apply Hset; [done | unfold THROTTLE; lia]. }
  eexists. split; [reflexivity|]. apply Hthr, Hthr, L3.
Qed.

Lemma hard_breach_leaves_outward_witness :
  let h := fun a b : f64 => SFsqrt 53 1024 (f64_add (f64_mul a a) (f64_mul b b)) in
  let p := {| Geo.x := f64_of_Z 3; Geo.y := f64_of_Z 4; Geo.z := f64_of_Z 10; Geo.yaw := f_zero;
              Geo.pitch := f_zero; Geo.roll := f_zero; Geo.reserved := 0 |} in
  let cmd := set_axis (set_axis (Cmd.zeroed f_zero FullTeleop) LAT_X (f32_of_Z 1)) LAT_Y (f32_of_Z 1) in
  exists cmd', Geo.clamp_command h Geo.default p Geo.HardBreach cmd = Ret cmd' /\
    axis cmd' LAT_X = f32_lit 64 100.
Proof.
  intros h p cmd. destruct (hard_breach_leaves_outward h cmd p) as (c & E & H & _);
    [vm_compute; reflexivity | reflexivity | reflexivity | reflexivity | reflexivity | reflexivity|].
  exists c. split; [exact E | exact H].
Defined.
