(* ===== verification/SafetyLoop.v ===== *)
(** * The safety loop: [tpt-t-safety/src/loop_.rs]

    The whole intercept pipeline between two bounded rings, bound to the mode
    machine.  The rings are any [BoundedFifo]; [unix_ns] is the clock the machine
    stamps its log with.  Thread spawning, pacing and the wall-time measurement
    are outside the model. *)

From S2P Require Import Prelude Ring Mode Cast Ser Float Safety.

Record SafetyConfig := {
  fence : Geo.GeoFence; limits : Limits.KinematicLimits; transition_s : f32;
  tick_period_us : Z; max_latency_ns : Z
}.
Definition default_config : SafetyConfig :=
  {| fence := Geo.default; limits := Limits.default; transition_s := f32_of_Z 1;
     tick_period_us := 5000; max_latency_ns := 50000000 |}.

Definition BRAKE_A : f64 := f64_lit 345 100.
Definition ESC_TAU_S : f64 := f64_lit 15 100.
Definition CEILING_RELEASE_FRAC : f64 := f64_lit 90 100.
Definition DESCEND_PIN_THROTTLE : f32 := f32_lit 30 100.

Section Loop.
Context (hypot : f64 -> f64 -> f64).
Context {Q : Type} `{!BoundedFifo Q Command} {QE : Type} `{!BoundedFifo QE Transition}.
Abbreviation StateMachine := (Machine.StateMachine QE).

Record SafetyLoop := {
  input : Q; output : Q; machine : StateMachine; cfg : SafetyConfig;
  authority : f32; blend : option Spline.AuthorityBlend; latency : Latency.LatencyCompensator;
  baseline : Command; last_out : Command; pose : Geo.Pose6D; estop_latched : bool;
  dropped_out : Z; veto : Veto.VetoGate; prev_z : f64; have_prev_z : bool; vz_est : f64;
  brake_latched : bool
}.

Definition new (inp out : Q) (m : StateMachine) (c : SafetyConfig) : exec SafetyLoop :=
  lat ← Latency.new (f64_lit 2 10) (max_latency_ns c);
  Ret {| input := inp; output := out; machine := m; cfg := c;
         authority := Spline.authority_target (Machine.current m); blend := None; latency := lat;
         baseline := Cmd.zeroed f_zero Auto; last_out := Cmd.zeroed f_zero (Machine.current m);
         pose := Geo.pose_default; estop_latched := false; dropped_out := 0;
         veto := Veto.default; prev_z := f_zero; have_prev_z := false; vz_est := f_zero;
         brake_latched := false |}.

(** field updates *)
Definition with_rings (s : SafetyLoop) (i o : Q) : SafetyLoop :=
  {| input := i; output := o; machine := machine s; cfg := cfg s; authority := authority s;
     blend := blend s; latency := latency s; baseline := baseline s; last_out := last_out s;
     pose := pose s; estop_latched := estop_latched s; dropped_out := dropped_out s;
     veto := veto s; prev_z := prev_z s; have_prev_z := have_prev_z s; vz_est := vz_est s;
     brake_latched := brake_latched s |}.
Definition with_blend (s : SafetyLoop) (b : option Spline.AuthorityBlend) (a : f32) : SafetyLoop :=
  {| input := input s; output := output s; machine := machine s; cfg := cfg s; authority := a;
     blend := b; latency := latency s; baseline := baseline s; last_out := last_out s;
     pose := pose s; estop_latched := estop_latched s; dropped_out := dropped_out s;
     veto := veto s; prev_z := prev_z s; have_prev_z := have_prev_z s; vz_est := vz_est s;
     brake_latched := brake_latched s |}.
Definition with_machine (s : SafetyLoop) (m : StateMachine) (latched : bool) : SafetyLoop :=
  {| input := input s; output := output s; machine := m; cfg := cfg s; authority := authority s;
     blend := blend s; latency := latency s; baseline := baseline s; last_out := last_out s;
     pose := pose s; estop_latched := latched; dropped_out := dropped_out s;
     veto := veto s; prev_z := prev_z s; have_prev_z := have_prev_z s; vz_est := vz_est s;
     brake_latched := brake_latched s |}.
Definition with_latency (s : SafetyLoop) (l : Latency.LatencyCompensator) : SafetyLoop :=
  {| input := input s; output := output s; machine := machine s; cfg := cfg s;
     authority := authority s; blend := blend s; latency := l; baseline := baseline s;
     last_out := last_out s; pose := pose s; estop_latched := estop_latched s;
     dropped_out := dropped_out s; veto := veto s; prev_z := prev_z s;
     have_prev_z := have_prev_z s; vz_est := vz_est s; brake_latched := brake_latched s |}.
Definition with_veto (s : SafetyLoop) (v : Veto.VetoGate) : SafetyLoop :=
  {| input := input s; output := output s; machine := machine s; cfg := cfg s;
     authority := authority s; blend := blend s; latency := latency s; baseline := baseline s;
     last_out := last_out s; pose := pose s; estop_latched := estop_latched s;
     dropped_out := dropped_out s; veto := v; prev_z := prev_z s;
     have_prev_z := have_prev_z s; vz_est := vz_est s; brake_latched := brake_latched s |}.
Definition with_brake (s : SafetyLoop) (b : bool) : SafetyLoop :=
  {| input := input s; output := output s; machine := machine s; cfg := cfg s;
     authority := authority s; blend := blend s; latency := latency s; baseline := baseline s;
     last_out := last_out s; pose := pose s; estop_latched := estop_latched s;
     dropped_out := dropped_out s; veto := veto s; prev_z := prev_z s;
     have_prev_z := have_prev_z s; vz_est := vz_est s; brake_latched := b |}.
Definition with_output (s : SafetyLoop) (o : Q) (cmd : Command) (dropped : Z) : SafetyLoop :=
  {| input := input s; output := o; machine := machine s; cfg := cfg s;
     authority := authority s; blend := blend s; latency := latency s; baseline := baseline s;
     last_out := cmd; pose := pose s; estop_latched := estop_latched s; dropped_out := dropped;
     veto := veto s; prev_z := prev_z s; have_prev_z := have_prev_z s; vz_est := vz_est s;
     brake_latched := brake_latched s |}.

Definition set_pose (s : SafetyLoop) (p : Geo.Pose6D) : SafetyLoop :=
  let dt_s := f64_div (f64_of_Z (tick_period_us (cfg s))) (f64_of_Z 1000000) in
  let vz := if have_prev_z s && flt f_zero dt_s
            then f64_div (f64_sub (Geo.z p) (prev_z s)) dt_s else vz_est s in
  {| input := input s; output := output s; machine := machine s; cfg := cfg s;
     authority := authority s; blend := blend s; latency := latency s; baseline := baseline s;
     last_out := last_out s; pose := p; estop_latched := estop_latched s;
     dropped_out := dropped_out s; veto := veto s; prev_z := Geo.z p; have_prev_z := true;
     vz_est := vz; brake_latched := brake_latched s |}.

Definition set_autonomy_baseline (s : SafetyLoop) (cmd : Command) : SafetyLoop :=
  {| input := input s; output := output s; machine := machine s; cfg := cfg s;
     authority := authority s; blend := blend s; latency := latency s; baseline := cmd;
     last_out := last_out s; pose := pose s; estop_latched := estop_latched s;
     dropped_out := dropped_out s; veto := veto s; prev_z := prev_z s;
     have_prev_z := have_prev_z s; vz_est := vz_est s; brake_latched := brake_latched s |}.

Definition request_mode (s : SafetyLoop) (unix_ns : Z) (m : Mode) :
    exec (SafetyLoop * result unit ModeError) :=
  '(sm, r) ← Machine.try_transition (machine s) unix_ns m;
  let s := with_machine s sm (estop_latched s) in
  match r with
  | Err e => Ret (s, Err e)
  | Ok _ =>
      let to := Spline.authority_target m in
      if flt (f32_lit 1 1000000) (SFabs (f32_sub to (authority s)))
      then Ret (with_blend s (Some (Spline.new (authority s) to (transition_s (cfg s)))) (authority s), Ok tt)
      else Ret (s, Ok tt)
  end.

Definition emergency_stop (s : SafetyLoop) (unix_ns : Z) : exec SafetyLoop :=
  '(sm, _) ← Machine.force_emergency_stop (machine s) unix_ns;
  Ret (with_machine s sm true).

Definition engage_ai_veto (s : SafetyLoop) (norm : f32) : exec SafetyLoop :=
  v ← Veto.engage (veto s) norm; Ret (with_veto s v).
Definition disengage_ai_veto (s : SafetyLoop) : SafetyLoop := with_veto s (Veto.disengage (veto s)).

(** *** [process_one], stage by stage *)

Definition advance_blend (s : SafetyLoop) : exec SafetyLoop :=
  match blend s with
  | None => Ret s
  | Some b =>
      '(b, w) ← Spline.advance b (f32_div (f32_of_Z (tick_period_us (cfg s))) (f32_of_Z 1000000));
      Ret (with_blend s (Some b) w)
  end.

(** the authority mix of stage 2 *)
Definition mix_authority (s : SafetyLoop) (cmd : Command) : Command :=
  let a := authority s in
  if flt a (f32_lit 9999 10000) then
    let cmd := Cmd.with_axes cmd
      ((fun k => f32_add (f32_mul (axis (baseline s) k) (f32_sub (f32_of_Z 1) a))
                         (f32_mul (axis cmd k) a)) <$> seq 0 6) in
    Cmd.with_mode cmd (if fle (f32_lit 1 2) a then Cmd.mode_raw cmd else Cmd.mode_raw (baseline s))
  else cmd.

(** stage 3: the fence and its stop policy *)
Definition fence_stage (s : SafetyLoop) (unix_ns : Z) (cmd : Command) : exec (SafetyLoop * Command) :=
  let verdict := Geo.evaluate hypot (fence (cfg s)) (pose s) in
  if decide (verdict = Geo.Inside) then Ret (s, cmd)
  else
    cmd ← Geo.clamp_command hypot (fence (cfg s)) (pose s) verdict cmd;
    if bool_decide (verdict = Geo.HardBreach) && negb (estop_latched s) then
      '(sm, _) ← Machine.force_emergency_stop (machine s) unix_ns;
      Ret (with_machine s sm true, cmd)
    else Ret (s, cmd).

Definition stop_dist (s : SafetyLoop) : f64 :=
  let v := vz_est s in
  f64_add (f64_div (f64_mul v v) (f64_mul (f64_of_Z 2) BRAKE_A)) (f64_mul v ESC_TAU_S).

Definition ceiling_unreachable (s : SafetyLoop) : bool :=
  fle (Geo.max_alt_m (fence (cfg s))) (f64_add (Geo.z (pose s)) (stop_dist s)).

(** stage 4b: the predictive vertical brake *)
Definition brake_stage (s : SafetyLoop) (cmd : Command) : SafetyLoop * Command :=
  let latched := brake_latched s || ceiling_unreachable s in
  let latched :=
    if latched && fle (vz_est s) (f64_lit 1 2)
       && fle (Geo.z (pose s)) (f64_mul (Geo.max_alt_m (fence (cfg s))) CEILING_RELEASE_FRAC)
    then false else latched in
  let cmd := if latched && flt DESCEND_PIN_THROTTLE (axis cmd THROTTLE)
             then set_axis cmd THROTTLE DESCEND_PIN_THROTTLE else cmd in
  let cmd := if ceiling_unreachable s && flt Geo.THROTTLE_NEUTRAL (axis cmd THROTTLE)
             then set_axis cmd THROTTLE DESCEND_PIN_THROTTLE else cmd in
  (with_brake s latched, cmd).

(** [fuel] bounds the drain of the input ring; the result is the number drained
    and the command pushed, if any *)
Definition process_one (fuel : nat) (s : SafetyLoop) (now_ns unix_ns : Z) :
    exec (SafetyLoop * nat * option Command) :=
  s ← advance_blend s;
  '(inp, drained) ← fifo_drain fuel (input s);
  let s := with_rings s inp (output s) in
  match last drained with
  | None => Ret (s, 0%nat, None)
  | Some cmd =>
      let '(lat, _) := Latency.observe (latency s) now_ns (Cmd.timestamp_ns cmd) in
      let s := with_latency s lat in
      let cmd := Latency.compensate lat cmd in
      s ← advance_blend s;
      let cmd := mix_authority s cmd in
      '(cmd, _) ← Veto.apply (veto s) cmd;
      '(s, cmd) ← fence_stage s unix_ns cmd;
      '(cmd, _) ← Limits.apply (limits (cfg s)) (last_out s) cmd;
      let '(s, cmd) := brake_stage s cmd in
      let cmd := if estop_latched s then Limits.write_emergency_stop (Cmd.seq cmd) now_ns else cmd in
      '(out, r) ← fifo_push (output s) cmd;
      let dropped := if is_ok r then dropped_out s else wadd 64 (dropped_out s) 1 in
      Ret (with_output s out cmd dropped, length drained, Some cmd)
  end.

(** ** The invariant *)

Record loop_inv (s : SafetyLoop) (inq outq : list Command) : Prop := {
  li_input : fifo_rep (input s) inq;
  li_output : fifo_rep (output s) outq;
  li_cmds : Forall wf6 inq;
  li_last : wf6 (last_out s);
  li_machine : exists m l, Machine.sm_rep (machine s) m l;
  li_limits : limits_ok (limits (cfg s)) = true;
  li_veto : fle Veto.min_cap (veto_cap (veto s)) = true
}.

(** *** Stages *)

Lemma with_blend_self s : with_blend s (blend s) (authority s) = s.
Proof. by destruct s. Qed.

(** the blend one tick further *)
Definition tick_s (c : SafetyConfig) : f32 := f32_div (f32_of_Z (tick_period_us c)) (f32_of_Z 1000000).
Definition next_blend (dt : f32) (b : Spline.AuthorityBlend) : Spline.AuthorityBlend :=
  {| Spline.from_weight := Spline.from_weight b; Spline.to_weight := Spline.to_weight b;
     Spline.duration_s := Spline.duration_s b;
     Spline.elapsed_s := fmin (f32_add (Spline.elapsed_s b) dt) (Spline.duration_s b) |}.

Lemma advance_blend_ok s : exists a,
  advance_blend s = Ret (with_blend s (next_blend (tick_s (cfg s)) <$> blend s) a).
Proof.
  unfold advance_blend. destruct (blend s) as [b|] eqn:E.
  - unfold Spline.advance, Spline.weight, Spline.smootherstep.
    rewrite fclamp_eq by (vm_compute; reflexivity). cbn [mbind exec_bind]. eexists. reflexivity.
  - exists (authority s). rewrite <- (with_blend_self s) at 1. by rewrite E.
Qed.

(** the sequence number and the array shape survive a stage *)
Definition keeps (c d : Command) : Prop := Cmd.seq d = Cmd.seq c /\ (wf6 c -> wf6 d).

Lemma keeps_trans c d e : keeps c d -> keeps d e -> keeps c e.
Proof. intros [H1 H2] [H3 H4]. split; [congruence | auto]. Qed.

Lemma keeps_header c d : same_header d c -> (wf6 c -> wf6 d) -> keeps c d.
Proof. intros H Hw. split; [|done]. by injection H. Qed.

Lemma compensate_keeps l c : keeps c (Latency.compensate l c).
Proof.
  unfold Latency.compensate. case_if; [|by split]. split; [done|]. intros Hw. cbn [foldl].
  by repeat apply wf6_set.
Qed.

Lemma mix_keeps s c : keeps c (mix_authority s c).
Proof. unfold mix_authority. case_if; [|by split]. by split. Qed.

Lemma veto_ok_apply v c : fle Veto.min_cap (veto_cap v) = true -> wf6 c ->
  exists d t, Veto.apply v c = Ret (d, t) /\ keeps c d.
Proof.
  intros Hv Hc. unfold Veto.apply. destruct (Veto.active v); simpl; [|by exists c, false].
  destruct (veto_loop_view (veto_cap v) Veto.TRANSLATIONAL (cap_symmetric _ Hv)) with (c := c)
    (f := axis c) (d := c) (t := false) as (d & t & E & [Hw Hh _]).
  { repeat constructor; lia. }
  { by apply view_self. }
  { apply (bool_decide_unpack _). vm_compute. done. }
  exists d, t. split; [exact E|]. by apply keeps_header.
Qed.

Lemma force_stop_ok (sm : StateMachine) m l now : Machine.sm_rep sm m l ->
  exists sm' l', Machine.force_emergency_stop sm now = Ret (sm', m) /\
    Machine.sm_rep sm' EmergencyStop l'.
Proof.
  intros R. unfold Machine.force_emergency_stop. rewrite (Machine.sm_current _ _ _ R).
  case_decide as Hm; [subst; eauto|].
  destruct (Machine.commit_spec sm m l now m EmergencyStop R) as (sm' & -> & R' & _). simpl. eauto.
Qed.

(** the fence stage changes at most the machine and the latch *)
Lemma fence_stage_ok s unix_ns c : (exists m l, Machine.sm_rep (machine s) m l) ->
  exists sm latched d, fence_stage s unix_ns c = Ret (with_machine s sm latched, d) /\ keeps c d /\
    (exists m l, Machine.sm_rep sm m l) /\
    latched = estop_latched s ||
      bool_decide (Geo.evaluate hypot (fence (cfg s)) (pose s) = Geo.HardBreach) /\
    (Geo.evaluate hypot (fence (cfg s)) (pose s) = Geo.HardBreach -> estop_latched s = false ->
      Machine.current sm = EmergencyStop).
Proof.
  intros (m & l & R). unfold fence_stage.
  destruct (Geo.evaluate hypot (fence (cfg s)) (pose s)) eqn:Ev.
  - exists (machine s), (estop_latched s), c. rewrite decide_True by done. rewrite orb_false_r.
    split_and!; [by destruct s | by split | eauto | done | done].
  - rewrite decide_False by done.
    destruct (fence_clamp_total hypot (fence (cfg s)) (pose s) Geo.SoftWarn c) as (d & -> & Hh & Hw).
    cbn [mbind exec_bind]. rewrite bool_decide_false by done. simpl. exists (machine s), (estop_latched s), d.
    rewrite orb_false_r. split_and!; [by destruct s | by apply keeps_header | eauto | done | done].
  - rewrite decide_False by done.
    destruct (fence_clamp_total hypot (fence (cfg s)) (pose s) Geo.HardBreach c) as (d & -> & Hh & Hw).
    cbn [mbind exec_bind]. rewrite bool_decide_true by done. rewrite orb_true_r.
    destruct (estop_latched s) eqn:El; simpl.
    + exists (machine s), true, d. split_and!; [rewrite <- El; by destruct s | by apply keeps_header | eauto | done | done].
    + destruct (force_stop_ok _ _ _ unix_ns R) as (sm & l' & -> & R'). cbn [mbind exec_bind].
      exists sm, true, d. split_and!; [done | by apply keeps_header | eauto | done|].
      intros _ _. by apply (Machine.sm_current _ _ _ R').
Qed.

Lemma brake_keeps s c : exists b d, brake_stage s c = (with_brake s b, d) /\ keeps c d /\
  forall k, (k < 6)%nat -> k <> THROTTLE -> wf6 c -> axis d k = axis c k.
Proof.
  unfold brake_stage. do 2 eexists. split; [reflexivity|].
  assert (Hset : forall (b : bool) e v, keeps c e ->
    (forall k, (k < 6)%nat -> k <> THROTTLE -> wf6 c -> axis e k = axis c k) ->
    keeps c (if b then set_axis e THROTTLE v else e) /\
    (forall k, (k < 6)%nat -> k <> THROTTLE -> wf6 c ->
       axis (if b then set_axis e THROTTLE v else e) k = axis c k)).
  { intros [] e v [H1 H2] H3; [|by split]. split; [split; [done | intros; apply wf6_set; auto]|].
    intros k Hk Hne Hw. rewrite axis_set by (auto; unfold THROTTLE; lia). rewrite decide_False by done. auto. }
  assert (K : keeps c c) by (by split).
  refine (Hset _ _ _ (proj1 (Hset _ c _ K _)) (proj2 (Hset _ c _ K _))); done.
Qed.

(** *** A tick *)

Definition breached (s : SafetyLoop) : bool :=
  bool_decide (Geo.evaluate hypot (fence (cfg s)) (pose s) = Geo.HardBreach).

Lemma process_idle fuel s outq now unix_ns : loop_inv s [] outq -> (0 < fuel)%nat ->
  exists s', process_one fuel s now unix_ns = Ret (s', 0%nat, None) /\ loop_inv s' [] outq /\
    last_out s' = last_out s /\ estop_latched s' = estop_latched s /\ pose s' = pose s /\
    blend s' = next_blend (tick_s (cfg s)) <$> blend s /\ cfg s' = cfg s /\ fifo_capacity (output s') = fifo_capacity (output s) /\
    fifo_capacity (input s') = fifo_capacity (input s).
Proof.
  intros I Hf. unfold process_one. destruct (advance_blend_ok s) as (a & ->).
  set (b := next_blend _ <$> blend s).
  cbn [mbind exec_bind]. destruct I as [Hi Ho Hc Hl Hm Hlim Hv].
  destruct (fifo_drain_spec [] fuel (input s) Hi) as (q & Hd & Hq & Hcap); [simpl; lia|].
  change (input (with_blend s b a)) with (input s). rewrite Hd. cbn [mbind exec_bind last].
  eexists. split; [reflexivity|]. split_and!; first [done | by constructor].
Qed.

Lemma process_cmd fuel s inq outq c now unix_ns : loop_inv s inq outq -> last inq = Some c ->
  (length inq < fuel)%nat ->
  exists s' cmd pre, process_one fuel s now unix_ns = Ret (s', length inq, Some cmd) /\
    loop_inv s' [] (if Z.of_nat (length outq) <? fifo_capacity (output s)
                    then outq ++ [cmd] else outq) /\
    last_out s' = cmd /\ cfg s' = cfg s /\ pose s' = pose s /\
    fifo_capacity (output s') = fifo_capacity (output s) /\
    fifo_capacity (input s') = fifo_capacity (input s) /\
    estop_latched s' = estop_latched s || breached s /\
    (breached s = true -> estop_latched s = false -> Machine.current (machine s') = EmergencyStop) /\
    dropped_out s' = (if Z.of_nat (length outq) <? fifo_capacity (output s)
                      then dropped_out s else wadd 64 (dropped_out s) 1) /\
    wf6 pre /\ Cmd.seq pre = Cmd.seq c /\
    blend s' = next_blend (tick_s (cfg s)) <$> (next_blend (tick_s (cfg s)) <$> blend s) /\
    brake_latched s' = brake_latched (brake_stage s pre).1 /\
    cmd = (if estop_latched s' then Limits.write_emergency_stop (Cmd.seq c) now
           else (brake_stage s (Cmd.with_axes pre
                   (limited (limits (cfg s)) (last_out s) pre <$> seq 0 6))).2).
Proof.
  intros I Hlast Hf. unfold process_one. destruct (advance_blend_ok s) as (a & ->).
  set (b := next_blend _ <$> blend s).
  cbn [mbind exec_bind]. destruct I as [Hi Ho Hc Hl Hm Hlim Hv].
  destruct (fifo_drain_spec inq fuel (input s) Hi Hf) as (q & Hd & Hq & Hcap).
  change (input (with_blend s b a)) with (input s). rewrite Hd. cbn [mbind exec_bind]. rewrite Hlast.
  set (s1 := with_rings (with_blend s b a) q (output (with_blend s b a))).
  destruct (Latency.observe (latency s1) now (Cmd.timestamp_ns c)) as [lat delay].
  set (s2 := with_latency s1 lat).
  destruct (advance_blend_ok s2) as (a2 & ->).
  set (b2 := next_blend _ <$> blend s2). cbn [mbind exec_bind].
  set (s3 := with_blend s2 b2 a2).
  assert (Hwc : wf6 c).
  { apply last_Some in Hlast as [l' ->]. apply Forall_app in Hc as [_ Hc]. by inversion Hc. }
  set (c1 := Latency.compensate lat c). set (c2 := mix_authority s3 c1).
  assert (K2 : keeps c c2) by (eapply keeps_trans; [apply compensate_keeps | apply mix_keeps]).
  destruct (veto_ok_apply (veto s) c2) as (c3 & t3 & E3 & K3); [done | by apply K2|].
  change (veto s3) with (veto s). rewrite E3. cbn [mbind exec_bind].
  destruct (fence_stage_ok s3 unix_ns c3) as (sm & latched & c4 & -> & K4 & Hsm & Hlat & Hstop);
    [exact Hm|].
  cbn [mbind exec_bind]. set (s4 := with_machine s3 sm latched).
  assert (K : keeps c c4) by (eapply keeps_trans; [exact K2|]; eapply keeps_trans; [exact K3 | exact K4]).
  assert (Hw4 : wf6 c4) by (by apply K).
  destruct (apply_limited (limits (cfg s)) (last_out s) c4 Hlim Hl Hw4) as [t5 E5].
  change (limits (cfg s4)) with (limits (cfg s)). change (last_out s4) with (last_out s).
  rewrite E5. cbn [mbind exec_bind].
  set (c5 := Cmd.with_axes c4 _).
  destruct (brake_keeps s4 c5) as (bl & c6 & E6 & [K6 Kw6] & _). rewrite E6.
  assert (Hbl : bl = brake_latched (brake_stage s c4).1).
  { change (brake_latched (brake_stage s c4).1) with (brake_latched (brake_stage s4 c5).1). by rewrite E6. }
  change (estop_latched (with_brake s4 bl)) with latched.
  change (output (with_brake s4 bl)) with (output s).
  assert (Hseq : Cmd.seq c6 = Cmd.seq c) by (rewrite K6; apply K).
  assert (E6' : c6 = (brake_stage s c5).2).
  { change (brake_stage s c5).2 with (brake_stage s4 c5).2. by rewrite E6. }
  set (cmd := if latched then Limits.write_emergency_stop (Cmd.seq c6) now else c6).
  assert (Hwcmd : wf6 cmd) by (subst cmd; destruct latched; [done | by apply Kw6]).
  assert (Hcmd : cmd = if latched then Limits.write_emergency_stop (Cmd.seq c) now
     else (brake_stage s c5).2) by (subst cmd; rewrite Hseq, <- E6'; done).
  assert (Hlat' : latched = estop_latched s || breached s) by exact Hlat.
  destruct (Z.ltb_spec (Z.of_nat (length outq)) (fifo_capacity (output s))) as [Hroom|Hfull].
  - destruct (fifo_push_ok _ _ cmd Ho Hroom) as (qo & -> & Hqo & Hqc). cbn [mbind exec_bind is_ok].
    do 2 eexists. exists c4. split; [reflexivity|].
    split_and!; first [done | by constructor | by apply K | idtac].
    intros Hb Hnl. apply Hstop; [|done]. by apply bool_decide_eq_true in Hb.
  - rewrite (fifo_push_full _ _ cmd Ho Hfull). cbn [mbind exec_bind is_ok].
    do 2 eexists. exists c4. split; [reflexivity|].
    split_and!; first [done | by constructor | by apply K | idtac].
    intros Hb Hnl. apply Hstop; [|done]. by apply bool_decide_eq_true in Hb.
Qed.

(** ** Runs

    The operator's thread pushes into the input ring, the network thread takes
    from the output ring, and the loop's owner calls its methods. *)

Inductive loop_op :=
| OpInput (c : Command) | OpTake | OpPose (p : Geo.Pose6D) | OpBaseline (c : Command)
| OpMode (m : Mode) (unix_ns : Z) | OpStop (unix_ns : Z) | OpVeto (norm : f32) | OpUnveto
| OpTick (now_ns unix_ns : Z).

Definition drain_fuel (s : SafetyLoop) : nat := S (Z.to_nat (fifo_capacity (input s))).

(** the new state and the command a tick emitted *)
Definition loop_step (s : SafetyLoop) (op : loop_op) : exec (SafetyLoop * list Command) :=
  match op with
  | OpInput c => '(q, _) ← fifo_push (input s) c; Ret (with_rings s q (output s), [])
  | OpTake => '(q, _) ← fifo_pop (output s); Ret (with_rings s (input s) q, [])
  | OpPose p => Ret (set_pose s p, [])
  | OpBaseline c => Ret (set_autonomy_baseline s c, [])
  | OpMode m t => '(s, _) ← request_mode s t m; Ret (s, [])
  | OpStop t => s ← emergency_stop s t; Ret (s, [])
  | OpVeto n => s ← engage_ai_veto s n; Ret (s, [])
  | OpUnveto => Ret (disengage_ai_veto s, [])
  | OpTick now t => '(s, _, c) ← process_one (drain_fuel s) s now t; Ret (s, option_list c)
  end.

Fixpoint loop_run (s : SafetyLoop) (ops : list loop_op) : exec (SafetyLoop * list Command) :=
  match ops with
  | [] => Ret (s, [])
  | op :: ops =>
      '(s, out) ← loop_step s op;
      '(s, outs) ← loop_run s ops;
      Ret (s, out ++ outs)
  end.

Lemma loop_run_app (l : SafetyLoop) a b : loop_run l (a ++ b) =
  ('(l, o1) ← loop_run l a; '(l, o2) ← loop_run l b; Ret (l, o1 ++ o2)).
Proof.
  revert l. induction a as [|op a IH]; intros l; cbn [app loop_run].
  - rewrite ret_bind. destruct (loop_run l b) as [[l' o]| | |]; done.
  - destruct (loop_step l op) as [[l1 o1]| | |]; cbn [mbind exec_bind]; [|done..].
    rewrite IH. destruct (loop_run l1 a) as [[l2 o2]| | |]; cbn [mbind exec_bind]; [|done..].
    destruct (loop_run l2 b) as [[l3 o3]| | |]; cbn [mbind exec_bind]; [|done..]. by rewrite app_assoc.
Qed.

Definition op_wf (op : loop_op) : Prop := match op with OpInput c => wf6 c | _ => True end.

(** the safe state: emergency-stop mode, all axes exactly zero, stop flag raised *)
Definition is_estop (c : Command) : Prop :=
  Cmd.mode c = Some EmergencyStop /\ Cmd.axes c = replicate 6 f_zero /\
  Z.land (Cmd.flags c) 1 = 1 /\ Cmd.magic c = MAGIC_COMMAND.

Lemma write_estop_is sq t : is_estop (Limits.write_emergency_stop sq t).
Proof. done. Qed.

Lemma request_mode_ok s m t inq outq : loop_inv s inq outq ->
  exists s' r, request_mode s t m = Ret (s', r) /\ loop_inv s' inq outq /\
    estop_latched s' = estop_latched s.
Proof.
  intros I. destruct (li_machine _ _ _ I) as (m0 & l0 & R). unfold request_mode.
  assert (Ht : exists sm r, Machine.try_transition (machine s) t m = Ret (sm, r) /\
    exists m1 l1, Machine.sm_rep sm m1 l1).
  { unfold Machine.try_transition. case_if; [eauto 10|].
    destruct (Machine.commit_spec (machine s) m0 l0 t (Machine.current (machine s)) m R)
      as (sm & -> & R' & _). simpl. eauto 10. }
  destruct Ht as (sm & r & -> & Hsm). cbn [mbind exec_bind]. destruct I.
  destruct r; [case_if|]; (do 2 eexists; split; [reflexivity|]; split; [by constructor | done]).
Qed.

Lemma loop_step_ok s op inq outq : loop_inv s inq outq -> op_wf op ->
  exists s' out inq' outq', loop_step s op = Ret (s', out) /\ loop_inv s' inq' outq' /\
    (estop_latched s = true -> estop_latched s' = true /\ Forall is_estop out).
Proof.
  intros I Hop. pose proof I as [Hi Ho Hc Hl Hm Hlim Hv]. destruct op; cbn [loop_step op_wf] in *.
  - destruct (decide (Z.of_nat (length inq) < fifo_capacity (input s))).
    + destruct (fifo_push_ok _ _ c Hi) as (q & -> & Hq & _); [done|]. cbn [mbind exec_bind].
      do 2 eexists. exists (inq ++ [c]), outq. split; [reflexivity|]. split; [|by split].
      constructor; try done. apply Forall_app. split; [done | by apply Forall_singleton].
    + rewrite (fifo_push_full _ _ c Hi) by lia. cbn [mbind exec_bind].
      do 2 eexists. exists inq, outq. split; [reflexivity|]. split; [by constructor | by split].
  - destruct outq as [|v outq].
    + rewrite (fifo_pop_nil _ Ho). cbn [mbind exec_bind].
      do 2 eexists. exists inq, []. split; [reflexivity|]. split; [by constructor | by split].
    + destruct (fifo_pop_some _ _ _ Ho) as (q & -> & Hq & _). cbn [mbind exec_bind].
      do 2 eexists. exists inq, outq. split; [reflexivity|]. split; [by constructor | by split].
  - do 2 eexists. exists inq, outq. split; [reflexivity|]. split; [by constructor | by split].
  - do 2 eexists. exists inq, outq. split; [reflexivity|]. split; [by constructor | by split].
  - destruct (request_mode_ok s m unix_ns inq outq I) as (s' & r & -> & I' & Hlat). cbn [mbind exec_bind].
    do 2 eexists. exists inq, outq. split; [reflexivity|]. split; [done|]. by rewrite Hlat.
  - destruct Hm as (m & l & R). unfold emergency_stop.
    destruct (force_stop_ok _ _ _ unix_ns R) as (sm & l' & -> & R'). cbn [mbind exec_bind].
    do 2 eexists. exists inq, outq. split; [reflexivity|]. split; [constructor; eauto | by split].
  - unfold engage_ai_veto. destruct (engage_ok (veto s) norm) as (v & -> & [Hv' _] & _). cbn [mbind exec_bind].
    do 2 eexists. exists inq, outq. split; [reflexivity|]. split; [by constructor | by split].
  - do 2 eexists. exists inq, outq. split; [reflexivity|]. split; [by constructor | by split].
  - pose proof (fifo_bound _ _ Hi). destruct (last inq) as [c|] eqn:Hlast.
    + destruct (process_cmd (drain_fuel s) s inq outq c now_ns unix_ns I Hlast)
        as (s' & cmd & pre & -> & I' & _ & _ & _ & _ & _ & Hlat & _ & _ & _ & _ & _ & _ & Hcmd);
        [unfold drain_fuel; lia|].
      cbn [mbind exec_bind]. do 2 eexists. do 2 eexists. split; [reflexivity|]. split; [exact I'|].
      intros Hl'. rewrite Hl' in Hlat. simpl in Hlat. split; [done|]. rewrite Hlat in Hcmd. subst cmd.
      apply Forall_singleton, write_estop_is.
    + apply last_None in Hlast as ->.
      destruct (process_idle (drain_fuel s) s outq now_ns unix_ns I)
        as (s' & -> & I' & _ & Hlat & _); [unfold drain_fuel; lia|].
      cbn [mbind exec_bind]. do 2 eexists. do 2 eexists. split; [reflexivity|]. split; [exact I'|].
      by rewrite Hlat.
Qed.

Lemma loop_run_ok ops : forall s inq outq, loop_inv s inq outq -> Forall op_wf ops ->
  exists s' outs inq' outq', loop_run s ops = Ret (s', outs) /\ loop_inv s' inq' outq' /\
    (estop_latched s = true -> estop_latched s' = true /\ Forall is_estop outs).
Proof.
  induction ops as [|op ops IH]; intros s inq outq I Hw; simpl.
  { do 4 eexists. split; [reflexivity|]. split; [exact I|]. by split. }
  apply Forall_cons in Hw as [Hop Hw].
  destruct (loop_step_ok s op inq outq I Hop) as (s1 & o1 & i1 & q1 & -> & I1 & H1).
  cbn [mbind exec_bind].
  destruct (IH s1 i1 q1 I1 Hw) as (s2 & o2 & i2 & q2 & -> & I2 & H2). cbn [mbind exec_bind].
  do 4 eexists. split; [reflexivity|]. split; [exact I2|]. intros Hl.
  destruct (H1 Hl) as [Hl1 Ho1]. destruct (H2 Hl1) as [Hl2 Ho2]. split; [done | by apply Forall_app].
Qed.

(** ** Theorems *)

(** C1: The emergency stop always wins and never lets go: no sequence of operator
    inputs, mode requests, veto changes, poses and ticks can panic the loop, and
    once the stop is latched (by [emergency_stop] or by a tick taken outside the
    hard fence, which also forces the machine into emergency stop) every command
    that leaves the loop, that tick's included, is the zeroed safe state, until
    the loop itself is rebuilt. *)
Theorem estop_always_wins s inq outq ops1 ops2 t : loop_inv s inq outq ->
  Forall op_wf ops1 -> Forall op_wf ops2 ->
  (exists s1 out1 s2 out2, loop_run s ops1 = Ret (s1, out1) /\
     loop_run s1 (OpStop t :: ops2) = Ret (s2, out2) /\
     estop_latched s2 = true /\ Forall is_estop out2) /\
  (forall now unix_ns c, last inq = Some c -> breached s = true ->
     exists s1 out s2 outs, loop_step s (OpTick now unix_ns) = Ret (s1, [out]) /\
       is_estop out /\ estop_latched s1 = true /\
       (estop_latched s = false -> Machine.current (machine s1) = EmergencyStop) /\
       loop_run s1 ops2 = Ret (s2, outs) /\ estop_latched s2 = true /\ Forall is_estop outs).
Proof.
  intros I W1 W2. split.
  - destruct (loop_run_ok ops1 s inq outq I W1) as (s1 & o1 & i1 & q1 & E1 & I1 & _).
    destruct (loop_step_ok s1 (OpStop t) i1 q1 I1) as (s2 & o2 & i2 & q2 & E2 & I2 & _); [done|].
    destruct (loop_run_ok ops2 s2 i2 q2 I2 W2) as (s3 & o3 & i3 & q3 & E3 & I3 & H3).
    exists s1, o1, s3, (o2 ++ o3). split; [done|]. cbn [loop_run]. rewrite E2. cbn [mbind exec_bind].
    rewrite E3. split; [done|]. cbn [loop_step] in E2.
    destruct (li_machine _ _ _ I1) as (m & l & R). unfold emergency_stop in E2.
    destruct (force_stop_ok _ _ _ t R) as (sm & l' & Ef & _). rewrite Ef in E2.
    injection E2 as <- <-. by apply H3.
  - intros now unix_ns c Hlast Hb. pose proof (fifo_bound _ _ (li_input _ _ _ I)).
    destruct (process_cmd (drain_fuel s) s inq outq c now unix_ns I Hlast)
      as (s1 & cmd & pre & E & I1 & _ & _ & _ & _ & _ & Hlat & Hm & _ & _ & _ & _ & _ & Hcmd);
      [unfold drain_fuel; lia|].
    rewrite Hb, orb_true_r in Hlat. rewrite Hlat in Hcmd. subst cmd.
    destruct (loop_run_ok ops2 s1 _ _ I1 W2) as (s2 & o2 & i2 & q2 & E2 & _ & H2).
    destruct (H2 Hlat) as [Hl2 Hf2].
    exists s1. do 3 eexists. cbn [loop_step]. rewrite E. cbn [mbind exec_bind option_list].
    split_and!; first [done | by apply Hm | exact E2].
Qed.

(** C2: A tick intercepts: it empties the input ring, takes the newest command,
    and appends exactly one command with that command's sequence number to the
    output ring, or counts a drop when the consumer has stalled, without ever
    panicking or blocking; with no input it emits nothing. *)
Theorem safety_tick_newest s inq outq now unix_ns : loop_inv s inq outq ->
  match last inq with
  | None => exists s', loop_step s (OpTick now unix_ns) = Ret (s', []) /\ loop_inv s' [] outq
  | Some c => exists s' cmd, loop_step s (OpTick now unix_ns) = Ret (s', [cmd]) /\
      Cmd.seq cmd = Cmd.seq c /\ wf6 cmd /\ last_out s' = cmd /\
      if Z.of_nat (length outq) <? fifo_capacity (output s)
      then loop_inv s' [] (outq ++ [cmd]) /\ dropped_out s' = dropped_out s
      else loop_inv s' [] outq /\ dropped_out s' = wadd 64 (dropped_out s) 1
  end.
Proof.
  intros I. pose proof (fifo_bound _ _ (li_input _ _ _ I)). cbn [loop_step].
  destruct (last inq) as [c|] eqn:Hlast.
  - destruct (process_cmd (drain_fuel s) s inq outq c now unix_ns I Hlast)
      as (s' & cmd & pre & -> & I' & Hlo & _ & _ & _ & _ & _ & _ & Hdr & Hw & Hsq & _ & _ & Hcmd);
      [unfold drain_fuel; lia|].
    cbn [mbind exec_bind option_list]. do 2 eexists. split; [reflexivity|]. split.
    { rewrite Hcmd. destruct (estop_latched s'); [done|].
      destruct (brake_keeps s (Cmd.with_axes pre (limited (limits (cfg s)) (last_out s) pre <$> seq 0 6)))
        as (b' & d' & Eb & [Hk _] & _). rewrite Eb. cbn [snd]. rewrite Hk. exact Hsq. }
    split; [rewrite <- Hlo; apply I'|]. split; [done|].
    destruct (_ <? _); split; done.
  - apply last_None in Hlast as ->.
    destruct (process_idle (drain_fuel s) s outq now unix_ns I) as (s' & -> & I' & _); [unfold drain_fuel; lia|].
    eexists. split; [reflexivity | done].
Qed.

Lemma throttle_pinned s d : wf6 d ->
  let '(s', c) := brake_stage s d in
  (brake_latched s' = true -> is_nan (axis c THROTTLE) = true \/ fle (axis c THROTTLE) DESCEND_PIN_THROTTLE = true) /\
  (ceiling_unreachable s = true -> is_nan (axis c THROTTLE) = true \/ fle (axis c THROTTLE) Geo.THROTTLE_NEUTRAL = true).
Proof.
  intros Hw. unfold brake_stage.
  match goal with |- context [if ?b then false else ?c] => set (latched := if b then false else c) end.
  cbn [brake_latched with_brake].
  assert (Hset : forall e v, wf6 e -> axis (set_axis e THROTTLE v) THROTTLE = v)
    by (intros; rewrite axis_set by (auto; unfold THROTTLE; lia); by rewrite decide_True).
  assert (Hle : forall x y, is_nan y = false -> flt y x = false -> is_nan x = true \/ fle x y = true).
  { intros x y Hy Hlt. destruct (is_nan x) eqn:Hx; [by left | right]. by apply flt_false_fle. }
  assert (Hpn : fle DESCEND_PIN_THROTTLE Geo.THROTTLE_NEUTRAL = true) by (vm_compute; reflexivity).
  set (c1 := if latched && _ then _ else d).
  assert (Hw1 : wf6 c1) by (subst c1; case_if; [by apply wf6_set | done]).
  assert (H1 : latched = true -> is_nan (axis c1 THROTTLE) = true \/ fle (axis c1 THROTTLE) DESCEND_PIN_THROTTLE = true).
  { intros ->. subst c1. destruct (flt DESCEND_PIN_THROTTLE (axis d THROTTLE)) eqn:E; simpl.
    - rewrite Hset by done. right. vm_compute. reflexivity.
    - by apply Hle. }
  destruct (ceiling_unreachable s); [destruct (flt Geo.THROTTLE_NEUTRAL (axis c1 THROTTLE)) eqn:E|]; simpl.
  - rewrite Hset by done. split; intros _; right; [vm_compute; reflexivity | exact Hpn].
  - split; [done|]. intros _. by apply Hle.
  - split; done.
Qed.

(** The ceiling brake holds: on every tick whose measured climb cannot be
    stopped below the ceiling the emitted throttle is at most hover-neutral, and
    as long as the brake is latched it is at most the 0.30 descent pin, whatever
    the operator or autonomy asked for (a NaN throttle excepted). *)
Theorem ceiling_brake_pins s inq outq c now unix_ns : loop_inv s inq outq -> last inq = Some c ->
  exists s' cmd, loop_step s (OpTick now unix_ns) = Ret (s', [cmd]) /\
    (brake_latched s' = true -> is_nan (axis cmd THROTTLE) = true \/
       fle (axis cmd THROTTLE) DESCEND_PIN_THROTTLE = true) /\
    (ceiling_unreachable s = true -> is_nan (axis cmd THROTTLE) = true \/
       fle (axis cmd THROTTLE) Geo.THROTTLE_NEUTRAL = true).
Proof.
  intros I Hlast. pose proof (fifo_bound _ _ (li_input _ _ _ I)). cbn [loop_step].
  destruct (process_cmd (drain_fuel s) s inq outq c now unix_ns I Hlast)
    as (s' & cmd & pre & -> & I' & Hlo & _ & _ & _ & _ & _ & _ & _ & Hw & Hsq & _ & Hbl & Hcmd);
    [unfold drain_fuel; lia|].
  cbn [mbind exec_bind option_list]. do 2 eexists. split; [reflexivity|].
  rewrite Hcmd. destruct (estop_latched s').
  { split; intros _; right; vm_compute; reflexivity. }
  set (d := Cmd.with_axes pre _). assert (Hd : wf6 d) by done.
  pose proof (throttle_pinned s d Hd) as Ht.
  assert (Hs : brake_latched s' = brake_latched (brake_stage s d).1) by (rewrite Hbl; done).
  rewrite Hs. destruct (brake_stage s d) as [s1 c1]. exact Ht.
Qed.

(** Not-a-number defeats the limits and never leaves: a NaN on an axis of the
    command or of the previously accepted one comes out of the kinematic stage as
    NaN, and once the loop has emitted a NaN axis every later command it emits has
    NaN there, whatever valid input follows, unless the emergency stop latches. *)
Theorem nan_axis_persists s inq outq c now unix_ns k : loop_inv s inq outq ->
  last inq = Some c -> (k < 6)%nat ->
  (forall prev cmd, wf6 prev -> wf6 cmd -> axis cmd k = S754_nan \/ axis prev k = S754_nan ->
     exists cmd' t, Limits.apply (limits (cfg s)) prev cmd = Ret (cmd', t) /\ axis cmd' k = S754_nan) /\
  (axis (last_out s) k = S754_nan ->
     exists s' cmd, loop_step s (OpTick now unix_ns) = Ret (s', [cmd]) /\
       (estop_latched s' = false -> axis cmd k = S754_nan /\ axis (last_out s') k = S754_nan)).
Proof.
  intros I Hlast Hk. pose proof (li_limits _ _ _ I) as Hlim.
  assert (Hax : forall c (g : nat -> f32), axis (Cmd.with_axes c (g <$> seq 0 6)) k = g k).
  { intros c0 g. unfold axis. cbn [Cmd.with_axes Cmd.axes]. do 6 (destruct k as [|k]; [reflexivity|]). lia. }
  assert (Hnan : forall prev cmd, axis cmd k = S754_nan \/ axis prev k = S754_nan ->
    limited (limits (cfg s)) prev cmd k = S754_nan).
  { intros prev cmd Hor. unfold limited. destruct (bounds_ok _ k Hlim) as [Hb Hs]. destruct Hor as [->| ->].
    - rewrite (clampv_nan _ _ Hb). change (f32_sub S754_nan _) with S754_nan.
      rewrite (clampv_nan _ _ Hs). apply f32_add_nan_r.
    - apply f32_add_nan_l. }
  split.
  - intros prev cmd Hp Hc Hor. destruct (apply_limited _ prev cmd Hlim Hp Hc) as [t E].
    do 2 eexists. split; [exact E|]. rewrite Hax. by apply Hnan.
  - intros Hlast_nan. pose proof (fifo_bound _ _ (li_input _ _ _ I)). cbn [loop_step].
    destruct (process_cmd (drain_fuel s) s inq outq c now unix_ns I Hlast)
      as (s' & cmd & pre & -> & I' & Hlo & _ & _ & _ & _ & _ & _ & _ & Hw & Hsq & _ & Hbl & Hcmd);
      [unfold drain_fuel; lia|].
    cbn [mbind exec_bind option_list]. do 2 eexists. split; [reflexivity|]. intros Hne.
    rewrite Hne in Hcmd. rewrite Hlo.
    assert (Hc : axis cmd k = S754_nan); [|done]. rewrite Hcmd. set (d := Cmd.with_axes pre _).
    assert (Hd : axis d k = S754_nan) by (subst d; rewrite Hax; by apply Hnan; right).
    destruct (decide (k = THROTTLE)) as [->|Hnt].
    + unfold brake_stage. cbn [snd]. rewrite Hd, flt_nan_r, andb_false_r. rewrite Hd, flt_nan_r, andb_false_r. done.
    + destruct (brake_keeps s d) as (b & e & -> & _ & Ha). cbn [snd]. rewrite Ha; done.
Qed.

(** The authority blend runs at double speed under load: a tick with operator
    input advances the hand-over spline by two tick periods, an idle tick by one,
    so its duration depends on the command rate. *)
Theorem blend_advances_twice s inq outq now unix_ns : loop_inv s inq outq ->
  exists s' out, loop_step s (OpTick now unix_ns) = Ret (s', out) /\
    blend s' = match inq with
               | [] => next_blend (tick_s (cfg s)) <$> blend s
               | _ => next_blend (tick_s (cfg s)) <$> (next_blend (tick_s (cfg s)) <$> blend s)
               end.
Proof.
  intros I. pose proof (fifo_bound _ _ (li_input _ _ _ I)). cbn [loop_step].
  destruct (last inq) as [c|] eqn:Hlast.
  - destruct (process_cmd (drain_fuel s) s inq outq c now unix_ns I Hlast)
      as (s' & cmd & pre & -> & I' & _ & _ & _ & _ & _ & _ & _ & _ & _ & _ & Hb & _);
      [unfold drain_fuel; lia|].
    do 2 eexists. split; [reflexivity|]. rewrite Hb. by destruct inq.
  - apply last_None in Hlast as ->.
    destruct (process_idle (drain_fuel s) s outq now unix_ns I) as (s' & -> & I' & _ & _ & _ & Hb & _);
      [unfold drain_fuel; lia|].
    do 2 eexists. split; [reflexivity | exact Hb].
Qed.

(** The brake cuts thrust in a dive: the stopping distance squares the vertical
    speed, so a vehicle at 60 m under a 120 m ceiling that falls at 30 m/s counts
    as about to break the ceiling, and a throttle of 0.8 asked for to arrest the
    fall is replaced by 0.30. *)
Theorem brake_cuts_thrust_in_dive s cmd : fence (cfg s) = Geo.default ->
  Geo.z (pose s) = f64_of_Z 60 -> vz_est s = f64_of_Z (-30) -> wf6 cmd ->
  axis cmd THROTTLE = f32_lit 8 10 ->
  ceiling_unreachable s = true /\
  axis (brake_stage s cmd).2 THROTTLE = DESCEND_PIN_THROTTLE.
Proof.
  intros Hf Hz Hv Hw Ht. assert (Hc : ceiling_unreachable s = true).
  { unfold ceiling_unreachable, stop_dist. rewrite Hf, Hz, Hv. vm_compute. reflexivity. }
  split; [done|]. unfold brake_stage. rewrite Hc, Hv, Hz, Hf, orb_true_r.
  match goal with |- context [if ?b then false else true] =>
    replace b with true by (vm_compute; reflexivity) end.
  cbn [andb snd]. rewrite Ht.
  replace (flt Geo.THROTTLE_NEUTRAL (f32_lit 8 10)) with true by (vm_compute; reflexivity).
  rewrite axis_set by (auto; unfold THROTTLE; lia). by rewrite decide_True.
Qed.

End Loop.
Arguments SafetyLoop : clear implicits.

(** ** Concrete runs *)

Definition demo_hypot (a b : f64) : f64 := SFsqrt 53 1024 (f64_add (f64_mul a a) (f64_mul b b)).
Abbreviation CmdRing := (Spsc.SpscRing Command).
Abbreviation EvRing := (Spsc.SpscRing Transition).

Definition ret_or {A} (d : A) (m : exec A) : A := match m with Ret a => a | _ => d end.

Definition demo_lat : Latency.LatencyCompensator :=
  {| Latency.ewma_ns := f_zero; Latency.alpha := f64_lit 2 10;
     Latency.max_ns := f64_of_Z 50000000; Latency.samples := 0 |}.

Definition demo_cmd : Command := set_axis (Cmd.with_seq (Cmd.zeroed f_zero FullTeleop) 7) ROLL (f32_lit 1 10).
Definition demo_in : CmdRing := (ret_or (fifo_with_capacity 4, Ok tt) (fifo_push (fifo_with_capacity 4) demo_cmd)).1.

(** a loop that has one command waiting, at pose [p], having last emitted [lo] *)
Definition demo_loop (p : Geo.Pose6D) (lo : Command) : SafetyLoop CmdRing EvRing :=
  {| input := demo_in; output := fifo_with_capacity 4; machine := Machine.new; cfg := default_config;
     authority := f_zero; blend := Some (Spline.new f_zero (f32_of_Z 1) (f32_of_Z 1));
     latency := demo_lat; baseline := Cmd.zeroed f_zero Auto;
     last_out := lo; pose := p; estop_latched := false; dropped_out := 0; veto := Veto.default;
     prev_z := f_zero; have_prev_z := false; vz_est := f_zero; brake_latched := false |}.

Lemma demo_loop_inv p lo : wf6 lo -> loop_inv (demo_loop p lo) [demo_cmd] [].
Proof.
  intros Hlo. assert (H0 : fifo_rep (fifo_with_capacity 4 : CmdRing) []) by (apply fifo_new_rep; vm_compute; split; congruence).
  destruct (fifo_push_ok _ _ demo_cmd H0) as (q & E & Hq & _); [vm_compute; reflexivity|].
  constructor; try done; cbn [demo_loop input output machine cfg veto last_out].
  - unfold demo_in. rewrite E. exact Hq.
  - by repeat constructor.
  - exists Auto, []. constructor; [done|]. apply fifo_new_rep. vm_compute. split; congruence.
Qed.

Definition far : Geo.Pose6D :=
  {| Geo.x := f64_of_Z 600; Geo.y := f_zero; Geo.z := f64_of_Z 10; Geo.yaw := f_zero;
     Geo.pitch := f_zero; Geo.roll := f_zero; Geo.reserved := 0 |}.

Lemma estop_always_wins_witness :
  let s := demo_loop far (Cmd.zeroed f_zero Auto) in
  exists s1 out, loop_step demo_hypot s (OpTick 9 9) = Ret (s1, [out]) /\ is_estop out.
Proof.
  intros s. destruct (estop_always_wins demo_hypot s [demo_cmd] [] [OpInput demo_cmd] [] 3
    (demo_loop_inv far (Cmd.zeroed f_zero Auto) eq_refl) ltac:(by repeat constructor) ltac:(constructor)) as [_ H].
  destruct (H 9 9 demo_cmd eq_refl) as (s1 & out & _ & _ & E & He & _); [vm_compute; reflexivity|].
  exists s1, out. split; [exact E | exact He].
Defined.

Lemma safety_tick_newest_witness :
  let s := demo_loop Geo.pose_default (Cmd.zeroed f_zero Auto) in
  exists s' cmd, loop_step demo_hypot s (OpTick 9 9) = Ret (s', [cmd]) /\ Cmd.seq cmd = 7.
Proof.
  intros s. pose proof (safety_tick_newest demo_hypot s [demo_cmd] [] 9 9 (demo_loop_inv Geo.pose_default (Cmd.zeroed f_zero Auto) eq_refl)) as H.
  cbn [last] in H. destruct H as (s' & cmd & E & Hs & _). exists s', cmd. split; [exact E | exact Hs].
Defined.

Definition high : Geo.Pose6D :=
  {| Geo.x := f_zero; Geo.y := f_zero; Geo.z := f64_of_Z 120; Geo.yaw := f_zero;
     Geo.pitch := f_zero; Geo.roll := f_zero; Geo.reserved := 0 |}.

Lemma ceiling_brake_pins_witness :
  let s := demo_loop high (Cmd.zeroed f_zero Auto) in
  exists s' cmd, loop_step demo_hypot s (OpTick 9 9) = Ret (s', [cmd]) /\
    (is_nan (axis cmd THROTTLE) = true \/ fle (axis cmd THROTTLE) Geo.THROTTLE_NEUTRAL = true).
Proof.
  intros s. destruct (ceiling_brake_pins demo_hypot s [demo_cmd] [] demo_cmd 9 9
    (demo_loop_inv high (Cmd.zeroed f_zero Auto) eq_refl) eq_refl) as (s' & cmd & E & _ & H).
  exists s', cmd. split; [exact E|]. apply H. vm_compute. reflexivity.
Defined.

Definition nan_out : Command := set_axis (Cmd.zeroed f_zero Auto) YAW S754_nan.

Lemma nan_axis_persists_witness :
  let s := demo_loop Geo.pose_default nan_out in
  exists s' cmd, loop_step demo_hypot s (OpTick 9 9) = Ret (s', [cmd]) /\ axis cmd YAW = S754_nan.
Proof.
  intros s. destruct (nan_axis_persists demo_hypot s [demo_cmd] [] demo_cmd 9 9 YAW
    (demo_loop_inv Geo.pose_default nan_out eq_refl) eq_refl ltac:(vm_compute; lia)) as [_ H].
  destruct (H eq_refl) as (s' & cmd & E & Hn). exists s', cmd. split; [exact E|]. apply Hn.
  assert (Hs : ret_or true (m ← loop_step demo_hypot s (OpTick 9 9); Ret (estop_latched m.1)) = false)
    by (vm_compute; reflexivity).
  rewrite E in Hs. exact Hs.
Defined.

Lemma blend_advances_twice_witness :
  let s := demo_loop Geo.pose_default (Cmd.zeroed f_zero Auto) in
  exists s' out, loop_step demo_hypot s (OpTick 9 9) = Ret (s', out) /\
    Spline.elapsed_s <$> blend s' = Some (f32_add (f32_lit 5 1000) (f32_lit 5 1000)).
Proof.
  intros s. destruct (blend_advances_twice demo_hypot s [demo_cmd] [] 9 9
    (demo_loop_inv Geo.pose_default (Cmd.zeroed f_zero Auto) eq_refl)) as (s' & out & E & Hb).
  exists s', out. split; [exact E|]. rewrite Hb. vm_compute. reflexivity.
Defined.

Definition diving : SafetyLoop CmdRing EvRing :=
  let s := demo_loop {| Geo.x := f_zero; Geo.y := f_zero; Geo.z := f64_of_Z 60; Geo.yaw := f_zero;
     Geo.pitch := f_zero; Geo.roll := f_zero; Geo.reserved := 0 |} (Cmd.zeroed f_zero Auto) in
  {| input := input s; output := output s; machine := machine s; cfg := cfg s;
     authority := authority s; blend := blend s; latency := latency s; baseline := baseline s;
     last_out := last_out s; pose := pose s; estop_latched := false; dropped_out := 0;
     veto := veto s; prev_z := prev_z s; have_prev_z := true; vz_est := f64_of_Z (-30);
     brake_latched := false |}.

Lemma brake_cuts_thrust_in_dive_witness :
  axis (brake_stage diving (set_axis demo_cmd THROTTLE (f32_lit 8 10))).2 THROTTLE = f32_lit 3 10.
Proof.
  destruct (brake_cuts_thrust_in_dive diving (set_axis demo_cmd THROTTLE (f32_lit 8 10))) as [_ H];
    [reflexivity | reflexivity | reflexivity | reflexivity | reflexivity|].
  rewrite H. vm_compute. reflexivity.
Defined.
