(* ===== verification/Cipher.v ===== *)
(** * Sealed envelopes: [tpt-t-sec/src/cipher.rs]

    The session box over the two AEAD suites: nonce construction, sealing,
    opening in place, and decryption into a ring slot.  The two ciphers are
    parameters (class [AeadInPlace]), and so is the system's entropy source
    (class [Getrandom]); rings are used through [BoundedFifo]. *)

From S2P Require Import Prelude Ring Reliable Mux.

Inductive SecError :=
| InvalidKeyLength | Crypto | KeyGen | AttestationFailed | HandshakeNoSuite
| BufferTooSmall | RingFull | Serialize | UnknownUnit.

#[global] Instance SecError_eq_dec : EqDecision SecError.
Proof. solve_decision. Defined.

Definition NONCE_LEN : nat := 12.
Definition TAG_LEN : nat := 16.
Definition KEY_LEN : nat := 32.
(** the largest message and associated data both suites accept *)
Definition AEAD_MAX : Z := 2 ^ 36.

(** ** What the code relies on of the [aead] traits and of [getrandom] *)

Class AeadInPlace (K : Type) := {
  new_from_slice : list Z -> option K;
  (** the buffer after the call, and the tag *)
  encrypt_in_place_detached : K -> list Z -> list Z -> list Z -> list Z * option (list Z);
  (** the buffer after the call, and whether the tag matched *)
  decrypt_in_place_detached : K -> list Z -> list Z -> list Z -> list Z -> list Z * bool;
  new_from_slice_len key : is_Some (new_from_slice key) <-> length key = KEY_LEN;
  encrypt_accepts k n aad p : length n = NONCE_LEN ->
    Z.of_nat (length p) <= AEAD_MAX -> Z.of_nat (length aad) <= AEAD_MAX ->
    is_Some (encrypt_in_place_detached k n aad p).2;
  encrypt_length k n aad p : length (encrypt_in_place_detached k n aad p).1 = length p;
  encrypt_tag k n aad p t : (encrypt_in_place_detached k n aad p).2 = Some t -> length t = TAG_LEN;
  encrypt_bytes k n aad p : bytes p -> bytes (encrypt_in_place_detached k n aad p).1;
  encrypt_tag_bytes k n aad p t : (encrypt_in_place_detached k n aad p).2 = Some t -> bytes t;
  decrypt_length k n aad c t : length (decrypt_in_place_detached k n aad c t).1 = length c;
  decrypt_encrypt k n aad p t : (encrypt_in_place_detached k n aad p).2 = Some t ->
    decrypt_in_place_detached k n aad (encrypt_in_place_detached k n aad p).1 t = (p, true)
}.

Class Getrandom (E : Type) := {
  getrandom : nat -> E -> E * option (list Z);
  getrandom_length n e e' bs : getrandom n e = (e', Some bs) -> length bs = n;
  getrandom_bytes n e e' bs : getrandom n e = (e', Some bs) -> bytes bs
}.

(** ** Suites *)

Inductive CipherSuite := Aes256Gcm | ChaCha20Poly1305.

#[global] Instance CipherSuite_eq_dec : EqDecision CipherSuite.
Proof. solve_decision. Defined.

Module Suite.
Definition overhead (_ : CipherSuite) : nat := NONCE_LEN + TAG_LEN.
Definition all : list CipherSuite := [Aes256Gcm; ChaCha20Poly1305].
Fixpoint negotiate (ours theirs : list CipherSuite) : option CipherSuite :=
  match ours with
  | [] => None
  | s :: ours => if bool_decide (s ∈ theirs) then Some s else negotiate ours theirs
  end.
End Suite.

Record SecureBlock := { buf : list Z; blen : Z }.

Module Block.
Definition new (N : nat) : SecureBlock := {| buf := replicate N 0; blen := 0 |}.
Definition as_slice (b : SecureBlock) : exec (list Z) := slice_to (buf b) (Z.to_nat (blen b)).
End Block.

Definition MAX_SECURE_BLOCK : nat := 256.

Section Box.
Context {Aes Cha : Type} `{AA : !AeadInPlace Aes} `{AC : !AeadInPlace Cha}.

Inductive Inner := InAes (c : Aes) | InCha (c : Cha).

Definition build_inner (suite : CipherSuite) (key : list Z) : result Inner SecError :=
  match suite with
  | Aes256Gcm =>
      match new_from_slice (K := Aes) key with
      | Some c => Ok (InAes c) | None => Err InvalidKeyLength end
  | ChaCha20Poly1305 =>
      match new_from_slice (K := Cha) key with
      | Some c => Ok (InCha c) | None => Err InvalidKeyLength end
  end.

Record CryptoBox := { key : Inner; suite : CipherSuite; ctr : Z; salt : list Z }.

Definition encrypt (k : Inner) (n aad ct : list Z) : list Z * option (list Z) :=
  match k with
  | InAes c => encrypt_in_place_detached c n aad ct
  | InCha c => encrypt_in_place_detached c n aad ct
  end.
Definition decrypt (k : Inner) (n aad ct tag : list Z) : list Z * bool :=
  match k with
  | InAes c => decrypt_in_place_detached c n aad ct tag
  | InCha c => decrypt_in_place_detached c n aad ct tag
  end.

Section Construct.
Context {E : Type} `{!Getrandom E}.

Definition new (s : CipherSuite) (k : list Z) (e : E) : E * result CryptoBox SecError :=
  match build_inner s k with
  | Err err => (e, Err err)
  | Ok inner =>
      let '(e, salt) := getrandom 4 e in
      match salt with
      | None => (e, Err KeyGen)
      | Some salt => (e, Ok {| key := inner; suite := s; ctr := 0; salt := salt |})
      end
  end.

(** [expect] on the key: a panic when the suite refuses it *)
Definition from_kdf (s : CipherSuite) (kdf : list Z) (e : E) : exec (E * result CryptoBox SecError) :=
  match build_inner s kdf with
  | Err _ => Panic
  | Ok inner =>
      let '(e, salt) := getrandom 4 e in
      match salt with
      | None => Ret (e, Err KeyGen)
      | Some salt => Ret (e, Ok {| key := inner; suite := s; ctr := 0; salt := salt |})
      end
  end.
End Construct.

Definition overhead (b : CryptoBox) : nat := Suite.overhead (suite b).

Definition next_nonce (b : CryptoBox) (out : list Z) : exec (CryptoBox * list Z) :=
  let v := ctr b in
  let b := {| key := key b; suite := suite b; ctr := wadd 64 v 1; salt := salt b |} in
  out ← copy_from_slice out 0 (le_bytes 8 v);
  out ← copy_from_slice out 8 (salt b);
  Ret (b, out).

Definition seal_into (b : CryptoBox) (plaintext aad out : list Z) :
    exec (CryptoBox * list Z * result nat SecError) :=
  let need := (NONCE_LEN + length plaintext + TAG_LEN)%nat in
  if (length out <? need)%nat then Ret (b, out, Err BufferTooSmall)
  else
    '(b, nonce) ← next_nonce b (replicate NONCE_LEN 0);
    out ← copy_from_slice out 0 nonce;
    out ← copy_from_slice out NONCE_LEN plaintext;
    let '(ct, tag) := encrypt (key b) nonce aad (take (length plaintext) (drop NONCE_LEN out)) in
    out ← copy_from_slice out NONCE_LEN ct;
    match tag with
    | None => Ret (b, out, Err Crypto)
    | Some tag =>
        out ← copy_from_slice out (NONCE_LEN + length plaintext) tag;
        Ret (b, out, Ok need)
    end.

Definition seal_to_vec (b : CryptoBox) (plaintext aad : list Z) :
    exec (CryptoBox * result (list Z) SecError) :=
  let out := replicate (NONCE_LEN + length plaintext + TAG_LEN) 0 in
  '(b, out, r) ← seal_into b plaintext aad out;
  match r with
  | Ok n => Ret (b, Ok (take n out))
  | Err e => Ret (b, Err e)
  end.

Definition open_in_place (b : CryptoBox) (buf aad : list Z) : exec (list Z * result nat SecError) :=
  if (length buf <? NONCE_LEN + TAG_LEN)%nat then Ret (buf, Err Crypto)
  else
    let pt_len := (length buf - NONCE_LEN - TAG_LEN)%nat in
    let nonce := take NONCE_LEN buf in
    let ct := take pt_len (drop NONCE_LEN buf) in
    let tag := drop pt_len (drop NONCE_LEN buf) in
    let '(ct, ok) := decrypt (key b) nonce aad ct tag in
    let buf := nonce ++ ct ++ tag in
    if ok then
      buf ← copy_from_slice buf 0 (take pt_len (drop NONCE_LEN buf));
      Ret (buf, Ok pt_len)
    else Ret (buf, Err Crypto).

Definition open_into (b : CryptoBox) (sealed aad out : list Z) : exec (list Z * result nat SecError) :=
  if (length sealed <? NONCE_LEN + TAG_LEN)%nat then Ret (out, Err Crypto)
  else
    let pt_len := (length sealed - NONCE_LEN - TAG_LEN)%nat in
    if (length out <? pt_len)%nat then Ret (out, Err BufferTooSmall)
    else
      '(work, r) ← open_in_place b sealed aad;
      match r with
      | Err e => Ret (out, Err e)
      | Ok n =>
          pt ← slice_to work n;
          out ← copy_from_slice out 0 pt;
          Ret (out, Ok n)
      end.

Definition decrypt_into_ring {Q} `{!BoundedFifo Q SecureBlock} (N : nat) (b : CryptoBox)
    (sealed aad : list Z) (ring : Q) : exec (Q * result nat SecError) :=
  if (N <? length sealed)%nat then Ret (ring, Err BufferTooSmall)
  else
    let block := Block.new N in
    bf ← copy_from_slice (buf block) 0 sealed;
    '(opened, r) ← open_in_place b (take (length sealed) bf) aad;
    match r with
    | Err e => Ret (ring, Err e)
    | Ok pt =>
        let block := {| buf := opened ++ drop (length sealed) bf; blen := wrap 32 (Z.of_nat pt) |} in
        '(ring, pushed) ← fifo_push ring block;
        match pushed with
        | Ok _ => Ret (ring, Ok pt)
        | Err _ => Ret (ring, Err RingFull)
        end
    end.

End Box.
Arguments Inner : clear implicits.
Arguments CryptoBox : clear implicits.

(** ** Envelopes *)

Section Envelopes.
Context {Aes Cha : Type} `{AA : !AeadInPlace Aes} `{AC : !AeadInPlace Cha}.
Local Abbreviation Inner := (Inner Aes Cha).
Local Abbreviation CryptoBox := (CryptoBox Aes Cha).
Implicit Types (b : CryptoBox) (k : Inner).

(** the laws, whichever suite the box runs *)
Lemma enc_accepts k n aad p : length n = NONCE_LEN ->
  Z.of_nat (length p) <= AEAD_MAX -> Z.of_nat (length aad) <= AEAD_MAX ->
  is_Some (encrypt k n aad p).2.
Proof. destruct k; apply encrypt_accepts. Qed.
Lemma enc_length k n aad p : length (encrypt k n aad p).1 = length p.
Proof. destruct k; apply encrypt_length. Qed.
Lemma enc_tag k n aad p t : (encrypt k n aad p).2 = Some t -> length t = TAG_LEN.
Proof. destruct k; apply encrypt_tag. Qed.
Lemma enc_bytes k n aad p : bytes p -> bytes (encrypt k n aad p).1.
Proof. destruct k; apply encrypt_bytes. Qed.
Lemma enc_tag_bytes k n aad p t : (encrypt k n aad p).2 = Some t -> bytes t.
Proof. destruct k; apply encrypt_tag_bytes. Qed.
Lemma dec_length k n aad c t : length (decrypt k n aad c t).1 = length c.
Proof. destruct k; apply decrypt_length. Qed.
Lemma dec_enc k n aad p t : (encrypt k n aad p).2 = Some t ->
  decrypt k n aad (encrypt k n aad p).1 t = (p, true).
Proof. destruct k; apply decrypt_encrypt. Qed.

Definition nonce_of b : list Z := le_bytes 8 (ctr b) ++ salt b.
Definition bumped b : CryptoBox :=
  {| key := key b; suite := suite b; ctr := wadd 64 (ctr b) 1; salt := salt b |}.
Definition box_wf b : Prop := length (salt b) = 4%nat /\ uint 64 (ctr b).
Definition msg_ok (p aad : list Z) : Prop :=
  Z.of_nat (length p) <= AEAD_MAX /\ Z.of_nat (length aad) <= AEAD_MAX.

(** [env] is [plaintext] sealed under [k], [nonce] and [aad] *)
Definition sealed_as k (nonce aad plaintext env : list Z) : Prop :=
  exists tag, (encrypt k nonce aad plaintext).2 = Some tag /\
    length nonce = NONCE_LEN /\ env = nonce ++ (encrypt k nonce aad plaintext).1 ++ tag.

Lemma bumped_wf b : box_wf b -> box_wf (bumped b).
Proof. intros [? ?]. split; [done|]. by apply wrap_uint. Qed.

Lemma nonce_length b : box_wf b -> length (nonce_of b) = NONCE_LEN.
Proof. intros [Hs _]. unfold nonce_of. rewrite length_app, length_le_bytes, Hs. done. Qed.

Lemma sealed_length k n aad p env : sealed_as k n aad p env ->
  length env = (NONCE_LEN + length p + TAG_LEN)%nat.
Proof.
  intros (t & Ht & Hn & ->). rewrite !length_app, enc_length, (enc_tag _ _ _ _ _ Ht), Hn. lia.
Qed.

Lemma sealed_bytes k n aad p env : bytes n -> bytes p -> sealed_as k n aad p env -> bytes env.
Proof.
  intros Hn Hp (t & Ht & _ & ->). apply Forall_app. split; [done|]. apply Forall_app.
  split; [by apply enc_bytes | by eapply enc_tag_bytes].
Qed.

Lemma sealed_nonce k n aad p env : sealed_as k n aad p env -> take NONCE_LEN env = n.
Proof. intros (t & _ & <- & ->). by rewrite take_app_length. Qed.

Lemma next_nonce_spec b : box_wf b ->
  next_nonce b (replicate NONCE_LEN 0) = Ret (bumped b, nonce_of b).
Proof.
  intros [Hs _]. unfold next_nonce, nonce_of.
  pose proof (copy_mid [] (replicate 8 0) (le_bytes 8 (ctr b)) (replicate 4 0) 0 eq_refl eq_refl) as E.
  cbn [app] in E. rewrite <- replicate_add in E.
  replace (8 + 4)%nat with NONCE_LEN in E by done. rewrite E. cbn [mbind exec_bind salt].
  pose proof (copy_mid (le_bytes 8 (ctr b)) (replicate 4 0) (salt b) [] 8 eq_refl Hs) as E'.
  rewrite !app_nil_r in E'. by rewrite E'.
Qed.

(** a buffer cut where [seal_into] writes *)
Lemma split_seal (out : list Z) n : (NONCE_LEN + n + TAG_LEN <= length out)%nat ->
  exists h p q, out = h ++ p ++ q ++ drop (NONCE_LEN + n + TAG_LEN) out /\
    length h = NONCE_LEN /\ length p = n /\ length q = TAG_LEN.
Proof.
  intros Hl. exists (take NONCE_LEN out), (take n (drop NONCE_LEN out)),
    (take TAG_LEN (drop n (drop NONCE_LEN out))). split.
  - rewrite <- !drop_drop, !take_drop. done.
  - autorewrite with len. lia.
Qed.

Lemma seal_into_spec b p aad out : box_wf b -> msg_ok p aad ->
  (NONCE_LEN + length p + TAG_LEN <= length out)%nat ->
  exists env, sealed_as (key b) (nonce_of b) aad p env /\
    seal_into b p aad out = Ret (bumped b, env ++ drop (length env) out, Ok (length env)).
Proof.
  intros Hb [Hp Ha] Hl. pose proof (nonce_length b Hb) as Hn.
  destruct (enc_accepts (key b) (nonce_of b) aad p Hn Hp Ha) as [t Ht].
  set (env := nonce_of b ++ (encrypt (key b) (nonce_of b) aad p).1 ++ t).
  assert (Hs : sealed_as (key b) (nonce_of b) aad p env) by (by exists t).
  exists env. split; [done|]. rewrite (sealed_length _ _ _ _ _ Hs).
  destruct (split_seal out (length p) Hl) as (h & p0 & q & E & Hh & Hp0 & Hq).
  unfold seal_into. rewrite (proj2 (Nat.ltb_ge _ _) Hl), next_nonce_spec by done.
  cbn [mbind exec_bind]. set (r := drop _ out) in *. clearbody r. subst out.
  pose proof (copy_mid [] h (nonce_of b) (p0 ++ q ++ r) 0 eq_refl (eq_trans Hn (eq_sym Hh))) as E.
  cbn [app] in E. rewrite E. cbn [mbind exec_bind].
  rewrite (copy_mid (nonce_of b) p0 p) by done. cbn [mbind exec_bind].
  rewrite <- Hn, drop_app_length, take_app_length. cbn [key bumped].
  destruct (encrypt (key b) (nonce_of b) aad p) as [c o] eqn:Ec. cbn [snd fst] in *. subst o.
  pose proof (enc_length (key b) (nonce_of b) aad p) as Hc. rewrite Ec in Hc. cbn in Hc.
  rewrite (copy_mid (nonce_of b) p c) by done. cbn [mbind exec_bind].
  rewrite (app_assoc (nonce_of b)), (copy_mid (nonce_of b ++ c) q t).
  - cbn [mbind exec_bind]. subst env. rewrite <- !app_assoc. done.
  - rewrite length_app. lia.
  - rewrite Hq. eapply (enc_tag (key b) (nonce_of b) aad p). by rewrite Ec.
Qed.

Lemma seal_to_vec_spec b p aad : box_wf b -> msg_ok p aad ->
  exists env, sealed_as (key b) (nonce_of b) aad p env /\
    seal_to_vec b p aad = Ret (bumped b, Ok env).
Proof.
  intros Hb Hm. unfold seal_to_vec. set (out := replicate _ 0).
  destruct (seal_into_spec b p aad out Hb Hm) as (env & Hs & E).
  { subst out. by rewrite length_replicate. }
  exists env. split; [done|]. rewrite E. cbn [mbind exec_bind]. by rewrite take_app_length.
Qed.

(** opening what was sealed under the same key and associated data *)
Lemma open_in_place_spec b n aad p env : sealed_as (key b) n aad p env ->
  exists junk, open_in_place b env aad = Ret (p ++ junk, Ok (length p)) /\
    length (p ++ junk) = length env.
Proof.
  intros Hs. pose proof (sealed_length _ _ _ _ _ Hs) as Hl.
  destruct Hs as (t & Ht & Hn & E). unfold open_in_place. rewrite Hl.
  rewrite (proj2 (Nat.ltb_ge _ _)) by lia.
  replace (NONCE_LEN + length p + TAG_LEN - NONCE_LEN - TAG_LEN)%nat with (length p) by lia.
  pose proof (dec_enc (key b) n aad p t Ht) as Hd.
  pose proof (enc_length (key b) n aad p) as Hc.
  set (c := (encrypt (key b) n aad p).1) in *. clearbody c. subst env.
  rewrite <- Hn, take_app_length, drop_app_length, <- Hc, take_app_length, drop_app_length, Hd, Hc.
  rewrite drop_app_length, take_app_length.
  unfold copy_from_slice. rewrite decide_True by (rewrite !length_app; lia).
  cbn [mbind exec_bind]. unfold splice. simpl take. simpl app.
  eexists. split; [done|]. rewrite !length_app in Hl. rewrite !length_app, length_drop, !length_app. lia.
Qed.

Lemma open_into_spec b n aad p env out : sealed_as (key b) n aad p env ->
  (length p <= length out)%nat ->
  open_into b env aad out = Ret (p ++ drop (length p) out, Ok (length p)).
Proof.
  intros Hs Ho. destruct (open_in_place_spec b n aad p env Hs) as (junk & E & _).
  unfold open_into. rewrite (sealed_length _ _ _ _ _ Hs).
  rewrite (proj2 (Nat.ltb_ge _ _)) by lia.
  replace (NONCE_LEN + length p + TAG_LEN - NONCE_LEN - TAG_LEN)%nat with (length p) by lia.
  rewrite (proj2 (Nat.ltb_ge _ _) Ho), E. cbn [mbind exec_bind].
  rewrite slice_to_ok by (rewrite length_app; lia). cbn [mbind exec_bind].
  rewrite take_app_length. unfold copy_from_slice. by rewrite decide_True.
Qed.

Section InRing.
Context {Q : Type} `{BF : !BoundedFifo Q SecureBlock}.

Lemma decrypt_into_ring_spec N b n aad p env (ring : Q) l : sealed_as (key b) n aad p env ->
  (length env <= N)%nat -> Z.of_nat N < 2 ^ 32 ->
  fifo_rep ring l -> Z.of_nat (length l) < fifo_capacity ring ->
  exists ring' blk, decrypt_into_ring N b env aad ring = Ret (ring', Ok (length p)) /\
    fifo_rep ring' (l ++ [blk]) /\ Block.as_slice blk = Ret p /\ length (buf blk) = N.
Proof.
  intros Hs HN H32 Hr Hroom. pose proof (sealed_length _ _ _ _ _ Hs) as Hl.
  destruct (open_in_place_spec b n aad p env Hs) as (junk & E & Hj).
  unfold decrypt_into_ring. rewrite (proj2 (Nat.ltb_ge _ _) HN). cbn [Block.new buf].
  unfold copy_from_slice. rewrite decide_True by (rewrite length_replicate; lia).
  cbn [mbind exec_bind]. unfold splice. simpl take. simpl app.
  rewrite take_app_length, E, drop_app_length. cbn [mbind exec_bind].
  rewrite wrap_id by (unfold uint; lia).
  set (blk := {| buf := _; blen := _ |}).
  destruct (fifo_push_ok ring l blk Hr Hroom) as (ring' & Ep & Hr' & _). rewrite Ep.
  exists ring', blk. split; [done|]. split; [exact Hr'|]. unfold Block.as_slice, blk. cbn [buf blen].
  rewrite slice_to_ok, Nat2Z.id, <- app_assoc, take_app_length.
  - split; [done|]. rewrite app_assoc, length_app, Hj, length_drop, length_replicate. lia.
  - rewrite length_app, Hj. lia.
Qed.
End InRing.

(** ** Streams of sealed messages *)

Fixpoint seal_all b (msgs : list (list Z)) (aad : list Z) : exec (CryptoBox * list (list Z)) :=
  match msgs with
  | [] => Ret (b, [])
  | m :: msgs =>
      '(b, r) ← seal_to_vec b m aad;
      match r with
      | Err _ => Panic
      | Ok env => '(b, envs) ← seal_all b msgs aad; Ret (b, env :: envs)
      end
  end.

(** the box after [i] seals *)
Definition advanced b (i : nat) : CryptoBox :=
  {| key := key b; suite := suite b; ctr := wrap 64 (ctr b + Z.of_nat i); salt := salt b |}.

Lemma seal_all_spec b msgs aad : box_wf b -> Forall (fun m => msg_ok m aad) msgs ->
  exists b' envs, seal_all b msgs aad = Ret (b', envs) /\ length envs = length msgs /\
    forall i env, envs !! i = Some env -> exists m, msgs !! i = Some m /\
      sealed_as (key b) (nonce_of (advanced b i)) aad m env.
Proof.
  intros Hb Hm. revert b Hb. induction Hm as [|m msgs Hm _ IH]; intros b Hb; cbn [seal_all].
  - by eexists _, [].
  - destruct (seal_to_vec_spec b m aad Hb Hm) as (env & Hs & E). rewrite E. cbn [mbind exec_bind].
    destruct (IH _ (bumped_wf b Hb)) as (b' & envs & E' & Hlen & Hall). rewrite E'.
    eexists _, _. split; [done|]. split; [simpl; lia|].
    intros [|i] e Hi; cbn in Hi.
    + simplify_eq. exists m. split; [done|].
      replace (nonce_of (advanced b 0)) with (nonce_of b); [done|].
      unfold nonce_of, advanced. cbn. rewrite Z.add_0_r, wrap_id by apply Hb. done.
    + destruct (Hall i e Hi) as (m' & Hm' & Hs'). exists m'. split; [done|].
      replace (nonce_of (advanced b (S i))) with (nonce_of (advanced (bumped b) i)); [done|].
      unfold nonce_of, advanced, bumped. cbn [ctr salt]. do 2 f_equal.
      unfold wadd. rewrite wrap_add_l. f_equal. lia.
Qed.

Lemma nonce_advanced_inj b i j : Z.of_nat i < 2 ^ 64 -> Z.of_nat j < 2 ^ 64 ->
  nonce_of (advanced b i) = nonce_of (advanced b j) -> i = j.
Proof.
  unfold nonce_of, advanced. cbn [ctr salt]. intros Hi Hj E.
  apply app_inj_1 in E as [E _]; [|by rewrite !length_le_bytes].
  apply (f_equal le_val) in E.
  rewrite !(le_val_bytes_id 8) in E by (apply (wrap_uint 64); lia).
  apply wrap_inj in E; [|rewrite Z.abs_lt]; lia.
Qed.

End Envelopes.

(** ** Theorems *)

Section Theorems.
Context {Aes Cha : Type} `{AA : !AeadInPlace Aes} `{AC : !AeadInPlace Cha}.
Context {Q : Type} `{BF : !BoundedFifo Q SecureBlock}.

(** Sealing and opening are inverse on every path.  For a message the
    suites accept and a buffer with room for it and the overhead, [seal_into]
    returns, writes exactly the envelope and advances the nonce counter; a box
    holding the same key then recovers the message with [open_in_place],
    with [open_into] a large enough buffer, and with [decrypt_into_ring], which
    leaves a block reading as the message behind the ring's older entries. *)
Theorem seal_open_roundtrip (b b' : CryptoBox Aes Cha) p aad out out' N (ring : Q) l :
  box_wf b -> key b' = key b -> msg_ok p aad ->
  (length p + overhead b <= length out)%nat -> (length p <= length out')%nat ->
  (length p + overhead b <= N)%nat -> Z.of_nat N < 2 ^ 32 ->
  fifo_rep ring l -> Z.of_nat (length l) < fifo_capacity ring ->
  exists env,
    seal_into b p aad out = Ret (bumped b, env ++ drop (length env) out, Ok (length env)) /\
    length env = (length p + overhead b)%nat /\
    (exists junk, open_in_place b' env aad = Ret (p ++ junk, Ok (length p))) /\
    open_into b' env aad out' = Ret (p ++ drop (length p) out', Ok (length p)) /\
    exists ring' blk, decrypt_into_ring N b' env aad ring = Ret (ring', Ok (length p)) /\
      fifo_rep ring' (l ++ [blk]) /\ Block.as_slice blk = Ret p.
Proof.
  unfold overhead, Suite.overhead. intros Hb Hk Hm Ho Ho' HN H32 Hr Hroom.
  destruct (seal_into_spec b p aad out Hb Hm) as (env & Hs & E); [lia|].
  pose proof (sealed_length _ _ _ _ _ Hs) as Hl. rewrite <- Hk in Hs.
  exists env. split; [done|]. split; [lia|]. split_and!.
  - destruct (open_in_place_spec b' _ _ _ _ Hs) as (junk & Ej & _). eauto.
  - by eapply open_into_spec.
  - destruct (decrypt_into_ring_spec N b' _ _ _ _ ring l Hs) as (r' & blk & ? & ? & ? & _); eauto. lia.
Qed.

(** C13: No nonce is ever used twice by one box.  Sealing any sequence of
    accepted messages, up to [2^64] of them, produces one envelope per message;
    their nonces are pairwise different, and a box with the same key opens the
    [i]-th envelope to the [i]-th message. *)
Theorem nonces_never_repeat (b b' : CryptoBox Aes Cha) msgs aad :
  box_wf b -> key b' = key b -> Forall (fun m => msg_ok m aad) msgs ->
  Z.of_nat (length msgs) <= 2 ^ 64 ->
  exists b1 envs, seal_all b msgs aad = Ret (b1, envs) /\ length envs = length msgs /\
    NoDup (take NONCE_LEN <$> envs) /\
    forall i env m, envs !! i = Some env -> msgs !! i = Some m ->
      exists junk, open_in_place b' env aad = Ret (m ++ junk, Ok (length m)).
Proof.
  intros Hb Hk Hm Hc. destruct (seal_all_spec b msgs aad Hb Hm) as (b1 & envs & E & Hl & Hall).
  exists b1, envs. split_and!; [done..| |].
  - apply NoDup_alt. intros i j n Hi Hj. rewrite list_lookup_fmap in Hi, Hj.
    destruct (envs !! i) as [ei|] eqn:Ei; [|done]. destruct (envs !! j) as [ej|] eqn:Ej; [|done].
    destruct (Hall i ei Ei) as (mi & _ & Si). destruct (Hall j ej Ej) as (mj & _ & Sj).
    cbn [fmap option_fmap option_map] in Hi, Hj. rewrite (sealed_nonce _ _ _ _ _ Si) in Hi. rewrite (sealed_nonce _ _ _ _ _ Sj) in Hj.
    apply lookup_lt_Some in Ei, Ej. apply (nonce_advanced_inj b); [lia..|congruence].
  - intros i env m Hi Hmi. destruct (Hall i env Hi) as (m' & Hm' & Hs).
    assert (m' = m) as -> by congruence. rewrite <- Hk in Hs.
    destruct (open_in_place_spec b' _ _ _ _ Hs) as (junk & Ej & _). eauto.
Qed.

End Theorems.

(** ** A concrete suite and entropy source

    A cipher that reverses the message, with a checksum tag: it has no security,
    and shows that the assumptions on the AEAD traits hold together. *)

Module Toy.
Definition Key := list Z.
Definition tag (k : Key) (n aad p : list Z) : list Z :=
  le_bytes TAG_LEN (foldr Z.add 0 (k ++ n ++ aad ++ p)).
Definition new_key (bs : list Z) : option Key :=
  if decide (length bs = KEY_LEN) then Some bs else None.
Definition enc (k : Key) (n aad p : list Z) : list Z * option (list Z) :=
  (reverse p, Some (tag k n aad p)).
Definition dec (k : Key) (n aad c t : list Z) : list Z * bool :=
  (reverse c, bool_decide (tag k n aad (reverse c) = t)).
End Toy.

#[global] Program Instance toy_aead : AeadInPlace Toy.Key := {|
  new_from_slice := Toy.new_key;
  encrypt_in_place_detached := Toy.enc;
  decrypt_in_place_detached := Toy.dec |}.
Next Obligation. intros k. unfold Toy.new_key. case_decide; split; try done. Qed.
Next Obligation. intros. by eexists. Qed.
Next Obligation. intros. apply length_reverse. Qed.
Next Obligation. intros k n aad p t [= <-]. apply length_le_bytes. Qed.
Next Obligation. intros. by apply Forall_reverse. Qed.
Next Obligation. intros k n aad p t [= <-]. apply le_bytes_bytes. Qed.
Next Obligation. intros. apply length_reverse. Qed.
Next Obligation.
  intros k n aad p t [= <-]. unfold Toy.dec, Toy.enc. cbn [fst].
  rewrite reverse_involutive, bool_decide_eq_true_2 by done. done.
Qed.

#[global] Program Instance toy_entropy : Getrandom Z := {|
  getrandom n e := (e + 1, Some (replicate n (e mod 256))) |}.
Next Obligation. intros n e e' bs [= <- <-]. apply length_replicate. Qed.
Next Obligation.
  intros n e e' bs [= <- <-]. apply Forall_replicate. apply Z.mod_pos_bound. lia.
Qed.

Module Demo.
Definition box : CryptoBox Toy.Key Toy.Key :=
  {| key := InAes (replicate 32 7); suite := Aes256Gcm; ctr := 2 ^ 64 - 1; salt := [1; 2; 3; 4] |}.
Definition peer : CryptoBox Toy.Key Toy.Key :=
  {| key := InAes (replicate 32 7); suite := Aes256Gcm; ctr := 5; salt := [9; 9; 9; 9] |}.
Definition ring : Spsc.SpscRing SecureBlock := Spsc.with_capacity 2.
Lemma box_ok : box_wf box.
Proof. split; [done | vm_compute; split; congruence]. Qed.
End Demo.

Lemma seal_open_roundtrip_witness :
  exists env,
    seal_into Demo.box [10; 20; 30] [65] (replicate 40 0) =
      Ret (bumped Demo.box, env ++ drop (length env) (replicate 40 0), Ok (length env)) /\
    open_into Demo.peer env [65] (replicate 4 0) = Ret ([10; 20; 30; 0], Ok 3%nat).
Proof.
  destruct (seal_open_roundtrip Demo.box Demo.peer [10; 20; 30] [65] (replicate 40 0)
    (replicate 4 0) 64 Demo.ring []) as (env & E & _ & _ & Eo & _).
  - apply Demo.box_ok.
  - reflexivity.
  - split; vm_compute; congruence.
  - vm_compute; lia.
  - vm_compute; lia.
  - vm_compute; lia.
  - vm_compute; reflexivity.
  - apply Spsc.rep_with_capacity. lia.
  - vm_compute; reflexivity.
  - exists env. split; [exact E | exact Eo].
Defined.

Lemma nonces_never_repeat_witness :
  exists b1 envs, seal_all Demo.box [[1]; [2]; [3]] [65] = Ret (b1, envs) /\
    NoDup (take NONCE_LEN <$> envs).
Proof.
  destruct (nonces_never_repeat Demo.box Demo.peer [[1]; [2]; [3]] [65]) as (b1 & envs & E & _ & Hn & _).
  - apply Demo.box_ok.
  - reflexivity.
  - repeat constructor; vm_compute; congruence.
  - vm_compute; congruence.
  - exists b1, envs. split; [exact E | exact Hn].
Defined.
