(* ===== verification/Trust.v ===== *)
(** * Identity, sessions and authorisation: [tpt-t-sec]
      ([rbac.rs], [identity.rs], [session.rs], [zerotrust.rs])

    Roles and policies, signed attestations and their wire form, the two-message
    handshake that yields a session box on each side, and the broker that turns
    an attestation into an authorisation decision.  Ed25519, X25519 and HKDF are
    parameters (classes [Ed25519], [X25519], [HkdfSha256]). *)

From stdpp Require Import gmap strings pretty.
From S2P Require Import Prelude Text Reliable Mux Cipher.

(** ** Roles and policies (rbac.rs) *)

Inductive Role := Guest | Observer | Operator | Admin | AiAgent.
Inductive Permission :=
  ViewTelemetry | SendControl | EngageAutonomy | TakeManualControl | ManageFleet | AuditLog.

#[global] Instance Role_eq_dec : EqDecision Role.
Proof. solve_decision. Defined.
#[global] Instance Permission_eq_dec : EqDecision Permission.
Proof. solve_decision. Defined.

Definition role_ix (r : Role) : nat :=
  match r with Guest => 0 | Observer => 1 | Operator => 2 | Admin => 3 | AiAgent => 4 end.
Definition perm_ix (p : Permission) : nat :=
  match p with ViewTelemetry => 0 | SendControl => 1 | EngageAutonomy => 2
  | TakeManualControl => 3 | ManageFleet => 4 | AuditLog => 5 end.

#[global] Instance Role_countable : Countable Role.
Proof.
  refine (inj_countable role_ix (fun n => [Guest; Observer; Operator; Admin; AiAgent] !! n) _).
  by intros [].
Defined.
#[global] Instance Permission_countable : Countable Permission.
Proof.
  refine (inj_countable perm_ix (fun n => [ViewTelemetry; SendControl; EngageAutonomy;
    TakeManualControl; ManageFleet; AuditLog] !! n) _).
  by intros [].
Defined.

Record Principal := {
  pid : string; proles : gset Role; device_id : Z; authenticated : bool
}.

Module Principal.
Definition guest (id : string) : Principal :=
  {| pid := id; proles := ∅; device_id := 0; authenticated := false |}.
Definition has_role (p : Principal) (r : Role) : bool := bool_decide (r ∈ proles p).
End Principal.

Module Policy.
Record Policy := { grants : gmap Role (gset Permission) }.

Definition default : Policy :=
  let g : gmap Role (gset Permission) := ∅ in
  let g := <[Guest := ∅]> g in
  let g := <[Observer := {[ViewTelemetry; AuditLog]}]> g in
  let g := <[Operator := {[ViewTelemetry; SendControl; EngageAutonomy; TakeManualControl]}]> g in
  let g := <[AiAgent := {[ViewTelemetry; SendControl; EngageAutonomy]}]> g in
  let g := <[Admin := {[ViewTelemetry; SendControl; EngageAutonomy; TakeManualControl;
                        ManageFleet; AuditLog]}]> g in
  {| grants := g |}.

(** [entry(role).or_default().extend(perms)] *)
Definition grant (p : Policy) (role : Role) (perms : list Permission) : Policy :=
  {| grants := <[role := (grants p !!! role) ∪ list_to_set perms]> (grants p) |}.

Definition revoke_all (p : Policy) (role : Role) : Policy :=
  match grants p !! role with
  | Some _ => {| grants := <[role := ∅]> (grants p) |}
  | None => p
  end.

Definition role_has (p : Policy) (role : Role) (perm : Permission) : bool :=
  match grants p !! role with
  | Some s => bool_decide (perm ∈ s)
  | None => false
  end.

Definition authorize (p : Policy) (who : Principal) (perm : Permission) : bool :=
  if negb (authenticated who) then false
  else existsb (fun r => role_has p r perm) (elements (proles who)).
End Policy.

Definition dispatch_permission (tool : string) : option Permission :=
  if bool_decide (tool = "list_units") then Some ViewTelemetry
  else if bool_decide (tool = "get_telemetry") then Some ViewTelemetry
  else if bool_decide (tool = "assign_unit") then Some ManageFleet
  else if bool_decide (tool = "engage_autonomy") then Some EngageAutonomy
  else if bool_decide (tool = "take_manual_control") then Some TakeManualControl
  else if bool_decide (tool = "send_control") then Some SendControl
  else if bool_decide (tool = "manage_fleet") then Some ManageFleet
  else if bool_decide (tool = "read_audit") then Some AuditLog
  else None.

Definition authorize_dispatch (policy : Policy.Policy) (p : Principal) (tool : string) : bool :=
  match dispatch_permission tool with
  | Some perm => Policy.authorize policy p perm
  | None => false
  end.

(** ** Attestations (identity.rs) *)

Definition SIGNING_PUB_LEN : nat := 32.
Definition AGREEMENT_PUB_LEN : nat := 32.
Definition SIGNATURE_LEN : nat := 64.
Definition ATTESTATION_WIRE_LEN : nat := 8 + 1 + SIGNING_PUB_LEN + AGREEMENT_PUB_LEN + SIGNATURE_LEN.

Definition role_byte (r : Role) : Z :=
  match r with Guest => 0 | Observer => 1 | Operator => 2 | Admin => 3 | AiAgent => 4 end.
Definition role_from_byte (b : Z) : Role :=
  if b =? 0 then Guest else if b =? 1 then Observer else if b =? 2 then Operator
  else if b =? 3 then Admin else if b =? 4 then AiAgent else Guest.

(** What the code relies on of [ed25519_dalek]: keys from seeds, and that a
    key's own signatures verify. *)
Class Ed25519 := {
  SigningKey : Type;
  VerifyingKey : Type;
  signing_from : list Z -> SigningKey;
  verifying_key : SigningKey -> list Z;
  ed_sign : SigningKey -> list Z -> list Z;
  verifying_from : list Z -> option VerifyingKey;
  ed_verify : VerifyingKey -> list Z -> list Z -> bool;
  verifying_key_length k : length (verifying_key k) = SIGNING_PUB_LEN;
  ed_sign_length k m : length (ed_sign k m) = SIGNATURE_LEN;
  ed_sign_verify k m : exists v, verifying_from (verifying_key k) = Some v /\
    ed_verify v m (ed_sign k m) = true
}.

Record Attestation := {
  unit_id : Z; arole : Role; signing_pub : list Z; eph_pub : list Z; sig : list Z
}.

Definition signed_message (unit_id : Z) (role : Role) (eph_pub : list Z) : exec (list Z) :=
  let m := replicate 41 0 in
  m ← copy_from_slice m 0 (le_bytes 8 unit_id);
  m ← copy_from_slice m 8 [role_byte role];
  copy_from_slice m 9 eph_pub.

Definition att_to_bytes (a : Attestation) : exec (list Z) :=
  let b := replicate ATTESTATION_WIRE_LEN 0 in
  b ← copy_from_slice b 0 (le_bytes 8 (unit_id a));
  b ← copy_from_slice b 8 [role_byte (arole a)];
  b ← copy_from_slice b 9 (signing_pub a);
  let o := (9 + SIGNING_PUB_LEN)%nat in
  b ← copy_from_slice b o (eph_pub a);
  let o := (o + AGREEMENT_PUB_LEN)%nat in
  copy_from_slice b o (sig a).

Definition att_from_bytes (bs : list Z) : exec (result Attestation SecError) :=
  if (length bs <? ATTESTATION_WIRE_LEN)%nat then Ret (Err Serialize)
  else
    id ← range bs 0 8;
    rb ← index bs 8;
    sp ← range bs 9 SIGNING_PUB_LEN;
    let o := (9 + SIGNING_PUB_LEN)%nat in
    ep ← range bs o AGREEMENT_PUB_LEN;
    let o := (o + AGREEMENT_PUB_LEN)%nat in
    sg ← range bs o SIGNATURE_LEN;
    Ret (Ok {| unit_id := le_val id; arole := role_from_byte rb; signing_pub := sp;
               eph_pub := ep; sig := sg |}).

Section Signing.
Context `{ED : !Ed25519}.

Record DeviceIdentity := {
  di_unit : Z; di_role : Role; di_signing : SigningKey; di_pub : list Z
}.

Definition di_generate {E} `{!Getrandom E} (unit_id : Z) (role : Role) (e : E) :
    E * result DeviceIdentity SecError :=
  let '(e, seed) := getrandom 32 e in
  match seed with
  | None => (e, Err KeyGen)
  | Some seed =>
      let signing := signing_from seed in
      (e, Ok {| di_unit := unit_id; di_role := role; di_signing := signing;
                di_pub := verifying_key signing |})
  end.

Definition sign_message (i : DeviceIdentity) (msg : list Z) : list Z := ed_sign (di_signing i) msg.
Definition verify_message (i : DeviceIdentity) (msg sg : list Z) : bool :=
  match verifying_from (di_pub i) with
  | None => false
  | Some k => ed_verify k msg sg
  end.

Definition att_sign (i : DeviceIdentity) (eph : list Z) : exec (result Attestation SecError) :=
  msg ← signed_message (di_unit i) (di_role i) eph;
  Ret (Ok {| unit_id := di_unit i; arole := di_role i; signing_pub := di_pub i;
             eph_pub := eph; sig := ed_sign (di_signing i) msg |}).

Definition att_verify (a : Attestation) : exec bool :=
  msg ← signed_message (unit_id a) (arole a) (eph_pub a);
  match verifying_from (signing_pub a) with
  | None => Ret false
  | Some k => Ret (ed_verify k msg (sig a))
  end.

(** ** The broker (zerotrust.rs) *)

Record TrustStore := { keys : gmap Z (list Z); roles : gmap Z Role }.
Definition empty_store : TrustStore := {| keys := ∅; roles := ∅ |}.

Definition enroll (t : TrustStore) (u : Z) (pub : list Z) (r : Role) : TrustStore :=
  {| keys := <[u := pub]> (keys t); roles := <[u := r]> (roles t) |}.
Definition store_len (t : TrustStore) : nat := size (keys t).

Definition store_verify (t : TrustStore) (a : Attestation) : exec (result Role SecError) :=
  match keys t !! unit_id a with
  | None => Ret (Err UnknownUnit)
  | Some enrolled =>
      if negb (bool_decide (enrolled = signing_pub a)) then Ret (Err AttestationFailed)
      else
        ok ← att_verify a;
        if negb ok then Ret (Err AttestationFailed)
        else Ret (Ok (match roles t !! unit_id a with Some r => r | None => Guest end))
  end.

Record ZeroTrustBroker := { trust : TrustStore; policy : Policy.Policy }.
Definition with_trust (t : TrustStore) : ZeroTrustBroker :=
  {| trust := t; policy := Policy.default |}.

Definition authenticate (b : ZeroTrustBroker) (a : Attestation) : exec (result Principal SecError) :=
  r ← store_verify (trust b) a;
  match r with
  | Err e => Ret (Err e)
  | Ok role => Ret (Ok {| pid := "unit-" +:+ pretty (unit_id a); proles := {[role]};
                          device_id := unit_id a; authenticated := true |})
  end.

Definition broker_authorize (b : ZeroTrustBroker) (p : Principal) (perm : Permission) : bool :=
  Policy.authorize (policy b) p perm.
Definition broker_authorize_dispatch (b : ZeroTrustBroker) (p : Principal) (tool : string) : bool :=
  authorize_dispatch (policy b) p tool.

End Signing.
Arguments DeviceIdentity {_}.

(** ** Handshake (session.rs) *)

(** What the code relies on of [x25519_dalek]: the agreement commutes. *)
Class X25519 := {
  StaticSecret : Type;
  secret_from : list Z -> StaticSecret;
  public_of : StaticSecret -> list Z;
  diffie_hellman : StaticSecret -> list Z -> list Z;
  public_length s : length (public_of s) = AGREEMENT_PUB_LEN;
  dh_comm s1 s2 : diffie_hellman s1 (public_of s2) = diffie_hellman s2 (public_of s1)
}.

(** What it relies on of [hkdf]: an expansion of up to 255 digests succeeds. *)
Class HkdfSha256 := {
  hkdf_expand : list Z -> list Z -> nat -> option (list Z);
  hkdf_ok ikm info n : (n <= 255 * 32)%nat ->
    exists okm, hkdf_expand ikm info n = Some okm /\ length okm = n
}.

Definition HKDF_INFO : list Z := ascii_bytes "tpt-teleop-sec-v1".

Record HandshakeInit := { hi_att : Attestation; hi_suites : list CipherSuite }.
Record HandshakeResp := { hr_att : Attestation; hr_suite : CipherSuite }.

Section Handshake.
Context `{ED : !Ed25519} `{XD : !X25519} `{HK : !HkdfSha256}.
Context {Aes Cha : Type} `{AA : !AeadInPlace Aes} `{AC : !AeadInPlace Cha}.
Context {E : Type} `{GR : !Getrandom E}.

Record PendingHandshake := { ph_eph : StaticSecret }.
Record SecureSession := {
  peer_id : Z; peer_role : Role; crypto : CryptoBox Aes Cha; ss_suite : CipherSuite
}.

Definition session_seal (s : SecureSession) (plaintext aad : list Z) :
    exec (SecureSession * result (list Z) SecError) :=
  '(c, r) ← seal_to_vec (crypto s) plaintext aad;
  Ret ({| peer_id := peer_id s; peer_role := peer_role s; crypto := c; ss_suite := ss_suite s |}, r).
Definition session_open (s : SecureSession) (sealed aad out : list Z) :=
  open_into (crypto s) sealed aad out.
Definition session_open_in_place (s : SecureSession) (buf aad : list Z) :=
  open_in_place (crypto s) buf aad.

Definition generate_eph (e : E) : E * result (StaticSecret * list Z) SecError :=
  let '(e, seed) := getrandom 32 e in
  match seed with
  | None => (e, Err KeyGen)
  | Some seed => let eph := secret_from seed in (e, Ok (eph, public_of eph))
  end.

Definition derive_shared (our_eph : StaticSecret) (peer_pub : list Z) : list Z :=
  diffie_hellman our_eph peer_pub.

Definition derive_key (shared : list Z) (s : CipherSuite) (e : E) :
    exec (E * result (CryptoBox Aes Cha) SecError) :=
  match hkdf_expand shared HKDF_INFO 32 with
  | None => Panic
  | Some key => from_kdf s key e
  end.

Definition begin_handshake (i : DeviceIdentity) (suites : list CipherSuite) (e : E) :
    exec (E * result (HandshakeInit * PendingHandshake) SecError) :=
  let '(e, g) := generate_eph e in
  match g with
  | Err err => Ret (e, Err err)
  | Ok (eph, eph_pub) =>
      a ← att_sign i eph_pub;
      match a with
      | Err err => Ret (e, Err err)
      | Ok att => Ret (e, Ok ({| hi_att := att; hi_suites := suites |}, {| ph_eph := eph |}))
      end
  end.

Definition respond_handshake (i : DeviceIdentity) (init : HandshakeInit)
    (our_suites : list CipherSuite) (e : E) :
    exec (E * result (HandshakeResp * SecureSession) SecError) :=
  ok ← att_verify (hi_att init);
  if negb ok then Ret (e, Err AttestationFailed)
  else
    let '(e, g) := generate_eph e in
    match g with
    | Err err => Ret (e, Err err)
    | Ok (eph, our_pub) =>
        let shared := derive_shared eph (eph_pub (hi_att init)) in
        match Suite.negotiate our_suites (hi_suites init) with
        | None => Ret (e, Err HandshakeNoSuite)
        | Some s =>
            '(e, k) ← derive_key shared s e;
            match k with
            | Err err => Ret (e, Err err)
            | Ok c =>
                a ← att_sign i our_pub;
                match a with
                | Err err => Ret (e, Err err)
                | Ok att =>
                    Ret (e, Ok ({| hr_att := att; hr_suite := s |},
                      {| peer_id := unit_id (hi_att init); peer_role := arole (hi_att init);
                         crypto := c; ss_suite := s |}))
                end
            end
        end
    end.

Definition finish_handshake (_identity : DeviceIdentity) (pending : PendingHandshake)
    (resp : HandshakeResp) (e : E) : exec (E * result SecureSession SecError) :=
  ok ← att_verify (hr_att resp);
  if negb ok then Ret (e, Err AttestationFailed)
  else
    let shared := derive_shared (ph_eph pending) (eph_pub (hr_att resp)) in
    '(e, k) ← derive_key shared (hr_suite resp) e;
    match k with
    | Err err => Ret (e, Err err)
    | Ok c => Ret (e, Ok {| peer_id := unit_id (hr_att resp); peer_role := arole (hr_att resp);
                            crypto := c; ss_suite := hr_suite resp |})
    end.

End Handshake.
Arguments SecureSession : clear implicits.

(** ** Attestations on the wire and under the signature *)

Record att_wf (a : Attestation) : Prop := {
  aw_unit : uint 64 (unit_id a);
  aw_pub : length (signing_pub a) = SIGNING_PUB_LEN;
  aw_eph : length (eph_pub a) = AGREEMENT_PUB_LEN;
  aw_sig : length (sig a) = SIGNATURE_LEN
}.

Definition message_of (u : Z) (r : Role) (eph : list Z) : list Z := le_bytes 8 u ++ [role_byte r] ++ eph.

Lemma signed_message_spec u r eph : length eph = AGREEMENT_PUB_LEN ->
  signed_message u r eph = Ret (message_of u r eph).
Proof.
  intros He. unfold signed_message, message_of.
  rewrite copy_zeros_0 by (rewrite length_le_bytes; lia).
  cbn [mbind exec_bind]. rewrite copy_zeros by (autorewrite with len; simpl; lia).
  cbn [mbind exec_bind]. rewrite copy_zeros.
  - rewrite He, length_le_bytes. cbn [app length]. rewrite app_nil_r. by rewrite <- app_assoc.
  - autorewrite with len. simpl. lia.
  - rewrite He, length_le_bytes. unfold AGREEMENT_PUB_LEN. simpl. lia.
Qed.

Definition att_wire (a : Attestation) : list Z :=
  le_bytes 8 (unit_id a) ++ [role_byte (arole a)] ++ signing_pub a ++ eph_pub a ++ sig a.

Lemma att_to_bytes_spec a : att_wf a -> att_to_bytes a = Ret (att_wire a).
Proof.
  intros [_ Hp He Hs]. unfold att_to_bytes, att_wire, ATTESTATION_WIRE_LEN,
    SIGNING_PUB_LEN, AGREEMENT_PUB_LEN, SIGNATURE_LEN in *.
  rewrite copy_zeros_0 by (rewrite length_le_bytes; lia).
  cbn [mbind exec_bind]. rewrite length_le_bytes.
  rewrite copy_zeros by (autorewrite with len; simpl; lia).
  do 3 (cbn [mbind exec_bind]; rewrite copy_zeros; rewrite ?length_app, ?length_le_bytes, ?Hp, ?He, ?Hs;
    cbn [length app]; try lia).
  replace (_ - _)%nat with 0%nat by lia. cbn [replicate]. rewrite app_nil_r.
  by rewrite <- !app_assoc.
Qed.

Lemma role_from_role_byte r : role_from_byte (role_byte r) = r.
Proof. by destruct r. Qed.

Lemma length_att_wire a : att_wf a -> length (att_wire a) = ATTESTATION_WIRE_LEN.
Proof.
  intros [_ Hp He Hs]. unfold att_wire. rewrite !length_app, length_le_bytes, Hp, He, Hs. done.
Qed.

Lemma att_from_wire u rb sp ep sg rest : length sp = SIGNING_PUB_LEN ->
  length ep = AGREEMENT_PUB_LEN -> length sg = SIGNATURE_LEN ->
  length u = 8%nat ->
  att_from_bytes (u ++ [rb] ++ sp ++ ep ++ sg ++ rest) =
    Ret (Ok {| unit_id := le_val u; arole := role_from_byte rb; signing_pub := sp;
               eph_pub := ep; sig := sg |}).
Proof.
  intros Hp He Hs Hu. unfold att_from_bytes. rewrite (proj2 (Nat.ltb_ge _ _)).
  2:{ rewrite !length_app, Hp, He, Hs, Hu. unfold ATTESTATION_WIRE_LEN. cbn [length]. lia. }
  pose proof (range_mid [] u ([rb] ++ sp ++ ep ++ sg ++ rest) 0 8 eq_refl (eq_sym Hu)) as E.
  cbn [app] in E |- *. rewrite E. cbn [mbind exec_bind].
  rewrite (index_ok _ _ rb) by (by apply list_lookup_middle). cbn [mbind exec_bind].
  assert (R : forall z s, u ++ z :: s = (u ++ [z]) ++ s) by (intros; by rewrite <- app_assoc).
  rewrite R, (range_mid (u ++ [rb]) sp _ 9) by (rewrite ?length_app, ?Hu; done).
  cbn [mbind exec_bind]. rewrite (app_assoc (u ++ [rb])), (range_mid _ ep _ (9 + SIGNING_PUB_LEN)).
  2:{ rewrite !length_app, Hu, Hp. done. } 2:done.
  cbn [mbind exec_bind]. rewrite (app_assoc _ ep), (range_mid _ sg).
  2:{ rewrite !length_app, Hu, Hp, He. done. } 2:done.
  done.
Qed.

Lemma att_from_bytes_total bs : bytes bs -> (ATTESTATION_WIRE_LEN <= length bs)%nat ->
  exists a rb, att_from_bytes bs = Ret (Ok a) /\ att_wf a /\ bs !! 8%nat = Some rb /\
    (rb <= 4 -> att_to_bytes a = Ret (take ATTESTATION_WIRE_LEN bs)) /\
    (4 < rb -> arole a = Guest).
Proof.
  intros Hb Hl. unfold ATTESTATION_WIRE_LEN, SIGNING_PUB_LEN, AGREEMENT_PUB_LEN, SIGNATURE_LEN in Hl.
  destruct (lookup_lt_is_Some_2 bs 8) as [rb Hrb]; [lia|].
  set (u := take 8 bs). set (sp := take 32 (drop 9 bs)). set (ep := take 32 (drop 32 (drop 9 bs))).
  set (sg := take 64 (drop 32 (drop 32 (drop 9 bs)))). set (rest := drop 64 (drop 32 (drop 32 (drop 9 bs)))).
  assert (Hbs : bs = u ++ [rb] ++ sp ++ ep ++ sg ++ rest).
  { subst u sp ep sg rest. rewrite !take_drop. symmetry. by apply take_drop_middle. }
  assert (length u = 8 /\ length sp = 32 /\ length ep = 32 /\ length sg = 64)%nat as (Hu & Hsp & Hep & Hsg)
    by (subst u sp ep sg; autorewrite with len; lia).
  assert (Hub : bytes u) by apply Forall_take, Hb.
  assert (Hrbb : byte rb) by exact (Forall_lookup_1 _ _ _ _ Hb Hrb).
  clearbody u sp ep sg rest. rewrite Hbs. eexists _, rb.
  rewrite att_from_wire by done. split; [done|].
  pose proof (le_val_uint u Hub) as Hui. rewrite Hu in Hui.
  assert (Hw : att_wf {| unit_id := le_val u; arole := role_from_byte rb; signing_pub := sp;
    eph_pub := ep; sig := sg |}) by (split; done).
  split; [done|]. split; [rewrite <- Hu; by apply list_lookup_middle|]. split.
  + intros Hle. rewrite att_to_bytes_spec by done. f_equal.
    assert (Hr : role_byte (role_from_byte rb) = rb).
    { assert (0 <= rb) by apply Hrbb. assert (rb = 0 \/ rb = 1 \/ rb = 2 \/ rb = 3 \/ rb = 4) by lia.
      by destruct_or!; subst. }
    unfold att_wire. cbn [unit_id arole signing_pub eph_pub sig]. rewrite Hr, <- Hu, le_bytes_val by done.
    replace (u ++ [rb] ++ sp ++ ep ++ sg ++ rest) with ((u ++ [rb] ++ sp ++ ep ++ sg) ++ rest)
      by (by rewrite <- !app_assoc).
    symmetry. apply take_app_length'. rewrite !length_app, Hu, Hsp, Hep, Hsg. done.
  + intros Hlt. cbn. unfold role_from_byte. repeat (case_if; [zbool; lia|]). done.
Qed.

Section Broker.
Context `{ED : !Ed25519}.

(** the attestation's signature is valid under the key it carries *)
Definition sig_valid (a : Attestation) : bool :=
  match verifying_from (signing_pub a) with
  | None => false
  | Some k => ed_verify k (message_of (unit_id a) (arole a) (eph_pub a)) (sig a)
  end.

Lemma att_verify_spec a : length (eph_pub a) = AGREEMENT_PUB_LEN ->
  att_verify a = Ret (sig_valid a).
Proof.
  intros He. unfold att_verify, sig_valid. rewrite signed_message_spec by done.
  cbn [mbind exec_bind]. by case_match.
Qed.

Definition di_wf (i : DeviceIdentity) : Prop :=
  uint 64 (di_unit i) /\ di_pub i = verifying_key (di_signing i).

(** the attestation [att_sign] returns *)
Definition attestation_of (i : DeviceIdentity) (eph : list Z) : Attestation :=
  {| unit_id := di_unit i; arole := di_role i; signing_pub := di_pub i; eph_pub := eph;
     sig := ed_sign (di_signing i) (message_of (di_unit i) (di_role i) eph) |}.

Lemma att_sign_spec i eph : length eph = AGREEMENT_PUB_LEN ->
  att_sign i eph = Ret (Ok (attestation_of i eph)).
Proof. intros. unfold att_sign. by rewrite signed_message_spec. Qed.

Lemma attestation_of_valid i eph : di_wf i -> length eph = AGREEMENT_PUB_LEN ->
  sig_valid (attestation_of i eph) = true /\ att_wf (attestation_of i eph).
Proof.
  intros [Hu Hk] He. split.
  - unfold sig_valid. cbn [attestation_of signing_pub unit_id arole eph_pub sig]. rewrite Hk.
    destruct (ed_sign_verify (di_signing i) (message_of (di_unit i) (di_role i) eph)) as (v & -> & ->).
    done.
  - split; cbn; [done| |done|apply ed_sign_length]. rewrite Hk. apply verifying_key_length.
Qed.

(** ** The trust store as a history of enrolments *)

Definition enrolment : Type := Z * list Z * Role.
Definition store_of (h : list enrolment) : TrustStore :=
  foldl (fun t '(u, pub, r) => enroll t u pub r) empty_store h.
Definition standing (h : list enrolment) (u : Z) : option enrolment :=
  last (filter (fun e => e.1.1 = u) h).

Lemma store_of_lookup h u :
  keys (store_of h) !! u = (fun e => e.1.2) <$> standing h u /\
  roles (store_of h) !! u = (fun e => e.2) <$> standing h u.
Proof.
  induction h as [|[[u' pub] r] h [IHk IHr]] using rev_ind; [done|].
  unfold store_of, standing in *. rewrite foldl_app, filter_app. cbn [foldl enroll keys roles].
  destruct (decide (u' = u)) as [->|Hne].
  - rewrite filter_cons_True, filter_nil, last_snoc by done.
    by rewrite !lookup_insert_eq.
  - rewrite filter_cons_False, filter_nil, app_nil_r by done.
    rewrite !lookup_insert_ne by done. done.
Qed.

Lemma store_verify_spec h a : att_wf a ->
  store_verify (store_of h) a = Ret
    (match standing h (unit_id a) with
     | None => Err UnknownUnit
     | Some (_, pub, r) =>
         if bool_decide (pub = signing_pub a) && sig_valid a then Ok r else Err AttestationFailed
     end).
Proof.
  intros Hw. unfold store_verify. destruct (store_of_lookup h (unit_id a)) as [-> ->].
  destruct (standing h (unit_id a)) as [[[u pub] r]|]; [|done]. cbn [fmap option_fmap option_map fst snd].
  destruct (bool_decide _); cbn [negb andb]; [|done].
  rewrite att_verify_spec by apply Hw. cbn [mbind exec_bind]. by destruct (sig_valid a).
Qed.
End Broker.

(** ** Theorems on attestations and authorisation *)

(** The attestation wire form is lossless and its parser total.
    Serialising an attestation gives 137 bytes from which the parser recovers
    it, whatever follows; a shorter buffer is refused with [Serialize]; and any
    longer one parses to a well-formed attestation that serialises back to the
    same bytes when its role byte is a known one, and claims [Guest] otherwise. *)
Theorem attestation_roundtrip :
  (forall a rest, att_wf a -> exists w, att_to_bytes a = Ret w /\ length w = ATTESTATION_WIRE_LEN /\
     att_from_bytes (w ++ rest) = Ret (Ok a)) /\
  (forall bs, (length bs < ATTESTATION_WIRE_LEN)%nat -> att_from_bytes bs = Ret (Err Serialize)) /\
  (forall bs, bytes bs -> (ATTESTATION_WIRE_LEN <= length bs)%nat ->
     exists a rb, att_from_bytes bs = Ret (Ok a) /\ att_wf a /\ bs !! 8%nat = Some rb /\
       (rb <= 4 -> att_to_bytes a = Ret (take ATTESTATION_WIRE_LEN bs)) /\
       (4 < rb -> arole a = Guest)).
Proof.
  split_and!.
  - intros a rest Hw. exists (att_wire a). rewrite att_to_bytes_spec, length_att_wire by done.
    split_and!; [done..|]. destruct Hw as [Hu Hp He Hs]. unfold att_wire. rewrite <- !app_assoc.
    rewrite att_from_wire by (rewrite ?length_le_bytes; done).
    rewrite (le_val_bytes_id 8) by done. rewrite role_from_role_byte. by destruct a.
  - intros bs Hl. unfold att_from_bytes. by rewrite (proj2 (Nat.ltb_lt _ _) Hl).
  - apply att_from_bytes_total.
Qed.

(** Granting adds to what a role holds and takes nothing away, from any role;
    revoking empties one role and touches no other. *)
Theorem grant_extends p role perms r q :
  Policy.role_has (Policy.grant p role perms) r q =
    Policy.role_has p r q || (bool_decide (r = role) && bool_decide (q ∈ perms)) /\
  Policy.role_has (Policy.revoke_all p role) r q = Policy.role_has p r q && negb (bool_decide (r = role)).
Proof.
  unfold Policy.role_has, Policy.grant, Policy.revoke_all. cbn [Policy.grants].
  destruct (decide (r = role)) as [->|Hne].
  - rewrite lookup_insert_eq, lookup_total_alt, (bool_decide_eq_true_2 (role = role)) by done. cbn [andb negb].
    rewrite andb_false_r. destruct (Policy.grants p !! role) as [s|] eqn:E; cbn [default Policy.grants].
    + rewrite lookup_insert_eq. cbn. split; [|by apply bool_decide_eq_false_2; set_solver].
      rewrite <- bool_decide_or. apply bool_decide_ext. set_solver.
    + rewrite E. split; [|done]. apply bool_decide_ext. cbn. set_solver.
  - rewrite lookup_insert_ne, (bool_decide_eq_false_2 (r = role)) by done. cbn [andb negb].
    rewrite orb_false_r, andb_true_r. split; [done|].
    destruct (Policy.grants p !! role); cbn [Policy.grants]; rewrite ?lookup_insert_ne by done; done.
Qed.

Section Decisions.
Context `{ED : !Ed25519}.

Lemma authorize_one pol r u d perm :
  Policy.authorize pol {| pid := u; proles := {[r]}; device_id := d; authenticated := true |} perm =
    Policy.role_has pol r perm.
Proof. unfold Policy.authorize. cbn. rewrite elements_singleton. cbn. by rewrite orb_false_r. Qed.

(** C10: The broker admits exactly what enrolment, signature and policy allow.
    After any history of enrolments, authenticating an attestation returns a
    verdict, and the resulting principal may call a tool if and only if the
    unit's latest enrolment holds the key the attestation carries, the signature
    over unit, claimed role and ephemeral key is valid under it, the tool is a
    known one, and the policy gives its permission to the enrolled role.  The
    role the attestation claims has no say. *)
Theorem zero_trust_decision h pol a tool :
  att_wf a ->
  let b := {| trust := store_of h; policy := pol |} in
  exists r, authenticate b a = Ret r /\
    ((exists p, r = Ok p /\ broker_authorize_dispatch b p tool = true) <->
     (exists pub role perm, standing h (unit_id a) = Some (unit_id a, pub, role) /\
        pub = signing_pub a /\ sig_valid a = true /\
        dispatch_permission tool = Some perm /\ Policy.role_has pol role perm = true)).
Proof.
  intros Hw b. unfold authenticate. subst b. cbn [trust]. rewrite store_verify_spec by done.
  cbn [mbind exec_bind]. destruct (standing h (unit_id a)) as [[[u pub] role]|] eqn:Hst.
  2:{ eexists. split; [done|]. naive_solver. }
  assert (u = unit_id a) as ->.
  { apply last_Some_elem_of, list_elem_of_filter in Hst as [? _]. done. }
  destruct (bool_decide_reflect (pub = signing_pub a)) as [->|Hne]; cbn [andb].
  2:{ eexists. split; [done|]. naive_solver. }
  destruct (sig_valid a); [|eexists; split; [done|]; naive_solver].
  eexists. split; [done|]. unfold broker_authorize_dispatch, authorize_dispatch. cbn [policy].
  split.
  - intros (p & [= <-] & Hd). destruct (dispatch_permission tool) as [perm|]; [|done].
    rewrite authorize_one in Hd. naive_solver.
  - intros (pub & role' & perm & [= <- <-] & _ & _ & -> & Hr). eexists. split; [done|].
    by rewrite authorize_one.
Qed.

End Decisions.

(** ** Theorems on the handshake *)

Lemma negotiate_spec ours theirs :
  match Suite.negotiate ours theirs with
  | Some s => exists l1 l2, ours = l1 ++ s :: l2 /\ s ∈ theirs /\ forall x, x ∈ l1 -> x ∉ theirs
  | None => forall x, x ∈ ours -> x ∉ theirs
  end.
Proof.
  induction ours as [|s ours IH]; cbn [Suite.negotiate]; [intros x Hx; by apply not_elem_of_nil in Hx|].
  destruct (bool_decide_reflect (s ∈ theirs)) as [Hs|Hs].
  - exists [], ours. split_and!; [done..|]. intros x Hx. by apply not_elem_of_nil in Hx.
  - destruct (Suite.negotiate ours theirs) as [s'|].
    + destruct IH as (l1 & l2 & -> & Hin & Hbefore). exists (s :: l1), l2. split_and!; [done..|].
      intros x [->|Hx]%elem_of_cons; auto.
    + intros x [->|Hx]%elem_of_cons; auto.
Qed.

Section Agreement.
Context `{ED : !Ed25519} `{XD : !X25519} `{HK : !HkdfSha256}.
Context {Aes Cha : Type} `{AA : !AeadInPlace Aes} `{AC : !AeadInPlace Cha}.
Context {E : Type} `{GR : !Getrandom E}.
Implicit Types (e : E) (i r : DeviceIdentity).

Local Abbreviation session := (SecureSession Aes Cha).

(** the system's entropy source answers *)
Definition entropy_ready : Prop := forall n e, is_Some (getrandom n e).2.

Lemma build_inner_ok s k : length k = KEY_LEN -> exists inner : Inner Aes Cha, build_inner s k = Ok inner.
Proof.
  intros Hk. unfold build_inner. destruct s.
  - destruct (proj2 (new_from_slice_len (K := Aes) k) Hk) as [c ->]. eauto.
  - destruct (proj2 (new_from_slice_len (K := Cha) k) Hk) as [c ->]. eauto.
Qed.

(** the key both ends expand from a shared secret *)
Definition session_key (shared : list Z) (s : CipherSuite) (k : Inner Aes Cha) : Prop :=
  exists okm, hkdf_expand shared HKDF_INFO 32 = Some okm /\ build_inner s okm = Ok k.

Lemma session_key_fun shared s k1 k2 : session_key shared s k1 -> session_key shared s k2 -> k1 = k2.
Proof. intros (o1 & E1 & B1) (o2 & E2 & B2). congruence. Qed.

Lemma derive_key_spec shared s e : entropy_ready ->
  exists e' b, derive_key shared s e = Ret (e', Ok b) /\ session_key shared s (key b) /\
    suite b = s /\ ctr b = 0 /\ (getrandom 4 e).2 = Some (salt b) /\ box_wf b.
Proof.
  intros Hr. unfold derive_key, from_kdf, session_key.
  destruct (hkdf_ok shared HKDF_INFO 32) as (okm & -> & Hl); [lia|].
  destruct (build_inner_ok s okm Hl) as [inner Hi]. rewrite Hi.
  destruct (getrandom 4 e) as [e' o] eqn:Eg. destruct (Hr 4%nat e) as [sl Hs]. rewrite Eg in Hs. cbn in Hs.
  subst o. eexists _, _. split; [done|]. cbn [key suite ctr salt]. split_and!; try done; [by exists okm|].
  split; cbn; [by eapply getrandom_length | split; lia].
Qed.

Lemma generate_eph_spec e : entropy_ready ->
  exists e' x, generate_eph e = (e', Ok (x, public_of x)).
Proof.
  intros Hr. unfold generate_eph. destruct (getrandom 32 e) as [e' o] eqn:Eg.
  destruct (Hr 32%nat e) as [sd Hs]. rewrite Eg in Hs. cbn in Hs. subst o. eauto.
Qed.

Lemma begin_spec i suites e : entropy_ready ->
  exists e' x, begin_handshake i suites e =
    Ret (e', Ok ({| hi_att := attestation_of i (public_of x); hi_suites := suites |}, {| ph_eph := x |})).
Proof.
  intros Hr. unfold begin_handshake. destruct (generate_eph_spec e Hr) as (e' & x & ->).
  rewrite att_sign_spec by apply public_length. eauto.
Qed.

(** the responder's answer to any valid first message *)
Lemma respond_spec r init ours s e : entropy_ready -> sig_valid (hi_att init) = true ->
  length (eph_pub (hi_att init)) = AGREEMENT_PUB_LEN -> Suite.negotiate ours (hi_suites init) = Some s ->
  exists e1 e' y b, respond_handshake r init ours e =
      Ret (e', Ok ({| hr_att := attestation_of r (public_of y); hr_suite := s |},
        {| peer_id := unit_id (hi_att init); peer_role := arole (hi_att init);
           crypto := b; ss_suite := s |} : session)) /\
    session_key (diffie_hellman y (eph_pub (hi_att init))) s (key b) /\ box_wf b /\ ctr b = 0 /\
    (getrandom 4 e1).2 = Some (salt b).
Proof.
  intros Hr Hv Hl Hn. unfold respond_handshake. rewrite att_verify_spec, Hv by done.
  cbn [mbind exec_bind negb]. destruct (generate_eph_spec e Hr) as (e1 & y & ->). rewrite Hn.
  destruct (derive_key_spec (derive_shared y (eph_pub (hi_att init))) s e1 Hr) as (e' & b & -> & Hk & _ & Hc & Hs & Hw).
  cbn [mbind exec_bind]. rewrite att_sign_spec by apply public_length. cbn [mbind exec_bind].
  exists e1, e', y, b. split; [done|]. done.
Qed.

Lemma finish_spec i x resp e : entropy_ready -> sig_valid (hr_att resp) = true ->
  length (eph_pub (hr_att resp)) = AGREEMENT_PUB_LEN ->
  exists e' b, finish_handshake i {| ph_eph := x |} resp e =
      Ret (e', Ok ({| peer_id := unit_id (hr_att resp); peer_role := arole (hr_att resp);
           crypto := b; ss_suite := hr_suite resp |} : session)) /\
    session_key (diffie_hellman x (eph_pub (hr_att resp))) (hr_suite resp) (key b) /\ box_wf b /\
    ctr b = 0 /\ (getrandom 4 e).2 = Some (salt b).
Proof.
  intros Hr Hv Hl. unfold finish_handshake. rewrite att_verify_spec, Hv by done.
  cbn [mbind exec_bind negb ph_eph].
  destruct (derive_key_spec (derive_shared x (eph_pub (hr_att resp))) (hr_suite resp) e Hr)
    as (e' & b & -> & Hk & _ & Hc & Hs & Hw).
  cbn [mbind exec_bind]. exists e', b. done.
Qed.

(** [t] opens what [s] seals: any accepted message, into any large enough buffer *)
Definition delivers (s t : session) : Prop :=
  forall p aad out, msg_ok p aad -> (length p <= length out)%nat ->
    exists s' env, session_seal s p aad = Ret (s', Ok env) /\
      session_open t env aad out = Ret (p ++ drop (length p) out, Ok (length p)).

Lemma same_key_delivers (s t : session) : box_wf (crypto s) -> key (crypto s) = key (crypto t) ->
  delivers s t.
Proof.
  intros Hw Hk p aad out Hm Ho. unfold session_seal.
  destruct (seal_to_vec_spec (crypto s) p aad Hw Hm) as (env & Hs & ->). cbn [mbind exec_bind].
  rewrite Hk in Hs. eexists _, env. split; [done|]. by eapply open_into_spec.
Qed.

(** C11: An undisturbed handshake agrees.  For any two provisioned
    identities, suite lists with a common entry and entropy sources that answer,
    the three steps all succeed; both ends run the same suite, which is the
    responder's first entry the initiator offered; each session names the other
    unit and role; the two boxes hold the same key; and every message sealed at
    either end opens at the other.  Without a common suite the responder
    reports the handshake error. *)
Theorem handshake_agreement i r (theirs ours : list CipherSuite) e1 e2 :
  entropy_ready -> di_wf i -> di_wf r ->
  exists e1' init pend, begin_handshake i theirs e1 = Ret (e1', Ok (init, pend)) /\
  match Suite.negotiate ours theirs with
  | None => (forall x, x ∈ ours -> x ∉ theirs) /\
      exists e2', respond_handshake (Aes := Aes) (Cha := Cha) r init ours e2 = Ret (e2', Err HandshakeNoSuite)
  | Some s => (exists l1 l2, ours = l1 ++ s :: l2 /\ s ∈ theirs /\ forall x, x ∈ l1 -> x ∉ theirs) /\
      exists e2' resp (sr : session) e1'' (si : session),
        respond_handshake r init ours e2 = Ret (e2', Ok (resp, sr)) /\
        finish_handshake i pend resp e1' = Ret (e1'', Ok si) /\
        ss_suite si = s /\ ss_suite sr = s /\
        peer_id sr = di_unit i /\ peer_role sr = di_role i /\
        peer_id si = di_unit r /\ peer_role si = di_role r /\
        key (crypto si) = key (crypto sr) /\ delivers si sr /\ delivers sr si
  end.
Proof.
  intros Hr Hi Hd. destruct (begin_spec i theirs e1 Hr) as (e1' & x & Eb).
  eexists _, _, _. split; [exact Eb|]. pose proof (negotiate_spec ours theirs) as Hn.
  destruct (attestation_of_valid i (public_of x) Hi (public_length x)) as [Hv _].
  destruct (Suite.negotiate ours theirs) as [s|] eqn:En; (split; [done|]).
  - set (init := {| hi_att := attestation_of i (public_of x); hi_suites := theirs |}).
    destruct (respond_spec r init ours s e2 Hr Hv (public_length x) En)
      as (ee & e2' & y & b & Er & Hk & Hw & _).
    destruct (attestation_of_valid r (public_of y) Hd (public_length y)) as [Hv' _].
    destruct (finish_spec i x {| hr_att := attestation_of r (public_of y); hr_suite := s |} e1' Hr Hv'
      (public_length y)) as (e1'' & b' & Ef & Hk' & Hw' & _).
    cbn [eph_pub hi_att hr_att hr_suite attestation_of init] in Hk, Hk'. rewrite dh_comm in Hk'.
    pose proof (session_key_fun _ _ _ _ Hk' Hk) as Hkk.
    eexists _, _, _, _, _. split; [exact Er|]. split; [exact Ef|].
    split_and!; try done; by apply same_key_delivers.
  - unfold respond_handshake. cbn [hi_att hi_suites]. rewrite att_verify_spec, Hv by apply public_length.
    cbn [mbind exec_bind negb]. destruct (generate_eph_spec e2 Hr) as (e2' & y & ->). rewrite En. by eexists.
Qed.

(** A handshake vouches for nobody: whoever holds some signing key opens a
    session under any unit id and role it cares to claim, although the trust
    store, which has another key for that unit, refuses its attestation. *)
Theorem session_role_self_asserted i r h u pub role ours s e1 e2 :
  entropy_ready -> di_wf i -> standing h (di_unit i) = Some (u, pub, role) -> pub <> di_pub i ->
  Suite.negotiate ours Suite.all = Some s ->
  exists e1' init pend e2' resp (sr : session),
    begin_handshake i Suite.all e1 = Ret (e1', Ok (init, pend)) /\
    respond_handshake r init ours e2 = Ret (e2', Ok (resp, sr)) /\
    peer_id sr = di_unit i /\ peer_role sr = di_role i /\
    store_verify (store_of h) (hi_att init) = Ret (Err AttestationFailed).
Proof.
  intros Hr Hi Hst Hne Hn. destruct (begin_spec i Suite.all e1 Hr) as (e1' & x & Eb).
  destruct (attestation_of_valid i (public_of x) Hi (public_length x)) as [Hv Hw].
  destruct (respond_spec r {| hi_att := attestation_of i (public_of x); hi_suites := Suite.all |} ours s e2 Hr Hv
    (public_length x) Hn) as (ee & e2' & y & b & Er & _).
  eexists _, _, _, _, _, _. split; [exact Eb|]. split; [exact Er|]. split_and!; [done..|].
  cbn [hi_att]. rewrite store_verify_spec by done. cbn [unit_id attestation_of]. rewrite Hst.
  rewrite bool_decide_eq_false_2 by done. done.
Qed.

(** Both ends of a session seal under one key with counters that start at
    zero: when the two random salts agree, the [n]-th messages of the two
    directions are sealed under the same key and the same nonce. *)
Theorem peer_nonce_collision (s t : session) shared su m1 m2 aad n :
  session_key shared su (key (crypto s)) -> session_key shared su (key (crypto t)) ->
  ctr (crypto s) = 0 -> ctr (crypto t) = 0 -> salt (crypto s) = salt (crypto t) ->
  box_wf (crypto s) -> msg_ok m1 aad -> msg_ok m2 aad ->
  exists env1 env2 b1 b2 (k : Inner Aes Cha) nonce,
    seal_to_vec (advanced (crypto s) n) m1 aad = Ret (b1, Ok env1) /\
    seal_to_vec (advanced (crypto t) n) m2 aad = Ret (b2, Ok env2) /\
    sealed_as k nonce aad m1 env1 /\ sealed_as k nonce aad m2 env2.
Proof.
  intros Hs Ht Hc Hc' Hsl [Hl _] H1 H2. pose proof (session_key_fun _ _ _ _ Hs Ht) as Hk.
  assert (Hw : forall b : CryptoBox Aes Cha, length (salt b) = 4%nat -> box_wf (advanced b n)).
  { intros b Hb. split; [done|]. by apply wrap_uint. }
  destruct (seal_to_vec_spec (advanced (crypto s) n) m1 aad (Hw _ Hl) H1) as (env1 & S1 & E1).
  destruct (seal_to_vec_spec (advanced (crypto t) n) m2 aad) as (env2 & S2 & E2); [|done|].
  { apply Hw. by rewrite <- Hsl. }
  eexists env1, env2, _, _, _, _. split_and!; [exact E1 | exact E2 | exact S1 |].
  cbn [advanced key] in S2. rewrite <- Hk in S2.
  replace (nonce_of (advanced (crypto s) n)) with (nonce_of (advanced (crypto t) n)); [done|].
  unfold nonce_of, advanced. cbn [ctr salt]. by rewrite Hc, Hc', Hsl.
Qed.

End Agreement.

(** ** Concrete primitives

    Stand-ins without any security that satisfy the assumptions made of the
    signature, agreement and derivation schemes. *)

Module ToyKeys.
Definition digest (m : list Z) : list Z := le_bytes 32 (foldr Z.add 0 m).
Definition public (k : list Z) : list Z := resize 32 0 k.
Definition sign (k m : list Z) : list Z := public k ++ digest m.
End ToyKeys.

#[global] Program Instance toy_ed25519 : Ed25519 := {|
  SigningKey := list Z; VerifyingKey := list Z;
  signing_from s := s;
  verifying_key := ToyKeys.public;
  ed_sign := ToyKeys.sign;
  verifying_from v := Some v;
  ed_verify v m s := bool_decide (s = v ++ ToyKeys.digest m) |}.
Next Obligation. intros. apply length_resize. Qed.
Next Obligation.
  intros. unfold ToyKeys.sign, ToyKeys.digest, ToyKeys.public.
  by rewrite length_app, length_le_bytes, length_resize.
Qed.
Next Obligation. intros. eexists. split; [done|]. by apply bool_decide_eq_true_2. Qed.

#[global] Program Instance toy_x25519 : X25519 := {|
  StaticSecret := Z;
  secret_from := le_val;
  public_of s := le_bytes 32 s;
  diffie_hellman s p := le_bytes 32 (wrap 256 s * le_val p) |}.
Next Obligation. intros. apply length_le_bytes. Qed.
Next Obligation. intros. cbv beta. rewrite !le_val_bytes. f_equal. apply Z.mul_comm. Qed.

#[global] Program Instance toy_hkdf : HkdfSha256 := {|
  hkdf_expand ikm _ n := Some (resize n 0 ikm) |}.
Next Obligation. intros. eexists. split; [done|]. apply length_resize. Qed.

Module DemoIds.
Definition drone : DeviceIdentity :=
  {| di_unit := 7; di_role := Operator; di_signing := [1; 2; 3]; di_pub := ToyKeys.public [1; 2; 3] |}.
Definition console : DeviceIdentity :=
  {| di_unit := 9; di_role := Admin; di_signing := [4; 5]; di_pub := ToyKeys.public [4; 5] |}.
Definition att : Attestation := attestation_of drone (replicate 32 1).
(** the drone re-enrolled after another key had been registered for it *)
Definition history : list enrolment :=
  [(7, ToyKeys.public [8], Admin); (9, ToyKeys.public [4; 5], Admin); (7, ToyKeys.public [1; 2; 3], Operator)].
Lemma drone_wf : di_wf drone.
Proof. split; [vm_compute; split; congruence | reflexivity]. Qed.
Lemma console_wf : di_wf console.
Proof. split; [vm_compute; split; congruence | reflexivity]. Qed.
Lemma att_ok : att_wf att.
Proof. apply attestation_of_valid; [apply drone_wf | reflexivity]. Qed.
Lemma entropy : entropy_ready (E := Z).
Proof. intros n e. by eexists. Qed.
End DemoIds.

Lemma attestation_roundtrip_witness :
  exists w, att_to_bytes DemoIds.att = Ret w /\ length w = 137%nat /\
    att_from_bytes (w ++ [5; 6]) = Ret (Ok DemoIds.att).
Proof. destruct attestation_roundtrip as [H _]. apply (H DemoIds.att [5; 6]). apply DemoIds.att_ok. Defined.

Lemma zero_trust_decision_witness :
  let b := {| trust := store_of DemoIds.history; policy := Policy.default |} in
  exists p, authenticate b DemoIds.att = Ret (Ok p) /\
    broker_authorize_dispatch b p "send_control" = true /\
    broker_authorize_dispatch b p "manage_fleet" = false.
Proof.
  destruct (zero_trust_decision DemoIds.history Policy.default DemoIds.att "send_control" DemoIds.att_ok)
    as (r & Er & H).
  destruct (proj2 H) as (p & -> & Hp).
  - exists (ToyKeys.public [1; 2; 3]), Operator, SendControl. vm_compute. split_and!; reflexivity.
  - exists p. split; [exact Er|]. split; [exact Hp|].
    vm_compute in Er. injection Er as <-. vm_compute. reflexivity.
Defined.

Lemma handshake_agreement_witness :
  exists e1' init pend e2' resp (sr : SecureSession Toy.Key Toy.Key),
    begin_handshake DemoIds.drone Suite.all (E := Z) 40 = Ret (e1', Ok (init, pend)) /\
    respond_handshake DemoIds.console init [ChaCha20Poly1305] 50 = Ret (e2', Ok (resp, sr)) /\
    ss_suite sr = ChaCha20Poly1305 /\ peer_id sr = 7.
Proof.
  destruct (handshake_agreement (Aes := Toy.Key) (Cha := Toy.Key) DemoIds.drone DemoIds.console
    Suite.all [ChaCha20Poly1305] 40 50 DemoIds.entropy DemoIds.drone_wf DemoIds.console_wf)
    as (e1' & init & pend & Eb & Hm).
  change (Suite.negotiate [ChaCha20Poly1305] Suite.all) with (Some ChaCha20Poly1305) in Hm. cbv iota in Hm.
  destruct Hm as (_ & e2' & resp & sr & e1'' & si & Er & _ & _ & Hs & Hp & _).
  exists e1', init, pend, e2', resp, sr. split; [exact Eb|]. split; [exact Er|]. split; [exact Hs | exact Hp].
Defined.
