(* ===== verification/SecLink.v ===== *)
(** * The secure channel: [tpt-t-sec/src/link.rs]

    A multiplexer that speaks only sealed envelopes: commands and telemetry are
    serialised, sealed under the session with a tag that names their kind, and
    framed on the secure channel; the receiver picks the associated data from
    that tag and decrypts into a ring. *)

From stdpp Require Import strings.
From S2P Require Import Prelude Text Ring Reliable Cast Ser Crc Mux Cipher Trust.

Definition AAD_CONTROL : list Z := ascii_bytes "tpt-sec-control".
Definition AAD_TELEMETRY : list Z := ascii_bytes "tpt-sec-telemetry".

Section SecLink.
Context `{RC : !Rkyv (Cmd.ControlCommand Z) pb_wf} `{RT : !Rkyv Telemetry.TelemetryPacket pb_wf}.
Context {Aes Cha : Type} `{AA : !AeadInPlace Aes} `{AC : !AeadInPlace Cha}.
Context {Addr : Type}.

Record SecureMux := { mux : UdpMux; session : SecureSession Aes Cha }.

(** the datagram handed to the socket, when there is one; [answer] is what the
    socket says of it *)
Definition send_sealed (sm : SecureMux) (plaintext aad : list Z) (inner : Z)
    (answer : result nat IoError) (now_ns : Z) :
    exec (SecureMux * option (list Z) * result nat IoError) :=
  '(s, sealed) ← session_seal (session sm) plaintext aad;
  match sealed with
  | Err _ => Ret ({| mux := mux sm; session := s |}, None, Err OtherIo)
  | Ok sealed =>
      '(m, bf, w) ← write_secure_frame (mux sm) sealed inner (replicate MAX_DATAGRAM 0);
      match w with
      | Err e => Ret ({| mux := m; session := s |}, None, Err e)
      | Ok n =>
          datagram ← slice_to bf n;
          let '(m, sent) := send_framed m answer now_ns in
          Ret ({| mux := m; session := s |}, Some datagram,
               match sent with Ok _ => Ok n | Err e => Err e end)
      end
  end.

(** the serialiser's buffer is local here, so a failure leaves nothing behind *)
Definition send_secure_control (sm : SecureMux) (cmd : Cmd.ControlCommand Z)
    (answer : result nat IoError) (now_ns : Z) :=
  match to_bytes cmd with
  | None => Ret (sm, None, Err OtherIo)
  | Some scratch => send_sealed sm scratch AAD_CONTROL INNER_CONTROL answer now_ns
  end.

Definition send_secure_telemetry (sm : SecureMux) (pkt : Telemetry.TelemetryPacket)
    (answer : result nat IoError) (now_ns : Z) :=
  match to_bytes pkt with
  | None => Ret (sm, None, Err OtherIo)
  | Some scratch => send_sealed sm scratch AAD_TELEMETRY INNER_TELEMETRY answer now_ns
  end.

Definition send_secure_raw (sm : SecureMux) (plaintext : list Z)
    (answer : result nat IoError) (now_ns : Z) :=
  send_sealed sm plaintext AAD_CONTROL INNER_CONTROL answer now_ns.

Section Receive.
Context {Q : Type} `{BF : !BoundedFifo Q SecureBlock}.

Definition decrypt_event_into_ring (N : nat) (b : CryptoBox Aes Cha) (sealed : list Z) (inner : Z)
    (ring : Q) : exec (Q * result nat SecError) :=
  let aad := if inner =? INNER_TELEMETRY then AAD_TELEMETRY else AAD_CONTROL in
  decrypt_into_ring N b sealed aad ring.

(** [got] is what the socket delivered into the receive buffer at [base] *)
Definition recv_decrypt (N : nat) (sm : SecureMux) (base : Z)
    (got : option (list Z * nat * Addr)) (ring : Q) : exec (SecureMux * Q * nat) :=
  '(m, frame) ← recv_frame (mux sm) base got;
  let sm := {| mux := m; session := session sm |} in
  match frame with
  | Some (Ok (InSecure sealed _ inner)) =>
      let aad := if inner =? INNER_TELEMETRY then AAD_TELEMETRY else AAD_CONTROL in
      '(ring, r) ← decrypt_into_ring N (crypto (session sm)) sealed aad ring;
      Ret (sm, ring, if is_ok r then 1%nat else 0%nat)
  | _ => Ret (sm, ring, 0%nat)
  end.
End Receive.

(** ** Sending *)

(** room for a sealed message in one datagram *)
Definition fits (p : list Z) : Prop := (length p + (NONCE_LEN + TAG_LEN) <= MAX_PAYLOAD)%nat.

Lemma fits_msg_ok p aad : fits p -> Z.of_nat (length aad) <= AEAD_MAX -> msg_ok p aad.
Proof.
  unfold fits, MAX_PAYLOAD, MAX_DATAGRAM, HEADER_LEN, TRAILER_LEN, NONCE_LEN, TAG_LEN.
  intros Hf Ha. split; [|done]. unfold AEAD_MAX. lia.
Qed.

Definition with_crypto (sm : SecureMux) (b : CryptoBox Aes Cha) : SecureSession Aes Cha :=
  {| peer_id := peer_id (session sm); peer_role := peer_role (session sm); crypto := b;
     ss_suite := ss_suite (session sm) |}.

Lemma send_sealed_spec sm p aad inner answer now : box_wf (crypto (session sm)) ->
  Z.of_nat (length aad) <= AEAD_MAX -> fits p ->
  exists env sm', sealed_as (key (crypto (session sm))) (nonce_of (crypto (session sm))) aad p env /\
    send_sealed sm p aad inner answer now =
      Ret (sm', Some (framed Secure inner env),
           match answer with Ok _ => Ok (20 + length env)%nat | Err e => Err e end) /\
    session sm' = with_crypto sm (bumped (crypto (session sm))).
Proof.
  intros Hb Ha Hf. unfold send_sealed, session_seal.
  destruct (seal_to_vec_spec (crypto (session sm)) p aad Hb (fits_msg_ok _ _ Hf Ha)) as (env & Hs & ->).
  cbn [mbind exec_bind]. pose proof (sealed_length _ _ _ _ _ Hs) as Hl.
  destruct (write_opaque_spec (mux sm) env Secure inner (replicate MAX_DATAGRAM 0)) as (r & Ew).
  { apply length_replicate. } { unfold fits in Hf. lia. }
  unfold write_secure_frame. rewrite Ew. cbn [mbind exec_bind].
  rewrite slice_to_ok by (rewrite length_app, length_framed; lia). cbn [mbind exec_bind].
  rewrite take_app_length' by (by rewrite length_framed).
  destruct answer as [a|[]]; cbn [send_framed]; eexists env, _; (split; [exact Hs|]); split; reflexivity.
Qed.

(** a message that does not fit is refused after its nonce was spent *)
Lemma send_sealed_too_long sm p aad inner answer now : box_wf (crypto (session sm)) ->
  msg_ok p aad -> ~ fits p ->
  send_sealed sm p aad inner answer now =
    Ret ({| mux := mux sm; session := with_crypto sm (bumped (crypto (session sm))) |}, None, Err InvalidData).
Proof.
  intros Hb Hm Hf. unfold send_sealed, session_seal.
  destruct (seal_to_vec_spec (crypto (session sm)) p aad Hb Hm) as (env & Hs & ->).
  cbn [mbind exec_bind]. pose proof (sealed_length _ _ _ _ _ Hs) as Hl.
  unfold write_secure_frame, write_opaque. unfold fits in Hf.
  rewrite (proj2 (Nat.ltb_lt _ _)) by lia. done.
Qed.

(** ** Theorem *)

Context {Q : Type} `{BF : !BoundedFifo Q SecureBlock}.

(** the kinds of payload and the sender each goes through *)
Inductive payload := PControl (c : Cmd.ControlCommand Z) | PTelemetry (t : Telemetry.TelemetryPacket)
  | PRaw (p : list Z).
Definition send_payload (sm : SecureMux) (pl : payload) :=
  match pl with
  | PControl c => send_secure_control sm c
  | PTelemetry t => send_secure_telemetry sm t
  | PRaw p => send_secure_raw sm p
  end.
Definition plaintext_of (pl : payload) : option (list Z) :=
  match pl with
  | PControl c => to_bytes c
  | PTelemetry t => to_bytes t
  | PRaw p => Some p
  end.
Definition tag_of (pl : payload) : Z :=
  match pl with PTelemetry _ => INNER_TELEMETRY | _ => INNER_CONTROL end.
Definition aad_of (inner : Z) : list Z :=
  if inner =? INNER_TELEMETRY then AAD_TELEMETRY else AAD_CONTROL.

Lemma send_payload_eq sm pl p answer now : plaintext_of pl = Some p ->
  send_payload sm pl answer now = send_sealed sm p (aad_of (tag_of pl)) (tag_of pl) answer now.
Proof.
  destruct pl; cbn [plaintext_of send_payload]; intros E.
  - unfold send_secure_control. by rewrite E.
  - unfold send_secure_telemetry. by rewrite E.
  - by injection E as ->.
Qed.

Lemma plaintext_bytes pl p : plaintext_of pl = Some p -> (forall q, pl = PRaw q -> bytes q) -> bytes p.
Proof.
  destruct pl; cbn [plaintext_of]; intros E Hr; [exact (to_bytes_bytes _ _ E) | exact (to_bytes_bytes _ _ E) |].
  injection E as <-. by apply Hr.
Qed.

(** C12: End-to-end delivery on the secure channel.  Between two multiplexers
    whose sessions hold the same key, every payload (command, telemetry or raw)
    that serialises and fits a datagram is put on the wire as one frame; when
    the receiver's socket returns that datagram into an aligned buffer, whatever
    follows it there, [recv_decrypt] reports one block and leaves at the back of
    the ring a block that reads as the serialised payload, for each kind under
    its own associated data; and the sender's next nonce is a fresh one. *)
Theorem secure_channel_delivers sm rx pl p answer now base rest (from : Addr) N (ring : Q) l :
  box_wf (crypto (session sm)) -> bytes (salt (crypto (session sm))) ->
  key (crypto (session rx)) = key (crypto (session sm)) ->
  plaintext_of pl = Some p -> (forall q, pl = PRaw q -> bytes q) -> fits p ->
  base mod 16 = 0 -> (length p + (NONCE_LEN + TAG_LEN) <= N)%nat -> Z.of_nat N < 2 ^ 32 ->
  fifo_rep ring l -> Z.of_nat (length l) < fifo_capacity ring ->
  exists sm' datagram res, send_payload sm pl answer now = Ret (sm', Some datagram, res) /\
    (is_ok answer = true -> res = Ok (length datagram)) /\
    nonce_of (crypto (session sm')) <> nonce_of (crypto (session sm)) /\
    exists rx' ring' blk,
      recv_decrypt N rx base (Some (datagram ++ rest, length datagram, from)) ring = Ret (rx', ring', 1%nat) /\
      fifo_rep ring' (l ++ [blk]) /\ Block.as_slice blk = Ret p.
Proof.
  intros Hb Hsb Hk Hp Hraw Hf Hbase HN H32 Hr Hroom.
  assert (Haad : Z.of_nat (length (aad_of (tag_of pl))) <= AEAD_MAX)
    by (destruct pl; vm_compute; congruence).
  destruct (send_sealed_spec sm p (aad_of (tag_of pl)) (tag_of pl) answer now Hb Haad Hf)
    as (env & sm' & Hs & Es & Hsm').
  pose proof (sealed_length _ _ _ _ _ Hs) as Hl.
  assert (Hd : length (framed Secure (tag_of pl) env) = (20 + length env)%nat) by apply length_framed.
  eexists sm', _, _. rewrite (send_payload_eq _ _ _ _ _ Hp). split; [exact Es|]. split.
  { rewrite Hd. by destruct answer. } split.
  { rewrite Hsm'. cbn [with_crypto crypto]. intros E.
    assert (E' : nonce_of (advanced (crypto (session sm)) 1) = nonce_of (advanced (crypto (session sm)) 0)).
    { unfold nonce_of, advanced, bumped in *. cbn [ctr salt] in *. rewrite Z.add_0_r, (wrap_id 64 (ctr _)) by apply Hb.
      exact E. }
    apply nonce_advanced_inj in E'; [done | lia | lia]. }
  assert (Henv : bytes env).
  { refine (sealed_bytes _ _ _ _ _ _ (plaintext_bytes _ _ Hp Hraw) Hs). apply Forall_app.
    split; [apply le_bytes_bytes | done]. }
  unfold recv_decrypt, recv_frame. rewrite Hd, demux_framed; [|done| | done |].
  2:{ unfold fits in Hf. lia. } 2:{ destruct pl; vm_compute; split; congruence. }
  cbn [mbind exec_bind demux_payload Channel.from_u8 Channel.as_u8 Z.eqb Pos.eqb is_ok data].
  rewrite <- Hk in Hs. fold (aad_of (tag_of pl)).
  destruct (decrypt_into_ring_spec N (crypto (session rx)) _ _ _ _ ring l Hs) as (ring' & blk & Er & Hr' & Hbk & _);
    [lia | done..|].
  cbn [session]. rewrite Er. cbn [mbind exec_bind is_ok]. eexists _, ring', blk. split; [reflexivity|]. done.
Qed.

End SecLink.

(** ** A concrete run *)

Module DemoLink.
Definition end_ (b : CryptoBox Toy.Key Toy.Key) : SecureMux (Aes := Toy.Key) (Cha := Toy.Key) :=
  {| mux := demo_mux;
     session := {| peer_id := 7; peer_role := Operator; crypto := b; ss_suite := Aes256Gcm |} |}.
End DemoLink.

Lemma secure_channel_delivers_witness :
  exists sm' datagram,
    send_payload (RC := raw_cmd) (RT := raw_tp) (DemoLink.end_ Demo.box) (PControl demo_cmd) (Ok 104%nat) 0 =
      Ret (sm', Some datagram, Ok (length datagram)) /\
    exists rx' ring' blk,
      recv_decrypt (RC := raw_cmd) (RT := raw_tp) 256 (DemoLink.end_ Demo.peer) 0
        (Some (datagram ++ [], length datagram, tt)) Demo.ring = Ret (rx', ring', 1%nat) /\
      fifo_rep ring' [blk] /\ Block.as_slice blk = Ret (bytes_of demo_cmd).
Proof.
  destruct (secure_channel_delivers (RC := raw_cmd) (RT := raw_tp) (DemoLink.end_ Demo.box)
    (DemoLink.end_ Demo.peer) (PControl demo_cmd) (bytes_of demo_cmd) (Ok 104%nat) 0 0 [] tt 256 Demo.ring [])
    as (sm' & d & res & Es & Hres & _ & H).
  - apply Demo.box_ok.
  - repeat constructor; vm_compute; congruence.
  - reflexivity.
  - reflexivity.
  - discriminate.
  - vm_compute; lia.
  - reflexivity.
  - vm_compute; lia.
  - vm_compute; reflexivity.
  - apply Spsc.rep_with_capacity. lia.
  - vm_compute; reflexivity.
  - rewrite (Hres eq_refl) in Es. exists sm', d. split; [exact Es | exact H].
Defined.
