(* ===== verification/FloatText.v ===== *)
(** * Floating-point numbers as text

    [str::parse::<f64>], [Display] of [f64] and the casts between [f64] and the
    integers, as Rust's standard library documents them: parsing rounds the exact
    decimal value to nearest even; printing writes the shortest decimal that
    parses back, without an exponent. *)

From stdpp Require Import strings.
From S2P Require Import Prelude Float Text.

#[global] Instance spec_float_eq_dec : EqDecision spec_float.
Proof. solve_decision. Defined.

(** ** Exact quotients *)

(** [num / den] rounded once, with sign [s] *)
Definition f64_of_ratio (s : bool) (num den : Z) : f64 :=
  if num =? 0 then S754_zero s
  else
    let '(q, e, l) := SFdiv_core_binary 53 1024 num 0 den 0 in
    binary_round_aux 53 1024 s q e l.

(** the decimal [m * 10^x] *)
Definition f64_of_decimal (s : bool) (m x : Z) : f64 :=
  if 0 <=? x then f64_of_ratio s (m * 10 ^ x) 1 else f64_of_ratio s m (10 ^ (- x)).

Definition f64_valid (v : f64) : Prop := valid_binary 53 1024 v = true.

(** *** Rounding returns a representable value unchanged *)

Section Exact.
Variables prec emax : Z.

Lemma Zdigits2_log2 p : Zdigits2 (Zpos p) = Z.log2 (Zpos p) + 1.
Proof.
  assert (H : forall q, Zpos (digits2_pos q) = Z.log2 (Zpos q) + 1).
  { induction q as [q IH|q IH|]; cbn [digits2_pos]; [| |done]; rewrite Pos2Z.inj_succ, IH.
    - rewrite Pos2Z.inj_xI, Z.log2_succ_double by lia. lia.
    - rewrite Pos2Z.inj_xO, Z.log2_double by lia. lia. }
  apply H.
Qed.

(** dropping [n] zero bits *)
Lemma shr_1_even m : shr_1 {| shr_m := Zpos m~0; shr_r := false; shr_s := false |} =
  {| shr_m := Zpos m; shr_r := false; shr_s := false |}.
Proof. done. Qed.

Lemma iter_pos_iter {A} (f : A -> A) n x : iter_pos f n x = Pos.iter f x n.
Proof.
  revert x. induction n as [n IH|n IH|]; intros x; simpl; rewrite ?IH; [| |done].
  - rewrite <- Pos.iter_swap. f_equal. by rewrite <- Pos.iter_swap.
  - done.
Qed.

Lemma shr_exact m e t : 0 <= t ->
  shr {| shr_m := Zpos m * 2 ^ t; shr_r := false; shr_s := false |} e t =
  ({| shr_m := Zpos m; shr_r := false; shr_s := false |}, e + t).
Proof.
  intros Ht. destruct t as [|p|p]; [rewrite Z.pow_0_r, Z.mul_1_r, Z.add_0_r; done| |lia].
  unfold shr. f_equal. rewrite iter_pos_iter, Pos2Nat.inj_iter.
  rewrite <- (positive_nat_Z p) at 1. induction (Pos.to_nat p) as [|n IH]; [by rewrite Z.pow_0_r, Z.mul_1_r|].
  rewrite nat_rect_succ_r, Nat2Z.inj_succ, Z.pow_succ_r by lia.
  replace (Zpos m * (2 * 2 ^ Z.of_nat n)) with (2 * (Zpos m * 2 ^ Z.of_nat n)) by lia.
  assert (0 < Zpos m * 2 ^ Z.of_nat n) by (pose proof (pow2_pos (Z.of_nat n)); lia).
  destruct (Zpos m * 2 ^ Z.of_nat n) as [|q|q] eqn:E; [lia| |lia].
  exact IH.
Qed.

Lemma bounded_fexp m e : bounded prec emax m e = true ->
  fexp prec emax (Z.log2 (Zpos m) + 1 + e) = e /\ e <= emax - prec.
Proof.
  unfold bounded, canonical_mantissa. intros H. zbool.
  pose proof (Zdigits2_log2 m) as E. cbn [Zdigits2] in E. rewrite <- E. done.
Qed.

Lemma round_aux_exact s m e t : bounded prec emax m e = true -> 0 <= t ->
  binary_round_aux prec emax s (Zpos m * 2 ^ t) (e - t) loc_Exact = S754_finite s m e.
Proof.
  intros Hb Ht. destruct (bounded_fexp m e Hb) as [Hf He].
  assert (Hfix : forall u, 0 <= u ->
    shr_fexp prec emax (Zpos m * 2 ^ u) (e - u) loc_Exact =
    ({| shr_m := Zpos m; shr_r := false; shr_s := false |}, e)).
  { intros u Hu. unfold shr_fexp. pose proof (pow2_pos u).
    assert (Hp : exists q, Zpos m * 2 ^ u = Zpos q)
      by (exists (Z.to_pos (Zpos m * 2 ^ u)); rewrite Z2Pos.id by lia; done).
    destruct Hp as [q Eq]. rewrite Eq, Zdigits2_log2, <- Eq, Z.log2_mul_pow2 by lia.
    replace (Z.log2 (Zpos m) + u + 1 + (e - u)) with (Z.log2 (Zpos m) + 1 + e) by lia.
    replace (u + Z.log2 (Zpos m) + 1 + (e - u)) with (Z.log2 (Zpos m) + 1 + e) by lia.
    rewrite Hf. replace (e - (e - u)) with u by lia. cbn [shr_record_of_loc].
    rewrite shr_exact by done. f_equal. lia. }
  unfold binary_round_aux. rewrite Hfix by done. cbn [shr_m loc_of_shr_record round_nearest_even].
  pose proof (Hfix 0 ltac:(lia)) as H0. rewrite Z.pow_0_r, Z.mul_1_r, Z.sub_0_r in H0.
  rewrite H0. cbn [shr_m]. by rewrite (proj2 (Z.leb_le _ _) He).
Qed.

Lemma fexp_mono a b : a <= b -> fexp prec emax a <= fexp prec emax b.
Proof. unfold fexp. lia. Qed.

(** The quotient of a representable value, in any fraction. *)
Lemma div_core_exact num den m e : 0 < den -> bounded prec emax m e = true ->
  num * 2 ^ Z.max (- e) 0 = Zpos m * 2 ^ Z.max e 0 * den ->
  exists t, 0 <= t /\
    SFdiv_core_binary prec emax num 0 den 0 = (Zpos m * 2 ^ t, e - t, loc_Exact).
Proof.
  intros Hd Hb E. destruct (bounded_fexp m e Hb) as [Hf _].
  assert (H0 : 0 < num).
  { pose proof (pow2_pos (Z.max (- e) 0)). pose proof (pow2_pos (Z.max e 0)). nia. }
  destruct num as [|n|n], den as [|d|d]; try lia.
  assert (Hle : Z.log2 (Zpos n) + 1 - (Z.log2 (Zpos d) + 1) <= Z.log2 (Zpos m) + 1 + e).
  { assert (HL : Z.log2 (Zpos n * 2 ^ Z.max (- e) 0) = Z.log2 (Zpos m * Zpos d * 2 ^ Z.max e 0))
      by (f_equal; lia).
    rewrite !Z.log2_mul_pow2 in HL by lia.
    pose proof (Z.log2_mul_above (Zpos m) (Zpos d)). lia. }
  unfold SFdiv_core_binary. rewrite !Zdigits2_log2, !Z.add_0_r, Z.sub_0_r.
  pose proof (fexp_mono _ _ Hle) as Hm. rewrite Hf in Hm.
  set (e' := Z.min (fexp prec emax _) 0).
  assert (He1 : e' <= e) by lia. assert (He2 : e' <= 0) by lia. clearbody e'. clear Hm Hle.
  replace (match 0 - e' with
           | 0 => Zpos n | Z.pos _ => Z.shiftl (Zpos n) (0 - e') | Z.neg _ => 0 end)
    with (Zpos m * 2 ^ (e - e') * Zpos d).
  - exists (e - e'). split; [lia|].
    rewrite (surjective_pairing (Z.div_eucl _ _)).
    change (Z.div_eucl ?a ?b).1 with (a / b). change (Z.div_eucl ?a ?b).2 with (a mod b).
    rewrite Z.div_mul, Z.mod_mul by lia.
    replace (new_location (Zpos d) 0) with loc_Exact by (unfold new_location; by destruct (Z.even _)).
    repeat f_equal; lia.
  - assert (E' : Zpos n * 2 ^ (0 - e') = Zpos m * 2 ^ (e - e') * Zpos d).
    { destruct (Z.le_gt_cases 0 e).
      - rewrite Z.max_r, Z.max_l in E by lia.
        replace (e - e') with (e + (0 - e')) by lia. rewrite Z.pow_add_r by lia.
        rewrite Z.pow_0_r, Z.mul_1_r in E. rewrite E. ring.
      - rewrite Z.max_l, Z.max_r in E by lia.
        replace (0 - e') with (- e + (e - e')) by lia. rewrite Z.pow_add_r by lia.
        rewrite Z.mul_assoc, E, Z.pow_0_r. ring. }
    destruct (0 - e') as [|p|p] eqn:Ep; [|by rewrite Z.shiftl_mul_pow2 | lia].
    rewrite Z.pow_0_r in E'. lia.
Qed.

End Exact.

(** A fraction equal to a representable value rounds to that value. *)
Lemma f64_of_ratio_exact s num den m e : 0 < den -> bounded 53 1024 m e = true ->
  num * 2 ^ Z.max (- e) 0 = Zpos m * 2 ^ Z.max e 0 * den ->
  f64_of_ratio s num den = S754_finite s m e.
Proof.
  intros Hd Hb E. destruct (div_core_exact 53 1024 num den m e Hd Hb E) as (t & Ht & Eq).
  unfold f64_of_ratio. destruct (Z.eqb_spec num 0) as [->|_].
  - exfalso. pose proof (pow2_pos (Z.max e 0)). nia.
  - rewrite Eq. by apply round_aux_exact.
Qed.

Lemma round_aux_sign s m e l :
  binary_round_aux 53 1024 s m e l =
  (if s then SFopp else fun x => x) (binary_round_aux 53 1024 false m e l).
Proof. destruct s; [|done]. unfold binary_round_aux. repeat case_match; done. Qed.

Lemma f64_of_ratio_sign s num den :
  f64_of_ratio s num den = (if s then SFopp else fun x => x) (f64_of_ratio false num den).
Proof.
  unfold f64_of_ratio. case_if; [by destruct s|].
  destruct (SFdiv_core_binary _ _ _ _ _ _) as [[q e] l]. apply round_aux_sign.
Qed.

Lemma f64_of_decimal_sign s m x :
  f64_of_decimal s m x = (if s then SFopp else fun x => x) (f64_of_decimal false m x).
Proof. unfold f64_of_decimal. case_if; apply f64_of_ratio_sign. Qed.

(** ** Parsing *)

(** an optional sign; [true] for minus *)
Definition take_sign (b : list Z) : bool * list Z :=
  match b with
  | [] => (false, [])
  | c :: b' => if c =? 45 then (true, b') else if c =? 43 then (false, b') else (false, b)
  end.

(** [str::parse::<f64>] on [[sign] digits [. digits] [e [sign] digits]]; at least
    one digit before the exponent and one in it.  (The words [inf] and [nan],
    which it also accepts, are not numbers of this grammar.) *)
Definition f64_from_str (b : list Z) : option f64 :=
  let '(s, b) := take_sign b in
  let '(ip, b) := span_digits b in
  let '(fp, b) := match b with
                  | c :: b' => if c =? 46 then span_digits b' else ([], b)
                  | [] => ([], [])
                  end in
  let m := dec_val (ip ++ fp) in
  let x := - Z.of_nat (length fp) in
  if bool_decide (ip ++ fp = []) then None
  else match b with
       | [] => Some (f64_of_decimal s m x)
       | c :: b' =>
           if (c =? 101) || (c =? 69) then
             let '(es, b') := take_sign b' in
             let '(ep, b') := span_digits b' in
             if bool_decide (ep = []) || negb (bool_decide (b' = [])) then None
             else Some (f64_of_decimal s m (x + (if es then - dec_val ep else dec_val ep)))
           else None
       end.

(** ** Printing *)

(** [m * 10^x] in positional notation, [m > 0] *)
Definition render (m x : Z) : list Z :=
  let ds := dec m in
  let p := Z.of_nat (length ds) + x in
  if 0 <=? x then ds ++ replicate (Z.to_nat x) 48
  else if p <=? 0 then [48; 46] ++ replicate (Z.to_nat (- p)) 48 ++ ds
  else take (Z.to_nat p) ds ++ [46] ++ drop (Z.to_nat p) ds.

(** The candidates with [n] digits: [10^k] is the first power of ten above the
    value [num/den]; its neighbours below and above among the [n]-digit decimals,
    the closer first. *)
Definition candidates (num den k n : Z) : list (Z * Z) :=
  let x := k - n in
  let a := num * 10 ^ Z.max (- x) 0 in
  let b := den * 10 ^ Z.max x 0 in
  let lo := a / b in
  let norm m := if m =? 10 ^ n then (1, k) else (m, x) in
  if 2 * (a mod b) <? b then [norm lo; norm (lo + 1)] else [norm (lo + 1); norm lo].

(** The shortest decimal that parses back to [m * 2^e].  Seventeen digits always
    suffice; the exact expansion stands behind the search. *)
Definition shortest (m : positive) (e : Z) : Z * Z :=
  let v := S754_finite false m e in
  let num := Zpos m * 2 ^ Z.max e 0 in
  let den := 2 ^ Z.max (- e) 0 in
  let k0 := Z.of_nat (length (dec num)) - Z.of_nat (length (dec den)) in
  let k := if den * 10 ^ Z.max k0 0 <=? num * 10 ^ Z.max (- k0) 0 then k0 + 1 else k0 in
  let good c := (0 <? c.1) && bool_decide (f64_of_decimal false c.1 c.2 = v) in
  match List.find good (mjoin (candidates num den k <$> seqZ 1 17)) with
  | Some c => c
  | None => if 0 <=? e then (num, 0) else (Zpos m * 5 ^ (- e), e)
  end.

(** [{}] of an [f64] *)
Definition f64_display (v : f64) : list Z :=
  match v with
  | S754_nan => ascii_bytes "NaN"
  | S754_infinity s => (if s then [45] else []) ++ ascii_bytes "inf"
  | S754_zero s => (if s then [45] else []) ++ [48]
  | S754_finite s m e => (if s then [45] else []) ++ let '(d, x) := shortest m e in render d x
  end.

Example display_examples :
  f64_display (f64_lit 5 2) = ascii_bytes "2.5" /\
  f64_display (f64_lit 1 10) = ascii_bytes "0.1" /\
  f64_display (f64_lit 1 3) = ascii_bytes "0.3333333333333333" /\
  f64_display (f64_lit (-1) 1000) = ascii_bytes "-0.001" /\
  f64_display (f64_of_Z (10 ^ 23)) = ascii_bytes "100000000000000000000000" /\
  f64_display (f64_of_Z (2 ^ 70)) = ascii_bytes "1180591620717411300000".
Proof. vm_compute. split_and!; reflexivity. Qed.

(** ** Casts *)

(** the integral part of a finite value *)
Definition f64_trunc (v : f64) : Z :=
  match v with
  | S754_finite s m e =>
      let z := (Zpos m * 2 ^ Z.max e 0) / 2 ^ Z.max (- e) 0 in if s then - z else z
  | _ => 0
  end.
(** [fract() == 0.0] of a finite value *)
Definition f64_integral (v : f64) : bool :=
  match v with
  | S754_zero _ => true
  | S754_finite _ m e => (Zpos m * 2 ^ Z.max e 0) mod 2 ^ Z.max (- e) 0 =? 0
  | _ => false
  end.
Definition is_finite (v : f64) : bool :=
  match v with S754_zero _ | S754_finite _ _ _ => true | _ => false end.
(** [as u64], [as i64]: truncate, then saturate; NaN is zero *)
Definition f64_saturate (lo hi : Z) (v : f64) : Z :=
  match v with
  | S754_nan => 0
  | S754_infinity s => if s then lo else hi
  | _ => Z.max lo (Z.min hi (f64_trunc v))
  end.
Definition f64_as_u64 (v : f64) : Z := f64_saturate 0 (2 ^ 64 - 1) v.
Definition f64_as_i64 (v : f64) : Z := f64_saturate (- 2 ^ 63) (2 ^ 63 - 1) v.

(** ** Round trip *)

(** a character that cannot continue a number *)
Definition ends_number (rest : list Z) : Prop :=
  match rest with
  | [] => True
  | c :: _ => is_digit c = false /\ c <> 46 /\ c <> 101 /\ c <> 69
  end.

Lemma ends_no_digit rest : ends_number rest -> no_digit rest.
Proof. destruct rest; simpl; tauto. Qed.

Lemma take_sign_digits ds : digits ds -> take_sign ds = (false, ds).
Proof.
  intros H. destruct H as [|c ds Hc _]; [done|]. simpl. unfold is_digit in Hc. zbool.
  destruct (Z.eqb_spec c 45); [lia|]. destruct (Z.eqb_spec c 43); [lia | done].
Qed.

(** the decimal a positional text [ip.fp] denotes *)
Lemma from_str_parts (s : bool) ip fp (dot : bool) :
  digits ip -> digits fp -> ip <> [] -> (dot = false -> fp = []) ->
  f64_from_str ((if s then [45] else []) ++ ip ++ (if dot then [46] else []) ++ fp) =
  Some (f64_of_decimal s (dec_val (ip ++ fp)) (- Z.of_nat (length fp))).
Proof.
  intros Hi Hf Hne Hdot. unfold f64_from_str.
  assert (Hs : take_sign ((if s then [45] else []) ++ ip ++ (if dot then [46] else []) ++ fp)
          = (s, ip ++ (if dot then [46] else []) ++ fp)).
  { destruct s; [done|]. destruct Hi as [|c ip Hc _]; [done|]. unfold is_digit in Hc. zbool. simpl.
    destruct (Z.eqb_spec c 45); [lia|]. destruct (Z.eqb_spec c 43); [lia | done]. }
  rewrite Hs. clear Hs. assert (Hip : bool_decide (ip ++ fp = []) = false)
    by (apply bool_decide_eq_false; by destruct ip).
  destruct dot.
  - rewrite (span_digits_app ip ([46] ++ fp)) by done. cbn [app Z.eqb Pos.eqb].
    rewrite <- (app_nil_r fp) at 1. rewrite (span_digits_app fp []) by done. by rewrite Hip.
  - rewrite (Hdot eq_refl) in *. cbn [app]. rewrite (span_digits_app ip []) by done.
    by rewrite Hip.
Qed.

Definition neg_sign (s : bool) : list Z := if s then [45] else [].

(** A text of digits with an optional fraction. *)
Record decimal_text (t ip fp : list Z) (dot : bool) : Prop := {
  dt_text : t = ip ++ (if dot then [46] else []) ++ fp;
  dt_int : digits ip;
  dt_frac : digits fp;
  dt_nonempty : ip <> [];
  dt_dot : dot = false -> fp = []
}.

Lemma digits_decimal_text ds : digits ds -> ds <> [] -> decimal_text ds ds [] false.
Proof. intros. split; [by rewrite app_nil_r | done | by constructor | done | done]. Qed.

Lemma render_parts m x : 0 < m -> exists ip fp dot, decimal_text (render m x) ip fp dot /\
  forall s, f64_of_decimal s (dec_val (ip ++ fp)) (- Z.of_nat (length fp)) = f64_of_decimal s m x.
Proof.
  intros Hm. destruct (dec_spec m) as (Hd & Hv & Hne); [lia|]. unfold render.
  destruct (Z.leb_spec 0 x).
  - exists (dec m ++ replicate (Z.to_nat x) 48), [], false. split.
    + apply digits_decimal_text; [|by destruct (dec m)].
      apply Forall_app; split; [done | apply digits_zeros].
    + intros s. rewrite app_nil_r, dec_val_app, Hv, dec_val_zeros, length_replicate, Z2Nat.id by lia.
      unfold f64_of_decimal. simpl. destruct (Z.leb_spec 0 x); [|lia]. f_equal. lia.
  - set (L := length (dec m)). destruct (Z.leb_spec (Z.of_nat L + x) 0).
    + eexists [48], _, true. split.
      * split; [done | by repeat constructor | | done | done].
        apply Forall_app; split; [apply digits_zeros | done].
      * intros s. rewrite !dec_val_app, dec_val_zeros, Hv, length_app, length_replicate.
        change (dec_val [48]) with 0. fold L. f_equal; lia.
    + eexists _, _, true. split.
      * split; [done | by apply Forall_take | by apply Forall_drop | | done].
        intros E. apply (f_equal length) in E. rewrite length_take in E. simpl in E. fold L in E. lia.
      * intros s. rewrite take_drop, Hv, length_drop. fold L. f_equal; lia.
Qed.

Lemma from_str_text s t ip fp dot : decimal_text t ip fp dot ->
  f64_from_str (neg_sign s ++ t) = Some (f64_of_decimal s (dec_val (ip ++ fp)) (- Z.of_nat (length fp))).
Proof. intros [-> ????]. by apply from_str_parts. Qed.

(** Parsing positional notation gives the decimal back. *)
Lemma from_str_render s m x : 0 < m ->
  f64_from_str (neg_sign s ++ render m x) = Some (f64_of_decimal s m x).
Proof.
  intros Hm. destruct (render_parts m x Hm) as (ip & fp & dot & Ht & E).
  by rewrite (from_str_text s _ _ _ _ Ht), E.
Qed.

Lemma shortest_spec m e : bounded 53 1024 m e = true ->
  let '(d, x) := shortest m e in 0 < d /\ f64_of_decimal false d x = S754_finite false m e.
Proof.
  intros Hb. unfold shortest. destruct (List.find _ _) as [[d x]|] eqn:E.
  - apply List.find_some in E as [_ E]. simpl in E. zbool. done.
  - destruct (Z.leb_spec 0 e).
    + split; [pose proof (pow2_pos (Z.max e 0)); lia|]. unfold f64_of_decimal. simpl.
      apply f64_of_ratio_exact; [lia | done |].
      rewrite (Z.max_r (- e)), Z.pow_0_r by lia. lia.
    + split; [pose proof (Z.pow_pos_nonneg 5 (- e)); lia|]. unfold f64_of_decimal.
      destruct (Z.leb_spec 0 e); [lia|].
      apply f64_of_ratio_exact; [apply Z.pow_pos_nonneg; lia | done |].
      rewrite (Z.max_l (- e)), (Z.max_r e), Z.pow_0_r by lia.
      change 10 with (5 * 2). rewrite Z.pow_mul_l. ring.
Qed.

(** Every finite number that is printed reads back as itself. *)
Lemma display_from_str v : f64_valid v -> is_finite v = true ->
  f64_from_str (f64_display v) = Some v.
Proof.
  intros Hv Hf. destruct v as [s|s| |s m e]; try done; [by destruct s|].
  unfold f64_display. pose proof (shortest_spec m e Hv) as H.
  destruct (shortest m e) as [d x]. destruct H as [Hd Hx].
  change (if s then [45] else []) with (neg_sign s).
  rewrite (from_str_render s d x Hd), f64_of_decimal_sign, Hx. by destruct s.
Qed.

Lemma integral_trunc s m e : f64_integral (S754_finite s m e) = true ->
  exists z, f64_trunc (S754_finite s m e) = (if s then - z else z) /\ 0 < z /\
    z * 2 ^ Z.max (- e) 0 = Zpos m * 2 ^ Z.max e 0 * 1.
Proof.
  simpl. intros H. zbool. set (a := Zpos m * 2 ^ Z.max e 0) in *.
  set (b := 2 ^ Z.max (- e) 0) in *. assert (0 < b) by (apply pow2_pos; lia).
  assert (0 < a) by (pose proof (pow2_pos (Z.max e 0)); lia).
  assert (Eab : a = b * (a / b)) by (apply Z.div_exact; lia).
  exists (a / b). split_and!; [done | nia | lia].
Qed.

(** An integral value is the rounding of its integer. *)
Lemma integral_from_str v : f64_valid v -> f64_integral v = true ->
  f64_from_str (dec_signed (f64_trunc v)) =
  Some (match v with S754_zero _ => S754_zero false | _ => v end).
Proof.
  intros Hv Hi. destruct v as [s|s| |s m e]; try done.
  destruct (integral_trunc s m e Hi) as (z & -> & Hz & E).
  assert (Hr : dec_signed (if s then - z else z) = neg_sign s ++ render z 0).
  { unfold dec_signed, render. simpl. rewrite app_nil_r.
    destruct s; [destruct (Z.ltb_spec (- z) 0); [|lia] | destruct (Z.ltb_spec z 0); [lia|]];
      by rewrite ?Z.opp_involutive. }
  rewrite Hr, from_str_render by done. f_equal. unfold f64_of_decimal. simpl.
  rewrite Z.mul_1_r. by apply f64_of_ratio_exact.
Qed.

(** what is printed is a signed decimal text *)
Lemma display_text v : f64_valid v -> is_finite v = true ->
  exists s t ip fp dot, f64_display v = neg_sign s ++ t /\ decimal_text t ip fp dot.
Proof.
  intros Hv Hf. destruct v as [s|s| |s m e]; try done.
  - exists s, [48], [48], [], false. split; [done|]. apply digits_decimal_text; by repeat constructor.
  - unfold f64_display. pose proof (shortest_spec m e Hv) as H.
    destruct (shortest m e) as [d x]. destruct H as [Hd _].
    destruct (render_parts d x Hd) as (ip & fp & dot & Ht & _). by exists s, (render d x), ip, fp, dot.
Qed.

Lemma dec_signed_text n :
  exists s t, dec_signed n = neg_sign s ++ t /\ decimal_text t t [] false.
Proof.
  unfold dec_signed. destruct (Z.ltb_spec n 0).
  - destruct (dec_spec (- n)) as (H1 & _ & H2); [lia|].
    exists true, (dec (- n)). split; [done | by apply digits_decimal_text].
  - destruct (dec_spec n) as (H1 & _ & H2); [lia|].
    exists false, (dec n). split; [done | by apply digits_decimal_text].
Qed.

Lemma f64_as_i64_small v : Z.abs (f64_trunc v) < 2 ^ 63 -> is_finite v = true ->
  f64_as_i64 v = f64_trunc v.
Proof. unfold f64_as_i64, f64_saturate. intros H Hf. destruct v; try done; lia. Qed.

(** ** Integers as floats *)

Lemma iter_xO_pow p k : Zpos (Pos.iter xO p k) = Zpos p * 2 ^ Zpos k.
Proof.
  rewrite Pos2Nat.inj_iter, <- (positive_nat_Z k).
  induction (Pos.to_nat k) as [|n IH]; [simpl; lia|].
  change (nat_rect _ ?a _ (S n)) with (xO (nat_rect (fun _ => positive) a (fun _ => xO) n)).
  rewrite Pos2Z.inj_xO, IH, Nat2Z.inj_succ, Z.pow_succ_r by lia. lia.
Qed.

(** below [2^53] the conversion is exact *)
Lemma f64_of_Z_small n : 0 < n < 2 ^ 53 -> exists m e,
  f64_of_Z n = S754_finite false m e /\ bounded 53 1024 m e = true /\ e <= 0 /\
  Zpos m = n * 2 ^ (- e).
Proof.
  intros [H0 H]. destruct n as [|p|p]; [lia| |lia].
  pose proof (Zdigits2_log2 p) as E. cbn [Zdigits2] in E.
  pose proof (Z.log2_nonneg (Zpos p)). assert (Z.log2 (Zpos p) < 53) by (apply Z.log2_lt_pow2; lia).
  unfold f64_of_Z. cbn [binary_normalize]. unfold binary_round, shl_align. rewrite E, Z.add_0_r.
  assert (F : fexp 53 1024 (Z.log2 (Zpos p) + 1) = Z.log2 (Zpos p) - 52)
    by (unfold fexp, emin; lia).
  assert (Hb : forall q e, Zpos q = Zpos p * 2 ^ (- e) -> e = Z.log2 (Zpos p) - 52 ->
            bounded 53 1024 q e = true).
  { intros q e Hq He. unfold bounded, canonical_mantissa. apply andb_true_iff. split.
    - apply Z.eqb_eq. pose proof (Zdigits2_log2 q) as Eq. cbn [Zdigits2] in Eq.
      rewrite Eq, Hq, Z.log2_mul_pow2 by lia. unfold fexp, emin. lia.
    - apply Z.leb_le. lia. }
  rewrite F, Z.sub_0_r. destruct (Z.log2 (Zpos p) - 52) as [|k|k] eqn:Ek; [|lia|].
  - exists p, 0. pose proof (round_aux_exact 53 1024 false p 0 0) as R.
    rewrite Z.pow_0_r, Z.mul_1_r in R.
    split_and!; [apply R | apply Hb | |]; try lia. apply Hb; lia.
  - pose proof (round_aux_exact 53 1024 false (Pos.iter xO p k) (Zneg k) 0) as R.
    rewrite Z.pow_0_r, Z.mul_1_r, Z.sub_0_r in R.
    assert (Hq : Zpos (Pos.iter xO p k) = Zpos p * 2 ^ (- Zneg k)) by apply iter_xO_pow.
    exists (Pos.iter xO p k), (Zneg k).
    split_and!; [apply R; [by apply Hb | lia] | by apply Hb | lia | done].
Qed.

Lemma f64_of_Z_valid n : 0 <= n < 2 ^ 53 ->
  f64_valid (f64_of_Z n) /\ f64_integral (f64_of_Z n) = true /\ f64_trunc (f64_of_Z n) = n.
Proof.
  intros H. destruct (Z.eq_dec n 0) as [->|]; [done|].
  destruct (f64_of_Z_small n) as (m & e & -> & Hb & He & Em); [lia|].
  pose proof (pow2_pos (- e)).
  assert (Ea : Zpos m * 2 ^ Z.max e 0 = n * 2 ^ (- e)) by (rewrite Z.max_r, Z.pow_0_r by lia; lia).
  split; [done|]. unfold f64_integral, f64_trunc.
  rewrite Ea, Z.max_l by lia. rewrite Z.mod_mul, Z.div_mul by lia. done.
Qed.

(** [|v| < 10^15] keeps the integral part within an [i64] *)
Lemma abs_below_1e15 v : f64_valid v -> is_finite v = true ->
  flt (SFabs v) (f64_of_Z (10 ^ 15)) = true -> Z.abs (f64_trunc v) < 2 ^ 63.
Proof.
  intros Hv Hf H. destruct v as [s|s| |s m e];
    [clear; simpl; lia | discriminate Hf | discriminate Hf |].
  destruct (bounded_fexp 53 1024 m e Hv) as [He _].
  assert (e <= -3).
  { assert (E15 : f64_of_Z (10 ^ 15) = S754_finite false 8000000000000000 (-3))
      by (vm_compute; reflexivity).
    rewrite E15 in H. clear E15.
    unfold flt, SFltb in H. cbn [SFabs SFcompare] in H.
    destruct (Z.compare_spec e (-3)); [clear H; lia | clear H; lia | discriminate H]. }
  clear H.
  assert (Hm : Zpos m < 2 ^ 53).
  { apply Z.log2_lt_pow2; [lia|]. unfold fexp in He. unfold emin in He. lia. }
  unfold f64_trunc. rewrite Z.max_r, Z.max_l, Z.pow_0_r, Z.mul_1_r by lia.
  pose proof (pow2_pos (- e)). assert (0 <= Zpos m / 2 ^ (- e) <= Zpos m).
  { split; [apply Z.div_pos; lia | apply Z.div_le_upper_bound; [lia|]].
    rewrite <- (Z.mul_1_l (Zpos m)) at 1. apply Z.mul_le_mono_nonneg_r; lia. }
  destruct s; lia.
Qed.
