(* ===== verification/Domain.v ===== *)
(** * Domain bridge: [tpt-t-domain-bridge/src]

    The handover lifecycle ([lifecycle.rs]), the wire structs ([wire.rs]), the
    adapter contract ([dti.rs]) and the session that enforces the lifecycle in
    front of an adapter ([session.rs]).  The adapter is the class
    [DomainTeleopInterface], the request link the class [TeleopLink]; [Traced]
    wraps any adapter with a log of the calls it receives, so that theorems can
    speak of what reaches it. *)

From stdpp Require Import strings.
From S2P Require Import Prelude Float Mode Ser.

(** ** Lifecycle *)

(** [Stopped] is [HandoverState::EmergencyStop]; the plain name is the mode's. *)
Inductive HandoverState :=
| Autonomous | RequestingTeleop | TeleopActive | ReturningToAutonomy | Stopped.

#[global] Instance HandoverState_eq_dec : EqDecision HandoverState.
Proof. solve_decision. Defined.

Module Handover.

Definition ALL : list HandoverState :=
  [Autonomous; RequestingTeleop; TeleopActive; ReturningToAutonomy; Stopped].

Definition name (s : HandoverState) : string :=
  match s with
  | Autonomous => "AUTONOMOUS"
  | RequestingTeleop => "REQUESTING_TELEOP"
  | TeleopActive => "TELEOP_ACTIVE"
  | ReturningToAutonomy => "RETURNING_TO_AUTONOMY"
  | Stopped => "EMERGENCY_STOP"
  end.

Definition can_transition_to (s to : HandoverState) : bool :=
  if decide (to = Stopped) then true
  else match s, to with
       | Autonomous, RequestingTeleop
       | RequestingTeleop, Autonomous
       | RequestingTeleop, TeleopActive
       | TeleopActive, ReturningToAutonomy
       | ReturningToAutonomy, TeleopActive
       | ReturningToAutonomy, Autonomous
       | Stopped, ReturningToAutonomy => true
       | _, _ => false
       end.

Definition to_mode (s : HandoverState) : Mode :=
  match s with
  | Autonomous | RequestingTeleop => Auto
  | ReturningToAutonomy => Assist
  | TeleopActive => FullTeleop
  | Stopped => EmergencyStop
  end.

Lemma to_mode_estop s : to_mode s = EmergencyStop <-> s = Stopped.
Proof. by destruct s. Qed.

End Handover.

(** ** Wire structs *)

Module Wire.

Record Pose6DOF := { position : list f32; orientation : list f32 }.

Definition f32_one : f32 := f32_of_Z 1.

Definition IDENTITY : Pose6DOF :=
  {| position := replicate 3 f_zero; orientation := [f_zero; f_zero; f_zero; f32_one] |}.

Definition FAULT_SENSOR : Z := Z.shiftl 1 0.
Definition FAULT_ACTUATOR : Z := Z.shiftl 1 1.
Definition FAULT_OVER_TEMP : Z := Z.shiftl 1 2.
Definition FAULT_GEOFENCE : Z := Z.shiftl 1 3.
Definition FAULT_LOW_BATTERY : Z := Z.shiftl 1 4.

Record DomainState := {
  ds_timestamp_us : Z;
  pose : Pose6DOF;
  battery_pct : f32;
  fault_flags : Z
}.

Definition is_healthy (s : DomainState) : bool := fault_flags s =? 0.

Definition DomainTelemetry := DomainState.

Inductive VideoKind := Rgb | Thermal | Depth.

Definition VideoKind_as_u8 (k : VideoKind) : Z :=
  match k with Rgb => 0 | Thermal => 1 | Depth => 2 end.

Record VideoFrame := {
  vf_timestamp_us : Z; kind : VideoKind; width : Z; height : Z; data : list Z
}.

Record PointCloud := { pc_timestamp_us : Z; points : list (list f32) }.

Record HapticFeedback := { force_torque : list f32 }.

Record AudioStream := {
  as_timestamp_us : Z; sample_rate_hz : Z; channels : Z; samples : list Z
}.

Record SensorFeed := {
  sf_timestamp_us : Z;
  video_frames : list VideoFrame;
  point_clouds : list PointCloud;
  telemetry : DomainTelemetry;
  haptic_data : HapticFeedback;
  audio : option AudioStream
}.

(** the state's health is the absence of each fault bit *)
Lemma is_healthy_bits s : 0 <= fault_flags s ->
  is_healthy s = true <-> forall i, 0 <= i -> Z.testbit (fault_flags s) i = false.
Proof.
  intros H0. unfold is_healthy. rewrite Z.eqb_eq. split.
  - intros -> i _. apply Z.bits_0.
  - intros H. apply Z.bits_inj'. intros i Hi. rewrite Z.bits_0. by apply H.
Qed.

End Wire.

(** ** The adapter contract *)

(** [OperatorId(pub [u8; 16])] *)
Record OperatorId := { id_bytes : list Z }.

#[global] Instance OperatorId_eq_dec : EqDecision OperatorId.
Proof. solve_decision. Defined.

Inductive DomainError :=
| IllegalTransition (from to : HandoverState)
| NotEngaged (state : HandoverState)
| Adapter (msg : string).

#[global] Instance DomainError_eq_dec : EqDecision DomainError.
Proof. solve_decision. Defined.

Open Scope string_scope.

(** [Display] *)
Definition fmt (e : DomainError) : string :=
  match e with
  | IllegalTransition f t =>
      "handover transition " ++ Handover.name f ++ " -> " ++ Handover.name t ++ " is not permitted"
  | NotEngaged s =>
      "control command rejected: session is " ++ Handover.name s ++ ", not TELEOP_ACTIVE"
  | Adapter m => "domain adapter error: " ++ m
  end.

Close Scope string_scope.

Abbreviation Command := (Cmd.ControlCommand Z).
Abbreviation Res := (result unit DomainError).

(** A [&mut self] method returns the adapter it leaves behind; a failing one
    may have changed it too. *)
Class DomainTeleopInterface (D : Type) := {
  on_teleop_engage : D -> OperatorId -> D * Res;
  on_teleop_disengage : D -> D * Res;
  on_control_command : D -> Command -> D * Res;
  get_domain_state : D -> Wire.DomainState;
  get_sensor_feed : D -> D * Wire.SensorFeed;
  on_emergency_stop : D -> D
}.

Inductive AssistanceReason := SensorFault | ActuatorFault | GeofenceViolation | Degraded | Other.

Definition reason_as_u8 (r : AssistanceReason) : Z :=
  match r with
  | SensorFault => 0 | ActuatorFault => 1 | GeofenceViolation => 2 | Degraded => 3 | Other => 255
  end.

Class TeleopLink (L : Type) := request_teleop_assistance : L -> AssistanceReason -> L * Res.

(** ** The session *)

Module Session.
Section Session.
Context {D L : Type} `{!DomainTeleopInterface D} `{!TeleopLink L}.

Record DomainSession := {
  adapter : D;
  state : HandoverState;
  operator : option OperatorId
}.

Definition new (d : D) : DomainSession :=
  {| adapter := d; state := Autonomous; operator := None |}.

Definition mode (s : DomainSession) : Mode := Handover.to_mode (state s).

(** field updates *)
Definition with_adapter (s : DomainSession) (d : D) : DomainSession :=
  {| adapter := d; state := state s; operator := operator s |}.
Definition with_state (s : DomainSession) (h : HandoverState) : DomainSession :=
  {| adapter := adapter s; state := h; operator := operator s |}.
Definition with_operator (s : DomainSession) (o : option OperatorId) : DomainSession :=
  {| adapter := adapter s; state := state s; operator := o |}.

Definition check (s : DomainSession) (from : list HandoverState) (to : HandoverState) : Res :=
  if bool_decide (state s ∈ from) && Handover.can_transition_to (state s) to then Ok tt
  else Err (IllegalTransition (state s) to).

Definition request_assistance (s : DomainSession) (link : L) (r : AssistanceReason)
    : DomainSession * L * Res :=
  match check s [Autonomous] RequestingTeleop with
  | Err e => (s, link, Err e)
  | Ok _ =>
      let '(link, res) := request_teleop_assistance link r in
      match res with
      | Err e => (s, link, Err e)
      | Ok _ => (with_state s RequestingTeleop, link, Ok tt)
      end
  end.

Definition cancel_request (s : DomainSession) : DomainSession * Res :=
  match check s [RequestingTeleop] Autonomous with
  | Err e => (s, Err e)
  | Ok _ => (with_state s Autonomous, Ok tt)
  end.

Definition engage (s : DomainSession) (o : OperatorId) : DomainSession * Res :=
  match check s [RequestingTeleop; ReturningToAutonomy] TeleopActive with
  | Err e => (s, Err e)
  | Ok _ =>
      let '(d, res) := on_teleop_engage (adapter s) o in
      let s := with_adapter s d in
      match res with
      | Err e => (s, Err e)
      | Ok _ => (with_operator (with_state s TeleopActive) (Some o), Ok tt)
      end
  end.

Definition disengage (s : DomainSession) : DomainSession * Res :=
  match check s [TeleopActive] ReturningToAutonomy with
  | Err e => (s, Err e)
  | Ok _ =>
      let '(d, res) := on_teleop_disengage (adapter s) in
      let s := with_adapter s d in
      match res with
      | Err e => (s, Err e)
      | Ok _ => (with_operator (with_state s ReturningToAutonomy) None, Ok tt)
      end
  end.

Definition complete_handover (s : DomainSession) : DomainSession * Res :=
  match check s [ReturningToAutonomy] Autonomous with
  | Err e => (s, Err e)
  | Ok _ => (with_state s Autonomous, Ok tt)
  end.

Definition emergency_stop (s : DomainSession) : DomainSession :=
  if decide (state s = Stopped) then s
  else
    let s := with_adapter s (on_emergency_stop (adapter s)) in
    with_operator (with_state s Stopped) None.

Definition command (s : DomainSession) (cmd : Command) : DomainSession * Res :=
  if negb (bool_decide (state s = TeleopActive)) then (s, Err (NotEngaged (state s)))
  else if bool_decide (Cmd.mode cmd = Some EmergencyStop) then (emergency_stop s, Ok tt)
  else
    let '(d, res) := on_control_command (adapter s) cmd in
    (with_adapter s d, res).

Definition acknowledge_emergency_stop (s : DomainSession) : DomainSession * Res :=
  match check s [Stopped] ReturningToAutonomy with
  | Err e => (s, Err e)
  | Ok _ => (with_state s ReturningToAutonomy, Ok tt)
  end.

Definition domain_state (s : DomainSession) : Wire.DomainState := get_domain_state (adapter s).

Definition sensor_feed (s : DomainSession) : DomainSession * Wire.SensorFeed :=
  let '(d, f) := get_sensor_feed (adapter s) in (with_adapter s d, f).

(** *** Calls in any order *)

Inductive call :=
| CRequest (r : AssistanceReason)
| CCancel
| CEngage (o : OperatorId)
| CDisengage
| CComplete
| CCommand (cmd : Command)
| CStop
| CAcknowledge
| CFeed.

Definition apply (c : call) (s : DomainSession) (l : L) : DomainSession * L * Res :=
  match c with
  | CRequest r => request_assistance s l r
  | CCancel => let '(s, r) := cancel_request s in (s, l, r)
  | CEngage o => let '(s, r) := engage s o in (s, l, r)
  | CDisengage => let '(s, r) := disengage s in (s, l, r)
  | CComplete => let '(s, r) := complete_handover s in (s, l, r)
  | CCommand cmd => let '(s, r) := command s cmd in (s, l, r)
  | CStop => (emergency_stop s, l, Ok tt)
  | CAcknowledge => let '(s, r) := acknowledge_emergency_stop s in (s, l, r)
  | CFeed => (fst (sensor_feed s), l, Ok tt)
  end.

Fixpoint run (cs : list call) (s : DomainSession) (l : L) : DomainSession * L :=
  match cs with
  | [] => (s, l)
  | c :: cs => let '(s, l, _) := apply c s l in run cs s l
  end.

(** An operator is recorded exactly while teleoperation is active. *)
Definition wf (s : DomainSession) : Prop := is_Some (operator s) <-> state s = TeleopActive.

(** What one call may do to the lifecycle, whatever the adapter answers. *)
Record lifecycle_step (c : call) (s s' : DomainSession) (r : Res) : Prop := {
  ls_wf : wf s';
  ls_edge : state s' = state s \/ Handover.can_transition_to (state s) (state s') = true;
  ls_err : is_ok r = false -> state s' = state s /\ operator s' = operator s;
  ls_holder : forall o, operator s' = Some o ->
    operator s = Some o \/ (c = CEngage o /\ r = Ok tt /\ state s <> Stopped);
  ls_unlatch : state s = Stopped -> state s' <> Stopped ->
    c = CAcknowledge /\ state s' = ReturningToAutonomy
}.

Lemma check_ok s from to : state s ∈ from -> Handover.can_transition_to (state s) to = true ->
  check s from to = Ok tt.
Proof. intros H1 H2. unfold check. by rewrite bool_decide_true, H2. Qed.

Lemma check_cases s from to :
  (state s ∈ from /\ check s from to = Ok tt /\ Handover.can_transition_to (state s) to = true) \/
  check s from to = Err (IllegalTransition (state s) to).
Proof.
  unfold check. destruct (bool_decide _) eqn:E; [|by right].
  apply bool_decide_eq_true in E. destruct (Handover.can_transition_to _ _); auto.
Qed.

Ltac inlist :=
  repeat match goal with
  | H : _ ∈ [] |- _ => by apply not_elem_of_nil in H
  | H : _ ∈ _ :: _ |- _ => apply elem_of_cons in H as [H|H]
  end.

Lemma wf_new d : wf (new d).
Proof. split; [by intros [? ?] | done]. Qed.

Lemma wf_none s : operator s = None -> state s <> TeleopActive -> wf s.
Proof. intros E N. unfold wf. rewrite E. split; [by intros [? ?] | done]. Qed.

Lemma wf_inactive s : wf s -> state s <> TeleopActive -> operator s = None.
Proof. intros H N. destruct (operator s) eqn:E; [|done]. destruct N. apply H. rewrite E. eauto. Qed.

Lemma step_stay c s d r : wf s -> lifecycle_step c s (with_adapter s d) r.
Proof. intros H. split; [done| by left | done | by left | done]. Qed.

Lemma step_same c s r : wf s -> lifecycle_step c s s r.
Proof. intros H. split; [done| by left | done | by left | done]. Qed.

(** a step to a state without an operator *)
Lemma step_drop c s s' : operator s' = None -> state s' <> TeleopActive ->
  Handover.can_transition_to (state s) (state s') = true ->
  (state s = Stopped -> state s' <> Stopped -> c = CAcknowledge) ->
  lifecycle_step c s s' (Ok tt).
Proof.
  intros Ho Hs Hc Hu. split; [by apply wf_none | by right | done | by rewrite Ho |].
  intros Es Ns. split; [by apply Hu|]. rewrite Es in Hc. by destruct (state s').
Qed.

Lemma emergency_stop_step c s : wf s -> lifecycle_step c s (emergency_stop s) (Ok tt).
Proof.
  intros H. unfold emergency_stop. case_decide; [by apply step_same|].
  apply step_drop; [done | done | done | done].
Qed.

(** A request's outcome, by cases. *)
Ltac checked s :=
  match goal with
  | |- context [check s ?from ?to] =>
      destruct (check_cases s from to) as [(Hin & -> & Hc) | ->];
      [simpl in Hin; inlist | by apply step_same]
  end.

Lemma apply_step c s l s' l' r : wf s -> apply c s l = (s', l', r) -> lifecycle_step c s s' r.
Proof.
  intros Hw E.
  enough (H : lifecycle_step c s (apply c s l).1.1 (apply c s l).2) by (by rewrite E in H).
  clear E. destruct c; simpl; unfold request_assistance, cancel_request, engage, disengage,
    complete_handover, command, acknowledge_emergency_stop, sensor_feed; try checked s.
  - destruct (request_teleop_assistance l r0) as [l1 [[]|e]]; [|by apply step_same].
    apply step_drop; simpl; [|done|by rewrite Hin|by rewrite Hin].
    apply wf_inactive; [done|]. by rewrite Hin.
  - apply step_drop; simpl; [|done|by rewrite Hin|by rewrite Hin].
    apply wf_inactive; [done|]. by rewrite Hin.
  - destruct (on_teleop_engage (adapter s) o) as [d [[]|e]]; [|by apply step_stay].
    split; [by split; eauto| right; by rewrite Hin | done | | by rewrite Hin].
    intros o' [= ->]. right. by rewrite Hin.
  - destruct (on_teleop_engage (adapter s) o) as [d [[]|e]]; [|by apply step_stay].
    split; [by split; eauto| right; by rewrite Hin | done | | by rewrite Hin].
    intros o' [= ->]. right. by rewrite Hin.
  - destruct (on_teleop_disengage (adapter s)) as [d [[]|e]]; [|by apply step_stay].
    apply step_drop; simpl; [done|done|by rewrite Hin|by rewrite Hin].
  - apply step_drop; simpl; [|done|by rewrite Hin|by rewrite Hin].
    apply wf_inactive; [done|]. by rewrite Hin.
  - destruct (negb _); [by apply step_same|]. destruct (bool_decide _).
    + by apply emergency_stop_step.
    + destruct (on_control_command (adapter s) cmd) as [d r']. by apply step_stay.
  - by apply emergency_stop_step.
  - apply step_drop; simpl; [|done|by rewrite Hin|done].
    apply wf_inactive; [done|]. by rewrite Hin.
  - destruct (get_sensor_feed (adapter s)) as [d f]. by apply step_stay.
Qed.

Lemma run_wf cs s l : wf s -> wf (run cs s l).1.
Proof.
  revert s l. induction cs as [|c cs IH]; intros s l H; simpl; [done|].
  destruct (apply c s l) as [[s' l'] r] eqn:E. apply IH. by eapply ls_wf, apply_step.
Qed.

(** Without an acknowledgement a stop stays. *)
Lemma run_stopped cs s l : wf s -> state s = Stopped -> Forall (fun c => c <> CAcknowledge) cs ->
  state (run cs s l).1 = Stopped.
Proof.
  intros Hw Hs Hf. revert s l Hw Hs. induction Hf as [|c cs Hc _ IH]; intros s l Hw Hs; simpl;
    [done|]. destruct (apply c s l) as [[s' l'] r] eqn:E.
  pose proof (apply_step _ _ _ _ _ _ Hw E) as H. apply IH; [apply H|].
  destruct (decide (state s' = Stopped)) as [|N]; [done|].
  by destruct (ls_unlatch _ _ _ _ H Hs N).
Qed.

End Session.
Arguments DomainSession : clear implicits.
End Session.

(** ** What an adapter observes *)

Module Traced.
Section Traced.
Context {D L : Type} `{!DomainTeleopInterface D} `{!TeleopLink L}.

(** One call into the adapter, with its outcome where the session looks at it. *)
Inductive event :=
| EEngage (o : OperatorId) (ok : bool)
| EDisengage (ok : bool)
| ECommand (cmd : Command)
| EStop.

(** any adapter, with the log of the calls it received (latest first) *)
Definition traced : Type := D * list event.

#[export] Instance traced_dti : DomainTeleopInterface traced := {
  on_teleop_engage d o :=
    let '(d', r) := on_teleop_engage (fst d) o in ((d', EEngage o (is_ok r) :: snd d), r);
  on_teleop_disengage d :=
    let '(d', r) := on_teleop_disengage (fst d) in ((d', EDisengage (is_ok r) :: snd d), r);
  on_control_command d cmd :=
    let '(d', r) := on_control_command (fst d) cmd in ((d', ECommand cmd :: snd d), r);
  get_domain_state d := get_domain_state (fst d);
  get_sensor_feed d := let '(d', f) := get_sensor_feed (fst d) in ((d', snd d), f);
  on_emergency_stop d := (on_emergency_stop (fst d), EStop :: snd d)
}.

(** The contract of [dti.rs]: [holder es] is who holds the unit after the log
    [es], and [None] if some call came out of order: a command, or a release,
    while nobody held it, or a second engage while somebody did. *)
Fixpoint holder (es : list event) : option (option OperatorId) :=
  match es with
  | [] => Some None
  | e :: es =>
      h ← holder es;
      match e, h with
      | EEngage o ok, None => Some (if ok then Some o else None)
      | EDisengage ok, Some o => Some (if ok then None else Some o)
      | ECommand cmd, Some o =>
          if bool_decide (Cmd.mode cmd = Some EmergencyStop) then None else Some (Some o)
      | EStop, _ => Some None
      | _, _ => None
      end
  end.

(** The log conforms and agrees with the session about the holder. *)
Definition conforms (s : Session.DomainSession traced) : Prop :=
  Session.wf s /\ holder (snd (Session.adapter s)) = Some (Session.operator s).

Lemma conforms_new d : conforms (Session.new (d, [])).
Proof. split; [apply Session.wf_new | done]. Qed.

Lemma wf_active (s : Session.DomainSession traced) : Session.wf s ->
  Session.state s = TeleopActive -> exists o, Session.operator s = Some o.
Proof. intros H E. by apply H in E. Qed.

Lemma conforms_stop s : conforms s -> conforms (Session.emergency_stop s).
Proof.
  intros H. unfold Session.emergency_stop. case_decide; [done|]. destruct H as [Hw Hh].
  split; [by apply Session.wf_none|]. simpl. rewrite Hh. simpl. by destruct (Session.operator s).
Qed.

Lemma conforms_disengage s : conforms s -> conforms (Session.disengage s).1.
Proof.
  intros [Hw Hh]. unfold Session.disengage.
  destruct (Session.check_cases s [TeleopActive] ReturningToAutonomy) as [(Hin & -> & _) | ->];
    [|by split]. apply list_elem_of_singleton in Hin.
  destruct (wf_active s Hw Hin) as [o Ho]. simpl.
  destruct (on_teleop_disengage _) as [d [[]|e]]; split; simpl.
  - by apply Session.wf_none.
  - rewrite Hh, Ho. done.
  - done.
  - rewrite Hh, Ho. done.
Qed.

Lemma conforms_command s cmd : conforms s -> conforms (Session.command s cmd).1.
Proof.
  intros H. unfold Session.command. destruct (bool_decide (_ = TeleopActive)) eqn:E; simpl; [|done].
  apply bool_decide_eq_true in E. destruct (bool_decide (_ = Some EmergencyStop)) eqn:Em; simpl;
    [by apply conforms_stop|]. destruct H as [Hw Hh]. destruct (wf_active s Hw E) as [o Ho].
  destruct (on_control_command _ _) as [d r]. simpl. split; [done|]. simpl.
  rewrite Hh, Ho. simpl. by rewrite Em.
Qed.

Lemma conforms_engage s o : conforms s -> conforms (Session.engage s o).1.
Proof.
  intros [Hw Hh]. unfold Session.engage.
  destruct (Session.check_cases s [RequestingTeleop; ReturningToAutonomy] TeleopActive)
    as [(Hin & -> & _) | ->]; [|by split].
  assert (Ho : Session.operator s = None).
  { apply Session.wf_inactive; [done|]. intros E. rewrite E in Hin. set_solver. }
  simpl. destruct (on_teleop_engage _ _) as [d [[]|e]]; simpl.
  - split; [by split; eauto|]. simpl. by rewrite Hh, Ho.
  - split; [done|]. simpl. by rewrite Hh, Ho.
Qed.

(** the other calls leave the adapter and the operator alone *)
Lemma conforms_same (s s' : Session.DomainSession traced) : conforms s -> Session.wf s' ->
  snd (Session.adapter s') = snd (Session.adapter s) ->
  Session.operator s' = Session.operator s -> conforms s'.
Proof. intros [_ Hh] Hw Ea Eo. split; [done|]. by rewrite Ea, Eo. Qed.

Lemma conforms_apply c s (l : L) : conforms s -> conforms (Session.apply c s l).1.1.
Proof.
  intros H. destruct (Session.apply c s l) as [[s' l'] r] eqn:E. simpl.
  pose proof (Session.ls_wf _ _ _ _ (Session.apply_step _ _ _ _ _ _ (proj1 H) E)) as Hw'.
  destruct c; simpl in E.
  - unfold Session.request_assistance in E. repeat case_match; simplify_eq;
      by (eapply conforms_same; [exact H|..]).
  - unfold Session.cancel_request in E. repeat case_match; simplify_eq; by (eapply conforms_same; [exact H|..]).
  - pose proof (conforms_engage s o H). by destruct (Session.engage s o); simplify_eq.
  - pose proof (conforms_disengage s H). by destruct (Session.disengage s); simplify_eq.
  - unfold Session.complete_handover in E. repeat case_match; simplify_eq; by (eapply conforms_same; [exact H|..]).
  - pose proof (conforms_command s cmd H). by destruct (Session.command s cmd); simplify_eq.
  - simplify_eq. by apply conforms_stop.
  - unfold Session.acknowledge_emergency_stop in E. repeat case_match; simplify_eq;
      by (eapply conforms_same; [exact H|..]).
  - simplify_eq. apply (conforms_same s); [done | done | |];
      unfold Session.sensor_feed; simpl; by destruct (get_sensor_feed _).
Qed.

Lemma conforms_run cs s (l : L) : conforms s -> conforms (Session.run cs s l).1.
Proof.
  revert s l. induction cs as [|c cs IH]; intros s l H; simpl; [done|].
  pose proof (conforms_apply c s l H). destruct (Session.apply c s l) as [[s' l'] r]. by apply IH.
Qed.

End Traced.
Arguments traced : clear implicits.
End Traced.
#[export] Existing Instance Traced.traced_dti.

(** ** Theorems *)

(** C30: From a fresh session, whatever calls arrive and whatever the adapter and
    the link answer: an operator is recorded exactly while the lifecycle is in
    [TELEOP_ACTIVE]; one further call keeps that, stays where it is or follows
    an edge of the lifecycle, leaves state and operator alone when it reports an
    error, makes an operator the holder only by that operator's successful
    engage (never out of a stop), and leaves a stop only by its
    acknowledgement, into [RETURNING_TO_AUTONOMY]. *)
Theorem session_lifecycle {D L} `{!DomainTeleopInterface D} `{!TeleopLink L}
    (d : D) (l : L) (cs : list Session.call) (c : Session.call) :
  let s := (Session.run cs (Session.new d) l).1 in
  let '(s', _, r) := Session.apply c s (Session.run cs (Session.new d) l).2 in
  Session.wf s /\ Session.lifecycle_step c s s' r.
Proof.
  intros s. destruct (Session.apply c s _) as [[s' l'] r] eqn:E.
  assert (Hw : Session.wf s) by apply Session.run_wf, Session.wf_new.
  split; [done|]. by eapply Session.apply_step.
Qed.

(** The adapter contract of the DTI: over any adapter, however the calls are
    ordered and whichever of its calls fail, the log the adapter sees never
    contains a command or a release while nobody holds the unit, never a second
    engage while somebody does, and never an emergency-stop command as a plain
    command; and the session and the log agree on who holds it. *)
Theorem adapter_sees_only_its_contract {D L} `{!DomainTeleopInterface D} `{!TeleopLink L}
    (d : D) (l : L) (cs : list Session.call) :
  let s := (Session.run cs (Session.new ((d, []) : Traced.traced D)) l).1 in
  Traced.holder (snd (Session.adapter s)) = Some (Session.operator s) /\
  (is_Some (Session.operator s) <-> Session.state s = TeleopActive).
Proof.
  intros s. destruct (Traced.conforms_run cs (Session.new (d, [])) l (Traced.conforms_new d)) as [Hw Hh].
  done.
Qed.

(** An adapter that accepts everything, and a link that delivers. *)
Module Demo.
Definition state : Wire.DomainState :=
  {| Wire.ds_timestamp_us := 3; Wire.pose := Wire.IDENTITY; Wire.battery_pct := f32_lit 175 2;
     Wire.fault_flags := Wire.FAULT_OVER_TEMP |}.
Definition feed : Wire.SensorFeed :=
  {| Wire.sf_timestamp_us := 3; Wire.video_frames := []; Wire.point_clouds := [];
     Wire.telemetry := state; Wire.haptic_data := {| Wire.force_torque := replicate 6 f_zero |};
     Wire.audio := None |}.
#[export] Instance adapter : DomainTeleopInterface unit := {
  on_teleop_engage d _ := (d, Ok tt); on_teleop_disengage d := (d, Ok tt);
  on_control_command d _ := (d, Ok tt); get_domain_state _ := state;
  get_sensor_feed d := (d, feed); on_emergency_stop d := d
}.
#[export] Instance link : TeleopLink unit := fun l _ => (l, Ok tt).
Definition op7 : OperatorId := {| id_bytes := replicate 16 7 |}.
Definition drive : Command := Cmd.zeroed 0 FullTeleop.
Definition stop_cmd : Command := Cmd.zeroed 0 EmergencyStop.
Definition after (cs : list Session.call) : Session.DomainSession (Traced.traced unit) :=
  (Session.run cs (Session.new (tt, [])) tt).1.
End Demo.
Import Demo.

Example full_cycle_trace :
  snd (Session.adapter (after [Session.CCommand drive; Session.CRequest Degraded;
    Session.CEngage op7; Session.CCommand drive; Session.CCommand stop_cmd; Session.CStop;
    Session.CEngage op7; Session.CAcknowledge; Session.CEngage op7; Session.CDisengage])) =
  [Traced.EDisengage true; Traced.EEngage op7 true; Traced.EStop; Traced.ECommand drive;
   Traced.EEngage op7 true].
Proof. reflexivity. Qed.

(** The latch and its limit.  A stop, in whatever state it arrives, is
    reported as the emergency-stop mode until it is acknowledged, over any calls;
    an emergency-stop command in the command stream has the same effect while
    teleoperation is active, but in every other state it is refused as
    [NotEngaged] and stops nothing. *)
Theorem stop_latches_session {D L} `{!DomainTeleopInterface D} `{!TeleopLink L}
    (d : D) (l : L) (before after : list Session.call) (cmd : Command) :
  Cmd.mode cmd = Some EmergencyStop ->
  Forall (fun c => c <> Session.CAcknowledge) after ->
  let '(s, l1) := Session.run before (Session.new d) l in
  Session.mode (Session.run after (Session.emergency_stop s) l1).1 = EmergencyStop /\
  (Session.state s = TeleopActive -> Session.command s cmd = (Session.emergency_stop s, Ok tt)) /\
  (Session.state s <> TeleopActive ->
     Session.command s cmd = (s, Err (NotEngaged (Session.state s)))).
Proof.
  intros Hc Ha. pose proof (Session.run_wf before (Session.new d) l (Session.wf_new d)) as Hw.
  destruct (Session.run before (Session.new d) l) as [s l1]. simpl in Hw.
  pose proof (Session.emergency_stop_step Session.CStop s Hw) as [Hw' _ _ _ _].
  split_and!.
  - apply Handover.to_mode_estop, Session.run_stopped; [done| |done].
    unfold Session.emergency_stop. by case_decide.
  - intros E. unfold Session.command. by rewrite !bool_decide_true.
  - intros E. unfold Session.command. by rewrite bool_decide_false.
Qed.

Lemma stop_latches_session_witness :
  let '(s, l1) := Session.run [] (Session.new tt) tt in
  Session.mode (Session.run [Session.CRequest Other; Session.CEngage op7]
                  (Session.emergency_stop s) l1).1 = EmergencyStop /\
  Session.command s stop_cmd = (s, Err (NotEngaged Autonomous)).
Proof.
  assert (Hf : Forall (fun c => c <> Session.CAcknowledge)
                 [Session.CRequest Other; Session.CEngage op7]) by (repeat constructor; done).
  pose proof (stop_latches_session tt tt [] [Session.CRequest Other; Session.CEngage op7] stop_cmd
                eq_refl Hf) as (H1 & _ & H3).
  split; [exact H1 | apply H3; done].
Defined.
