(* ===== verification/Json.v ===== *)
(** * JSON: [tpt-t-cloud/src/json.rs]

    The value type, its accessors, the serializer and the recursive-descent
    parser.  A parser's cursor [(b, i)] is the suffix [&b[i..]] still to read:
    [*i >= b.len()] is an empty suffix, [*i += 1] drops its first byte.  The
    recursion is bounded by fuel; [parse] supplies [3 * len + 1], which is always
    enough.  Strings are lists of [char]s, texts lists of bytes. *)

From stdpp Require Import strings.
From S2P Require Import Prelude Float Text FloatText.

Unset Elimination Schemes.
Inductive Json :=
| Null
| Bool (b : bool)
| Num (n : f64)
| Str (s : list Z)
| Arr (items : list Json)
| Obj (fields : list (list Z * Json)).
Set Elimination Schemes.

(** induction through the nested lists *)
Section Json_ind.
Variable P : Json -> Prop.
Hypothesis HNull : P Null.
Hypothesis HBool : forall b, P (Bool b).
Hypothesis HNum : forall n, P (Num n).
Hypothesis HStr : forall s, P (Str s).
Hypothesis HArr : forall items, Forall P items -> P (Arr items).
Hypothesis HObj : forall fields, Forall (fun f => P f.2) fields -> P (Obj fields).
Fixpoint Json_ind (v : Json) : P v :=
  match v with
  | Null => HNull
  | Bool b => HBool b
  | Num n => HNum n
  | Str s => HStr s
  | Arr items => HArr items
      ((fix go l : Forall P l :=
          match l with [] => Forall_nil_2 _ | v :: l => Forall_cons_2 _ _ _ (Json_ind v) (go l) end) items)
  | Obj fields => HObj fields
      ((fix go l : Forall (fun f => P f.2) l :=
          match l with
          | [] => Forall_nil_2 _
          | f :: l => Forall_cons_2 _ _ _ (Json_ind f.2) (go l)
          end) fields)
  end.
End Json_ind.

Module Json.

(** ** Building and reading *)

Definition obj (fields : list (list Z * Json)) : Json := Obj fields.
Definition obj_str (fields : list (list Z * list Z)) : Json :=
  Obj (map (fun '(k, v) => (k, Str v)) fields).
Definition obj_num (fields : list (list Z * f64)) : Json :=
  Obj (map (fun '(k, v) => (k, Num v)) fields).
Definition str (s : list Z) : Json := Str s.
Definition num (n : f64) : Json := Num n.
Definition uint (n : Z) : Json := Num (f64_of_Z n).
Definition arr (items : list Json) : Json := Arr items.

Definition get (v : Json) (key : list Z) : option Json :=
  match v with
  | Obj f => snd <$> List.find (fun kv => bool_decide (kv.1 = key)) f
  | _ => None
  end.
Definition as_str (v : Json) : option (list Z) :=
  match v with Str s => Some s | _ => None end.
Definition as_u64 (v : Json) : option Z :=
  match v with Num n => Some (f64_as_u64 n) | _ => None end.
Definition as_bool (v : Json) : option bool :=
  match v with Bool b => Some b | _ => None end.
Definition as_array (v : Json) : option (list Json) :=
  match v with Arr items => Some items | _ => None end.

(** ** Serializer *)

Definition write_char (c : Z) : list Z :=
  if c =? 34 then [92; 34]
  else if c =? 92 then [92; 92]
  else if c =? 10 then [92; 110]
  else if c =? 13 then [92; 114]
  else if c =? 9 then [92; 116]
  else if c =? 8 then [92; 98]
  else if c =? 12 then [92; 102]
  else if c <? 0x20 then [92; 117; 48; 48; hex_digit (c / 16); hex_digit (c mod 16)]
  else [c].

Definition write_json_string (s : list Z) : list Z := [34] ++ concat (map write_char s) ++ [34].

Definition write_num (n : f64) : list Z :=
  if is_finite n && f64_integral n && flt (SFabs n) (f64_of_Z (10 ^ 15)) then
    dec_signed (f64_as_i64 n)
  else f64_display n.

(** the loop over [enumerate()] that pushes [','] when [i > 0] *)
Definition commas (ls : list (list Z)) : list Z :=
  match ls with [] => [] | x :: ls => x ++ concat (map (cons 44) ls) end.

Fixpoint write (v : Json) : list Z :=
  match v with
  | Null => ascii_bytes "null"
  | Bool true => ascii_bytes "true"
  | Bool false => ascii_bytes "false"
  | Num n => write_num n
  | Str s => write_json_string s
  | Arr items => [91] ++ commas (map write items) ++ [93]
  | Obj fields =>
      [123] ++ commas (map (fun '(k, v) => write_json_string k ++ [58] ++ write v) fields) ++ [125]
  end.

Definition write_to_string (v : Json) : list Z := write v.

(** ** Parser *)

Abbreviation err s := (Err (ascii_bytes s)).
Abbreviation presult A := (result (A * list Z) (list Z)).

Definition is_ws (c : Z) : bool := (c =? 32) || (c =? 9) || (c =? 10) || (c =? 13).

Fixpoint skip_ws (b : list Z) : list Z :=
  match b with
  | [] => []
  | c :: b' => if is_ws c then skip_ws b' else b
  end.

Definition expect (b lit : list Z) : result (list Z) (list Z) :=
  if bool_decide (take (length lit) b = lit) then Ok (drop (length lit) b)
  else Err (ascii_bytes "expected '" ++ lit ++ [39]).

(** [u32::from_str_radix(_, 16)] of four bytes: one leading [+] is a sign *)
Definition hex4 (h1 h2 h3 h4 : Z) : option Z :=
  a ← (if h1 =? 43 then Some 0 else hex_val h1);
  b ← hex_val h2; c ← hex_val h3; d ← hex_val h4;
  Some (((a * 16 + b) * 16 + c) * 16 + d).

(** the loop of [parse_string], after the opening quote; [s] is what it built *)
Fixpoint parse_string_loop (b s : list Z) : presult (list Z) :=
  match b with
  | [] => err "unterminated string"
  | c :: b =>
      if c =? 34 then Ok (s, b)
      else if c =? 92 then
        match b with
        | [] => err "unterminated escape"
        | e :: b =>
            if e =? 34 then parse_string_loop b (s ++ [34])
            else if e =? 92 then parse_string_loop b (s ++ [92])
            else if e =? 47 then parse_string_loop b (s ++ [47])
            else if e =? 110 then parse_string_loop b (s ++ [10])
            else if e =? 114 then parse_string_loop b (s ++ [13])
            else if e =? 116 then parse_string_loop b (s ++ [9])
            else if e =? 98 then parse_string_loop b (s ++ [8])
            else if e =? 102 then parse_string_loop b (s ++ [12])
            else if e =? 117 then
              match b with
              | h1 :: h2 :: h3 :: h4 :: b =>
                  match hex4 h1 h2 h3 h4 with
                  | None => err "bad \u escape"
                  | Some code =>
                      match char_from_u32 code with
                      | None => err "bad \u codepoint"
                      | Some ch => parse_string_loop b (s ++ [ch])
                      end
                  end
              | _ => err "bad \u escape"
              end
            else Err (ascii_bytes "bad escape '\" ++ [e; 39])
        end
      else parse_string_loop b (s ++ [c])
  end.

Definition parse_string (b : list Z) : presult (list Z) := parse_string_loop (drop 1 b) [].

(** [if *i < b.len() && p(b[*i]) { *i += 1; .. }]: the byte taken, if any *)
Definition take_if (p : Z -> bool) (b : list Z) : list Z * list Z :=
  match b with c :: b' => if p c then ([c], b') else ([], b) | [] => ([], []) end.

(** the bytes [parse_number] passes over, and the rest *)
Definition scan_number (b : list Z) : list Z * list Z :=
  let '(sg, b) := take_if (fun c => c =? 45) b in
  let '(ip, b) := span_digits b in
  let '(dot, b) := take_if (fun c => c =? 46) b in
  let '(fp, b) := match dot with [] => ([], b) | _ => span_digits b end in
  let '(ex, b) := take_if (fun c => (c =? 101) || (c =? 69)) b in
  let '(es, b) := match ex with
                  | [] => ([], b)
                  | _ => take_if (fun c => (c =? 43) || (c =? 45)) b
                  end in
  let '(ep, b) := match ex with [] => ([], b) | _ => span_digits b end in
  (sg ++ ip ++ dot ++ fp ++ ex ++ es ++ ep, b).

Definition parse_number (b : list Z) : presult f64 :=
  let '(slice, b) := scan_number b in
  match f64_from_str slice with
  | Some n => Ok (n, b)
  | None => err "invalid number"
  end.

Definition map_fst {A B} (f : A -> B) (r : presult A) : presult B :=
  match r with Ok (a, b) => Ok (f a, b) | Err e => Err e end.

Definition lit (b : list Z) (s : list Z) (v : Json) : presult Json :=
  match expect b s with Ok b => Ok (v, b) | Err e => Err e end.

Fixpoint parse_value (fuel : nat) (b : list Z) : exec (presult Json) :=
  match fuel with
  | O => NoFuel
  | S fuel =>
      let b := skip_ws b in
      match b with
      | [] => Ret (err "unexpected end of input")
      | c :: b' =>
          if c =? 34 then Ret (map_fst Str (parse_string b))
          else if c =? 123 then
            (* parse_object *)
            let b := skip_ws b' in
            match b with
            | c :: b' => if c =? 125 then Ret (Ok (Obj [], b')) else object_loop fuel b []
            | [] => object_loop fuel b []
            end
          else if c =? 91 then
            (* parse_array *)
            let b := skip_ws b' in
            match b with
            | c :: b' => if c =? 93 then Ret (Ok (Arr [], b')) else array_loop fuel b []
            | [] => array_loop fuel b []
            end
          else if c =? 116 then Ret (lit b (ascii_bytes "true") (Bool true))
          else if c =? 102 then Ret (lit b (ascii_bytes "false") (Bool false))
          else if c =? 110 then Ret (lit b (ascii_bytes "null") Null)
          else if (c =? 45) || is_digit c then Ret (map_fst Num (parse_number b))
          else Ret (Err (ascii_bytes "unexpected character '" ++ [c] ++ ascii_bytes "' in JSON"))
      end
  end
with array_loop (fuel : nat) (b : list Z) (items : list Json) : exec (presult Json) :=
  match fuel with
  | O => NoFuel
  | S fuel =>
      r ← parse_value fuel b;
      match r with
      | Err e => Ret (Err e)
      | Ok (v, b) =>
          let items := items ++ [v] in
          match skip_ws b with
          | [] => Ret (err "unterminated array")
          | c :: b =>
              if c =? 44 then array_loop fuel b items
              else if c =? 93 then Ret (Ok (Arr items, b))
              else Ret (err "expected ',' or ']' in array")
          end
      end
  end
with object_loop (fuel : nat) (b : list Z) (fields : list (list Z * Json)) : exec (presult Json) :=
  match fuel with
  | O => NoFuel
  | S fuel =>
      let b := skip_ws b in
      if match b with c :: _ => c =? 34 | [] => false end then
        match parse_string b with
        | Err e => Ret (Err e)
        | Ok (key, b) =>
            match skip_ws b with
            | [] => Ret (err "expected ':' in object")
            | c :: b =>
                if c =? 58 then
                  r ← parse_value fuel b;
                  match r with
                  | Err e => Ret (Err e)
                  | Ok (v, b) =>
                      let fields := fields ++ [(key, v)] in
                      match skip_ws b with
                      | [] => Ret (err "unterminated object")
                      | c :: b =>
                          if c =? 44 then object_loop fuel b fields
                          else if c =? 125 then Ret (Ok (Obj fields, b))
                          else Ret (err "expected ',' or '}' in object")
                      end
                  end
                else Ret (err "expected ':' in object")
            end
        end
      else Ret (err "expected object key string")
  end.

Definition parse (bytes : list Z) : exec (result Json (list Z)) :=
  r ← parse_value (3 * length bytes + 1) bytes;
  match r with
  | Err e => Ret (Err e)
  | Ok (v, b) =>
      match skip_ws b with
      | [] => Ret (Ok v)
      | _ => Ret (err "trailing data after JSON value")
      end
  end.

(** ** Progress: a success consumes input *)

Definition shorter {A} (b : list Z) (r : presult A) : Prop :=
  match r with Ok (_, b') => (length b' < length b)%nat | Err _ => True end.

Lemma skip_ws_length b : (length (skip_ws b) <= length b)%nat.
Proof. induction b as [|c b IH]; simpl; [lia|]. destruct (is_ws c); simpl; lia. Qed.

Lemma skip_ws_cons b c b' : skip_ws b = c :: b' -> (length b' < length b)%nat.
Proof. intros E. pose proof (skip_ws_length b) as H. rewrite E in H. simpl in H. lia. Qed.

Lemma shorter_le {A} b b' (r : presult A) :
  shorter b' r -> (length b' <= length b)%nat -> shorter b r.
Proof. destruct r as [[a r]|e]; simpl; [lia | done]. Qed.

Lemma parse_string_loop_shorter b s : shorter b (parse_string_loop b s).
Proof.
  remember (length b) as n eqn:E. revert b s E.
  induction (lt_wf n) as [n _ IH]. intros b s ->.
  assert (H : forall b' s', (length b' < length b)%nat -> shorter b (parse_string_loop b' s')).
  { intros b' s' Hl. eapply shorter_le; [by eapply (IH (length b')) | lia]. }
  destruct b as [|c b]; [done|]. simpl. destruct (c =? 34); [simpl; lia|].
  destruct (c =? 92); [|apply H; simpl; lia].
  destruct b as [|e b]; [done|].
  repeat (case_if; [apply H; simpl; lia|]). case_if; [|done].
  destruct b as [|h1 [|h2 [|h3 [|h4 b]]]]; try done.
  destruct (hex4 h1 h2 h3 h4); [|done]. destruct (char_from_u32 _); [|done].
  apply H; simpl; lia.
Qed.

Lemma parse_string_shorter b : b <> [] -> shorter b (parse_string b).
Proof.
  intros Hb. unfold parse_string. eapply shorter_le; [apply parse_string_loop_shorter|].
  rewrite length_drop. lia.
Qed.

Lemma take_if_length p b x r : take_if p b = (x, r) -> length b = (length x + length r)%nat.
Proof. destruct b as [|c b]; simpl; [by intros [= <- <-]|]. case_if; by intros [= <- <-]. Qed.

Lemma scan_number_length b t r : scan_number b = (t, r) -> length b = (length t + length r)%nat.
Proof.
  unfold scan_number. repeat case_match; intros [= <- <-];
    repeat match goal with
    | H : take_if _ _ = _ |- _ => apply take_if_length in H
    | H : span_digits _ = _ |- _ => apply span_digits_length in H
    | H : ([], _) = (_, _) |- _ => injection H as <- <-
    end; subst; do 4 (simpl in *; rewrite ?length_app); lia.
Qed.

Lemma parse_number_shorter b : shorter b (parse_number b).
Proof.
  unfold parse_number. destruct (scan_number b) as [t r] eqn:E. apply scan_number_length in E.
  destruct (f64_from_str t) eqn:F; [|done]. simpl.
  destruct t as [|c t]; [vm_compute in F; discriminate|]. simpl in E. lia.
Qed.

Lemma lit_shorter b s v : s <> [] -> shorter b (lit b s v).
Proof.
  intros Hs. unfold lit, expect. case_if; [|done]. simpl.
  apply bool_decide_eq_true in Heqb0.
  apply (f_equal length) in Heqb0. rewrite length_take in Heqb0. rewrite length_drop.
  destruct s; [done|]. cbn [length] in *. lia.
Qed.

Lemma map_fst_shorter {A B} (f : A -> B) b r : shorter b r -> shorter b (map_fst f r).
Proof. by destruct r as [[a b']|e]. Qed.

(** [m] returns, and consumes some of [b] when it succeeds *)
Definition returns {A} (b : list Z) (m : exec (presult A)) : Prop :=
  exists r, m = Ret r /\ shorter b r.

Lemma returns_ret {A} b (r : presult A) : shorter b r -> returns b (Ret r).
Proof. by exists r. Qed.

Lemma returns_le {A} b b' (m : exec (presult A)) :
  returns b' m -> (length b' <= length b)%nat -> returns b m.
Proof. intros (r & E & H) Hl. exists r. split; [done | by eapply shorter_le]. Qed.

(** The fuel [3 len + 1] covers a value, [3 len + 2] a loop. *)
Lemma parse_returns fuel :
  (forall b, (3 * length b + 1 <= fuel)%nat -> returns b (parse_value fuel b)) /\
  (forall b items, (3 * length b + 2 <= fuel)%nat -> returns b (array_loop fuel b items)) /\
  (forall b fields, (3 * length b + 2 <= fuel)%nat -> returns b (object_loop fuel b fields)).
Proof.
  induction fuel as [|fuel (IHv & IHa & IHo)]; [split_and!; intros; lia|]. split_and!.
  - intros b Hf. cbn [parse_value]. pose proof (skip_ws_length b) as Hl.
    destruct (skip_ws b) as [|c b'] eqn:Eb; [by apply returns_ret|]. simpl in Hl.
    apply returns_le with (c :: b'); [|simpl; lia].
    case_if; [by apply returns_ret, map_fst_shorter, parse_string_shorter|].
    pose proof (skip_ws_length b') as Hl'.
    case_if.
    { destruct (skip_ws b') as [|c' b''] eqn:Eb'; simpl in *.
      - eapply returns_le; [apply IHo; simpl; lia | simpl; lia].
      - case_if; [by apply returns_ret; simpl; lia|].
        eapply returns_le; [apply IHo; simpl; lia | simpl; lia]. }
    case_if.
    { destruct (skip_ws b') as [|c' b''] eqn:Eb'; simpl in *.
      - eapply returns_le; [apply IHa; simpl; lia | simpl; lia].
      - case_if; [by apply returns_ret; simpl; lia|].
        eapply returns_le; [apply IHa; simpl; lia | simpl; lia]. }
    do 3 (case_if; [by apply returns_ret, lit_shorter|]).
    case_if; by apply returns_ret, map_fst_shorter, parse_number_shorter || by apply returns_ret.
  - intros b items Hf. cbn [array_loop].
    destruct (IHv b) as (r & -> & Hr); [lia|]. simpl. destruct r as [[v b1]|e]; [|by apply returns_ret].
    simpl in Hr. destruct (skip_ws b1) as [|c b2] eqn:E; [by apply returns_ret|].
    apply skip_ws_cons in E.
    case_if; [eapply returns_le; [apply IHa; lia | lia]|].
    case_if; apply returns_ret; simpl; [lia | done].
  - intros b fields Hf. cbn [object_loop]. pose proof (skip_ws_length b) as Hl.
    destruct (skip_ws b) as [|c b'] eqn:Eb; [by apply returns_ret|].
    apply returns_le with (c :: b'); [|lia]. case_if; [|by apply returns_ret].
    pose proof (parse_string_shorter (c :: b')) as Hs.
    destruct (parse_string (c :: b')) as [[key b1]|e]; [|by apply returns_ret]. simpl in Hs, Hl.
    specialize (Hs ltac:(done)).
    destruct (skip_ws b1) as [|c1 b2] eqn:E; [by apply returns_ret|]. apply skip_ws_cons in E.
    case_if; [|by apply returns_ret].
    destruct (IHv b2) as (r & -> & Hr); [lia|]. simpl. destruct r as [[v b3]|e]; [|by apply returns_ret].
    simpl in Hr. destruct (skip_ws b3) as [|c3 b4] eqn:E3; [by apply returns_ret|].
    apply skip_ws_cons in E3.
    case_if; [eapply returns_le; [apply IHo; lia | simpl; lia]|].
    case_if; apply returns_ret; simpl; [lia | done].
Qed.

(** ** Reading back what was written *)

(** A serializable value: finite numbers, strings of scalar values. *)
Fixpoint finite (v : Json) : Prop :=
  match v with
  | Num n => f64_valid n /\ is_finite n = true
  | Str s => Forall (fun c => is_char c = true) s
  | Arr items => foldr (fun v P => finite v /\ P) True items
  | Obj fields =>
      foldr (fun f P => (Forall (fun c => is_char c = true) f.1 /\ finite f.2) /\ P) True fields
  | _ => True
  end.

(** What comes back: a string's UTF-8 bytes as so many characters, and [-0]
    without its sign. *)
Definition reread_num (n : f64) : f64 :=
  match n with S754_zero _ => S754_zero false | _ => n end.
Fixpoint reread (v : Json) : Json :=
  match v with
  | Num n => Num (reread_num n)
  | Str s => Str (utf8 s)
  | Arr items => Arr (map reread items)
  | Obj fields => Obj (map (fun '(k, v) => (utf8 k, reread v)) fields)
  | v => v
  end.

(** the bytes of the text *)
Definition text (v : Json) : list Z := utf8 (write v).

(** *** Strings *)

Definition plain_byte (c : Z) : Prop := c <> 34 /\ c <> 92.

Lemma loop_raw bs r s : Forall plain_byte bs ->
  parse_string_loop (bs ++ r) s = parse_string_loop r (s ++ bs).
Proof.
  intros H. revert s. induction H as [|c bs [H1 H2] _ IH]; intros s; [by rewrite app_nil_r|].
  simpl. destruct (Z.eqb_spec c 34); [done|]. destruct (Z.eqb_spec c 92); [done|].
  by rewrite IH, <- app_assoc.
Qed.

Lemma loop_char c r s : is_char c = true ->
  parse_string_loop (utf8 (write_char c) ++ r) s = parse_string_loop r (s ++ encode_utf8 c).
Proof.
  intros Hc. pose proof Hc as Hc'. unfold is_char in Hc'. zbool. unfold write_char.
  destruct (Z.eqb_spec c 34) as [->|]; [done|]. destruct (Z.eqb_spec c 92) as [->|]; [done|].
  destruct (Z.eqb_spec c 10) as [->|]; [done|]. destruct (Z.eqb_spec c 13) as [->|]; [done|].
  destruct (Z.eqb_spec c 9) as [->|]; [done|]. destruct (Z.eqb_spec c 8) as [->|]; [done|].
  destruct (Z.eqb_spec c 12) as [->|]; [done|]. destruct (Z.ltb_spec c 0x20).
  - assert (Hin : c ∈ seqZ 0 32) by (apply elem_of_seqZ; lia).
    repeat (apply elem_of_cons in Hin as [->|Hin]; [done|]). by apply not_elem_of_nil in Hin.
  - change (utf8 [c]) with (encode_utf8 c ++ []). rewrite app_nil_r. apply loop_raw.
    destruct (Z.ltb_spec c 128).
    + unfold encode_utf8. destruct (Z.ltb_spec c 128); [|lia]. by repeat constructor.
    + apply (Forall_impl _ _ _ (encode_utf8_high c H3 Hc)). unfold plain_byte. lia.
Qed.

Lemma loop_chars k r s : Forall (fun c => is_char c = true) k ->
  parse_string_loop (utf8 (concat (map write_char k)) ++ 34 :: r) s = Ok (s ++ utf8 k, r).
Proof.
  intros H. revert s. induction H as [|c k Hc _ IH]; intros s; simpl.
  - by rewrite app_nil_r.
  - rewrite utf8_app, <- app_assoc, loop_char, IH, <- app_assoc by done. done.
Qed.

Lemma utf8_cons c s : 0 <= c < 128 -> utf8 (c :: s) = c :: utf8 s.
Proof. intros H. change (c :: s) with ([c] ++ s). rewrite utf8_app, (utf8_ascii [c]); [done|]. by constructor. Qed.

Lemma utf8_string k : utf8 (write_json_string k) = 34 :: utf8 (concat (map write_char k)) ++ [34].
Proof. unfold write_json_string. simpl. rewrite utf8_cons, utf8_app by lia. done. Qed.

Lemma parse_string_written k r : Forall (fun c => is_char c = true) k ->
  parse_string (utf8 (write_json_string k) ++ r) = Ok (utf8 k, r).
Proof.
  intros H. unfold parse_string. rewrite utf8_string.
  change (drop 1 ((34 :: ?a) ++ r)) with (a ++ r). rewrite <- app_assoc. by apply loop_chars.
Qed.

(** *** Numbers *)

Lemma scan_decimal s t ip fp dot r : decimal_text t ip fp dot -> ends_number r ->
  scan_number ((neg_sign s ++ t) ++ r) = (neg_sign s ++ t, r).
Proof.
  intros [-> Hi Hf Hne Hd] Hr. unfold scan_number.
  assert (Hs : take_if (fun c => c =? 45)
            ((neg_sign s ++ ip ++ (if dot then [46] else []) ++ fp) ++ r) =
            (neg_sign s, ip ++ (if dot then [46] else []) ++ fp ++ r)).
  { rewrite <- !app_assoc. destruct s; [done|]. destruct Hi as [|c ip Hc _]; [done|].
    unfold is_digit in Hc. zbool. simpl. destruct (Z.eqb_spec c 45); [lia | done]. }
  rewrite Hs. clear Hs.
  assert (He : forall b, take_if (fun c => c =? b) r = ([], r) \/ b <> 46).
  { intros b. destruct r as [|c r]; [by left|]. simpl in Hr |- *.
    destruct (Z.eqb_spec c b) as [->|]; [right; tauto | by left]. }
  assert (Hx : take_if (fun c => (c =? 101) || (c =? 69)) r = ([], r)).
  { destruct r as [|c r]; [done|]. simpl in Hr |- *. destruct Hr as (_ & _ & ? & ?).
    destruct (Z.eqb_spec c 101); [done|]. by destruct (Z.eqb_spec c 69). }
  destruct dot.
  - rewrite (span_digits_app ip ([46] ++ fp ++ r)) by done. cbn [app take_if Z.eqb Pos.eqb].
    rewrite (span_digits_app fp r) by (done || by apply ends_no_digit). rewrite Hx.
    by rewrite !app_nil_r.
  - rewrite (Hd eq_refl) in *. cbn [app].
    rewrite (span_digits_app ip r) by (done || by apply ends_no_digit).
    destruct (He 46) as [->|]; [|done]. rewrite Hx. by rewrite !app_nil_r.
Qed.

Lemma write_num_text n : f64_valid n -> is_finite n = true ->
  exists s t ip fp dot, write_num n = neg_sign s ++ t /\ decimal_text t ip fp dot /\
    f64_from_str (write_num n) = Some (reread_num n).
Proof.
  intros Hv Hf. unfold write_num. rewrite Hf. simpl.
  destruct (f64_integral n) eqn:Ei; simpl; [destruct (flt _ _) eqn:El|].
  - pose proof (abs_below_1e15 n Hv Hf El) as Hb. clear El.
    rewrite f64_as_i64_small, integral_from_str by done.
    destruct (dec_signed_text (f64_trunc n)) as (s & t & E & Ht). by exists s, t, t, [], false.
  - assert (Hz : reread_num n = n).
    { destruct n as [[]|[]| |]; try reflexivity; vm_compute in El; discriminate El. }
    clear El. destruct (display_text n Hv Hf) as (s & t & ip & fp & dot & E & Ht).
    exists s, t, ip, fp, dot. split_and!; [done | done |]. by rewrite display_from_str, Hz.
  - destruct (display_text n Hv Hf) as (s & t & ip & fp & dot & E & Ht).
    exists s, t, ip, fp, dot. split_and!; [done | done |].
    rewrite display_from_str by done. by destruct n as [| | |].
Qed.

(** *** Values *)

(** a byte a value may start with *)
Definition starts (c : Z) : Prop := is_ws c = false /\ c <> 93 /\ c <> 125.

Lemma digit_starts c : is_digit c = true -> starts c.
Proof.
  unfold is_digit, starts, is_ws. intros H. zbool. split; [|lia].
  destruct (Z.eqb_spec c 32), (Z.eqb_spec c 9), (Z.eqb_spec c 10), (Z.eqb_spec c 13); lia || done.
Qed.

Lemma decimal_starts s t ip fp dot : decimal_text t ip fp dot ->
  exists c t', neg_sign s ++ t = c :: t' /\ starts c /\ (c =? 45) || is_digit c = true.
Proof.
  intros [-> Hi _ Hne _]. destruct s; [by eexists _, _|].
  destruct Hi as [|c ip Hc _]; [done|]. eexists c, _. split; [done|].
  split; [by apply digit_starts | by rewrite Hc, orb_true_r].
Qed.

Lemma neg_sign_ascii s t ip fp dot : decimal_text t ip fp dot -> ascii (neg_sign s ++ t).
Proof.
  intros [-> Hi Hf _ _]. repeat (apply Forall_app; split); try by apply digits_ascii.
  - destruct s; repeat constructor; lia.
  - destruct dot; repeat constructor; lia.
Qed.

Lemma skip_ws_start c b : starts c -> skip_ws (c :: b) = c :: b.
Proof. intros [H _]. simpl. by rewrite H. Qed.

Definition comma_tail (ls : list (list Z)) : list Z := concat (map (cons 44) ls).

Lemma commas_cons {A} (f : A -> list Z) x l :
  commas (map f (x :: l)) = f x ++ comma_tail (map f l).
Proof. done. Qed.

Lemma utf8_commas ls : utf8 (commas ls) = commas (map utf8 ls).
Proof.
  destruct ls as [|x ls]; [done|]. simpl. rewrite utf8_app. f_equal.
  induction ls as [|y ls IH]; [done|]. simpl. by rewrite utf8_cons, utf8_app, IH by lia.
Qed.

Definition field_text (f : list Z * Json) : list Z :=
  utf8 (write_json_string f.1) ++ 58 :: text f.2.

Lemma text_arr items : text (Arr items) = 91 :: commas (map text items) ++ [93].
Proof.
  unfold text. cbn [write]. rewrite utf8_app, utf8_app, utf8_commas, map_map. done.
Qed.

Lemma text_obj fields : text (Obj fields) = 123 :: commas (map field_text fields) ++ [125].
Proof.
  unfold text. cbn [write]. rewrite utf8_app, utf8_app, utf8_commas, map_map.
  assert (E : map (fun x => utf8 (let '(k, v) := x in write_json_string k ++ [58] ++ write v)) fields
          = map field_text fields).
  { apply map_ext. intros [k v]. unfold field_text. rewrite utf8_app, utf8_app. done. }
  by rewrite E.
Qed.

Lemma text_starts v : finite v -> exists c t, text v = c :: t /\ starts c.
Proof.
  intros Hf. destruct v as [|[]|n|s|items|fields]; try by eexists _, _.
  destruct Hf as [Hv Hn]. destruct (write_num_text n Hv Hn) as (s & t & ip & fp & dot & E & Ht & _).
  unfold text. cbn [write]. rewrite E, utf8_ascii by by eapply neg_sign_ascii.
  destruct (decimal_starts s _ _ _ _ Ht) as (c & t' & -> & Hs & _). eauto.
Qed.

(** [v]'s text is read as [reread v], whatever follows it *)
Definition reads (v : Json) : Prop := forall fuel rest,
  (3 * length (text v ++ rest) + 1 <= fuel)%nat -> ends_number rest ->
  parse_value fuel (text v ++ rest) = Ret (Ok (reread v, rest)).

Lemma reads_num n : f64_valid n -> is_finite n = true -> reads (Num n).
Proof.
  intros Hv Hn [|fuel] rest Hl Hr; [lia|].
  destruct (write_num_text n Hv Hn) as (s & t & ip & fp & dot & E & Ht & Hp).
  unfold text. cbn [write]. rewrite E in *. rewrite utf8_ascii by by eapply neg_sign_ascii.
  destruct (decimal_starts s _ _ _ _ Ht) as (c & t' & Ec & Hs & Hd).
  pose proof (scan_decimal s t ip fp dot rest Ht Hr) as Hscan.
  rewrite Ec in *. cbn [app] in *. cbn [parse_value]. rewrite skip_ws_start by done.
  assert (Hc : c = 45 \/ 48 <= c <= 57).
  { apply orb_true_iff in Hd as [Hd|Hd]; unfold is_digit in Hd; zbool; lia. }
  rewrite Hd. unfold parse_number. rewrite Hscan, Hp.
  repeat match goal with |- context [c =? ?k] => destruct (Z.eqb_spec c k); [lia|] end. done.
Qed.

Lemma reads_str s : Forall (fun c => is_char c = true) s -> reads (Str s).
Proof.
  intros Hs [|fuel] rest Hl Hr; [lia|]. unfold text. cbn [write parse_value].
  assert (E : skip_ws (utf8 (write_json_string s) ++ rest) = utf8 (write_json_string s) ++ rest)
    by by rewrite utf8_string.
  rewrite E. pose proof (parse_string_written s rest Hs) as P.
  destruct (utf8 (write_json_string s) ++ rest) as [|c b] eqn:Eb; [by rewrite utf8_string in Eb|].
  rewrite utf8_string in Eb. injection Eb as <- _. cbn [Z.eqb Pos.eqb]. by rewrite P.
Qed.

(** what follows an item *)
Lemma tail_ends ls k rest : (k = 93 \/ k = 125) ->
  ends_number (comma_tail ls ++ k :: rest) /\
  skip_ws (comma_tail ls ++ k :: rest) = comma_tail ls ++ k :: rest.
Proof. intros Hk. destruct ls; simpl; [|done]. by destruct Hk as [-> | ->]. Qed.

Lemma array_items vs : forall v acc fuel (rest : list Z), Forall reads (v :: vs) ->
  (3 * length (commas (map text (v :: vs)) ++ 93%Z :: rest) + 2 <= fuel)%nat ->
  array_loop fuel (commas (map text (v :: vs)) ++ 93 :: rest) acc =
  Ret (Ok (Arr (acc ++ map reread (v :: vs)), rest)).
Proof.
  induction vs as [|v' vs IH]; intros v acc [|fuel] rest HF Hl; try lia;
    apply Forall_cons in HF as [Hv HF]; rewrite commas_cons in Hl |- *;
    rewrite <- app_assoc in Hl |- *; cbn [array_loop].
  - destruct (tail_ends (map text []) 93 rest) as [He Hk]; [by left|].
    rewrite Hv by (done || lia). cbn [mbind exec_bind]. by rewrite Hk.
  - destruct (tail_ends (map text (v' :: vs)) 93 rest) as [He Hk]; [by left|].
    rewrite Hv by (done || lia). cbn [mbind exec_bind]. rewrite Hk.
    change (comma_tail (map text (v' :: vs)) ++ 93 :: rest)
      with (44 :: commas (map text (v' :: vs)) ++ 93 :: rest) in Hl |- *.
    cbn [Z.eqb Pos.eqb]. rewrite IH, <- app_assoc; [done | done |].
    rewrite length_app in Hl. cbn [length] in Hl. lia.
Qed.

Lemma object_fields fs : forall f acc fuel (rest : list Z),
  Forall (fun f => Forall (fun c => is_char c = true) f.1 /\ reads f.2) (f :: fs) ->
  (3 * length (commas (map field_text (f :: fs)) ++ 125%Z :: rest) + 2 <= fuel)%nat ->
  object_loop fuel (commas (map field_text (f :: fs)) ++ 125 :: rest) acc =
  Ret (Ok (Obj (acc ++ map (fun '(k, v) => (utf8 k, reread v)) (f :: fs)), rest)).
Proof.
  induction fs as [|f' fs IH]; intros [k v] acc [|fuel] rest HF Hl; try lia;
    apply Forall_cons in HF as [[Hk Hv] HF]; cbn [fst snd] in Hk, Hv;
    rewrite commas_cons in Hl |- *; unfold field_text at 1 in Hl; unfold field_text at 1; cbn [fst snd] in Hl |- *;
    rewrite <- !app_assoc in Hl |- *; cbn [app object_loop] in Hl |- *;
    rewrite length_app in Hl; cbn [length] in Hl;
    (* the key *)
    match goal with |- context [skip_ws (utf8 (write_json_string k) ++ ?r)] =>
      pose proof (parse_string_written k r Hk) as P;
      assert (E : skip_ws (utf8 (write_json_string k) ++ r) = utf8 (write_json_string k) ++ r)
        by (by rewrite utf8_string); rewrite E; clear E;
      assert (E : (match utf8 (write_json_string k) ++ r with c :: _ => c =? 34 | [] => false end) = true)
        by (by rewrite utf8_string); rewrite E, P; clear E P
    end; cbn [skip_ws is_ws Z.eqb Pos.eqb orb].
  - destruct (tail_ends (map field_text []) 125 rest) as [He Hs]; [by right|].
    rewrite Hv by (done || lia). cbn [mbind exec_bind]. by rewrite Hs.
  - destruct (tail_ends (map field_text (f' :: fs)) 125 rest) as [He Hs]; [by right|].
    rewrite Hv by (done || lia). cbn [mbind exec_bind]. rewrite Hs.
    change (comma_tail (map field_text (f' :: fs)) ++ 125 :: rest)
      with (44 :: commas (map field_text (f' :: fs)) ++ 125 :: rest) in Hl |- *.
    cbn [Z.eqb Pos.eqb]. rewrite IH, <- app_assoc; [done | done |].
    rewrite length_app in Hl. cbn [length] in Hl. lia.
Qed.

Lemma foldr_and {A} (P : A -> Prop) l : foldr (fun x Q => P x /\ Q) True l <-> Forall P l.
Proof.
  induction l as [|x l IH]; simpl; [by split; [constructor|]|].
  rewrite IH. split; [by intros []; constructor | by intros H; inversion H].
Qed.

Lemma commas_start {A} (f : A -> list Z) x l c t r : f x = c :: t -> starts c ->
  exists b, commas (map f (x :: l)) ++ r = c :: b /\
    skip_ws (commas (map f (x :: l)) ++ r) = c :: b.
Proof.
  intros E H. rewrite commas_cons, E. eexists. split; [done|]. by apply skip_ws_start.
Qed.

Lemma finite_reads v : finite v -> reads v.
Proof.
  induction v as [|b|n|s|items IH|fields IH]; intros Hf.
  - intros [|fuel] rest Hl Hr; [lia|]. done.
  - intros [|fuel] rest Hl Hr; [lia|]. by destruct b.
  - by apply reads_num; apply Hf.
  - by apply reads_str.
  - apply foldr_and in Hf. intros [|fuel] rest Hl Hr; [lia|]. rewrite text_arr in *.
    cbn [app length] in Hl |- *. rewrite <- app_assoc in Hl |- *. cbn [app parse_value] in Hl |- *.
    rewrite skip_ws_start by done. cbn [Z.eqb Pos.eqb].
    destruct items as [|v vs]; [done|].
    assert (HR : Forall reads (v :: vs)).
    { apply Forall_forall. intros x Hx. rewrite Forall_forall in IH. rewrite Forall_forall in Hf. by apply IH, Hf. }
    apply Forall_cons in Hf as [Hv _]. destruct (text_starts v Hv) as (c & t & Ec & Hc).
    destruct (commas_start text v vs c t (93 :: rest) Ec Hc) as (b & Eb & ->).
    destruct (Z.eqb_spec c 93) as [->|]; [by destruct Hc as (_ & ? & _)|].
    rewrite <- Eb. apply array_items; [done | lia].
  - apply (foldr_and (fun f => Forall (fun c => is_char c = true) f.1 /\ finite f.2)) in Hf.
    intros [|fuel] rest Hl Hr; [lia|]. rewrite text_obj in *.
    cbn [app length] in Hl |- *. rewrite <- app_assoc in Hl |- *. cbn [app parse_value] in Hl |- *.
    rewrite skip_ws_start by done. cbn [Z.eqb Pos.eqb].
    destruct fields as [|f fs]; [done|].
    assert (HR : Forall (fun f => Forall (fun c => is_char c = true) f.1 /\ reads f.2) (f :: fs)).
    { apply Forall_forall. intros x Hx. rewrite Forall_forall in IH. rewrite Forall_forall in Hf.
      destruct (Hf x Hx). split; [done|]. by apply IH. }
    assert (Ec : field_text f = 34 :: (utf8 (concat (map write_char f.1)) ++ [34]) ++ 58 :: text f.2)
      by (unfold field_text; by rewrite utf8_string).
    destruct (commas_start field_text f fs _ _ (125 :: rest) Ec ltac:(done)) as (b & Eb & ->).
    cbn [Z.eqb Pos.eqb]. rewrite <- Eb. apply object_fields; [done | lia].
Qed.

End Json.

(** ** Theorems *)

Import Json.

(** C32: The parser always terminates and never panics: on every byte string, the
    recursion bounded by [3 * len + 1] nested calls ends with a value or an error
    message. *)
Theorem json_parse_terminates (b : list Z) : exists r, parse b = Ret r.
Proof.
  destruct (proj1 (parse_returns (3 * length b + 1)) b ltac:(lia)) as (r & E & _).
  unfold parse. rewrite E. cbn [mbind exec_bind].
  destruct r as [[v r]|e]; [destruct (skip_ws r)|]; eauto.
Qed.

(** A value whose strings are ASCII and whose zeros are positive. *)
Fixpoint plain (v : Json) : Prop :=
  match v with
  | Num n => n <> S754_zero true
  | Str s => ascii s
  | Arr items => foldr (fun v P => plain v /\ P) True items
  | Obj fields => foldr (fun f P => (ascii f.1 /\ plain f.2) /\ P) True fields
  | _ => True
  end.

Lemma plain_reread v : plain v -> reread v = v.
Proof.
  induction v as [|b|n|s|items IH|fields IH]; intros Hp; try done.
  - simpl in *. f_equal. by destruct n as [[]|[]| |].
  - simpl. by rewrite utf8_ascii.
  - apply (foldr_and plain) in Hp. simpl. f_equal.
    induction IH as [|v vs Hv _ IHl]; [done|]. apply Forall_cons in Hp as [H1 H2].
    simpl. by rewrite Hv, IHl.
  - apply (foldr_and (fun f => ascii f.1 /\ plain f.2)) in Hp. simpl. f_equal.
    induction IH as [|[k v] vs Hv _ IHl]; [done|]. apply Forall_cons in Hp as [[H1 H2] H3].
    simpl in *. by rewrite Hv, IHl, utf8_ascii.
Qed.

Lemma parse_text v : finite v -> parse (text v) = Ret (Ok (reread v)).
Proof.
  intros Hf. unfold parse. pose proof (finite_reads v Hf (3 * length (text v) + 1)%nat []) as H.
  rewrite app_nil_r in H. by rewrite H by (done || lia).
Qed.

(** C31: Serializing and parsing: the text of every value with finite numbers and
    legal strings is accepted whole, and read back with each string replaced by
    its UTF-8 bytes taken as characters and [-0] by [0]; so values whose strings
    are ASCII (and without [-0]) come back exactly, in every number, nested
    array and ordered field, and a string with any other character does not. *)
Theorem json_roundtrip (v : Json) :
  finite v -> parse (text v) = Ret (Ok (reread v)) /\ (plain v -> reread v = v) /\
    (forall s, v = Str s -> reread v = v -> ascii s).
Proof.
  intros Hf. split_and!; [|apply plain_reread|].
  2: { intros s -> [= E]. apply (utf8_fix s Hf). by rewrite E. }
  by apply parse_text.
Qed.

Definition sample : Json :=
  obj [(ascii_bytes "name", Str (ascii_bytes "drone-1")); (ascii_bytes "ok", Bool true);
       (ascii_bytes "vals", Arr [Num (f64_of_Z 1); Num (f64_lit 5 2); Num (f64_lit (-1) 3)]);
       (ascii_bytes "nested", obj [(ascii_bytes "x", Null); (ascii_bytes "s", Str [34; 92; 10; 1])])].

Lemma json_roundtrip_witness : parse (text sample) = Ret (Ok sample) /\ length (text sample) = 102%nat.
Proof.
  assert (Hf : finite sample)
    by (simpl; repeat split; try reflexivity; repeat (apply Forall_cons; split); done).
  destruct (json_roundtrip sample Hf) as (E & P & _). split; [|vm_compute; reflexivity].
  rewrite E, P; [reflexivity|].
  vm_compute. repeat (split || constructor); try reflexivity; intro; discriminate.
Defined.

(** A number that is not finite is written as [NaN], [inf] or [-inf], which the
    parser refuses, wherever in the document its text begins. *)
Theorem json_nonfinite_unreadable (n : f64) (fuel : nat) (rest : list Z) :
  is_finite n = false -> exists e, parse_value (S fuel) (text (Num n) ++ rest) = Ret (Err e).
Proof.
  intros H. destruct n as [|[]| |]; try done.
  - eexists. reflexivity.
  - eexists. reflexivity.
  - eexists. reflexivity.
Qed.

Lemma json_nonfinite_unreadable_witness :
  exists e, parse_value 9 (text (Num S754_nan) ++ [93]) = Ret (Err e).
Proof. exact (json_nonfinite_unreadable S754_nan 8 [93] eq_refl). Defined.

(** Identifiers: an integer field below [2^53] survives the text and is read back
    as itself by [as_u64]; above, neighbours share one [f64]. *)
Lemma uint_survives n : 0 <= n < 2 ^ 53 ->
  finite (uint n) /\ as_u64 (reread (uint n)) = Some n.
Proof.
  intros H. destruct (f64_of_Z_valid n H) as (Hv & Hi & Ht). unfold uint. simpl.
  destruct (f64_of_Z n) as [s| | |s m e] eqn:E; try done.
  - split; [done|]. cbn [f64_trunc] in Ht. by subst.
  - split; [done|]. unfold reread_num, f64_as_u64, f64_saturate. rewrite Ht. f_equal. lia.
Qed.

Example uint_aliases : uint (2 ^ 53 + 1) = uint (2 ^ 53).
Proof. vm_compute. reflexivity. Qed.

(** The recursion has no limit of its own: on [n] opening brackets it goes [n]
    calls deep. *)
Lemma parse_depth n fuel : (2 * fuel <= n)%nat -> parse_value (2 * fuel) (replicate n 91) = NoFuel.
Proof.
  revert n. induction fuel as [|fuel IH]; intros n Hn; [done|].
  destruct n as [|[|n]]; [lia|lia|]. replace (2 * S fuel)%nat with (S (S (2 * fuel))) by lia.
  cbn [replicate parse_value skip_ws is_ws Z.eqb Pos.eqb orb array_loop].
  change (91 :: replicate n 91) with (replicate (S n) 91). rewrite IH by lia. done.
Qed.
