(* ===== verification/Http.v ===== *)
(** * HTTP: [tpt-t-cloud/src/http.rs]

    The request parser, which is re-run on a growing buffer until it returns a
    request, and the response writer.  [usize] is 64 bits wide. *)

From stdpp Require Import strings.
From S2P Require Import Prelude Text Json.

Definition CRLF : list Z := [13; 10].

Inductive Method := Get | Post | Put | Delete | OtherMethod (s : list Z).

#[global] Instance Method_eq_dec : EqDecision Method.
Proof. solve_decision. Defined.

Module Method.

Definition parse (s : list Z) : Method :=
  if decide (s = ascii_bytes "GET") then Get
  else if decide (s = ascii_bytes "POST") then Post
  else if decide (s = ascii_bytes "PUT") then Put
  else if decide (s = ascii_bytes "DELETE") then Delete
  else OtherMethod s.

Definition as_str (m : Method) : list Z :=
  match m with
  | Get => ascii_bytes "GET"
  | Post => ascii_bytes "POST"
  | Put => ascii_bytes "PUT"
  | Delete => ascii_bytes "DELETE"
  | OtherMethod s => s
  end.

(** a token is kept, whatever it is *)
Lemma as_str_parse s : as_str (parse s) = s.
Proof. unfold parse. repeat case_decide; subst; done. Qed.

End Method.

Inductive HttpError := Malformed.

Definition HttpError_fmt (e : HttpError) : list Z :=
  match e with Malformed => ascii_bytes "malformed HTTP request" end.

Record Request := {
  method : Method;
  path : list Z;
  query : list Z;
  headers : list (list Z * list Z);
  body : list Z
}.

Module Request.
Section Request.
Context `{UC : !Unicode}.

Definition split_query (target : list Z) : list Z * list Z :=
  match split_once [63] target with
  | Some (p, q) => (p, q)
  | None => (target, [])
  end.

(** one header line: the headers so far and the content length *)
Definition header_line (acc : list (list Z * list Z) * Z) (line : list Z)
    : list (list Z * list Z) * Z :=
  if bool_decide (line = []) then acc
  else match split_once [58] line with
       | Some (k, v) =>
           let k := to_lowercase (trim k) in
           let v := trim v in
           let cl := if decide (k = ascii_bytes "content-length")
                     then default 0 (parse_uint 64 v) else acc.2 in
           (acc.1 ++ [(k, v)], cl)
       | None => acc
       end.

(** the text before the blank line: the start line's parts, the headers and the
    content length *)
Definition parse_head (header_text : list Z) : result (Method * list Z * list (list Z * list Z) * Z) HttpError :=
  match split CRLF header_text with
  | [] => Err Malformed
  | start :: lines =>
      match split_whitespace start with
      | [m; t; _] =>
          let '(hs, cl) := foldl header_line ([], 0) lines in
          Ok (Method.parse m, t, hs, cl)
      | _ => Err Malformed
      end
  end.

(** [total = hend + content_length] wraps in a release build; the slice
    [buf[hend..total]] panics when it is not a range of the buffer. *)
Definition parse (buf : list Z) : exec (result (option (Request * Z)) HttpError) :=
  match find_at (CRLF ++ CRLF) buf with
  | None => Ret (Ok None)
  | Some p =>
      let hend := (p + 4)%nat in
      match from_utf8 (take (hend - 4) buf) with
      | None => Ret (Err Malformed)
      | Some header_text =>
          match parse_head header_text with
          | Err e => Ret (Err e)
          | Ok (m, target, hs, content_length) =>
              let '(path, query) := split_query target in
              let total := wadd 64 (Z.of_nat hend) content_length in
              if Z.of_nat (length buf) <? total then Ret (Ok None)
              else if total <? Z.of_nat hend then Panic
              else
                let body := take (Z.to_nat total - hend) (drop hend buf) in
                Ret (Ok (Some ({| method := m; path := path; query := query;
                                  headers := hs; body := body |}, total)))
          end
      end
  end.

(** *** Lemmas *)

Lemma header_line_cl acc line : 0 <= acc.2 < 2 ^ 64 -> 0 <= (header_line acc line).2 < 2 ^ 64.
Proof.
  intros Ha. unfold header_line. repeat case_match; try done. simpl. case_decide; [|done].
  destruct (parse_uint 64 _) as [n|] eqn:E; simpl; [by eapply parse_uint_range | lia].
Qed.

Lemma headers_cl lines acc : 0 <= acc.2 < 2 ^ 64 -> 0 <= (foldl header_line acc lines).2 < 2 ^ 64.
Proof.
  revert acc. induction lines as [|l lines IH]; intros acc H; simpl; [done|].
  by apply IH, header_line_cl.
Qed.

Lemma parse_head_cl t m p hs cl : parse_head t = Ok (m, p, hs, cl) -> 0 <= cl < 2 ^ 64.
Proof.
  unfold parse_head. destruct (split CRLF t) as [|start lines]; [done|].
  destruct (split_whitespace start) as [|a [|b [|c [|]]]]; try done.
  pose proof (headers_cl lines ([], 0) ltac:(simpl; lia)) as H.
  destruct (foldl header_line ([], 0) lines) as [hs' cl']. by intros [= <- <- <- <-].
Qed.

(** What the buffer's head says: where it ends, and the body length announced. *)
Definition head (buf : list Z) : option (nat * Z) :=
  p ← find_at (CRLF ++ CRLF) buf;
  t ← from_utf8 (take p buf);
  match parse_head t with Ok (_, _, _, cl) => Some ((p + 4)%nat, cl) | Err _ => None end.

Lemma find_crlf buf p : find_at (CRLF ++ CRLF) buf = Some p -> (p + 4 <= length buf)%nat.
Proof. intros H. by apply find_at_spec in H as [H _]. Qed.

Lemma head_bounds buf hend cl : head buf = Some (hend, cl) ->
  (4 <= hend <= length buf)%nat /\ 0 <= cl < 2 ^ 64.
Proof.
  unfold head. destruct (find_at _ buf) as [p|] eqn:E; [|done]. simpl.
  destruct (from_utf8 _) as [t|]; [|done]. simpl.
  destruct (parse_head t) as [[[[m tg] hs] cl']|] eqn:Eh; [|done]. intros [= <- <-].
  apply find_crlf in E. apply parse_head_cl in Eh. split; [lia | done].
Qed.

(** [parse] by the head: incomplete, a request of announced length, or a panic. *)
Lemma parse_by_head buf hend cl : head buf = Some (hend, cl) ->
  exists m p q hs,
    parse buf =
    let total := wadd 64 (Z.of_nat hend) cl in
    if Z.of_nat (length buf) <? total then Ret (Ok None)
    else if total <? Z.of_nat hend then Panic
    else Ret (Ok (Some ({| method := m; path := p; query := q; headers := hs;
           body := take (Z.to_nat total - hend) (drop hend buf) |}, total))).
Proof.
  unfold head, parse. destruct (find_at _ buf) as [p|]; [|done]. cbn [mbind option_bind].
  replace (p + 4 - 4)%nat with p by lia.
  destruct (from_utf8 _) as [t|]; [|done]. cbn [mbind option_bind].
  destruct (parse_head t) as [[[[m tg] hs] cl']|]; [|done]. intros [= <- <-].
  destruct (split_query tg) as [pa q]. by exists m, pa, q, hs.
Qed.

Lemma parse_no_head buf : head buf = None -> parse buf = Ret (Ok None) \/ parse buf = Ret (Err Malformed).
Proof.
  unfold head, parse. destruct (find_at _ buf) as [p|]; [|by left]. cbn [mbind option_bind].
  replace (p + 4 - 4)%nat with p by lia.
  destruct (from_utf8 _) as [t|]; [|by right]. cbn [mbind option_bind].
  destruct (parse_head t) as [[[[m tg] hs] cl']|[]]; [done | by right].
Qed.

Lemma total_cases hend cl : 0 <= Z.of_nat hend < 2 ^ 64 -> 0 <= cl < 2 ^ 64 ->
  wadd 64 (Z.of_nat hend) cl =
  if Z.of_nat hend + cl <? 2 ^ 64 then Z.of_nat hend + cl else Z.of_nat hend + cl - 2 ^ 64.
Proof.
  intros Hh Hc. unfold wadd, wrap. destruct (Z.ltb_spec (Z.of_nat hend + cl) (2 ^ 64)).
  - apply Z.mod_small. lia.
  - symmetry. apply (Z.mod_unique _ _ 1); lia.
Qed.

(** more bytes do not change what was found before *)
Lemma parse_more buf more req total :
  Z.of_nat (length buf) < 2 ^ 63 -> parse buf = Ret (Ok (Some (req, total))) ->
  parse (buf ++ more) = Ret (Ok (Some (req, total))).
Proof.
  intros Hl E. unfold parse in *. destruct (find_at _ buf) as [p|] eqn:Ep; [|done].
  rewrite (find_at_app _ _ more _ Ep). apply find_crlf in Ep.
  replace (p + 4 - 4)%nat with p in * by lia. rewrite take_app_le by lia.
  destruct (from_utf8 _) as [t|]; [|done].
  destruct (parse_head t) as [[[[m tg] hs] cl]|] eqn:Eh; [|done].
  apply parse_head_cl in Eh. destruct (split_query tg) as [pa q]. cbv zeta in *.
  set (tot := wadd 64 _ _) in *. rewrite length_app, Nat2Z.inj_add.
  destruct (Z.ltb_spec (Z.of_nat (length buf)) tot); [done|].
  destruct (Z.ltb_spec tot (Z.of_nat (p + 4))); [done|]. injection E as <- <-.
  destruct (Z.ltb_spec (Z.of_nat (length buf) + Z.of_nat (length more)) tot); [lia|].
  rewrite drop_app_le by lia. rewrite take_app_le; [done|]. rewrite length_drop. lia.
Qed.

End Request.
End Request.

(** ** Responses *)

Record Response := {
  status : Z;
  resp_headers : list (list Z * list Z);
  resp_body : list Z
}.

Module Response.

Definition status_text (code : Z) : list Z :=
  if code =? 200 then ascii_bytes "OK"
  else if code =? 201 then ascii_bytes "Created"
  else if code =? 204 then ascii_bytes "No Content"
  else if code =? 400 then ascii_bytes "Bad Request"
  else if code =? 401 then ascii_bytes "Unauthorized"
  else if code =? 403 then ascii_bytes "Forbidden"
  else if code =? 404 then ascii_bytes "Not Found"
  else if code =? 405 then ascii_bytes "Method Not Allowed"
  else if code =? 422 then ascii_bytes "Unprocessable Entity"
  else if code =? 500 then ascii_bytes "Internal Server Error"
  else if code =? 501 then ascii_bytes "Not Implemented"
  else ascii_bytes "Unknown".

Definition with_body (code : Z) (content_type body : list Z) : Response :=
  {| status := code;
     resp_headers := [(ascii_bytes "content-type", content_type);
                      (ascii_bytes "content-length", dec (Z.of_nat (length body)))];
     resp_body := body |}.

Definition json (code : Z) (b : Json) : Response :=
  with_body code (ascii_bytes "application/json") (utf8 (Json.write b)).
Definition text (code : Z) (b : list Z) : Response :=
  with_body code (ascii_bytes "text/plain; charset=utf-8") (utf8 b).
Definition html (code : Z) (b : list Z) : Response :=
  with_body code (ascii_bytes "text/html; charset=utf-8") (utf8 b).
Definition error (code : Z) (msg : list Z) : Response := text code msg.

Definition header_bytes (h : list Z * list Z) : list Z :=
  utf8 (h.1 ++ ascii_bytes ": " ++ h.2 ++ CRLF).

Definition to_bytes (r : Response) : list Z :=
  utf8 (ascii_bytes "HTTP/1.1 " ++ dec (status r) ++ [32] ++ status_text (status r) ++ CRLF)
  ++ concat (map header_bytes (resp_headers r))
  ++ ascii_bytes "connection: close" ++ CRLF ++ CRLF
  ++ resp_body r.

End Response.

(** ** Theorems *)

(** The text of a request with the headers given. *)
Definition request_text (m target : list Z) (hs : list (list Z * list Z)) (b : list Z) : list Z :=
  m ++ [32] ++ target ++ ascii_bytes " HTTP/1.1" ++ CRLF
  ++ concat (map (fun h => h.1 ++ ascii_bytes ": " ++ h.2 ++ CRLF) hs) ++ CRLF ++ b.

Definition sample_post : list Z :=
  request_text (ascii_bytes "POST") (ascii_bytes "/mcp?trace=1")
    [(ascii_bytes "Content-Length", ascii_bytes "5")] (ascii_bytes "hello").

Definition huge_length : list Z :=
  request_text (ascii_bytes "GET") (ascii_bytes "/")
    [(ascii_bytes "Content-Length", ascii_bytes "18446744073709551615")] [].

Example sample_post_parsed :
  Request.parse (UC := ascii_unicode) sample_post =
  Ret (Ok (Some ({| method := Post; path := ascii_bytes "/mcp"; query := ascii_bytes "trace=1";
    headers := [(ascii_bytes "content-length", ascii_bytes "5")]; body := ascii_bytes "hello" |}, 54))).
Proof. vm_compute. reflexivity. Qed.

(** C33: Reading a request from a growing buffer.  A buffer whose head is complete
    and announces [cl] bytes is incomplete until they are there; then the request
    carries exactly the [cl] bytes after the blank line and spans head and body,
    and whatever is appended the answer stays the same.  The one exception is a length
    that reaches past the end of the address space, on which the parser panics. *)
Theorem http_request_framed `{UC : !Unicode} (buf more : list Z) (hend : nat) (cl : Z) :
  Request.head buf = Some (hend, cl) -> Z.of_nat (length buf) < 2 ^ 63 ->
  (Z.of_nat (length buf) < Z.of_nat hend + cl < 2 ^ 64 -> Request.parse buf = Ret (Ok None)) /\
  (Z.of_nat hend + cl <= Z.of_nat (length buf) ->
     exists req, body req = take (Z.to_nat cl) (drop hend buf) /\
       Z.of_nat (length (body req)) = cl /\
       Request.parse buf = Ret (Ok (Some (req, Z.of_nat hend + cl))) /\
       Request.parse (buf ++ more) = Ret (Ok (Some (req, Z.of_nat hend + cl)))) /\
  (2 ^ 64 <= Z.of_nat hend + cl -> Request.parse buf = Panic).
Proof.
  intros Hh Hl. destruct (Request.head_bounds _ _ _ Hh) as [Hb Hc].
  destruct (Request.parse_by_head _ _ _ Hh) as (m & p & q & hs & E). cbv zeta in E.
  rewrite Request.total_cases in E by lia. split; [|split]; intros Hlen.
  - destruct (Z.ltb_spec (Z.of_nat hend + cl) (2 ^ 64)); [|lia].
    by destruct (Z.ltb_spec (Z.of_nat (length buf)) (Z.of_nat hend + cl)); [|lia].
  - destruct (Z.ltb_spec (Z.of_nat hend + cl) (2 ^ 64)); [|lia].
    destruct (Z.ltb_spec (Z.of_nat (length buf)) (Z.of_nat hend + cl)); [lia|].
    destruct (Z.ltb_spec (Z.of_nat hend + cl) (Z.of_nat hend)); [lia|].
    replace (Z.to_nat (Z.of_nat hend + cl) - hend)%nat with (Z.to_nat cl) in E by lia.
    eexists. split; [|split; [|split; [exact E | by eapply Request.parse_more]]]; [done|].
    simpl. rewrite length_take, length_drop. lia.
  - destruct (Z.ltb_spec (Z.of_nat hend + cl) (2 ^ 64)); [lia|].
    destruct (Z.ltb_spec (Z.of_nat (length buf)) (Z.of_nat hend + cl - 2 ^ 64)); [lia|].
    destruct (Z.ltb_spec (Z.of_nat hend + cl - 2 ^ 64) (Z.of_nat hend)); [done | lia].
Qed.

Lemma http_request_framed_witness : exists req,
  body req = ascii_bytes "hello" /\
  Request.parse (UC := ascii_unicode) (sample_post ++ [65]) = Ret (Ok (Some (req, 54))).
Proof.
  destruct (http_request_framed (UC := ascii_unicode) sample_post [65] 49 5) as (_ & H & _);
    [vm_compute; reflexivity | vm_compute; reflexivity |].
  destruct H as (req & Hb & _ & _ & E); [vm_compute; discriminate|].
  exists req. split; [rewrite Hb; vm_compute; reflexivity | exact E].
Defined.

(** The only panic of the parser: a header that announces a body reaching past
    the end of the address space.  The sum wraps to an end before the body's
    start and the slice fails, so one unauthenticated request
    [Content-Length: 18446744073709551615] brings the server thread down; every
    other buffer is answered. *)
Theorem http_length_overflow_panics `{UC : !Unicode} (buf : list Z) :
  Z.of_nat (length buf) < 2 ^ 63 ->
  Request.parse buf = Panic <->
  exists hend cl, Request.head buf = Some (hend, cl) /\ 2 ^ 64 <= Z.of_nat hend + cl.
Proof.
  intros Hl. destruct (Request.head buf) as [[hend cl]|] eqn:Hh.
  - destruct (Request.head_bounds _ _ _ Hh) as [Hb Hc].
    destruct (Request.parse_by_head _ _ _ Hh) as (m & p & q & hs & E). cbv zeta in E.
    rewrite Request.total_cases in E by lia. rewrite E. clear E.
    destruct (Z.ltb_spec (Z.of_nat hend + cl) (2 ^ 64)).
    + split; [|intros (? & ? & [= <- <-] & ?); lia].
      destruct (Z.ltb_spec (Z.of_nat (length buf)) (Z.of_nat hend + cl)); [done|].
      by destruct (Z.ltb_spec (Z.of_nat hend + cl) (Z.of_nat hend)); [lia|].
    + split; [by exists hend, cl|]. intros _.
      destruct (Z.ltb_spec (Z.of_nat (length buf)) (Z.of_nat hend + cl - 2 ^ 64)); [lia|].
      by destruct (Z.ltb_spec (Z.of_nat hend + cl - 2 ^ 64) (Z.of_nat hend)); [|lia].
  - split; [|by intros (? & ? & ? & _)].
    by destruct (Request.parse_no_head buf Hh) as [-> | ->].
Qed.

Lemma http_length_overflow_panics_witness : Request.parse (UC := ascii_unicode) huge_length = Panic.
Proof.
  apply (http_length_overflow_panics (UC := ascii_unicode) huge_length); [vm_compute; reflexivity|].
  exists 56%nat, (2 ^ 64 - 1). split; [vm_compute; reflexivity | vm_compute; discriminate].
Defined.

(** A response announces the length of the body it carries. *)
Lemma to_bytes_framed code ct b :
  exists head, Response.to_bytes (Response.with_body code ct b) = head ++ CRLF ++ CRLF ++ b /\
    resp_headers (Response.with_body code ct b) !! 1%nat =
      Some (ascii_bytes "content-length", dec (Z.of_nat (length b))).
Proof.
  unfold Response.to_bytes. cbn [resp_body Response.with_body].
  generalize (concat (map Response.header_bytes (resp_headers (Response.with_body code ct b)))).
  generalize (utf8 (ascii_bytes "HTTP/1.1 " ++ dec (status (Response.with_body code ct b)) ++ [32] ++
    Response.status_text (status (Response.with_body code ct b)) ++ CRLF)).
  generalize (ascii_bytes "connection: close"). intros d a c.
  exists (a ++ c ++ d). split; [by rewrite <- !app_assoc | done].
Qed.
