(* ===== verification/Sfu.v ===== *)
(** * Media fan-out: [tpt-t-cloud/src/sfu.rs]

    One publisher, many subscribers, a ring for each.  The router holds [Weak]
    references: the rings live in a heap shared by everybody, a subscriber that
    drops its [Arc] frees its ring, and a [Weak] to a freed ring no longer
    upgrades.  A [HashMap] is a [gmap]; its iteration order is unspecified, and
    the theorems show that it does not matter. *)

From stdpp Require Import gmap.
From S2P Require Import Prelude Ring Cast Ser Reliable Mux.

Definition MAX_MEDIA : nat := MAX_PAYLOAD.

Record MediaFrame := { channel : Z; fseq : Z; flen : Z; fpayload : list Z }.

#[global] Instance MediaFrame_eq_dec : EqDecision MediaFrame.
Proof. solve_decision. Defined.

Module Frame.

Definition new (channel seq : Z) (payload : list Z) : exec MediaFrame :=
  let n := Nat.min (length payload) MAX_MEDIA in
  p ← copy_from_slice (replicate MAX_MEDIA 0) 0 (take n payload);
  Ret {| channel := channel; fseq := seq; flen := wrap 16 (Z.of_nat n); fpayload := p |}.

Definition bytes (f : MediaFrame) : exec (list Z) := slice_to (fpayload f) (Z.to_nat (flen f)).

(** A frame carries the payload, cut at [MAX_MEDIA]; building it never panics. *)
Lemma new_spec ch seq p : exists f, new ch seq p = Ret f /\
  channel f = ch /\ fseq f = seq /\ bytes f = Ret (take MAX_MEDIA p).
Proof.
  unfold new. set (n := Nat.min (length p) MAX_MEDIA).
  assert (Hn : length (take n p) = n) by (rewrite length_take; lia).
  assert (HM : Z.of_nat MAX_MEDIA < 2 ^ 16) by (vm_compute; reflexivity).
  unfold copy_from_slice. rewrite decide_True by (rewrite length_replicate; lia).
  cbn [mbind exec_bind]. eexists. split; [done|]. split; [done|]. split; [done|].
  unfold bytes. cbn [flen fpayload]. rewrite wrap_id by (unfold uint; lia). rewrite Nat2Z.id.
  unfold splice. rewrite take_0, app_nil_l, slice_to_ok.
  - rewrite take_app_le, take_take by lia. f_equal. unfold n.
    destruct (Nat.le_ge_cases (length p) MAX_MEDIA).
    + rewrite !take_ge by lia. done.
    + f_equal. lia.
  - rewrite length_app, Hn. lia.
Qed.

End Frame.

Module Sfu.
Section Sfu.
Context {Q : Type} `{BF : !BoundedFifo Q MediaFrame}.

(** the rings somebody still holds *)
Record Heap := { next_loc : nat; rings : gmap nat Q }.

Definition alloc (h : Heap) (q : Q) : Heap * nat :=
  ({| next_loc := S (next_loc h); rings := <[next_loc h := q]> (rings h) |}, next_loc h).
(** the subscriber drops its [Arc] *)
Definition drop_arc (h : Heap) (l : nat) : Heap :=
  {| next_loc := next_loc h; rings := delete l (rings h) |}.
Definition set_ring (h : Heap) (l : nat) (q : Q) : Heap :=
  {| next_loc := next_loc h; rings := <[l := q]> (rings h) |}.

Record SfuFanout := { next : Z; subs : gmap Z nat }.

Definition new : SfuFanout := {| next := 1; subs := ∅ |}.

Definition subscribe (s : SfuFanout) (h : Heap) (capacity : Z) : SfuFanout * Heap * (Z * nat) :=
  let id := next s in
  let '(h, ring) := alloc h (fifo_with_capacity (Z.max capacity 1)) in
  ({| next := wadd 64 (next s) 1; subs := <[id := ring]> (subs s) |}, h, (id, ring)).

Definition unsubscribe (s : SfuFanout) (id : Z) : SfuFanout :=
  {| next := next s; subs := delete id (subs s) |}.

Definition subscriber_count (s : SfuFanout) (h : Heap) : Z :=
  Z.of_nat (size (filter (fun kv => is_Some (rings h !! kv.2)) (subs s))).

(** the loop over the subscribers: heap, deliveries, dead ids *)
Fixpoint publish_loop (l : list (Z * nat)) (h : Heap) (frame : MediaFrame) (delivered : Z)
    (dead : list Z) : exec (Heap * Z * list Z) :=
  match l with
  | [] => Ret (h, delivered, dead)
  | (id, weak) :: l =>
      match rings h !! weak with
      | Some ring =>
          '(ring, r) ← fifo_push ring frame;
          publish_loop l (set_ring h weak ring) frame (if is_ok r then delivered + 1 else delivered) dead
      | None => publish_loop l h frame delivered (dead ++ [id])
      end
  end.

Definition publish (s : SfuFanout) (h : Heap) (frame : MediaFrame) : exec (SfuFanout * Heap * Z) :=
  '(h, delivered, dead) ← publish_loop (map_to_list (subs s)) h frame 0 [];
  Ret ({| next := next s; subs := foldr delete (subs s) dead |}, h, delivered).

(** *** Invariant *)

(** Every reference was allocated, and to one subscriber only; the heap's rings
    hold [c]. *)
Record wf (s : SfuFanout) (h : Heap) (c : gmap nat (list MediaFrame)) : Prop := {
  wf_alloc : forall id l, subs s !! id = Some l -> (l < next_loc h)%nat;
  wf_inj : forall i j l, subs s !! i = Some l -> subs s !! j = Some l -> i = j;
  wf_dom : forall l, (next_loc h <= l)%nat -> rings h !! l = None;
  wf_rep : forall l, match rings h !! l, c !! l with
                     | Some q, Some fs => fifo_rep q fs
                     | None, None => True
                     | _, _ => False
                     end
}.

Lemma wf_ring s h c l q : wf s h c -> rings h !! l = Some q ->
  exists fs, c !! l = Some fs /\ fifo_rep q fs.
Proof.
  intros H E. pose proof (wf_rep _ _ _ H l) as W. rewrite E in W.
  destruct (c !! l) as [fs|]; [by exists fs | done].
Qed.

(** what one subscriber's ring holds after a publication *)
Definition offered (q : Q) (fs : list MediaFrame) (f : MediaFrame) : list MediaFrame :=
  if Z.of_nat (length fs) <? fifo_capacity q then fs ++ [f] else fs.
Definition accepts (q : Q) (fs : list MediaFrame) : bool :=
  Z.of_nat (length fs) <? fifo_capacity q.

Lemma push_offered q fs f : fifo_rep q fs -> exists q' r, fifo_push q f = Ret (q', r) /\
  fifo_rep q' (offered q fs f) /\ fifo_capacity q' = fifo_capacity q /\ is_ok r = accepts q fs.
Proof.
  intros H. unfold offered, accepts.
  destruct (Z.ltb_spec (Z.of_nat (length fs)) (fifo_capacity q)).
  - destruct (fifo_push_ok q fs f H) as (q' & E & Hr & Hc); [done|]. by exists q', (Ok tt).
  - exists q, (Err f). by rewrite (fifo_push_full q fs f H).
Qed.

(** [f] reached the ring at [l], whichever way *)
Definition reached (h h' : Heap) (c : gmap nat (list MediaFrame)) (f : MediaFrame) (l : nat) : Prop :=
  match rings h !! l, c !! l with
  | Some q, Some fs => exists q', rings h' !! l = Some q' /\ fifo_rep q' (offered q fs f) /\
                         fifo_capacity q' = fifo_capacity q
  | _, _ => rings h' !! l = None
  end.

(** how many of the references in [ls] accept *)
Definition accepting (h : Heap) (c : gmap nat (list MediaFrame)) (ls : list nat) : Z :=
  Z.of_nat (length (List.filter (fun l => match rings h !! l, c !! l with
                              | Some q, Some fs => accepts q fs
                              | _, _ => false end) ls)).

Lemma accepting_cons h c w ls : accepting h c (w :: ls) =
  (match rings h !! w, c !! w with
   | Some q, Some fs => if accepts q fs then 1 else 0
   | _, _ => 0
   end) + accepting h c ls.
Proof.
  unfold accepting. cbn [List.filter].
  destruct (rings h !! w) as [q|]; [|done]. destruct (c !! w) as [fs|]; [|done].
  destruct (accepts q fs); cbn [length]; lia.
Qed.

Lemma publish_loop_spec l : forall h c f d dead,
  NoDup l.*2 ->
  (forall x, match rings h !! x, c !! x with
             | Some q, Some fs => fifo_rep q fs | None, None => True | _, _ => False end) ->
  exists h', publish_loop l h f d dead =
    Ret (h', d + accepting h c l.*2, dead ++ (List.filter (fun kv => bool_decide (rings h !! kv.2 = None)) l).*1) /\
  next_loc h' = next_loc h /\
  (forall x, x ∉ l.*2 -> rings h' !! x = rings h !! x) /\
  (forall x, x ∈ l.*2 -> reached h h' c f x).
Proof.
  induction l as [|[id w] l IH]; intros h c f d dead Hnd Hrep.
  - exists h. simpl. rewrite app_nil_r, Z.add_0_r. split_and!; [done | done | done |].
    intros x Hx. by apply not_elem_of_nil in Hx.
  - apply NoDup_cons in Hnd as [Hw Hnd]. simpl in Hw. cbn [publish_loop].
    pose proof (Hrep w) as Hrw.
    destruct (rings h !! w) as [q|] eqn:Ew; destruct (c !! w) as [fs|] eqn:Ec; try done.
    + destruct (push_offered q fs f Hrw) as (q' & r & -> & Hq' & Hcap & Hok).
      cbn [mbind exec_bind].
      assert (Hsame : forall x, x ≠ w -> rings (set_ring h w q') !! x = rings h !! x)
        by (intros x Hx; simpl; by rewrite lookup_insert_ne).
      destruct (IH (set_ring h w q') (<[w := offered q fs f]> c) f
                  (if is_ok r then d + 1 else d) dead Hnd) as (h' & E & Hn & Hout & Hin).
      { intros x. simpl. destruct (decide (x = w)) as [->|Hx].
        - by rewrite !lookup_insert_eq.
        - rewrite !lookup_insert_ne by done. apply Hrep. }
      exists h'. rewrite E. split_and!; [|done| |].
      * assert (Hacc : accepting (set_ring h w q') (<[w := offered q fs f]> c) l.*2 = accepting h c l.*2).
        { unfold accepting. f_equal. f_equal. apply List.filter_ext_in. intros x Hx.
          rewrite <- list_elem_of_In in Hx. assert (x ≠ w) by by intros ->.
          by rewrite Hsame, lookup_insert_ne by done. }
        assert (Hdead : List.filter (fun kv => bool_decide (rings (set_ring h w q') !! kv.2 = None)) l =
                List.filter (fun kv => bool_decide (rings h !! kv.2 = None)) l).
        { apply List.filter_ext_in. intros [i x] Hx. simpl. rewrite <- list_elem_of_In in Hx.
          assert (x ≠ w) by (intros ->; apply Hw; by apply (list_elem_of_fmap_2 snd _ (i, w))).
          by rewrite lookup_insert_ne. }
        rewrite Hacc, Hdead. rewrite (fmap_cons snd). cbn [snd List.filter].
        rewrite Ew, bool_decide_false by done.
        rewrite accepting_cons, Ew, Ec, Hok. do 3 f_equal. destruct (accepts q fs); lia.
      * intros x Hx. simpl in Hx. apply not_elem_of_cons in Hx as [H1 H2].
        rewrite Hout by done. by apply Hsame.
      * intros x Hx. simpl in Hx. apply elem_of_cons in Hx as [->|Hx].
        -- unfold reached. rewrite Ew, Ec. exists q'. split; [|done].
           rewrite Hout by done. simpl. by rewrite lookup_insert_eq.
        -- specialize (Hin x Hx). unfold reached in *.
           assert (x ≠ w) by by intros ->. rewrite Hsame in Hin by done.
           by rewrite lookup_insert_ne in Hin.
    + destruct (IH h c f d (dead ++ [id]) Hnd Hrep) as (h' & E & Hn & Hout & Hin).
      exists h'. rewrite E. split_and!; [|done| |].
      * rewrite (fmap_cons snd). cbn [snd List.filter]. rewrite Ew, bool_decide_true by done.
        rewrite accepting_cons, Ew, <- app_assoc. done.
      * intros x Hx. simpl in Hx. apply not_elem_of_cons in Hx as [H1 H2]. by apply Hout.
      * intros x Hx. simpl in Hx. apply elem_of_cons in Hx as [->|Hx]; [|by apply Hin].
        unfold reached. rewrite Ew. by rewrite Hout.
Qed.

Lemma locs_nodup s h c : wf s h c -> NoDup (map_to_list (subs s)).*2.
Proof.
  intros H. apply NoDup_fmap_2_strong; [|apply NoDup_map_to_list].
  intros [i l] [j l'] Hi Hj Hl. simpl in Hl. subst l'. f_equal.
  apply elem_of_map_to_list in Hi, Hj. by eapply (wf_inj _ _ _ H).
Qed.

Lemma publish_spec s h c f : wf s h c -> exists s' h',
  publish s h f = Ret (s', h', accepting h c (map_to_list (subs s)).*2) /\
  next s' = next s /\ next_loc h' = next_loc h /\
  (forall id, subs s' !! id =
     l ← subs s !! id; if bool_decide (is_Some (rings h !! l)) then Some l else None) /\
  (forall id l, subs s !! id = Some l -> reached h h' c f l) /\
  (forall l, l ∉ (map_to_list (subs s)).*2 -> rings h' !! l = rings h !! l).
Proof.
  intros H. pose proof (locs_nodup s h c H) as Hnd.
  destruct (publish_loop_spec (map_to_list (subs s)) h c f 0 [] Hnd (wf_rep _ _ _ H))
    as (h' & E & Hn & Hout & Hin).
  unfold publish. rewrite E. cbn [mbind exec_bind]. eexists _, h'. split; [done|].
  split; [done|]. split; [done|]. split; [|split; [|exact Hout]].
  - intros id. cbn [subs app]. set (dead := _.*1).
    assert (Hd : id ∈ dead <-> exists l, subs s !! id = Some l /\ rings h !! l = None).
    { unfold dead. rewrite list_elem_of_fmap. setoid_rewrite list_elem_of_In.
      setoid_rewrite filter_In. setoid_rewrite <- list_elem_of_In. split.
      - intros ([i l] & -> & Hel & Hb). exists l. apply bool_decide_eq_true in Hb.
        by apply elem_of_map_to_list in Hel.
      - intros (l & Hl & Hr). exists (id, l). split; [done|].
        split; [by apply elem_of_map_to_list | by apply bool_decide_eq_true]. }
    destruct (decide (id ∈ dead)) as [Hi|Hi].
    + rewrite lookup_foldr_delete by done. destruct (proj1 Hd Hi) as (l & -> & Hr). simpl.
      by rewrite Hr, bool_decide_false by by intros [].
    + rewrite lookup_foldr_delete_not_elem_of by done.
      destruct (subs s !! id) as [l|] eqn:El; [|done]. simpl.
      destruct (rings h !! l) eqn:Er; [by rewrite bool_decide_true|].
      destruct Hi. apply Hd. eauto.
  - intros id l Hl. apply Hin. apply list_elem_of_fmap. exists (id, l).
    split; [done | by apply elem_of_map_to_list].
Qed.

Lemma subscribe_wf s h c cap : wf s h c -> fifo_min (Q := Q) <= Z.max cap 1 <= 2 ^ 63 ->
  exists s' h' id l, subscribe s h cap = (s', h', (id, l)) /\ id = next s /\
    wf s' h' (<[l := []]> c) /\ c !! l = None /\ subs s' !! id = Some l /\
    (forall j, j ≠ id -> subs s' !! j = subs s !! j).
Proof.
  intros H Hc. eexists _, _, _, _. split; [done|]. cbn [subs next next_loc rings].
  assert (Hfresh : rings h !! next_loc h = None) by (apply (wf_dom _ _ _ H); lia).
  pose proof (wf_rep _ _ _ H (next_loc h)) as Hr. rewrite Hfresh in Hr.
  split; [done|]. split_and!; [constructor|..].
  - intros id l. cbn [subs next_loc]. destruct (decide (id = next s)) as [->|].
    + rewrite lookup_insert_eq. intros [= <-]. lia.
    + rewrite lookup_insert_ne by done. intros Hl. apply (wf_alloc _ _ _ H) in Hl. lia.
  - intros i j l. cbn [subs]. rewrite !lookup_insert. repeat case_decide; subst; try done.
    + intros [= <-] Hj. apply (wf_alloc _ _ _ H) in Hj. lia.
    + intros Hi [= <-]. apply (wf_alloc _ _ _ H) in Hi. lia.
    + apply (wf_inj _ _ _ H).
  - intros l Hl. cbn [rings next_loc] in *. rewrite lookup_insert_ne by lia.
    apply (wf_dom _ _ _ H). lia.
  - intros l. cbn [rings]. rewrite !lookup_insert. case_decide; [by apply fifo_new_rep | apply (wf_rep _ _ _ H)].
  - by destruct (c !! next_loc h).
  - by rewrite lookup_insert_eq.
  - intros j Hj. by rewrite lookup_insert_ne.
Qed.

End Sfu.
Arguments Heap : clear implicits.
End Sfu.

(** ** Theorems *)

(** One slow viewer harms nobody: a publication never panics or waits; it
    appends the frame to the ring of every live subscriber that has room, leaves
    full rings and everybody else's rings as they were, counts exactly the
    deliveries, and forgets exactly the subscribers that are gone. *)
Theorem sfu_congestion_isolated {Q} `{BF : !BoundedFifo Q MediaFrame} (s : Sfu.SfuFanout)
    (h : Sfu.Heap Q) (c : gmap nat (list MediaFrame)) (f : MediaFrame) :
  Sfu.wf s h c -> exists s' h' n,
  Sfu.publish s h f = Ret (s', h', n) /\
  n = Sfu.accepting h c (map_to_list (Sfu.subs s)).*2 /\
  (forall id, Sfu.subs s' !! id =
     l ← Sfu.subs s !! id; if bool_decide (is_Some (Sfu.rings h !! l)) then Some l else None) /\
  (forall id l q fs, Sfu.subs s !! id = Some l -> Sfu.rings h !! l = Some q -> c !! l = Some fs ->
     exists q', Sfu.rings h' !! l = Some q' /\ fifo_capacity q' = fifo_capacity q /\
       fifo_rep q' (if Z.of_nat (length fs) <? fifo_capacity q then fs ++ [f] else fs)) /\
  (forall l, (forall id, Sfu.subs s !! id ≠ Some l) -> Sfu.rings h' !! l = Sfu.rings h !! l).
Proof.
  intros H. destruct (Sfu.publish_spec s h c f H) as (s' & h' & E & _ & _ & Hs & Hin & Hout).
  exists s', h'. eexists. split; [exact E|]. split; [done|]. split; [exact Hs|]. split.
  - intros id l q fs Hl Hq Hc. pose proof (Hin id l Hl) as R. unfold Sfu.reached in R.
    rewrite Hq, Hc in R. destruct R as (q' & ? & ? & ?). by exists q'.
  - intros l Hl. apply Hout. intros ([i x] & -> & Hx)%list_elem_of_fmap.
    apply elem_of_map_to_list in Hx. by apply (Hl i).
Qed.

(** Two viewers, the first of which has left. *)
Definition heap0 : Sfu.Heap (Spsc.SpscRing MediaFrame) := {| Sfu.next_loc := 0; Sfu.rings := ∅ |}.
Definition two_viewers : Sfu.SfuFanout * Sfu.Heap (Spsc.SpscRing MediaFrame) :=
  let '(s, h, _) := Sfu.subscribe Sfu.new heap0 2 in
  let '(s, h, _) := Sfu.subscribe s h 1 in (s, h).

Lemma two_viewers_wf : Sfu.wf two_viewers.1 two_viewers.2 (<[1%nat := []]> (<[0%nat := []]> ∅)).
Proof.
  assert (H0 : Sfu.wf Sfu.new heap0 ∅) by (split; try done; intros; by simpl).
  destruct (Sfu.subscribe_wf _ _ _ 2 H0) as (s1 & h1 & i1 & l1 & E1 & _ & H1 & _);
    [vm_compute; split; discriminate|].
  destruct (Sfu.subscribe_wf _ _ _ 1 H1) as (s2 & h2 & i2 & l2 & E2 & _ & H2 & _);
    [vm_compute; split; discriminate|].
  injection E1 as <- <- <- <-. injection E2 as <- <- <- <-. exact H2.
Qed.

Definition small_frame : MediaFrame :=
  {| channel := 2; fseq := 5; flen := 0; fpayload := [] |}.

Lemma sfu_congestion_isolated_witness : exists s' h' n,
  Sfu.publish two_viewers.1 two_viewers.2 small_frame = Ret (s', h', n) /\ n = 2.
Proof.
  destruct (sfu_congestion_isolated _ _ _ small_frame two_viewers_wf) as (s' & h' & n & E & Hn & _).
  exists s', h', n. split; [exact E|]. rewrite Hn. vm_compute. reflexivity.
Defined.

Example departed_viewer_pruned :
  let h := Sfu.drop_arc two_viewers.2 0 in
  match Sfu.publish two_viewers.1 h small_frame with
  | Ret (s', _, n) => (n, map_to_list (Sfu.subs s')) = (1, [(2, 1%nat)])
  | _ => False
  end.
Proof. vm_compute. reflexivity. Qed.
