(* ===== verification/Recorder.v ===== *)
(** * Session recording: [tpt-t-cloud/src/recorder.rs]

    The recorders a unit may have and the container a [FileRecorder] writes.  The
    file is a parameter (class [AppendFile]): a [write_all] that succeeds appends
    the bytes, one that fails may have appended a part of them. *)

From S2P Require Import Prelude Reliable Mux.

Definition REC_MAGIC : Z := 0x5450545245430000.
Definition REC_VERSION : Z := 1.
Definition HEADER_LEN : nat := 18.

(** What the code relies on of a file opened for appending. *)
Class AppendFile (F : Type) := {
  contents : F -> list Z;
  write_all : F -> list Z -> F * result unit IoError;
  flush : F -> F * result unit IoError;
  write_ok f bs f' : write_all f bs = (f', Ok tt) -> contents f' = contents f ++ bs;
  write_err f bs f' e : write_all f bs = (f', Err e) ->
    exists part, part `prefix_of` bs /\ contents f' = contents f ++ part;
  flush_contents f f' r : flush f = (f', r) -> contents f' = contents f
}.

Section Recorders.
Context {F : Type} `{AF : !AppendFile F}.

Record NullRecorder := { null_count : Z }.
Record VecRecorder := { vec_frames : list (Z * Z * list Z) }.
Record FileRecorder := { file : F; file_count : Z }.

Definition null_new : NullRecorder := {| null_count := 0 |}.
Definition vec_new : VecRecorder := {| vec_frames := [] |}.

(** the 18 bytes at the start of a file *)
Definition header (unit_id : Z) : exec (list Z) :=
  let h := replicate HEADER_LEN 0 in
  h ← copy_from_slice h 0 (le_bytes 8 REC_MAGIC);
  h ← copy_from_slice h 8 (le_bytes 2 REC_VERSION);
  copy_from_slice h 10 (le_bytes 8 unit_id).

(** [opened]: what creating the directory and opening the file answered *)
Definition create (opened : result F IoError) (unit_id : Z) : exec (result FileRecorder IoError) :=
  match opened with
  | Err e => Ret (Err e)
  | Ok f =>
      if bool_decide (length (contents f) = 0%nat) then
        hdr ← header unit_id;
        let '(f, r) := write_all f hdr in
        match r with
        | Err e => Ret (Err e)
        | Ok _ =>
            let '(f, r) := flush f in
            match r with
            | Err e => Ret (Err e)
            | Ok _ => Ret (Ok {| file := f; file_count := 0 |})
            end
        end
      else Ret (Ok {| file := f; file_count := 0 |})
  end.

Definition close (r : FileRecorder) : FileRecorder * result unit IoError :=
  let '(f, res) := flush (file r) in ({| file := f; file_count := file_count r |}, res).

(** the 13 bytes before a payload *)
Definition frame_header (channel seq : Z) (payload : list Z) : exec (list Z) :=
  let fr := replicate 13 0 in
  fr ← copy_from_slice fr 0 [channel];
  fr ← copy_from_slice fr 1 (le_bytes 8 seq);
  copy_from_slice fr 9 (le_bytes 4 (wrap 32 (Z.of_nat (length payload)))).

Definition file_record (r : FileRecorder) (channel seq : Z) (payload : list Z)
    : exec (FileRecorder * result unit IoError) :=
  if (MAX_PAYLOAD <? length payload)%nat then Ret (r, Err InvalidData)
  else
    fr ← frame_header channel seq payload;
    let '(f, res) := write_all (file r) fr in
    let r := {| file := f; file_count := file_count r |} in
    match res with
    | Err e => Ret (r, Err e)
    | Ok _ =>
        let '(f, res) := write_all (file r) payload in
        match res with
        | Err e => Ret ({| file := f; file_count := file_count r |}, Err e)
        | Ok _ => Ret ({| file := f; file_count := wadd 64 (file_count r) 1 |}, Ok tt)
        end
    end.

(** [Box<dyn Recorder>] *)
Inductive Recorder :=
| RNull (r : NullRecorder)
| RVec (r : VecRecorder)
| RFile (r : FileRecorder).

Definition record (r : Recorder) (channel seq : Z) (payload : list Z)
    : exec (Recorder * result unit IoError) :=
  match r with
  | RNull r => Ret (RNull {| null_count := wadd 64 (null_count r) 1 |}, Ok tt)
  | RVec r => Ret (RVec {| vec_frames := vec_frames r ++ [(channel, seq, payload)] |}, Ok tt)
  | RFile r => '(r, res) ← file_record r channel seq payload; Ret (RFile r, res)
  end.

Definition frames (r : Recorder) : Z :=
  match r with
  | RNull r => null_count r
  | RVec r => wrap 64 (Z.of_nat (length (vec_frames r)))
  | RFile r => file_count r
  end.

End Recorders.
Arguments FileRecorder : clear implicits.
Arguments Recorder : clear implicits.

(** ** Reading back *)

Record RecordedFrame := { rf_channel : Z; rf_seq : Z; rf_payload : list Z }.

(** The [while] loop from offset [i]; each round passes at least 13 bytes. *)
Fixpoint read_loop (fuel : nat) (data : list Z) (i : nat) (out : list RecordedFrame)
    : exec (result (list RecordedFrame) IoError) :=
  if (i + 13 <=? length data)%nat then
    match fuel with
    | O => NoFuel
    | S fuel =>
        ch ← index data i;
        sb ← range data (i + 1) 8;
        lb ← range data (i + 9) 4;
        let len := Z.to_nat (le_val lb) in
        let i := (i + 13)%nat in
        if (length data <? i + len)%nat then Ret (Err InvalidData)
        else
          p ← range data i len;
          read_loop fuel data (i + len)
            (out ++ [{| rf_channel := ch; rf_seq := le_val sb; rf_payload := p |}])
    end
  else Ret (Ok out).

Definition read_frames (data : list Z) : exec (result (list RecordedFrame) IoError) :=
  if (length data <? HEADER_LEN)%nat then Ret (Err InvalidData)
  else
    m ← range data 0 8;
    if negb (le_val m =? REC_MAGIC) then Ret (Err InvalidData)
    else read_loop (length data) data HEADER_LEN [].

(** *** What the container holds *)

Definition frame_ok (f : RecordedFrame) : Prop :=
  byte (rf_channel f) /\ uint 64 (rf_seq f) /\ (length (rf_payload f) <= MAX_PAYLOAD)%nat.

Definition frame_bytes (f : RecordedFrame) : list Z :=
  [rf_channel f] ++ le_bytes 8 (rf_seq f) ++ le_bytes 4 (Z.of_nat (length (rf_payload f)))
  ++ rf_payload f.
Definition header_bytes (u : Z) : list Z := le_bytes 8 REC_MAGIC ++ le_bytes 2 REC_VERSION ++ le_bytes 8 u.

Lemma payload_len_u32 n : (n <= MAX_PAYLOAD)%nat -> uint 32 (Z.of_nat n).
Proof. unfold uint. assert (MAX_PAYLOAD = 1480%nat) by reflexivity. lia. Qed.

(** the three reads of a round *)
Lemma read_head (pre rest : list Z) ch s n data :
  data = pre ++ [ch] ++ le_bytes 8 s ++ le_bytes 4 n ++ rest ->
  length data = (length pre + 13 + length rest)%nat /\
  index data (length pre) = Ret ch /\
  range data (length pre + 1) 8 = Ret (le_bytes 8 s) /\
  range data (length pre + 9) 4 = Ret (le_bytes 4 n).
Proof.
  intros ->. split_and!.
  - rewrite !length_app, !length_le_bytes. simpl. lia.
  - unfold index. by rewrite lookup_app_r, Nat.sub_diag by lia.
  - rewrite (app_assoc pre). apply range_mid; [rewrite length_app; simpl; lia|].
    by rewrite length_le_bytes.
  - rewrite (app_assoc pre), (app_assoc (pre ++ _)). apply range_mid; [|by rewrite length_le_bytes].
    rewrite !length_app, length_le_bytes. simpl. lia.
Qed.

(** one round over a whole frame *)
Lemma read_loop_frame fuel pre f rest out : frame_ok f ->
  read_loop (S fuel) (pre ++ frame_bytes f ++ rest) (length pre) out =
  read_loop fuel ((pre ++ frame_bytes f) ++ rest) (length (pre ++ frame_bytes f)) (out ++ [f]).
Proof.
  intros (Hc & Hs & Hp). rewrite <- (app_assoc pre).
  set (data := pre ++ frame_bytes f ++ rest).
  set (n := Z.of_nat (length (rf_payload f))).
  destruct (read_head pre (rf_payload f ++ rest) (rf_channel f) (rf_seq f) n data)
    as (Hl & H1 & H2 & H3); [unfold data, frame_bytes; by rewrite <- !app_assoc|].
  rewrite length_app in Hl.
  assert (H4 : range data (length pre + 13) (length (rf_payload f)) = Ret (rf_payload f)).
  { unfold data, frame_bytes. rewrite <- !app_assoc, (app_assoc pre), (app_assoc (pre ++ _)),
      (app_assoc ((pre ++ _) ++ _)). apply range_mid; [|done].
    rewrite !length_app, !length_le_bytes. simpl. lia. }
  cbn [read_loop]. rewrite (proj2 (Nat.leb_le _ _)) by lia.
  rewrite H1. cbn [mbind exec_bind]. rewrite H2. cbn [mbind exec_bind].
  rewrite H3. cbn [mbind exec_bind].
  unfold n. rewrite !le_val_bytes_id, Nat2Z.id by (done || by apply payload_len_u32).
  rewrite (proj2 (Nat.ltb_ge _ _)) by lia. rewrite H4. cbn [mbind exec_bind].
  f_equal; [|by destruct f].
  rewrite length_app. unfold frame_bytes. rewrite !length_app, !length_le_bytes. simpl. lia.
Qed.

Lemma read_loop_frames fs : forall fuel pre out tail, Forall frame_ok fs ->
  read_loop (length fs + fuel) (pre ++ concat (map frame_bytes fs) ++ tail) (length pre) out =
  read_loop fuel ((pre ++ concat (map frame_bytes fs)) ++ tail)
    (length (pre ++ concat (map frame_bytes fs))) (out ++ fs).
Proof.
  induction fs as [|f fs IH]; intros fuel pre out tail Hf.
  - cbn [map concat length Nat.add app]. by rewrite !app_nil_r.
  - apply Forall_cons in Hf as [H1 H2]. cbn [map concat length Nat.add].
    rewrite <- (app_assoc (frame_bytes f)), read_loop_frame, IH by done.
    by rewrite <- !app_assoc.
Qed.

(** what is left of a frame whose write failed: too short for a header, or with
    its payload cut *)
Lemma read_loop_torn fuel pre g part out : frame_ok g -> part `prefix_of` frame_bytes g ->
  part <> frame_bytes g -> (0 < fuel)%nat ->
  read_loop fuel (pre ++ part) (length pre) out =
  if (length part <? 13)%nat then Ret (Ok out) else Ret (Err InvalidData).
Proof.
  intros (Hc & Hs & Hp) [rest Er] Hne Hfuel. destruct fuel as [|fuel]; [lia|].
  cbn [read_loop]. rewrite length_app.
  destruct (Nat.ltb_spec (length part) 13); [by rewrite (proj2 (Nat.leb_gt _ _)) by lia|].
  rewrite (proj2 (Nat.leb_le _ _)) by lia.
  set (hd := [rf_channel g] ++ le_bytes 8 (rf_seq g) ++ le_bytes 4 (Z.of_nat (length (rf_payload g)))) in *.
  assert (Hh : length hd = 13%nat) by (unfold hd; by rewrite !length_app, !length_le_bytes).
  assert (Hg : frame_bytes g = hd ++ rf_payload g) by (unfold frame_bytes, hd; by rewrite <- !app_assoc).
  assert (Ep : exists cut, part = hd ++ cut /\ (length cut < length (rf_payload g))%nat).
  { exists (drop 13 part). rewrite Hg in Er. apply (f_equal (take 13)) in Er as E1.
    rewrite take_app_le, take_ge in E1 by lia. rewrite take_app_le in E1 by lia.
    split; [by rewrite E1, take_drop|]. apply (f_equal length) in Er as E2.
    rewrite !length_app in E2. rewrite length_drop.
    assert (length rest <> 0)%nat; [|lia]. intros E0. apply nil_length_inv in E0 as ->.
    rewrite app_nil_r in Er. congruence. }
  destruct Ep as (cut & -> & Hcut).
  destruct (read_head pre cut (rf_channel g) (rf_seq g) (Z.of_nat (length (rf_payload g))) (pre ++ hd ++ cut))
    as (Hl & -> & H2 & H3); [unfold hd; by rewrite <- !app_assoc|].
  cbn [mbind exec_bind]. rewrite H2. cbn [mbind exec_bind]. rewrite H3. cbn [mbind exec_bind].
  rewrite le_val_bytes_id, Nat2Z.id by (by apply payload_len_u32).
  rewrite (proj2 (Nat.ltb_lt _ _)); [done|]. rewrite length_app, Hh. lia.
Qed.

Lemma length_frames fs : (13 * length fs <= length (concat (map frame_bytes fs)))%nat.
Proof.
  induction fs as [|f fs IH]; [done|]. cbn [map concat length]. rewrite length_app.
  unfold frame_bytes at 1. rewrite !length_app, !length_le_bytes. simpl. lia.
Qed.

(** A container is read back whole, or up to a torn frame that follows. *)
Lemma read_frames_loop u fs tail : Forall frame_ok fs -> exists fuel pre, (0 < fuel)%nat /\
  read_frames (header_bytes u ++ concat (map frame_bytes fs) ++ tail) =
  read_loop fuel (pre ++ tail) (length pre) fs.
Proof.
  intros Hf.
  assert (Hh : length (header_bytes u) = HEADER_LEN)
    by (unfold header_bytes; by rewrite !length_app, !length_le_bytes).
  assert (Hm : range (header_bytes u ++ concat (map frame_bytes fs) ++ tail) 0 8 = Ret (le_bytes 8 REC_MAGIC)).
  { unfold header_bytes. rewrite <- !app_assoc. apply (range_mid []); by rewrite ?length_le_bytes. }
  pose proof (length_frames fs) as Hl.
  set (data := header_bytes u ++ concat (map frame_bytes fs) ++ tail) in *.
  assert (Hd : length data = (HEADER_LEN + length (concat (map frame_bytes fs)) + length tail)%nat)
    by (unfold data; rewrite !length_app; lia).
  exists (length data - length fs)%nat, (header_bytes u ++ concat (map frame_bytes fs)).
  unfold HEADER_LEN in Hd. split; [lia|].
  unfold read_frames. rewrite (proj2 (Nat.ltb_ge _ _)) by (unfold HEADER_LEN; lia).
  rewrite Hm. cbn [mbind exec_bind]. rewrite le_val_bytes_id by done. rewrite Z.eqb_refl.
  cbn [negb]. rewrite <- Hh. replace (length data) with (length fs + (length data - length fs))%nat at 1 by lia.
  unfold data at 2. rewrite read_loop_frames by done. done.
Qed.

Lemma read_frames_whole u fs : Forall frame_ok fs ->
  read_frames (header_bytes u ++ concat (map frame_bytes fs)) = Ret (Ok fs).
Proof.
  intros Hf. destruct (read_frames_loop u fs [] Hf) as (fuel & pre & Hfu & E).
  rewrite app_nil_r in E. rewrite E, app_nil_r.
  destruct fuel; [lia|]. cbn [read_loop]. by rewrite (proj2 (Nat.leb_gt _ _)) by lia.
Qed.

Lemma read_frames_torn u fs g part : Forall frame_ok fs -> frame_ok g ->
  part `prefix_of` frame_bytes g -> part <> frame_bytes g ->
  read_frames (header_bytes u ++ concat (map frame_bytes fs) ++ part) =
  if (length part <? 13)%nat then Ret (Ok fs) else Ret (Err InvalidData).
Proof.
  intros Hf Hg Hp Hne. destruct (read_frames_loop u fs part Hf) as (fuel & pre & Hfu & ->).
  by apply read_loop_torn with g.
Qed.

(** ** Writing *)

Section Writing.
Context {F : Type} `{AF : !AppendFile F}.

Lemma header_spec u : header u = Ret (header_bytes u).
Proof.
  unfold header, header_bytes, HEADER_LEN. rewrite copy_zeros_0 by (rewrite length_le_bytes; lia).
  cbn [mbind exec_bind]. rewrite copy_zeros by (rewrite !length_le_bytes; lia).
  cbn [mbind exec_bind]. rewrite copy_zeros by (rewrite ?length_app, !length_le_bytes; lia).
  rewrite !length_le_bytes. cbn [replicate Nat.sub]. by rewrite app_nil_r, <- app_assoc.
Qed.

Definition frame_head (f : RecordedFrame) : list Z :=
  [rf_channel f] ++ le_bytes 8 (rf_seq f) ++ le_bytes 4 (Z.of_nat (length (rf_payload f))).

Lemma frame_header_spec f : (length (rf_payload f) <= MAX_PAYLOAD)%nat ->
  frame_header (rf_channel f) (rf_seq f) (rf_payload f) = Ret (frame_head f).
Proof.
  intros Hp. unfold frame_header, frame_head. rewrite wrap_id by by apply payload_len_u32.
  rewrite copy_zeros_0 by (simpl; lia).
  cbn [mbind exec_bind length]. rewrite copy_zeros by (rewrite ?length_le_bytes; simpl; lia).
  cbn [mbind exec_bind]. rewrite copy_zeros by (rewrite ?length_app, ?length_le_bytes; simpl; lia).
  rewrite !length_le_bytes. cbn [replicate Nat.sub]. by rewrite app_nil_r, <- app_assoc.
Qed.

(** A record is appended whole, or part of it is and the count stays. *)
Lemma file_record_spec (r : FileRecorder F) f : frame_ok f ->
  exists r' res, file_record r (rf_channel f) (rf_seq f) (rf_payload f) = Ret (r', res) /\
  match res with
  | Ok _ => contents (file r') = contents (file r) ++ frame_bytes f /\
            file_count r' = wadd 64 (file_count r) 1
  | Err _ => file_count r' = file_count r /\
             exists part, part `prefix_of` frame_bytes f /\
               contents (file r') = contents (file r) ++ part
  end.
Proof.
  intros (Hc & Hs & Hp). unfold file_record. rewrite (proj2 (Nat.ltb_ge _ _)) by done.
  rewrite frame_header_spec by done. cbn [mbind exec_bind].
  assert (Hb : frame_bytes f = frame_head f ++ rf_payload f)
    by (unfold frame_bytes, frame_head; by rewrite <- !app_assoc).
  destruct (write_all (file r) (frame_head f)) as [f1 [[]|e]] eqn:E1; cbn [file file_count].
  - apply write_ok in E1.
    destruct (write_all f1 (rf_payload f)) as [f2 [[]|e]] eqn:E2; eexists _, _; (split; [done|]);
      cbn [file file_count].
    + apply write_ok in E2. split; [|done]. by rewrite E2, E1, Hb, app_assoc.
    + apply write_err in E2 as (part & Hpre & E2). split; [done|].
      exists (frame_head f ++ part). rewrite Hb, E2, E1, app_assoc.
      split; [by apply prefix_app | done].
  - apply write_err in E1 as (part & Hpre & E1). eexists _, _. split; [done|]. split; [done|].
    exists part. split; [|done]. rewrite Hb. by apply prefix_app_r.
Qed.

(** recording frames until one fails *)
Fixpoint record_all (r : FileRecorder F) (fs : list RecordedFrame)
    : exec (FileRecorder F * result unit IoError) :=
  match fs with
  | [] => Ret (r, Ok tt)
  | f :: fs =>
      '(r, res) ← file_record r (rf_channel f) (rf_seq f) (rf_payload f);
      match res with Ok _ => record_all r fs | Err e => Ret (r, Err e) end
  end.

Lemma record_all_spec fs : forall (r r' : FileRecorder F) res, Forall frame_ok fs ->
  uint 64 (file_count r) ->
  record_all r fs = Ret (r', res) ->
  exists done part, contents (file r') = contents (file r) ++ concat (map frame_bytes done) ++ part /\
    file_count r' = wrap 64 (file_count r + Z.of_nat (length done)) /\
    match res with
    | Ok _ => done = fs /\ part = []
    | Err _ => exists g rest, fs = done ++ g :: rest /\ part `prefix_of` frame_bytes g
    end.
Proof.
  induction fs as [|f fs IH]; intros r r' res Hf Hu E.
  - injection E as <- <-. exists [], []. rewrite app_nil_r, Z.add_0_r. split; [done|].
    by rewrite wrap_id.
  - apply Forall_cons in Hf as [H1 H2]. cbn [record_all] in E.
    destruct (file_record_spec r f H1) as (r1 & res1 & E1 & Hr1). rewrite E1 in E.
    cbn [mbind exec_bind] in E. destruct res1 as [[]|e].
    + destruct Hr1 as [Hc Hn]. assert (Hu1 : uint 64 (file_count r1))
        by (rewrite Hn; apply wrap_uint; lia).
      destruct (IH r1 r' res H2 Hu1 E) as (dn & part & Hc' & Hn' & Hres).
      exists (f :: dn), part. split; [|split].
      * cbn [map concat]. by rewrite Hc', Hc, <- !app_assoc.
      * rewrite Hn', Hn. unfold wadd. rewrite wrap_add_l. f_equal. cbn [length]. lia.
      * destruct res as [[]|e]; [by destruct Hres as [-> ->]|].
        destruct Hres as (g & rest & -> & Hp). by exists g, rest.
    + injection E as <- <-. destruct Hr1 as [Hn (part & Hp & Hc)].
      exists [], part. split; [done|]. rewrite Z.add_0_r. split; [by rewrite wrap_id|].
      by exists f, fs.
Qed.

End Writing.

(** ** Theorems *)

(** What was recorded is what is read back.  A recording into a fresh file
    that meets no write error is decoded to exactly the recorded frames; after a
    write error the file still decodes to the frames before it if fewer than
    thirteen bytes of the torn one were written (or all of it), but a frame cut
    later makes the whole recording undecodable. *)
Theorem recording_roundtrip {F} `{AF : !AppendFile F} (f : F) (u : Z) (r r' : FileRecorder F)
    (fs : list RecordedFrame) (res : result unit IoError) :
  contents f = [] -> create (Ok f) u = Ret (Ok r) -> Forall frame_ok fs ->
  record_all r fs = Ret (r', res) ->
  exists done, file_count r' = wrap 64 (Z.of_nat (length done)) /\
  match res with
  | Ok _ => done = fs /\ read_frames (contents (file r')) = Ret (Ok fs)
  | Err _ => exists g rest part, fs = done ++ g :: rest /\ part `prefix_of` frame_bytes g /\
      read_frames (contents (file r')) =
        if decide (part = frame_bytes g) then Ret (Ok (done ++ [g]))
        else if (length part <? 13)%nat then Ret (Ok done) else Ret (Err InvalidData)
  end.
Proof.
  intros Hf Hc Hfs Hr.
  assert (Hr0 : contents (file r) = header_bytes u /\ file_count r = 0).
  { unfold create in Hc. rewrite Hf, bool_decide_true, header_spec in Hc by done.
    cbn [mbind exec_bind] in Hc. destruct (write_all f _) as [f1 [[]|]] eqn:E1; [|done].
    destruct (flush f1) as [f2 [[]|]] eqn:E2; [|done]. injection Hc as <-. cbn [file file_count].
    apply write_ok in E1. apply flush_contents in E2. by rewrite E2, E1, Hf. }
  destruct Hr0 as [Hc0 Hn0].
  destruct (record_all_spec fs r r' res Hfs) as (dn & part & Hc' & Hn & Hres);
    [by rewrite Hn0 | done |]. rewrite Hc0 in Hc'. rewrite Hn0 in Hn.
  exists dn. split; [done|]. destruct res as [[]|e].
  - destruct Hres as [-> ->]. split; [done|]. rewrite Hc', app_nil_r. by apply read_frames_whole.
  - destruct Hres as (g & rest & -> & Hp). exists g, rest, part. split; [done|]. split; [done|].
    apply Forall_app in Hfs as [Hd [Hg _]%Forall_cons]. rewrite Hc'. case_decide as Eg.
    + subst part. rewrite <- (app_nil_r (frame_bytes g)).
      change (frame_bytes g ++ []) with (concat (map frame_bytes [g])).
      rewrite <- concat_app, <- map_app. apply read_frames_whole.
      apply Forall_app. split; [done | by constructor].
    + by eapply read_frames_torn.
Qed.

(** A file of a given size: writes past it are cut. *)
#[export] Instance bounded_file (cap : nat) : AppendFile (list Z).
Proof.
  refine {| contents f := f;
            write_all f bs := if decide (length f + length bs <= cap)%nat then (f ++ bs, Ok tt)
                              else (f ++ take (cap - length f) bs, Err OtherIo);
            flush f := (f, Ok tt) |}.
  - intros f bs f' H. case_decide; congruence.
  - intros f bs f' e H. case_decide; [done|]. injection H as <- _.
    eexists. split; [apply prefix_take | done].
  - congruence.
Defined.

Definition two_frames : list RecordedFrame :=
  [{| rf_channel := 1; rf_seq := 1; rf_payload := [97; 98] |};
   {| rf_channel := 2; rf_seq := 42; rf_payload := [98; 99; 100] |}].

Lemma recording_roundtrip_witness :
  exists r', record_all (AF := bounded_file 100) {| file := header_bytes 99; file_count := 0 |} two_frames
    = Ret (r', Ok tt) /\ read_frames (file r') = Ret (Ok two_frames).
Proof.
  eexists. split; [vm_compute; reflexivity|].
  assert (Hok : Forall frame_ok two_frames).
  { repeat constructor; vm_compute; first [discriminate | lia]. }
  destruct (recording_roundtrip (AF := bounded_file 100) [] 99
    {| file := header_bytes 99; file_count := 0 |} _ two_frames (Ok tt)
    eq_refl eq_refl Hok eq_refl) as (dn & _ & _ & E).
  exact E.
Defined.

(** a disk that fills up inside the second payload loses the first frame too *)
Example torn_recording_lost :
  match record_all (AF := bounded_file 47) {| file := header_bytes 99; file_count := 0 |} two_frames with
  | Ret (r', Err _) => read_frames (file r') = Ret (Err InvalidData) /\ file_count r' = 1
  | _ => False
  end.
Proof. vm_compute. split; reflexivity. Qed.
