(* ===== verification/Fleet.v ===== *)
(** * The fleet: [tpt-t-cloud/src/fleet.rs], [error.rs]

    One session per unit: address, mode as the cloud sees it, operator, fan-out
    and recorder.  Commands leave through a transport (class [UnitTransport]):
    none, a capturing one, the UDP multiplexer, or the multiplexer with every
    command sealed.  The operating system (clock, socket, opening a recording
    file, the text of addresses and errors) is the class [CloudOs]; a [HashMap] is
    a [gmap]. *)

From stdpp Require Import gmap strings.
From S2P Require Import Prelude Text Float FloatText Ring Mode Cast Ser Reliable Backpressure Mux Service Cipher SecLink Sfu Recorder Json.

#[global] Instance SocketAddr_countable : Countable SocketAddr.
Proof.
  refine (inj_countable (fun a => (ip a, port a)) (fun p => Some {| ip := p.1; port := p.2 |}) _).
  by intros [].
Defined.

(** What the fleet uses of the machine it runs on. *)
Class CloudOs (W F : Type) := {
  now_unix_ns : W -> W * Z;
  sock_send : W -> SocketAddr -> list Z -> W * result nat IoError;
  (** create the directory, open [<dir>/unit-<id>.tptr] for appending *)
  open_recording : W -> list Z -> Z -> W * result F IoError;
  show_addr : SocketAddr -> list Z;
  show_io : IoError -> list Z
}.

(** ** Errors (error.rs) *)

Inductive CloudError :=
| CloudIo (e : IoError)
| CloudJson (e : list Z)
| CloudHttp (e : list Z)
| NotFound (id : Z)
| AlreadyExists (id : Z)
| ModeDisallowed (from to : Mode)
| Transport (e : list Z)
| RecorderFailed (e : list Z)
| Unsupported (msg : list Z).

Definition mode_name (m : Mode) : list Z := ascii_bytes (Mode.name m).

Section Errors.
Context {W F : Type} `{OS : !CloudOs W F}.

(** [Display] *)
Definition CloudError_fmt (e : CloudError) : list Z :=
  match e with
  | CloudIo e => ascii_bytes "io error: " ++ show_io e
  | CloudJson e => ascii_bytes "json error: " ++ e
  | CloudHttp e => ascii_bytes "http error: " ++ e
  | NotFound id => ascii_bytes "unit " ++ dec id ++ ascii_bytes " not found"
  | AlreadyExists id => ascii_bytes "unit " ++ dec id ++ ascii_bytes " already exists"
  | ModeDisallowed f t =>
      ascii_bytes "mode transition " ++ mode_name f ++ ascii_bytes " -> " ++ mode_name t
      ++ ascii_bytes " not permitted"
  | Transport e => ascii_bytes "transport error: " ++ e
  | RecorderFailed e => ascii_bytes "recorder error: " ++ e
  | Unsupported m => ascii_bytes "unsupported: " ++ m
  end.

Definition transport_err (addr : SocketAddr) (e : IoError) : CloudError :=
  Transport (show_addr addr ++ ascii_bytes ": " ++ show_io e).

End Errors.

Abbreviation Command := (Cmd.ControlCommand Z).

(** ** Transports *)

Class UnitTransport (T W : Type) :=
  send_command : T -> W -> SocketAddr -> Command -> exec (T * W * result unit IoError).

Section Transports.
Context {W F : Type} `{OS : !CloudOs W F}.
Context `{RC : !Rkyv (Cmd.ControlCommand Z) pb_wf}.

Record NullTransport := {}.
Definition null_send (t : NullTransport) (w : W) (addr : SocketAddr) (cmd : Command)
    : exec (NullTransport * W * result unit IoError) := Ret (t, w, Ok tt).

Record CapturingTransport := { sent : list (SocketAddr * Command) }.
Definition capturing_send (t : CapturingTransport) (w : W) (addr : SocketAddr) (cmd : Command)
    : exec (CapturingTransport * W * result unit IoError) :=
  Ret ({| sent := sent t ++ [(addr, cmd)] |}, w, Ok tt).

(** what a framed buffer and the multiplexer do on the socket *)
Definition send_frame (m : UdpMux) (w : W) (addr : SocketAddr) (buf : list Z) (n : nat)
    : exec (UdpMux * W * result unit IoError) :=
  let '(w, now) := now_unix_ns w in
  bs ← slice_to buf n;
  let '(w, answer) := sock_send w addr bs in
  let '(m, res) := send_framed m answer now in
  Ret (m, w, match res with Ok _ => Ok tt | Err e => Err e end).

Record UdpTransport := { udp_mux : UdpMux; udp_scratch : list Z }.

Definition udp_send (t : UdpTransport) (w : W) (addr : SocketAddr) (cmd : Command)
    : exec (UdpTransport * W * result unit IoError) :=
  '(m, buf, r) ← write_control_frame (udp_mux t) cmd 0 (udp_scratch t);
  match r with
  | Err _ => Ret ({| udp_mux := m; udp_scratch := buf |}, w, Err InvalidData)
  | Ok n =>
      '(m, w, res) ← send_frame m w addr buf n;
      Ret ({| udp_mux := m; udp_scratch := buf |}, w, res)
  end.

Context {Aes Cha : Type} `{AA : !AeadInPlace Aes} `{AC : !AeadInPlace Cha}.

Record SecureUdpTransport := {
  sec_mux : UdpMux; peers : gmap SocketAddr (CryptoBox Aes Cha);
  default_box : CryptoBox Aes Cha; sec_scratch : list Z
}.

Definition add_peer_session (t : SecureUdpTransport) (addr : SocketAddr) (b : CryptoBox Aes Cha) :=
  {| sec_mux := sec_mux t; peers := <[addr := b]> (peers t); default_box := default_box t;
     sec_scratch := sec_scratch t |}.
Definition remove_peer_session (t : SecureUdpTransport) (addr : SocketAddr) :=
  {| sec_mux := sec_mux t; peers := delete addr (peers t); default_box := default_box t;
     sec_scratch := sec_scratch t |}.

(** [peers.get(&addr).unwrap_or(&default)]; sealing moves that box's counter *)
Definition box_for (t : SecureUdpTransport) (addr : SocketAddr) : CryptoBox Aes Cha :=
  default (default_box t) (peers t !! addr).
Definition put_box (t : SecureUdpTransport) (addr : SocketAddr) (b : CryptoBox Aes Cha) :=
  match peers t !! addr with
  | Some _ => add_peer_session t addr b
  | None => {| sec_mux := sec_mux t; peers := peers t; default_box := b; sec_scratch := sec_scratch t |}
  end.
Definition with_mux (t : SecureUdpTransport) (m : UdpMux) (buf : list Z) :=
  {| sec_mux := m; peers := peers t; default_box := default_box t; sec_scratch := buf |}.

Definition INNER_CONTROL : Z := 1.

Definition secure_send (t : SecureUdpTransport) (w : W) (addr : SocketAddr) (cmd : Command)
    : exec (SecureUdpTransport * W * result unit IoError) :=
  match to_bytes cmd with
  | None => Ret (t, w, Err InvalidData)
  | Some plain =>
      '(b, sealed) ← seal_to_vec (box_for t addr) plain AAD_CONTROL;
      let t := put_box t addr b in
      match sealed with
      | Err _ => Ret (t, w, Err InvalidData)
      | Ok sealed =>
          '(m, buf, r) ← write_secure_frame (sec_mux t) sealed INNER_CONTROL (sec_scratch t);
          match r with
          | Err _ => Ret (with_mux t m buf, w, Err InvalidData)
          | Ok n =>
              '(m, w, res) ← send_frame m w addr buf n;
              Ret (with_mux t m buf, w, res)
          end
      end
  end.

End Transports.
Arguments SecureUdpTransport : clear implicits.

#[export] Instance null_transport {W} : UnitTransport NullTransport W := null_send.
#[export] Instance capturing_transport {W} : UnitTransport CapturingTransport W := capturing_send.
#[export] Instance udp_transport {W F} `{!CloudOs W F} `{RC : !Rkyv (Cmd.ControlCommand Z) pb_wf} :
  UnitTransport UdpTransport W := udp_send.
#[export] Instance secure_udp_transport {W F Aes Cha} `{!CloudOs W F}
    `{RC : !Rkyv (Cmd.ControlCommand Z) pb_wf} `{!AeadInPlace Aes} `{!AeadInPlace Cha} :
  UnitTransport (SecureUdpTransport Aes Cha) W := secure_send.

(** ** Units and the fleet *)

Module Fleet.
Section Fleet.
Context {W F T Q : Type} `{OS : !CloudOs W F} `{AF : !AppendFile F} `{TR : !UnitTransport T W}
  `{BF : !BoundedFifo Q MediaFrame}.

Record UnitState := {
  id : Z; addr : SocketAddr; umode : Mode; assigned_operator : option (list Z);
  last_seq : Z; cmd_seq : Z; created_ns : Z; last_seen_ns : Z;
  sfu : Sfu.SfuFanout; recorder : Recorder F
}.

Record UnitInfo := {
  i_id : Z; i_addr : list Z; i_mode : list Z; i_operator : option (list Z);
  i_last_seq : Z; i_frames : Z; i_subscribers : Z; i_last_seen : Z
}.

(** field updates *)
Definition with_addr (u : UnitState) (a : SocketAddr) : UnitState :=
  {| id := id u; addr := a; umode := umode u; assigned_operator := assigned_operator u;
     last_seq := last_seq u; cmd_seq := cmd_seq u; created_ns := created_ns u;
     last_seen_ns := last_seen_ns u; sfu := sfu u; recorder := recorder u |}.
Definition with_mode (u : UnitState) (m : Mode) : UnitState :=
  {| id := id u; addr := addr u; umode := m; assigned_operator := assigned_operator u;
     last_seq := last_seq u; cmd_seq := cmd_seq u; created_ns := created_ns u;
     last_seen_ns := last_seen_ns u; sfu := sfu u; recorder := recorder u |}.
Definition with_operator (u : UnitState) (o : option (list Z)) : UnitState :=
  {| id := id u; addr := addr u; umode := umode u; assigned_operator := o;
     last_seq := last_seq u; cmd_seq := cmd_seq u; created_ns := created_ns u;
     last_seen_ns := last_seen_ns u; sfu := sfu u; recorder := recorder u |}.
Definition with_last_seq (u : UnitState) (s : Z) : UnitState :=
  {| id := id u; addr := addr u; umode := umode u; assigned_operator := assigned_operator u;
     last_seq := s; cmd_seq := cmd_seq u; created_ns := created_ns u;
     last_seen_ns := last_seen_ns u; sfu := sfu u; recorder := recorder u |}.
Definition with_cmd_seq (u : UnitState) (s : Z) : UnitState :=
  {| id := id u; addr := addr u; umode := umode u; assigned_operator := assigned_operator u;
     last_seq := last_seq u; cmd_seq := s; created_ns := created_ns u;
     last_seen_ns := last_seen_ns u; sfu := sfu u; recorder := recorder u |}.
Definition with_last_seen (u : UnitState) (t : Z) : UnitState :=
  {| id := id u; addr := addr u; umode := umode u; assigned_operator := assigned_operator u;
     last_seq := last_seq u; cmd_seq := cmd_seq u; created_ns := created_ns u;
     last_seen_ns := t; sfu := sfu u; recorder := recorder u |}.
Definition with_sfu (u : UnitState) (s : Sfu.SfuFanout) : UnitState :=
  {| id := id u; addr := addr u; umode := umode u; assigned_operator := assigned_operator u;
     last_seq := last_seq u; cmd_seq := cmd_seq u; created_ns := created_ns u;
     last_seen_ns := last_seen_ns u; sfu := s; recorder := recorder u |}.
Definition with_recorder (u : UnitState) (r : Recorder F) : UnitState :=
  {| id := id u; addr := addr u; umode := umode u; assigned_operator := assigned_operator u;
     last_seq := last_seq u; cmd_seq := cmd_seq u; created_ns := created_ns u;
     last_seen_ns := last_seen_ns u; sfu := sfu u; recorder := r |}.

Definition info (u : UnitState) (h : Sfu.Heap Q) : UnitInfo :=
  {| i_id := id u; i_addr := show_addr (addr u); i_mode := mode_name (umode u);
     i_operator := assigned_operator u; i_last_seq := last_seq u;
     i_frames := frames (recorder u); i_subscribers := Sfu.subscriber_count (sfu u) h;
     i_last_seen := last_seen_ns u |}.

Definition to_json (i : UnitInfo) : Json :=
  Json.obj
    [(ascii_bytes "id", Json.uint (i_id i));
     (ascii_bytes "addr", Json.str (i_addr i));
     (ascii_bytes "mode", Json.str (i_mode i));
     (ascii_bytes "assigned_operator",
        match i_operator i with Some o => Json.str o | None => Null end);
     (ascii_bytes "last_seq", Json.uint (i_last_seq i));
     (ascii_bytes "frames_recorded", Json.uint (i_frames i));
     (ascii_bytes "subscribers", Json.uint (i_subscribers i));
     (ascii_bytes "last_seen_ns", Json.uint (i_last_seen i))].

Record Fleet := {
  units : gmap Z UnitState;
  transport : T;
  table : TransitionTable.TransitionTable;
  record_dir : option (list Z)
}.

Definition new (t : T) : Fleet :=
  {| units := ∅; transport := t; table := TransitionTable.spec_default; record_dir := None |}.
Definition set_record_dir (f : Fleet) (dir : list Z) : Fleet :=
  {| units := units f; transport := transport f; table := table f; record_dir := Some dir |}.
Definition set_units (f : Fleet) (us : gmap Z UnitState) : Fleet :=
  {| units := us; transport := transport f; table := table f; record_dir := record_dir f |}.
Definition set_transport (f : Fleet) (t : T) : Fleet :=
  {| units := units f; transport := t; table := table f; record_dir := record_dir f |}.

(** a session as both ways of provisioning create it *)
Definition fresh_unit (uid : Z) (a : SocketAddr) (now : Z) (r : Recorder F) : UnitState :=
  {| id := uid; addr := a; umode := Assist; assigned_operator := None; last_seq := 0; cmd_seq := 0;
     created_ns := now; last_seen_ns := now; sfu := Sfu.new; recorder := r |}.

Definition register_unit (f : Fleet) (w : W) (uid : Z) (a : SocketAddr) (r : Recorder F)
    : Fleet * W * result unit CloudError :=
  match units f !! uid with
  | Some _ => (f, w, Err (AlreadyExists uid))
  | None =>
      let '(w, now) := now_unix_ns w in
      (set_units f (<[uid := fresh_unit uid a now r]> (units f)), w, Ok tt)
  end.

Definition provision (f : Fleet) (w : W) (uid : Z) (a : SocketAddr) : exec (Fleet * W) :=
  match units f !! uid with
  | Some u =>
      let '(w, now) := now_unix_ns w in
      Ret (set_units f (<[uid := with_last_seen (with_addr u a) now]> (units f)), w)
  | None =>
      '(w, r) ← match record_dir f with
                | Some dir =>
                    let '(w, opened) := open_recording w dir uid in
                    c ← create opened uid;
                    Ret (w, match c with Ok r => RFile r | Err _ => RNull null_new end)
                | None => Ret (w, RNull null_new)
                end;
      let '(w, now) := now_unix_ns w in
      Ret (set_units f (<[uid := fresh_unit uid a now r]> (units f)), w)
  end.

(** in the map's iteration order *)
Definition list_units (f : Fleet) (h : Sfu.Heap Q) : list UnitInfo :=
  (fun kv => info kv.2 h) <$> map_to_list (units f).

Definition get (f : Fleet) (uid : Z) : option UnitState := units f !! uid.

Definition assign (f : Fleet) (uid : Z) (operator : list Z) : Fleet * result unit CloudError :=
  match units f !! uid with
  | None => (f, Err (NotFound uid))
  | Some u => (set_units f (<[uid := with_operator u (Some operator)]> (units f)), Ok tt)
  end.

Definition path_via (f : Fleet) (src dst : Mode) : option (list Mode) :=
  if decide (src = dst) then Some []
  else if TransitionTable.allows (table f) src dst then Some [dst]
  else if negb (bool_decide (src = Assist)) && negb (bool_decide (dst = Assist))
          && TransitionTable.allows (table f) src Assist && TransitionTable.allows (table f) Assist dst
  then Some [Assist; dst]
  else None.

Definition make_command (w : W) (m : Mode) (seq : Z) : W * Command :=
  let c := Cmd.with_seq (Cmd.zeroed 0 m) seq in
  let '(w, now) := now_unix_ns w in
  (w, Cmd.with_timestamp c now).

(** the loop over the path; [a] is the address read before it *)
Fixpoint send_path (path : list Mode) (t : T) (w : W) (a : SocketAddr) (u : UnitState)
    : exec (T * W * UnitState * result unit CloudError) :=
  match path with
  | [] => Ret (t, w, u, Ok tt)
  | next :: path =>
      let '(w, cmd) := make_command w next (cmd_seq u) in
      '(t, w, r) ← send_command t w a cmd;
      match r with
      | Err e => Ret (t, w, u, Err (transport_err a e))
      | Ok _ => send_path path t w a (with_cmd_seq (with_mode u next) (wadd 64 (cmd_seq u) 1))
      end
  end.

Definition set_mode (f : Fleet) (w : W) (uid : Z) (target : Mode)
    : exec (Fleet * W * result unit CloudError) :=
  match units f !! uid with
  | None => Ret (f, w, Err (NotFound uid))
  | Some u =>
      match path_via f (umode u) target with
      | None => Ret (f, w, Err (ModeDisallowed (umode u) target))
      | Some path =>
          '(t, w, u, r) ← send_path path (transport f) w (addr u) u;
          Ret (set_units (set_transport f t) (<[uid := u]> (units f)), w, r)
      end
  end.

Definition engage_autonomy (f : Fleet) (w : W) (uid : Z) := set_mode f w uid Auto.
Definition take_manual_control (f : Fleet) (w : W) (uid : Z) := set_mode f w uid FullTeleop.

(** a failed recording ends the call before the fan-out *)
Definition ingest (f : Fleet) (w : W) (h : Sfu.Heap Q) (uid : Z) (a : SocketAddr)
    (ch seq : Z) (payload : list Z) : exec (Fleet * W * Sfu.Heap Q * result unit CloudError) :=
  '(f, w) ← provision f w uid a;
  match units f !! uid with
  | None => Panic
  | Some u =>
      let u := with_last_seq u seq in
      let '(w, now) := now_unix_ns w in
      let u := with_last_seen u now in
      '(r, res) ← record (recorder u) ch seq payload;
      let u := with_recorder u r in
      match res with
      | Err e => Ret (set_units f (<[uid := u]> (units f)), w, h, Err (RecorderFailed (show_io e)))
      | Ok _ =>
          frame ← Frame.new ch seq payload;
          '(s, h, _) ← Sfu.publish (sfu u) h frame;
          Ret (set_units f (<[uid := with_sfu u s]> (units f)), w, h, Ok tt)
      end
  end.

Definition attach_subscriber (f : Fleet) (h : Sfu.Heap Q) (uid capacity : Z)
    : Fleet * Sfu.Heap Q * result (Z * nat) CloudError :=
  match units f !! uid with
  | None => (f, h, Err (NotFound uid))
  | Some u =>
      let '(s, h, r) := Sfu.subscribe (sfu u) h capacity in
      (set_units f (<[uid := with_sfu u s]> (units f)), h, Ok r)
  end.

Definition subscriber_count (f : Fleet) (h : Sfu.Heap Q) (uid : Z) : result Z CloudError :=
  match units f !! uid with
  | Some u => Ok (Sfu.subscriber_count (sfu u) h)
  | None => Err (NotFound uid)
  end.

(** mode names of the dashboard and the tools *)
Definition parse_mode (name : list Z) : option Mode :=
  let n := to_ascii_lowercase name in
  if decide (n = ascii_bytes "auto") then Some Auto
  else if decide (n = ascii_bytes "assist") then Some Assist
  else if decide (n ∈ [ascii_bytes "teleop"; ascii_bytes "fullteleop"; ascii_bytes "full_teleop"])
  then Some FullTeleop
  else if decide (n ∈ [ascii_bytes "estop"; ascii_bytes "emergency"; ascii_bytes "emergencystop"])
  then Some EmergencyStop
  else None.

End Fleet.
Arguments UnitState : clear implicits.
Arguments Fleet : clear implicits.
End Fleet.

(** ** What a transport observes *)

Module TracedTransport.
Section TracedTransport.
Context {W F T Q : Type} `{OS : !CloudOs W F} `{TR : !UnitTransport T W}.

(** one command handed to the transport, and whether it took it *)
Definition entry : Type := SocketAddr * Command * bool.

Definition traced : Type := T * list entry.

#[export] Instance traced_transport : UnitTransport traced W := fun t w a cmd =>
  '(t', w, r) ← send_command (fst t) w a cmd;
  Ret ((t', snd t ++ [(a, cmd, is_ok r)]), w, r).

(** A staged change from mode [m], with [s] the next sequence number: each command
    carries the next mode of the path and the next number, each edge is legal, and
    it stops at the first command that is not taken. *)
Inductive staged (tbl : TransitionTable.TransitionTable) (a : SocketAddr) :
    Mode -> Z -> list Mode -> list entry -> Mode -> bool -> Prop :=
| staged_done m s : staged tbl a m s [] [] m true
| staged_refused m s n path cmd :
    TransitionTable.allows tbl m n = true -> Cmd.mode cmd = Some n -> Cmd.seq cmd = s ->
    staged tbl a m s (n :: path) [(a, cmd, false)] m false
| staged_sent m s n path cmd es m' ok :
    TransitionTable.allows tbl m n = true -> Cmd.mode cmd = Some n -> Cmd.seq cmd = s ->
    staged tbl a n (wadd 64 s 1) path es m' ok ->
    staged tbl a m s (n :: path) ((a, cmd, true) :: es) m' ok.

(** the edges of a path are legal *)
Fixpoint legal_path (tbl : TransitionTable.TransitionTable) (m : Mode) (path : list Mode) : Prop :=
  match path with
  | [] => True
  | n :: path => TransitionTable.allows tbl m n = true /\ legal_path tbl n path
  end.

Lemma staged_complete tbl a m s path es m' : staged tbl a m s path es m' true -> m' = List.last path m.
Proof.
  intros H. remember true as ok eqn:E. induction H; try done.
  rewrite (IHstaged E). destruct path as [|p path]; [done|]. simpl.
  clear. revert p. induction path as [|q path IH]; intros p; [done|]. simpl. apply IH.
Qed.

Lemma path_via_legal (f : Fleet.Fleet F traced) src dst path :
  Fleet.path_via f src dst = Some path ->
  legal_path (Fleet.table f) src path /\ List.last path src = dst.
Proof.
  unfold Fleet.path_via. case_decide as E; [by intros [= <-]|].
  destruct (TransitionTable.allows _ src dst) eqn:E1; [by intros [= <-]|].
  destruct (_ && _ && _ && _) eqn:E2; [|done]. intros [= <-]. zbool. done.
Qed.

Definition total : Prop := forall (t : T) (w : W) a cmd, exists t' w' r,
  send_command t w a cmd = Ret (t', w', r).

Lemma send_path_staged (tbl : TransitionTable.TransitionTable) path : total ->
  forall (t : traced) (w : W) a (u : Fleet.UnitState F), legal_path tbl (Fleet.umode u) path ->
  exists t' w' es u' r, Fleet.send_path path t w a u = Ret (t', w', u', r) /\
    snd t' = snd t ++ es /\
    staged tbl a (Fleet.umode u) (Fleet.cmd_seq u) path es (Fleet.umode u') (is_ok r) /\
    Fleet.addr u' = Fleet.addr u.
Proof.
  intros Htot. induction path as [|n path IH]; intros t w a u Hp.
  - exists t, w, [], u, (Ok tt). split; [done|]. rewrite app_nil_r. split; [done|].
    split; [constructor | done].
  - destruct Hp as [Hn Hp]. cbn [Fleet.send_path]. unfold Fleet.make_command.
    destruct (now_unix_ns w) as [w1 now].
    set (cmd := Cmd.with_timestamp _ now).
    assert (Hm : Cmd.mode cmd = Some n) by apply Mode.from_as_u8.
    destruct (Htot (fst t) w1 a cmd) as (t1 & w2 & r & E1).
    assert (Es : send_command t w1 a cmd = Ret ((t1, snd t ++ [(a, cmd, is_ok r)]), w2, r))
      by (unfold send_command at 1, traced_transport; by rewrite E1).
    rewrite Es. cbn [mbind exec_bind].
    destruct r as [[]|e]; cbn [is_ok].
    + destruct (IH (t1, snd t ++ [(a, cmd, true)]) w2 a
        (Fleet.with_cmd_seq (Fleet.with_mode u n) (wadd 64 (Fleet.cmd_seq u) 1)) Hp)
        as (t' & w' & es & u' & r & -> & Hlog & Hst & Ha).
      eexists t', w', ((a, cmd, true) :: es), u', r. split; [done|].
      split; [rewrite Hlog; cbn [snd]; by rewrite <- app_assoc|]. split; [|done].
      by apply staged_sent.
    + eexists _, w2, [(a, cmd, false)], u, (Err _). split; [done|]. split; [done|].
      split; [by apply staged_refused | done].
Qed.

End TracedTransport.
Arguments traced : clear implicits.
Arguments total W T {TR}.
End TracedTransport.
#[export] Existing Instance TracedTransport.traced_transport.

(** ** Theorems *)

(** C16: A commanded mode change is staged along legal edges.  For a known unit,
    whatever its transport does short of panicking, [set_mode] either refuses
    without sending anything, or sends to the unit's address one command per
    stage, each with the next mode and the next sequence number, each along an
    edge of the table, and stops at the first that is not taken; the recorded
    mode is then the last one that was, the target if all were; every other unit
    is untouched. *)
Theorem fleet_mode_staged {W F T} `{OS : !CloudOs W F} `{TR : !UnitTransport T W}
    (f : Fleet.Fleet F (TracedTransport.traced T)) (w : W) (uid : Z) (u : Fleet.UnitState F)
    (target : Mode) :
  Fleet.units f !! uid = Some u -> TracedTransport.total W T ->
  exists f' w' r es u', Fleet.set_mode f w uid target = Ret (f', w', r) /\
    Fleet.units f' = <[uid := u']> (Fleet.units f) /\ Fleet.addr u' = Fleet.addr u /\
    snd (Fleet.transport f') = snd (Fleet.transport f) ++ es /\
    ((es = [] /\ u' = u /\ r = Err (ModeDisallowed (Fleet.umode u) target)) \/
     exists path, TracedTransport.staged (Fleet.table f) (Fleet.addr u) (Fleet.umode u)
         (Fleet.cmd_seq u) path es (Fleet.umode u') (is_ok r) /\
       (is_ok r = true -> Fleet.umode u' = target)).
Proof.
  intros Hu Htot. unfold Fleet.set_mode. rewrite Hu.
  destruct (Fleet.path_via f (Fleet.umode u) target) as [path|] eqn:Ep.
  - destruct (TracedTransport.path_via_legal f _ _ _ Ep) as [Hl Hlast].
    destruct (TracedTransport.send_path_staged (Fleet.table f) path Htot (Fleet.transport f) w
      (Fleet.addr u) u Hl) as (t' & w' & es & u' & r & -> & Hlog & Hst & Ha).
    cbn [mbind exec_bind]. eexists _, w', r, es, u'. do 4 (split; [done|]).
    right. exists path. split; [done|]. intros Hr. rewrite Hr in Hst.
    by rewrite (TracedTransport.staged_complete _ _ _ _ _ _ _ Hst).
  - eexists f, w, _, [], u. split; [done|]. rewrite insert_id, app_nil_r by done.
    do 3 (split; [done|]). by left.
Qed.

(** A machine whose clock counts and whose socket takes everything. *)
Module DemoOs.
Definition bounded : AppendFile (list Z) := bounded_file 1000.
#[export] Instance os : CloudOs Z (list Z) := {
  now_unix_ns w := (w + 1, w);
  sock_send w _ bs := (w, Ok (length bs));
  open_recording w _ _ := (w, Ok []);
  show_addr a := dec (ip a) ++ [58] ++ dec (port a);
  show_io _ := ascii_bytes "error"
}.
Definition somewhere : SocketAddr := {| ip := 2130706433; port := 5000 |}.
Definition stopped : Fleet.UnitState (list Z) :=
  Fleet.with_mode (Fleet.fresh_unit 7 somewhere 0 (RNull null_new)) EmergencyStop.
Definition fleet {T} (t : T) : Fleet.Fleet (list Z) T :=
  Fleet.set_units (Fleet.new t) {[7 := stopped]}.
End DemoOs.
#[export] Existing Instance DemoOs.os.

Lemma fleet_mode_staged_witness : exists f' w' r es u',
  Fleet.set_mode (DemoOs.fleet (({| sent := [] |}, []) : TracedTransport.traced CapturingTransport))
    0 7 FullTeleop = Ret (f', w', r) /\
  Fleet.units f' = <[7 := u']> {[7 := DemoOs.stopped]} /\
  snd (Fleet.transport f') = es /\ length es = 2%nat.
Proof.
  destruct (fleet_mode_staged (DemoOs.fleet (({| sent := [] |}, []) : TracedTransport.traced CapturingTransport))
    0 7 DemoOs.stopped FullTeleop eq_refl) as (f' & w' & r & es & u' & E & Hu & _ & Hlog & _).
  { intros t w a cmd. eexists _, _, _. reflexivity. }
  exists f', w', r, es, u'. split; [exact E|]. split; [exact Hu|]. split; [exact Hlog|].
  vm_compute in E. injection E as <- <- <-. vm_compute in Hlog. rewrite <- Hlog. reflexivity.
Defined.

(** A mode command doubles as the acknowledgement of an emergency stop.  The
    mode table lets a stopped unit out into [ASSIST] only, as an operator's
    acknowledgement; the fleet's staging supplies that step by itself, so on a
    stopped unit "engage autonomy" and "take manual control" send [ASSIST] and
    then the new mode, and report success. *)
Theorem fleet_mode_command_releases_stop {W F} `{OS : !CloudOs W F}
    (f : Fleet.Fleet F CapturingTransport) (w : W) (uid : Z) (u : Fleet.UnitState F) (target : Mode) :
  Fleet.units f !! uid = Some u -> Fleet.umode u = EmergencyStop ->
  Fleet.table f = TransitionTable.spec_default -> target = Auto \/ target = FullTeleop ->
  exists f' w' c1 c2 u', Fleet.set_mode f w uid target = Ret (f', w', Ok tt) /\
    sent (Fleet.transport f') =
      sent (Fleet.transport f) ++ [(Fleet.addr u, c1); (Fleet.addr u, c2)] /\
    Cmd.mode c1 = Some Assist /\ Cmd.mode c2 = Some target /\
    Fleet.units f' !! uid = Some u' /\ Fleet.umode u' = target.
Proof.
  intros Hu Hm Ht Htgt. unfold Fleet.set_mode. rewrite Hu, Hm.
  assert (Hp : Fleet.path_via f EmergencyStop target = Some [Assist; target])
    by (unfold Fleet.path_via; rewrite Ht; by destruct Htgt as [-> | ->]).
  rewrite Hp. cbn [Fleet.send_path]. unfold Fleet.make_command.
  destruct (now_unix_ns w) as [w1 n1]. cbn [mbind exec_bind send_command capturing_transport capturing_send].
  destruct (now_unix_ns w1) as [w2 n2]. cbn [mbind exec_bind send_command capturing_transport capturing_send].
  eexists _, w2, _, _, _. split; [done|]. cbn [Fleet.transport Fleet.set_units Fleet.set_transport sent].
  split; [by rewrite <- app_assoc|].
  split; [apply Mode.from_as_u8|]. split; [apply Mode.from_as_u8|].
  cbn [Fleet.units Fleet.set_units]. rewrite lookup_insert_eq. done.
Qed.

Lemma fleet_mode_command_releases_stop_witness : exists f' w' c1 c2 u',
  Fleet.set_mode (DemoOs.fleet {| sent := [] |}) 0 7 Auto = Ret (f', w', Ok tt) /\
  sent (Fleet.transport f') = [(DemoOs.somewhere, c1); (DemoOs.somewhere, c2)] /\
  Cmd.mode c1 = Some Assist /\ Cmd.mode c2 = Some Auto /\
  Fleet.units f' !! 7 = Some u' /\ Fleet.umode u' = Auto.
Proof.
  exact (fleet_mode_command_releases_stop (DemoOs.fleet {| sent := [] |}) 0 7 DemoOs.stopped Auto
    eq_refl eq_refl eq_refl (or_introl eq_refl)).
Defined.
