(* ===== verification/Gate.v ===== *)
(** * The fleet's admission gate: [tpt-t-sec/src/cloud.rs], [error.rs], [tpt-t-cloud/src/auth.rs]

    The broker as the cloud uses it, attestations in request headers, and the
    handshake messages as JSON.  A request is a value of [Http.Request]. *)

From stdpp Require Import gmap strings pretty.
From S2P Require Import Prelude Text Float FloatText Reliable Mux Cipher Trust Json Http.

(** ** Errors (error.rs) *)

Definition SecError_fmt (e : SecError) : list Z :=
  match e with
  | InvalidKeyLength => ascii_bytes "invalid key length"
  | Crypto => ascii_bytes "cryptographic operation failed"
  | KeyGen => ascii_bytes "key generation failed"
  | AttestationFailed => ascii_bytes "attestation failed"
  | HandshakeNoSuite => ascii_bytes "handshake failed: no common cipher suite"
  | BufferTooSmall => ascii_bytes "buffer too small"
  | RingFull => ascii_bytes "ring full"
  | Serialize => ascii_bytes "serialize/deserialize failed"
  | UnknownUnit => ascii_bytes "unknown unit"
  end.

(** ** The gate (sec/cloud.rs) *)

Record FleetAuthz := { broker : ZeroTrustBroker }.

Module Authz.
Section Authz.
Context `{ED : !Ed25519}.

Definition new (t : TrustStore) (p : Policy.Policy) : FleetAuthz :=
  {| broker := {| trust := t; policy := p |} |}.
Definition with_trust (t : TrustStore) : FleetAuthz := {| broker := Trust.with_trust t |}.

Definition authenticate (g : FleetAuthz) (a : Attestation) : exec (result Principal SecError) :=
  Trust.authenticate (broker g) a.
Definition authorize (g : FleetAuthz) (p : Principal) (perm : Permission) : bool :=
  broker_authorize (broker g) p perm.
Definition authorize_dispatch (g : FleetAuthz) (p : Principal) (tool : string) : bool :=
  broker_authorize_dispatch (broker g) p tool.

(** [FleetAuthz::admit] *)
Definition admits (g : FleetAuthz) (a : Attestation) (tool : string) : exec bool :=
  r ← authenticate g a;
  match r with
  | Ok p => Ret (authorize_dispatch g p tool)
  | Err _ => Ret false
  end.

End Authz.
End Authz.

(** ** Requests and the gate (cloud/auth.rs) *)

Definition SCHEME : list Z := ascii_bytes "TPT-Attestation ".

Fixpoint hex_pairs (bs : list Z) : option (list Z) :=
  match bs with
  | h :: l :: bs =>
      hi ← hex_val h; lo ← hex_val l;
      out ← hex_pairs bs;
      Some (Z.lor (Z.shiftl hi 4) lo :: out)
  | _ => Some []
  end.
(** [None] for an odd number of bytes, and at the first that is no hex digit *)
Definition hex_decode (s : list Z) : option (list Z) :=
  let bs := utf8 s in
  if negb (Nat.even (length bs)) then None else hex_pairs bs.

Definition hex_encode (data : list Z) : list Z :=
  concat (map (fun b => [hex_digit (Z.shiftr b 4); hex_digit (Z.land b 15)]) data).

Definition suite_to_u8 (s : CipherSuite) : Z :=
  match s with Aes256Gcm => 1 | ChaCha20Poly1305 => 2 end.
Definition suite_from_u8 (n : Z) : option CipherSuite :=
  if n =? 1 then Some Aes256Gcm else if n =? 2 then Some ChaCha20Poly1305 else None.

Definition is_attestation_header (k : list Z) : bool :=
  bool_decide (k = ascii_bytes "authorization") || bool_decide (k = ascii_bytes "x-tpt-attestation").

(** [Attestation::from_bytes(&wire).ok()] *)
Definition attestation_of_wire (wire : list Z) : exec (option Attestation) :=
  r ← att_from_bytes wire;
  Ret (match r with Ok a => Some a | Err _ => None end).

Definition extract_attestation (req : Request) : exec (option Attestation) :=
  match List.find (fun kv => is_attestation_header kv.1) (headers req) with
  | None => Ret None
  | Some (_, value) =>
      let hex := default (trim value) (strip_prefix SCHEME (trim value)) in
      match hex_decode hex with
      | None => Ret None
      | Some wire => attestation_of_wire wire
      end
  end.

(** [application + errors] of a request: the status code to answer with *)
Definition authenticate_request `{ED : !Ed25519} (g : FleetAuthz) (req : Request)
    : exec (result Principal Z) :=
  a ← extract_attestation req;
  match a with
  | Some att =>
      r ← Authz.authenticate g att;
      Ret (match r with Ok p => Ok p | Err _ => Err 401 end)
  | None => Ret (Err 401)
  end.

Definition authorize_tool `{ED : !Ed25519} (g : FleetAuthz) (p : Principal) (tool : string) : bool :=
  Authz.authorize_dispatch g p tool.

(** The suites named, in order; a number is taken modulo 256 and an unknown one
    is skipped. *)
Definition suites_of (arr : list Json) : list CipherSuite :=
  omap (fun n => u ← Json.as_u64 n; suite_from_u8 (wrap 8 u)) arr.

Definition handshake_init_from_json (v : Json) : exec (option HandshakeInit) :=
  att ← match a ← Json.get v (ascii_bytes "attestation"); s ← Json.as_str a; hex_decode s with
        | Some w => attestation_of_wire w
        | None => Ret None
        end;
  match att with
  | None => Ret None
  | Some att =>
      let suites := match s ← Json.get v (ascii_bytes "suites"); Json.as_array s with
                    | Some arr => suites_of arr
                    | None => Suite.all
                    end in
      Ret (if bool_decide (suites = []) then None
           else Some {| hi_att := att; hi_suites := suites |})
  end.

Definition handshake_resp_to_json (resp : HandshakeResp) : exec Json :=
  w ← att_to_bytes (hr_att resp);
  Ret (Json.obj [(ascii_bytes "attestation", Json.str (hex_encode w));
                 (ascii_bytes "suite", Json.uint (suite_to_u8 (hr_suite resp)))]).

Definition attestation_header (a : Attestation) : exec (list Z) :=
  w ← att_to_bytes a;
  Ret (ascii_bytes "Authorization: TPT-Attestation " ++ hex_encode w).

(** ** Hexadecimal round trip *)

Lemma nibbles b : byte b ->
  0 <= Z.shiftr b 4 < 16 /\ 0 <= Z.land b 15 < 16 /\
  Z.lor (Z.shiftl (Z.shiftr b 4) 4) (Z.land b 15) = b.
Proof.
  intros [H0 H1]. rewrite Z.shiftr_div_pow2 by lia. change 15 with (Z.ones 4).
  rewrite Z.land_ones by lia. split_and!.
  - apply Z.div_pos; lia.
  - apply Z.div_lt_upper_bound; lia.
  - apply Z.mod_pos_bound. lia.
  - apply Z.mod_pos_bound. lia.
  - rewrite <- Z.land_ones by lia.
    apply Z.bits_inj'. intros n Hn. rewrite Z.lor_spec, Z.land_spec, Z.shiftl_spec by lia.
    destruct (Z.ltb_spec n 4).
    + rewrite Z.testbit_neg_r by lia. rewrite Z.ones_spec_low by lia. by rewrite andb_true_r.
    + rewrite Z.ones_spec_high by lia. rewrite andb_false_r, orb_false_r.
      rewrite <- Z.shiftr_div_pow2, Z.shiftr_spec by lia. f_equal. lia.
Qed.

Lemma hex_digit_ascii n : 0 <= n < 16 -> 0 <= hex_digit n < 128.
Proof. intros H. unfold hex_digit. destruct (Z.ltb_spec n 10); lia. Qed.

Lemma hex_encode_ascii bs : bytes bs -> ascii (hex_encode bs).
Proof.
  induction 1 as [|b bs Hb _ IH]; [constructor|]. destruct (nibbles b Hb) as (H1 & H2 & _).
  unfold hex_encode in *. simpl. repeat constructor; try apply hex_digit_ascii; done.
Qed.

Lemma hex_encode_length bs : length (hex_encode bs) = (2 * length bs)%nat.
Proof. induction bs as [|b bs IH]; [done|]. unfold hex_encode in *. simpl. rewrite IH. lia. Qed.

Lemma hex_decode_encode bs : bytes bs -> hex_decode (hex_encode bs) = Some bs.
Proof.
  intros H. unfold hex_decode. rewrite utf8_ascii by by apply hex_encode_ascii.
  rewrite hex_encode_length, Nat.even_mul. simpl.
  induction H as [|b bs Hb _ IH]; [done|]. destruct (nibbles b Hb) as (H1 & H2 & E).
  unfold hex_encode in *. cbn [map concat app hex_pairs].
  rewrite !hex_val_digit by done. cbn [mbind option_bind]. rewrite IH. simpl. by rewrite E.
Qed.

(** no byte of the text is white space *)
Lemma hex_digit_visible n : 0 <= n < 16 -> is_whitespace (hex_digit n) = false.
Proof.
  intros H. assert (n ∈ seqZ 0 16) as Hn by (apply elem_of_seqZ; lia).
  revert Hn. clear H. revert n. apply Forall_forall. by vm_compute; repeat constructor.
Qed.

Lemma trim_header bs : bytes bs -> bs <> [] ->
  trim (SCHEME ++ hex_encode bs) = SCHEME ++ hex_encode bs.
Proof.
  intros Hb Hne. destruct (exists_last Hne) as (front & b & ->).
  apply Forall_app in Hb as [_ Hb]. inversion_clear Hb as [|? ? Hb' _].
  destruct (nibbles b Hb') as (_ & H2 & _).
  assert (E : SCHEME ++ hex_encode (front ++ [b]) = 84 :: (drop 1 SCHEME ++ hex_encode front
    ++ [hex_digit (Z.shiftr b 4)]) ++ [hex_digit (Z.land b 15)]).
  { unfold hex_encode. rewrite map_app, concat_app. simpl. by rewrite <- !app_assoc. }
  rewrite E. apply trim_visible; [done | by apply hex_digit_visible].
Qed.

(** ** What authentication means *)

Section Meaning.
Context `{ED : !Ed25519}.

(** [att] proves an enrolled unit: its key is the one registered, its signature
    verifies, and [p] is the unit with its registered role. *)
Definition proves (g : FleetAuthz) (att : Attestation) (p : Principal) : Prop :=
  keys (trust (broker g)) !! unit_id att = Some (signing_pub att) /\
  att_verify att = Ret true /\
  device_id p = unit_id att /\ authenticated p = true /\
  proles p = {[ default Guest (roles (trust (broker g)) !! unit_id att) ]}.

Lemma authenticate_proves g att p : Authz.authenticate g att = Ret (Ok p) -> proves g att p.
Proof.
  unfold Authz.authenticate, authenticate, store_verify.
  destruct (keys (trust (broker g)) !! unit_id att) as [k|] eqn:Ek; [|done].
  destruct (bool_decide (k = signing_pub att)) eqn:Eb; [|done]. apply bool_decide_eq_true in Eb as ->.
  simpl. destruct (att_verify att) as [ok| | |] eqn:Ev; try done. simpl.
  destruct ok; [|done]. simpl. intros [= <-].
  split_and!; simpl; done.
Qed.

(** [req] carries an attestation that the gate accepts for [tool]. *)
Definition authorised (g : FleetAuthz) (req : Request) (tool : string) : Prop :=
  exists att p perm, extract_attestation req = Ret (Some att) /\ proves g att p /\
    dispatch_permission tool = Some perm /\
    Policy.role_has (policy (broker g)) (default Guest (roles (trust (broker g)) !! unit_id att)) perm = true.

Lemma authenticate_request_inv g req p : authenticate_request g req = Ret (Ok p) ->
  exists att, extract_attestation req = Ret (Some att) /\ Authz.authenticate g att = Ret (Ok p).
Proof.
  unfold authenticate_request. intros H. apply bind_ret_inv in H as ([att|] & E1 & H); [|done].
  apply bind_ret_inv in H as ([p'|] & E2 & H); simplify_eq. by exists att.
Qed.

Lemma authorised_intro g req p tool : authenticate_request g req = Ret (Ok p) ->
  authorize_tool g p tool = true -> authorised g req tool.
Proof.
  intros H1 H2. apply authenticate_request_inv in H1 as (att & E & Ha).
  apply authenticate_proves in Ha as Hp. destruct Hp as (Hk & Hv & Hd & Hau & Hr).
  unfold authorize_tool, Authz.authorize_dispatch, broker_authorize_dispatch, authorize_dispatch in H2.
  destruct (dispatch_permission tool) as [perm|] eqn:Ed; [|done].
  exists att, p, perm. split; [done|]. split; [by split_and!|]. split; [done|].
  unfold Policy.authorize in H2. rewrite Hau, Hr, elements_singleton in H2. simpl in H2.
  by rewrite orb_false_r in H2.
Qed.

End Meaning.

(** ** Theorems *)

Lemma att_from_wire_self a : att_wf a -> att_from_bytes (att_wire a) = Ret (Ok a).
Proof.
  intros [Hu Hp He Hs]. unfold att_wire. rewrite <- (app_nil_r (sig a)).
  rewrite att_from_wire by (rewrite ?length_le_bytes; done).
  rewrite (le_val_bytes_id 8), role_from_role_byte by done. by destruct a.
Qed.

(** An attestation survives the header it travels in.  What
    [attestation_header] prints is an [Authorization] line; from a request with
    that line's value, after headers that carry none, [extract_attestation]
    recovers the very attestation. *)
Theorem header_roundtrip (a : Attestation) (hs : list (list Z * list Z)) (req : Request) :
  att_wf a -> bytes (att_wire a) ->
  Forall (fun kv => is_attestation_header kv.1 = false) hs ->
  exists v, attestation_header a = Ret (ascii_bytes "Authorization: " ++ v) /\
    (firstn (S (length hs)) (headers req) = hs ++ [(ascii_bytes "authorization", v)] ->
     extract_attestation req = Ret (Some a)).
Proof.
  intros Ha Hb Hh. exists (SCHEME ++ hex_encode (att_wire a)). split.
  { unfold attestation_header. by rewrite att_to_bytes_spec. }
  intros Hr. unfold extract_attestation.
  assert (Ef : List.find (fun kv => is_attestation_header kv.1) (headers req) =
    Some (ascii_bytes "authorization", SCHEME ++ hex_encode (att_wire a))).
  { rewrite <- (firstn_skipn (S (length hs)) (headers req)), Hr, <- app_assoc.
    generalize (skipn (S (length hs)) (headers req)). intros rest.
    clear Hr. induction Hh as [|kv hs E _ IH]; [done|].
    cbn [app List.find]. rewrite E. exact IH. }
  rewrite Ef. cbv iota beta. rewrite trim_header; [|done|].
  - rewrite strip_prefix_app. cbn [from_option id]. rewrite hex_decode_encode by done.
    unfold attestation_of_wire. by rewrite att_from_wire_self.
  - intros E. apply (f_equal length) in E. by rewrite length_att_wire in E.
Qed.

Module DemoGate.
Definition request (m : Method) (p : string) (hs : list (list Z * list Z)) (b : list Z) : Request :=
  {| method := m; path := ascii_bytes p; query := []; headers := hs; body := b |}.
(** the headers of a caller presenting [a] *)
Definition presenting (a : Attestation) : list (list Z * list Z) :=
  [(ascii_bytes "host", ascii_bytes "fleet");
   (ascii_bytes "authorization", SCHEME ++ hex_encode (att_wire a))].
Definition gate : FleetAuthz := Authz.with_trust (store_of DemoIds.history).
End DemoGate.

Lemma header_roundtrip_witness : exists v,
  attestation_header DemoIds.att = Ret (ascii_bytes "Authorization: " ++ v) /\
  extract_attestation (DemoGate.request Get "/" (DemoGate.presenting DemoIds.att) []) = Ret (Some DemoIds.att).
Proof.
  destruct (header_roundtrip DemoIds.att [(ascii_bytes "host", ascii_bytes "fleet")]
    (DemoGate.request Get "/" (DemoGate.presenting DemoIds.att) []) DemoIds.att_ok)
    as (v & E & H).
  - apply Forall_forall. intros b Hb. unfold byte, uint.
    assert (F : Forall (fun z => (0 <=? z) && (z <? 256) = true) (att_wire DemoIds.att))
      by (vm_compute; repeat constructor).
    pose proof (proj1 (Forall_forall _ _) F b Hb) as G. cbv beta in G. zbool. lia.
  - repeat constructor.
  - exists v. split; [exact E|]. apply H. assert (v = SCHEME ++ hex_encode (att_wire DemoIds.att)) as -> by (vm_compute in E; by injection E).
    reflexivity.
Defined.
