(* ===== verification/Mcp.v ===== *)
(** * Fleet tools over JSON-RPC: [tpt-t-cloud/src/mcp.rs]

    One request object in, one response object out, the fleet changed in between.
    The server keeps no state of its own. *)

From stdpp Require Import gmap strings.
From S2P Require Import Prelude Text Float FloatText Ring Mode Mux Service Cipher Trust Json Sfu Recorder Fleet Http Gate.

(** [CARGO_PKG_VERSION] of the workspace manifest *)
Definition VERSION : list Z := ascii_bytes "0.1.0".

Module Mcp.
Section Mcp.
Context {W F T Q : Type} `{OS : !CloudOs W F} `{TR : !UnitTransport T W} `{BF : !BoundedFifo Q MediaFrame}.
Context `{ED : !Ed25519}.

Definition tool (name desc : string) (props : list (string * string)) : Json :=
  Json.obj
    [(ascii_bytes "name", Json.str (ascii_bytes name));
     (ascii_bytes "description", Json.str (ascii_bytes desc));
     (ascii_bytes "inputSchema", Json.obj
        [(ascii_bytes "type", Json.str (ascii_bytes "object"));
         (ascii_bytes "properties",
            Json.obj_str (map (fun '(k, v) => (ascii_bytes k, ascii_bytes v)) props));
         (ascii_bytes "required", Json.arr (map (fun '(k, _) => Json.str (ascii_bytes k)) props))])].

Definition json_rpc_ok (id result : Json) : Json :=
  Json.obj [(ascii_bytes "jsonrpc", Json.str (ascii_bytes "2.0")); (ascii_bytes "id", id);
            (ascii_bytes "result", result)].
Definition json_rpc_err (id : Json) (code : Z) (msg : list Z) : Json :=
  Json.obj [(ascii_bytes "jsonrpc", Json.str (ascii_bytes "2.0")); (ascii_bytes "id", id);
            (ascii_bytes "error", Json.obj [(ascii_bytes "code", Num (f64_of_Z code));
                                            (ascii_bytes "message", Str msg)])].

(** the units and their count, under the name given *)
Definition units_json (f : Fleet.Fleet F T) (h : Sfu.Heap Q) (name : string) : Json :=
  Json.obj [(ascii_bytes name, Json.arr (map Fleet.to_json (Fleet.list_units f h)));
            (ascii_bytes "count", Json.uint (Z.of_nat (length (Fleet.list_units f h))))].

(** the arm of the two mode tools; [name] is one of them *)
Definition mode_tool (name : list Z) (args : Json) (f : Fleet.Fleet F T) (w : W) (id : Json)
    : exec (Fleet.Fleet F T * W * Json) :=
  let engage := bool_decide (name = ascii_bytes "engage_autonomy") in
  let mode := if engage then "engage_autonomy"%string else "take_manual_control"%string in
  match v ← Json.get args (ascii_bytes "unit_id"); Json.as_u64 v with
  | Some u =>
      '(f, w, res) ← (if engage then Fleet.engage_autonomy f w u else Fleet.take_manual_control f w u);
      match res with
      | Ok _ => Ret (f, w, json_rpc_ok id (Json.obj
          [(ascii_bytes "unit_id", Json.uint u); (ascii_bytes "tool", Json.str (ascii_bytes mode));
           (ascii_bytes "ok", Bool true)]))
      | Err e => Ret (f, w, json_rpc_err id (-32000) (CloudError_fmt e))
      end
  | None => Ret (f, w, json_rpc_err id (-32602) (ascii_bytes "missing unit_id"))
  end.

Definition assign_tool (args : Json) (f : Fleet.Fleet F T) (id : Json) : Fleet.Fleet F T * Json :=
  let uid := v ← Json.get args (ascii_bytes "unit_id"); Json.as_u64 v in
  let op := v ← Json.get args (ascii_bytes "operator"); Json.as_str v in
  match uid, op with
  | Some u, Some o =>
      match Fleet.assign f u o with
      | (f, Ok _) => (f, json_rpc_ok id (Json.obj
          [(ascii_bytes "unit_id", Json.uint u); (ascii_bytes "assigned", Json.str (dec u))]))
      | (f, Err e) => (f, json_rpc_err id (-32000) (CloudError_fmt e))
      end
  | _, _ => (f, json_rpc_err id (-32602) (ascii_bytes "missing unit_id/operator"))
  end.

Definition call_tool (name : list Z) (args : Json) (f : Fleet.Fleet F T) (w : W) (h : Sfu.Heap Q)
    (id : Json) (auth : option (FleetAuthz * Principal)) : exec (Fleet.Fleet F T * W * Json) :=
  if match auth with
     | Some (gate, p) => negb (Authz.authorize_dispatch gate p (string_of name))
     | None => false
     end
  then Ret (f, w, json_rpc_err id (-32003) (ascii_bytes "insufficient attestation for this tool"))
  else if decide (name = ascii_bytes "list_units") then
    Ret (f, w, json_rpc_ok id (units_json f h "units"))
  else if decide (name = ascii_bytes "assign_unit") then
    let '(f, r) := assign_tool args f id in Ret (f, w, r)
  else if decide (name ∈ [ascii_bytes "engage_autonomy"; ascii_bytes "take_manual_control"]) then
    mode_tool name args f w id
  else Ret (f, w, json_rpc_err id (-32601) (ascii_bytes "unknown tool: " ++ name)).

Definition server_info : Json :=
  Json.obj
    [(ascii_bytes "protocolVersion", Json.str (ascii_bytes "2024-11-05"));
     (ascii_bytes "capabilities", Json.obj [(ascii_bytes "tools", Json.obj [])]);
     (ascii_bytes "serverInfo", Json.obj
        [(ascii_bytes "name", Json.str (ascii_bytes "tpt-teleop-fleet"));
         (ascii_bytes "version", Json.str VERSION)])].

Definition tool_list : Json :=
  Json.obj
    [(ascii_bytes "tools", Json.arr
       [tool "list_units" "List every unit registered with the fleet, with mode and status." [];
        tool "assign_unit" "Assign a human or AI operator to a unit."
          [("unit_id"%string, "integer"%string); ("operator"%string, "string"%string)];
        tool "engage_autonomy"
          "Command a unit into AUTO mode (autonomy drives; operator supervises)."
          [("unit_id"%string, "integer"%string)];
        tool "take_manual_control"
          "Command a unit into FULL-TELEOP mode (operator drives directly)."
          [("unit_id"%string, "integer"%string)]])].

Definition handle (req : Json) (f : Fleet.Fleet F T) (w : W) (h : Sfu.Heap Q)
    (auth : option (FleetAuthz * Principal)) : exec (Fleet.Fleet F T * W * Json) :=
  let method := default [] (m ← Json.get req (ascii_bytes "method"); Json.as_str m) in
  let id := default Null (Json.get req (ascii_bytes "id")) in
  let params := default Null (Json.get req (ascii_bytes "params")) in
  if decide (method = ascii_bytes "initialize") then Ret (f, w, json_rpc_ok id server_info)
  else if decide (method = ascii_bytes "tools/list") then Ret (f, w, json_rpc_ok id tool_list)
  else if decide (method = ascii_bytes "tools/call") then
    let name := default [] (n ← Json.get params (ascii_bytes "name"); Json.as_str n) in
    let args := default Null (Json.get params (ascii_bytes "arguments")) in
    call_tool name args f w h id auth
  else Ret (f, w, json_rpc_err id (-32601) (ascii_bytes "method not found: " ++ method)).

(** *** Lemmas *)

(** [r] answers with an error object, not a result *)
Definition refused (r : Json) : Prop :=
  is_Some (Json.get r (ascii_bytes "error")) /\ Json.get r (ascii_bytes "result") = None.

(** A call changes the fleet only after its tool's own permission was granted. *)
Lemma call_tool_gated name args f w h id g p f' w' r :
  call_tool name args f w h id (Some (g, p)) = Ret (f', w', r) ->
  (f' = f /\ w' = w) \/
  exists tool : string, name = ascii_bytes tool /\ Authz.authorize_dispatch g p tool = true /\
    tool ∈ ["assign_unit"; "engage_autonomy"; "take_manual_control"]%string.
Proof.
  unfold call_tool. destruct (Authz.authorize_dispatch g p (string_of name)) eqn:Ea; cbn [negb].
  2: { intros [= <- <- <-]. by left. }
  case_decide as E1; [intros [= <- <- <-]; by left|].
  case_decide as E2.
  { intros _. right. exists "assign_unit"%string. rewrite E2 in Ea |- *.
    split; [done|]. split; [exact Ea | set_solver]. }
  case_decide as E3; [|intros [= <- <- <-]; by left].
  intros _. right. apply list_elem_of_In in E3 as [<- | [<- | []]].
  - exists "engage_autonomy"%string. split; [done|]. split; [exact Ea | set_solver].
  - exists "take_manual_control"%string. split; [done|]. split; [exact Ea | set_solver].
Qed.

Lemma handle_gated req f w h g p f' w' r :
  handle req f w h (Some (g, p)) = Ret (f', w', r) ->
  (f' = f /\ w' = w) \/
  exists tool : string, Authz.authorize_dispatch g p tool = true /\
    tool ∈ ["assign_unit"; "engage_autonomy"; "take_manual_control"]%string.
Proof.
  unfold handle. repeat (case_decide; [intros [= <- <- <-]; by left|]).
  case_decide; [|intros [= <- <- <-]; by left].
  intros H'. apply call_tool_gated in H' as [?|(tool & _ & ? & ?)]; [by left | right; by exists tool].
Qed.

End Mcp.
End Mcp.
