(* ===== verification/Dashboard.v ===== *)
(** * The dashboard page: [tpt-t-cloud/src/server.rs], [dashboard_html]

    The static page served at [GET /].  Its text is kept with a tilde for every
    double quote, which it has none of itself. *)

From stdpp Require Import strings.
From S2P Require Import Prelude Text.

Definition unquote (s : list Z) : list Z := map (fun c => if c =? 126 then 34 else c) s.

(** the characters of the UTF-8 literal *)
Definition dashboard_html : list Z :=
  default [] (from_utf8 (unquote (ascii_bytes "<!doctype html>
<html lang=~en~>
<head>
<meta charset=~utf-8~>
<meta name=~viewport~ content=~width=device-width, initial-scale=1~>
<title>tpt-teleop fleet</title>
<style>
  :root { color-scheme: dark; }
  body { font-family: ui-monospace, SFMono-Regular, Menlo, monospace; background:#0b0e13; color:#c9d1d9; margin:0; padding:1.2rem; }
  h1 { font-size:1.1rem; margin:0 0 .4rem; }
  #status { color:#8b949e; margin-bottom:1rem; }
  table { border-collapse:collapse; width:100%; font-size:.85rem; }
  th, td { text-align:left; padding:.35rem .6rem; border-bottom:1px solid #21262d; }
  th { color:#8b949e; font-weight:600; }
  button { background:#238636; color:#fff; border:0; border-radius:4px; padding:.3rem .6rem; cursor:pointer; margin-right:.3rem; font:inherit; }
  button.manual { background:#1f6feb; }
  input { background:#0d1117; color:#c9d1d9; border:1px solid #30363d; border-radius:4px; padding:.3rem .5rem; font:inherit; width:42ch; }
  .err { color:#f85149; }
  .ok { color:#3fb950; }
</style>
</head>
<body>
  <h1>tpt-teleop &mdash; fleet dashboard</h1>
  <div id=~status~>connecting&hellip;</div>
  <p><label>Attestation (hex, for gated servers): <input id=~att~ placeholder=~paste TPT-Attestation hex~></label></p>
  <table>
    <thead><tr><th>id</th><th>mode</th><th>operator</th><th>subs</th><th>seq</th><th>recorded</th><th>actions</th></tr></thead>
    <tbody id=~rows~><tr><td colspan=~7~>loading&hellip;</td></tr></tbody>
  </table>
<script>
const att = () => document.getElementById('att').value.trim();
function headers() {
  const h = { 'Content-Type': 'application/json' };
  const a = att();
  if (a) h['TPT-Attestation'] = a;
  return h;
}
async function refresh() {
  try {
    const health = await fetch('/api/health').then(r => r.json());
    document.getElementById('status').textContent =
      'status: ' + health.status + ' · units: ' + health.units + ' · version: ' + health.version;
    const list = await fetch('/api/units').then(r => r.json());
    const units = list.units || [];
    const tb = document.getElementById('rows');
    tb.innerHTML = '';
    for (const u of units) {
      const tr = document.createElement('tr');
      tr.innerHTML = '<td>' + u.id + '</td><td>' + u.mode + '</td><td>' + (u.assigned_operator || '-') +
        '</td><td>' + u.subscribers + '</td><td>' + u.last_seq + '</td><td>' + u.frames_recorded + '</td>';
      const td = document.createElement('td');
      const auto = document.createElement('button');
      auto.textContent = 'engage autonomy';
      auto.onclick = () => act(u.id, 'engage_autonomy');
      const man = document.createElement('button');
      man.className = 'manual';
      man.textContent = 'take manual';
      man.onclick = () => act(u.id, 'take_manual_control');
      td.appendChild(auto); td.appendChild(man);
      tr.appendChild(td);
      tb.appendChild(tr);
    }
  } catch (e) {
    document.getElementById('status').innerHTML = '<span class=~err~>error: ' + e + '</span>';
  }
}
async function act(id, action) {
  const res = await fetch('/api/units/' + id + '/' + action, { method: 'POST', headers: headers() });
  const msg = res.ok ? '<span class=~ok~>' + action + ' ok</span>' : '<span class=~err~>' + res.status + '</span>';
  document.getElementById('status').innerHTML = 'last action: ' + msg;
  refresh();
}
refresh();
setInterval(refresh, 2000);
</script>
</body>
</html>"))).

(** The page is well-formed text: nothing is lost in decoding it. *)
Lemma dashboard_decodes : is_Some (find_at (ascii_bytes "<!doctype html>") dashboard_html) /\
  is_Some (find_at (ascii_bytes "</html>") dashboard_html).
Proof. vm_compute. eauto. Qed.

(** The only header with the attestation that the page's script sets is
    [TPT-Attestation]; the text names neither header the server reads. *)
Lemma dashboard_headers :
  is_Some (find_at (ascii_bytes "h['TPT-Attestation'] = a;") dashboard_html) /\
  find_at (ascii_bytes "authorization") (to_ascii_lowercase dashboard_html) = None /\
  find_at (ascii_bytes "x-tpt-attestation") (to_ascii_lowercase dashboard_html) = None.
Proof. vm_compute. eauto. Qed.
