(* ===== verification/Server.v ===== *)
(** * The fleet's HTTP API: [tpt-t-cloud/src/server.rs], request handling

    Routes, the zero-trust gate in front of the privileged ones, and the secure
    handshake endpoint.  The connections around it are in [ServerLoop]. *)

From stdpp Require Import gmap strings.
From S2P Require Import Prelude Text Float FloatText Ring Mode Reliable Mux Service Cipher Trust Json Sfu Recorder Fleet Http Gate Mcp Dashboard.

Record ServerLimits := { max_conns : Z; idle_timeout : Z }.
(** durations in nanoseconds *)
Definition default_limits : ServerLimits := {| max_conns := 1024; idle_timeout := 30 * 10 ^ 9 |}.

(** The part of a path between slashes, empty ones left out. *)
Definition segments (path : list Z) : list (list Z) := filter (fun s => s <> []) (split [47] path).

Definition parse_unit_id (path : list Z) : option Z :=
  match segments path with
  | a :: u :: i :: _ =>
      if bool_decide (a = ascii_bytes "api") && bool_decide (u = ascii_bytes "units")
      then parse_uint 64 i else None
  | _ => None
  end.
Definition unit_action (path : list Z) : option (list Z) :=
  match segments path with
  | a :: u :: _ :: act :: _ =>
      if bool_decide (a = ascii_bytes "api") && bool_decide (u = ascii_bytes "units")
      then Some act else None
  | _ => None
  end.

Module Server.
Section Server.
Context {W F T Q : Type} `{OS : !CloudOs W F} `{TR : !UnitTransport T W} `{BF : !BoundedFifo Q MediaFrame}.
Context `{ED : !Ed25519} `{XD : !X25519} `{HK : !HkdfSha256}.
Context {Aes Cha : Type} `{AA : !AeadInPlace Aes} `{AC : !AeadInPlace Cha}.
Context {E : Type} `{GR : !Getrandom E}.

(** One accepted connection; [St] is the socket. *)
Record Conn {St : Type} := {
  stream : St; read_buf : list Z; registered : bool; last_active : Z
}.
Arguments Conn : clear implicits.

Context {St : Type}.

Record FleetServer := {
  listener : bool;
  next_token : Z;
  conns : gmap Z (Conn St);
  fleet : Fleet.Fleet F T;
  authz : option FleetAuthz;
  identity : option DeviceIdentity;
  sessions : gmap Z (SecureSession Aes Cha);
  limits : ServerLimits
}.

Definition new (t : T) : FleetServer :=
  {| listener := false; next_token := 1; conns := ∅; fleet := Fleet.new t; authz := None;
     identity := None; sessions := ∅; limits := default_limits |}.
Definition with_security (s : FleetServer) (g : FleetAuthz) (i : DeviceIdentity) : FleetServer :=
  {| listener := listener s; next_token := next_token s; conns := conns s; fleet := fleet s;
     authz := Some g; identity := Some i; sessions := sessions s; limits := limits s |}.
Definition with_limits (s : FleetServer) (l : ServerLimits) : FleetServer :=
  {| listener := listener s; next_token := next_token s; conns := conns s; fleet := fleet s;
     authz := authz s; identity := identity s; sessions := sessions s; limits := l |}.
Definition session (s : FleetServer) (id : Z) : option (SecureSession Aes Cha) := sessions s !! id.

(** field updates *)
Definition set_fleet (s : FleetServer) (f : Fleet.Fleet F T) : FleetServer :=
  {| listener := listener s; next_token := next_token s; conns := conns s; fleet := f;
     authz := authz s; identity := identity s; sessions := sessions s; limits := limits s |}.
Definition set_conns (s : FleetServer) (c : gmap Z (Conn St)) (tok : Z) : FleetServer :=
  {| listener := listener s; next_token := tok; conns := c; fleet := fleet s;
     authz := authz s; identity := identity s; sessions := sessions s; limits := limits s |}.
Definition set_session (s : FleetServer) (id : Z) (x : SecureSession Aes Cha) : FleetServer :=
  {| listener := listener s; next_token := next_token s; conns := conns s; fleet := fleet s;
     authz := authz s; identity := identity s; sessions := <[id := x]> (sessions s); limits := limits s |}.

Definition register_unit (s : FleetServer) (w : W) (id : Z) (a : SocketAddr) (r : Recorder F)
    : FleetServer * W * result unit CloudError :=
  let '(f, w, res) := Fleet.register_unit (fleet s) w id a r in (set_fleet s f, w, res).

Abbreviation served := (exec (FleetServer * W * E * Response)).

Definition require_auth (s : FleetServer) (req : Request) (tool : string) : exec (result unit Response) :=
  match authz s with
  | Some g =>
      p ← authenticate_request g req;
      Ret (match p with
           | Err code => Err (Response.error code (ascii_bytes "authentication failed"))
           | Ok p =>
               if authorize_tool g p tool then Ok tt
               else Err (Response.error 403 (ascii_bytes "insufficient attestation for this action"))
           end)
  | None => Ret (Ok tt)
  end.

Definition handle_secure_handshake (s : FleetServer) (w : W) (e : E) (id : Z) (req : Request) : served :=
  match identity s with
  | None => Ret (s, w, e, Response.error 501 (ascii_bytes "secure handshake not configured"))
  | Some i =>
      parsed ← Json.parse (body req);
      let b := match parsed with Ok v => v | Err _ => Null end in
      init ← handshake_init_from_json b;
      match init with
      | None => Ret (s, w, e, Response.error 400 (ascii_bytes "missing attestation or suites"))
      | Some init =>
          '(e, r) ← respond_handshake i init Suite.all e;
          match r with
          | Ok (resp, x) =>
              j ← handshake_resp_to_json resp;
              Ret (set_session s id x, w, e, Response.json 200 j)
          | Err err => Ret (s, w, e, Response.error 403
                         (ascii_bytes "handshake rejected: " ++ SecError_fmt err))
          end
      end
  end.

Definition mode_action (s : FleetServer) (w : W) (e : E) (id : Z) (which : string) : served :=
  '(f, w, res) ← (if bool_decide (which = "engage"%string) then Fleet.engage_autonomy (fleet s) w id
                  else Fleet.take_manual_control (fleet s) w id);
  Ret (set_fleet s f, w, e,
       match res with
       | Ok _ => Response.json 200 (Json.obj [(ascii_bytes "unit_id", Json.uint id);
                                              (ascii_bytes "ok", Bool true)])
       | Err err => Response.error 409 (CloudError_fmt err)
       end).

(** [Json::parse(&req.body).unwrap_or(Json::Null)] *)
Definition body_json (req : Request) : exec Json :=
  r ← Json.parse (body req); Ret (match r with Ok v => v | Err _ => Null end).

Definition assign_action (s : FleetServer) (w : W) (e : E) (id : Z) (req : Request) : served :=
  b ← body_json req;
  match v ← Json.get b (ascii_bytes "operator"); Json.as_str v with
  | Some o =>
      let '(f, res) := Fleet.assign (fleet s) id o in
      Ret (set_fleet s f, w, e,
           match res with
           | Ok _ => Response.json 200 (Json.obj [(ascii_bytes "unit_id", Json.uint id);
                                                  (ascii_bytes "assigned", Bool true)])
           | Err err => Response.error 409 (CloudError_fmt err)
           end)
  | None => Ret (s, w, e, Response.error 400 (ascii_bytes "missing operator"))
  end.

Definition command_action (s : FleetServer) (w : W) (e : E) (id : Z) (req : Request) : served :=
  b ← body_json req;
  match v ← Json.get b (ascii_bytes "mode"); m ← Json.as_str v; Fleet.parse_mode m with
  | Some mode =>
      '(f, w, res) ← Fleet.set_mode (fleet s) w id mode;
      Ret (set_fleet s f, w, e,
           match res with
           | Ok _ => Response.json 200 (Json.obj [(ascii_bytes "unit_id", Json.uint id);
                                                  (ascii_bytes "mode", Json.str (mode_name mode))])
           | Err err => Response.error 409 (CloudError_fmt err)
           end)
  | None => Ret (s, w, e, Response.error 400 (ascii_bytes "missing/invalid mode"))
  end.

(** [if let Err(r) = self.require_auth(req, tool) { return r; }] *)
Definition gated (s : FleetServer) (w : W) (e : E) (req : Request) (tool : string) (k : served) : served :=
  a ← require_auth s req tool;
  match a with Err r => Ret (s, w, e, r) | Ok _ => k end.

Definition not_allowed : Response := Response.error 405 (ascii_bytes "method not allowed").

(** the match on method and action, for the unit [id] *)
Definition unit_response (s : FleetServer) (w : W) (e : E) (h : Sfu.Heap Q) (id : Z) (req : Request) : served :=
  match method req, unit_action (path req) with
  | Get, None =>
      Ret (s, w, e, match Fleet.get (fleet s) id with
                    | Some u => Response.json 200 (Fleet.to_json (Fleet.info u h))
                    | None => Response.error 404 (ascii_bytes "unit not found")
                    end)
  | Get, Some a =>
      if decide (a = ascii_bytes "subscribers") then
        Ret (s, w, e, match Fleet.subscriber_count (fleet s) h id with
                      | Ok c => Response.json 200 (Json.obj [(ascii_bytes "unit_id", Json.uint id);
                                                             (ascii_bytes "subscribers", Json.uint c)])
                      | Err err => Response.error 404 (CloudError_fmt err)
                      end)
      else Ret (s, w, e, not_allowed)
  | Post, Some a =>
      if decide (a = ascii_bytes "assign") then
        gated s w e req "assign_unit" (assign_action s w e id req)
      else if decide (a = ascii_bytes "engage_autonomy") then
        gated s w e req "engage_autonomy" (mode_action s w e id "engage")
      else if decide (a = ascii_bytes "take_manual_control") then
        gated s w e req "take_manual_control" (mode_action s w e id "take")
      else if decide (a = ascii_bytes "command") then
        gated s w e req "send_control" (command_action s w e id req)
      else Ret (s, w, e, not_allowed)
  | _, _ => Ret (s, w, e, not_allowed)
  end.

Definition api_response (s : FleetServer) (w : W) (e : E) (h : Sfu.Heap Q) (req : Request) : served :=
  if decide (path req = ascii_bytes "/api/health") then
    Ret (s, w, e, Response.json 200 (Json.obj
      [(ascii_bytes "status", Json.str (ascii_bytes "ok")); (ascii_bytes "version", Json.str VERSION);
       (ascii_bytes "units", Json.uint (Z.of_nat (length (Fleet.list_units (fleet s) h))))]))
  else
    match parse_unit_id (path req) with
    | None =>
        Ret (s, w, e,
          if bool_decide (method req = Get) && bool_decide (path req = ascii_bytes "/api/units")
          then Response.json 200 (Mcp.units_json (fleet s) h "units")
          else if bool_decide (method req = Get) && bool_decide (path req = ascii_bytes "/api/sessions")
          then Response.json 200 (Mcp.units_json (fleet s) h "sessions")
          else Response.error 404 (ascii_bytes "not found"))
    | Some id =>
        if ends_with (path req) (ascii_bytes "/secure/handshake") && bool_decide (method req = Post)
        then handle_secure_handshake s w e id req
        else unit_response s w e h id req
    end.

Definition mcp_response (s : FleetServer) (w : W) (e : E) (h : Sfu.Heap Q) (req : Request) : served :=
  parsed ← Json.parse (body req);
  match parsed with
  | Err err => Ret (s, w, e, Response.error 400 (ascii_bytes "invalid JSON-RPC body: " ++ err))
  | Ok v =>
      auth ← match authz s with
             | None => Ret (Ok None)
             | Some g =>
                 p ← authenticate_request g req;
                 Ret (match p with
                      | Ok p => Ok (Some (g, p))
                      | Err code =>
                          Err (if code =? 401
                               then Response.error 401 (ascii_bytes "missing or invalid attestation")
                               else Response.error code (ascii_bytes "authentication failed"))
                      end)
             end;
      match auth with
      | Err r => Ret (s, w, e, r)
      | Ok auth =>
          '(f, w, result) ← Mcp.handle v (fleet s) w h auth;
          Ret (set_fleet s f, w, e, Response.json 200 result)
      end
  end.

Definition dispatch (s : FleetServer) (w : W) (e : E) (h : Sfu.Heap Q) (req : Request) : served :=
  if bool_decide (method req = Get) && bool_decide (path req = [47]) then
    Ret (s, w, e, Response.html 200 dashboard_html)
  else if bool_decide (method req = Post) && bool_decide (path req = ascii_bytes "/mcp") then
    mcp_response s w e h req
  else api_response s w e h req.

(** [handle_request]: the fields regrouped around [dispatch] *)
Definition handle_request (s : FleetServer) (w : W) (e : E) (h : Sfu.Heap Q) (req : Request) : served :=
  dispatch s w e h req.

(** *** What a request leaves alone *)

Ltac ret_inv H :=
  repeat match type of H with
  | _ ≫= _ = Ret _ => let x := fresh "x" in let Hx := fresh "Hx" in apply bind_ret_inv in H as (x & Hx & H)
  | Ret _ = Ret _ => injection H as; subst
  | (if ?b then _ else _) = _ => destruct b
  | match ?x with _ => _ end = _ => destruct x eqn:?
  end; try discriminate.

(** everything but the fleet and the sessions *)
Definition same_frame (s s' : FleetServer) : Prop :=
  listener s' = listener s /\ next_token s' = next_token s /\ conns s' = conns s /\
  authz s' = authz s /\ identity s' = identity s /\ limits s' = limits s.

Lemma same_frame_refl s : same_frame s s.
Proof. by split_and!. Qed.
Lemma same_frame_fleet s f : same_frame s (set_fleet s f).
Proof. by split_and!. Qed.
Lemma same_frame_session s id x : same_frame s (set_session s id x).
Proof. by split_and!. Qed.
#[local] Hint Resolve same_frame_refl same_frame_fleet same_frame_session : core.

(** a handler that returns kept the frame *)
Definition keeps (s : FleetServer) (m : served) : Prop :=
  forall s' w' e' r, m = Ret (s', w', e', r) -> same_frame s s'.

Lemma keeps_ret s s1 w e r : same_frame s s1 -> keeps s (Ret (s1, w, e, r)).
Proof. intros H s' w' e' r' [= <- <- <- <-]. done. Qed.
Lemma keeps_bind {A} s (m : exec A) (k : A -> served) :
  (forall a, m = Ret a -> keeps s (k a)) -> keeps s (m ≫= k).
Proof. intros H s' w' e' r E0. apply bind_ret_inv in E0 as (a & Ea & E0). by eapply H. Qed.

Ltac keeps_tac :=
  repeat first
    [ apply keeps_ret; auto
    | apply keeps_bind; intros ? ?
    | match goal with |- keeps _ (match ?x with _ => _ end) => destruct x end
    | progress cbn beta iota ].

Lemma handshake_keeps s w e id req : keeps s (handle_secure_handshake s w e id req).
Proof. unfold handle_secure_handshake. keeps_tac. Qed.
Lemma mode_keeps s w e id which : keeps s (mode_action s w e id which).
Proof. unfold mode_action. keeps_tac. Qed.
Lemma assign_keeps s w e id req : keeps s (assign_action s w e id req).
Proof. unfold assign_action. keeps_tac. Qed.
Lemma command_keeps s w e id req : keeps s (command_action s w e id req).
Proof. unfold command_action. keeps_tac. Qed.
Lemma gated_keeps s w e req tool k : keeps s k -> keeps s (gated s w e req tool k).
Proof. intros H. unfold gated. keeps_tac. done. Qed.
#[local] Hint Resolve handshake_keeps mode_keeps assign_keeps command_keeps gated_keeps : core.

Lemma unit_keeps s w e h id req : keeps s (unit_response s w e h id req).
Proof.
  unfold unit_response. destruct (method req), (unit_action (path req)); try (apply keeps_ret; auto).
  - case_decide; apply keeps_ret; auto.
  - repeat case_decide; auto. apply keeps_ret; auto.
Qed.

Lemma api_keeps s w e h req : keeps s (api_response s w e h req).
Proof.
  unfold api_response. case_decide; [apply keeps_ret; auto|].
  destruct (parse_unit_id (path req)); [|apply keeps_ret; auto].
  case_match; [auto | apply unit_keeps].
Qed.

Lemma mcp_keeps s w e h req : keeps s (mcp_response s w e h req).
Proof. unfold mcp_response. keeps_tac. Qed.

Lemma dispatch_keeps s w e h req : keeps s (dispatch s w e h req).
Proof.
  unfold dispatch. case_match; [apply keeps_ret; auto|].
  case_match; [apply mcp_keeps | apply api_keeps].
Qed.

(** *** What the gate lets through *)

Definition CONTROL_TOOLS : list string :=
  ["assign_unit"; "engage_autonomy"; "take_manual_control"; "send_control"]%string.

(** a handler that returns left fleet and machine alone, or was authorised *)
Definition guarded (g : FleetAuthz) (req : Request) (s : FleetServer) (w : W) (m : served) : Prop :=
  forall s' w' e' r, m = Ret (s', w', e', r) ->
    (fleet s' = fleet s /\ w' = w) \/ exists tool, tool ∈ CONTROL_TOOLS /\ authorised g req tool.

Lemma guarded_ret g req s w e r : guarded g req s w (Ret (s, w, e, r)).
Proof. intros s' w' e' r' [= <- <- <- <-]. by left. Qed.
#[local] Hint Resolve guarded_ret : core.

Lemma guarded_gated g req s w e tool k : authz s = Some g -> tool ∈ CONTROL_TOOLS ->
  guarded g req s w (gated s w e req tool k).
Proof.
  intros Hg Ht s' w' e' r. unfold gated, require_auth. rewrite Hg. intros H.
  apply bind_ret_inv in H as (a & Ea & H). apply bind_ret_inv in Ea as (p & Ep & Ea).
  destruct p as [p|code]; [|simplify_eq; by left].
  destruct (authorize_tool g p tool) eqn:Et; simplify_eq; [|by left].
  right. exists tool. split; [done|]. by eapply authorised_intro.
Qed.

Lemma guarded_handshake g req s w e id : guarded g req s w (handle_secure_handshake s w e id req).
Proof.
  intros s' w' e' r. unfold handle_secure_handshake. intros H.
  destruct (identity s) as [i|]; [|simplify_eq; by left].
  apply bind_ret_inv in H as (p & _ & H). apply bind_ret_inv in H as ([init|] & _ & H); [|simplify_eq; by left].
  apply bind_ret_inv in H as ([e1 res] & _ & H). destruct res as [[resp x]|err]; [|simplify_eq; by left].
  apply bind_ret_inv in H as (j & _ & H). simplify_eq. by left.
Qed.

Lemma guarded_mcp g req s w e h : authz s = Some g -> guarded g req s w (mcp_response s w e h req).
Proof.
  intros Hg s' w' e' r. unfold mcp_response. rewrite Hg. intros H.
  apply bind_ret_inv in H as ([v|err] & _ & H); [|simplify_eq; by left].
  apply bind_ret_inv in H as (a & Ea & H). apply bind_ret_inv in Ea as (p & Ep & Ea).
  destruct p as [p|code]; simplify_eq; [|by left].
  apply bind_ret_inv in H as ([[f w1] result] & Eh & H). simplify_eq.
  apply Mcp.handle_gated in Eh as [[-> ->]|(tool & Ht & Hin)]; [by left|].
  right. exists tool. split; [|by eapply authorised_intro]. unfold CONTROL_TOOLS. set_solver.
Qed.

Lemma guarded_dispatch g req s w e h : authz s = Some g -> guarded g req s w (dispatch s w e h req).
Proof.
  intros Hg. unfold dispatch. case_match; [auto|]. case_match; [by apply guarded_mcp|].
  unfold api_response. destruct (decide (path req = ascii_bytes "/api/health")); [auto|].
  destruct (parse_unit_id (path req)); [|auto]. case_match; [apply guarded_handshake|].
  repeat match goal with H : _ = false |- _ => clear H end. unfold unit_response. destruct (method req), (unit_action (path req)); auto.
  - case_decide; auto.
  - repeat case_decide; auto; apply guarded_gated; (done || unfold CONTROL_TOOLS; set_solver).
Qed.

End Server.
Arguments Conn : clear implicits.
Arguments FleetServer {F T ED Aes Cha} St : rename.
End Server.

(** ** Paths *)

Lemma dec_no_slash n : 0 <= n -> 47 ∉ dec n.
Proof.
  intros Hn Hin. apply dec_spec in Hn as [Hd _].
  apply (proj1 (Forall_forall _ _) Hd) in Hin. done.
Qed.

(** the path of an action on a unit *)
Definition unit_path (id : Z) (rest : list Z) : list Z := ascii_bytes "/api/units/" ++ dec id ++ 47 :: rest.

Lemma unit_path_segments id rest : 0 <= id ->
  segments (unit_path id rest) =
    ascii_bytes "api" :: ascii_bytes "units" :: dec id :: segments rest.
Proof.
  intros Hn. unfold segments, unit_path.
  change (ascii_bytes "/api/units/" ++ dec id ++ 47 :: rest) with
    ([] ++ 47 :: (ascii_bytes "api" ++ 47 :: (ascii_bytes "units" ++ 47 :: (dec id ++ 47 :: rest)))).
  rewrite split_cons by by apply no_char. rewrite split_cons by by apply no_char. rewrite split_cons by by apply no_char.
  rewrite split_cons by by apply dec_no_slash.
  rewrite !filter_cons. rewrite decide_False by (intros X; by apply X).
  rewrite !decide_True; try done. by apply dec_spec.
Qed.

Lemma unit_path_id id rest : uint 64 id -> parse_unit_id (unit_path id rest) = Some id.
Proof.
  intros Hid. unfold parse_unit_id. rewrite unit_path_segments by apply Hid.
  cbn [andb]. rewrite !bool_decide_true by done. by apply parse_uint_dec.
Qed.

Lemma unit_path_action id act : uint 64 id -> 47 ∉ act -> act <> [] ->
  unit_action (unit_path id act) = Some act.
Proof.
  intros Hid Ha Hne. unfold unit_action. rewrite unit_path_segments by apply Hid.
  unfold segments. rewrite split_one by done. rewrite filter_cons, decide_True by done. done.
Qed.

Lemma ends_with_last (p q : list Z) : ends_with p q = true -> q <> [] -> last p = last q.
Proof.
  intros H Hq. unfold ends_with in H. apply bool_decide_eq_true in H.
  rewrite <- (take_drop (length p - length q) p), H, last_app.
  destruct (last q) eqn:El; [done|]. by apply last_None in El.
Qed.

(** a POST to an action of a unit *)
Definition post (id : Z) (act : string) (hs : list (list Z * list Z)) (b : list Z) : Request :=
  {| method := Post; path := unit_path id (ascii_bytes act); query := []; headers := hs; body := b |}.

(** [{"mode":"teleop"}] *)
Definition teleop_body : list Z :=
  utf8 (Json.write (Json.obj [(ascii_bytes "mode", Json.str (ascii_bytes "teleop"))])).

Section Theorems.
Context {W F T Q : Type} `{OS : !CloudOs W F} `{TR : !UnitTransport T W} `{BF : !BoundedFifo Q MediaFrame}.
Context `{ED : !Ed25519} `{XD : !X25519} `{HK : !HkdfSha256}.
Context {Aes Cha : Type} `{AA : !AeadInPlace Aes} `{AC : !AeadInPlace Cha}.
Context {E : Type} `{GR : !Getrandom E}.
Context {St : Type}.
Abbreviation server := (Server.FleetServer (F := F) (T := T) (Aes := Aes) (Cha := Cha) St).
Implicit Types (s : server) (w : W) (e : E) (h : Sfu.Heap Q) (req : Request).

Definition control_actions : list string := ["assign"; "engage_autonomy"; "take_manual_control"; "command"]%string.

(** a control action is routed to the unit's handlers *)
Lemma post_dispatch s w e h id act hs b : uint 64 id -> act ∈ control_actions ->
  Server.handle_request s w e h (post id act hs b) =
  Server.unit_response s w e h id (post id act hs b) /\
  unit_action (path (post id act hs b)) = Some (ascii_bytes act).
Proof.
  intros Hid Ha.
  assert (47 ∉ ascii_bytes act /\ ascii_bytes act <> [] /\
    forall x, ends_with (x ++ ascii_bytes act) (ascii_bytes "/secure/handshake") = false) as (Hs & Hne & He).
  { unfold control_actions in Ha. apply list_elem_of_In in Ha.
    repeat destruct Ha as [<-|Ha]; try done; (split; [by apply no_char|]); (split; [done|]); intros x;
      apply not_true_iff_false; intros Ee; apply ends_with_last in Ee; [|done| |done| |done| |done];
      rewrite last_app in Ee; discriminate. }
  split; [|by apply unit_path_action].
  unfold Server.handle_request, Server.dispatch, Server.api_response. cbn [method path post].
  rewrite !bool_decide_false by done. cbn [andb].
  rewrite decide_False by done. rewrite unit_path_id by done.
  unfold unit_path. replace (ascii_bytes "/api/units/" ++ dec id ++ 47 :: ascii_bytes act) with
    ((ascii_bytes "/api/units/" ++ dec id ++ [47]) ++ ascii_bytes act) by (by rewrite <- !app_assoc).
  rewrite He. cbn [andb]. by rewrite <- !app_assoc.
Qed.

(** C14: The gate guards the fleet.  With a gate installed, a request that is
    answered leaves every unit, the transport and the machine as they were and
    keeps the gate installed, unless it carries an attestation of an enrolled
    unit: key registered, signature valid, and the registered role granted the
    permission of one of the control tools. *)
Theorem gate_guards_fleet s w e h req g s' w' e' r :
  Server.authz s = Some g -> Server.handle_request s w e h req = Ret (s', w', e', r) ->
  Server.authz s' = Some g /\
  ((Server.fleet s' = Server.fleet s /\ w' = w) \/
   exists tool, tool ∈ Server.CONTROL_TOOLS /\ authorised g req tool).
Proof.
  intros Hg Hr. split.
  - destruct (Server.dispatch_keeps _ _ _ _ _ _ _ _ _ Hr) as (_ & _ & _ & -> & _). done.
  - by eapply Server.guarded_dispatch.
Qed.

(** the answer of a gated action to a caller without an accepted attestation *)
Lemma gated_unauthenticated s w e req tool k g : Server.authz s = Some g ->
  authenticate_request g req = Ret (Err 401) ->
  Server.gated s w e req tool k = Ret (s, w, e, Response.error 401 (ascii_bytes "authentication failed")).
Proof. intros Hg Ha. unfold Server.gated, Server.require_auth. by rewrite Hg, Ha. Qed.

Lemma gated_decided s w e req tool k g p : Server.authz s = Some g ->
  authenticate_request g req = Ret (Ok p) ->
  Server.gated s w e req tool k =
    if authorize_tool g p tool then k
    else Ret (s, w, e, Response.error 403 (ascii_bytes "insufficient attestation for this action")).
Proof.
  intros Hg Ha. unfold Server.gated, Server.require_auth. rewrite Hg, Ha. cbn [mbind exec_bind].
  by destruct (authorize_tool g p tool).
Qed.

(** The dashboard cannot pass the gate.  The page served at [GET /] sends the
    attestation as a [TPT-Attestation] header; the server looks for
    [Authorization] or [X-Tpt-Attestation] only.  So behind a gate each button of
    the page, whatever is pasted into its field, is answered [401] and changes
    nothing. *)
Theorem dashboard_locked_out s w e h g id act (pasted b : list Z) :
  Server.authz s = Some g -> uint 64 id -> act ∈ ["engage_autonomy"; "take_manual_control"]%string ->
  is_Some (find_at (ascii_bytes "h['TPT-Attestation'] = a;") dashboard_html) /\
  Server.handle_request s w e h
    (post id act [(ascii_bytes "content-type", ascii_bytes "application/json");
                  (to_ascii_lowercase (ascii_bytes "TPT-Attestation"), pasted)] b) =
  Ret (s, w, e, Response.error 401 (ascii_bytes "authentication failed")).
Proof.
  intros Hg Hid Ha. split; [apply dashboard_headers|].
  assert (Hc : act ∈ control_actions) by (unfold control_actions; set_solver).
  set (hs := [_; _]). destruct (post_dispatch s w e h id act hs b Hid Hc) as [-> Hact].
  unfold Server.unit_response. rewrite Hact. cbn [method post].
  assert (Hu : authenticate_request g (post id act hs b) = Ret (Err 401)) by done.
  apply list_elem_of_In in Ha as [<-|[<-|[]]]; cbv iota.
  - rewrite decide_False, decide_True by done. by eapply gated_unauthenticated.
  - rewrite !decide_False, decide_True by done. by eapply gated_unauthenticated.
Qed.

(** The handshake endpoint is outside the gate.  Whatever gate is installed,
    and whether or not the caller's unit is enrolled with it, a caller with any
    self-signed attestation is answered [200] and the session replaces the one
    stored under the unit id of the path, which need not be the caller's. *)
Theorem handshake_ungated s w e h hs b i id init v :
  Server.identity s = Some i -> di_wf i -> entropy_ready (E := E) -> uint 64 id ->
  Json.parse b = Ret (Ok v) -> handshake_init_from_json v = Ret (Some init) ->
  sig_valid (hi_att init) = true -> length (Trust.eph_pub (hi_att init)) = AGREEMENT_PUB_LEN ->
  exists e' r (x : SecureSession Aes Cha),
    Server.handle_request s w e h (post id "secure/handshake" hs b) =
      Ret (Server.set_session s id x, w, e', r) /\
    status r = 200 /\ peer_id x = unit_id (hi_att init) /\
    Server.session (Server.set_session s id x) id = Some x.
Proof.
  intros Hi Hwf He Hid Hp Hini Hsig Hlen.
  assert (Hne : hi_suites init <> []).
  { unfold handshake_init_from_json in Hini. apply bind_ret_inv in Hini as ([att|] & _ & Hini); [|done].
    case_match; case_bool_decide; by simplify_eq. }
  assert (Hn : exists su, Suite.negotiate Suite.all (hi_suites init) = Some su).
  { destruct (hi_suites init) as [|su l]; [done|]. unfold Suite.all. cbn [Suite.negotiate].
    destruct su; repeat case_match; eauto; exfalso;
      repeat match goal with H : bool_decide _ = false |- _ => apply bool_decide_eq_false in H end; set_solver. }
  destruct Hn as [su Hn].
  assert (Hroute : Server.handle_request s w e h (post id "secure/handshake" hs b) =
    Server.handle_secure_handshake s w e id (post id "secure/handshake" hs b)).
  { unfold Server.handle_request, Server.dispatch, Server.api_response. cbn [method path post].
    rewrite (bool_decide_false (Post = Get)), (bool_decide_true (Post = Post)) by done.
    rewrite (bool_decide_false (_ = ascii_bytes "/mcp")) by done. cbn [andb].
    rewrite decide_False by done. rewrite unit_path_id by done.
    replace (ends_with _ _) with true; [done|]. symmetry. apply bool_decide_eq_true. unfold unit_path.
    change (47 :: ascii_bytes "secure/handshake") with (ascii_bytes "/secure/handshake").
    rewrite app_assoc, length_app. by rewrite Nat.add_sub, drop_app_length. }
  rewrite Hroute. unfold Server.handle_secure_handshake. rewrite Hi. cbn [body post]. rewrite Hp.
  cbn [mbind exec_bind]. rewrite Hini. cbn [mbind exec_bind].
  destruct (respond_spec (Aes := Aes) (Cha := Cha) i init Suite.all su e He Hsig Hlen Hn)
    as (e1 & e' & y & bx & -> & _). cbn [mbind exec_bind].
  unfold handshake_resp_to_json. cbn [hr_att hr_suite].
  destruct (attestation_of_valid i (public_of y) Hwf (public_length y)) as [_ Hatt].
  rewrite att_to_bytes_spec by done. cbn [mbind exec_bind].
  eexists e', _, _. split; [done|]. split; [done|]. split; [done|].
  unfold Server.session. cbn. by rewrite lookup_insert_eq.
Qed.

End Theorems.

Section Command.
Context {W F T Q : Type} `{OS : !CloudOs W F} `{TR : !UnitTransport T W} `{BF : !BoundedFifo Q MediaFrame}.
Context `{ED : !Ed25519} `{XD : !X25519} `{HK : !HkdfSha256}.
Context {Aes Cha : Type} `{AA : !AeadInPlace Aes} `{AC : !AeadInPlace Cha}.
Context {E : Type} `{GR : !Getrandom E}.
Context {St : Type}.
Abbreviation server := (Server.FleetServer (F := F) (T := T) (Aes := Aes) (Cha := Cha) St).

(** C15: The command route is a second door to manual control.  Under the default policy
    an enrolled AI agent that asks to take manual control of a unit is refused: [403],
    and nothing changes.  But posting [{"mode":"teleop"}] to the command route of the
    same unit asks only for the permission to send control, which the agent has, and
    performs the very operation refused, [Fleet.take_manual_control], whatever the unit, its mode,
    the mode table and the transport: the fleet and the world become what that
    operation makes of them, and the answer is [200], or [409] with its error. *)
Theorem agent_takes_manual (s : server) (w : W) (e : E) (h : Sfu.Heap Q) hs id g att p :
  Server.authz s = Some g -> policy (broker g) = Policy.default ->
  Authz.authenticate g att = Ret (Ok p) ->
  roles (trust (broker g)) !! unit_id att = Some AiAgent ->
  (forall act b, extract_attestation (post id act hs b) = Ret (Some att)) -> uint 64 id ->
  (forall b, Server.handle_request s w e h (post id "take_manual_control" hs b) =
     Ret (s, w, e, Response.error 403 (ascii_bytes "insufficient attestation for this action"))) /\
  Server.handle_request s w e h (post id "command" hs teleop_body) =
    ('(f, w, res) ← Fleet.take_manual_control (Server.fleet s) w id;
     Ret (Server.set_fleet s f, w, e,
          match res with
          | Ok _ => Response.json 200 (Json.obj [(ascii_bytes "unit_id", Json.uint id);
                                                 (ascii_bytes "mode", Json.str (mode_name FullTeleop))])
          | Err err => Response.error 409 (CloudError_fmt err)
          end)).
Proof.
  intros Hg Hpol Hauth Hrole Hx Hid.
  assert (Hdec : forall tool, authorize_tool g p tool =
    match dispatch_permission tool with Some perm => Policy.role_has Policy.default AiAgent perm | None => false end).
  { intros tool. pose proof (authenticate_proves g att p Hauth) as (_ & _ & _ & Ha & Hr).
    unfold authorize_tool, Authz.authorize_dispatch, broker_authorize_dispatch, authorize_dispatch, Policy.authorize.
    rewrite Hpol, Ha, Hr, Hrole, elements_singleton. cbn. by destruct (dispatch_permission tool); rewrite ?orb_false_r. }
  assert (Hreq : forall act b, authenticate_request g (post id act hs b) = Ret (Ok p)).
  { intros act b. unfold authenticate_request. rewrite Hx. cbn [mbind exec_bind]. by rewrite Hauth. }
  split.
  - intros b. destruct (post_dispatch s w e h id "take_manual_control" hs b Hid) as [-> Hact];
      [unfold control_actions; set_solver|].
    unfold Server.unit_response. rewrite Hact. cbn [method post].
    rewrite !decide_False, decide_True by done.
    rewrite (gated_decided s w e _ _ _ g p Hg (Hreq _ _)), Hdec. done.
  - destruct (post_dispatch s w e h id "command" hs teleop_body Hid) as [-> Hact];
      [unfold control_actions; set_solver|].
    unfold Server.unit_response. rewrite Hact. cbn [method post].
    rewrite !decide_False, decide_True by done.
    rewrite (gated_decided s w e _ _ _ g p Hg (Hreq _ _)), Hdec.
    assert (Hs : match dispatch_permission "send_control" with
      Some perm => Policy.role_has Policy.default AiAgent perm | None => false end = true) by by vm_compute.
    rewrite Hs.
    unfold Server.command_action, Server.body_json. cbn [body post].
    assert (Eb : Json.parse teleop_body =
      Ret (Ok (Json.obj [(ascii_bytes "mode", Json.str (ascii_bytes "teleop"))]))) by (vm_compute; reflexivity).
    rewrite Eb. cbn [mbind exec_bind].
    cbn [Json.get Json.obj List.find fst snd]. rewrite bool_decide_true by done.
    cbn [fmap option_fmap option_map mbind option_bind snd Json.as_str Json.str].
    replace (Fleet.parse_mode (ascii_bytes "teleop")) with (Some FullTeleop) by done. done.
Qed.

End Command.

(** ** A server to try *)

Module DemoServer.
Abbreviation server := (Server.FleetServer (F := list Z) (T := CapturingTransport) (Aes := Toy.Key) (Cha := Toy.Key) unit).

(** an AI agent, enrolled as one *)
Definition agent : DeviceIdentity :=
  {| di_unit := 20; di_role := AiAgent; di_signing := [6]; di_pub := ToyKeys.public [6] |}.
Lemma agent_wf : di_wf agent.
Proof. split; [vm_compute; split; congruence | reflexivity]. Qed.
Definition agent_att : Attestation := attestation_of agent (replicate 32 2).
Definition gate : FleetAuthz := Authz.with_trust (store_of [(20, ToyKeys.public [6], AiAgent)]).

(** one unit, in [ASSIST] *)
Definition fleet : Fleet.Fleet (list Z) CapturingTransport :=
  Fleet.set_units (Fleet.new {| sent := [] |})
    {[5 := Fleet.fresh_unit 5 DemoOs.somewhere 0 (RNull null_new)]}.
Definition srv : server :=
  Server.with_security (Server.set_fleet (Server.new {| sent := [] |}) fleet) gate DemoIds.console.
(** headers of a caller with [agent_att], or nobody's *)
Definition hs : list (list Z * list Z) := DemoGate.presenting agent_att.

Lemma agent_extracted act b : extract_attestation (post 5 act hs b) = Ret (Some agent_att).
Proof.
  change (extract_attestation (post 5 act hs b)) with
    (extract_attestation (DemoGate.request Get "/" (DemoGate.presenting agent_att) [])).
  vm_compute. reflexivity.
Qed.
Lemma agent_authenticated : exists p, Authz.authenticate gate agent_att = Ret (Ok p).
Proof. eexists. vm_compute. reflexivity. Qed.

(** the handshake request of a drone no gate knows *)
Definition stranger : HandshakeInit := {| hi_att := DemoIds.att; hi_suites := Suite.all |}.
Definition stranger_json : Json :=
  Json.obj [(ascii_bytes "attestation", Json.str (hex_encode (att_wire DemoIds.att)))].
Definition stranger_body : list Z := utf8 (Json.write stranger_json).
Lemma u5 : uint 64 5.
Proof. vm_compute. split; congruence. Qed.
(** an authorised mode change, tried *)
Definition in_auto (s : server) : bool :=
  bool_decide (Fleet.umode <$> (Fleet.units (Server.fleet s) !! 5) = Some Auto).
Lemma returned {A} (m : exec A) (p : A -> bool) :
  match m with Ret x => p x | _ => false end = true -> exists x, m = Ret x /\ p x = true.
Proof. destruct m; [eauto | done..]. Qed.
Lemma engaged : exists x,
  Server.handle_request srv 0 0 heap0 (post 5 "engage_autonomy" hs []) = Ret x /\ in_auto x.1.1.1 = true.
Proof. apply (returned _ (fun x => in_auto x.1.1.1)). vm_compute. reflexivity. Qed.

(** a unit taken over, with the answer *)
Definition taken_over (x : server * Z * Z * Response) : bool :=
  bool_decide (status x.2 = 200 /\ Fleet.umode <$> (Fleet.units (Server.fleet x.1.1.1) !! 5) = Some FullTeleop).

Lemma stranger_parsed : Json.parse stranger_body = Ret (Ok stranger_json).
Proof. vm_compute. reflexivity. Qed.
Lemma stranger_decoded : handshake_init_from_json stranger_json = Ret (Some stranger).
Proof. vm_compute. reflexivity. Qed.
Lemma stranger_signed : sig_valid (hi_att stranger) = true /\ length (Trust.eph_pub (hi_att stranger)) = AGREEMENT_PUB_LEN.
Proof. vm_compute. split; reflexivity. Qed.
End DemoServer.

Lemma agent_takes_manual_witness : exists x,
  Server.handle_request DemoServer.srv 0 0 heap0 (post 5 "command" DemoServer.hs teleop_body) = Ret x /\
  DemoServer.taken_over x = true.
Proof.
  destruct DemoServer.agent_authenticated as [p Hp].
  destruct (agent_takes_manual DemoServer.srv 0 0 heap0 DemoServer.hs 5 DemoServer.gate DemoServer.agent_att p
    eq_refl eq_refl Hp eq_refl DemoServer.agent_extracted DemoServer.u5) as [_ H].
  rewrite H. apply (DemoServer.returned _ DemoServer.taken_over). vm_compute. reflexivity.
Defined.

Lemma dashboard_locked_out_witness :
  is_Some (find_at (ascii_bytes "h['TPT-Attestation'] = a;") dashboard_html) /\
  Server.handle_request DemoServer.srv 0 0 heap0
    (post 5 "engage_autonomy" [(ascii_bytes "content-type", ascii_bytes "application/json");
       (to_ascii_lowercase (ascii_bytes "TPT-Attestation"), hex_encode (att_wire DemoServer.agent_att))] []) =
  Ret (DemoServer.srv, 0, 0, Response.error 401 (ascii_bytes "authentication failed")).
Proof.
  apply (dashboard_locked_out DemoServer.srv 0 0 heap0 DemoServer.gate 5 "engage_autonomy"
    (hex_encode (att_wire DemoServer.agent_att)) []); [reflexivity | exact DemoServer.u5 | set_solver].
Defined.

Lemma gate_guards_fleet_witness : exists s' w' e' r,
  Server.handle_request DemoServer.srv 0 0 heap0 (post 5 "engage_autonomy" DemoServer.hs [])
    = Ret (s', w', e', r) /\
  Server.authz s' = Some DemoServer.gate /\ Server.fleet s' <> Server.fleet DemoServer.srv /\
  exists tool, tool ∈ Server.CONTROL_TOOLS /\
    authorised DemoServer.gate (post 5 "engage_autonomy" DemoServer.hs []) tool.
Proof.
  destruct DemoServer.engaged as ([[[s' w'] e'] r] & E & Hm). cbn [fst] in Hm.
  destruct (gate_guards_fleet DemoServer.srv 0 0 heap0 (post 5 "engage_autonomy" DemoServer.hs [])
    DemoServer.gate s' w' e' r eq_refl E) as [Ha Hc].
  assert (Hne : Server.fleet s' <> Server.fleet DemoServer.srv).
  { intros X. unfold DemoServer.in_auto in Hm. rewrite X in Hm. vm_compute in Hm. discriminate. }
  exists s', w', e', r. split; [exact E|]. split; [exact Ha|]. split; [exact Hne|].
  destruct Hc as [[Hc _]|Hc]; [by destruct Hne | exact Hc].
Defined.

Lemma handshake_ungated_witness : exists e' r (x : SecureSession Toy.Key Toy.Key),
  Server.handle_request DemoServer.srv 0 0 heap0 (post 5 "secure/handshake" [] DemoServer.stranger_body) =
    Ret (Server.set_session DemoServer.srv 5 x, 0, e', r) /\
  status r = 200 /\ peer_id x = 7.
Proof.
  pose proof (handshake_ungated DemoServer.srv 0 0 heap0 [] DemoServer.stranger_body DemoIds.console 5
    DemoServer.stranger DemoServer.stranger_json eq_refl DemoIds.console_wf DemoIds.entropy DemoServer.u5
    DemoServer.stranger_parsed DemoServer.stranger_decoded (proj1 DemoServer.stranger_signed)
    (proj2 DemoServer.stranger_signed)) as H.
  destruct H as (e' & r & x & E & Hr & Hx & _).
  exists e', r, x. split; [exact E|]. split; [exact Hr | exact Hx].
Defined.
