(* ===== verification/ServerLoop.v ===== *)
(** * The fleet server's connections: [tpt-t-cloud/src/server.rs], [try_accept] to [register_pending]

    Accepting under the connection cap, reading a connection until it would block,
    answering one request and closing, the idle sweep, and one tick of the event
    loop.  The listener, the sockets, the monotonic clock and the readiness backend
    are the class [ServerOs]; its tokens are the server's. *)

From stdpp Require Import gmap strings.
From S2P Require Import Prelude Text Float FloatText Ring Mode Reliable Mux Service Cipher Trust Json Sfu Recorder Fleet Http Gate Mcp Server.

(** What the server uses of the machine: a [read] answers the bytes it got, none
    at the end of the stream. *)
Class ServerOs (W St : Type) := {
  accept : W -> W * result St IoError;
  sock_read : W -> St -> W * result (list Z) IoError;
  sock_write_all : W -> St -> list Z -> W;
  instant_now : W -> W * Z;
  ev_register : W -> St -> Z -> W * bool;
  (** the ready tokens, with whether they are readable *)
  ev_poll : W -> Z -> W * list (Z * bool)
}.

Module ServerLoop.
Section ServerLoop.
Context {W F T Q : Type} `{OS : !CloudOs W F} `{TR : !UnitTransport T W} `{BF : !BoundedFifo Q MediaFrame}.
Context `{ED : !Ed25519} `{XD : !X25519} `{HK : !HkdfSha256}.
Context {Aes Cha : Type} `{AA : !AeadInPlace Aes} `{AC : !AeadInPlace Cha}.
Context {E : Type} `{GR : !Getrandom E}.
Context {St : Type} `{SO : !ServerOs W St} `{UC : !Unicode}.
Abbreviation server := (Server.FleetServer (F := F) (T := T) (Aes := Aes) (Cha := Cha) St).
Abbreviation Conn := (Server.Conn St).
Abbreviation set_conns s c := (Server.set_conns s c (Server.next_token s)).

Definition LISTENER_TOKEN : Z := 0.

(** the loop around [listener.accept()]; a stream taken at the cap is dropped *)
Fixpoint accept_loop (fuel : nat) (s : server) (w : W) : exec (server * W) :=
  match fuel with
  | O => NoFuel
  | S fuel =>
      let '(w, r) := accept w in
      match r with
      | Ok stream =>
          if (max_conns (Server.limits s) <=? Z.of_nat (size (Server.conns s)))
             && (0 <? max_conns (Server.limits s))
          then Ret (s, w)
          else
            let token := Server.next_token s in
            let '(w, now) := instant_now w in
            accept_loop fuel
              (Server.set_conns s
                 (<[token := {| Server.stream := stream; Server.read_buf := [];
                                Server.registered := false; Server.last_active := now |}]> (Server.conns s))
                 (wadd 64 token 1)) w
      | Err _ => Ret (s, w)
      end
  end.

Definition try_accept (fuel : nat) (s : server) (w : W) : exec (server * W) :=
  if Server.listener s then accept_loop fuel s w else Ret (s, w).

Definition with_buf (c : Conn) (buf : list Z) (now : Z) : Conn :=
  {| Server.stream := Server.stream c; Server.read_buf := buf;
     Server.registered := Server.registered c; Server.last_active := now |}.

(** the read phase: the connection as far as it could be read, [None] when it has
    ended or failed *)
Fixpoint read_loop (fuel : nat) (c : Conn) (w : W) : exec (option Conn * W) :=
  match fuel with
  | O => NoFuel
  | S fuel =>
      let '(w, r) := sock_read w (Server.stream c) in
      match r with
      | Ok [] => Ret (None, w)
      | Ok bs =>
          let '(w, now) := instant_now w in
          read_loop fuel (with_buf c (Server.read_buf c ++ bs) now) w
      | Err WouldBlock | Err TimedOut => Ret (Some c, w)
      | Err _ => Ret (None, w)
      end
  end.

Definition MAX_REQUEST : Z := Z.shiftl 1 20.

(** one connection: read, then parse, dispatch and close *)
Definition service_conn (fuel : nat) (s : server) (w : W) (e : E) (h : Sfu.Heap Q) (token : Z)
    : exec (server * W * E) :=
  match Server.conns s !! token with
  | None => Ret (s, w, e)
  | Some conn =>
      '(c, w) ← read_loop fuel conn w;
      let closed := set_conns s (delete token (Server.conns s)) in
      match c with
      | None => Ret (closed, w, e)
      | Some c =>
          if MAX_REQUEST <? Z.of_nat (length (Server.read_buf c)) then Ret (closed, w, e)
          else
            r ← Request.parse (Server.read_buf c);
            match r with
            | Ok (Some (req, _)) =>
                '(s, w, e, response) ← Server.dispatch closed w e h req;
                Ret (s, sock_write_all w (Server.stream c) (Response.to_bytes response), e)
            | Ok None => Ret (set_conns s (<[token := c]> (delete token (Server.conns s))), w, e)
            | Err _ => Ret (closed, w, e)
            end
      end
  end.

(** [EventHandler::ready] *)
Definition ready (fuel : nat) (h : Sfu.Heap Q) (st : server * W * E) (token : Z) (readable : bool)
    : exec (server * W * E) :=
  let '(s, w, e) := st in
  if token =? LISTENER_TOKEN then
    if readable then '(s, w) ← try_accept fuel s w; Ret (s, w, e) else Ret (s, w, e)
  else if readable then service_conn fuel s w e h token
  else Ret (s, w, e).

Fixpoint ready_all (fuel : nat) (h : Sfu.Heap Q) (evs : list (Z * bool)) (st : server * W * E)
    : exec (server * W * E) :=
  match evs with
  | [] => Ret st
  | (token, readable) :: evs => st ← ready fuel h st token readable; ready_all fuel h evs st
  end.

Fixpoint service_all (fuel : nat) (h : Sfu.Heap Q) (tokens : list Z) (st : server * W * E)
    : exec (server * W * E) :=
  match tokens with
  | [] => Ret st
  | t :: tokens =>
      let '(s, w, e) := st in
      st ← service_conn fuel s w e h t; service_all fuel h tokens st
  end.

(** accept, then every connection once, in the map's order *)
Definition pump (fuel : nat) (h : Sfu.Heap Q) (st : server * W * E) : exec (server * W * E) :=
  let '(s, w, e) := st in
  '(s, w) ← try_accept fuel s w;
  service_all fuel h (map_to_list (Server.conns s)).*1 (s, w, e).

Definition mark_registered (c : Conn) : Conn :=
  {| Server.stream := Server.stream c; Server.read_buf := Server.read_buf c;
     Server.registered := true; Server.last_active := Server.last_active c |}.

Fixpoint register_loop (tokens : list Z) (s : server) (w : W) : server * W :=
  match tokens with
  | [] => (s, w)
  | t :: tokens =>
      match Server.conns s !! t with
      | Some c =>
          let '(w, ok) := ev_register w (Server.stream c) t in
          register_loop tokens
            (if ok then set_conns s (<[t := mark_registered c]> (Server.conns s)) else s) w
      | None => register_loop tokens s w
      end
  end.

Definition register_pending (s : server) (w : W) : server * W :=
  if Server.listener s then
    register_loop (map_to_list (filter (fun kv => Server.registered kv.2 = false) (Server.conns s))).*1 s w
  else (s, w).

Definition sweep_idle (s : server) (w : W) : server * W :=
  let '(w, now) := instant_now w in
  (set_conns s (filter (fun kv => ssub now (Server.last_active kv.2) <= idle_timeout (Server.limits s))
                  (Server.conns s)), w).

(** one tick; the count it answers is the number of events, at least one *)
Definition run_once (fuel : nat) (h : Sfu.Heap Q) (s : server) (w : W) (e : E) (timeout : Z)
    : exec (server * W * E * Z) :=
  let '(w, evs) := ev_poll w timeout in
  st ← ready_all fuel h evs (s, w, e);
  '(s, w, e) ← pump fuel h st;
  let '(s, w) := register_pending s w in
  let '(s, w) := sweep_idle s w in
  Ret (s, w, e, Z.max (Z.of_nat (length evs)) 1).

(** *** The connection cap *)

Definition capped (s : server) : Prop :=
  max_conns (Server.limits s) <= 0 \/ Z.of_nat (size (Server.conns s)) <= max_conns (Server.limits s).
(** tokens in use were handed out before *)
Definition fresh (s : server) : Prop :=
  forall t c, Server.conns s !! t = Some c -> t < Server.next_token s.

(** from [s] to [s'] the limits stand and the cap is kept *)
Definition bounded (s s' : server) : Prop :=
  Server.limits s' = Server.limits s /\ (capped s -> capped s').

Lemma bounded_refl s : bounded s s.
Proof. by split. Qed.
Lemma bounded_trans s1 s2 s3 : bounded s1 s2 -> bounded s2 s3 -> bounded s1 s3.
Proof. intros [E1 H1] [E2 H2]. split; [congruence | auto]. Qed.
#[local] Hint Resolve bounded_refl : core.

(** fewer connections *)
Lemma bounded_fewer (s s' : server) : Server.limits s' = Server.limits s ->
  (size (Server.conns s') <= size (Server.conns s))%nat -> bounded s s'.
Proof. intros El Hn. split; [done|]. unfold capped. rewrite El. intros [?|?]; [by left | right; lia]. Qed.

Lemma size_delete_le (m : gmap Z Conn) t : (size (delete t m) <= size m)%nat.
Proof. apply map_subseteq_size, delete_subseteq. Qed.

Lemma size_insert_le (m : gmap Z Conn) t c : (size (<[t := c]> m) <= S (size m))%nat.
Proof. rewrite map_size_insert. destruct (m !! t); cbn; lia. Qed.

Lemma size_replace (m : gmap Z Conn) t c c' : m !! t = Some c -> size (<[t := c']> m) = size m.
Proof. intros E0. rewrite map_size_insert, E0. done. Qed.

Lemma size_put_back (m : gmap Z Conn) t c c' : m !! t = Some c -> size (<[t := c']> (delete t m)) = size m.
Proof. intros E0. rewrite insert_delete_eq. by eapply size_replace. Qed.

Lemma accept_loop_bounded fuel : forall s w s' w', accept_loop fuel s w = Ret (s', w') -> bounded s s'.
Proof.
  induction fuel as [|fuel IH]; intros s w s' w' H; [done|]. cbn [accept_loop] in H.
  destruct (accept w) as [w1 [st|err]]; [|by simplify_eq].
  destruct ((_ <=? _) && _) eqn:Ec; [by simplify_eq|]. destruct (instant_now w1) as [w2 now].
  apply IH in H. eapply bounded_trans; [|exact H]. split; [done|]. unfold capped. cbn [Server.limits Server.conns Server.set_conns].
  intros Hc. pose proof (size_insert_le (Server.conns s) (Server.next_token s)
    {| Server.stream := st; Server.read_buf := []; Server.registered := false; Server.last_active := now |}).
  apply andb_false_iff in Ec as [Ec|Ec]; [|left; apply Z.ltb_ge in Ec; exact Ec]. apply Z.leb_gt in Ec.
  right. lia.
Qed.

Lemma try_accept_bounded fuel s w s' w' : try_accept fuel s w = Ret (s', w') -> bounded s s'.
Proof.
  unfold try_accept. destruct (Server.listener s); [apply accept_loop_bounded | by intros [= <- <-]].
Qed.

Lemma service_conn_bounded fuel s w e h t s' w' e' :
  service_conn fuel s w e h t = Ret (s', w', e') -> bounded s s'.
Proof.
  unfold service_conn. destruct (Server.conns s !! t) as [c|] eqn:Et; [|by intros [= <- <- <-]].
  assert (Hcl : bounded s (set_conns s (delete t (Server.conns s))))
    by (apply bounded_fewer; [done | apply size_delete_le]).
  intros H. apply bind_ret_inv in H as ([[c'|] w1] & _ & H); [|by simplify_eq].
  case_match; [by simplify_eq|].
  apply bind_ret_inv in H as ([[[req n]|]|err] & _ & H); [| |by simplify_eq].
  - apply bind_ret_inv in H as ([[[s1 w2] e1] resp] & Hd & H). simplify_eq.
    apply Server.dispatch_keeps in Hd as (_ & _ & Hc & _ & _ & Hl).
    eapply bounded_trans; [exact Hcl|]. apply bounded_fewer; [done | by rewrite Hc].
  - simplify_eq. apply bounded_fewer; [done|]. cbn [Server.conns Server.set_conns].
    by erewrite size_put_back.
Qed.

Lemma service_all_bounded fuel h ts : forall st st', service_all fuel h ts st = Ret st' -> bounded st.1.1 st'.1.1.
Proof.
  induction ts as [|t ts IH]; intros [[s w] e] st' H; cbn [service_all] in H; [by simplify_eq|].
  apply bind_ret_inv in H as ([[s1 w1] e1] & H1 & H2).
  eapply bounded_trans; [by eapply service_conn_bounded | by apply IH in H2].
Qed.

Lemma ready_bounded fuel h st t b st' : ready fuel h st t b = Ret st' -> bounded st.1.1 st'.1.1.
Proof.
  destruct st as [[s w] e]. unfold ready. intros H. destruct (t =? LISTENER_TOKEN), b; try (by simplify_eq).
  - apply bind_ret_inv in H as ([s1 w1] & H1 & H). simplify_eq. by eapply try_accept_bounded.
  - destruct st' as [[s1 w1] e1]. by eapply service_conn_bounded.
Qed.

Lemma ready_all_bounded fuel h evs : forall st st', ready_all fuel h evs st = Ret st' -> bounded st.1.1 st'.1.1.
Proof.
  induction evs as [|[t b] evs IH]; intros st st' H; cbn [ready_all] in H; [by simplify_eq|].
  apply bind_ret_inv in H as (st1 & H1 & H2).
  eapply bounded_trans; [by eapply ready_bounded | by apply IH].
Qed.

Lemma pump_bounded fuel h st st' : pump fuel h st = Ret st' -> bounded st.1.1 st'.1.1.
Proof.
  destruct st as [[s w] e]. unfold pump. intros H. apply bind_ret_inv in H as ([s1 w1] & H1 & H2).
  eapply bounded_trans; [by eapply try_accept_bounded | by apply service_all_bounded in H2].
Qed.

Lemma register_loop_bounded ts : forall s w, bounded s (register_loop ts s w).1.
Proof.
  induction ts as [|t ts IH]; intros s w; cbn [register_loop]; [done|].
  destruct (Server.conns s !! t) as [c|] eqn:Et; [|apply IH].
  destruct (ev_register w (Server.stream c) t) as [w1 ok].
  eapply bounded_trans; [|apply IH]. destruct ok; [|done]. apply bounded_fewer; [done|].
  cbn [Server.conns Server.set_conns]. by erewrite size_replace.
Qed.

Lemma register_pending_bounded s w : bounded s (register_pending s w).1.
Proof. unfold register_pending. destruct (Server.listener s); [apply register_loop_bounded | done]. Qed.

Lemma sweep_bounded s w : bounded s (sweep_idle s w).1.
Proof.
  unfold sweep_idle. destruct (instant_now w) as [w1 now]. apply bounded_fewer; [done|].
  apply map_subseteq_size, map_filter_subseteq.
Qed.

(** *** What one connection receives *)

Inductive stream_end := Open | Closed.

(** [receives st w bs en w' n]: [n] reads of [st] from [w] yield [bs], and then the
    stream would block ([Open]), or has ended or failed *)
Inductive receives (st : St) : W -> list Z -> stream_end -> W -> nat -> Prop :=
| receives_blocked w w' err : sock_read w st = (w', Err err) -> err = WouldBlock \/ err = TimedOut ->
    receives st w [] Open w' 1
| receives_failed w w' err : sock_read w st = (w', Err err) -> err <> WouldBlock -> err <> TimedOut ->
    receives st w [] Closed w' 1
| receives_eof w w' : sock_read w st = (w', Ok []) -> receives st w [] Closed w' 1
| receives_data w w1 w2 w' bs now rest en n : sock_read w st = (w1, Ok bs) -> bs <> [] ->
    instant_now w1 = (w2, now) -> receives st w2 rest en w' n ->
    receives st w (bs ++ rest) en w' (S n).

Lemma read_loop_receives st w bs en w' n : receives st w bs en w' n ->
  forall fuel c, (n <= fuel)%nat -> Server.stream c = st ->
  exists c', read_loop fuel c w = Ret (match en with Open => Some c' | Closed => None end, w') /\
    Server.stream c' = st /\ Server.read_buf c' = Server.read_buf c ++ bs /\
    Server.registered c' = Server.registered c.
Proof.
  induction 1 as [w w' err Er He | w w' err Er H1 H2 | w w' Er | w w1 w2 w' bs now rest en n Er Hne Hn _ IH];
    intros [|fuel] c Hf Hs; try lia; cbn [read_loop]; rewrite Hs, Er.
  - exists c. rewrite app_nil_r. destruct He as [-> | ->]; done.
  - exists c. rewrite app_nil_r. by destruct err.
  - exists c. by rewrite app_nil_r.
  - destruct bs as [|b bs]; [done|]. rewrite Hn.
    destruct (IH fuel (with_buf c (Server.read_buf c ++ b :: bs) now)) as (c' & -> & H1 & H2 & H3); [lia | done|].
    exists c'. split; [done|]. split; [done|]. rewrite H2, H3. cbn. by rewrite <- app_assoc.
Qed.

End ServerLoop.
End ServerLoop.

(** ** Theorems *)

Section Theorems.
Context {W F T Q : Type} `{OS : !CloudOs W F} `{TR : !UnitTransport T W} `{BF : !BoundedFifo Q MediaFrame}.
Context `{ED : !Ed25519} `{XD : !X25519} `{HK : !HkdfSha256}.
Context {Aes Cha : Type} `{AA : !AeadInPlace Aes} `{AC : !AeadInPlace Cha}.
Context {E : Type} `{GR : !Getrandom E}.
Context {St : Type} `{SO : !ServerOs W St} `{UC : !Unicode}.
Abbreviation server := (Server.FleetServer (F := F) (T := T) (Aes := Aes) (Cha := Cha) St).
Abbreviation closed s token := (Server.set_conns s (delete token (Server.conns s)) (Server.next_token s)).
Implicit Types (s : server) (w : W) (e : E) (h : Sfu.Heap Q).

(** C27: The connection cap holds.  A tick of the event loop (readiness events,
    accepting, one round over the connections, registration, idle sweep) that
    ends leaves the limits as they are and, with a non-zero cap, never leaves
    more connections open than the cap when it started within it. *)
Theorem connection_cap_holds fuel h s w e timeout s' w' e' n :
  ServerLoop.run_once fuel h s w e timeout = Ret (s', w', e', n) ->
  Server.limits s' = Server.limits s /\ 1 <= n /\
  (ServerLoop.capped s -> ServerLoop.capped s').
Proof.
  unfold ServerLoop.run_once. destruct (ev_poll w timeout) as [w1 evs]. intros H.
  apply bind_ret_inv in H as (st1 & H1 & H). apply bind_ret_inv in H as ([[s2 w2] e2] & H2 & H).
  apply ServerLoop.ready_all_bounded in H1. apply ServerLoop.pump_bounded in H2. cbn [fst] in H1, H2.
  pose proof (ServerLoop.register_pending_bounded s2 w2) as H3.
  destruct (ServerLoop.register_pending s2 w2) as [s3 w3].
  pose proof (ServerLoop.sweep_bounded s3 w3) as H4.
  destruct (ServerLoop.sweep_idle s3 w3) as [s4 w4]. injection H as <- _ _ <-. cbn [fst] in *.
  destruct (ServerLoop.bounded_trans _ _ _ (ServerLoop.bounded_trans _ _ _ H1 H2)
    (ServerLoop.bounded_trans _ _ _ H3 H4)) as [Hl Hc].
  split; [done|]. split; [lia | done].
Qed.

(** Accepting ends.  With a non-zero cap and room left for [k] connections,
    the accept loop ends after at most [k + 1] calls of [accept] whatever the
    listener has queued: every stream accepted below the cap gets a token not in
    use, so the map grows, and at the cap the stream is dropped and the loop
    left. *)
Theorem accepting_ends s w (k : nat) :
  ServerLoop.fresh s -> 0 < max_conns (Server.limits s) ->
  Z.of_nat (size (Server.conns s)) + Z.of_nat k = max_conns (Server.limits s) ->
  0 <= Server.next_token s -> Server.next_token s + Z.of_nat k < 2 ^ 64 ->
  exists s' w', ServerLoop.try_accept (S k) s w = Ret (s', w') /\ ServerLoop.fresh s' /\
    Server.conns s ⊆ Server.conns s' /\
    Z.of_nat (size (Server.conns s')) <= max_conns (Server.limits s).
Proof.
  unfold ServerLoop.try_accept. destruct (Server.listener s); [|eexists _, _; split_and!; try done; lia].
  revert s w. induction k as [|k IH]; intros s w Hf Hm Hk Hn Hw.
  - cbn [ServerLoop.accept_loop]. destruct (accept w) as [w1 [st|err]].
    + rewrite (proj2 (Z.leb_le _ _)), (proj2 (Z.ltb_lt _ _)) by lia. cbn [andb].
      eexists _, _. split_and!; try done; lia.
    + eexists _, _. split_and!; try done; lia.
  - remember (S k) as k1 eqn:Ek. cbn [ServerLoop.accept_loop]. destruct (accept w) as [w1 [st|err]].
    2: { eexists _, _. split_and!; try done; lia. }
    rewrite (proj2 (Z.leb_gt _ _)) by lia. cbn [andb]. destruct (instant_now w1) as [w2 now].
    set (c := {| Server.stream := st; Server.read_buf := []; Server.registered := false; Server.last_active := now |}).
    assert (Hnone : Server.conns s !! Server.next_token s = None).
    { destruct (Server.conns s !! Server.next_token s) as [c'|] eqn:Ec; [|done].
      apply Hf in Ec. lia. }
    assert (Htok : wadd 64 (Server.next_token s) 1 = Server.next_token s + 1)
      by (unfold wadd, wrap; apply Z.mod_small; lia).
    rewrite Htok.
    destruct (IH (Server.set_conns s (<[Server.next_token s := c]> (Server.conns s)) (Server.next_token s + 1)) w2)
      as (s' & w' & -> & Hf' & Hsub & Hsz); cbn [Server.conns Server.limits Server.next_token Server.set_conns].
    + intros t c' Hl. cbn [Server.conns Server.next_token Server.set_conns] in *.
      apply lookup_insert_Some in Hl as [[<- _]|[_ Hl]]; [lia|]. apply Hf in Hl. lia.
    + done.
    + rewrite map_size_insert, Hnone. lia.
    + lia.
    + lia.
    + eexists _, _. split_and!; try done. etrans; [|exact Hsub]. cbn. by apply insert_subseteq.
Qed.

(** What is answered on a connection.  A connection whose stream would block
    after [bs] is answered from its buffer and [bs]: nothing is decided while the
    request is incomplete, a complete one is dispatched once, its response written
    and the connection closed, an oversized buffer or a malformed request closes
    it without an answer.  When the stream has ended ([read] answers no bytes) or
    failed in the same round, the connection is closed and what it sent is thrown
    away unanswered, a complete request too: a client that sends its request and
    shuts down its sending side may never be served. *)
Theorem connection_served fuel s w e h token c bs en w' n :
  Server.conns s !! token = Some c ->
  ServerLoop.receives (Server.stream c) w bs en w' n -> (n <= fuel)%nat ->
  let buf := Server.read_buf c ++ bs in
  let out := ServerLoop.service_conn fuel s w e h token in
  match en with
  | ServerLoop.Closed => out = Ret (closed s token, w', e)
  | ServerLoop.Open =>
      if ServerLoop.MAX_REQUEST <? Z.of_nat (length buf) then out = Ret (closed s token, w', e)
      else match Request.parse buf with
           | Ret (Ok (Some (req, _))) =>
               out = ('(s, w, e, response) ← Server.handle_request (closed s token) w' e h req;
                      Ret (s, sock_write_all w (Server.stream c) (Response.to_bytes response), e)) /\
               forall s1 w1 e1, out = Ret (s1, w1, e1) -> Server.conns s1 = delete token (Server.conns s)
           | Ret (Ok None) => exists c', Server.stream c' = Server.stream c /\ Server.read_buf c' = buf /\
               Server.registered c' = Server.registered c /\
               out = Ret (Server.set_conns s (<[token := c']> (Server.conns s)) (Server.next_token s), w', e)
           | Ret (Err _) => out = Ret (closed s token, w', e)
           | Panic => out = Panic
           | Undef => out = Undef
           | NoFuel => out = NoFuel
           end
  end.
Proof.
  intros Hc Hr Hf. unfold ServerLoop.service_conn. cbv zeta. rewrite Hc.
  destruct (ServerLoop.read_loop_receives _ _ _ _ _ _ Hr fuel c Hf eq_refl) as (c' & -> & H1 & H2 & H3).
  cbn [mbind exec_bind]. destruct en; [|done]. rewrite H2. case_if; [done|].
  destruct (Request.parse (Server.read_buf c ++ bs)) as [[[[req k]|]|err]| | |]; cbn [mbind exec_bind]; try done.
  - rewrite H1. split; [done|]. intros s1 w1 e1 Hd.
    apply bind_ret_inv in Hd as ([[[s2 w2] e2] resp] & Hd & E0). injection E0 as <- _ _.
    by apply Server.dispatch_keeps in Hd as (_ & _ & -> & _).
  - exists c'. split_and!; try done. by rewrite insert_delete_eq.
Qed.

End Theorems.

(** ** A machine with a clock, a script of reads and an endless queue of clients *)

Module DemoNet.
Record net := { clock : Z; script : list (result (list Z) IoError); written : list Z }.
Definition at_clock (w : net) (t : Z) : net := {| clock := t; script := script w; written := written w |}.

#[export] Instance os : CloudOs net (list Z) := {
  now_unix_ns w := (at_clock w (clock w + 1), clock w);
  sock_send w _ bs := (w, Ok (length bs));
  open_recording w _ _ := (w, Ok []);
  show_addr := show_addr (CloudOs := DemoOs.os);
  show_io := show_io (CloudOs := DemoOs.os)
}.
#[export] Instance sockets : ServerOs net unit := {
  accept w := (w, Ok tt);
  sock_read w _ := match script w with
                   | [] => (w, Err WouldBlock)
                   | r :: rs => ({| clock := clock w; script := rs; written := written w |}, r)
                   end;
  sock_write_all w _ bs := {| clock := clock w; script := script w; written := written w ++ bs |};
  instant_now w := (at_clock w (clock w + 1), clock w);
  ev_register w _ _ := (w, true);
  ev_poll w _ := (w, [(0, true)])
}.
#[export] Instance unicode : Unicode := ascii_unicode.

Definition idle : net := {| clock := 0; script := []; written := [] |}.
(** a listening server with room for two connections *)
Definition srv : DemoServer.server :=
  let s := Server.with_limits DemoServer.srv {| max_conns := 2; idle_timeout := 10 |} in
  {| Server.listener := true; Server.next_token := 1; Server.conns := ∅; Server.fleet := Server.fleet s;
     Server.authz := Server.authz s; Server.identity := Server.identity s;
     Server.sessions := Server.sessions s; Server.limits := Server.limits s |}.

(** a client whose request has half arrived *)
Definition part1 : list Z := ascii_bytes "GET /api/health HT".
Definition part2 : list Z := ascii_bytes "TP/1.1" ++ CRLF ++ CRLF.
Definition client : Server.Conn unit :=
  {| Server.stream := tt; Server.read_buf := part1; Server.registered := true; Server.last_active := 0 |}.
Definition serving : DemoServer.server := Server.set_conns srv {[1 := client]} 2.
Definition sends (ends : list (result (list Z) IoError)) : net :=
  {| clock := 0; script := Ok part2 :: ends; written := [] |}.

Lemma sends_blocked : ServerLoop.receives tt (sends []) (part2 ++ []) ServerLoop.Open
  {| clock := 1; script := []; written := [] |} 2.
Proof. eapply ServerLoop.receives_data; [done..|]. eapply ServerLoop.receives_blocked; [done | by left]. Qed.
Lemma sends_ended : ServerLoop.receives tt (sends [Ok []]) (part2 ++ []) ServerLoop.Closed
  {| clock := 1; script := []; written := [] |} 2.
Proof. eapply ServerLoop.receives_data; [done..|]. by eapply ServerLoop.receives_eof. Qed.

Lemma ticked : exists x, ServerLoop.run_once 5 heap0 srv idle 0 50 = Ret x /\
  bool_decide (size (Server.conns x.1.1.1) = 2%nat) = true.
Proof.
  apply (DemoServer.returned _ (fun x => bool_decide (size (Server.conns x.1.1.1) = 2%nat))).
  vm_compute. reflexivity.
Qed.
Lemma parsed : exists req n, Request.parse (Server.read_buf client ++ part2 ++ []) = Ret (Ok (Some (req, n))).
Proof. eexists _, _. vm_compute. reflexivity. Qed.
Definition answered (w : net) : bool := bool_decide (take 15 (written w) = ascii_bytes "HTTP/1.1 200 OK").
Lemma served : exists x, ServerLoop.service_conn 2 serving (sends []) 0 heap0 1 = Ret x /\ answered x.1.2 = true.
Proof. apply (DemoServer.returned _ (fun x => answered x.1.2)). vm_compute. reflexivity. Qed.
Lemma srv_fresh : ServerLoop.fresh srv.
Proof. intros t c H. done. Qed.
End DemoNet.
#[export] Existing Instance DemoNet.os.
#[export] Existing Instance DemoNet.sockets.
#[export] Existing Instance DemoNet.unicode.

Lemma connection_cap_holds_witness : exists s' w' e' n,
  ServerLoop.run_once 5 heap0 DemoNet.srv DemoNet.idle 0 50 = Ret (s', w', e', n) /\
  size (Server.conns s') = 2%nat /\ ServerLoop.capped s'.
Proof.
  destruct DemoNet.ticked as ([[[s' w'] e'] n] & E & Hs). cbn [fst] in Hs.
  destruct (connection_cap_holds 5 heap0 DemoNet.srv DemoNet.idle 0 50 s' w' e' n E) as (_ & _ & Hc).
  exists s', w', e', n. split; [exact E|]. split; [by apply bool_decide_eq_true in Hs|].
  apply Hc. right. vm_compute. discriminate.
Defined.

Lemma accepting_ends_witness : exists s' w',
  ServerLoop.try_accept 3 DemoNet.srv DemoNet.idle = Ret (s', w') /\ Z.of_nat (size (Server.conns s')) <= 2.
Proof.
  destruct (accepting_ends DemoNet.srv DemoNet.idle 2 DemoNet.srv_fresh) as (s' & w' & E & _ & _ & Hs);
    [reflexivity | reflexivity | vm_compute; discriminate | reflexivity |].
  exists s', w'. split; [exact E | exact Hs].
Defined.

(** The same bytes, answered or not by what follows them. *)
Lemma connection_served_witness :
  (exists s1 w1 e1, ServerLoop.service_conn 2 DemoNet.serving (DemoNet.sends []) 0 heap0 1 = Ret (s1, w1, e1) /\
     DemoNet.answered w1 = true /\ Server.conns s1 = delete 1 (Server.conns DemoNet.serving)) /\
  ServerLoop.service_conn 2 DemoNet.serving (DemoNet.sends [Ok []]) 0 heap0 1 =
    Ret (Server.set_conns DemoNet.serving (delete 1 (Server.conns DemoNet.serving)) 2, {| DemoNet.clock := 1; DemoNet.script := []; DemoNet.written := [] |}, 0).
Proof.
  split.
  - destruct DemoNet.served as ([[s1 w1] e1] & E & Ha). cbn [fst snd] in Ha.
    exists s1, w1, e1. split; [exact E|]. split; [exact Ha|].
    destruct DemoNet.parsed as (req & k & Ep).
    pose proof (connection_served 2 DemoNet.serving (DemoNet.sends []) 0 heap0 1 DemoNet.client
      (DemoNet.part2 ++ []) ServerLoop.Open _ 2 eq_refl DemoNet.sends_blocked (le_n 2)) as H.
    cbv beta zeta in H. rewrite Ep in H.
    destruct (ServerLoop.MAX_REQUEST <? _) eqn:Em in H; [vm_compute in Em; discriminate|].
    exact (proj2 H s1 w1 e1 E).
  - exact (connection_served 2 DemoNet.serving (DemoNet.sends [Ok []]) 0 heap0 1 DemoNet.client
      (DemoNet.part2 ++ []) ServerLoop.Closed _ 2 eq_refl DemoNet.sends_ended (le_n 2)).
Defined.
