(* ===== verification/Mavlink.v ===== *)
(** * MAVLink: [tpt-t-hal/src/mavlink.rs]

    The frame parser for both protocol versions, the byte-at-a-time parser around
    it, and the decoders of two messages.  A [f32] field is its bit pattern. *)

From S2P Require Import Prelude Lfsr.

Definition MAVLINK_1_MAGIC : Z := 0xFE.
Definition MAVLINK_2_MAGIC : Z := 0xFD.
Definition MAVLINK_2_SIGNATURE_LEN : nat := 13.
Definition MAVLINK_MAX_PAYLOAD : nat := 255.

(** message id, payload length, crc extra *)
Definition DIALECT : list (Z * Z * Z) :=
  [(0, 9, 50); (30, 28, 39); (33, 28, 104); (1, 31, 124); (24, 12, 167)].

Definition dialect_for (msgid : Z) : option (Z * Z) :=
  (fun e => (e.1.2, e.2)) <$> List.find (fun e => e.1.1 =? msgid) DIALECT.

Definition crc16_bit (crc : Z) : Z :=
  if negb (Z.land crc 1 =? 0) then Z.lxor (Z.shiftr crc 1) 0x8408 else Z.shiftr crc 1.
Definition mav_crc16 (data : list Z) : Z :=
  foldl (fun crc b => Nat.iter 8 crc16_bit (Z.lxor crc b)) 0xFFFF data.

Inductive MavError := Magic | Truncated | Crc.

Record MavFrame := {
  version : Z; seq : Z; sysid : Z; compid : Z; msgid : Z;
  payload_len : Z; payload : list Z; crc : Z; signed : Z
}.

(** [MavFrame::payload] *)
Definition payload_slice (f : MavFrame) : exec (list Z) :=
  range (payload f) 0 (Z.to_nat (payload_len f)).

Definition frame_len (version : Z) (payload_len : nat) (signed : bool) : nat :=
  let header_total := if version =? 1 then 6%nat else 11%nat in
  let sig := if (version =? 2) && signed then MAVLINK_2_SIGNATURE_LEN else 0%nat in
  (header_total + payload_len + 2 + sig)%nat.

Definition version_of (magic : Z) : option Z :=
  if magic =? MAVLINK_1_MAGIC then Some 1
  else if magic =? MAVLINK_2_MAGIC then Some 2 else None.

(** the checksum comparison: only for a known message of the length the dialect gives *)
Definition checksum_ok (msgid payload_len crc : Z) (covered : list Z) : bool :=
  match dialect_for msgid with
  | Some (expected_len, extra) =>
      if expected_len =? payload_len then Z.lxor (mav_crc16 covered) extra =? crc else true
  | None => true
  end.

Definition parse_frame (buf : list Z) : exec (result MavFrame MavError) :=
  match buf with
  | [] => Ret (Err Magic)
  | b0 :: _ =>
      match version_of b0 with
      | None => Ret (Err Magic)
      | Some version =>
          let min_header := if version =? 1 then 2%nat else 3%nat in
          if (length buf <? min_header)%nat then Ret (Err Truncated)
          else
            pl ← index buf 1;
            let payload_len := Z.to_nat pl in
            let header_after := if version =? 1 then 5%nat else 10%nat in
            if (MAVLINK_MAX_PAYLOAD <? payload_len)%nat then Ret (Err Truncated)
            else
              signed ← (if version =? 2 then flags ← index buf 2; Ret (negb (Z.land flags 1 =? 0))
                        else Ret false);
              let total := frame_len version payload_len signed in
              if (length buf <? total)%nat then Ret (Err Truncated)
              else
                let crc_pos := (1 + header_after + payload_len)%nat in
                c0 ← index buf crc_pos;
                c1 ← index buf (crc_pos + 1);
                let crc := le_val [c0; c1] in
                msgid ← (if version =? 1 then index buf 5
                         else
                           m0 ← index buf 7; m1 ← index buf 8; m2 ← index buf 9;
                           Ret (Z.lor (Z.lor m0 (Z.shiftl m1 8)) (Z.shiftl m2 16)));
                covered ← range buf 1 (crc_pos - 1);
                if negb (checksum_ok msgid pl crc covered) then Ret (Err Crc)
                else
                  src ← range buf (1 + header_after) payload_len;
                  payload ← copy_from_slice (replicate MAVLINK_MAX_PAYLOAD 0) 0 src;
                  seq ← index buf (if version =? 1 then 2 else 4);
                  sysid ← index buf (if version =? 1 then 3 else 5);
                  compid ← index buf (if version =? 1 then 4 else 6);
                  Ret (Ok {| version := version; seq := seq; sysid := sysid; compid := compid;
                             msgid := msgid; payload_len := pl; payload := payload; crc := crc;
                             signed := if signed then 1 else 0 |})
      end
  end.

(** ** The streaming parser *)

Record MavParser := { pbuf : list Z; plen : nat }.
Definition BUF_LEN : nat := MAVLINK_MAX_PAYLOAD + 32.

Definition new : MavParser := {| pbuf := replicate BUF_LEN 0; plen := 0 |}.

Definition is_magic (b : Z) : bool := (b =? MAVLINK_1_MAGIC) || (b =? MAVLINK_2_MAGIC).

(** [self.buf[0] = byte; self.len = 1] *)
Definition restart (p : MavParser) (b : Z) : MavParser := {| pbuf := <[0%nat := b]> (pbuf p); plen := 1 |}.
Definition set_len (p : MavParser) (n : nat) : MavParser := {| pbuf := pbuf p; plen := n |}.

Definition feed (p : MavParser) (b : Z) : exec (MavParser * option MavFrame) :=
  if (plen p =? 0)%nat then Ret (if is_magic b then restart p b else p, None)
  else if (1 <? plen p)%nat && is_magic b then Ret (restart p b, None)
  else if (length (pbuf p) <=? plen p)%nat then Ret (set_len p 0, None)
  else
    let p := {| pbuf := <[plen p := b]> (pbuf p); plen := plen p + 1 |} in
    if (2 <=? plen p)%nat then
      b0 ← index (pbuf p) 0;
      let version := if b0 =? MAVLINK_1_MAGIC then 1 else 2 in
      pl ← index (pbuf p) 1;
      signed ← (if version =? 2 then flags ← index (pbuf p) 2; Ret (negb (Z.land flags 1 =? 0))
                else Ret false);
      let total := frame_len version (Z.to_nat pl) signed in
      if (total <=? plen p)%nat then
        bs ← range (pbuf p) 0 total;
        r ← parse_frame bs;
        match r with
        | Err _ => Ret (p, None)
        | Ok frame => Ret (set_len p 0, Some frame)
        end
      else Ret (p, None)
    else Ret (p, None).

(** a transport's bytes fed in order: the frames that came out *)
Fixpoint feed_all (p : MavParser) (bs : list Z) : exec (MavParser * list MavFrame) :=
  match bs with
  | [] => Ret (p, [])
  | b :: bs =>
      '(p, f) ← feed p b;
      '(p, fs) ← feed_all p bs;
      Ret (p, option_list f ++ fs)
  end.

(** ** Messages *)

Record Heartbeat := {
  custom_mode : Z; type_ : Z; autopilot : Z; base_mode : Z; system_status : Z; mavlink_version : Z
}.
Record Attitude := {
  time_boot_ms : Z; roll : Z; pitch : Z; yaw : Z; rollspeed : Z; pitchspeed : Z; yawspeed : Z
}.

Definition le_u32 (b : list Z) (off : nat) : exec Z :=
  b0 ← index b off; b1 ← index b (off + 1); b2 ← index b (off + 2); b3 ← index b (off + 3);
  Ret (le_val [b0; b1; b2; b3]).
(** the bits of [f32::from_le_bytes] *)
Definition le_f32 (b : list Z) (off : nat) : exec Z := le_u32 b off.

Definition decode_heartbeat (f : MavFrame) : exec (option Heartbeat) :=
  if negb (msgid f =? 0) || (payload_len f <? 9) then Ret None
  else
    cm ← le_u32 (payload f) 0;
    ty ← index (payload f) 4; ap ← index (payload f) 5; bm ← index (payload f) 6;
    ss ← index (payload f) 7; mv ← index (payload f) 8;
    Ret (Some {| custom_mode := cm; type_ := ty; autopilot := ap; base_mode := bm;
                 system_status := ss; mavlink_version := mv |}).

Definition decode_attitude (f : MavFrame) : exec (option Attitude) :=
  if negb (msgid f =? 30) || (payload_len f <? 28) then Ret None
  else
    t ← le_u32 (payload f) 0;
    ro ← le_f32 (payload f) 4; pi ← le_f32 (payload f) 8; ya ← le_f32 (payload f) 12;
    rs ← le_f32 (payload f) 16; ps ← le_f32 (payload f) 20; ys ← le_f32 (payload f) 24;
    Ret (Some {| time_boot_ms := t; roll := ro; pitch := pi; yaw := ya;
                 rollspeed := rs; pitchspeed := ps; yawspeed := ys |}).

(** ** Frames on the wire *)

Module Wire.

Record Packet := {
  v2 : bool; flags : Z; compat : Z; wseq : Z; sys : Z; comp : Z; id : Z;
  (** the byte the parser skips between a version-2 message id and the payload *)
  pad : Z;
  body : list Z; wcrc : Z; sig : list Z
}.

Definition is_signed (k : Packet) : bool := v2 k && negb (Z.land (flags k) 1 =? 0).

(** the header after the magic *)
Definition fields (k : Packet) : list Z :=
  let pl := Z.of_nat (length (body k)) in
  if v2 k then [pl; flags k; compat k; wseq k; sys k; comp k] ++ le_bytes 3 (id k) ++ [pad k]
  else [pl; wseq k; sys k; comp k; id k].

Definition covered (k : Packet) : list Z := fields k ++ body k.
Definition magic (k : Packet) : Z := if v2 k then MAVLINK_2_MAGIC else MAVLINK_1_MAGIC.
Definition wire (k : Packet) : list Z := magic k :: covered k ++ le_bytes 2 (wcrc k) ++ sig k.

Record wf (k : Packet) : Prop := {
  wf_fields : bytes [flags k; compat k; wseq k; sys k; comp k; pad k];
  wf_id : uint (if v2 k then 24 else 8) (id k);
  wf_body : bytes (body k);
  wf_len : (length (body k) <= MAVLINK_MAX_PAYLOAD)%nat;
  wf_crc : uint 16 (wcrc k);
  wf_sig : length (sig k) = if is_signed k then MAVLINK_2_SIGNATURE_LEN else 0%nat
}.

Definition frame_of (k : Packet) : MavFrame :=
  {| version := if v2 k then 2 else 1; seq := wseq k; sysid := sys k; compid := comp k; msgid := id k;
     payload_len := Z.of_nat (length (body k));
     payload := body k ++ replicate (MAVLINK_MAX_PAYLOAD - length (body k)) 0;
     crc := wcrc k; signed := if is_signed k then 1 else 0 |}.

Definition accepted (k : Packet) : bool :=
  checksum_ok (id k) (Z.of_nat (length (body k))) (wcrc k) (covered k).

Lemma length_wire k : wf k ->
  length (wire k) = frame_len (if v2 k then 2 else 1) (length (body k)) (is_signed k).
Proof.
  intros H. pose proof (wf_sig _ H) as Hs. unfold is_signed in *.
  unfold wire, covered, fields, frame_len. destruct (v2 k); cbn in *;
    rewrite !length_app; cbn; [destruct (negb _)|]; unfold MAVLINK_2_SIGNATURE_LEN in *; lia.
Qed.

Lemma or_bytes3 z : uint 24 z ->
  Z.lor (Z.lor (z mod 256) (Z.shiftl (z / 256 mod 256) 8)) (Z.shiftl (z / 256 / 256 mod 256) 16) = z.
Proof.
  intros Hz. pose proof (Z.mod_pos_bound z 256 ltac:(lia)) as H0.
  pose proof (Z.mod_pos_bound (z / 256) 256 ltac:(lia)) as H1.
  rewrite (lor_disjoint 8) by (unfold uint; lia). rewrite (lor_disjoint 16) by (unfold uint; lia).
  pose proof (le_val_bytes_id 3 z Hz) as E. cbn [le_bytes le_val] in E. lia.
Qed.

(** the length of the header after the magic *)
Definition header_after (k : Packet) : nat := if v2 k then 10 else 5.

Lemma length_fields k : length (fields k) = header_after k.
Proof. unfold fields, header_after. by destruct (v2 k). Qed.

Section Pieces.
Variables (k : Packet) (rest : list Z).
Abbreviation buf := (wire k ++ rest).

Lemma wire_split :
  buf = [magic k] ++ fields k ++ body k ++ le_bytes 2 (wcrc k) ++ sig k ++ rest.
Proof. unfold wire, covered. cbn [app]. by rewrite <- !app_assoc. Qed.

Lemma index_header i x : (magic k :: fields k) !! i = Some x -> index buf i = Ret x.
Proof.
  intros Hx. unfold index. rewrite wire_split, app_assoc, lookup_app_l; [by cbn [app]; rewrite Hx|].
  by apply lookup_lt_Some in Hx.
Qed.

Lemma range_covered : range buf 1 (header_after k + length (body k)) = Ret (covered k).
Proof.
  rewrite wire_split, (app_assoc (fields k)). apply range_mid; [done|].
  unfold covered. by rewrite length_app, length_fields.
Qed.

Lemma range_body : range buf (1 + header_after k) (length (body k)) = Ret (body k).
Proof.
  rewrite wire_split, (app_assoc [magic k]). apply range_mid; [|done].
  by rewrite length_app, length_fields.
Qed.

Lemma index_crc i x : le_bytes 2 (wcrc k) !! i = Some x ->
  index buf (1 + header_after k + length (body k) + i) = Ret x.
Proof.
  intros Hx. pose proof (lookup_lt_Some _ _ _ Hx) as Hi.
  unfold index. rewrite wire_split, !app_assoc, <- (app_assoc _ (sig k)).
  rewrite lookup_app_l by (rewrite !length_app, length_fields; cbn [length]; lia).
  rewrite lookup_app_r by (rewrite !length_app, length_fields; cbn [length]; lia).
  replace (_ - _)%nat with i by (rewrite !length_app, length_fields; cbn [length]; lia). by rewrite Hx.
Qed.

Abbreviation ver := (if v2 k then 2 else 1).

Lemma read_signed :
  (if ver =? 2 then flags ← index buf 2; Ret (negb (Z.land flags 1 =? 0)) else Ret false) = Ret (is_signed k).
Proof.
  unfold is_signed. destruct (v2 k) eqn:E2; [|done]. cbn [Z.eqb Pos.eqb].
  rewrite (index_header 2 (flags k)); [done|]. unfold fields. by rewrite E2.
Qed.

Lemma read_msgid : wf k ->
  (if ver =? 1 then index buf 5
   else m0 ← index buf 7; m1 ← index buf 8; m2 ← index buf 9;
        Ret (Z.lor (Z.lor m0 (Z.shiftl m1 8)) (Z.shiftl m2 16))) = Ret (id k).
Proof.
  intros H. pose proof (wf_id k H) as Hid. destruct (v2 k) eqn:E2; cbn [Z.eqb Pos.eqb].
  - rewrite (index_header 7 (id k mod 256)), (index_header 8 (id k / 256 mod 256)),
      (index_header 9 (id k / 256 / 256 mod 256)) by (unfold fields; by rewrite E2).
    cbn [mbind exec_bind]. f_equal. by apply or_bytes3.
  - apply index_header. unfold fields. by rewrite E2.
Qed.

Lemma read_crc : wf k ->
  (c0 ← index buf (1 + header_after k + length (body k));
   c1 ← index buf (1 + header_after k + length (body k) + 1); Ret (le_val [c0; c1])) = Ret (wcrc k).
Proof.
  intros H. rewrite <- (Nat.add_0_r (1 + _ + _)) at 1.
  rewrite (index_crc 0 (wcrc k mod 256)), (index_crc 1 (wcrc k / 256 mod 256)) by done.
  cbn [mbind exec_bind]. f_equal. apply (le_val_bytes_id 2). apply (wf_crc k H).
Qed.

End Pieces.

Lemma version_magic k : version_of (magic k) = Some (if v2 k then 2 else 1).
Proof. unfold magic. by destruct (v2 k). Qed.

Lemma frame_len_ge v n b : (8 <= frame_len v n b)%nat.
Proof. unfold frame_len. destruct (v =? 1), ((v =? 2) && b); lia. Qed.

(** the parser on a buffer that starts with a packet *)
Lemma parse_wire k rest : wf k ->
  parse_frame (wire k ++ rest) = Ret (if accepted k then Ok (frame_of k) else Err Crc).
Proof.
  intros H. pose proof (length_wire k H) as Hlen.
  pose proof (frame_len_ge (if v2 k then 2 else 1) (length (body k)) (is_signed k)) as Hge.
  unfold parse_frame. remember (wire k ++ rest) as buf eqn:Eb. destruct buf as [|b0 buf']; [done|].
  replace b0 with (magic k) at 1 by (by injection Eb). rewrite version_magic, Eb.
  assert (Hl : (length (wire k) <= length (wire k ++ rest))%nat) by (rewrite length_app; lia).
  rewrite (proj2 (Nat.ltb_ge _ _)) by (destruct (v2 k); cbn [Z.eqb Pos.eqb]; lia).
  rewrite (index_header k rest 1 (Z.of_nat (length (body k)))) by (unfold fields; by destruct (v2 k)).
  cbn [mbind exec_bind]. rewrite Nat2Z.id, (proj2 (Nat.ltb_ge _ _)) by apply (wf_len k H).
  rewrite read_signed. cbn [mbind exec_bind]. rewrite (proj2 (Nat.ltb_ge _ _)) by lia.
  replace (if (if v2 k then 2 else 1) =? 1 then 5%nat else 10%nat) with (header_after k)
    by (unfold header_after; by destruct (v2 k)).
  pose proof (read_crc k rest H) as Hc. apply bind_ret_inv in Hc as (c0 & E0 & Hc).
  apply bind_ret_inv in Hc as (c1 & E1 & [= Ec]). rewrite E0, E1. cbn [mbind exec_bind].
  rewrite (read_msgid k rest H). cbn [mbind exec_bind].
  replace (1 + header_after k + length (body k) - 1)%nat with (header_after k + length (body k))%nat by lia.
  rewrite range_covered. cbn [mbind exec_bind].
  replace (le_val [c0; c1]) with (wcrc k) by (by rewrite <- Ec).
  unfold accepted. destruct (checksum_ok _ _ _ _); [|done]. cbn [negb].
  rewrite range_body. cbn [mbind exec_bind]. rewrite copy_zeros_0 by apply (wf_len k H). cbn [mbind exec_bind].
  rewrite (index_header k rest (if (if v2 k then 2 else 1) =? 1 then 2 else 4) (wseq k)),
    (index_header k rest (if (if v2 k then 2 else 1) =? 1 then 3 else 5) (sys k)),
    (index_header k rest (if (if v2 k then 2 else 1) =? 1 then 4 else 6) (comp k))
    by (unfold fields; by destruct (v2 k)).
  done.
Qed.

End Wire.

(** ** Every buffer *)

Module Buffers.
Import Wire.

Lemma split_at {A} (l : list A) n m : (n + m <= length l)%nat ->
  exists a b c, l = a ++ b ++ c /\ length a = n /\ length b = m.
Proof.
  intros Hl. exists (take n l), (take m (drop n l)), (drop m (drop n l)).
  rewrite !take_drop. split; [done|]. autorewrite with len. lia.
Qed.

(** what remains of a buffer after a header that announces it: payload, checksum,
    signature, and the rest *)
Lemma split_tail (tl : list Z) (pl n : nat) : bytes tl -> (pl + 2 + n <= length tl)%nat ->
  exists bd c sg rest, tl = bd ++ le_bytes 2 c ++ sg ++ rest /\
    length bd = pl /\ length sg = n /\ bytes bd /\ uint 16 c.
Proof.
  intros Hb Hl. destruct (split_at tl pl 2) as (bd & cs & t & -> & Hbd & Hcs); [lia|].
  rewrite !length_app in Hl. destruct (split_at t 0 n) as (e & sg & rest & -> & He & Hsg); [lia|].
  destruct e; [|done]. apply Forall_app in Hb as [Hb1 Hb]. apply Forall_app in Hb as [Hb2 _].
  exists bd, (le_val cs), sg, rest. rewrite <- Hcs, le_bytes_val by done. split; [done|].
  split; [done|]. split; [done|]. split; [done|]. change 16 with (8 * Z.of_nat 2). rewrite <- Hcs.
  by apply le_val_uint.
Qed.

Ltac bytes_tac := repeat (apply Forall_cons; split; [first [done | unfold byte, uint; lia]|]); apply Forall_nil_2.

Lemma byte_nat z : byte z -> Z.of_nat (Z.to_nat z) = z /\ (Z.to_nat z <= MAVLINK_MAX_PAYLOAD)%nat.
Proof. unfold byte, uint, MAVLINK_MAX_PAYLOAD. lia. Qed.

(** A buffer with no packet at its start is refused for its first byte or its length. *)
Lemma parse_cases buf : bytes buf ->
  (exists k rest, wf k /\ buf = wire k ++ rest) \/
  parse_frame buf = Ret (Err Magic) \/ parse_frame buf = Ret (Err Truncated).
Proof.
  intros Hb. destruct buf as [|b0 buf]; [by right; left|]. cbn [parse_frame].
  unfold version_of.
  destruct (Z.eqb_spec b0 MAVLINK_1_MAGIC) as [->|]; [|destruct (Z.eqb_spec b0 MAVLINK_2_MAGIC) as [->|]];
    [| |by right; left]; apply Forall_cons in Hb as [_ Hb]; cbn [Z.eqb Pos.eqb andb].
  - case_if; [by right; right|]. apply Nat.ltb_ge in Heqb. destruct buf as [|pl buf]; [cbn in Heqb; lia|].
    apply Forall_cons in Hb as [Hpl Hb]. destruct (byte_nat pl Hpl) as [Ep Hle].
    cbn [index lookup list_lookup mbind exec_bind].
    rewrite (proj2 (Nat.ltb_ge _ _)) by done.
    case_if; [by right; right|]. apply Nat.ltb_ge in Heqb0. unfold frame_len in Heqb0. cbn in Heqb0.
    destruct buf as [|s [|sy [|c [|m tl]]]]; try (cbn in Heqb0; lia).
    do 4 (apply Forall_cons in Hb as [? Hb]).
    destruct (split_tail tl (Z.to_nat pl) 0 Hb) as (bd & cr & sg & rest & -> & Hbd & Hsg & Hbb & Hcr); [cbn in Heqb0; lia|].
    destruct sg; [|done]. left.
    exists {| v2 := false; flags := 0; compat := 0; wseq := s; sys := sy; comp := c; id := m; pad := 0;
              body := bd; wcrc := cr; sig := [] |}, rest.
    split; [split; cbn; try done; [bytes_tac | lia]|].
    unfold wire, covered, fields. cbn [v2 body wseq sys comp id wcrc sig magic]. rewrite Hbd, Ep. cbn.
    by rewrite <- !app_assoc.
  - case_if; [by right; right|]. apply Nat.ltb_ge in Heqb.
    destruct buf as [|pl [|fl buf]]; try (cbn in Heqb; lia).
    do 2 (apply Forall_cons in Hb as [? Hb]). destruct (byte_nat pl) as [Ep Hle]; [done|].
    cbn [index lookup list_lookup mbind exec_bind].
    rewrite (proj2 (Nat.ltb_ge _ _)) by done.
    case_if; [by right; right|]. apply Nat.ltb_ge in Heqb0. unfold frame_len in Heqb0. cbn in Heqb0.
    destruct buf as [|cf [|s [|sy [|c [|m0 [|m1 [|m2 [|pd tl]]]]]]]]; try (cbn in Heqb0; lia).
    do 8 (apply Forall_cons in Hb as [? Hb]).
    set (ns := if negb (Z.land fl 1 =? 0) then 13%nat else 0%nat).
    destruct (split_tail tl (Z.to_nat pl) ns Hb) as (bd & cr & sg & rest & -> & Hbd & Hsg & Hbb & Hcr);
      [subst ns; unfold MAVLINK_2_SIGNATURE_LEN in Heqb0; cbn in Heqb0; lia|]. left.
    exists {| v2 := true; flags := fl; compat := cf; wseq := s; sys := sy; comp := c; id := le_val [m0; m1; m2];
              pad := pd; body := bd; wcrc := cr; sig := sg |}, rest.
    assert (Hm : bytes [m0; m1; m2]) by bytes_tac.
    split; [split; cbn [v2 flags compat wseq sys comp id pad body wcrc sig]; try done;
            [bytes_tac | apply (le_val_uint [m0; m1; m2] Hm) | lia]|].
    unfold wire, covered, fields. cbn [v2 flags compat body wseq sys comp id pad wcrc sig magic].
    pose proof (le_bytes_val _ Hm) as El. change (length [m0; m1; m2]) with 3%nat in El.
    rewrite Hbd, Ep, El. cbn [app]. by rewrite <- !app_assoc.
Qed.

End Buffers.

(** ** The checksum *)

Abbreviation POLY16 := 0x8408.

Lemma crc16_bit_lfsr c : crc16_bit c = lfsr_step POLY16 c.
Proof. unfold crc16_bit, lfsr_step. by rewrite Z.lxor_comm. Qed.

Lemma crc16_lfsr data : mav_crc16 data = foldl (lfsr_byte POLY16) 0xFFFF data.
Proof.
  unfold mav_crc16. generalize 0xFFFF. induction data as [|b data IH]; intros c; [done|].
  cbn [foldl]. rewrite IH. f_equal. unfold lfsr_byte, lfsr_steps.
  generalize (Z.lxor c b). intros x. generalize 8%nat. intros n. induction n as [|n IHn]; [done|]. simpl. by rewrite IHn, crc16_bit_lfsr.
Qed.

Lemma crc16_byte_error pre a b post :
  bytes pre -> bytes post -> byte a -> byte b -> a <> b ->
  mav_crc16 (pre ++ a :: post) <> mav_crc16 (pre ++ b :: post).
Proof.
  intros. rewrite !crc16_lfsr. apply lfsr_byte_error with (w := 16); try done; split; vm_compute; congruence.
Qed.

(** ** The streaming parser *)

Record parser_wf (p : MavParser) : Prop := {
  pw_len : length (pbuf p) = BUF_LEN; pw_bytes : bytes (pbuf p); pw_plen : (plen p <= BUF_LEN)%nat
}.

(** [p] has captured [pre] *)
Definition captured (p : MavParser) (pre : list Z) : Prop :=
  parser_wf p /\ plen p = length pre /\ take (length pre) (pbuf p) = pre.

Lemma new_wf : parser_wf new.
Proof. split; [by apply length_replicate | by apply Forall_replicate | cbn; lia]. Qed.

Lemma restart_captured p b : parser_wf p -> byte b -> captured (restart p b) [b].
Proof.
  intros [Hl Hb Hp] Hbb. destruct p as [[|x pb] n]; [done|]. split; [|done]. apply Forall_cons in Hb as [_ Hb].
  split; cbn; [done | by constructor | unfold BUF_LEN; lia].
Qed.

Lemma captured_snoc p pre b : captured p pre -> byte b -> (length pre < BUF_LEN)%nat ->
  captured {| pbuf := <[plen p := b]> (pbuf p); plen := plen p + 1 |} (pre ++ [b]).
Proof.
  intros ([Hl Hb Hp] & Hn & Ht) Hbb Hlt. split; [split|split]; cbn [pbuf plen].
  - by rewrite length_insert.
  - by apply Forall_insert.
  - lia.
  - rewrite length_app. cbn [length]. lia.
  - rewrite Hn, length_app. cbn [length]. rewrite insert_take_drop by lia. rewrite Ht.
    replace (pre ++ b :: drop (S (length pre)) (pbuf p)) with ((pre ++ [b]) ++ drop (S (length pre)) (pbuf p))
      by (by rewrite <- app_assoc).
    rewrite take_app_length'; [done|]. rewrite length_app. cbn [length]. lia.
Qed.

Lemma captured_index p pre i x : captured p pre -> pre !! i = Some x -> index (pbuf p) i = Ret x.
Proof.
  intros (_ & _ & Ht) Hx. unfold index. rewrite <- Ht in Hx.
  rewrite lookup_take in Hx. case_decide; [|done]. by rewrite Hx.
Qed.

(** the length of the frame that a captured prefix announces, once its third byte is in *)
Definition announced (pre : list Z) : nat :=
  let version := if nth 0 pre 0 =? MAVLINK_1_MAGIC then 1 else 2 in
  frame_len version (Z.to_nat (nth 1 pre 0)) (negb (Z.land (nth 2 pre 0) 1 =? 0)).

Lemma nth_index p pre i : captured p pre -> (i < length pre)%nat -> index (pbuf p) i = Ret (nth i pre 0).
Proof.
  intros Hc Hi. eapply captured_index; [done|]. destruct (lookup_lt_is_Some_2 pre i Hi) as [x Hx].
  by rewrite (nth_lookup_Some _ _ _ _ Hx).
Qed.

(** one byte into an unfinished capture *)
Lemma feed_more p pre b : captured p pre -> pre <> [] -> byte b -> (length pre < BUF_LEN)%nat ->
  (length pre = 1%nat \/ is_magic b = false) ->
  let pre' := pre ++ [b] in
  exists p', captured p' pre' /\
    ((length pre' < 3 \/ length pre' < announced pre')%nat -> feed p b = Ret (p', None)) /\
    ((3 <= length pre')%nat -> announced pre' = length pre' ->
       forall r, parse_frame pre' = Ret r ->
       feed p b = Ret (match r with Ok f => (set_len p' 0, Some f) | Err _ => (p', None) end)).
Proof.
  intros Hc Hne Hb Hl Hm pre'. assert (Hpl : plen p = length pre) by apply Hc.
  assert (Hlen : length (pbuf p) = BUF_LEN) by apply Hc.
  pose proof (captured_snoc p pre b Hc Hb Hl) as Hc'.
  set (p' := {| pbuf := _; plen := _ |}) in Hc'. exists p'. split; [done|].
  assert (Hp' : plen p' = length pre') by apply Hc'.
  assert (Hge : (2 <= length pre')%nat) by (subst pre'; rewrite length_app; destruct pre; cbn in *; [done|lia]).
  unfold feed. rewrite (proj2 (Nat.eqb_neq _ _)) by (destruct pre; [done|cbn in Hpl; lia]).
  replace ((1 <? plen p)%nat && is_magic b) with false
    by (destruct Hm as [Hm | ->]; [by rewrite Hpl, Hm | by rewrite andb_false_r]).
  rewrite (proj2 (Nat.leb_gt _ _)) by lia. fold p'. cbv zeta.
  rewrite (proj2 (Nat.leb_le _ _)) by lia.
  rewrite (nth_index p' pre' 0 Hc'), (nth_index p' pre' 1 Hc') by lia. cbn [mbind exec_bind].
  set (v := if nth 0 pre' 0 =? MAVLINK_1_MAGIC then 1 else 2).
  assert (Hv : v = 1 \/ v = 2) by (subst v; case_if; auto).
  destruct (Nat.lt_ge_cases (length pre') 3) as [H3|H3].
  - destruct (lookup_lt_is_Some_2 (pbuf p') 2) as [x Hx];
      [destruct Hc' as ([-> _ _] & _); unfold BUF_LEN, MAVLINK_MAX_PAYLOAD; lia|].
    assert (Hs : exists sg, (if v =? 2 then flags ← index (pbuf p') 2; Ret (negb (Z.land flags 1 =? 0))
      else Ret false) = Ret sg) by (unfold index; rewrite Hx; case_if; eauto).
    destruct Hs as [sg ->]. cbn [mbind exec_bind].
    pose proof (Wire.frame_len_ge v (Z.to_nat (nth 1 pre' 0)) sg).
    rewrite (proj2 (Nat.leb_gt _ _)) by lia. split; [done | lia].
  - assert (Hs : (if v =? 2 then flags ← index (pbuf p') 2; Ret (negb (Z.land flags 1 =? 0)) else Ret false) =
      Ret ((v =? 2) && negb (Z.land (nth 2 pre' 0) 1 =? 0))).
    { destruct Hv as [-> | ->]; cbn [Z.eqb Pos.eqb andb]; [done|]. by rewrite (nth_index p' pre' 2 Hc'). }
    rewrite Hs. cbn [mbind exec_bind].
    replace (frame_len v _ _) with (announced pre')
      by (unfold announced; fold v; destruct Hv as [-> | ->]; done).
    rewrite Hp'. split.
    + intros [?|Hlt]; [lia|]. by rewrite (proj2 (Nat.leb_gt _ _)).
    + intros _ -> r Hr. rewrite Nat.leb_refl. unfold range.
      rewrite decide_True by (destruct Hc' as ([-> _ _] & _); subst pre'; rewrite length_app; cbn [length]; lia).
      rewrite drop_0. replace (take (length pre') (pbuf p')) with pre' by (symmetry; apply Hc').
      cbn [mbind exec_bind]. rewrite Hr. by destruct r.
Qed.

Lemma feed_all_app p bs1 bs2 :
  feed_all p (bs1 ++ bs2) =
  ('(p, fs1) ← feed_all p bs1; '(p, fs2) ← feed_all p bs2; Ret (p, fs1 ++ fs2)).
Proof.
  revert p. induction bs1 as [|b bs1 IH]; intros p; cbn [feed_all app].
  - cbn [mbind exec_bind]. by destruct (feed_all p bs2) as [[p' fs]| | |].
  - destruct (feed p b) as [[p' f]| | |]; cbn [mbind exec_bind]; try done. rewrite IH.
    destruct (feed_all p' bs1) as [[p1 fs1]| | |]; cbn [mbind exec_bind]; try done.
    destruct (feed_all p1 bs2) as [[p2 fs2]| | |]; cbn [mbind exec_bind]; try done.
    by rewrite app_assoc.
Qed.

(** the first byte of a frame, idle or captured past the second byte *)
Lemma feed_first p b : parser_wf p -> plen p <> 1%nat -> is_magic b = true -> byte b ->
  exists p', feed p b = Ret (p', None) /\ captured p' [b].
Proof.
  intros Hp Hn Hm Hb. exists (restart p b). split; [|by apply restart_captured].
  unfold feed. destruct (Nat.eqb_spec (plen p) 0); [by rewrite Hm|].
  by rewrite (proj2 (Nat.ltb_lt _ _)), Hm by lia.
Qed.

(** a proper prefix of a frame is captured without a word *)
Lemma feed_prefix p fr n : parser_wf p -> plen p <> 1%nat -> bytes fr -> (length fr <= BUF_LEN)%nat ->
  is_magic (nth 0 fr 0) = true -> (forall i b, (2 <= i < n)%nat -> fr !! i = Some b -> is_magic b = false) ->
  announced fr = length fr -> (1 <= n < length fr)%nat ->
  exists p', feed_all p (take n fr) = Ret (p', []) /\ captured p' (take n fr).
Proof.
  intros Hp Hp1 Hb Hl Hm Hq Ha [H1 Hn]. induction n as [|n IH]; [lia|].
  destruct (lookup_lt_is_Some_2 fr n) as [b Eb]; [lia|].
  assert (Hbb : byte b) by exact (Forall_lookup_1 _ _ _ _ Hb Eb).
  rewrite (take_S_r _ _ _ Eb). destruct n as [|n].
  - rewrite take_0. cbn [app feed_all]. apply nth_lookup_Some with (d := 0) in Eb. rewrite Eb in Hm.
    destruct (feed_first p b Hp Hp1 Hm Hbb) as (p' & -> & Hc). by exists p'.
  - destruct IH as (p1 & E1 & Hc); [intros i c Hi; apply Hq; lia | lia | lia |]. rewrite feed_all_app, E1. cbn [mbind exec_bind feed_all].
    assert (Hlt : length (take (S n) fr) = S n) by (rewrite length_take; lia).
    destruct (feed_more p1 (take (S n) fr) b Hc) as (p' & Hc' & Hno & _); [by destruct fr | done | lia | |].
    { destruct n; [by left|right]. apply (Hq (S (S n))); [lia | done]. }
    rewrite Hno; [by exists p'|]. rewrite length_app, Hlt. cbn [length].
    destruct (Nat.lt_ge_cases (S n + 1) 3); [by left|right].
    assert (E : announced (take (S n) fr ++ [b]) = announced fr).
    { rewrite <- (take_S_r _ _ _ Eb). unfold announced.
      by rewrite !nth_lookup, !lookup_take_lt by lia. }
    rewrite E, Ha. lia.
Qed.

Lemma announced_le fr : bytes fr -> (announced fr <= 281)%nat.
Proof.
  intros Hb. assert (Hpl : byte (nth 1 fr 0)).
  { destruct (nth_in_or_default 1 fr 0) as [Hin| ->]; [|split; lia].
    apply list_elem_of_In in Hin. exact (proj1 (Forall_forall _ _) Hb _ Hin). }
  unfold announced, frame_len, MAVLINK_2_SIGNATURE_LEN, byte, uint in *. change (2 ^ 8) with 256 in Hpl.
  repeat case_if; lia.
Qed.

Lemma mav_parse_total buf : bytes buf -> exists r, parse_frame buf = Ret r.
Proof.
  intros Hb. destruct (Buffers.parse_cases buf Hb) as [(k & rest & Hk & ->)|[H|H]]; [|by eexists..].
  rewrite (Wire.parse_wire k rest Hk). by eexists.
Qed.

Lemma fields_bytes k : Wire.wf k -> bytes (Wire.fields k).
Proof.
  intros H. pose proof (Wire.wf_fields k H) as F. repeat apply Forall_cons in F as [? F].
  pose proof (Wire.wf_len k H) as L. assert (byte (Z.of_nat (length (Wire.body k))))
    by (unfold byte, uint, MAVLINK_MAX_PAYLOAD in *; lia).
  pose proof (Wire.wf_id k H) as Hi. unfold Wire.fields. destruct (Wire.v2 k).
  - apply Forall_app. split; [by Buffers.bytes_tac|].
    apply Forall_app. split; [apply le_bytes_bytes | by Buffers.bytes_tac].
  - by Buffers.bytes_tac.
Qed.

(** ** The checksum as MAVLink defines it

    CRC-16/MCRF4XX in the usual parameters: width 16, polynomial [0x1021], initial
    value [0xFFFF], input bytes and result reflected. *)

Module Mcrf4xx.
(** the [w] low bits in reverse *)
Definition reflect (w z : Z) : Z :=
  foldr (fun i acc => Z.lxor (if Z.testbit z i then 2 ^ (w - 1 - i) else 0) acc) 0 (seqZ 0 w).
(** a register of 16 bits shifted left *)
Definition step (c : Z) : Z :=
  let c' := Z.land (Z.shiftl c 1) 0xFFFF in if Z.testbit c 15 then Z.lxor c' 0x1021 else c'.
Definition next (c b : Z) : Z := Nat.iter 8 step (Z.lxor c (Z.shiftl (reflect 8 b) 8)).
Definition checksum (data : list Z) : Z := reflect 16 (foldl next 0xFFFF data).

(** the check value of the catalogues *)
Example check_value : checksum [49; 50; 51; 52; 53; 54; 55; 56; 57] = 0x6F91.
Proof. vm_compute. reflexivity. Qed.

Lemma reflect_lxor w a b : reflect w (Z.lxor a b) = Z.lxor (reflect w a) (reflect w b).
Proof.
  unfold reflect. induction (seqZ 0 w) as [|i l IH]; [done|]. cbn [foldr]. rewrite IH, Z.lxor_spec.
  set (x := foldr _ 0 l). set (y := foldr _ 0 l). set (p := 2 ^ _).
  destruct (Z.testbit a i), (Z.testbit b i); cbn [xorb]; rewrite ?Z.lxor_0_l.
  - rewrite (Z.lxor_comm p x), Z.lxor_assoc, <- (Z.lxor_assoc p p y), Z.lxor_nilpotent, Z.lxor_0_l. done.
  - by rewrite Z.lxor_assoc.
  - rewrite <- !Z.lxor_assoc. by rewrite (Z.lxor_comm x p).
  - done.
Qed.

(** a property of all numbers of [w] bits is checked by running through them *)
Fixpoint all_bits (w : nat) (P : Z -> bool) : bool :=
  match w with
  | O => P 0
  | S w => all_bits w (fun z => P (2 * z)) && all_bits w (fun z => P (2 * z + 1))
  end.
Lemma all_bits_uint (w : nat) (P : Z -> bool) : all_bits w P = true -> forall z, uint (Z.of_nat w) z -> P z = true.
Proof.
  revert P. induction w as [|w IH]; intros P H z [H0 H1].
  - change (2 ^ Z.of_nat 0) with 1 in H1. by replace z with 0 by lia.
  - cbn [all_bits] in H. apply andb_true_iff in H as [Ha Hb].
    rewrite Nat2Z.inj_succ, Z.pow_succ_r in H1 by lia. pose proof (Z.div_mod z 2) as E.
    assert (Hu : uint (Z.of_nat w) (z / 2)) by (split; [apply Z.div_pos; lia | apply Z.div_lt_upper_bound; lia]).
    pose proof (Z.mod_pos_bound z 2). assert (Hc : z mod 2 = 0 \/ z mod 2 = 1) by lia.
    destruct Hc as [Hc|Hc].
    + replace z with (2 * (z / 2)) by lia. exact (IH _ Ha _ Hu).
    + replace z with (2 * (z / 2) + 1) by lia. exact (IH _ Hb _ Hu).
Qed.

Lemma reflect_step c : uint 16 c -> reflect 16 (crc16_bit c) = step (reflect 16 c).
Proof.
  intros Hc. apply Z.eqb_eq. revert c Hc.
  apply (all_bits_uint 16 (fun c => reflect 16 (crc16_bit c) =? step (reflect 16 c))). vm_compute. reflexivity.
Qed.
Lemma reflect_involutive c : uint 16 c -> reflect 16 (reflect 16 c) = c.
Proof.
  intros Hc. apply Z.eqb_eq. revert c Hc.
  apply (all_bits_uint 16 (fun c => reflect 16 (reflect 16 c) =? c)). vm_compute. reflexivity.
Qed.
Lemma reflect_byte b : byte b -> reflect 16 b = Z.shiftl (reflect 8 b) 8.
Proof.
  intros Hb. apply Z.eqb_eq. revert b Hb.
  apply (all_bits_uint 8 (fun b => reflect 16 b =? Z.shiftl (reflect 8 b) 8)). vm_compute. reflexivity.
Qed.

Lemma poly16_uint : uint 16 POLY16.
Proof. by split. Qed.

Lemma reflect_next c b : uint 16 c -> byte b ->
  reflect 16 (lfsr_byte POLY16 c b) = next (reflect 16 c) b /\ uint 16 (lfsr_byte POLY16 c b).
Proof.
  intros Hc Hb. unfold next. rewrite <- reflect_byte, <- reflect_lxor by done.
  assert (Hx : uint 16 (Z.lxor c b)) by (apply uint_lxor; [lia | done | apply byte_uint; [lia | done]]).
  unfold lfsr_byte, lfsr_steps. revert Hx. generalize (Z.lxor c b). intros x Hx. generalize 8%nat. intros n.
  assert (G : reflect 16 (Nat.iter n (lfsr_step POLY16) x) = Nat.iter n step (reflect 16 x) /\
    uint 16 (Nat.iter n (lfsr_step POLY16) x)); [|done].
  induction n as [|n [IH Hu]]; [done|]. rewrite !Nat.iter_succ, <- IH, <- crc16_bit_lfsr.
  split; [by apply reflect_step|]. rewrite crc16_bit_lfsr. apply lfsr_step_uint; [done | by apply poly16_uint | done].
Qed.

(** The bitwise loop of the code computes it. *)
Lemma mav_crc16_is_checksum data : bytes data -> mav_crc16 data = checksum data.
Proof.
  intros Hb. rewrite crc16_lfsr. unfold checksum.
  assert (G : forall c, uint 16 c -> reflect 16 (foldl (lfsr_byte POLY16) c data) = foldl next (reflect 16 c) data /\
    uint 16 (foldl (lfsr_byte POLY16) c data)).
  { induction Hb as [|b data Hb _ IH]; intros c Hc; [done|]. cbn [foldl].
    destruct (reflect_next c b Hc Hb) as [E Hu]. rewrite <- E. by apply IH. }
  destruct (G 0xFFFF) as [E Hu]; [by split|].
  change (reflect 16 0xFFFF) with 0xFFFF in E. rewrite <- E. by rewrite reflect_involutive.
Qed.
End Mcrf4xx.

(** what the checksum field must hold: for a message of the dialect with the payload
    length of the dialect the checksum of header and payload, combined with the
    message's extra byte; for any other packet nothing is required *)
Definition checksum_agrees (k : Wire.Packet) : Prop :=
  forall len extra, dialect_for (Wire.id k) = Some (len, extra) -> len = Z.of_nat (length (Wire.body k)) ->
    Wire.wcrc k = Z.lxor (Mcrf4xx.checksum (Wire.covered k)) extra.

Lemma accepted_agrees k : Wire.wf k -> Wire.accepted k = true <-> checksum_agrees k.
Proof.
  intros H. unfold Wire.accepted, checksum_ok, checksum_agrees.
  rewrite Mcrf4xx.mav_crc16_is_checksum.
  2:{ apply Forall_app. split; [by apply fields_bytes | by apply Wire.wf_body]. }
  destruct (dialect_for (Wire.id k)) as [[len extra]|]; [|by split].
  destruct (Z.eqb_spec len (Z.of_nat (length (Wire.body k)))) as [E|E].
  - rewrite Z.eqb_eq. split; [intros <- l e [= <- <-] _; done | intros Ha; symmetry; by apply (Ha len extra)].
  - split; [|done]. intros _ l e [= <- <-] ?. done.
Qed.

(** ** Theorems *)

(** C28: What the frame parser accepts.  On any bytes [parse_frame] returns without
    panicking, and it returns a frame exactly when the buffer starts with a packet, as
    the code lays it out (magic, header, payload of the announced length, checksum, and
    for a flagged version-2 packet a signature), and, if the message is in the built-in
    dialect and has the dialect's payload length, the checksum is the CRC-16/MCRF4XX of
    header and payload combined with the message's extra byte.  A packet of any other
    message or length is returned whatever its checksum.  The frame has the packet's
    fields, and what follows the packet has no influence. *)
Theorem mav_parse_exact (buf : list Z) : bytes buf ->
  exists r, parse_frame buf = Ret r /\
    forall f, r = Ok f <-> exists k rest, Wire.wf k /\ buf = Wire.wire k ++ rest /\
                             checksum_agrees k /\ f = Wire.frame_of k.
Proof.
  intros Hb. destruct (Buffers.parse_cases buf Hb) as [(k & rest & Hk & ->)|He].
  - rewrite (Wire.parse_wire k rest Hk). eexists. split; [done|]. intros f.
    assert (G : forall k' rest', Wire.wf k' -> Wire.wire k ++ rest = Wire.wire k' ++ rest' -> checksum_agrees k' ->
      Wire.accepted k = true /\ Wire.frame_of k = Wire.frame_of k').
    { intros k' rest' Hk' E Ha%accepted_agrees; [|done]. pose proof (Wire.parse_wire k' rest' Hk') as E1.
      rewrite <- E, (Wire.parse_wire k rest Hk), Ha in E1. destruct (Wire.accepted k); [|done].
      split; congruence. }
    destruct (Wire.accepted k) eqn:Ea.
    + split; [intros [= <-]; exists k, rest; split_and!; try done; by apply accepted_agrees|].
      intros (k' & rest' & Hk' & E & Ha & ->). destruct (G k' rest' Hk' E Ha) as [_ ->]. done.
    + split; [done|]. intros (k' & rest' & Hk' & E & Ha & ->). by destruct (G k' rest' Hk' E Ha).
  - assert (Hr : exists e, parse_frame buf = Ret (Err e)) by (destruct He; eauto).
    destruct Hr as [e Er]. exists (Err e). split; [done|]. intros f. split; [done|].
    intros (k & rest & Hk & -> & Ha%accepted_agrees & _); [|done]. by rewrite (Wire.parse_wire k rest Hk), Ha in Er.
Qed.

(** The version-2 packet of the MAVLink protocol: ten header bytes with the magic,
    the payload right after the message id. *)
Definition standard_v2 (k : Wire.Packet) : list Z :=
  MAVLINK_2_MAGIC :: [Z.of_nat (length (Wire.body k)); Wire.flags k; Wire.compat k; Wire.wseq k; Wire.sys k; Wire.comp k]
    ++ le_bytes 3 (Wire.id k) ++ Wire.body k ++ le_bytes 2 (Wire.wcrc k) ++ Wire.sig k.

(** No version-2 packet of the protocol is accepted.  The parser counts ten
    header bytes after the magic where the protocol has nine, so a complete
    MAVLink 2 packet, whatever its message and checksum, is one byte short and
    answered [Truncated]. *)
Theorem mav2_standard_refused (k : Wire.Packet) : Wire.wf k -> Wire.v2 k = true ->
  parse_frame (standard_v2 k) = Ret (Err Truncated).
Proof.
  intros H E2. pose proof (Wire.length_wire k H) as Hl.
  assert (Hs : S (length (standard_v2 k)) = length (Wire.wire k)).
  { unfold standard_v2, Wire.wire, Wire.covered, Wire.fields. rewrite E2. cbn [length app le_bytes].
    rewrite !length_app. cbn [length]. lia. }
  unfold Wire.is_signed in Hl. rewrite E2 in Hl. cbn [andb] in Hl.
  remember (length (standard_v2 k)) as n eqn:En. unfold parse_frame, standard_v2.
  cbn [app version_of MAVLINK_1_MAGIC MAVLINK_2_MAGIC Z.eqb Pos.eqb index lookup list_lookup mbind exec_bind].
  rewrite (proj2 (Nat.ltb_ge _ 3)) by (cbn [length]; lia).
  rewrite Nat2Z.id, (proj2 (Nat.ltb_ge _ _)) by apply (Wire.wf_len k H).
  rewrite (proj2 (Nat.ltb_lt _ _)); [done|].
  unfold standard_v2 in En. cbn [app] in En. rewrite <- En. lia.
Qed.

(** A corrupted payload byte is noticed.  In an accepted packet of a message of
    the dialect, with the length the dialect gives, changing one payload byte and
    nothing else makes the parser answer [Crc]. *)
Theorem mav_payload_error_detected (k k' : Wire.Packet) pre a b post rest extra :
  Wire.wf k -> Wire.wf k' -> Wire.accepted k = true ->
  dialect_for (Wire.id k) = Some (Z.of_nat (length (Wire.body k)), extra) ->
  Wire.body k = pre ++ a :: post -> Wire.body k' = pre ++ b :: post -> a <> b ->
  Wire.fields k' = Wire.fields k -> Wire.id k' = Wire.id k -> Wire.wcrc k' = Wire.wcrc k ->
  parse_frame (Wire.wire k' ++ rest) = Ret (Err Crc).
Proof.
  intros H H' Ha Hd Eb Eb' Hne Ef Ei Ec. rewrite (Wire.parse_wire k' rest H').
  assert (El : length (Wire.body k') = length (Wire.body k)) by (rewrite Eb, Eb', !length_app; done).
  replace (Wire.accepted k') with false; [done|]. symmetry.
  unfold Wire.accepted, checksum_ok in *. rewrite Ei, Ec, El, Hd, Z.eqb_refl in *.
  apply Z.eqb_neq. apply Z.eqb_eq in Ha. rewrite <- Ha. unfold Wire.covered. rewrite Ef, Eb, Eb'.
  rewrite !(Z.lxor_comm _ extra). intros E. apply lxor_cancel_l in E. revert E.
  rewrite !app_assoc. pose proof (Wire.wf_body k H) as B. pose proof (Wire.wf_body k' H') as B'.
  rewrite Eb in B. rewrite Eb' in B'. apply Forall_app in B as [Bp [Ba Bq]%Forall_cons].
  apply Forall_app in B' as [_ [Bb _]%Forall_cons].
  apply crc16_byte_error; try done.
  apply Forall_app. split; [by apply fields_bytes | done].
Qed.

(** C29: The streaming parser agrees with the frame parser.  Fed byte by byte, from
    any reachable state but one that has just seen a magic, a frame with no magic
    byte after its second comes out exactly when [parse_frame] accepts it, with its
    last byte and not before; the parser is then idle again. *)
Theorem mav_stream_agrees (p : MavParser) (fr : list Z) :
  parser_wf p -> plen p <> 1%nat -> bytes fr -> is_magic (nth 0 fr 0) = true ->
  announced fr = length fr -> (forall i b, (2 <= i)%nat -> fr !! i = Some b -> is_magic b = false) ->
  exists p' r, parse_frame fr = Ret r /\ parser_wf p' /\
    feed_all p fr = Ret (p', match r with Ok f => [f] | Err _ => [] end) /\
    (is_ok r = true -> plen p' = 0%nat) /\
    forall n, (1 <= n < length fr)%nat -> exists q, feed_all p (take n fr) = Ret (q, []).
Proof.
  intros Hp Hp1 Hb Hm Ha Hq. pose proof (announced_le fr Hb) as Hle.
  assert (H8 : (8 <= length fr)%nat) by (rewrite <- Ha; apply Wire.frame_len_ge).
  assert (Hbuf : (length fr <= BUF_LEN)%nat) by (unfold BUF_LEN, MAVLINK_MAX_PAYLOAD; lia).
  assert (Hpre : forall n, (1 <= n < length fr)%nat ->
    exists q, feed_all p (take n fr) = Ret (q, []) /\ captured q (take n fr)).
  { intros n Hn. apply feed_prefix; try done. intros i b Hi. apply Hq. lia. }
  destruct (Hpre (length fr - 1)%nat) as (p1 & E1 & Hc); [lia|].
  destruct (lookup_lt_is_Some_2 fr (length fr - 1)) as [b Eb]; [lia|].
  assert (Hfr : fr = take (length fr - 1) fr ++ [b]).
  { rewrite <- (take_S_r _ _ _ Eb). symmetry. apply take_ge. lia. }
  destruct (mav_parse_total fr Hb) as [r Hr].
  destruct (feed_more p1 (take (length fr - 1) fr) b Hc) as (p2 & Hc2 & _ & Hdone).
  { intros E. apply (f_equal length) in E. rewrite length_take in E. cbn in E. lia. }
  { exact (Forall_lookup_1 _ _ _ _ Hb Eb). } { rewrite length_take. lia. }
  { right. apply (Hq (length fr - 1)%nat); [lia | done]. }
  rewrite <- Hfr in Hdone, Hc2. specialize (Hdone ltac:(lia) Ha r Hr).
  exists (match r with Ok _ => set_len p2 0 | Err _ => p2 end), r. split; [done|].
  split; [destruct Hc2 as ([? ? ?] & _); destruct r; split; cbn; (done || lia)|].
  split; [|split; [by destruct r|]].
  - rewrite Hfr, feed_all_app, E1. cbn [mbind exec_bind feed_all]. rewrite Hdone. by destruct r.
  - intros n Hn. destruct (Hpre n Hn) as (q & Eq & _). by exists q.
Qed.

(** A frame with a magic byte inside is lost.  When byte [i], past the second,
    of a frame is one of the two magic values (as a sequence number, a payload or
    checksum byte may well be), the streaming parser abandons the frame there
    without an output and takes that byte for the start of another. *)
Theorem mav_stream_loses (p : MavParser) (fr : list Z) (i : nat) (b : Z) :
  parser_wf p -> plen p <> 1%nat -> bytes fr -> is_magic (nth 0 fr 0) = true ->
  announced fr = length fr -> (2 <= i)%nat -> fr !! i = Some b -> is_magic b = true ->
  (forall j c, (2 <= j < i)%nat -> fr !! j = Some c -> is_magic c = false) ->
  exists p', feed_all p (take (S i) fr) = Ret (p', []) /\ captured p' [b].
Proof.
  intros Hp Hp1 Hb Hm Ha Hi Eb Hmb Hq. pose proof (announced_le fr Hb) as Hle.
  pose proof (lookup_lt_Some _ _ _ Eb) as Hlt.
  destruct (feed_prefix p fr i) as (p1 & E1 & Hc); try done; [unfold BUF_LEN, MAVLINK_MAX_PAYLOAD; lia | lia |].
  assert (Hbb : byte b) by exact (Forall_lookup_1 _ _ _ _ Hb Eb).
  assert (Hn : plen p1 <> 1%nat).
  { destruct Hc as (_ & -> & _). rewrite length_take. lia. }
  destruct (feed_first p1 b (proj1 Hc) Hn Hmb Hbb) as (p' & E2 & Hc').
  exists p'. split; [|done]. rewrite (take_S_r _ _ _ Eb), feed_all_app, E1.
  cbn [mbind exec_bind feed_all]. by rewrite E2.
Qed.

(** ** Packets to try *)

Module DemoMav.
Definition with_crc (k : Wire.Packet) (c : Z) : Wire.Packet :=
  {| Wire.v2 := Wire.v2 k; Wire.flags := Wire.flags k; Wire.compat := Wire.compat k; Wire.wseq := Wire.wseq k;
     Wire.sys := Wire.sys k; Wire.comp := Wire.comp k; Wire.id := Wire.id k; Wire.pad := Wire.pad k;
     Wire.body := Wire.body k; Wire.wcrc := c; Wire.sig := Wire.sig k |}.
(** a version-1 heartbeat with sequence number [s] and custom mode [m] *)
Definition unstamped (s m : Z) : Wire.Packet :=
  {| Wire.v2 := false; Wire.flags := 0; Wire.compat := 0; Wire.wseq := s; Wire.sys := 1; Wire.comp := 1;
     Wire.id := 0; Wire.pad := 0; Wire.body := [m; 0; 0; 0; 1; 8; 0x80; 3; 3]; Wire.wcrc := 0; Wire.sig := [] |}.
Definition stamp (k : Wire.Packet) (extra : Z) : Wire.Packet :=
  with_crc k (Z.lxor (mav_crc16 (Wire.covered k)) extra).
Definition heartbeat : Wire.Packet := stamp (unstamped 7 1) 50.
(** one payload byte changed *)
Definition corrupted : Wire.Packet := with_crc (unstamped 7 2) (Wire.wcrc heartbeat).
(** a version-2 heartbeat *)
Definition modern : Wire.Packet :=
  stamp {| Wire.v2 := true; Wire.flags := 0; Wire.compat := 0; Wire.wseq := 7; Wire.sys := 1; Wire.comp := 1;
           Wire.id := 0; Wire.pad := 0; Wire.body := [1; 0; 0; 0; 1; 8; 0x80; 3; 3]; Wire.wcrc := 0; Wire.sig := [] |} 50.

Ltac packet_tac := split; try (vm_compute; reflexivity); vm_compute; repeat constructor; discriminate.
Lemma heartbeat_wf : Wire.wf heartbeat. Proof. packet_tac. Qed.
Lemma corrupted_wf : Wire.wf corrupted. Proof. packet_tac. Qed.
Lemma modern_wf : Wire.wf modern. Proof. packet_tac. Qed.
Lemma bytes_dec l : forallb (fun b => (0 <=? b) && (b <? 256)) l = true -> bytes l.
Proof.
  rewrite forallb_forall. intros H. apply Forall_forall. intros b Hb.
  apply list_elem_of_In, H in Hb. zbool. split; [done|]. by change (2 ^ 8) with 256.
Qed.
Lemma quiet_dec l n : forallb (fun b => negb (is_magic b)) (drop 2 (take n l)) = true ->
  forall i b, (2 <= i < n)%nat -> l !! i = Some b -> is_magic b = false.
Proof.
  rewrite forallb_forall. intros H i b Hi Hb.
  apply negb_true_iff, H, list_elem_of_In, list_elem_of_lookup. exists (i - 2)%nat.
  rewrite lookup_drop, lookup_take_lt by lia. by replace (2 + (i - 2))%nat with i by lia.
Qed.
End DemoMav.

(** MAVLink feeds [crc_extra] through the checksum as one more byte; the code
    combines it by exclusive or, which is a different checksum. *)
Example crc_extra_differs :
  mav_crc16 (Wire.covered DemoMav.heartbeat ++ [50]) <> Z.lxor (mav_crc16 (Wire.covered DemoMav.heartbeat)) 50.
Proof. vm_compute. discriminate. Qed.

(** a known message with another payload length than the table's is not checked *)
Example wrong_length_unchecked :
  parse_frame (MAVLINK_1_MAGIC :: [1; 7; 1; 1; 0; 99; 0; 0]) =
  Ret (Ok {| version := 1; seq := 7; sysid := 1; compid := 1; msgid := 0; payload_len := 1;
             payload := 99 :: replicate 254 0; crc := 0; signed := 0 |}).
Proof. vm_compute. reflexivity. Qed.

Example heartbeat_decoded :
  decode_heartbeat (Wire.frame_of DemoMav.heartbeat) = Ret (Some {| custom_mode := 1; type_ := 1;
    autopilot := 8; base_mode := 0x80; system_status := 3; mavlink_version := 3 |}).
Proof. vm_compute. reflexivity. Qed.

Lemma mav_parse_exact_witness : exists r, parse_frame (Wire.wire DemoMav.heartbeat ++ [9]) = Ret r /\
  r = Ok (Wire.frame_of DemoMav.heartbeat).
Proof.
  destruct (mav_parse_exact (Wire.wire DemoMav.heartbeat ++ [9])) as (r & E & H);
    [apply DemoMav.bytes_dec; vm_compute; reflexivity|].
  exists r. split; [exact E|]. apply H. exists DemoMav.heartbeat, [9].
  split; [exact DemoMav.heartbeat_wf|]. split; [reflexivity|]. split; [|reflexivity].
  apply accepted_agrees; [exact DemoMav.heartbeat_wf | vm_compute; reflexivity].
Defined.

Lemma mav2_standard_refused_witness :
  parse_frame (standard_v2 DemoMav.modern) = Ret (Err Truncated) /\ length (standard_v2 DemoMav.modern) = 21%nat.
Proof. split; [exact (mav2_standard_refused DemoMav.modern DemoMav.modern_wf eq_refl) | reflexivity]. Defined.

Lemma mav_payload_error_detected_witness : parse_frame (Wire.wire DemoMav.corrupted ++ []) = Ret (Err Crc).
Proof.
  apply (mav_payload_error_detected DemoMav.heartbeat DemoMav.corrupted [] 1 2 [0; 0; 0; 1; 8; 0x80; 3; 3] [] 50
    DemoMav.heartbeat_wf DemoMav.corrupted_wf); try (vm_compute; reflexivity). discriminate.
Defined.

Lemma mav_stream_agrees_witness : exists p',
  feed_all new (Wire.wire DemoMav.heartbeat) = Ret (p', [Wire.frame_of DemoMav.heartbeat]) /\ parser_wf p'.
Proof.
  destruct (mav_stream_agrees new (Wire.wire DemoMav.heartbeat) new_wf) as (p' & r & Er & Hw & E & _);
    [discriminate | apply DemoMav.bytes_dec; vm_compute; reflexivity | reflexivity | vm_compute; reflexivity | |].
  - intros i b Hi Hb. apply (DemoMav.quiet_dec (Wire.wire DemoMav.heartbeat) 17) with (i := i); [vm_compute; reflexivity | | exact Hb].
    apply lookup_lt_Some in Hb. vm_compute (length _) in Hb. lia.
  - exists p'. split; [|exact Hw]. rewrite E. vm_compute in Er. injection Er as <-. vm_compute. reflexivity.
Defined.

(** a heartbeat with sequence number 254 *)
Lemma mav_stream_loses_witness : exists p',
  feed_all new (take 3 (Wire.wire (DemoMav.stamp (DemoMav.unstamped 254 1) 50))) = Ret (p', []) /\ captured p' [254].
Proof.
  apply (mav_stream_loses new (Wire.wire (DemoMav.stamp (DemoMav.unstamped 254 1) 50)) 2 254 new_wf);
    [discriminate | apply DemoMav.bytes_dec; vm_compute; reflexivity | reflexivity | vm_compute; reflexivity
    | lia | reflexivity | reflexivity | intros j c Hj; lia].
Defined.
