(* ===== verification/DirectIo.v ===== *)
(** * Direct-I/O files: [tpt-t-analytics/src/direct_io.rs]

    The staging buffer that turns a stream of bytes into whole sectors.  The
    kernel's file is a parameter (class [RawFd]): [write(2)] may take a part of
    what it is given.  The Linux back end is the one modelled. *)

From S2P Require Import Prelude Text Mux.

Definition SECTOR_SIZE : nat := 4096.

Lemma SECTOR_pos : (0 < SECTOR_SIZE)%nat.
Proof. apply Nat.ltb_lt. reflexivity. Qed.

#[local] Opaque SECTOR_SIZE.

(** What the code relies on of a file descriptor opened for writing. *)
Class RawFd (F : Type) := {
  on_disk : F -> list Z;
  sys_write : F -> list Z -> F * result nat IoError;
  sys_fsync : F -> F;
  sys_write_ok f bs f' n : sys_write f bs = (f', Ok n) ->
    (n <= length bs)%nat /\ on_disk f' = on_disk f ++ take n bs;
  sys_write_err f bs f' e : sys_write f bs = (f', Err e) -> on_disk f' = on_disk f;
  sys_fsync_disk f : on_disk (sys_fsync f) = on_disk f
}.

Section DirectFile.
Context {F : Type} `{RF : !RawFd F}.

(** [RawFile::open]: [os_open direct] is what [open(2)] answers with and
    without [O_DIRECT]; [path] is the lossy text of the path. *)
Definition raw_open (path : list Z) (os_open : bool -> result F IoError)
    : result (F * bool) IoError :=
  if bool_decide (0 ∈ utf8 path) then Err InvalidInput
  else
    match os_open true with
    | Ok fd => Ok (fd, true)
    | Err _ =>
        match os_open false with
        | Err e => Err e
        | Ok fd => Ok (fd, false)
        end
    end.

(** [RawFile::write_block]: [block] is what is left from [off] on; a call that
    takes no byte is repeated. *)
Fixpoint write_block (fuel : nat) (fd : F) (block : list Z) : exec (F * result unit IoError) :=
  match block with
  | [] => Ret (fd, Ok tt)
  | _ =>
      match fuel with
      | O => NoFuel
      | S fuel =>
          let '(fd, r) := sys_write fd block in
          match r with
          | Err e => Ret (fd, Err e)
          | Ok n => write_block fuel fd (drop n block)
          end
      end
  end.

Record DirectFile := {
  backend : F;
  (** the whole buffer; [AlignedBuf::cap] is its length *)
  staging : list Z;
  staging_len : nat;
  direct : bool;
  written : Z
}.

(** [mem] is what the allocator returned: [16 * SECTOR_SIZE] arbitrary bytes *)
Definition open (path : list Z) (os_open : bool -> result F IoError) (mem : list Z)
    : result DirectFile IoError :=
  match raw_open path os_open with
  | Err e => Err e
  | Ok (fd, d) =>
      Ok {| backend := fd; staging := mem; staging_len := 0; direct := d; written := 0 |}
  end.

Definition is_direct (d : DirectFile) : bool := direct d.

(** [slice::copy_within(from..to, dest)] *)
Definition copy_within (l : list Z) (from to dest : nat) : exec (list Z) :=
  seg ← (if (to <? from)%nat then Panic else range l from (to - from));
  copy_from_slice l dest seg.

(** writing the first sector of the buffer *)
Definition put_sector (d : DirectFile) : exec (DirectFile * result unit IoError) :=
  block ← range (staging d) 0 SECTOR_SIZE;
  '(fd, r) ← write_block SECTOR_SIZE (backend d) block;
  Ret ({| backend := fd; staging := staging d; staging_len := staging_len d;
          direct := direct d; written := written d |}, r).

(** [while self.staging_len >= SECTOR_SIZE { .. }] *)
Fixpoint flush_sectors (fuel : nat) (d : DirectFile) : exec (DirectFile * result unit IoError) :=
  if (SECTOR_SIZE <=? staging_len d)%nat then
    match fuel with
    | O => NoFuel
    | S fuel =>
        '(d, r) ← put_sector d;
        match r with
        | Err e => Ret (d, Err e)
        | Ok _ =>
            let rem := (staging_len d - SECTOR_SIZE)%nat in
            st ← copy_within (staging d) SECTOR_SIZE (staging_len d) 0;
            flush_sectors fuel
              {| backend := backend d; staging := st; staging_len := rem;
                 direct := direct d; written := wadd 64 (written d) (Z.of_nat SECTOR_SIZE) |}
        end
    end
  else Ret (d, Ok tt).

(** [while !data.is_empty() { .. }] *)
Fixpoint write_loop (fuel : nat) (d : DirectFile) (data : list Z)
    : exec (DirectFile * result unit IoError) :=
  match data with
  | [] => Ret (d, Ok tt)
  | _ =>
      match fuel with
      | O => NoFuel
      | S fuel =>
          let space := (length (staging d) - staging_len d)%nat in
          let n := Nat.min space (length data) in
          st ← copy_from_slice (staging d) (staging_len d) (take n data);
          let len := (staging_len d + n)%nat in
          '(d, r) ← flush_sectors len
            {| backend := backend d; staging := st; staging_len := len;
               direct := direct d; written := written d |};
          match r with
          | Err e => Ret (d, Err e)
          | Ok _ => write_loop fuel d (drop n data)
          end
      end
  end.
Definition write (d : DirectFile) (data : list Z) : exec (DirectFile * result unit IoError) :=
  write_loop (S (length data)) d data.

(** the zero-padded last sector, then [fsync], whose result is dropped *)
Definition flush (d : DirectFile) : exec (DirectFile * result unit IoError) :=
  '(d, r) ←
    (if (0 <? staging_len d)%nat then
       st ← (if (SECTOR_SIZE <? staging_len d)%nat then Panic
             else copy_from_slice (staging d) (staging_len d)
                    (replicate (SECTOR_SIZE - staging_len d) 0));
       '(d, r) ← put_sector
         {| backend := backend d; staging := st; staging_len := staging_len d;
            direct := direct d; written := written d |};
       match r with
       | Err e => Ret (d, Err e)
       | Ok _ =>
           Ret ({| backend := backend d; staging := staging d; staging_len := 0;
                   direct := direct d;
                   written := wadd 64 (written d) (Z.of_nat SECTOR_SIZE) |}, Ok tt)
       end
     else Ret (d, Ok tt));
  match r with
  | Err e => Ret (d, Err e)
  | Ok _ =>
      Ret ({| backend := sys_fsync (backend d); staging := staging d;
              staging_len := staging_len d; direct := direct d; written := written d |}, Ok tt)
  end.

End DirectFile.
Arguments DirectFile : clear implicits.

(** ** The stream a file holds *)

Section Stream.
Context {F : Type} `{RF : !RawFd F}.
(** a write of at least one byte to a regular file takes at least one *)
Hypothesis progress : forall (fd : F) bs fd' n, bs <> [] ->
  sys_write fd bs = (fd', Ok n) -> (0 < n)%nat.
Implicit Types (d : DirectFile F) (s data : list Z).

Definition staged d : list Z := take (staging_len d) (staging d).

(** [d] holds the bytes [s]: whole sectors on disk, the rest staged *)
Record file_rep d s : Prop := {
  rep_stream : on_disk (backend d) ++ staged d = s;
  rep_short : (staging_len d < SECTOR_SIZE)%nat;
  rep_buffer : (SECTOR_SIZE <= length (staging d))%nat;
  rep_sectors : (Nat.divide SECTOR_SIZE (length (on_disk (backend d))));
  rep_written : written d = wrap 64 (Z.of_nat (length (on_disk (backend d))))
}.

(** [r] reports whether all of [bs] or only a part reached the disk *)
Definition appended (disk disk' bs : list Z) (r : result unit IoError) : Prop :=
  match r with
  | Ok _ => disk' = disk ++ bs
  | Err _ => exists part, part `prefix_of` bs /\ disk' = disk ++ part
  end.

Lemma write_block_spec fuel : forall fd block, (length block <= fuel)%nat ->
  exists fd' r, write_block fuel fd block = Ret (fd', r) /\
    appended (on_disk fd) (on_disk fd') block r.
Proof.
  induction fuel as [|fuel IH]; intros fd block Hl.
  - destruct block; [|simpl in Hl; lia]. exists fd, (Ok tt). split; [done|]. simpl. by rewrite app_nil_r.
  - destruct block as [|b bs]; [exists fd, (Ok tt); split; [done|]; simpl; by rewrite app_nil_r|].
    cbn [write_block]. destruct (sys_write fd (b :: bs)) as [fd' [n|e]] eqn:E.
    + assert (Hne : b :: bs <> []) by done. pose proof (progress _ _ _ _ Hne E). destruct (sys_write_ok _ _ _ _ E) as [Hn Hd].
      destruct (IH fd' (drop n (b :: bs))) as (fd'' & r & -> & Ha).
      { rewrite length_drop. lia. }
      exists fd'', r. split; [done|]. rewrite <- (take_drop n (b :: bs)). rewrite Hd in Ha.
      destruct r; simpl in *; [by rewrite Ha, <- app_assoc|].
      destruct Ha as (part & Hp & ->). exists (take n (b :: bs) ++ part).
      split; [by apply prefix_app|]. by rewrite app_assoc.
    + exists fd', (Err e). split; [done|]. exists []. split; [apply prefix_nil|].
      by rewrite (sys_write_err _ _ _ _ E), app_nil_r.
Qed.

(** between the rounds of the loops more than a sector may be staged *)
Record mid_rep d s : Prop := {
  mid_stream : on_disk (backend d) ++ staged d = s;
  mid_len : (staging_len d <= length (staging d))%nat;
  mid_buffer : (SECTOR_SIZE <= length (staging d))%nat;
  mid_sectors : (Nat.divide SECTOR_SIZE (length (on_disk (backend d))));
  mid_written : written d = wrap 64 (Z.of_nat (length (on_disk (backend d))))
}.

Lemma rep_mid d s : file_rep d s -> mid_rep d s.
Proof. intros []. constructor; try done. lia. Qed.
Lemma mid_rep_short d s : mid_rep d s -> (staging_len d < SECTOR_SIZE)%nat -> file_rep d s.
Proof. intros [] ?. by constructor. Qed.

Lemma put_sector_spec d : (SECTOR_SIZE <= length (staging d))%nat ->
  exists fd r, put_sector d =
    Ret ({| backend := fd; staging := staging d; staging_len := staging_len d;
            direct := direct d; written := written d |}, r) /\
    appended (on_disk (backend d)) (on_disk fd) (take SECTOR_SIZE (staging d)) r.
Proof.
  intros Hb. unfold put_sector, range. rewrite decide_True by lia. rewrite drop_0.
  rewrite ret_bind.
  destruct (write_block_spec SECTOR_SIZE (backend d) (take SECTOR_SIZE (staging d)))
    as (fd & r & -> & Ha); [rewrite length_take; lia|].
  exists fd, r. by split.
Qed.

Lemma copy_within_front (l : list Z) from to : (from <= to <= length l)%nat ->
  copy_within l from to 0 =
  Ret (take (to - from) (drop from l) ++ drop (to - from) l).
Proof.
  intros H. unfold copy_within. rewrite (proj2 (Nat.ltb_ge _ _)) by lia.
  unfold range. rewrite decide_True by lia. rewrite ret_bind.
  unfold copy_from_slice. rewrite decide_True by (rewrite length_take, length_drop; lia).
  unfold splice. rewrite take_0, length_take, length_drop. cbn [app Nat.add].
  by rewrite Nat.min_l by lia.
Qed.

Lemma wadd_written disk (block : list Z) :
  wadd 64 (wrap 64 (Z.of_nat (length disk))) (Z.of_nat (length block)) =
  wrap 64 (Z.of_nat (length (disk ++ block))).
Proof. rewrite wadd_wrap, length_app. f_equal. lia. Qed.

Lemma divide_sector (disk block : list Z) : Nat.divide SECTOR_SIZE (length disk) ->
  length block = SECTOR_SIZE -> Nat.divide SECTOR_SIZE (length (disk ++ block)).
Proof. intros H E. rewrite length_app, E. apply Nat.divide_add_r; [done | apply Nat.divide_refl]. Qed.

(** what an operation leaves behind: the stream if it succeeds, else no byte on
    disk that is not the stream's *)
Definition wrote d s (r : result unit IoError) : Prop :=
  match r with
  | Ok _ => file_rep d s
  | Err _ => on_disk (backend d) `prefix_of` s
  end.

Lemma flush_sectors_spec fuel : forall d s, (staging_len d <= fuel)%nat -> mid_rep d s ->
  exists d' r, flush_sectors fuel d = Ret (d', r) /\ wrote d' s r.
Proof.
  pose proof SECTOR_pos as Hp. induction fuel as [|fuel IH]; intros d s Hf Hm; cbn [flush_sectors].
  - rewrite (proj2 (Nat.leb_gt _ _)) by lia. exists d, (Ok tt). split; [done|].
    apply mid_rep_short; [done | lia].
  - destruct (Nat.leb_spec SECTOR_SIZE (staging_len d)).
    2:{ exists d, (Ok tt). split; [done|]. apply mid_rep_short; [done | lia]. }
    destruct Hm as [Hs Hl Hb Hd Hw].
    destruct (put_sector_spec d Hb) as (fd & r & -> & Ha). rewrite ret_bind.
    assert (Est : staged d = take SECTOR_SIZE (staging d) ++
      take (staging_len d - SECTOR_SIZE) (drop SECTOR_SIZE (staging d))).
    { unfold staged. rewrite take_drop_commute, <- (take_drop SECTOR_SIZE (take (staging_len d) _)) at 1.
      rewrite take_take. repeat f_equal; lia. }
    destruct r as [[]|e]; simpl in Ha.
    + cbn [staging staging_len]. rewrite copy_within_front by lia. rewrite ret_bind.
      set (block := take SECTOR_SIZE (staging d)) in *.
      assert (Hbl : length block = SECTOR_SIZE) by (unfold block; rewrite length_take; lia).
      apply IH; cbn [staging_len]; [lia|].
      constructor; cbn [backend staging_len staging written]; rewrite ?Ha.
      * rewrite <- Hs, Est, <- app_assoc. f_equal. f_equal. unfold staged. cbn [staging_len staging].
        apply take_app_length'. rewrite length_take, length_drop. lia.
      * rewrite length_app, length_take, !length_drop. lia.
      * rewrite length_app, length_take, !length_drop. lia.
      * by apply divide_sector.
      * rewrite Hw, <- Hbl. apply wadd_written.
    + exists {| backend := fd; staging := staging d; staging_len := staging_len d;
               direct := direct d; written := written d |}, (Err e). split; [done|]. simpl.
      destruct Ha as (part & Hpart & ->). rewrite <- Hs, Est. apply prefix_app.
      by apply prefix_app_r.
Qed.

Lemma write_loop_spec fuel : forall d s data,
  (S (length data) <= fuel)%nat \/ (staging_len d < SECTOR_SIZE /\ length data <= fuel)%nat ->
  mid_rep d s -> (data = [] -> file_rep d s) ->
  exists d' r, write_loop fuel d data = Ret (d', r) /\ wrote d' (s ++ data) r.
Proof.
  induction fuel as [|fuel IH]; intros d s data Hf Hm Hz.
  - destruct data; [|simpl in Hf; lia]. exists d, (Ok tt). split; [done|]. simpl.
    rewrite app_nil_r. auto.
  - destruct data as [|b bs].
    { exists d, (Ok tt). split; [done|]. simpl. rewrite app_nil_r. auto. }
    set (data := b :: bs) in *. cbn [write_loop]. change (match data with [] => ?x | _ => ?y end) with y.
    destruct Hm as [Hs Hl Hb Hd Hw].
    set (n := Nat.min (length (staging d) - staging_len d) (length data)).
    unfold copy_from_slice. rewrite decide_True by (rewrite length_take; lia).
    rewrite ret_bind.
    assert (Hn : length (take n data) = n) by (rewrite length_take; lia).
    edestruct (flush_sectors_spec (staging_len d + n)
      {| backend := backend d; staging := splice (staging d) (staging_len d) (take n data);
         staging_len := staging_len d + n; direct := direct d; written := written d |}
      (s ++ take n data)) as (d1 & r & -> & Hr); [done| |].
    { constructor; cbn [backend staging staging_len written].
      - rewrite <- Hs, <- app_assoc. f_equal. unfold staged. cbn [staging staging_len].
        unfold splice. rewrite app_assoc. apply take_app_length'.
        rewrite length_app, Hn, length_take. lia.
      - rewrite length_splice; lia.
      - rewrite length_splice; lia.
      - done.
      - done. }
    rewrite ret_bind. destruct r as [[]|e]; simpl in Hr.
    + destruct (IH d1 (s ++ take n data) (drop n data)) as (d2 & r & E & Hr2).
      * right. rewrite length_drop. pose proof (rep_short _ _ Hr). split; [done|].
        destruct Hf as [Hf|[Hsh Hf]]; [subst n; lia|].
        assert (1 <= length data)%nat by (simpl; lia). subst n. lia.
      * by apply rep_mid.
      * done.
      * exists d2, r. split; [done|]. by rewrite <- app_assoc, take_drop in Hr2.
    + exists d1, (Err e). split; [done|]. simpl. etrans; [exact Hr|].
      apply prefix_app. exists (drop n data). by rewrite take_drop.
Qed.

(** A write from a well-formed file completes; it appends its bytes to the stream. *)
Lemma write_spec d s data : file_rep d s ->
  exists d' r, write d data = Ret (d', r) /\ wrote d' (s ++ data) r.
Proof.
  intros H. apply write_loop_spec; [lia | by apply rep_mid | done].
Qed.

(** the stream with its last sector filled up with zeros *)
Definition padding s : nat := (SECTOR_SIZE - length s mod SECTOR_SIZE) mod SECTOR_SIZE.
Definition padded s : list Z := s ++ replicate (padding s) 0.

Lemma length_padded s : Nat.divide SECTOR_SIZE (length (padded s)).
Proof.
  pose proof SECTOR_pos. unfold padded, padding. rewrite length_app, length_replicate.
  pose proof (Nat.div_mod (length s) SECTOR_SIZE ltac:(lia)) as E.
  pose proof (Nat.mod_upper_bound (length s) SECTOR_SIZE ltac:(lia)) as Hm.
  set (m := (length s mod SECTOR_SIZE)%nat) in *. set (q := (length s / SECTOR_SIZE)%nat) in *.
  clearbody m q. destruct (Nat.eq_dec m 0%nat) as [->|Hne].
  - rewrite Nat.sub_0_r, Nat.Div0.mod_same. exists q. lia.
  - rewrite Nat.mod_small by lia. exists (S q). lia.
Qed.

(** what is staged is the remainder of the stream *)
Lemma staged_mod d s : file_rep d s -> length (staged d) = staging_len d /\
  (length s mod SECTOR_SIZE)%nat = staging_len d.
Proof.
  intros [Hs Hsh Hb [k Hk] _]. assert (E : length (staged d) = staging_len d)
    by (unfold staged; rewrite length_take; lia).
  split; [done|]. rewrite <- Hs, length_app, Hk, E, Nat.add_comm, Nat.Div0.mod_add.
  by apply Nat.mod_small.
Qed.

Lemma flush_spec d s : file_rep d s ->
  exists d' r, flush d = Ret (d', r) /\ wrote d' (padded s) r /\
    (r = Ok tt -> on_disk (backend d') = padded s).
Proof.
  intros Hr. pose proof SECTOR_pos. destruct (staged_mod d s Hr) as [Hl Hmod].
  destruct Hr as [Hs Hsh Hb Hd Hw]. unfold flush. unfold padded, padding. rewrite Hmod.
  destruct (Nat.ltb_spec 0 (staging_len d)) as [Hp|Hz].
  - rewrite (proj2 (Nat.ltb_ge _ _)) by lia. unfold copy_from_slice.
    rewrite decide_True by (rewrite length_replicate; lia). rewrite ret_bind.
    rewrite Nat.mod_small by lia. set (z := replicate (SECTOR_SIZE - staging_len d) 0).
    assert (Hz : (staging_len d + length z)%nat = SECTOR_SIZE)
      by (unfold z; rewrite length_replicate; lia).
    assert (Et : take SECTOR_SIZE (splice (staging d) (staging_len d) z) = staged d ++ z).
    { unfold splice, staged. rewrite app_assoc. apply take_app_length'.
      rewrite length_app, length_take. lia. }
    edestruct put_sector_spec as (fd & r & -> & Ha); [cbn [staging]; rewrite length_splice; lia|].
    rewrite ret_bind. cbn [staging] in Ha. rewrite Et in Ha. cbn [backend] in Ha.
    assert (Hlen : length (staged d ++ z) = SECTOR_SIZE) by (rewrite length_app; lia).
    destruct r as [[]|e]; simpl in Ha; rewrite ret_bind.
    + eexists _, (Ok tt). split; [done|]. cbn [backend]. rewrite sys_fsync_disk.
      assert (E : on_disk fd = s ++ z) by (by rewrite Ha, <- Hs, <- app_assoc).
      split; [|done]. constructor; cbn [backend staging staging_len written]; rewrite ?sys_fsync_disk.
      * unfold staged. cbn [staging_len staging]. by rewrite take_0, app_nil_r.
      * done.
      * rewrite length_splice; lia.
      * rewrite Ha. by apply divide_sector.
      * rewrite Ha, Hw, <- Hlen. apply wadd_written.
    + eexists _, (Err e). split; [done|]. split; [|done]. simpl.
      destruct Ha as (part & Hpart & ->). rewrite <- Hs, <- app_assoc. by apply prefix_app.
  - assert (Ez : staging_len d = 0%nat) by lia. rewrite ret_bind. cbn beta iota.
    eexists _, (Ok tt). split; [done|]. rewrite Ez, Nat.sub_0_r, Nat.Div0.mod_same. simpl.
    rewrite app_nil_r. assert (E : on_disk (backend d) = s).
    { rewrite <- Hs. unfold staged. by rewrite Ez, take_0, app_nil_r. }
    cbn [backend]. rewrite sys_fsync_disk. split; [|done].
    constructor; cbn [backend staging staging_len written]; rewrite ?sys_fsync_disk; try done.
    unfold staged. cbn [staging_len staging]. by rewrite ?Ez, take_0, app_nil_r.
Qed.

(** a freshly opened and truncated file *)
Lemma open_spec path os_open mem d : (SECTOR_SIZE <= length mem)%nat ->
  (forall b fd, os_open b = Ok fd -> on_disk fd = []) ->
  open path os_open mem = Ok d -> file_rep d [].
Proof.
  intros Hm Ho. unfold open, raw_open. case_bool_decide; [done|].
  assert (G : forall fd b, on_disk fd = [] -> file_rep {| backend := fd; staging := mem;
    staging_len := 0; direct := b; written := 0 |} []).
  { intros fd b E. pose proof SECTOR_pos.
    constructor; cbn [backend staging staging_len written]; rewrite ?E; try done.
    apply Nat.divide_0_r. }
  destruct (os_open true) as [fd|e] eqn:E1; [intros [= <-]; eauto|].
  destruct (os_open false) as [fd|e'] eqn:E2; [|done]. intros [= <-]. eauto.
Qed.

End Stream.

(** a caller that writes [chunks] one after the other and gives up on an error *)
Fixpoint write_chunks {F} `{!RawFd F} (d : DirectFile F) (chunks : list (list Z))
    : exec (DirectFile F * result unit IoError) :=
  match chunks with
  | [] => flush d
  | c :: chunks =>
      '(d, r) ← write d c;
      match r with
      | Err e => Ret (d, Err e)
      | Ok _ => write_chunks d chunks
      end
  end.

(** *** A file that takes at most two bytes per call *)

#[refine] Instance slow_fd : RawFd (list Z) := {|
  on_disk := fun f => f;
  sys_write := fun f bs => (f ++ take 2 bs, Ok (length (take 2 bs)));
  sys_fsync := fun f => f
|}.
Proof.
  - intros f bs f' n H. injection H as <- <-. rewrite length_take. split; [lia|].
    f_equal. by destruct bs as [|? [|? bs]].
  - discriminate.
  - reflexivity.
Defined.

(** and one that takes all it is given *)
#[refine] Instance whole_fd : RawFd (list (list Z)) := {|
  on_disk := fun f => concat f;
  sys_write := fun f bs => (f ++ [bs], Ok (length bs));
  sys_fsync := fun f => f
|}.
Proof.
  - intros f bs f' n H. injection H as <- <-. split; [lia|].
    by rewrite firstn_all, concat_app, concat_cons, concat_nil, app_nil_r.
  - discriminate.
  - reflexivity.
Defined.

(** a direct-I/O file is an append-only log of bytes: from a fresh file, any
    series of writes followed by a flush ends without a panic or an endless loop;
    if every call succeeds the disk holds exactly the bytes written, in order,
    filled up with zeros to a whole number of sectors, and [written] counts them;
    if one fails the disk holds a prefix of that. *)
Theorem direct_file_is_log {F} `{RF : !RawFd F} path os_open mem (d : DirectFile F) chunks :
  (forall (fd : F) bs fd' n, bs <> [] -> sys_write fd bs = (fd', Ok n) -> (0 < n)%nat) ->
  (forall b fd, os_open b = Ok fd -> on_disk fd = []) ->
  (SECTOR_SIZE <= length mem)%nat -> open path os_open mem = Ok d ->
  exists d' r, write_chunks d chunks = Ret (d', r) /\
    match r with
    | Ok _ => on_disk (backend d') = padded (concat chunks) /\
              Nat.divide SECTOR_SIZE (length (padded (concat chunks))) /\
              written d' = wrap 64 (Z.of_nat (length (padded (concat chunks))))
    | Err _ => on_disk (backend d') `prefix_of` padded (concat chunks)
    end.
Proof.
  intros Hp Ho Hm Hd. apply (open_spec _ _ _ _ Hm Ho) in Hd.
  change (concat chunks) with ([] ++ concat chunks). revert d Hd. generalize (@nil Z) as s.
  induction chunks as [|c chunks IH]; intros s d Hd; cbn [write_chunks concat].
  - rewrite app_nil_r. destruct (flush_spec Hp d s Hd) as (d' & r & -> & Hw & Hk).
    exists d', r. split; [done|]. destruct r as [[]|e]; [|done]. rewrite <- (Hk eq_refl).
    split; [done|]. split; [|by destruct Hw]. rewrite Hk by done. apply length_padded.
  - destruct (write_spec Hp d s c Hd) as (d1 & r & -> & Hw). rewrite ret_bind. cbn beta iota.
    destruct r as [[]|e]; simpl in Hw.
    + destruct (IH _ _ Hw) as (d' & r & E & Hr). exists d', r. split; [done|].
      by rewrite <- app_assoc in Hr.
    + exists d1, (Err e). split; [done|]. etrans; [exact Hw|]. unfold padded.
      rewrite app_assoc, <- app_assoc. by apply prefix_app_r.
Qed.

Lemma direct_file_is_log_witness :
  exists d' r, write_chunks (F := list Z)
    {| backend := []; staging := replicate 8192 7; staging_len := 0; direct := true; written := 0 |}
    [replicate 3000 1; replicate 3000 2] = Ret (d', r) /\
    match r with
    | Ok _ => on_disk (backend d') = padded (concat [replicate 3000 1; replicate 3000 2]) /\
              Nat.divide SECTOR_SIZE (length (padded (concat [replicate 3000 1; replicate 3000 2]))) /\
              written d' = wrap 64
                (Z.of_nat (length (padded (concat [replicate 3000 1; replicate 3000 2]))))
    | Err _ => on_disk (backend d') `prefix_of` padded (concat [replicate 3000 1; replicate 3000 2])
    end.
Proof.
  apply (direct_file_is_log (F := list Z) [47; 102] (fun _ => Ok []) (replicate 8192 7)).
  - intros fd bs fd' n Hne H. injection H as _ <-. destruct bs; [done|]. cbn. lia.
  - intros b fd H. by injection H as <-.
  - apply Nat.leb_le. vm_compute. reflexivity.
  - reflexivity.
Defined.
