(* ===== verification/Fdr.v ===== *)
(** * Flight data records: [tpt-t-analytics/src/record.rs]

    The frames of the flight data recorder, the producer's handle, the storage
    thread and the offline parser.  The control loop and the storage thread run
    concurrently: [rec_step] is one action of either, [Produce] a whole call of
    the producer, [Writer] one access of the storage thread to what they share. *)

From stdpp Require Import strings.
From S2P Require Import Prelude Text Ring Cast Ser DirectIo.
From S2P Require Mux.

Notation IoError := Mux.IoError.

Definition MAX_PAYLOAD : nat := 512.

Module RecordKind.
Inductive RecordKind := Control | Imu | Gps | Telemetry | End_.

Definition as_u8 (k : RecordKind) : Z :=
  match k with Control => 0 | Imu => 1 | Gps => 2 | Telemetry => 3 | End_ => 255 end.

Definition from_u8 (v : Z) : option RecordKind :=
  if v =? 0 then Some Control
  else if v =? 1 then Some Imu
  else if v =? 2 then Some Gps
  else if v =? 3 then Some Telemetry
  else if v =? 255 then Some End_
  else None.

Lemma kind_of_as_u8 k : from_u8 (as_u8 k) = Some k.
Proof. by destruct k. Qed.

#[export] Instance eq_dec : EqDecision RecordKind.
Proof. solve_decision. Defined.
End RecordKind.
Import RecordKind (RecordKind).
#[export] Existing Instance RecordKind.eq_dec.

(** ** [FdrEntry] *)

Module Entry.

Record FdrEntry := {
  timestamp_ns : Z; payload_len : Z; kind_raw : Z; pad : Z; reserved : Z;
  payload_raw : list Z
}.

Definition widths : list nat := [8; 2; 1; 1; 4]%nat ++ replicate MAX_PAYLOAD 1%nat.
Definition fields (e : FdrEntry) : list Z :=
  [timestamp_ns e; payload_len e; kind_raw e; pad e; reserved e] ++ payload_raw e.
Definition of_fields (zs : list Z) : FdrEntry :=
  {| timestamp_ns := nth 0 zs 0; payload_len := nth 1 zs 0; kind_raw := nth 2 zs 0;
     pad := nth 3 zs 0; reserved := nth 4 zs 0; payload_raw := drop 5 zs |}.

#[export] Instance plain : PlainBytes FdrEntry.
Proof.
  refine (pod widths 8 fields of_fields _ _).
  - intros zs Hl. do 5 (destruct zs as [|? zs]; [discriminate|]). reflexivity.
  - intros v _. destruct v. reflexivity.
Defined.

Inductive RecordError :=
| Full
| PayloadTooLarge (got max : Z)
| Io (e : IoError).

(** [show] is the [Display] of [io::Error] *)
Definition fmt (show : IoError -> list Z) (e : RecordError) : list Z :=
  match e with
  | Full => ascii_bytes "FDR ring full: record dropped (non-blocking)"
  | PayloadTooLarge got max =>
      ascii_bytes "payload " ++ dec got ++ ascii_bytes " bytes exceeds MAX_PAYLOAD " ++ dec max
  | Io e => ascii_bytes "FDR I/O error: " ++ show e
  end.

Definition new (kind : RecordKind) (payload : list Z) (timestamp_ns : Z)
    : exec (result FdrEntry RecordError) :=
  if (MAX_PAYLOAD <? length payload)%nat then
    Ret (Err (PayloadTooLarge (Z.of_nat (length payload)) (Z.of_nat MAX_PAYLOAD)))
  else
    buf ← copy_from_slice (replicate MAX_PAYLOAD 0) 0 payload;
    Ret (Ok {| timestamp_ns := timestamp_ns;
               payload_len := wrap 16 (Z.of_nat (length payload));
               kind_raw := RecordKind.as_u8 kind; pad := 0; reserved := 0;
               payload_raw := buf |}).

Definition kind (e : FdrEntry) : option RecordKind := RecordKind.from_u8 (kind_raw e).

(** the slice panics on a length beyond the buffer *)
Definition payload (e : FdrEntry) : exec (list Z) :=
  range (payload_raw e) 0 (Z.to_nat (payload_len e)).

End Entry.
Import Entry (FdrEntry, RecordError).
#[export] Existing Instance Entry.plain.

(** A value from the first bytes of an unaligned slice. *)
Definition from_bytes_aligned {T} `{!PlainBytes T} (data : list Z) : option T :=
  if (length data <? size_of (T := T))%nat then None
  else Some (of_raw (take (size_of (T := T)) data)).

(** ** The producer *)

Section Recorder.
Context {Q F : Type} `{RQ : !BoundedFifo Q FdrEntry} `{RF : !RawFd F}.

Definition try_record (ring : Q) (kind : RecordKind) (payload : list Z) (timestamp_ns : Z)
    : exec (Q * result unit RecordError) :=
  e ← Entry.new kind payload timestamp_ns;
  match e with
  | Err err => Ret (ring, Err err)
  | Ok e =>
      '(ring, r) ← fifo_push ring e;
      match r with
      | Ok _ => Ret (ring, Ok tt)
      | Err _ => Ret (ring, Err Entry.Full)
      end
  end.

Definition try_control (ring : Q) (c : Cmd.ControlCommand Z) :=
  try_record ring RecordKind.Control (bytes_of c) (Cmd.timestamp_ns c).
Definition try_gps (ring : Q) (s : Telemetry.GpsSample) :=
  try_record ring RecordKind.Gps (bytes_of s) (Telemetry.gps_timestamp_ns s).
Definition try_telemetry (ring : Q) (s : Telemetry.TelemetryPacket) :=
  try_record ring RecordKind.Telemetry (bytes_of s) (Telemetry.tp_timestamp_ns s).
Definition try_imu (ring : Q) (s : Telemetry.ImuSample) :=
  try_record ring RecordKind.Imu (bytes_of s) (Telemetry.imu_timestamp_ns s).

Definition is_full (ring : Q) : bool := fifo_capacity ring <=? fifo_len ring.
Definition pending (ring : Q) : Z := fifo_len ring.

(** ** The storage thread *)

(** one round of [drain_once]: a frame popped and written, if there is one *)
Definition drain_one (ring : Q) (file : DirectFile F)
    : exec (Q * DirectFile F * option (result unit IoError)) :=
  '(ring, o) ← fifo_pop ring;
  match o with
  | None => Ret (ring, file, None)
  | Some e => '(file, r) ← write file (bytes_of e); Ret (ring, file, Some r)
  end.

(** [drain_once] while nobody else uses the ring *)
Fixpoint drain_once (fuel : nat) (ring : Q) (file : DirectFile F) (n : Z)
    : exec (Q * DirectFile F * result Z IoError) :=
  match fuel with
  | O => NoFuel
  | S fuel =>
      '(ring, file, o) ← drain_one ring file;
      match o with
      | None => Ret (ring, file, Ok n)
      | Some (Err e) => Ret (ring, file, Err e)
      | Some (Ok _) => drain_once fuel ring file (n + 1)
      end
  end.

(** the end of [run]: the end marker and the last sector *)
Definition finish (file : DirectFile F) : exec (DirectFile F * result Z IoError) :=
  e ← Entry.new RecordKind.End_ [] 0;
  match e with
  | Err _ => Panic
  | Ok end_ =>
      '(file, r) ← write file (bytes_of end_);
      match r with
      | Err e => Ret (file, Err e)
      | Ok _ =>
          '(file, r) ← flush file;
          match r with
          | Err e => Ret (file, Err e)
          | Ok _ => Ret (file, Ok (written file))
          end
      end
  end.

(** Where [run] stands: inside [drain_once] with [n] frames so far, about to load
    [stop] after an empty drain, or returned. *)
Inductive writer_pc :=
| Draining (n : Z)
| LoadStop
| Returned (r : result Z IoError).

Record Recorder := { ring : Q; file : DirectFile F; stop : bool; pc : writer_pc }.

Definition rec_open (path : list Z) (os_open : bool -> result F IoError) (mem : list Z)
    (ring_capacity : Z) : result Recorder IoError :=
  match open path os_open mem with
  | Err e => Err e
  | Ok f => Ok {| ring := fifo_with_capacity ring_capacity; file := f;
                  stop := false; pc := Draining 0 |}
  end.

(** one access of [run] to the ring or to [stop] *)
Definition run_step (s : Recorder) : exec Recorder :=
  match pc s with
  | Draining n =>
      '(q, f, o) ← drain_one (ring s) (file s);
      Ret {| ring := q; file := f; stop := stop s;
             pc := match o with
                   | None => if n =? 0 then LoadStop else Draining 0
                   | Some (Err e) => Returned (Err e)
                   | Some (Ok _) => Draining (n + 1)
                   end |}
  | LoadStop =>
      if stop s then
        '(f, r) ← finish (file s);
        Ret {| ring := ring s; file := f; stop := stop s; pc := Returned r |}
      else Ret {| ring := ring s; file := file s; stop := stop s; pc := Draining 0 |}
  | Returned _ => Ret s
  end.

Inductive rec_act :=
| Produce (kind : RecordKind) (payload : list Z) (timestamp_ns : Z)
| SetStop
| Writer.

Definition rec_step (s : Recorder) (a : rec_act) : exec (Recorder * option (result unit RecordError)) :=
  match a with
  | Produce k p t =>
      '(q, r) ← try_record (ring s) k p t;
      Ret ({| ring := q; file := file s; stop := stop s; pc := pc s |}, Some r)
  | SetStop => Ret ({| ring := ring s; file := file s; stop := true; pc := pc s |}, None)
  | Writer => s ← run_step s; Ret (s, None)
  end.

(** a schedule, with what each call of the producer answered *)
Fixpoint rec_run (s : Recorder) (acts : list rec_act)
    : exec (Recorder * list (rec_act * option (result unit RecordError))) :=
  match acts with
  | [] => Ret (s, [])
  | a :: acts =>
      '(s, r) ← rec_step s a;
      '(s, rs) ← rec_run s acts;
      Ret (s, (a, r) :: rs)
  end.

End Recorder.
Arguments Recorder : clear implicits.

(** ** The parser *)

(** the [while] loop from [off]; a frame is 528 bytes *)
Fixpoint parse_loop (fuel : nat) (data : list Z) (off : nat) : exec (list FdrEntry) :=
  let sz := size_of (T := FdrEntry) in
  if (off + sz <=? length data)%nat then
    match fuel with
    | O => NoFuel
    | S fuel =>
        bs ← range data off sz;
        match from_bytes_aligned bs with
        | None => Ret []
        | Some e =>
            if bool_decide (Entry.kind e = Some RecordKind.End_) then Ret []
            else out ← parse_loop fuel data (off + sz); Ret (e :: out)
        end
    end
  else Ret [].
Definition parse_entries (data : list Z) : exec (list FdrEntry) := parse_loop (length data) data 0.

(** ** Frames and their images *)

(** the frame [new] builds for a payload that fits *)
Definition frame (kind : RecordKind) (payload : list Z) (timestamp_ns : Z) : FdrEntry :=
  {| Entry.timestamp_ns := timestamp_ns; Entry.payload_len := Z.of_nat (length payload);
     Entry.kind_raw := RecordKind.as_u8 kind; Entry.pad := 0; Entry.reserved := 0;
     Entry.payload_raw := payload ++ replicate (MAX_PAYLOAD - length payload) 0 |}.

Lemma size_entry : size_of (T := FdrEntry) = 528%nat.
Proof. reflexivity. Qed.
Lemma size_entry_pos : (0 < size_of (T := FdrEntry))%nat.
Proof. rewrite size_entry. lia. Qed.
Lemma max_payload_u16 n : (n <= MAX_PAYLOAD)%nat -> uint 16 (Z.of_nat n).
Proof. unfold uint. assert (MAX_PAYLOAD = 512%nat) by reflexivity. lia. Qed.

Lemma Forall2_bytes n l : length l = n -> bytes l ->
  Forall2 (fun w z => uint (8 * Z.of_nat w) z) (replicate n 1%nat) l.
Proof.
  intros <- Hb. induction Hb as [|z l Hz _ IH]; simpl; constructor; [exact Hz | exact IH].
Qed.

Lemma as_u8_byte k : byte (RecordKind.as_u8 k).
Proof. unfold byte, uint. destruct k; simpl; lia. Qed.

Lemma zeros_bytes n : bytes (replicate n 0).
Proof. apply Forall_replicate. unfold byte, uint. lia. Qed.

Lemma frame_wf k p t : bytes p -> uint 64 t -> (length p <= MAX_PAYLOAD)%nat ->
  pb_wf (frame k p t).
Proof.
  intros Hp Ht Hl. change (fields_wf Entry.widths (Entry.fields (frame k p t))).
  unfold fields_wf, Entry.widths, Entry.fields. apply Forall2_app.
  - constructor; [exact Ht|]. constructor; [exact (max_payload_u16 _ Hl)|].
    constructor; [exact (as_u8_byte k)|]. by repeat constructor.
  - apply Forall2_bytes.
    + cbn [frame Entry.payload_raw]. rewrite length_app, length_replicate. lia.
    + apply Forall_app. split; [exact Hp | apply zeros_bytes].
Qed.

Lemma entry_new_spec k p t :
  Entry.new k p t =
  Ret (if (MAX_PAYLOAD <? length p)%nat then
         Err (Entry.PayloadTooLarge (Z.of_nat (length p)) (Z.of_nat MAX_PAYLOAD))
       else Ok (frame k p t)).
Proof.
  unfold Entry.new. destruct (Nat.ltb_spec MAX_PAYLOAD (length p)); [done|].
  rewrite copy_zeros_0, ret_bind by done. unfold frame.
  by rewrite wrap_id by (by apply max_payload_u16).
Qed.

Lemma frame_payload k p t : (length p <= MAX_PAYLOAD)%nat ->
  Entry.payload (frame k p t) = Ret p /\ Entry.kind (frame k p t) = Some k.
Proof.
  intros Hl. split; [|apply RecordKind.kind_of_as_u8]. unfold Entry.payload, range, frame.
  cbn [Entry.payload_raw Entry.payload_len]. rewrite Nat2Z.id, decide_True
    by (rewrite length_app, length_replicate; lia).
  by rewrite drop_0, take_app_length.
Qed.

#[local] Opaque Entry.plain MAX_PAYLOAD.

(** what the log of a session looks like: the frames, then the end marker *)
Definition image (es : list FdrEntry) : list Z := concat (map bytes_of es).
Definition end_image : list Z := bytes_of (frame RecordKind.End_ [] 0).
Definition data_frame (e : FdrEntry) : Prop :=
  pb_wf e /\ Entry.kind e <> Some RecordKind.End_.

Lemma image_app a b : image (a ++ b) = image a ++ image b.
Proof. unfold image. by rewrite map_app, concat_app. Qed.

Lemma end_wf : pb_wf (frame RecordKind.End_ [] 0).
Proof. apply frame_wf; [constructor | unfold uint; lia | simpl; lia]. Qed.

Lemma from_bytes_image e : pb_wf e -> from_bytes_aligned (bytes_of e) = Some e.
Proof.
  intros H. pose proof (length_bytes_of e H) as Hl. unfold from_bytes_aligned.
  rewrite (proj2 (Nat.ltb_ge _ _)) by lia. rewrite <- Hl, firstn_all. by rewrite of_raw_bytes_of.
Qed.

(** the first frame of what is left of a log, if it is whole *)
Lemma prefix_frame (e : FdrEntry) p rest : pb_wf e -> p `prefix_of` bytes_of e ++ rest ->
  (size_of (T := FdrEntry) <= length p)%nat ->
  exists p', p = bytes_of e ++ p' /\ p' `prefix_of` rest.
Proof.
  intros He Hp Hl. rewrite <- (length_bytes_of e He) in Hl.
  destruct Hp as [k Hk]. apply app_eq_inv in Hk as [(j & Hj & E)|(j & Hj & E)].
  - assert (j = []) as -> by (apply nil_length_inv; rewrite Hj, length_app in Hl; lia).
    rewrite app_nil_r in Hj. exists []. rewrite app_nil_r. split; [done | apply prefix_nil].
  - exists j. split; [done|]. by exists k.
Qed.

Lemma range_frame (pre p' : list Z) (e : FdrEntry) : pb_wf e ->
  range (pre ++ bytes_of e ++ p') (length pre) (size_of (T := FdrEntry)) = Ret (bytes_of e).
Proof. intros He. apply range_mid; [done | by rewrite length_bytes_of]. Qed.

(** Parsing any prefix of a log yields whole frames from its front, all of them
    when the end marker is there; the zeros after it are never read. *)
Lemma parse_loop_spec es : forall fuel pre p rest, Forall data_frame es ->
  (length p <= fuel)%nat -> p `prefix_of` image es ++ end_image ++ rest ->
  exists l, parse_loop fuel (pre ++ p) (length pre) = Ret l /\ l `prefix_of` es /\
    ((length (image es ++ end_image) <= length p)%nat -> l = es).
Proof.
  pose proof size_entry_pos as Hsz. pose proof (length_bytes_of _ end_wf) as Hend.
  assert (short : forall fuel pre p, (length p < size_of (T := FdrEntry))%nat ->
    parse_loop fuel (pre ++ p) (length pre) = Ret []).
  { intros fuel pre p Hl. destruct fuel; cbn [parse_loop]; rewrite length_app;
      by rewrite (proj2 (Nat.leb_gt _ _)) by lia. }
  induction es as [|e es IH]; intros fuel pre p rest Hes Hf Hp;
    (destruct (Nat.lt_ge_cases (length p) (size_of (T := FdrEntry))) as [Hs|Hs];
     [exists []; split; [by apply short|]; split; [apply prefix_nil|];
      rewrite length_app; unfold end_image; intros; try done; lia|]);
    (destruct fuel as [|fuel]; [lia|]); cbn [parse_loop];
    rewrite length_app, (proj2 (Nat.leb_le _ _)) by lia.
  - change (image [] ++ end_image ++ rest) with (bytes_of (frame RecordKind.End_ [] 0) ++ rest) in Hp.
    destruct (prefix_frame _ _ _ end_wf Hp Hs) as (p' & -> & _).
    rewrite range_frame, ret_bind, from_bytes_image by apply end_wf.
    rewrite bool_decide_true by apply RecordKind.kind_of_as_u8. by exists [].
  - apply Forall_cons in Hes as [[He Hk] Hes].
    change (image (e :: es)) with (bytes_of e ++ image es) in Hp |- *.
    rewrite <- app_assoc in Hp.
    destruct (prefix_frame _ _ _ He Hp Hs) as (p' & -> & Hp').
    rewrite range_frame, ret_bind, from_bytes_image by done.
    rewrite bool_decide_false by done.
    pose proof (length_bytes_of e He) as Hl.
    destruct (IH fuel (pre ++ bytes_of e) p' rest) as (l & E & Hl1 & Hl2); try done.
    { rewrite length_app in Hf. lia. }
    rewrite length_app, Hl in E. rewrite app_assoc, E, ret_bind. exists (e :: l).
    split; [done|]. split; [by apply prefix_cons|]. intros Hlen. f_equal. apply Hl2.
    rewrite !length_app in *. lia.
Qed.

Lemma parse_log es p rest : Forall data_frame es -> p `prefix_of` image es ++ end_image ++ rest ->
  exists l, parse_entries p = Ret l /\ l `prefix_of` es /\
    ((length (image es ++ end_image) <= length p)%nat -> l = es).
Proof. intros He Hp. by apply (parse_loop_spec es (length p) [] p rest). Qed.

(** ** A session *)

Section Session.
Context {Q F : Type} `{RQ : !BoundedFifo Q FdrEntry} `{RF : !RawFd F}.
Hypothesis progress : forall (fd : F) bs fd' n, bs <> [] ->
  sys_write fd bs = (fd', Ok n) -> (0 < n)%nat.
Implicit Types (s : Recorder Q F) (acc wr left : list FdrEntry).

(** the types of the arguments, and no end marker from the producer *)
Definition act_ok (a : rec_act) : Prop :=
  match a with
  | Produce k p t => k <> RecordKind.End_ /\ bytes p /\ uint 64 t
  | SetStop | Writer => True
  end.

(** the frames of the calls that returned [Ok] *)
Definition accepted1 (x : rec_act * option (result unit RecordError)) : list FdrEntry :=
  match x with
  | (Produce k p t, Some (Ok _)) => [frame k p t]
  | _ => []
  end.
Definition accepted (tr : list (rec_act * option (result unit RecordError))) : list FdrEntry :=
  concat (map accepted1 tr).

(** the bytes of a finished log *)
Definition log (es : list FdrEntry) : list Z := padded (image es ++ end_image).

(** [wr] is in the file and [left] in the ring; [calm] says that no record came
    in since the last empty drain. *)
Record session s acc wr left (calm : bool) : Prop := {
  ses_ring : fifo_rep (ring s) left;
  ses_good : Forall data_frame acc;
  ses_file : match pc s with
             | Draining _ => acc = wr ++ left /\ file_rep (file s) (image wr)
             | LoadStop => acc = wr ++ left /\ file_rep (file s) (image wr) /\
                           (calm = true -> left = [])
             | Returned (Ok w) => acc = wr ++ left /\ on_disk (backend (file s)) = log wr /\
                           w = wrap 64 (Z.of_nat (length (log wr))) /\ (calm = true -> left = [])
             | Returned (Err _) => wr `prefix_of` acc /\
                           on_disk (backend (file s)) `prefix_of` log wr
             end
}.

Lemma image_snoc wr e : image (wr ++ [e]) = image wr ++ bytes_of e.
Proof. rewrite image_app. unfold image at 2. simpl. by rewrite app_nil_r. Qed.

Lemma log_stream wr : exists rest, log wr = image wr ++ end_image ++ rest.
Proof. unfold log, padded. rewrite <- app_assoc. eauto. Qed.

Lemma wrote_prefix d wr r : wrote d (image wr) r -> on_disk (backend d) `prefix_of` log wr.
Proof.
  destruct (log_stream wr) as [rest ->]. destruct r as [[]|e]; simpl; intros H.
  - destruct H as [<- _ _ _ _]. rewrite <- app_assoc. by apply prefix_app_r.
  - by apply prefix_app_r.
Qed.

(** whatever the state, the disk holds a prefix of the log of some of the
    accepted frames, the first ones *)
Lemma session_disk s acc wr left c : session s acc wr left c ->
  wr `prefix_of` acc /\ on_disk (backend (file s)) `prefix_of` log wr.
Proof.
  intros [_ _ H]. destruct (pc s) as [n| |[w|e]].
  - destruct H as [-> H]. split; [by apply prefix_app_r|]. by apply (wrote_prefix _ _ (Ok tt)).
  - destruct H as (-> & H & _). split; [by apply prefix_app_r|]. by apply (wrote_prefix _ _ (Ok tt)).
  - destruct H as (-> & -> & _). split; [by apply prefix_app_r | done].
  - done.
Qed.

Lemma produce_spec q l k p t : fifo_rep q l ->
  exists q' r, try_record q k p t = Ret (q', r) /\
    match r with
    | Ok _ => (length p <= MAX_PAYLOAD)%nat /\ fifo_rep q' (l ++ [frame k p t])
    | Err _ => q' = q
    end.
Proof.
  intros Hq. unfold try_record. rewrite entry_new_spec, ret_bind.
  destruct (Nat.ltb_spec MAX_PAYLOAD (length p)); [by eexists _, (Err _)|].
  destruct (Z.lt_ge_cases (Z.of_nat (length l)) (fifo_capacity q)) as [Hc|Hc].
  - destruct (fifo_push_ok q l (frame k p t) Hq Hc) as (q' & -> & Hr & _).
    rewrite ret_bind. by exists q', (Ok tt).
  - rewrite (fifo_push_full q l _ Hq Hc), ret_bind. by eexists q, (Err _).
Qed.

Lemma drain_one_spec q l d wr : fifo_rep q l -> file_rep d (image wr) -> Forall data_frame l ->
  exists q' d' o, drain_one q d = Ret (q', d', o) /\
    match o with
    | None => l = [] /\ fifo_rep q' [] /\ d' = d
    | Some r => exists e l', l = e :: l' /\ fifo_rep q' l' /\ wrote d' (image (wr ++ [e])) r
    end.
Proof.
  intros Hq Hd Hl. unfold drain_one. destruct l as [|e l].
  - rewrite (fifo_pop_nil q Hq), ret_bind. by exists q, d, None.
  - destruct (fifo_pop_some q e l Hq) as (q' & -> & Hq' & _). rewrite ret_bind.
    destruct (write_spec progress d _ (bytes_of e) Hd) as (d' & r & -> & Hw). rewrite ret_bind.
    exists q', d', (Some r). split; [done|]. exists e, l. by rewrite image_snoc.
Qed.

Lemma close_log_spec d wr : file_rep d (image wr) ->
  exists d' r, finish d = Ret (d', r) /\
    match r with
    | Ok w => on_disk (backend d') = log wr /\ w = wrap 64 (Z.of_nat (length (log wr)))
    | Err _ => on_disk (backend d') `prefix_of` log wr
    end.
Proof.
  intros Hd. unfold finish. rewrite entry_new_spec, ret_bind.
  rewrite (proj2 (Nat.ltb_ge _ _)) by (simpl; lia). fold end_image.
  destruct (write_spec progress d _ end_image Hd) as (d1 & r & -> & Hw). rewrite ret_bind.
  destruct r as [[]|e]; simpl in Hw.
  - destruct (flush_spec progress d1 _ Hw) as (d2 & r & -> & Hf & Hk). rewrite ret_bind.
    destruct r as [[]|e]; [|by exists d2, (Err e)].
    exists d2, (Ok (written d2)). split; [done|]. specialize (Hk eq_refl).
    split; [done|]. unfold log. rewrite <- Hk. apply Hf.
  - exists d1, (Err e). split; [done|]. etrans; [exact Hw|]. unfold log, padded. by apply prefix_app_r.
Qed.

Definition draining s : bool := match pc s with Draining _ => true | _ => false end.

Lemma frame_good k p t : act_ok (Produce k p t) -> (length p <= MAX_PAYLOAD)%nat ->
  data_frame (frame k p t).
Proof.
  intros (Hk & Hp & Ht) Hl. split; [by apply frame_wf|].
  rewrite (proj2 (frame_payload k p t Hl)). congruence.
Qed.

Lemma produce_step s acc wr left b k p t : session s acc wr left b ->
  act_ok (Produce k p t) ->
  exists s' r, rec_step s (Produce k p t) = Ret (s', Some r) /\ pc s' = pc s /\
    let new := accepted1 (Produce k p t, Some r) in
    session s' (acc ++ new) wr (left ++ new) (b && draining s).
Proof.
  intros [Hr Hg Hf] Ha. cbn [rec_step].
  destruct (produce_spec (ring s) left k p t Hr) as (q' & r & -> & Hq). rewrite ret_bind.
  exists {| ring := q'; file := file s; stop := stop s; pc := pc s |}, r.
  split; [done|]. split; [done|]. unfold draining. destruct r as [[]|e]; cbn [accepted1].
  - destruct Hq as [Hl Hq]. constructor; cbn [ring file pc]; [exact Hq| |].
    + apply Forall_app. split; [done|]. constructor; [by apply frame_good | done].
    + destruct (pc s) as [n| |[w|e]]; rewrite ?andb_true_r, ?andb_false_r.
      * destruct Hf as [-> Hf]. by rewrite app_assoc.
      * destruct Hf as (-> & Hf & _). by rewrite app_assoc.
      * destruct Hf as (-> & Hf & Hw & _). by rewrite app_assoc.
      * destruct Hf as [Hp Hd]. split; [by apply prefix_app_r | done].
  - subst q'. rewrite !app_nil_r. constructor; cbn [ring file pc]; [done | done|].
    destruct (pc s) as [n| |[w|e']]; rewrite ?andb_true_r, ?andb_false_r;
      repeat match goal with H : _ /\ _ |- _ => destruct H end; try done; repeat split; done.
Qed.

(** one step of the storage thread; at [LoadStop] it takes nothing from the ring *)
Lemma writer_step s acc wr left b : session s acc wr left b ->
  exists s', run_step s = Ret s' /\ exists wr' left', session s' acc wr' left' b /\
    (pc s = LoadStop -> wr' = wr /\ left' = left).
Proof.
  intros [Hr Hg Hf]. unfold run_step. destruct (pc s) as [n| |r] eqn:Epc.
  - destruct Hf as [-> Hf]. apply Forall_app in Hg as Hg2. destruct Hg2 as [_ Hl].
    destruct (drain_one_spec _ _ _ _ Hr Hf Hl) as (q' & d' & o & -> & Ho). rewrite ret_bind.
    eexists. split; [done|]. destruct o as [r|].
    + destruct Ho as (e & l' & -> & Hq & Hw). exists (wr ++ [e]), l'. split; [|done].
      constructor; cbn [ring file pc]; [done | done|].
      rewrite (app_assoc wr [e] l' : wr ++ e :: l' = _).
      destruct r as [[]|err]; [done|]. split; [by apply prefix_app_r|].
      by apply (wrote_prefix _ _ (Err err)).
    + destruct Ho as (-> & Hq & ->). exists wr, []. split; [|done].
      constructor; cbn [ring file pc]; [done | done|]. by destruct (n =? 0).
  - destruct Hf as (-> & Hf & Hc). destruct (stop s).
    + destruct (close_log_spec _ _ Hf) as (d' & r & -> & Hd). rewrite ret_bind.
      eexists. split; [done|]. exists wr, left. split; [|done].
      constructor; cbn [ring file pc]; [done | done|]. destruct r as [w|e].
      * destruct Hd as [Hd Hw]. by repeat split.
      * split; [by apply prefix_app_r | done].
    + eexists. split; [done|]. exists wr, left. split; [|done].
      by constructor; cbn [ring file pc].
  - exists s. split; [done|]. exists wr, left. split; [|done]. constructor; [done|done|].
    by rewrite Epc.
Qed.

(** a schedule in which no record comes in between an empty drain and the next *)
Fixpoint calm s (acts : list rec_act) : Prop :=
  match acts with
  | [] => True
  | a :: acts =>
      match a with Produce _ _ _ => draining s = true | _ => True end /\
      match rec_step s a with Ret (s', _) => calm s' acts | _ => True end
  end.

Lemma any_step s acc wr left b a : session s acc wr left b -> act_ok a ->
  (b = true -> match a with Produce _ _ _ => draining s = true | _ => True end) ->
  exists s' r, rec_step s a = Ret (s', r) /\
    exists wr' left', session s' (acc ++ accepted1 (a, r)) wr' left' b.
Proof.
  intros Hs Ha Hb. destruct a as [k p t| |].
  - destruct (produce_step _ _ _ _ _ _ _ _ Hs Ha) as (s' & r & E & _ & H).
    exists s', (Some r). split; [done|]. do 2 eexists.
    destruct b; [rewrite Hb in H by done|]; exact H.
  - eexists _, None. split; [done|]. exists wr, left. rewrite app_nil_r.
    destruct Hs as [H1 H2 H3]. by constructor; cbn [ring file pc].
  - destruct (writer_step _ _ _ _ _ Hs) as (s' & E & wr' & left' & H & _).
    exists s', None. cbn [rec_step]. rewrite E, ret_bind. split; [done|].
    exists wr', left'. by rewrite app_nil_r.
Qed.

Lemma run_session acts : forall s acc wr left b, session s acc wr left b -> Forall act_ok acts ->
  (b = true -> calm s acts) ->
  exists s' tr, rec_run s acts = Ret (s', tr) /\
    exists wr' left', session s' (acc ++ accepted tr) wr' left' b.
Proof.
  induction acts as [|a acts IH]; intros s acc wr left b Hs Ha Hc; cbn [rec_run].
  - exists s, []. split; [done|]. exists wr, left. by rewrite app_nil_r.
  - apply Forall_cons in Ha as [Ha1 Ha2].
    destruct (any_step _ _ _ _ _ _ Hs Ha1) as (s1 & r & E & wr1 & left1 & H1).
    { intros Hb. by apply Hc. }
    rewrite E, ret_bind. destruct (IH _ _ _ _ _ H1 Ha2) as (s' & tr & -> & wr' & left' & H').
    { intros Hb. destruct (Hc Hb) as [_ H]. by rewrite E in H. }
    rewrite ret_bind. exists s', ((a, r) :: tr). split; [done|]. exists wr', left'.
    change (accepted ((a, r) :: tr)) with (accepted1 (a, r) ++ accepted tr). by rewrite app_assoc.
Qed.

Lemma opened_session path os_open mem c s b : (SECTOR_SIZE <= length mem)%nat ->
  (forall x fd, os_open x = Ok fd -> on_disk fd = []) ->
  fifo_min (Q := Q) (A := FdrEntry) <= c <= 2 ^ 63 ->
  rec_open path os_open mem c = Ok s -> session s [] [] [] b.
Proof.
  intros Hm Ho Hc. unfold rec_open. destruct (open path os_open mem) as [d|e] eqn:E; [|done].
  intros [= <-]. constructor; cbn [ring file pc]; [by apply fifo_new_rep | done|].
  split; [done|]. by apply (open_spec path os_open mem _ Hm Ho).
Qed.

(** the parser on the disk of any state *)
Lemma session_parsed s acc wr left b : session s acc wr left b ->
  exists parsed, parse_entries (on_disk (backend (file s))) = Ret parsed /\
    parsed `prefix_of` wr /\ forall w, pc s = Returned (Ok w) -> parsed = wr.
Proof.
  intros H. destruct (session_disk _ _ _ _ _ H) as [Hwr Hd].
  destruct (log_stream wr) as [rest El]. rewrite El in Hd.
  assert (Hg : Forall data_frame wr).
  { pose proof (ses_good _ _ _ _ _ H) as Hg. destruct Hwr as [k ->]. by apply Forall_app in Hg as [??]. }
  destruct (parse_log _ _ _ Hg Hd) as (l & E & Hl & Hfull). exists l. split; [done|].
  split; [done|]. intros w Hw. apply Hfull. destruct H as [_ _ H]. rewrite Hw in H.
  destruct H as (_ & -> & _). rewrite El, !length_app. lia.
Qed.

End Session.

(** ** Theorems *)

(** a file whose every write takes a byte, opened empty; a buffer of the
    capacity the code asks for *)
Record recorder_host {F} `{!RawFd F} (os_open : bool -> result F IoError) (mem : list Z) : Prop := {
  host_progress : forall (fd : F) bs fd' n, bs <> [] -> sys_write fd bs = (fd', Ok n) -> (0 < n)%nat;
  host_empty : forall b fd, os_open b = Ok fd -> on_disk fd = [];
  host_buffer : (SECTOR_SIZE <= length mem)%nat
}.

(** C24: the flight recorder loses no record it does not account for.  Whatever
    the interleaving of the producer, the stop request and the storage thread, no
    call panics or hangs, and at every moment (a crash included) the parser reads
    from the disk a prefix of the records accepted, in order and unaltered; once
    the thread has returned without an error the rest is exactly what the ring
    still holds, the reported length is the file's, and nothing is left when no
    record came in after the last empty drain. *)
Theorem recorder_crash_consistent {Q F} `{RQ : !BoundedFifo Q FdrEntry} `{RF : !RawFd F}
    path os_open mem c (s : Recorder Q F) acts :
  recorder_host os_open mem -> fifo_min (Q := Q) (A := FdrEntry) <= c <= 2 ^ 63 ->
  rec_open path os_open mem c = Ok s -> Forall act_ok acts ->
  exists s' tr parsed, rec_run s acts = Ret (s', tr) /\
    parse_entries (on_disk (backend (file s'))) = Ret parsed /\
    parsed `prefix_of` accepted tr /\
    forall w, pc s' = Returned (Ok w) ->
      w = wrap 64 (Z.of_nat (length (on_disk (backend (file s'))))) /\
      exists left, fifo_rep (ring s') left /\ accepted tr = parsed ++ left /\
        (calm s acts -> left = []).
Proof.
  intros [Hp He Hb] Hc Ho Ha.
  pose proof (fun b => opened_session path os_open mem c s b Hb He Hc Ho) as H0.
  destruct (run_session Hp acts s [] [] [] false (H0 false) Ha) as (s' & tr & E & wr & left & H); [done|].
  destruct (session_parsed _ _ _ _ _ H) as (parsed & Ep & Hpre & Hw).
  exists s', tr, parsed. split; [done|]. split; [done|].
  destruct (session_disk _ _ _ _ _ H) as [Hwr _]. split; [by etrans|].
  intros w Epc. rewrite (Hw w Epc) in *. destruct H as [Hr _ Hf]. rewrite Epc in Hf.
  destruct Hf as (Ea & Ed & Ew & _). rewrite Ed. split; [done|]. exists left.
  split; [done|]. split; [done|]. intros Hcalm.
  destruct (run_session Hp acts s [] [] [] true (H0 true) Ha) as (s2 & tr2 & E2 & wr2 & left2 & H2); [done|].
  rewrite E in E2. injection E2 as <- <-.
  destruct (session_parsed _ _ _ _ _ H2) as (parsed2 & Ep2 & _ & Hw2).
  rewrite Ep in Ep2. injection Ep2 as <-. destruct H2 as [_ _ Hf]. rewrite Epc in Hf.
  destruct Hf as (Ea2 & _ & _ & Hl). rewrite Hl, app_nil_r in Ea2 by done.
  rewrite Ea2, (Hw2 w Epc) in Ea. symmetry in Ea. apply (f_equal length) in Ea.
  rewrite length_app in Ea. apply nil_length_inv. lia.
Qed.

(** stopping the recorder can lose the last record.  When the storage thread
    has just found the ring empty and is about to look at the stop flag, a record
    that the sink accepts before the caller stops the recorder is in the ring when
    the thread returns successfully, and not in the file. *)
Theorem stop_loses_record {Q F} `{RQ : !BoundedFifo Q FdrEntry} `{RF : !RawFd F}
    path os_open mem c (s0 s s' : Recorder Q F) acts tr tr' k p t w :
  recorder_host os_open mem -> fifo_min (Q := Q) (A := FdrEntry) <= c <= 2 ^ 63 ->
  rec_open path os_open mem c = Ok s0 -> Forall act_ok acts -> act_ok (Produce k p t) ->
  rec_run s0 acts = Ret (s, tr) -> pc s = LoadStop ->
  rec_run s [Produce k p t; SetStop; Writer] = Ret (s', tr') ->
  head tr' = Some (Produce k p t, Some (Ok tt)) -> pc s' = Returned (Ok w) ->
  exists parsed lost, parse_entries (on_disk (backend (file s'))) = Ret parsed /\
    accepted (tr ++ tr') = parsed ++ lost ++ [frame k p t].
Proof.
  intros [Hp He Hb] Hc Ho Ha Hk E Epc E' Hacc Hw.
  pose proof (opened_session path os_open mem c s0 false Hb He Hc Ho) as H0.
  destruct (run_session Hp acts s0 [] [] [] false H0 Ha) as (s1 & tr1 & E1 & wr & left & H); [done|].
  rewrite E in E1. injection E1 as <- <-. cbn [app] in H.
  destruct (produce_step _ _ _ _ _ k p t H Hk) as (s2 & r & E2 & Epc2 & H2).
  cbn [rec_run] in E'. rewrite E2, ret_bind in E'.
  change (rec_step s2 SetStop) with (Ret (A := Recorder Q F * option (result unit RecordError))
    ({| ring := ring s2; file := file s2; stop := true; pc := pc s2 |}, None)) in E'.
  rewrite ret_bind in E'. set (s3 := {| ring := ring s2; file := file s2; stop := true; pc := pc s2 |}) in *.
  assert (H3 : session s3 (accepted tr ++ accepted1 (Produce k p t, Some r)) wr
    (left ++ accepted1 (Produce k p t, Some r)) (false && draining s)).
  { destruct H2 as [? ? ?]. by constructor. }
  destruct (writer_step Hp _ _ _ _ _ H3) as (s4 & E4 & wr' & left' & H4 & Hsame).
  destruct Hsame as [-> ->]; [by rewrite <- Epc|]. cbn [rec_step] in E'.
  rewrite E4, !ret_bind in E'. injection E' as <- <-. injection Hacc as ->.
  destruct (session_parsed _ _ _ _ _ H4) as (parsed & Ep & _ & Hfull).
  exists parsed, left. split; [done|]. rewrite (Hfull w Hw).
  destruct H4 as [_ _ Hf]. rewrite Hw in Hf. destruct Hf as [Hf _].
  unfold accepted in *. rewrite map_app, concat_app. cbn [map concat accepted1 app] in *.
  exact Hf.
Qed.

Module DemoFdr.
Definition mem : list Z := replicate 4096 7.
Definition os_open (b : bool) : result (list (list Z)) IoError := Ok [].
Definition opened : Recorder (Spsc.SpscRing FdrEntry) (list (list Z)) :=
  {| ring := fifo_with_capacity 4;
     file := {| backend := []; staging := mem; staging_len := 0; direct := true; written := 0 |};
     stop := false; pc := Draining 0 |}.

Lemma host : recorder_host os_open mem.
Proof.
  split.
  - intros fd bs fd' n Hne H. injection H as _ <-. destruct bs; [done|]. cbn [length]. lia.
  - intros b fd H. by injection H as <-.
  - apply Nat.leb_le. vm_compute. reflexivity.
Qed.

Lemma is_open : rec_open [47; 102] os_open mem 4 = Ok opened.
Proof. reflexivity. Qed.

(** the state and the trace after a schedule *)
Definition after (s : Recorder (Spsc.SpscRing FdrEntry) (list (list Z))) acts :=
  match rec_run s acts with Ret x => x | _ => (s, []) end.
Definition late : list rec_act := [Produce RecordKind.Imu [1; 2; 3] 9; SetStop; Writer].
Definition before := after opened [Writer].
Definition final := after (fst before) late.

Lemma late_ok : Forall act_ok late.
Proof.
  repeat constructor; try done; vm_compute; first [discriminate | reflexivity].
Qed.
End DemoFdr.

Lemma recorder_crash_consistent_witness :
  exists s' tr parsed, rec_run DemoFdr.opened DemoFdr.late = Ret (s', tr) /\
    parse_entries (on_disk (backend (file s'))) = Ret parsed /\
    parsed `prefix_of` accepted tr /\
    forall w, pc s' = Returned (Ok w) ->
      w = wrap 64 (Z.of_nat (length (on_disk (backend (file s'))))) /\
      exists left, fifo_rep (ring s') left /\ accepted tr = parsed ++ left /\
        (calm DemoFdr.opened DemoFdr.late -> left = []).
Proof.
  apply (recorder_crash_consistent [47; 102] DemoFdr.os_open DemoFdr.mem 4).
  - exact DemoFdr.host.
  - simpl. lia.
  - exact DemoFdr.is_open.
  - exact DemoFdr.late_ok.
Defined.

Lemma stop_loses_record_witness :
  exists parsed lost,
    parse_entries (on_disk (backend (file (fst DemoFdr.final)))) = Ret parsed /\
    accepted (snd DemoFdr.before ++ snd DemoFdr.final) =
      parsed ++ lost ++ [frame RecordKind.Imu [1; 2; 3] 9].
Proof.
  apply (stop_loses_record [47; 102] DemoFdr.os_open DemoFdr.mem 4 DemoFdr.opened
    (fst DemoFdr.before) (fst DemoFdr.final) [Writer] (snd DemoFdr.before) (snd DemoFdr.final)
    RecordKind.Imu [1; 2; 3] 9 4096).
  - exact DemoFdr.host.
  - simpl. lia.
  - exact DemoFdr.is_open.
  - by repeat constructor.
  - exact (Forall_inv DemoFdr.late_ok).
  - vm_compute. reflexivity.
  - vm_compute. reflexivity.
  - vm_compute. reflexivity.
  - vm_compute. reflexivity.
  - vm_compute. reflexivity.
Defined.

(** The record the sink accepted is not in the file. *)
Example record_lost :
  (head (snd DemoFdr.final),
   parse_entries (on_disk (backend (file (fst DemoFdr.final))))) =
  (Some (Produce RecordKind.Imu [1; 2; 3] 9, Some (Ok tt)), Ret []).
Proof. vm_compute. reflexivity. Qed.

(** A payload length no producer writes makes the accessor panic. *)
Example corrupt_length_panics :
  Entry.payload {| Entry.timestamp_ns := 0; Entry.payload_len := 513; Entry.kind_raw := 0;
    Entry.pad := 0; Entry.reserved := 0; Entry.payload_raw := replicate 512 0 |} = Panic.
Proof. vm_compute. reflexivity. Qed.
