(* ===== verification/Npy.v ===== *)
(** * Training exports: [tpt-t-analytics/src/npy.rs], [export.rs]

    The NumPy container and the data set made of a flight's records.  A writer is
    a value of class [AppendFile].  A [f32] is kept as its bit pattern. *)

From stdpp Require Import strings.
From S2P Require Import Prelude Text Ring Cast Ser Float DirectIo Fdr.
From S2P Require Mode.
From S2P Require Recorder.
Import Recorder (AppendFile, contents, write_all).

Definition NPY_MAGIC : list Z := [0x93; 78; 85; 77; 80; 89].

Inductive NpyError := TooShort | BadMagic | BadHeaderLen | BadHeader.

Definition NpyError_fmt (e : NpyError) : list Z :=
  match e with
  | TooShort => ascii_bytes "npy: stream too short for prefix"
  | BadMagic => ascii_bytes "npy: bad magic (not a .npy file)"
  | BadHeaderLen => ascii_bytes "npy: header length out of range"
  | BadHeader => ascii_bytes "npy: malformed header dict"
  end.

(** ** Writing *)

(** [[String]::join] *)
Fixpoint join (sep : list Z) (ls : list (list Z)) : list Z :=
  match ls with
  | [] => []
  | [a] => a
  | a :: ls => a ++ sep ++ join sep ls
  end.

Definition dict (descr : list Z) (shape : list Z) : list Z :=
  ascii_bytes "{'descr': '" ++ descr ++ ascii_bytes "', 'fortran_order': False, 'shape': ("
  ++ join (ascii_bytes ", ") (map dec shape) ++ ascii_bytes "), }".

(** [while hl < need { hl += 64; }] *)
Fixpoint header_len (fuel hl need : nat) : nat :=
  if (hl <? need)%nat then
    match fuel with
    | O => hl
    | S fuel => header_len fuel (hl + 64) need
    end
  else hl.

(** [hl] for a dictionary of the given bytes *)
Definition hl_of (d : list Z) : nat := let need := (length d + 1)%nat in header_len need 54 need.
Definition header (d : list Z) : list Z := d ++ replicate (hl_of d - (length d + 1)) 32 ++ [10].

Section Write.
Context {W : Type} `{AF : !AppendFile W}.

(** calls of [write_all] one after the other, up to the first error *)
Fixpoint write_parts (w : W) (parts : list (list Z)) : W * result unit IoError :=
  match parts with
  | [] => (w, Ok tt)
  | p :: parts =>
      let '(w, r) := write_all w p in
      match r with
      | Err e => (w, Err e)
      | Ok _ => write_parts w parts
      end
  end.

Definition write_npy (w : W) (descr : list Z) (shape : list Z) (data : list Z)
    : W * result unit IoError :=
  let d := utf8 (dict descr shape) in
  let '(w, r) := write_parts w
    [NPY_MAGIC; [1; 0]; le_bytes 2 (wrap 16 (Z.of_nat (hl_of d))); header d; data] in
  match r with
  | Err e => (w, Err e)
  | Ok _ => Recorder.flush w
  end.

(** the little-endian images of the elements *)
Definition f32_npy (w : W) (shape : list Z) (data : list Z) : W * result unit IoError :=
  write_npy w (ascii_bytes "<f4") shape (concat (map (le_bytes 4) data)).
Definition f64_npy (w : W) (shape : list Z) (data : list Z) : W * result unit IoError :=
  write_npy w (ascii_bytes "<f8") shape (concat (map (le_bytes 8) data)).
End Write.

(** ** Reading *)

Record NpyView := { descr : list Z; shape : list Z; data : list Z }.

Definition shape_tag : list Z := ascii_bytes "'shape': (".

Definition read_npy (bytes : list Z) : result NpyView NpyError :=
  if (length bytes <? 10)%nat then Err TooShort
  else if negb (bool_decide (take 6 bytes = NPY_MAGIC)) then Err BadMagic
  else
    let hl := Z.to_nat (le_val (take 2 (drop 8 bytes))) in
    if (length bytes <? 10 + hl)%nat then Err BadHeaderLen
    else
      match
        header ← from_utf8 (take hl (drop 10 bytes));
        descr ← split [39] header !! 3%nat;
        start ← find_at shape_tag header;
        let shape_start := (start + length shape_tag)%nat in
        end_ ← find_at [41] (drop shape_start header);
        let shape_str := take end_ (drop shape_start header) in
        shape ← (if bool_decide (trim shape_str = []) then Some []
                 else mapM (fun s => parse_uint 64 (trim s)) (split [44] shape_str));
        Some {| descr := descr; shape := shape; data := drop (10 + hl) bytes |}
      with
      | None => Err BadHeader
      | Some v => Ok v
      end.

(** ** Samples (export.rs) *)

Record Sample := { features : list Z; label : Z }.
Record AiDataset := { feature_dim : nat; samples : list Sample }.

Section Dataset.
(** the bit pattern a cast of a NaN yields, which Rust leaves open *)
Context (nan_cast : Z -> Z).

(** [x as f32] of a [f64] and of an unsigned integer *)
Definition cast64 (z : Z) : Z := f32_bits (nan_cast z) (f64_to_f32 (f64_of_bits z)).
Definition castu (z : Z) : Z := f32_bits (nan_cast z) (f32_of_Z z).

Definition extract_features (kind : RecordKind.RecordKind) (payload : list Z) : option Sample :=
  match kind with
  | RecordKind.Control =>
      c ← from_bytes_aligned (T := Cmd.ControlCommand Z) payload;
      Some {| features := [castu (Cmd.mode_raw c);
                           castu (if Z.land (Cmd.flags c) FLAG_AI_ORIGIN =? 0 then 0 else 1)]
                          ++ Cmd.axes c;
              label := castu (Cmd.mode_raw c) |}
  | RecordKind.Imu =>
      s ← from_bytes_aligned (T := Telemetry.ImuSample) payload;
      Some {| features := Telemetry.gyro_rps s ++ Telemetry.accel_g s; label := 0 |}
  | RecordKind.Gps =>
      s ← from_bytes_aligned (T := Telemetry.GpsSample) payload;
      Some {| features := [cast64 (Telemetry.lat_deg s); cast64 (Telemetry.lon_deg s);
                           cast64 (Telemetry.alt_m s); Telemetry.speed_mps s;
                           Telemetry.course_deg s; castu (Telemetry.sats s);
                           castu (Telemetry.fix_ok s)];
              label := castu (Telemetry.fix_ok s) |}
  | RecordKind.Telemetry =>
      s ← from_bytes_aligned (T := Telemetry.TelemetryPacket) payload;
      Some {| features := Telemetry.values s; label := castu (Telemetry.tp_kind s) |}
  | RecordKind.End_ => None
  end.

(** the loop over the entries; a payload length beyond the buffer panics *)
Fixpoint collect (es : list Entry.FdrEntry) (dim : nat) (out : list Sample)
    : exec (nat * list Sample) :=
  match es with
  | [] => Ret (dim, out)
  | e :: es =>
      match Entry.kind e with
      | None => collect es dim out
      | Some kind =>
          p ← Entry.payload e;
          match extract_features kind p with
          | None => collect es dim out
          | Some s => collect es (Nat.max dim (length (features s))) (out ++ [s])
          end
      end
  end.

(** [Vec::resize(n, 0.0)] *)
Definition resize (n : nat) (l : list Z) : list Z := take n l ++ replicate (n - length l) 0.

Definition from_entries (es : list Entry.FdrEntry) : exec AiDataset :=
  '(dim, ss) ← collect es 0 [];
  Ret {| feature_dim := dim;
         samples := map (fun s => {| features := resize dim (features s); label := label s |}) ss |}.

End Dataset.

Definition num_samples (d : AiDataset) : nat := length (samples d).
Definition features_matrix (d : AiDataset) : list Z := concat (map features (samples d)).
Definition labels_vec (d : AiDataset) : list Z := map label (samples d).

(** [made], [ff] and [lf] are what creating the directory and the two files
    answers; the files as far as they were written. *)
Definition write_npy_pair {W} `{!AppendFile W} (d : AiDataset) (made : result unit IoError)
    (ff lf : result W IoError) : option W * option W * result unit IoError :=
  match made with
  | Err e => (None, None, Err e)
  | Ok _ =>
      match ff with
      | Err e => (None, None, Err e)
      | Ok f =>
          let '(f, r) := f32_npy f [Z.of_nat (num_samples d); Z.of_nat (feature_dim d)]
                           (features_matrix d) in
          match r with
          | Err e => (Some f, None, Err e)
          | Ok _ =>
              match lf with
              | Err e => (Some f, None, Err e)
              | Ok l =>
                  let '(l, r) := f32_npy l [Z.of_nat (num_samples d)] (labels_vec d) in
                  match r with
                  | Err e => (Some f, Some l, Err e)
                  | Ok _ => (Some f, Some l, Ok tt)
                  end
              end
          end
      end
  end.
Definition export_pytorch {W} `{!AppendFile W} := write_npy_pair (W := W).
Definition export_jax {W} `{!AppendFile W} := write_npy_pair (W := W).

(** ** The header, read back *)

Lemma header_len_spec fuel : forall hl need k, (hl = 54 + 64 * k)%nat -> (need <= hl + 64 * fuel)%nat ->
  exists j, header_len fuel hl need = (54 + 64 * j)%nat /\ (need <= header_len fuel hl need)%nat.
Proof.
  induction fuel as [|fuel IH]; intros hl need k -> Hn; cbn [header_len].
  - rewrite (proj2 (Nat.ltb_ge _ _)) by lia. exists k. split; [done | lia].
  - destruct (Nat.ltb_spec (54 + 64 * k) need).
    + apply (IH _ _ (S k)); lia.
    + exists k. split; [done | lia].
Qed.

(** the header has the announced length; with the ten bytes before it, it ends
    on a 64-byte boundary *)
Lemma hl_spec d : length (header d) = hl_of d /\ ((10 + hl_of d) mod 64 = 0)%nat.
Proof.
  destruct (header_len_spec (length d + 1) 54 (length d + 1) 0) as (j & E & Hn); [lia | lia|].
  unfold header, hl_of in *. split.
  - rewrite !length_app, length_replicate. simpl. lia.
  - rewrite E. replace (10 + (54 + 64 * j))%nat with ((1 + j) * 64)%nat by lia.
    apply Nat.Div0.mod_mul.
Qed.

(** [descr] as the round trip needs it: ASCII without a quote *)
Definition plain_descr (d : list Z) : Prop := ascii d /\ 39 ∉ d.

Lemma ascii_join ls : Forall ascii ls -> ascii (join (ascii_bytes ", ") ls).
Proof.
  induction 1 as [|a ls Ha Hls IH]; [constructor|]. destruct ls as [|b ls]; [done|].
  change (ascii (a ++ ascii_bytes ", " ++ join (ascii_bytes ", ") (b :: ls))).
  apply Forall_app. split; [done|]. apply Forall_app. split; [|done].
  by repeat constructor.
Qed.

Lemma dec_ascii n : 0 <= n -> ascii (dec n).
Proof. intros Hn. apply digits_ascii. by apply dec_spec. Qed.

Lemma dict_ascii d sh : ascii d -> Forall (fun n => 0 <= n) sh -> ascii (dict d sh).
Proof.
  intros Hd Hs. unfold dict. repeat (apply Forall_app; split); try done.
  all: try by repeat constructor.
  apply ascii_join, Forall_map. eapply Forall_impl; [exact Hs|]. exact dec_ascii.
Qed.

Lemma find_at_miss (c x y : Z) n r : x <> y ->
  find_at (c :: x :: n) (c :: y :: r) = S <$> find_at (c :: x :: n) (y :: r).
Proof.
  intros Hne. change (find_at (c :: x :: n) (c :: y :: r)) with
    (if bool_decide (take (length (c :: x :: n)) (c :: y :: r) = c :: x :: n) then Some 0%nat
     else S <$> find_at (c :: x :: n) (y :: r)).
  rewrite bool_decide_false; [done|]. cbn [length take]. congruence.
Qed.

(** The tag of the shape is found where it stands: no quoted word before it is
    followed by the same text. *)
Lemma tag_after_descr d r : 39 ∉ d ->
  find_at shape_tag (39 :: d ++ 39 :: 44 :: r) =
  (fun n => S (length d + n)) <$> find_at shape_tag (39 :: 44 :: r).
Proof.
  intros Hd. unfold shape_tag.
  change (ascii_bytes "'shape': (") with (39 :: 115 :: [104; 97; 112; 101; 39; 58; 32; 40]).
  set (n := [104; 97; 112; 101; 39; 58; 32; 40]).
  assert (E : find_at (39 :: 115 :: n) (39 :: d ++ 39 :: 44 :: r) =
    S <$> find_at (39 :: 115 :: n) (d ++ 39 :: 44 :: r)).
  { cbn [find_at]. rewrite bool_decide_false; [done|]. intros H. unfold n in H. cbn [length take] in H.
    injection H as H.
    pose proof (find_at_one 39 d (44 :: r) Hd) as F1.
    pose proof (find_at_one 39 [115; 104; 97; 112; 101]
      ([58; 32; 40] ++ drop 9 (d ++ 39 :: 44 :: r)) ltac:(by apply no_char)) as F2.
    rewrite <- (take_drop 9 (d ++ 39 :: 44 :: r)), H in F1.
    assert (F3 : Some 5%nat = Some (length d)) by (rewrite <- F1; symmetry; exact F2).
    injection F3 as F3.
    apply (f_equal (fun l => l !! 6%nat)) in H. cbv beta in H.
    rewrite lookup_take_lt in H by lia.
    rewrite lookup_app_r in H by lia. rewrite <- F3 in H. discriminate. }
  rewrite E, find_at_skip by done. by rewrite <- option_fmap_compose.
Qed.

Definition quoted_key : list Z := ascii_bytes "'descr': ".
Definition between : list Z := ascii_bytes "', 'fortran_order': False, ".

Lemma dict_shape d sh : dict d sh =
  123 :: quoted_key ++ 39 :: d ++ between ++ shape_tag
  ++ join (ascii_bytes ", ") (map dec sh) ++ ascii_bytes "), }".
Proof. reflexivity. Qed.

(** the description is the fourth piece between quotes *)
Lemma split_descr d rest : 39 ∉ d ->
  split [39] (123 :: quoted_key ++ 39 :: d ++ 39 :: rest) !! 3%nat = Some d.
Proof.
  intros Hd.
  change (123 :: quoted_key ++ 39 :: d ++ 39 :: rest) with
    ([123] ++ 39 :: ascii_bytes "descr" ++ 39 :: ascii_bytes ": " ++ 39 :: d ++ 39 :: rest).
  by rewrite !split_cons by (done || by apply no_char).
Qed.

Lemma find_at_here (needle rest : list Z) : find_at needle (needle ++ rest) = Some 0%nat.
Proof.
  pose proof (take_app_length needle rest) as E.
  destruct (needle ++ rest); cbn [find_at]; by rewrite bool_decide_true.
Qed.

Lemma find_tag d rest : 39 ∉ d ->
  find_at shape_tag (123 :: quoted_key ++ 39 :: d ++ between ++ shape_tag ++ rest) =
  Some (length (123 :: quoted_key ++ 39 :: d ++ between)).
Proof.
  intros Hd.
  pose proof (find_at_here shape_tag rest) as E0.
  change (123 :: quoted_key ++ 39 :: d ++ between ++ shape_tag ++ rest) with
    ([123] ++ 39 :: 100 :: ascii_bytes "escr" ++ 39 :: 58 :: [32] ++
      (39 :: d ++ 39 :: 44 :: drop 2 between ++ shape_tag ++ rest)).
  change shape_tag with (39 :: 115 :: drop 2 shape_tag) at 1.
  rewrite (find_at_skip 39 _ [123]) by by apply no_char. rewrite find_at_miss by done.
  change (100 :: ascii_bytes "escr" ++ ?x) with (ascii_bytes "descr" ++ x).
  rewrite (find_at_skip 39 _ (ascii_bytes "descr")) by by apply no_char.
  rewrite find_at_miss by done. change (58 :: [32] ++ ?x) with ([58; 32] ++ x).
  rewrite (find_at_skip 39 _ [58; 32]) by by apply no_char.
  change (39 :: 115 :: drop 2 shape_tag) with shape_tag.
  rewrite tag_after_descr by done.
  change (39 :: 44 :: drop 2 between ++ ?x) with
    (39 :: 44 :: [32] ++ 39 :: 102 :: ascii_bytes "ortran_order" ++ 39 :: 58 :: ascii_bytes " False, " ++ x).
  change shape_tag with (39 :: 115 :: drop 2 shape_tag) at 1.
  rewrite find_at_miss by done. change (44 :: [32] ++ ?x) with ([44; 32] ++ x).
  rewrite (find_at_skip 39 _ [44; 32]) by by apply no_char. rewrite find_at_miss by done.
  change (102 :: ascii_bytes "ortran_order" ++ ?x) with (ascii_bytes "fortran_order" ++ x).
  rewrite (find_at_skip 39 _ (ascii_bytes "fortran_order")) by by apply no_char.
  rewrite find_at_miss by done. change (58 :: ascii_bytes " False, " ++ ?x) with (ascii_bytes ": False, " ++ x).
  rewrite (find_at_skip 39 _ (ascii_bytes ": False, ")) by by apply no_char.
  change (39 :: 115 :: drop 2 shape_tag) with shape_tag. rewrite E0. cbn [fmap option_fmap option_map].
  f_equal. cbn [length]. rewrite !length_app. cbn. rewrite ?length_app. cbn. lia.
Qed.

(** ** The shape, read back *)

(** the pieces between the commas: each number but the first after a space *)
Lemma split_join p n sh : 44 ∉ p -> 0 <= n -> Forall (fun n => 0 <= n) sh ->
  split [44] (p ++ join (ascii_bytes ", ") (map dec (n :: sh))) =
  (p ++ dec n) :: map (fun m => 32 :: dec m) sh.
Proof.
  intros Hp Hn Hs. revert p n Hp Hn. induction Hs as [|m sh Hm Hs IH]; intros p n Hp Hn.
  - apply split_one. intros [?|Hin]%elem_of_app; [done|]. revert Hin. by apply dec_no.
  - change (join (ascii_bytes ", ") (map dec (n :: m :: sh))) with
      (dec n ++ 44 :: ([32] ++ join (ascii_bytes ", ") (map dec (m :: sh)))).
    rewrite app_assoc, split_cons.
    + f_equal. apply (IH [32]); [by apply no_char | done].
    + intros [?|Hin]%elem_of_app; [done|]. revert Hin. by apply dec_no.
Qed.

Lemma parse_pieces sh : Forall (fun n => 0 <= n < 2 ^ 64) sh ->
  mapM (fun s => parse_uint 64 (trim s)) (map (fun m => 32 :: dec m) sh) = Some sh.
Proof.
  intros Hs. apply mapM_Some_2. induction Hs as [|m sh Hm _ IH]; [constructor|].
  constructor; [|exact IH]. rewrite trim_space by (apply dec_visible; lia).
  by apply parse_uint_dec.
Qed.

Definition usizes (sh : list Z) : Prop := Forall (fun n => 0 <= n < 2 ^ 64) sh.

Lemma usizes_nonneg sh : usizes sh -> Forall (fun n => 0 <= n) sh.
Proof. intros Hs. eapply Forall_impl; [exact Hs|]. simpl. lia. Qed.

Lemma join_no c ls : c <> 44 -> c <> 32 -> Forall (fun a => c ∉ a) ls ->
  c ∉ join (ascii_bytes ", ") ls.
Proof.
  intros H1 H2. induction 1 as [|a ls Ha _ IH]; [by intros ?%elem_of_nil|].
  destruct ls as [|b ls]; [done|].
  change (join (ascii_bytes ", ") (a :: b :: ls)) with
    (a ++ [44; 32] ++ join (ascii_bytes ", ") (b :: ls)).
  intros [?|[Hin|?]%elem_of_app]%elem_of_app; [done| |done]. set_solver.
Qed.

Lemma parse_shape sh : usizes sh ->
  let s := join (ascii_bytes ", ") (map dec sh) in
  (if bool_decide (trim s = []) then Some []
   else mapM (fun s => parse_uint 64 (trim s)) (split [44] s)) = Some sh.
Proof.
  intros Hs s. subst s. destruct Hs as [|n sh Hn Hs]; [by rewrite bool_decide_true|].
  assert (Hd : digits (dec n) /\ dec n <> []) by (split; apply dec_spec; lia).
  rewrite bool_decide_false.
  - change (join (ascii_bytes ", ") ?l) with ([] ++ join (ascii_bytes ", ") l) at 1.
    rewrite split_join; [|by intros ?%elem_of_nil | lia | by apply usizes_nonneg].
    apply mapM_Some_2. constructor; [|by apply mapM_Some, parse_pieces].
    rewrite trim_unchanged by (apply dec_visible; lia). by apply parse_uint_dec.
  - destruct (dec n) as [|c ds] eqn:E; [naive_solver|]. destruct Hd as [Hd _].
    assert (Hc : is_whitespace c = false) by (apply digits_visible in Hd; by inversion Hd).
    assert (Ej : exists r, join (ascii_bytes ", ") (map dec (n :: sh)) = c :: r).
    { destruct sh; cbn [map join]; rewrite E; simpl; eauto. }
    destruct Ej as [r ->]. unfold trim. rewrite trim_start_visible by done.
    intros H. apply (f_equal reverse) in H. rewrite reverse_involutive in H.
    cbn [reverse] in H. rewrite reverse_cons in H.
    revert H. generalize (reverse r) as l. induction l as [|x l IH]; simpl.
    + rewrite Hc. done.
    + destruct (is_whitespace x); [exact IH | done].
Qed.

(** ** The container *)

Section Files.
Context {W : Type} `{AF : !AppendFile W}.

Lemma write_parts_ok (w w' : W) parts : write_parts w parts = (w', Ok tt) ->
  contents w' = contents w ++ concat parts.
Proof.
  revert w. induction parts as [|p parts IH]; intros w; cbn [write_parts concat].
  - intros [= ->]. by rewrite app_nil_r.
  - destruct (write_all w p) as [w1 [[]|e]] eqn:E; [|done]. intros H.
    by rewrite (IH w1 H), (Recorder.write_ok _ _ _ E), <- app_assoc.
Qed.

(** the bytes of a container *)
Definition npy_image (descr shape data : list Z) : list Z :=
  let d := utf8 (dict descr shape) in
  NPY_MAGIC ++ [1; 0] ++ le_bytes 2 (wrap 16 (Z.of_nat (hl_of d))) ++ header d ++ data.

Lemma write_npy_ok (w w' : W) descr shape data : contents w = [] ->
  write_npy w descr shape data = (w', Ok tt) -> contents w' = npy_image descr shape data.
Proof.
  intros Hw. unfold write_npy.
  destruct (write_parts _ _) as [w1 [[]|e]] eqn:E; [|done]. intros H.
  rewrite (Recorder.flush_contents _ _ _ H), (write_parts_ok _ _ _ E), Hw.
  unfold npy_image. cbn [concat app]. by rewrite app_nil_r.
Qed.
End Files.

Lemma read_npy_image descr shape data : plain_descr descr -> usizes shape ->
  (Z.of_nat (hl_of (utf8 (dict descr shape))) < 65536) ->
  read_npy (npy_image descr shape data) =
  Ok {| descr := descr; shape := shape; data := data |}.
Proof.
  intros [Ha Hq] Hs Hl. unfold npy_image.
  assert (Hda : ascii (dict descr shape)) by (apply dict_ascii; [done | by apply usizes_nonneg]).
  rewrite utf8_ascii in * by done. set (d := dict descr shape) in *. set (hl := hl_of d) in *.
  destruct (hl_spec d) as [Hh _]. fold hl in Hh. rewrite wrap_id by (unfold uint; lia).
  set (bs := NPY_MAGIC ++ [1; 0] ++ le_bytes 2 (Z.of_nat hl) ++ header d ++ data).
  assert (Hlen : length bs = (10 + hl + length data)%nat).
  { unfold bs. rewrite !length_app, length_le_bytes, Hh. cbn. lia. }
  unfold read_npy. rewrite Hlen, (proj2 (Nat.ltb_ge _ _)) by lia.
  rewrite bool_decide_true by reflexivity. cbn [negb].
  change (drop 8 bs) with (le_bytes 2 (Z.of_nat hl) ++ header d ++ data).
  rewrite take_app_length' by by rewrite length_le_bytes.
  rewrite le_val_bytes_id, Nat2Z.id by (unfold uint; lia).
  rewrite (proj2 (Nat.ltb_ge _ _)) by lia.
  assert (Ed : drop 10 bs = header d ++ data) by reflexivity.
  rewrite <- (drop_drop bs hl 10), Ed, take_app_length', drop_app_length' by done.
  assert (Hah : ascii (header d)).
  { unfold header. apply Forall_app. split; [done|]. apply Forall_app. split.
    - apply Forall_replicate. lia.
    - by repeat constructor. }
  rewrite from_utf8_ascii by done. cbn [mbind option_bind].
  set (tail := replicate (hl_of d - (length d + 1)) 32 ++ [10]) in *.
  assert (Eh : header d = 123 :: quoted_key ++ 39 :: descr ++ between ++ shape_tag ++
    (join (ascii_bytes ", ") (map dec shape) ++ ascii_bytes "), }" ++ tail)).
  { unfold header. fold tail. unfold d. rewrite dict_shape.
    rewrite !app_comm_cons, !app_assoc. reflexivity. }
  rewrite Eh.
  assert (Es : forall x, split [39] (123 :: quoted_key ++ 39 :: descr ++ between ++ x) !! 3%nat =
    Some descr) by (intros x; exact (split_descr descr (drop 1 between ++ x) Hq)).
  rewrite Es. cbn [mbind option_bind]. rewrite find_tag by done. cbn [mbind option_bind].
  set (sh := join (ascii_bytes ", ") (map dec shape)).
  set (pre := 123 :: quoted_key ++ 39 :: descr ++ between).
  assert (Ep : 123 :: quoted_key ++ 39 :: descr ++ between ++ shape_tag ++
      sh ++ ascii_bytes "), }" ++ tail = (pre ++ shape_tag) ++ sh ++ 41 :: ascii_bytes ", }" ++ tail).
  { unfold pre. rewrite !app_comm_cons, !app_assoc. reflexivity. }
  rewrite Ep, drop_app_length' by (by rewrite length_app).
  assert (Hno : 41 ∉ sh).
  { apply join_no; [done | done|]. apply Forall_map. eapply Forall_impl; [exact Hs|].
    intros n [Hn _]. by apply dec_no. }
  rewrite find_at_one by done. cbn [mbind option_bind]. rewrite take_app_length.
  pose proof (parse_shape shape Hs) as Ps. cbv zeta in Ps. fold sh in Ps. by rewrite Ps.
Qed.

(** ** Theorems *)

(** the NumPy writer and reader agree: whatever writer accepts the bytes, a
    tensor written with an ASCII description and any shape whose header fits the
    two-byte length is read back with the same description, shape and data, and
    the data starts on a 64-byte boundary. *)
Theorem npy_roundtrip {W} `{AF : !AppendFile W} (w w' : W) descr shape data :
  contents w = [] -> plain_descr descr -> usizes shape ->
  Z.of_nat (hl_of (utf8 (dict descr shape))) < 65536 ->
  write_npy w descr shape data = (w', Ok tt) ->
  read_npy (contents w') = Ok {| descr := descr; shape := shape; data := data |} /\
  ((length (contents w') - length data) mod 64 = 0)%nat.
Proof.
  intros Hw Hd Hs Hl Hok. rewrite (write_npy_ok _ _ _ _ _ Hw Hok).
  split; [by apply read_npy_image|]. destruct (hl_spec (utf8 (dict descr shape))) as [Hh Hm].
  unfold npy_image. rewrite !length_app, length_le_bytes, Hh.
  match goal with |- (?n mod 64)%nat = _ =>
    replace n with (10 + hl_of (utf8 (dict descr shape)))%nat by (cbn [length NPY_MAGIC]; lia) end.
  exact Hm.
Qed.

Module DemoNpy.
#[export] Instance file : AppendFile (list Z) := Recorder.bounded_file 400.
Definition out : list Z := fst (write_npy (W := list Z) [] (ascii_bytes "<f4") [2; 3] (seqZ 0 24)).
End DemoNpy.

Lemma npy_roundtrip_witness :
  read_npy (contents (AppendFile := DemoNpy.file) DemoNpy.out) =
    Ok {| descr := ascii_bytes "<f4"; shape := [2; 3]; data := seqZ 0 24 |} /\
  ((length (contents (AppendFile := DemoNpy.file) DemoNpy.out) - length (seqZ 0 24)) mod 64 = 0)%nat.
Proof.
  apply (npy_roundtrip (AF := DemoNpy.file) []).
  - reflexivity.
  - split; [by repeat constructor | by apply no_char].
  - by repeat constructor.
  - vm_compute. reflexivity.
  - vm_compute. reflexivity.
Defined.

(** ** The exported data set *)

Lemma length_dec_aux fuel : forall n acc, (length (dec_aux fuel n acc) <= fuel + length acc)%nat.
Proof.
  induction fuel as [|fuel IH]; intros n acc; cbn [dec_aux]; [lia|].
  case_if; cbn [length]; [lia|]. specialize (IH (n / 10) ((48 + n mod 10) :: acc)).
  cbn [length] in IH. lia.
Qed.

Lemma length_dec n : 0 <= n < 2 ^ 64 -> (length (dec n) <= 64)%nat.
Proof.
  intros Hn. unfold dec. pose proof (length_dec_aux (S (Z.to_nat (Z.log2 n))) n []) as H.
  cbn [length] in H. assert (Z.log2 n < 64); [|lia].
  destruct (Z.eq_dec n 0) as [->|]; [simpl; lia|]. apply Z.log2_lt_pow2; lia.
Qed.

Lemma header_len_le fuel : forall hl need, (header_len fuel hl need <= Nat.max hl (need + 63))%nat.
Proof.
  induction fuel as [|fuel IH]; intros hl need; cbn [header_len]; case_if; try lia.
  apply Nat.ltb_lt in Heqb. specialize (IH (hl + 64)%nat need). lia.
Qed.

(** the header of a tensor of one or two dimensions is short *)
Lemma small_header d sh : plain_descr d -> (length d <= 100)%nat -> usizes sh -> (length sh <= 2)%nat ->
  Z.of_nat (hl_of (utf8 (dict d sh))) < 65536.
Proof.
  intros [Ha _] Hd Hs Hl. rewrite utf8_ascii by (apply dict_ascii; [done | by apply usizes_nonneg]).
  assert (Hj : (length (join (ascii_bytes ", ") (map dec sh)) <= 130)%nat).
  { destruct Hs as [|a sh Ha' Hs]; [simpl; lia|]. pose proof (length_dec a Ha').
    destruct Hs as [|b sh Hb Hs]; [simpl; lia|]. pose proof (length_dec b Hb).
    destruct sh; [|simpl in Hl; lia]. cbn [map join]. rewrite !length_app. simpl. lia. }
  assert (Hlen : (length (dict d sh) <= 400)%nat).
  { unfold dict. rewrite !length_app.
    change (length (ascii_bytes "{'descr': '")) with 11%nat.
    change (length (ascii_bytes "', 'fortran_order': False, 'shape': (")) with 37%nat.
    change (length (ascii_bytes "), }")) with 4%nat. lia. }
  unfold hl_of. pose proof (header_len_le (length (dict d sh) + 1) 54 (length (dict d sh) + 1)). lia.
Qed.

Lemma f4_plain : plain_descr (ascii_bytes "<f4").
Proof. split; [by repeat constructor | by apply no_char]. Qed.

Lemma resize_length n l : length (resize n l) = n.
Proof. unfold resize. rewrite length_app, length_take, length_replicate. lia. Qed.

(** every row of a data set has its dimension *)
Lemma from_entries_rows nan es ds : from_entries nan es = Ret ds ->
  length (features_matrix ds) = (num_samples ds * feature_dim ds)%nat.
Proof.
  unfold from_entries. intros H. apply bind_ret_inv in H as ([dim ss] & _ & [= <-]).
  unfold features_matrix, num_samples. cbn [samples feature_dim]. rewrite length_map.
  induction ss as [|s ss IH]; [done|]. cbn [map concat length features].
  rewrite length_app, resize_length, IH. lia.
Qed.

Lemma length_le4 zs : length (concat (map (le_bytes 4) zs)) = (4 * length zs)%nat.
Proof.
  induction zs as [|z zs IH]; [done|]. cbn [map concat length].
  rewrite length_app, length_le_bytes, IH. lia.
Qed.

(** an export is complete and rectangular: when writing both files succeeds,
    the feature file read back is a tensor of [n] rows of the common dimension,
    holding [4 * n * dim] bytes, the elements of the samples in order, and the
    label file holds the [n] labels. *)
Theorem export_readable {W} `{AF : !AppendFile W} nan es ds (f l f' l' : W) :
  from_entries nan es = Ret ds -> contents f = [] -> contents l = [] ->
  Z.of_nat (num_samples ds) < 2 ^ 64 -> Z.of_nat (feature_dim ds) < 2 ^ 64 ->
  write_npy_pair ds (Ok tt) (Ok f) (Ok l) = (Some f', Some l', Ok tt) ->
  read_npy (contents f') =
    Ok {| descr := ascii_bytes "<f4";
          shape := [Z.of_nat (num_samples ds); Z.of_nat (feature_dim ds)];
          data := concat (map (le_bytes 4) (features_matrix ds)) |} /\
  length (concat (map (le_bytes 4) (features_matrix ds))) = (4 * (num_samples ds * feature_dim ds))%nat /\
  read_npy (contents l') =
    Ok {| descr := ascii_bytes "<f4"; shape := [Z.of_nat (num_samples ds)];
          data := concat (map (le_bytes 4) (labels_vec ds)) |}.
Proof.
  intros Hds Hf Hl Hn Hdim. unfold write_npy_pair, f32_npy.
  destruct (write_npy f _ _ _) as [f1 [[]|e]] eqn:Ef; [|done].
  destruct (write_npy l _ _ _) as [l1 [[]|e]] eqn:El; [|done]. intros [= -> ->].
  assert (G : forall sh dt, usizes sh -> (length sh <= 2)%nat ->
    read_npy (npy_image (ascii_bytes "<f4") sh dt) =
    Ok {| descr := ascii_bytes "<f4"; shape := sh; data := dt |}).
  { intros sh dt Hs Hl2. apply read_npy_image; [apply f4_plain | done|].
    apply small_header; [apply f4_plain | simpl; lia | done | done]. }
  rewrite (write_npy_ok _ _ _ _ _ Hf Ef), (write_npy_ok _ _ _ _ _ Hl El).
  split; [apply G; [repeat constructor; simpl; lia | simpl; lia]|]. split.
  - by rewrite length_le4, (from_entries_rows _ _ _ Hds).
  - apply G; [repeat constructor; lia | simpl; lia].
Qed.

(** A file whose payload length is damaged stops the export. *)
Example damaged_length_panics : forall nan,
  from_entries nan [{| Entry.timestamp_ns := 0; Entry.payload_len := 513; Entry.kind_raw := 0;
    Entry.pad := 0; Entry.reserved := 0; Entry.payload_raw := replicate 512 0 |}] = Panic.
Proof. intros nan. vm_compute. reflexivity. Qed.

(** The header of a one-dimensional tensor: its shape is a number in
    parentheses, not a tuple. *)
Example one_dimension_header :
  dict (ascii_bytes "<f4") [4] =
  ascii_bytes "{'descr': '<f4', 'fortran_order': False, 'shape': (4), }".
Proof. reflexivity. Qed.

Module DemoExport.
Definition nan (_ : Z) : Z := 0x7FC00000.
Definition entries : list Entry.FdrEntry :=
  [frame RecordKind.Control (bytes_of (Cmd.zeroed 0 Mode.Assist)) 5;
   frame RecordKind.Imu (bytes_of (Telemetry.imu_zeroed 1 2)) 6].
Definition ds : AiDataset :=
  match from_entries nan entries with Ret d => d | _ => {| feature_dim := 0; samples := [] |} end.
Definition pair := write_npy_pair (AppendFile0 := DemoNpy.file) ds (Ok tt) (Ok []) (Ok []).
Definition f : list Z := match pair with (Some f, _, _) => f | _ => [] end.
Definition l : list Z := match pair with (_, Some l, _) => l | _ => [] end.
End DemoExport.

Lemma export_readable_witness :
  read_npy (contents (AppendFile := DemoNpy.file) DemoExport.f) =
    Ok {| descr := ascii_bytes "<f4";
          shape := [Z.of_nat (num_samples DemoExport.ds); Z.of_nat (feature_dim DemoExport.ds)];
          data := concat (map (le_bytes 4) (features_matrix DemoExport.ds)) |} /\
  length (concat (map (le_bytes 4) (features_matrix DemoExport.ds))) =
    (4 * (num_samples DemoExport.ds * feature_dim DemoExport.ds))%nat /\
  read_npy (contents (AppendFile := DemoNpy.file) DemoExport.l) =
    Ok {| descr := ascii_bytes "<f4"; shape := [Z.of_nat (num_samples DemoExport.ds)];
          data := concat (map (le_bytes 4) (labels_vec DemoExport.ds)) |}.
Proof.
  apply (export_readable (AF := DemoNpy.file) DemoExport.nan DemoExport.entries DemoExport.ds [] []).
  - vm_compute. reflexivity.
  - reflexivity.
  - reflexivity.
  - vm_compute. reflexivity.
  - vm_compute. reflexivity.
  - vm_compute. reflexivity.
Defined.

(** two samples, padded to the eight features of a command *)
Example export_shape :
  (num_samples DemoExport.ds, feature_dim DemoExport.ds) = (2%nat, 8%nat).
Proof. vm_compute. reflexivity. Qed.

(** [x as f32] of [1.5f64], of the largest [f64] and of the mode number [3] *)
Example casts :
  (cast64 DemoExport.nan 0x3FF8000000000000, cast64 DemoExport.nan 0x7FEFFFFFFFFFFFFF,
   castu DemoExport.nan 3) = (0x3FC00000, 0x7F800000, 0x40400000).
Proof. vm_compute. reflexivity. Qed.
