(* ===== verification/FloatFacts.v ===== *)
(** * When IEEE arithmetic yields a number

    Rounding never yields a NaN, so the operations do only where IEEE 754 says so;
    the conversion of a 32-bit integer is finite, and zero only for zero. *)

From S2P Require Import Prelude Float FloatText.

Section Rounding.
Variables prec emax : Z.

Lemma shr_1_div r : 0 <= shr_m r -> shr_m (shr_1 r) = shr_m r / 2.
Proof.
  destruct r as [m b s]. simpl. destruct m as [|[p|p|]|p]; simpl; intros H; try done; try lia.
  - change (Zpos p = Zpos p~1 / 2). apply Z.div_unique with (r := 1); lia.
  - change (Zpos p = Zpos p~0 / 2). apply Z.div_unique with (r := 0); lia.
Qed.

(** shifting right divides *)
Lemma shr_div r e n : 0 <= shr_m r ->
  shr_m (fst (shr r e n)) = shr_m r / 2 ^ Z.max n 0 /\ snd (shr r e n) = e + Z.max n 0.
Proof.
  intros Hr. destruct n as [|p|p]; cbn [shr fst snd].
  - rewrite Z.div_1_r. lia.
  - split; [|lia]. rewrite Z.max_l by lia. rewrite iter_pos_iter, Pos2Nat.inj_iter.
    rewrite <- (positive_nat_Z p). induction (Pos.to_nat p) as [|k IH]; [by rewrite Z.div_1_r|].
    cbn [nat_rect]. rewrite shr_1_div; rewrite IH.
    + rewrite Z.div_div, Nat2Z.inj_succ, Z.pow_succ_r by (try apply pow2_pos; lia). f_equal. lia.
    + apply Z.div_pos; [done | apply pow2_pos; lia].
  - rewrite Z.max_r, Z.div_1_r by lia. lia.
Qed.

Lemma shr_of_loc m l : shr_m (shr_record_of_loc m l) = m.
Proof. by destruct l as [|[]]. Qed.

Lemma rne_bounds m l : m <= round_nearest_even m l <= m + 1.
Proof. destruct l as [|[]]; simpl; repeat case_match; lia. Qed.

(** Rounding a non-negative mantissa never yields a NaN. *)
Lemma round_aux_num s m e l : 0 <= m -> is_nan (binary_round_aux prec emax s m e l) = false.
Proof.
  intros Hm. unfold binary_round_aux.
  destruct (shr_fexp prec emax m e l) as [r1 e1] eqn:E1.
  assert (H1 : 0 <= shr_m r1).
  { unfold shr_fexp in E1. pose proof (shr_div (shr_record_of_loc m l) e
      (fexp prec emax (Zdigits2 m + e) - e)) as [Hd _]; [by rewrite shr_of_loc|].
    rewrite E1, shr_of_loc in Hd. cbn [fst] in Hd. rewrite Hd.
    apply Z.div_pos; [done | apply pow2_pos; lia]. }
  set (m2 := round_nearest_even _ _). assert (H2 : 0 <= m2) by (pose proof (rne_bounds (shr_m r1) (loc_of_shr_record r1)); lia).
  destruct (shr_fexp prec emax m2 e1 loc_Exact) as [r2 e2] eqn:E2.
  assert (H3 : 0 <= shr_m r2).
  { unfold shr_fexp in E2. pose proof (shr_div (shr_record_of_loc m2 loc_Exact) e1
      (fexp prec emax (Zdigits2 m2 + e1) - e1)) as [Hd _]; [done|].
    rewrite E2 in Hd. cbn [fst shr_record_of_loc shr_m] in Hd. rewrite Hd.
    apply Z.div_pos; [done | apply pow2_pos; lia]. }
  destruct (shr_m r2); [done | | lia]. by case_match.
Qed.

Lemma normalize_num m e s : is_nan (binary_normalize prec emax m e s) = false.
Proof.
  destruct m as [|p|p]; [done| |]; cbn [binary_normalize]; unfold binary_round;
    destruct (shl_align _ _ _); apply round_aux_num; lia.
Qed.

End Rounding.

(** a number that is no infinity *)
Definition f_finite (x : spec_float) : bool :=
  match x with S754_zero _ | S754_finite _ _ _ => true | _ => false end.
Definition f_nonzero (x : spec_float) : bool :=
  match x with S754_finite _ _ _ => true | _ => false end.

Lemma finite_num x : f_finite x = true -> is_nan x = false.
Proof. by destruct x. Qed.

Lemma f32_sub_num x y : is_nan x = false -> f_finite y = true -> is_nan (f32_sub x y) = false.
Proof.
  destruct x as [sx|sx| |sx mx ex], y as [sy|sy| |sy my ey]; try done; intros _ _;
    try (by destruct sx, sy). apply normalize_num.
Qed.

Lemma f32_add_num x y : is_nan x = false -> f_finite y = true -> is_nan (f32_add x y) = false.
Proof.
  destruct x as [sx|sx| |sx mx ex], y as [sy|sy| |sy my ey]; try done; intros _ _;
    try (by destruct sx, sy). apply normalize_num.
Qed.

Lemma f32_mul_num x y : is_nan x = false -> f_nonzero y = true -> is_nan (f32_mul x y) = false.
Proof.
  destruct x as [sx|sx| |sx mx ex], y as [sy|sy| |sy my ey]; try done; intros _ _.
  apply round_aux_num. lia.
Qed.

Lemma f32_mul_finite_num x y : f_finite x = true -> f_finite y = true -> is_nan (f32_mul x y) = false.
Proof.
  destruct x as [sx|sx| |sx mx ex], y as [sy|sy| |sy my ey]; try done; intros _ _.
  apply round_aux_num. lia.
Qed.

Lemma f32_div_num x y : is_nan x = false -> f_nonzero y = true -> is_nan (f32_div x y) = false.
Proof.
  destruct x as [sx|sx| |sx mx ex], y as [sy|sy| |sy my ey]; try done; intros _ _.
  unfold f32_div, SFdiv. destruct (SFdiv_core_binary _ _ _ _ _ _) as [[q e] l] eqn:E.
  apply round_aux_num. unfold SFdiv_core_binary in E.
  set (m := match _ with Z0 => _ | Zpos _ => _ | Zneg _ => _ end) in E.
  assert (Hm : 0 <= m).
  { clear E. unfold m. destruct (ex - ey - _); try lia. apply Z.shiftl_nonneg. lia. }
  clearbody m. pose proof (Z_div_mod m (Zpos my) ltac:(lia)) as Hd.
  destruct (Z.div_eucl m (Zpos my)) as [q' r']. injection E as <- _ _.
  destruct Hd as [Hd Hr]. nia.
Qed.

(** *** Integers *)

Lemma log2_bounds m : 0 < m -> 2 ^ Z.log2 m <= m < 2 ^ (Z.log2 m + 1).
Proof. intros H. rewrite Z.add_1_r. by apply Z.log2_spec. Qed.

(** a mantissa of at least 24 digits whose exponent is in range *)
Lemma round_aux_finite s p e : 24 <= Z.log2 (Zpos p) + 1 ->
  -149 <= Z.log2 (Zpos p) + 1 + e - 24 < 104 ->
  f_nonzero (binary_round_aux 24 128 s (Zpos p) e loc_Exact) = true.
Proof.
  intros Hd He. pose proof (log2_bounds (Zpos p) ltac:(lia)) as Hp.
  set (d := Z.log2 (Zpos p)) in *.
  assert (F : forall k, -149 <= k - 24 -> fexp 24 128 k = k - 24) by (intros k Hk; unfold fexp, emin; lia).
  unfold binary_round_aux. destruct (shr_fexp 24 128 (Zpos p) e loc_Exact) as [r1 e1] eqn:E1.
  unfold shr_fexp in E1. rewrite Zdigits2_log2 in E1. fold d in E1. rewrite F in E1 by lia.
  pose proof (shr_div (shr_record_of_loc (Zpos p) loc_Exact) e (d + 1 + e - 24 - e) ltac:(simpl; lia)) as [H1 H2].
  rewrite E1 in H1, H2. cbn [fst snd shr_record_of_loc shr_m] in H1, H2.
  replace (Z.max (d + 1 + e - 24 - e) 0) with (d - 23) in * by lia.
  assert (Hm1 : 2 ^ 23 <= shr_m r1 < 2 ^ 24).
  { rewrite H1. pose proof (pow2_pos (d - 23) ltac:(lia)). split.
    - apply Z.div_le_lower_bound; [done|]. rewrite <- Z.pow_add_r by lia.
      replace (d - 23 + 23) with d by lia. lia.
    - apply Z.div_lt_upper_bound; [done|]. rewrite <- Z.pow_add_r by lia.
      replace (d - 23 + 24) with (d + 1) by lia. lia. }
  set (m2 := round_nearest_even _ _).
  assert (Hm2 : 2 ^ 23 <= m2 <= 2 ^ 24) by (pose proof (rne_bounds (shr_m r1) (loc_of_shr_record r1)); lia).
  clearbody m2. destruct m2 as [|q|q]; [lia| |lia].
  assert (Hq : 23 <= Z.log2 (Zpos q) <= 24).
  { split; [apply Z.log2_le_pow2; lia|].
    assert (Z.log2 (Zpos q) < 25) by (apply Z.log2_lt_pow2; lia). lia. }
  destruct (shr_fexp 24 128 (Zpos q) e1 loc_Exact) as [r2 e2] eqn:E2.
  unfold shr_fexp in E2. rewrite Zdigits2_log2 in E2. set (d2 := Z.log2 (Zpos q)) in *.
  rewrite F in E2 by lia.
  pose proof (shr_div (shr_record_of_loc (Zpos q) loc_Exact) e1 (d2 + 1 + e1 - 24 - e1) ltac:(simpl; lia)) as [G1 G2].
  rewrite E2 in G1, G2. cbn [fst snd shr_record_of_loc shr_m] in G1, G2.
  replace (Z.max (d2 + 1 + e1 - 24 - e1) 0) with (d2 - 23) in * by lia.
  assert (Hm3 : 0 < shr_m r2).
  { rewrite G1. pose proof (pow2_pos (d2 - 23) ltac:(lia)).
    assert (Hle : 2 ^ (d2 - 23) <= 2) by (change 2 with (2 ^ 1) at 2; apply Z.pow_le_mono_r; lia).
    apply Z.div_str_pos. lia. }
  destruct (shr_m r2) as [|r|r]; [lia| |lia].
  rewrite (proj2 (Z.leb_le _ _)) by lia. done.
Qed.

Lemma f32_of_Z_nonzero z : z <> 0 -> Z.abs z < 2 ^ 64 -> f_nonzero (f32_of_Z z) = true.
Proof.
  intros Hz Hb. unfold f32_of_Z.
  assert (G : forall s p, Zpos p < 2 ^ 64 -> f_nonzero (binary_round 24 128 s p 0) = true).
  { intros s p Hp. unfold binary_round.
    pose proof (Zdigits2_log2 p) as E. cbn [Zdigits2] in E. rewrite E, Z.add_0_r.
    assert (Hl : Z.log2 (Zpos p) < 64) by (apply Z.log2_lt_pow2; lia).
    pose proof (Z.log2_nonneg (Zpos p)).
    assert (F : fexp 24 128 (Z.log2 (Zpos p) + 1) = Z.log2 (Zpos p) - 23) by (unfold fexp, emin; lia).
    rewrite F. unfold shl_align. rewrite Z.sub_0_r.
    destruct (Z.log2 (Zpos p) - 23) as [|k|k] eqn:Ek.
    - apply round_aux_finite; lia.
    - apply round_aux_finite; lia.
    - assert (El : Z.log2 (Zpos (Pos.iter xO p k)) = 23).
      { rewrite iter_xO_pow, Z.log2_mul_pow2 by lia. lia. }
      apply round_aux_finite; rewrite El; lia. }
  destruct z as [|p|p]; [done | apply G; lia | apply G; lia].
Qed.

Lemma f32_of_Z_num z : is_nan (f32_of_Z z) = false.
Proof. apply normalize_num. Qed.

(** *** Order and sign *)

Lemma fle_opp x y : fle (SFopp y) (SFopp x) = fle x y.
Proof.
  destruct x as [sx|sx| |sx mx ex], y as [sy|sy| |sy my ey]; try done;
    try (by destruct sx); try (by destruct sy); try (by destruct sx, sy).
  unfold fle, SFleb. cbn [SFopp SFcompare].
  assert (Em : Pos.compare_cont Eq my mx = CompOpp (Pos.compare_cont Eq mx my)).
  { symmetry. exact (Pos.compare_cont_antisym mx my Eq). }
  destruct sx, sy; cbn [negb]; try done; rewrite (Z.compare_antisym ex ey), Em;
    destruct (Z.compare ex ey), (Pos.compare_cont Eq mx my); done.
Qed.
