(* ===== verification/Hal.v ===== *)
(** * Hardware abstraction: [tpt-t-hal/src]

    [Types]: types.rs, the records that cross the boundary and their dense byte
    images.  [VirtualCan]: can.rs and mock/can.rs, the point-to-point bus over two
    bounded queues.  [Esc]: motor.rs and mock/motor.rs, the simulated speed
    controller.  [NullCam]: camera.rs and mock/camera.rs.  [BufMmio]: the register
    window of mmio.rs over a buffer.  The Linux back ends are in [HalLinux]. *)

From stdpp Require Import strings.
From S2P Require Import Prelude Text Ring Cast Float Ser.

(** ** Errors *)

Inductive HalError :=
| HalUnsupported (s : list Z)
| Device (s : list Z)
| BufferTooSmall (needed got : Z)
| Dropped
| NoAck.

Definition HalError_fmt (e : HalError) : list Z :=
  match e with
  | HalUnsupported s => ascii_bytes "unsupported: " ++ s
  | Device s => ascii_bytes "device error: " ++ s
  | BufferTooSmall needed got =>
      ascii_bytes "buffer too small: need " ++ dec needed ++ ascii_bytes ", got " ++ dec got
  | Dropped => ascii_bytes "frame dropped by transport"
  | NoAck => ascii_bytes "no acknowledgment from device"
  end.

(** ** Records (types.rs) *)

Definition MAGIC_CAN_FRAME : Z := 0x43414E31.

Module Can.

(** [data] has eight bytes. *)
Record CanFrame := { id : Z; len : Z; data : list Z; can_reserved : Z }.
#[export] Instance CanFrame_eq_dec : EqDecision CanFrame.
Proof. solve_decision. Defined.

Definition new (id : Z) (payload : list Z) : CanFrame :=
  let n := Nat.min (length payload) 8 in
  {| id := id; len := Z.of_nat n; data := take n payload ++ replicate (8 - n) 0; can_reserved := 0 |}.

Definition payload (f : CanFrame) : list Z := take (Z.to_nat (Z.min (len f) 8)) (data f).

Definition widths : list nat := [4; 2; 1; 1; 1; 1; 1; 1; 1; 1; 2]%nat.

#[export] Instance plain : PlainBytes CanFrame.
Proof.
  refine (pod widths 4 (fun v => [id v; len v] ++ data v ++ [can_reserved v])
    (fun zs => {| id := nth 0 zs 0; len := nth 1 zs 0; data := take 8 (drop 2 zs);
                  can_reserved := nth 10 zs 0 |}) _ _); [solve_pod|].
  intros v Hl. rewrite !length_app in Hl. simpl in Hl.
  assert (H8 : length (data v) = 8%nat) by lia. destruct v as [i n d r]. simpl in H8.
  do 8 (destruct d as [|? d]; [discriminate|]). destruct d; [reflexivity|discriminate].
Defined.

(** A frame carries its payload. *)
Lemma payload_new i p : (length p <= 8)%nat -> payload (new i p) = p.
Proof.
  intros H. unfold payload, new; cbn [len data]. rewrite !Nat.min_l by lia.
  rewrite Z.min_l, Nat2Z.id by lia. by rewrite take_app_le, !take_ge by (rewrite ?length_take; lia).
Qed.

Lemma payload_short f : (length (payload f) <= 8)%nat.
Proof. unfold payload. rewrite length_take. lia. Qed.

(** well-known identifiers *)
Definition MOTOR_CMD : Z := 0x200.
Definition MOTOR_TELEM : Z := 0x300.
Definition IMU_DATA : Z := 0x400.

End Can.
#[export] Existing Instance Can.CanFrame_eq_dec.
#[export] Existing Instance Can.plain.
Notation CanFrame := Can.CanFrame.

Inductive MotorMode := Idle | Speed | Thrust.

Module Motor.

Definition as_u8 (m : MotorMode) : Z := match m with Idle => 0 | Speed => 1 | Thrust => 2 end.
Definition from_u8 (v : Z) : option MotorMode :=
  if v =? 0 then Some Idle else if v =? 1 then Some Speed else if v =? 2 then Some Thrust else None.

Lemma from_as m : from_u8 (as_u8 m) = Some m.
Proof. by destruct m. Qed.

(** [F] is the representation of [f32]: values in the simulator, bit patterns on
    the wire.  [pad3] has three bytes. *)
Record MotorCommand (F : Type) := {
  seq : Z; timestamp_ns : Z; mode_raw : Z; pad3 : list Z; value : F
}.
Arguments seq {F} m.
Arguments timestamp_ns {F} m.
Arguments mode_raw {F} m.
Arguments pad3 {F} m.
Arguments value {F} m.

Definition idle {F} (zero : F) (seq ts : Z) : MotorCommand F :=
  {| seq := seq; timestamp_ns := ts; mode_raw := as_u8 Idle; pad3 := replicate 3 0; value := zero |}.
Definition mode {F} (c : MotorCommand F) : option MotorMode := from_u8 (mode_raw c).

#[export] Instance command_plain : PlainBytes (MotorCommand Z).
Proof.
  refine (pod [8; 8; 1; 1; 1; 1; 4]%nat 8
    (fun v => [seq v; timestamp_ns v; mode_raw v] ++ pad3 v ++ [value v])
    (fun zs => {| seq := nth 0 zs 0; timestamp_ns := nth 1 zs 0; mode_raw := nth 2 zs 0;
                  pad3 := take 3 (drop 3 zs); value := nth 6 zs 0 |}) _ _); [solve_pod|].
  intros v Hl. rewrite !length_app in Hl. simpl in Hl.
  assert (H3 : length (pad3 v) = 3%nat) by lia. destruct v as [s t m p x]. simpl in H3.
  do 3 (destruct p as [|? p]; [discriminate|]). destruct p; [reflexivity|discriminate].
Defined.

Record MotorTelemetry (F : Type) := {
  mt_seq : Z; mt_timestamp_ns : Z; rpm : F; temp_c : F; volts : F; errors : Z
}.
Arguments mt_seq {F} m.
Arguments mt_timestamp_ns {F} m.
Arguments rpm {F} m.
Arguments temp_c {F} m.
Arguments volts {F} m.
Arguments errors {F} m.

#[export] Instance telemetry_plain : PlainBytes (MotorTelemetry Z).
Proof.
  refine (pod [8; 8; 4; 4; 4; 4]%nat 8
    (fun v => [mt_seq v; mt_timestamp_ns v; rpm v; temp_c v; volts v; errors v])
    (fun zs => {| mt_seq := nth 0 zs 0; mt_timestamp_ns := nth 1 zs 0; rpm := nth 2 zs 0;
                  temp_c := nth 3 zs 0; volts := nth 4 zs 0; errors := nth 5 zs 0 |}) _ _); solve_pod.
Defined.

End Motor.
#[export] Existing Instance Motor.command_plain.
#[export] Existing Instance Motor.telemetry_plain.

Inductive PixelFormat := GrayY8 | Rgb888 | Nv12.

Module Frame.

Definition as_u32 (f : PixelFormat) : Z := match f with GrayY8 => 0 | Rgb888 => 1 | Nv12 => 2 end.
Definition bytes_per_pixel (f : PixelFormat) : Z := match f with GrayY8 => 1 | Rgb888 => 3 | Nv12 => 2 end.
Definition min_buffer_len (f : PixelFormat) (w h : Z) : Z :=
  match f with
  | Nv12 => wmul 64 (wmul 64 w h) 3 / 2
  | other => wmul 64 (wmul 64 (bytes_per_pixel other) w) h
  end.

Record FrameInfo := {
  fi_seq : Z; fi_timestamp_ns : Z; width : Z; height : Z; stride : Z; format : Z
}.
#[export] Instance info_plain : PlainBytes FrameInfo.
Proof.
  refine (pod [8; 8; 4; 4; 4; 4]%nat 8
    (fun v => [fi_seq v; fi_timestamp_ns v; width v; height v; stride v; format v])
    (fun zs => {| fi_seq := nth 0 zs 0; fi_timestamp_ns := nth 1 zs 0; width := nth 2 zs 0;
                  height := nth 3 zs 0; stride := nth 4 zs 0; format := nth 5 zs 0 |}) _ _); solve_pod.
Defined.

(** [F] represents both widths of float. *)
Record Pose6D (F : Type) := {
  x : F; y : F; z : F; yaw : F; pitch : F; roll : F; pose_reserved : Z
}.
Arguments x {F} p.
Arguments y {F} p.
Arguments z {F} p.
Arguments yaw {F} p.
Arguments pitch {F} p.
Arguments roll {F} p.
Arguments pose_reserved {F} p.
Definition default_pose {F} (zero : F) : Pose6D F :=
  {| x := zero; y := zero; z := zero; yaw := zero; pitch := zero; roll := zero; pose_reserved := 0 |}.

#[export] Instance pose_plain : PlainBytes (Pose6D Z).
Proof.
  refine (pod [8; 8; 8; 4; 4; 4; 4]%nat 8
    (fun v => [x v; y v; z v; yaw v; pitch v; roll v; pose_reserved v])
    (fun zs => {| x := nth 0 zs 0; y := nth 1 zs 0; z := nth 2 zs 0; yaw := nth 3 zs 0;
                  pitch := nth 4 zs 0; roll := nth 5 zs 0; pose_reserved := nth 6 zs 0 |}) _ _); solve_pod.
Defined.

End Frame.
#[export] Existing Instance Frame.info_plain.
#[export] Existing Instance Frame.pose_plain.

(** The records have the dense sizes their comments state. *)
Lemma hal_records_dense :
  size_of (T := CanFrame) = 16%nat /\ size_of (T := Motor.MotorCommand Z) = 24%nat /\
  size_of (T := Motor.MotorTelemetry Z) = 32%nat /\ size_of (T := Frame.FrameInfo) = 32%nat /\
  size_of (T := Frame.Pose6D Z) = 40%nat.
Proof. done. Qed.

(** ** The virtual bus (can.rs, mock/can.rs) *)

(** [B] is the endpoint with the rings or sockets behind it. *)
Class CanBus (B : Type) := {
  can_send : B -> CanFrame -> exec (B * result unit HalError);
  can_recv : B -> CanFrame -> exec (B * CanFrame * bool)
}.

Module VirtualCan.
Section Bus.
Context {Q : Type} `{RQ : !BoundedFifo Q CanFrame}.

(** An endpoint's own fields, and the two queues it shares with its peer. *)
Record Endpoint := { tx_count : Z; drop_every : Z }.
Record CanEndpoint := { ep : Endpoint; tx : Q; rx : Q }.

Definition send (e : CanEndpoint) (frame : CanFrame) : exec (CanEndpoint * result unit HalError) :=
  let n := wadd 64 (tx_count (ep e)) 1 in
  let p := {| tx_count := n; drop_every := drop_every (ep e) |} in
  if (0 <? drop_every p) && (n mod drop_every p =? 0) then
    Ret ({| ep := p; tx := tx e; rx := rx e |}, Err Dropped)
  else
    '(q, r) ← fifo_push (tx e) frame;
    Ret ({| ep := p; tx := q; rx := rx e |}, match r with Ok _ => Ok tt | Err _ => Err Dropped end).

Definition recv (e : CanEndpoint) (out : CanFrame) : exec (CanEndpoint * CanFrame * bool) :=
  '(q, o) ← fifo_pop (rx e);
  let e := {| ep := ep e; tx := tx e; rx := q |} in
  Ret (match o with Some frame => (e, frame, true) | None => (e, out, false) end).

#[export] Instance endpoint_bus : CanBus CanEndpoint := {| can_send := send; can_recv := recv |}.

Definition set_drop_every (e : CanEndpoint) (n : Z) : CanEndpoint :=
  {| ep := {| tx_count := tx_count (ep e); drop_every := n |}; tx := tx e; rx := rx e |}.
Definition tx_attempts (e : CanEndpoint) : Z := tx_count (ep e).

(** [can_pair]: the rings are shared, [a2b] is A's [tx] and B's [rx]. *)
Record CanPair := { a2b : Q; b2a : Q; end_a : Endpoint; end_b : Endpoint }.

Definition can_pair (capacity : Z) : CanPair :=
  let fresh := {| tx_count := 0; drop_every := 0 |} in
  {| a2b := fifo_with_capacity capacity; b2a := fifo_with_capacity capacity;
     end_a := fresh; end_b := fresh |}.

(** the endpoint on one side, and the pair after it ran *)
Inductive side := A | B.
Definition endpoint (p : CanPair) (s : side) : CanEndpoint :=
  match s with
  | A => {| ep := end_a p; tx := a2b p; rx := b2a p |}
  | B => {| ep := end_b p; tx := b2a p; rx := a2b p |}
  end.
Definition with_endpoint (p : CanPair) (s : side) (e : CanEndpoint) : CanPair :=
  match s with
  | A => {| a2b := tx e; b2a := rx e; end_a := ep e; end_b := end_b p |}
  | B => {| a2b := rx e; b2a := tx e; end_a := end_a p; end_b := ep e |}
  end.
Definition other (s : side) : side := match s with A => B | B => A end.

Inductive op := Send (s : side) (f : CanFrame) | Recv (s : side) | DropEvery (s : side) (n : Z).
Inductive event := Sent (s : side) (f : CanFrame) | Lost (s : side) (f : CanFrame)
  | Got (s : side) (f : CanFrame) | Nothing (s : side) | Set_.

Definition step (p : CanPair) (o : op) : exec (CanPair * event) :=
  match o with
  | Send s f =>
      '(e, r) ← can_send (endpoint p s) f;
      Ret (with_endpoint p s e, match r with Ok _ => Sent s f | Err _ => Lost s f end)
  | Recv s =>
      '(e, f, got) ← can_recv (endpoint p s) (Can.new 0 []);
      Ret (with_endpoint p s e, if got : bool then Got s f else Nothing s)
  | DropEvery s n => Ret (with_endpoint p s (set_drop_every (endpoint p s) n), Set_)
  end.

Fixpoint run (p : CanPair) (os : list op) : exec (CanPair * list event) :=
  match os with
  | [] => Ret (p, [])
  | o :: os =>
      '(p, v) ← step p o;
      '(p, vs) ← run p os;
      Ret (p, v :: vs)
  end.

(** *** Each direction is an ordered channel

    [lane s]: the queue out of side [s]; [sent s], [got s]: what a run put in on
    side [s] and took out on the other. *)

Definition lane (p : CanPair) (s : side) : Q := tx (endpoint p s).
Definition pair_rep (p : CanPair) (la lb : list CanFrame) : Prop :=
  fifo_rep (a2b p) la /\ fifo_rep (b2a p) lb.

Definition sent (s : side) (vs : list event) : list CanFrame :=
  omap (fun v => match v, s with Sent A f, A => Some f | Sent B f, B => Some f | _, _ => None end) vs.
Definition got (s : side) (vs : list event) : list CanFrame :=
  omap (fun v => match v, s with Got B f, A => Some f | Got A f, B => Some f | _, _ => None end) vs.

Lemma can_send_spec e f l : fifo_rep (tx e) l ->
  exists e' r, send e f = Ret (e', r) /\ rx e' = rx e /\
    fifo_rep (tx e') (l ++ match r with Ok _ => [f] | Err _ => [] end) /\
    tx_count (ep e') = wadd 64 (tx_count (ep e)) 1 /\ drop_every (ep e') = drop_every (ep e) /\
    (is_ok r = true <-> Z.of_nat (length l) < fifo_capacity (tx e) /\
       ~ (0 < drop_every (ep e) /\ wadd 64 (tx_count (ep e)) 1 mod drop_every (ep e) = 0)).
Proof.
  intros Hl. unfold send; cbn [drop_every tx_count]. set (n := wadd 64 (tx_count (ep e)) 1).
  destruct (_ && _) eqn:Ed.
  - zbool. do 2 eexists. split; [reflexivity|]. rewrite app_nil_r. split_and!; try done.
    split; [done|]. intros [_ Hn]. tauto.
  - assert (Hd : ~ (0 < drop_every (ep e) /\ n mod drop_every (ep e) = 0)).
    { intros [Hpos Hz]. by rewrite (proj2 (Z.ltb_lt _ _) Hpos), Hz in Ed. }
    destruct (Z.lt_ge_cases (Z.of_nat (length l)) (fifo_capacity (tx e))) as [Hlt|Hge].
    + destruct (fifo_push_ok _ _ f Hl Hlt) as (q & E & Hq & _). rewrite E, ret_bind.
      do 2 eexists. split; [reflexivity|]. split_and!; done.
    + rewrite (fifo_push_full _ _ f Hl Hge), ret_bind. do 2 eexists. split; [reflexivity|].
      rewrite app_nil_r. split_and!; try done. split; [done|]. intros [? _]. lia.
Qed.

Lemma can_recv_spec e out l : fifo_rep (rx e) l ->
  exists e', recv e out = Ret (e', default out (head l), match l with [] => false | _ => true end) /\
    tx e' = tx e /\ ep e' = ep e /\ fifo_rep (rx e') (tail l).
Proof.
  intros Hl. unfold recv. destruct l as [|f l].
  - rewrite (fifo_pop_nil _ Hl), ret_bind. eexists. split; [reflexivity|]. done.
  - destruct (fifo_pop_some _ _ _ Hl) as (q & E & Hq & _). rewrite E, ret_bind.
    eexists. split; [reflexivity|]. done.
Qed.

Lemma step_spec p la lb o : pair_rep p la lb ->
  exists p' v la' lb', step p o = Ret (p', v) /\ pair_rep p' la' lb' /\
    la ++ sent A [v] = got A [v] ++ la' /\ lb ++ sent B [v] = got B [v] ++ lb'.
Proof.
  intros [Ha Hb]. destruct o as [[] f|[]|[] n]; cbn [step can_send can_recv endpoint_bus].
  - destruct (can_send_spec (endpoint p A) f la Ha) as (e & r & E & Hrx & Hr & _). rewrite E, ret_bind.
    do 4 eexists. split; [reflexivity|]. split; [by split; [exact Hr|cbn; rewrite Hrx]|].
    destruct r; simpl; by rewrite ?app_nil_r.
  - destruct (can_send_spec (endpoint p B) f lb Hb) as (e & r & E & Hrx & Hr & _). rewrite E, ret_bind.
    do 4 eexists. split; [reflexivity|]. split; [by split; [cbn; rewrite Hrx|exact Hr]|].
    destruct r; simpl; by rewrite ?app_nil_r.
  - destruct (can_recv_spec (endpoint p A) (Can.new 0 []) lb Hb) as (e & E & Htx & He & Hr). rewrite E, ret_bind.
    do 4 eexists. split; [reflexivity|]. split; [by split; [cbn; rewrite Htx|exact Hr]|].
    destruct lb; simpl; by rewrite ?app_nil_r.
  - destruct (can_recv_spec (endpoint p B) (Can.new 0 []) la Ha) as (e & E & Htx & He & Hr). rewrite E, ret_bind.
    do 4 eexists. split; [reflexivity|]. split; [by split; [exact Hr|cbn; rewrite Htx]|].
    destruct la; simpl; by rewrite ?app_nil_r.
  - do 4 eexists. split; [reflexivity|]. split; [by split|]. simpl. by rewrite !app_nil_r.
  - do 4 eexists. split; [reflexivity|]. split; [by split|]. simpl. by rewrite !app_nil_r.
Qed.

Lemma sent_cons s v vs : sent s (v :: vs) = sent s [v] ++ sent s vs.
Proof. destruct s, v as [[]| |[]| |]; reflexivity. Qed.
Lemma got_cons s v vs : got s (v :: vs) = got s [v] ++ got s vs.
Proof. destruct s, v as [[]| |[]| |]; reflexivity. Qed.

Lemma run_spec os p la lb : pair_rep p la lb ->
  exists p' vs la' lb', run p os = Ret (p', vs) /\ pair_rep p' la' lb' /\
    la ++ sent A vs = got A vs ++ la' /\ lb ++ sent B vs = got B vs ++ lb'.
Proof.
  revert p la lb. induction os as [|o os IH]; intros p la lb Hp; cbn [run].
  - do 4 eexists. split; [reflexivity|]. split; [done|]. simpl. by rewrite !app_nil_r.
  - destruct (step_spec p la lb o Hp) as (p1 & v & la1 & lb1 & E1 & Hp1 & Ea1 & Eb1).
    destruct (IH p1 la1 lb1 Hp1) as (p2 & vs & la2 & lb2 & E2 & Hp2 & Ea2 & Eb2).
    rewrite E1, ret_bind, E2, ret_bind. do 4 eexists. split; [reflexivity|]. split; [done|].
    rewrite (sent_cons A v vs), (sent_cons B v vs), (got_cons A v vs), (got_cons B v vs).
    by rewrite !app_assoc, Ea1, Eb1, <- !app_assoc, Ea2, Eb2.
Qed.
End Bus.

(** Whatever the two sides do, nothing panics, and in each direction the frames
    received are, in order, the frames whose send succeeded, the rest still queued. *)
Theorem bus_is_ordered {Q} `{!BoundedFifo Q CanFrame} (capacity : Z) (os : list op) :
  fifo_min <= capacity <= 2 ^ 63 ->
  exists p vs la lb, run (can_pair capacity) os = Ret (p, vs) /\
    sent A vs = got A vs ++ la /\ sent B vs = got B vs ++ lb /\
    fifo_rep (a2b p) la /\ fifo_rep (b2a p) lb.
Proof.
  intros Hc. destruct (run_spec os (can_pair capacity) [] []) as (p & vs & la & lb & E & [Ha Hb] & Ea & Eb).
  - split; by apply fifo_new_rep.
  - by exists p, vs, la, lb.
Qed.

Lemma bus_is_ordered_witness :
  let f i := Can.new i [7] in
  let os := [DropEvery A 2; Send A (f 1); Send A (f 2); Send A (f 3); Send B (f 9); Recv B; Recv A; Recv A] in
  exists p vs la lb, run (Q := Spsc.SpscRing CanFrame) (can_pair 4) os = Ret (p, vs) /\
    sent A vs = [f 1; f 3] /\ got A vs = [f 1] /\ la = [f 3] /\
    sent A vs = got A vs ++ la /\ sent B vs = got B vs ++ lb.
Proof.
  intros f os.
  destruct (bus_is_ordered (Q := Spsc.SpscRing CanFrame) 4 os) as (p & vs & la & lb & E & Ea & Eb & _);
    [vm_compute; intuition congruence|].
  exists p, vs, la, lb. pose proof E as E'. vm_compute in E'. injection E' as _ Ev.
  assert (Es : sent A vs = [f 1; f 3]) by (rewrite <- Ev; reflexivity).
  assert (Eg : got A vs = [f 1]) by (rewrite <- Ev; reflexivity).
  split_and!; [exact E|exact Es|exact Eg| |exact Ea|exact Eb].
  rewrite Es, Eg in Ea. by injection Ea as <-.
Defined.

End VirtualCan.

(** ** The simulated speed controller (motor.rs, mock/motor.rs) *)

Class MotorChannel (M : Type) := {
  motor_apply : M -> Motor.MotorCommand f32 -> M;
  motor_read : M -> Motor.MotorTelemetry f32 -> M * Motor.MotorTelemetry f32
}.

Module Esc.
Import Motor.

Definition MAX_ROTOR_SPEED : f32 := f32_of_Z 300.
Definition TAU_S : f32 := f32_lit 15 100.
Definition AMBIENT_C : f32 := f32_of_Z 25.

Record SimMotor := { last_cmd : MotorCommand f32; omega : f32; temp : f32; supply : f32; steps : Z }.

Definition new (volts : f32) : SimMotor :=
  {| last_cmd := idle f_zero 0 0; omega := f_zero; temp := AMBIENT_C; supply := volts; steps := 0 |}.

Definition target (c : MotorCommand f32) : exec f32 :=
  match from_u8 (mode_raw c) with
  | Some Speed => fclamp (value c) (SFopp MAX_ROTOR_SPEED) MAX_ROTOR_SPEED
  | Some Thrust =>
      v ← fclamp (value c) f_zero (f32_of_Z 1);
      Ret (f32_mul (SFsqrt 24 128 v) MAX_ROTOR_SPEED)
  | Some Idle | None => Ret f_zero
  end.

Definition tick (m : SimMotor) (dt_s : f32) : exec SimMotor :=
  t ← target (last_cmd m);
  let alpha := fmin (f32_div dt_s TAU_S) (f32_of_Z 1) in
  let w := f32_add (omega m) (f32_mul (f32_sub t (omega m)) alpha) in
  let heat := f32_sub (f32_mul (f32_div (SFabs w) MAX_ROTOR_SPEED) (f32_of_Z 30)) (f32_sub (temp m) AMBIENT_C) in
  Ret {| last_cmd := last_cmd m; omega := w;
         temp := f32_add (temp m) (f32_mul (f32_mul heat alpha) (f32_lit 1 10));
         supply := supply m; steps := wadd 64 (steps m) 1 |}.

Definition normalized_thrust (m : SimMotor) : f32 :=
  let x := f32_div (omega m) MAX_ROTOR_SPEED in f32_mul x x.

Definition apply (m : SimMotor) (cmd : MotorCommand f32) : SimMotor :=
  {| last_cmd := cmd; omega := omega m; temp := temp m; supply := supply m; steps := steps m |}.

Definition read (m : SimMotor) (out : MotorTelemetry f32) : SimMotor * MotorTelemetry f32 :=
  (m, {| mt_seq := seq (last_cmd m);
         mt_timestamp_ns := wadd 64 (timestamp_ns (last_cmd m)) (wmul 64 (steps m) 5000000);
         rpm := omega m; temp_c := temp m; volts := supply m; errors := 0 |}).

#[export] Instance sim_motor : MotorChannel SimMotor := {| motor_apply := apply; motor_read := read |}.

(** A tick always completes, and changes neither the latched command nor the
    supply; reading changes nothing. *)
Lemma target_total c : exists t, target c = Ret t.
Proof.
  unfold target. destruct (from_u8 (mode_raw c)) as [[]|]; eexists; reflexivity.
Qed.

Lemma tick_total m dt : exists m', tick m dt = Ret m' /\ last_cmd m' = last_cmd m /\ supply m' = supply m /\
  steps m' = wadd 64 (steps m) 1.
Proof.
  unfold tick. destruct (target_total (last_cmd m)) as [t ->]. rewrite ret_bind. eexists. split; [reflexivity|]. done.
Qed.

Lemma nan_add x y : is_nan x = true -> is_nan (f32_add x y) = true.
Proof. by destruct x. Qed.
Lemma nan_add_r x y : is_nan y = true -> is_nan (f32_add x y) = true.
Proof. by destruct x as [?|?| |????], y as [?|?| |????]. Qed.
Lemma nan_sub x y : is_nan x = true -> is_nan (f32_sub x y) = true.
Proof. by destruct x. Qed.
Lemma nan_mul x y : is_nan x = true -> is_nan (f32_mul x y) = true.
Proof. by destruct x. Qed.

(** a controller driven by a sequence of commands, each followed by a tick *)
Fixpoint drive (m : SimMotor) (cs : list (MotorCommand f32 * f32)) : exec SimMotor :=
  match cs with
  | [] => Ret m
  | (c, dt) :: cs => m ← tick (apply m c) dt; drive m cs
  end.

Lemma nan_kept m dt : is_nan (omega m) = true ->
  exists m', tick m dt = Ret m' /\ is_nan (omega m') = true.
Proof.
  intros H. unfold tick. destruct (target_total (last_cmd m)) as [t ->]. rewrite ret_bind.
  eexists. split; [reflexivity|]. cbn [omega]. by apply nan_add.
Qed.

(** One speed command that is not a number breaks the channel for good: whatever
    is commanded afterwards, an idle command included, the speed it reports stays
    not a number, and the error field stays zero. *)
Theorem nan_command_sticks (m : SimMotor) (c : MotorCommand f32) (dt : f32) (cs : list (MotorCommand f32 * f32))
    (out : MotorTelemetry f32) :
  mode c = Some Speed -> is_nan (value c) = true ->
  exists m', drive m ((c, dt) :: cs) = Ret m' /\
    is_nan (rpm (snd (motor_read m' out))) = true /\ errors (snd (motor_read m' out)) = 0.
Proof.
  intros Hm Hv. cbn [drive].
  assert (H1 : exists m1, tick (apply m c) dt = Ret m1 /\ is_nan (omega m1) = true).
  { unfold tick, target. cbn [apply last_cmd omega]. unfold mode in Hm. rewrite Hm.
    assert (Ec : fclamp (value c) (SFopp MAX_ROTOR_SPEED) MAX_ROTOR_SPEED = Ret (value c)).
    { unfold fclamp. change (fle (SFopp MAX_ROTOR_SPEED) MAX_ROTOR_SPEED) with true.
      destruct (value c); done. }
    rewrite Ec, ret_bind. eexists. split; [reflexivity|]. cbn [omega].
    by apply nan_add_r, nan_mul, nan_sub. }
  destruct H1 as (m1 & E1 & Hn). rewrite E1, ret_bind. clear E1.
  revert m1 Hn. induction cs as [|[c' dt'] cs IH]; intros m1 Hn; cbn [drive].
  - exists m1. split; [done|]. by split.
  - destruct (nan_kept (apply m1 c') dt') as (m2 & E2 & Hn2); [done|]. rewrite E2, ret_bind. by apply IH.
Qed.

Lemma nan_command_sticks_witness :
  let c := {| seq := 1; timestamp_ns := 0; mode_raw := 1; pad3 := [0; 0; 0]; value := S754_nan |} in
  exists m', drive (new (f32_of_Z 16)) [(c, f32_lit 1 200); (idle f_zero 2 0, f32_lit 1 200)] = Ret m' /\
    is_nan (omega m') = true.
Proof.
  intros c.
  destruct (nan_command_sticks (new (f32_of_Z 16)) c (f32_lit 1 200) [(idle f_zero 2 0, f32_lit 1 200)]
    {| mt_seq := 0; mt_timestamp_ns := 0; rpm := f_zero; temp_c := f_zero; volts := f_zero; errors := 0 |})
    as (m' & E & H & _); [done|done|].
  exists m'. split; [exact E|exact H].
Defined.

(** The normalised thrust is said to stay in [0, 1]; rounding takes the speed past
    the rated one when a full-thrust command meets a reversed rotor and the step
    is at least the time constant. *)
Example thrust_over_one :
  let c m v := {| seq := 1; timestamp_ns := 0; mode_raw := as_u8 m; pad3 := [0; 0; 0]; value := v |} in
  exists m, drive (new (f32_of_Z 16)) [(c Speed (S754_finite true 14463174 (-16)), f32_lit 15 100);
                                       (c Thrust (f32_of_Z 1), f32_lit 15 100)] = Ret m /\
    flt (f32_of_Z 1) (normalized_thrust m) = true.
Proof. eexists. split; [vm_compute; reflexivity|]. vm_compute. reflexivity. Qed.

End Esc.
#[export] Existing Instance Esc.sim_motor.

(** ** The null camera (camera.rs, mock/camera.rs) *)

Class Camera (C : Type) := {
  cam_configure : C -> Z -> Z -> PixelFormat -> C * result unit HalError;
  cam_grab : C -> list Z -> Frame.FrameInfo -> exec (C * list Z * Frame.FrameInfo * result unit HalError)
}.

Module NullCam.
Import Frame.

Record NullCamera := { cam_width : Z; cam_height : Z; cam_format : PixelFormat; cam_seq : Z }.

Definition new : NullCamera := {| cam_width := 0; cam_height := 0; cam_format := GrayY8; cam_seq := 0 |}.

Definition configure (c : NullCamera) (w h : Z) (f : PixelFormat) : NullCamera * result unit HalError :=
  ({| cam_width := w; cam_height := h; cam_format := f; cam_seq := cam_seq c |}, Ok tt).

Definition grab (c : NullCamera) (buf : list Z) (info : FrameInfo)
  : exec (NullCamera * list Z * FrameInfo * result unit HalError) :=
  if cam_width c =? 0 then Ret (c, buf, info, Err (Device (ascii_bytes "not configured")))
  else
    let needed := min_buffer_len (cam_format c) (cam_width c) (cam_height c) in
    if Z.of_nat (length buf) <? needed then
      Ret (c, buf, info, Err (BufferTooSmall needed (Z.of_nat (length buf))))
    else
      front ← range buf 0 (Z.to_nat needed);
      let front := imap (fun i _ => Z.of_nat i mod 251) front in
      let s := wadd 64 (cam_seq c) 1 in
      Ret ({| cam_width := cam_width c; cam_height := cam_height c; cam_format := cam_format c; cam_seq := s |},
           front ++ drop (Z.to_nat needed) buf,
           {| fi_seq := s; fi_timestamp_ns := wmul 64 s 33333333; width := cam_width c;
              height := cam_height c; stride := wmul 32 (cam_width c) (bytes_per_pixel (cam_format c));
              format := as_u32 (cam_format c) |}, Ok tt).

#[export] Instance null_camera : Camera NullCamera := {| cam_configure := configure; cam_grab := grab |}.

(** A grab returns for every buffer: it refuses an unconfigured camera and a short
    buffer without touching either, and otherwise writes the ramp over the
    required bytes and leaves the rest. *)
Lemma grab_total c buf info :
  exists c' buf' info' r, grab c buf info = Ret (c', buf', info', r) /\ length buf' = length buf /\
    match r with
    | Err _ => c' = c /\ buf' = buf /\ info' = info /\
        (cam_width c = 0 \/ Z.of_nat (length buf) < min_buffer_len (cam_format c) (cam_width c) (cam_height c))
    | Ok _ => cam_seq c' = wadd 64 (cam_seq c) 1 /\ fi_seq info' = cam_seq c' /\
        forall i, buf' !! i =
          if decide (Z.of_nat i < min_buffer_len (cam_format c) (cam_width c) (cam_height c))
          then Some (Z.of_nat i mod 251) else buf !! i
    end.
Proof.
  unfold grab. destruct (Z.eqb_spec (cam_width c) 0) as [E|E].
  { do 4 eexists. split; [reflexivity|]. split; [done|]. split_and!; auto. }
  set (n := min_buffer_len _ _ _). destruct (Z.ltb_spec (Z.of_nat (length buf)) n) as [Hl|Hl].
  { do 4 eexists. split; [reflexivity|]. split; [done|]. split_and!; auto. }
  unfold range. rewrite decide_True by lia. rewrite ret_bind, drop_0.
  do 4 eexists. split; [reflexivity|]. split.
  { rewrite length_app, length_imap, length_take, length_drop. lia. }
  split_and!; [done|done|]. intros i. destruct (decide (i < Z.to_nat n)%nat) as [Hi|Hi].
  - rewrite decide_True by lia. rewrite lookup_app_l by (rewrite length_imap, length_take; lia).
    rewrite list_lookup_imap, lookup_take_lt by done.
    destruct (lookup_lt_is_Some_2 buf i) as [b ->]; [lia|done].
  - rewrite decide_False by lia. rewrite lookup_app_r by (rewrite length_imap, length_take; lia).
    rewrite length_imap, length_take, lookup_drop. f_equal. lia.
Qed.

End NullCam.
#[export] Existing Instance NullCam.null_camera.

(** ** Register windows (mmio.rs) *)

Class Mmio (M : Type) := {
  read_u32 : M -> Z -> exec Z;
  write_u32 : M -> Z -> Z -> exec M
}.

Module BufMmio.

Record BufferMmio := { mem : list Z }.
Definition new (size : nat) : BufferMmio := {| mem := replicate size 0 |}.

Definition read (m : BufferMmio) (offset : Z) : exec Z :=
  b0 ← index (mem m) (Z.to_nat offset);
  b1 ← index (mem m) (Z.to_nat (wadd 64 offset 1));
  b2 ← index (mem m) (Z.to_nat (wadd 64 offset 2));
  b3 ← index (mem m) (Z.to_nat (wadd 64 offset 3));
  Ret (le_val [b0; b1; b2; b3]).

(** [self.mem[offset..offset + 4]]: the end may wrap and then lies before the start *)
Definition write (m : BufferMmio) (offset value : Z) : exec BufferMmio :=
  if wadd 64 offset 4 <? offset then Panic
  else
    l ← copy_from_slice (mem m) (Z.to_nat offset) (le_bytes 4 value);
    Ret {| mem := l |}.

#[export] Instance buffer_mmio : Mmio BufferMmio := {| read_u32 := read; write_u32 := write |}.

Lemma read_spec m o : 0 <= o -> o + 4 <= Z.of_nat (length (mem m)) < 2 ^ 64 ->
  read m o = Ret (le_val (take 4 (drop (Z.to_nat o) (mem m)))).
Proof.
  intros Ho Hl. unfold read, index.
  assert (E : forall k, 0 <= k < 4 -> Z.to_nat (wadd 64 o k) = (Z.to_nat o + Z.to_nat k)%nat).
  { intros k Hk. unfold wadd. rewrite wrap_id by (unfold uint; lia). lia. }
  rewrite !E by lia. destruct (drop (Z.to_nat o) (mem m)) as [|b0 [|b1 [|b2 [|b3 rest]]]] eqn:Ed;
    apply (f_equal length) in Ed as El; rewrite length_drop in El; simpl in El; try lia.
  assert (G : forall k, mem m !! (Z.to_nat o + k)%nat = (b0 :: b1 :: b2 :: b3 :: rest) !! k)
    by (intros k; by rewrite <- Ed, lookup_drop).
  pose proof (G 0%nat) as G0. rewrite Nat.add_0_r in G0. rewrite G0.
  change (Z.to_nat 1) with 1%nat. change (Z.to_nat 2) with 2%nat. change (Z.to_nat 3) with 3%nat.
  by rewrite (G 1%nat), (G 2%nat), (G 3%nat).
Qed.

(** A register reads back what was written, and no write disturbs a register it
    does not overlap. *)
Lemma mmio_roundtrip m o v : 0 <= o -> o + 4 <= Z.of_nat (length (mem m)) < 2 ^ 64 -> uint 32 v ->
  exists m', write m o v = Ret m' /\ length (mem m') = length (mem m) /\ read m' o = Ret v /\
    forall p, 0 <= p -> p + 4 <= Z.of_nat (length (mem m)) -> (p + 4 <= o \/ o + 4 <= p) -> read m' p = read m p.
Proof.
  intros Ho Hl Hv. unfold write, wadd. rewrite wrap_id by (unfold uint; lia).
  rewrite (proj2 (Z.ltb_ge _ _)) by lia. unfold copy_from_slice.
  rewrite length_le_bytes, decide_True by lia. rewrite ret_bind. eexists. split; [reflexivity|].
  cbn [mem]. assert (Ls : length (splice (mem m) (Z.to_nat o) (le_bytes 4 v)) = length (mem m))
    by (apply length_splice; rewrite length_le_bytes; lia).
  split; [done|]. split.
  - rewrite read_spec by (cbn [mem]; rewrite ?Ls; lia). cbn [mem]. unfold splice.
    rewrite drop_app_ge by (rewrite length_take; lia). rewrite length_take, Nat.min_l, Nat.sub_diag by lia.
    rewrite drop_0, (take_app_length' _ _ 4) by by rewrite length_le_bytes.
    by rewrite le_val_bytes_id.
  - intros p Hp Hpl Hd. rewrite !read_spec by (cbn [mem]; rewrite ?Ls; lia). cbn [mem]. f_equal. f_equal.
    apply list_eq. intros k. destruct (decide (k < 4)%nat); [|by rewrite !lookup_take_ge by lia].
    rewrite !lookup_take_lt, !lookup_drop by done. unfold splice. destruct Hd.
    + rewrite lookup_app_l by (rewrite length_take; lia). apply lookup_take_lt. lia.
    + rewrite !lookup_app_r by (rewrite ?length_take, ?length_le_bytes; lia).
      rewrite lookup_drop, length_take, length_le_bytes. f_equal. lia.
Qed.

End BufMmio.
#[export] Existing Instance BufMmio.buffer_mmio.
