(* ===== verification/HalLinux.v ===== *)
(** * Linux hardware back ends: [tpt-t-hal/src/mmio.rs], [socketcan.rs], [stub_can.rs]

    [DevMem]: registers mapped through /dev/mem.  [Socket]: the raw CAN socket.
    The kernel is a class of system calls; [is_open] is its descriptor table.  An
    access outside the mapping or off its alignment is undefined behaviour. *)

From stdpp Require Import strings.
From S2P Require Import Prelude Text Hal.

(** ** Memory-mapped registers (mmio.rs) *)

Module DevMem.

Class DevMemOs (W : Type) := {
  open_dev_mem : W -> W * option Z;
  mmap : W -> Z -> Z -> Z -> W * option Z;
  munmap : W -> Z -> Z -> W;
  close : W -> Z -> W;
  load32 : W -> Z -> Z;
  store32 : W -> Z -> Z -> W;
  is_open : W -> Z -> bool;
  open_fresh w w' fd : open_dev_mem w = (w', Some fd) -> is_open w fd = false /\ is_open w' fd = true;
  close_closes w fd : is_open (close w fd) fd = false;
  mmap_keeps w fd a n g : is_open (fst (mmap w fd a n)) g = is_open w g;
  mmap_aligned w fd a n w' p : mmap w fd a n = (w', Some p) -> p mod 4096 = 0
}.

Section LinuxMmio.
Context {W : Type} `{OS : !DevMemOs W}.

Record LinuxMmio := { ptr : Z; size : Z; fd : Z }.

(** The [File] is dropped, and its descriptor closed, on every way out. *)
Definition open (w : W) (phys_addr size : Z) : W * result LinuxMmio HalError :=
  match open_dev_mem w with
  | (w, None) => (w, Err (Device (ascii_bytes "cannot open /dev/mem")))
  | (w, Some raw) =>
      match mmap w raw phys_addr size with
      | (w, None) => (close w raw, Err (Device (ascii_bytes "mmap of physical memory failed")))
      | (w, Some p) => (close w raw, Ok {| ptr := p; size := size; fd := raw |})
      end
  end.

(** [ptr.add(offset) as *const u32] must lie in the mapping and be aligned. *)
Definition access_ok (m : LinuxMmio) (offset : Z) : bool :=
  (offset + 4 <=? size m) && ((ptr m + offset) mod 4 =? 0).

Definition read_u32 (w : W) (m : LinuxMmio) (offset : Z) : exec Z :=
  _ ← assert (wadd 64 offset 4 <=? size m);
  if access_ok m offset then Ret (load32 w (ptr m + offset)) else Undef.

Definition write_u32 (w : W) (m : LinuxMmio) (offset value : Z) : exec W :=
  _ ← assert (wadd 64 offset 4 <=? size m);
  if access_ok m offset then Ret (store32 w (ptr m + offset) value) else Undef.

Definition drop (w : W) (m : LinuxMmio) : W := close (munmap w (ptr m) (size m)) (fd m).

(** The descriptor a mapping keeps is closed already when [open] returns. *)
Lemma open_dangling w w' a n m : open w a n = (w', Ok m) -> is_open w' (fd m) = false.
Proof.
  unfold open. destruct (open_dev_mem w) as [w1 [raw|]]; [|done].
  destruct (mmap w1 raw a n) as [w2 [p|]]; [|done]. intros [= <- <-]. apply close_closes.
Qed.

Lemma open_aligned w w' a n m : open w a n = (w', Ok m) -> ptr m mod 4 = 0 /\ size m = n.
Proof.
  unfold open. destruct (open_dev_mem w) as [w1 [raw|]]; [|done].
  destruct (mmap w1 raw a n) as [w2 [p|]] eqn:E; [|done]. intros [= <- <-].
  apply mmap_aligned in E. split; [|done]. cbn [ptr]. Z.to_euclidean_division_equations; lia.
Qed.

(** The bounds test of a register access: an aligned offset inside the mapping is
    read, a misaligned one is undefined behaviour, one past the end panics, and
    the last four offsets of the address space slip through the wrapped sum into
    undefined behaviour. *)
Theorem mmio_bounds_exact (w w' : W) (a n offset : Z) (m : LinuxMmio) :
  open w a n = (w', Ok m) -> 4 <= n < 2 ^ 63 -> 0 <= offset < 2 ^ 64 ->
  read_u32 w' m offset =
    if offset + 4 <=? n then if offset mod 4 =? 0 then Ret (load32 w' (ptr m + offset)) else Undef
    else if 2 ^ 64 <=? offset + 4 then Undef else Panic.
Proof.
  intros Ho Hn Hof. destruct (open_aligned _ _ _ _ _ Ho) as [Hp Hs].
  unfold read_u32, access_ok. rewrite Hs.
  assert (Em : ((ptr m + offset) mod 4 =? 0) = (offset mod 4 =? 0)).
  { rewrite <- Z.add_mod_idemp_l, Hp by lia. done. }
  rewrite Em. unfold wadd, wrap. destruct (Z.leb_spec (2 ^ 64) (offset + 4)) as [Hw|Hw].
  - assert (Ew : (offset + 4) mod 2 ^ 64 = offset + 4 - 2 ^ 64) by (Z.to_euclidean_division_equations; lia).
    rewrite Ew, (proj2 (Z.leb_le (offset + 4 - 2 ^ 64) n)), (proj2 (Z.leb_gt (offset + 4) n)) by lia. done.
  - rewrite (Z.mod_small (offset + 4)) by lia. destruct (Z.leb_spec (offset + 4) n); [|done].
    by destruct (offset mod 4 =? 0).
Qed.

End LinuxMmio.

(** *** A descriptor table

    Descriptors are numbered from 3; the lowest free one is handed out. *)
Definition lowest_free (opened : list Z) : Z :=
  default 0 (List.find (fun fd => negb (bool_decide (fd ∈ opened))) (seqZ 3 (Z.of_nat (length opened) + 1))).

Lemma find_free l k n : Z.of_nat (length l) < n -> exists fd,
  List.find (fun fd => negb (bool_decide (fd ∈ l))) (seqZ k n) = Some fd.
Proof.
  intros Hn. destruct (List.find _ (seqZ k n)) as [fd|] eqn:E; [by exists fd|]. exfalso.
  assert (Hsub : seqZ k n ⊆ l).
  { intros x Hx. apply list_elem_of_In in Hx. pose proof (List.find_none _ _ E x Hx) as Hf.
    simpl in Hf. by case_bool_decide. }
  assert (Hp : seqZ k n ⊆+ l) by (apply NoDup_submseteq; [apply NoDup_seqZ|done]).
  apply submseteq_length in Hp. rewrite length_seqZ in Hp. lia.
Qed.

Lemma lowest_free_free l : lowest_free l ∉ l.
Proof.
  unfold lowest_free. destruct (find_free l 3 (Z.of_nat (length l) + 1)) as [fd E]; [lia|].
  rewrite E. apply List.find_some in E as [_ E]. simpl. by case_bool_decide.
Qed.

#[export] Program Instance table_os : DevMemOs (list Z) := {|
  open_dev_mem l := (lowest_free l :: l, Some (lowest_free l));
  mmap l _ _ _ := (l, Some 4096);
  munmap l _ _ := l;
  close l fd := filter (fun g => g <> fd) l;
  load32 _ _ := 0;
  store32 l _ _ := l;
  is_open l fd := bool_decide (fd ∈ l)
|}.
Next Obligation.
  intros w w' fd [= <- <-]. split; [apply bool_decide_eq_false, lowest_free_free|].
  apply bool_decide_eq_true. by left.
Qed.
Next Obligation.
  intros w fd. cbv beta. apply bool_decide_eq_false. rewrite list_elem_of_filter. tauto.
Qed.
Next Obligation. done. Qed.
Next Obligation. intros w fd a n w' p [= <- <-]. done. Qed.

Lemma mmio_bounds_exact_witness :
  exists m, open (W := list Z) [] 0 64 = ([], Ok m) /\
    read_u32 (W := list Z) [] m 60 = Ret 0 /\ read_u32 (W := list Z) [] m 64 = Panic /\
    read_u32 (W := list Z) [] m (2 ^ 64 - 4) = Undef.
Proof.
  exists {| ptr := 4096; size := 64; fd := 3 |}.
  assert (Ho : open (W := list Z) [] 0 64 = ([], Ok {| ptr := 4096; size := 64; fd := 3 |})) by reflexivity.
  split; [exact Ho|].
  split_and!; rewrite (mmio_bounds_exact (W := list Z) [] [] 0 64 _ {| ptr := 4096; size := 64; fd := 3 |} Ho);
    try (vm_compute; intuition congruence); reflexivity.
Defined.

(** Dropping a mapping closes a descriptor it does not own: a file opened after
    the mapping gets the number the mapping kept, and loses it with the mapping. *)
Example drop_closes_foreign_file :
  exists w1 m w2 fd, open (W := list Z) [] 0 64 = (w1, Ok m) /\
    open_dev_mem w1 = (w2, Some fd) /\ is_open w2 fd = true /\ is_open (drop w2 m) fd = false.
Proof.
  exists [], {| ptr := 4096; size := 64; fd := 3 |}, [3], 3. split_and!; reflexivity.
Qed.

End DevMem.

(** ** Raw CAN sockets (socketcan.rs) *)

Module Socket.

Definition CAN_EFF_FLAG : Z := 0x80000000.

(** [struct can_frame] of the kernel: [can_dlc] is the payload length; [len8_dlc]
    only refines the length code of a full frame. *)
Record KFrame := { can_id : Z; can_dlc : Z; len8_dlc : Z; kdata : list Z }.

Inductive Errno := WouldBlock | OtherErrno.

Class CanSockOs (W : Type) := {
  socket : W -> W * option Z;
  if_nametoindex : W -> list Z -> Z;
  bind : W -> Z -> Z -> W * bool;
  set_nonblock : W -> Z -> W;
  ksend : W -> Z -> KFrame -> W * result unit Errno;
  krecv : W -> Z -> W * option KFrame;
  kclose : W -> Z -> W;
  is_open : W -> Z -> bool;
  socket_opens w w' fd : socket w = (w', Some fd) -> is_open w' fd = true;
  kclose_closes w fd : is_open (kclose w fd) fd = false
}.

Section SocketCan.
Context {W : Type} `{OS : !CanSockOs W}.

Record SocketCan := { sock : Z }.

(** [iface] is the name's bytes; a C string holds no NUL. *)
Definition open (w : W) (iface : list Z) : W * result SocketCan HalError :=
  match socket w with
  | (w, None) => (w, Err (Device (ascii_bytes "socket(AF_CAN) failed")))
  | (w, Some fd) =>
      if bool_decide (0 ∈ iface) then (w, Err (Device (ascii_bytes "interface name not C-string")))
      else
        let ifindex := if_nametoindex w iface in
        if ifindex =? 0 then (kclose w fd, Err (Device (ascii_bytes "unknown CAN interface")))
        else
          match bind w fd ifindex with
          | (w, false) => (kclose w fd, Err (Device (ascii_bytes "bind(AF_CAN) failed")))
          | (w, true) => (set_nonblock w fd, Ok {| sock := fd |})
          end
  end.

Definition as_raw_fd (s : SocketCan) : Z := sock s.

(** the kernel frame [send] builds from a zeroed one *)
Definition to_kernel (frame : CanFrame) : KFrame :=
  let len := Z.to_nat (Z.min (Can.len frame) 8) in
  let id := Can.id frame in
  {| can_id := if 0x7FF <? id then Z.lor id CAN_EFF_FLAG else id;
     can_dlc := 0;
     len8_dlc := Z.of_nat len;
     kdata := take len (Can.data frame) ++ replicate (8 - len) 0 |}.

(** the frame [recv] builds *)
Definition of_kernel (cf : KFrame) : CanFrame :=
  let len := Z.to_nat (Z.min (can_dlc cf) 8) in
  Can.new (Z.ldiff (can_id cf) CAN_EFF_FLAG) (take len (kdata cf)).

Definition send (ws : W * SocketCan) (frame : CanFrame) : exec ((W * SocketCan) * result unit HalError) :=
  let '(w, s) := ws in
  let '(w, r) := ksend w (sock s) (to_kernel frame) in
  Ret ((w, s), match r with
               | Ok _ => Ok tt
               | Err WouldBlock => Err Dropped
               | Err OtherErrno => Err (Device (ascii_bytes "CAN send failed"))
               end).

Definition recv (ws : W * SocketCan) (out : CanFrame) : exec ((W * SocketCan) * CanFrame * bool) :=
  let '(w, s) := ws in
  match krecv w (sock s) with
  | (w, None) => Ret ((w, s), out, false)
  | (w, Some cf) => Ret ((w, s), of_kernel cf, true)
  end.

#[export] Instance socket_bus : CanBus (W * SocketCan) := {| can_send := send; can_recv := recv |}.

Definition drop (w : W) (s : SocketCan) : W := kclose w (sock s).

(** A name that is no C string leaves the socket open behind an error. *)
Lemma nul_name_leaks w w1 fd iface : socket w = (w1, Some fd) -> 0 ∈ iface ->
  open w iface = (w1, Err (Device (ascii_bytes "interface name not C-string"))) /\ is_open w1 fd = true.
Proof.
  intros E Hn. unfold open. rewrite E, bool_decide_true by done. split; [done|]. by eapply socket_opens.
Qed.

(** Every other failure closes it. *)
Lemma failure_closes w w1 w2 fd iface e : socket w = (w1, Some fd) -> 0 ∉ iface ->
  open w iface = (w2, Err e) -> is_open w2 fd = false.
Proof.
  intros E Hn. unfold open. rewrite E, bool_decide_false by done. destruct (_ =? 0).
  - intros [= <- _]. apply kclose_closes.
  - destruct (bind _ _ _) as [w3 []]; [done|]. intros [= <- _]. apply kclose_closes.
Qed.

End SocketCan.

(** The identifier survives the kernel's flag for extended frames. *)
Lemma id_roundtrip i : 0 <= i < 2 ^ 31 ->
  Z.ldiff (if 0x7FF <? i then Z.lor i CAN_EFF_FLAG else i) CAN_EFF_FLAG = i.
Proof.
  intros Hi. assert (Hb : forall k, 31 <= k -> Z.testbit i k = false).
  { intros k Hk. destruct (decide (i = 0)) as [->|]; [apply Z.bits_0|].
    apply Z.bits_above_log2; [lia|]. apply Z.log2_lt_pow2; [lia|].
    apply Z.lt_le_trans with (2 ^ 31); [lia|]. apply Z.pow_le_mono_r; lia. }
  apply Z.bits_inj'. intros k Hk. rewrite Z.ldiff_spec. change CAN_EFF_FLAG with (2 ^ 31).
  rewrite Z.pow2_bits_eqb by lia. destruct (Z.eqb_spec 31 k) as [<-|Hne].
  - rewrite andb_false_r. symmetry. by apply Hb.
  - rewrite andb_true_r. destruct (0x7FF <? i); [|done].
    rewrite Z.lor_spec, Z.pow2_bits_eqb by lia. rewrite (proj2 (Z.eqb_neq 31 k)) by done.
    apply orb_false_r.
Qed.

(** A frame sent through the socket reaches another socket of this program with
    its identifier and without its payload: the length is written to [len8_dlc],
    the kernel and [recv] read [can_dlc]. *)
Theorem socketcan_payload_lost (f : CanFrame) :
  0 <= Can.id f < 2 ^ 31 ->
  can_dlc (to_kernel f) = 0 /\
  of_kernel (to_kernel f) = Can.new (Can.id f) [] /\ Can.payload (of_kernel (to_kernel f)) = [].
Proof.
  intros Hi. assert (E : of_kernel (to_kernel f) = Can.new (Can.id f) []).
  { unfold of_kernel, to_kernel; cbn [can_id can_dlc kdata]. by rewrite id_roundtrip. }
  rewrite E. by split_and!.
Qed.

Lemma socketcan_payload_lost_witness :
  let f := Can.new Can.MOTOR_CMD [1; 2; 3; 4] in
  Can.payload f = [1; 2; 3; 4] /\ Can.payload (of_kernel (to_kernel f)) = [].
Proof.
  split; [reflexivity|]. apply (socketcan_payload_lost (Can.new Can.MOTOR_CMD [1; 2; 3; 4])).
  vm_compute. intuition congruence.
Defined.

(** Were the length written where the kernel reads it, frames would survive. *)
Lemma of_kernel_id (f : CanFrame) : 0 <= Can.id f < 2 ^ 31 -> 0 <= Can.len f <= 8 -> length (Can.data f) = 8%nat ->
  Can.payload (of_kernel {| can_id := can_id (to_kernel f); can_dlc := len8_dlc (to_kernel f);
                            len8_dlc := 0; kdata := kdata (to_kernel f) |}) = Can.payload f.
Proof.
  intros Hi Hl Hd. unfold of_kernel, to_kernel; cbn [can_id can_dlc len8_dlc kdata].
  rewrite Z.min_l, Z.min_l, !Nat2Z.id by lia.
  rewrite (take_app_length' (take _ _)) by (rewrite length_take; lia).
  rewrite Can.payload_new by (rewrite length_take; lia). unfold Can.payload. by rewrite Z.min_l by lia.
Qed.

(** A remote-request or error frame is taken for a data frame whose identifier
    keeps the flag bit. *)
Example remote_frame_taken_for_data :
  Can.id (of_kernel {| can_id := 0x40000123; can_dlc := 0; len8_dlc := 0; kdata := replicate 8 0 |}) = 0x40000123.
Proof. reflexivity. Qed.

End Socket.

(** ** Other platforms (stub_can.rs) *)

Module StubCan.
Record StubCan := {}.
Definition open (iface : list Z) : result StubCan HalError :=
  Err (HalUnsupported (ascii_bytes "cross-platform CAN deferred to hardware bring-up")).
#[export] Instance stub_bus : CanBus StubCan := {|
  can_send s _ := Ret (s, Err (HalUnsupported (ascii_bytes "cross-platform CAN deferred")));
  can_recv s out := Ret (s, out, false)
|}.
End StubCan.
