(* ===== verification/Input.v ===== *)
(** * Operator input: [tpt-t-input/src]

    Device events, the axis mapping, the stages that feed the safety loop's ring,
    haptic feedback and the choice among operators.  Devices, sinks and command
    sources are the classes the source's traits become; the Linux device file is
    the class [EvdevOs]. *)

From stdpp Require Import strings.
From S2P Require Import Prelude Text Ring Mode Ser Float FloatText FloatFacts Hal.

(** ** Reports (report.rs) *)

Module Report.
Record DeviceInfo := {
  vendor_id : Z; product_id : Z; path : list Z; num_axes : Z; num_buttons : Z
}.
Record ControllerReport := { seq : Z; buttons : Z; axes : list f32; timestamp_ns : Z }.
Definition default : ControllerReport :=
  {| seq := 0; buttons := 0; axes := replicate 8 f_zero; timestamp_ns := 0 |}.
End Report.
Import Report (ControllerReport, DeviceInfo).

Module Slot.
Definition ROLL : nat := 0.
Definition PITCH : nat := 1.
Definition YAW : nat := 2.
Definition THROTTLE : nat := 3.
Definition LAT_X : nat := 4.
Definition LAT_Y : nat := 5.
Definition SPARE0 : nat := 6.
Definition SPARE1 : nat := 7.
End Slot.

(** ** Errors (source.rs) and the trait of a device *)

Inductive InputError := Os (s : list Z) | Unsupported (s : list Z) | BadPath (s : list Z).

Definition InputError_fmt (e : InputError) : list Z :=
  match e with
  | Os s => ascii_bytes "input os error: " ++ s
  | Unsupported s => ascii_bytes "unsupported on this platform: " ++ s
  | BadPath s => ascii_bytes "bad device path: " ++ s
  end.

(** the device with the world behind it *)
Class RawInputSource (S : Type) := {
  poll : S -> ControllerReport -> exec (S * ControllerReport * bool);
  info : S -> DeviceInfo;
  reopen : S -> exec (S * result unit InputError)
}.

(** what the input stage relies on of a device: an invariant of the device and the
    report it fills, under which a poll returns and fresh axes are numbers *)
Class NumericSource (S : Type) `{RS : !RawInputSource S} := {
  src_ok : S -> ControllerReport -> Prop;
  poll_numeric s out : src_ok s out ->
    exists s' rep b, poll s out = Ret (s', rep, b) /\ src_ok s' rep /\
      (b = true -> Forall (fun x => is_nan x = false) (Report.axes rep))
}.

(** ** Mapping (map.rs) *)

Record ControllerMap := {
  roll_slot : nat; pitch_slot : nat; yaw_slot : nat; throttle_slot : nat;
  invert_roll : bool; invert_pitch : bool; invert_yaw : bool; deadzone : f32
}.

Module Map.
Definition default : ControllerMap :=
  {| roll_slot := Slot.ROLL; pitch_slot := Slot.PITCH; yaw_slot := Slot.YAW;
     throttle_slot := Slot.THROTTLE; invert_roll := false; invert_pitch := false;
     invert_yaw := false; deadzone := f32_lit 4 100 |}.

Definition one : f32 := f32_of_Z 1.
Definition minus_one : f32 := SFopp one.
Definition half : f32 := f32_lit 1 2.

(** [f32::signum] *)
Definition signum (v : f32) : f32 :=
  match v with
  | S754_nan => S754_nan
  | S754_zero s | S754_infinity s | S754_finite s _ _ => if s then minus_one else one
  end.

Definition dz (v zone : f32) : f32 :=
  if fle zone f_zero || fle (SFabs v) zone then f_zero
  else f32_div (f32_sub v (f32_mul (signum v) zone)) (f32_sub one zone).

Definition sgn (inv : bool) : f32 := if inv then minus_one else one.

Definition raw (report : ControllerReport) (i : nat) : f32 :=
  from_option id f_zero (Report.axes report !! i).

Definition g (m : ControllerMap) (report : ControllerReport) (slot_idx : nat) (inv : bool) : exec f32 :=
  v ← fclamp (raw report slot_idx) minus_one one;
  let shaped := dz v (deadzone m) in
  Ret (f32_mul shaped (sgn inv)).

(** the four assignments to [out.axes] *)
Definition apply (m : ControllerMap) (report : ControllerReport) (out : Cmd.ControlCommand f32)
    : exec (Cmd.ControlCommand f32) :=
  r ← g m report (roll_slot m) (invert_roll m);
  p ← g m report (pitch_slot m) (invert_pitch m);
  y ← g m report (yaw_slot m) (invert_yaw m);
  thr ← fclamp (raw report (throttle_slot m)) minus_one one;
  t ← fclamp (f32_add (f32_mul thr half) half) f_zero one;
  Ret (Cmd.with_axes out
    (<[3%nat := t]> (<[2%nat := y]> (<[1%nat := p]> (<[0%nat := r]> (Cmd.axes out)))))).
End Map.

(** ** Device events (evdev_parse.rs) *)

Definition EV_SYN : Z := 0.
Definition EV_KEY : Z := 1.
Definition EV_ABS : Z := 3.
Definition ABS_X : Z := 0.
Definition ABS_Y : Z := 1.
Definition ABS_Z : Z := 2.
Definition ABS_RX : Z := 3.
Definition ABS_RY : Z := 4.
Definition ABS_RZ : Z := 5.
Definition ABS_THROTTLE : Z := 6.
Definition ABS_RUDDER : Z := 7.
Definition ABS_HAT0X : Z := 0x10.
Definition EVENT_SIZE : nat := 24.

Module Evdev.

Record EvdevEvent := { tv_sec : Z; tv_usec : Z; kind : Z; code : Z; value : Z }.

(** [v |= (buf[off + o + k] as u64) << (8 * k)] for the eight [k] *)
Fixpoint or_bytes (bs : list Z) (k v : Z) : Z :=
  match bs with
  | [] => v
  | b :: bs => or_bytes bs (k + 1) (Z.lor v (Z.shiftl b (8 * k)))
  end.
Definition rd (buf : list Z) (off : nat) : Z := or_bytes (take 8 (drop off buf)) 0 0.

Definition decode_event (buf : list Z) (off : nat) : option EvdevEvent :=
  if (length buf <? off + EVENT_SIZE)%nat then None
  else Some
    {| tv_sec := to_signed 64 (rd buf off);
       tv_usec := to_signed 64 (rd buf (off + 8));
       kind := le_val (take 2 (drop (off + 16) buf));
       code := le_val (take 2 (drop (off + 18) buf));
       value := to_signed 32 (le_val (take 4 (drop (off + 20) buf))) |}.

Record EvdevAccumulator := {
  calib : list (Z * Z); buttons : Z; axes : list f32; last_time : Z * Z
}.

Definition default : EvdevAccumulator :=
  {| calib := replicate 6 (-1023, 1023) ++ replicate 2 (0, 1023);
     buttons := 0; axes := replicate 8 f_zero; last_time := (0, 0) |}.

(** the slot an axis code feeds, and whether it is inverted *)
Definition slot_of (code : Z) : option (nat * bool) :=
  if code =? ABS_X then Some (Slot.ROLL, false)
  else if code =? ABS_Y then Some (Slot.PITCH, true)
  else if code =? ABS_RX then Some (Slot.YAW, false)
  else if code =? ABS_RZ then Some (Slot.THROTTLE, false)
  else if code =? ABS_Z then Some (Slot.SPARE0, false)
  else if code =? ABS_THROTTLE then Some (Slot.THROTTLE, false)
  else if code =? ABS_RUDDER then Some (Slot.YAW, false)
  else if code =? ABS_HAT0X then Some (Slot.LAT_X, false)
  else None.

(** [i32] subtraction *)
Definition isub (a b : Z) : Z := to_signed 32 (wrap 32 (a - b)).

Definition push_abs (a : EvdevAccumulator) (code value : Z) : exec (EvdevAccumulator * bool) :=
  match slot_of code with
  | None => Ret (a, false)
  | Some (slot_idx, invert) =>
      c ← index (calib a) (Nat.min slot_idx 7);
      let span := Z.max (isub c.2 c.1) 1 in
      let norm := f32_sub (f32_mul (f32_div (f32_of_Z (isub value c.1)) (f32_of_Z span))
                             (f32_of_Z 2)) Map.one in
      x ← fclamp norm Map.minus_one Map.one;
      _ ← assert (slot_idx <? length (axes a))%nat;
      Ret ({| calib := calib a; buttons := buttons a;
              axes := <[slot_idx := if invert then SFopp x else x]> (axes a);
              last_time := last_time a |}, true)
  end.

Definition push_key (a : EvdevAccumulator) (code : Z) (down : bool) : EvdevAccumulator * bool :=
  let bit := code mod 32 in
  ({| calib := calib a;
      buttons := if down then Z.lor (buttons a) (Z.shiftl 1 bit)
                 else Z.land (buttons a) (umax 32 - Z.shiftl 1 bit);
      axes := axes a; last_time := last_time a |}, true).

Definition push (a : EvdevAccumulator) (ev : EvdevEvent) : exec (EvdevAccumulator * bool) :=
  let a := {| calib := calib a; buttons := buttons a; axes := axes a;
              last_time := (tv_sec ev, tv_usec ev) |} in
  if kind ev =? EV_ABS then push_abs a (code ev) (value ev)
  else if kind ev =? EV_KEY then Ret (push_key a (code ev) (negb (value ev =? 0)))
  else Ret (a, false).

Definition snapshot (a : EvdevAccumulator) (out : ControllerReport) : ControllerReport :=
  {| Report.seq := Report.seq out; Report.buttons := buttons a; Report.axes := axes a;
     Report.timestamp_ns :=
       wadd 64 (wmul 64 (wrap 64 (last_time a).1) 1000000000) (wrap 64 (last_time a).2) |}.
End Evdev.
Import Evdev (EvdevAccumulator, EvdevEvent).

(** ** The Linux device (linux_evdev.rs) *)

(** What the kernel answers.  [reads_ahead] bounds how many reads the model follows
    one drain for. *)
Class EvdevOs (W : Type) := {
  dev_open : W -> list Z -> W * result Z (list Z);
  dev_id : W -> Z -> W * option (Z * Z);
  dev_abs : W -> Z -> Z -> W * option (Z * Z);
  dev_read : W -> Z -> nat -> W * option (list Z);
  dev_close : W -> Z -> W;
  reads_ahead : W -> Z -> nat;
  dev_read_some w fd n w' bs : dev_read w fd n = (w', Some bs) -> (length bs <= n)%nat
}.

(** The device does not fill one buffer after the other without end.  Events may keep
    arriving while it is drained. *)
Class FiniteTraffic (W : Type) `{OS : !EvdevOs W} :=
  full_reads_end w fd n w' bs : dev_read w fd n = (w', Some bs) -> length bs = n ->
    (reads_ahead w' fd < reads_ahead w fd)%nat.

Module LinuxEvdev.

Definition ev_ior (nr : Z) (size : Z) : Z :=
  Z.lor (Z.lor (Z.lor (wrap 32 (Z.shiftl 2 30)) (Z.shiftl (Z.land size 0x3FFF) 16))
           (Z.shiftl 69 8)) nr.
Definition eviocg_id : Z := ev_ior 0x02 8.
Definition eviocg_abs (code : Z) : Z := ev_ior (0x40 + code) 24.

Definition CAL_CODES : list Z :=
  [ABS_X; ABS_Y; ABS_RX; ABS_THROTTLE; ABS_RUDDER; ABS_HAT0X; ABS_Z; ABS_RZ].

Record EvdevSource := { fd : Z; dev_info : DeviceInfo; acc : EvdevAccumulator }.

Section Source.
Context {W : Type} `{OS : !EvdevOs W}.

(** the calibration loop: the answer for the code at position [i] goes to
    entry [i] *)
Fixpoint calibrate (w : W) (fd : Z) (codes : list Z) (slot_i : nat) (calib : list (Z * Z))
    : W * list (Z * Z) :=
  match codes with
  | [] => (w, calib)
  | code :: codes =>
      let '(w, r) := dev_abs w fd (eviocg_abs code) in
      calibrate w fd codes (S slot_i)
        (match r with Some c => <[Nat.min slot_i 7 := c]> calib | None => calib end)
  end.

Definition open (w : W) (path : list Z) : W * result EvdevSource InputError :=
  if bool_decide (0 ∈ path) then (w, Err (BadPath (ascii_bytes "nul in path")))
  else
    let '(w, r) := dev_open w path in
    match r with
    | Err e => (w, Err (Os e))
    | Ok fd =>
        let '(w, id) := dev_id w fd in
        let '(vid, pid) := default (0, 0) id in
        let '(w, c) := calibrate w fd CAL_CODES 0 (Evdev.calib Evdev.default) in
        (w, Ok {| fd := fd;
                  dev_info := {| Report.vendor_id := vid; Report.product_id := pid;
                                 Report.path := path; Report.num_axes := 8;
                                 Report.num_buttons := 64 |};
                  acc := {| Evdev.calib := c; Evdev.buttons := 0;
                            Evdev.axes := Evdev.axes Evdev.default;
                            Evdev.last_time := (0, 0) |} |})
    end.

(** [while off + EVENT_SIZE <= n]: [k] events are left from [off] on *)
Fixpoint push_events (a : EvdevAccumulator) (buf : list Z) (off k : nat) (got : bool)
    : exec (EvdevAccumulator * bool) :=
  match k with
  | O => Ret (a, got)
  | S k =>
      '(a, got) ←
        match Evdev.decode_event buf off with
        | None => Ret (a, got)
        | Some ev => '(a, b) ← Evdev.push a ev; Ret (a, got || b)
        end;
      push_events a buf (off + EVENT_SIZE) k got
  end.

Definition BUF_LEN : nat := 64 * EVENT_SIZE.

(** the [loop] of [drain]; the buffer keeps what earlier reads left in it *)
Fixpoint drain_loop (fuel : nat) (w : W) (s : EvdevSource) (buf : list Z) (got_any : bool)
    : exec (W * EvdevSource * bool) :=
  match fuel with
  | O => NoFuel
  | S fuel =>
      let '(w, r) := dev_read w (fd s) BUF_LEN in
      match r with
      | None => Ret (w, s, got_any)
      | Some bs =>
          let n := length bs in
          let buf := bs ++ drop n buf in
          '(a, got_any) ← push_events (acc s) buf 0 (n / EVENT_SIZE) got_any;
          let s := {| fd := fd s; dev_info := dev_info s; acc := a |} in
          if (n <? BUF_LEN)%nat then Ret (w, s, got_any)
          else drain_loop fuel w s buf got_any
      end
  end.
Definition drain (w : W) (s : EvdevSource) : exec (W * EvdevSource * bool) :=
  drain_loop (S (reads_ahead w (fd s))) w s (replicate BUF_LEN 0) false.

Definition poll (ws : W * EvdevSource) (out : ControllerReport)
    : exec (W * EvdevSource * ControllerReport * bool) :=
  '(w, s, got) ← drain ws.1 ws.2;
  if negb got then Ret (w, s, out, false)
  else
    let out := Evdev.snapshot (acc s) out in
    Ret (w, s, {| Report.seq := wadd 32 (Report.seq out) 1; Report.buttons := Report.buttons out;
                  Report.axes := Report.axes out; Report.timestamp_ns := Report.timestamp_ns out |},
         true).

(** the old descriptor is closed when the value is replaced *)
Definition reopen (ws : W * EvdevSource) : W * EvdevSource * result unit InputError :=
  let '(w, s) := ws in
  let '(w, r) := open w (Report.path (dev_info s)) in
  match r with
  | Err e => (w, s, Err e)
  | Ok s' => (dev_close w (fd s), s', Ok tt)
  end.

#[export] Instance source : RawInputSource (W * EvdevSource) := {|
  Input.poll := poll;
  info ws := dev_info ws.2;
  Input.reopen ws := Ret (reopen ws)
|}.
End Source.
End LinuxEvdev.
#[export] Existing Instance LinuxEvdev.source.

(** ** Haptics (haptics.rs) *)

Module Haptics.
Inductive HapticEffect := Rumble (strong weak : f32) (duration_ms : Z).
Definition ALERT : HapticEffect := Rumble (f32_of_Z 1) (f32_lit 6 10) 250.
Definition WARN : HapticEffect := Rumble (f32_lit 25 100) (f32_lit 1 10) 80.

Class HapticSink (K : Type) := { play : K -> HapticEffect -> K * result unit HalError }.

Record MockHaptics := { log : list HapticEffect; cap : nat }.
Definition mock_new (cap : nat) : MockHaptics := {| log := []; cap := Nat.max cap 1 |}.
Definition recorded (m : MockHaptics) : list HapticEffect := log m.
Definition mock_play (m : MockHaptics) (effect : HapticEffect) : MockHaptics * result unit HalError :=
  let l := if (length (log m) =? cap m)%nat then drop 1 (log m) else log m in
  ({| log := l ++ [effect]; cap := cap m |}, Ok tt).
#[export] Instance mock : HapticSink MockHaptics := {| play := mock_play |}.

Section Router.
Context {K : Type} `{HK : !HapticSink K}.
Definition HapticRouter := list K.
Definition new : HapticRouter := [].
Definition add_sink (r : HapticRouter) (sink : K) : HapticRouter := r ++ [sink].
Definition broadcast (r : HapticRouter) (effect : HapticEffect) : HapticRouter :=
  map (fun s => (play s effect).1) r.
End Router.
End Haptics.
#[export] Existing Instance Haptics.mock.

(** ** Command sources (ai_source.rs) *)

Inductive Origin := Human | Ai.
Definition flag_bits (o : Origin) : Z := match o with Human => 0 | Ai => FLAG_AI_ORIGIN end.

Class CommandSource (S : Type) := {
  next_command : S -> Z -> S * option (Cmd.ControlCommand f32);
  origin : S -> Origin
}.

(** a generator closure with its captured state *)
Record AiCommandSource := { ai_state : Type; state : ai_state;
  generate : ai_state -> Z -> ai_state * Cmd.ControlCommand f32 }.

#[export] Instance ai_source : CommandSource AiCommandSource := {|
  next_command s now :=
    let '(st, cmd) := generate s (state s) now in
    ({| ai_state := ai_state s; state := st; generate := generate s |},
     Some (Cmd.set_ai_origin cmd));
  origin _ := Ai
|}.

(** ** Stages (pipeline.rs) *)

Section Stages.
Context {Q S K C : Type} `{RQ : !BoundedFifo Q (Cmd.ControlCommand f32)}
  `{RS : !RawInputSource S} `{HK : !Haptics.HapticSink K} `{CS : !CommandSource C}.

(** [ring] is the queue the stage and the safety loop share. *)
Record InputStage := {
  source : S; map : ControllerMap; ring : Q; haptics : list K;
  scratch_report : ControllerReport
}.

Definition stage_new (s : S) (m : ControllerMap) (q : Q) : InputStage :=
  {| source := s; map := m; ring := q; haptics := Haptics.new; scratch_report := Report.default |}.

Definition tick (st : InputStage) (now_ns : Z)
    : exec (InputStage * option (Cmd.ControlCommand f32)) :=
  '(s, rep, fresh) ← poll (source st) (scratch_report st);
  if negb fresh then
    Ret ({| source := s; map := map st; ring := ring st; haptics := haptics st;
            scratch_report := rep |}, None)
  else
    let cmd := Cmd.zeroed f_zero FullTeleop in
    let cmd := Cmd.clear_ai_origin cmd in
    let cmd := Cmd.with_timestamp cmd now_ns in
    cmd ← Map.apply (map st) rep cmd;
    let h := if negb (Z.land (Cmd.flags cmd) 2 =? 0)
             then Haptics.broadcast (haptics st) Haptics.WARN else haptics st in
    '(q, r) ← fifo_push (ring st) cmd;
    Ret ({| source := s; map := map st; ring := q; haptics := h; scratch_report := rep |},
         match r with Ok _ => Some cmd | Err _ => None end).

Definition mapper (st : InputStage) : ControllerMap := map st.

Record CommandStage := { cmd_source : C; cmd_ring : Q }.

Definition cmd_tick (st : CommandStage) (now_ns : Z)
    : exec (CommandStage * option (Cmd.ControlCommand f32)) :=
  let '(c, o) := next_command (cmd_source st) now_ns in
  match o with
  | None => Ret ({| cmd_source := c; cmd_ring := cmd_ring st |}, None)
  | Some cmd =>
      let cmd := Cmd.with_timestamp cmd now_ns in
      '(q, r) ← fifo_push (cmd_ring st) cmd;
      Ret ({| cmd_source := c; cmd_ring := q |},
           match r with Ok _ => Some cmd | Err _ => None end)
  end.

Definition stage_origin (st : CommandStage) : Origin := origin (cmd_source st).
End Stages.
Arguments InputStage : clear implicits.
Arguments CommandStage : clear implicits.

(** ** Operators (copilot.rs) *)

Definition MAX_OPERATORS : nat := 2.

Module CoPilot.
Record CoPilotHub := { last_seen : list Z; released : list bool; timeout_ns : Z }.

Definition new (timeout_ns : Z) : CoPilotHub :=
  {| last_seen := replicate MAX_OPERATORS 0; released := replicate MAX_OPERATORS true;
     timeout_ns := timeout_ns |}.

Definition heartbeat (h : CoPilotHub) (id : nat) (now_ns : Z) : CoPilotHub :=
  if (MAX_OPERATORS <=? id)%nat then h
  else {| last_seen := <[id := now_ns]> (last_seen h); released := <[id := false]> (released h);
          timeout_ns := timeout_ns h |}.

Definition release (h : CoPilotHub) (id : nat) : CoPilotHub :=
  if (id <? MAX_OPERATORS)%nat then
    {| last_seen := last_seen h; released := <[id := true]> (released h);
       timeout_ns := timeout_ns h |}
  else h.

Definition live (h : CoPilotHub) (id : nat) (now_ns : Z) : bool :=
  negb (nth id (released h) true) && (ssub now_ns (nth id (last_seen h) 0) <=? timeout_ns h).

Definition effective_operator (h : CoPilotHub) (now_ns : Z) : option nat :=
  List.find (fun id => live h id now_ns) (seq 0 MAX_OPERATORS).

Definition authority_for (h : CoPilotHub) (id : nat) (now_ns : Z) : f32 :=
  match effective_operator h now_ns with
  | Some owner => if (owner =? id)%nat then f32_of_Z 1 else f_zero
  | None => f_zero
  end.
End CoPilot.

(** ** Normalised axes *)

(** a number in [[-1, 1]] *)
Definition in_unit (x : f32) : Prop :=
  is_nan x = false /\ fle Map.minus_one x = true /\ fle x Map.one = true.

Lemma unit_bounds : fle Map.minus_one Map.one = true.
Proof. reflexivity. Qed.

Lemma clamp_unit x : is_nan x = false ->
  exists r, fclamp x Map.minus_one Map.one = Ret r /\ in_unit r.
Proof.
  intros Hx. rewrite (fclamp_eq _ _ _ unit_bounds). eexists. split; [done|].
  destruct (clampv_bounds x _ _ unit_bounds Hx) as [H1 H2]. split; [|done].
  destruct (is_nan (clampv x Map.minus_one Map.one)) eqn:E; [|done].
  destruct (clampv x Map.minus_one Map.one); done.
Qed.

Lemma in_unit_finite x : in_unit x -> f_finite x = true.
Proof. intros (H1 & H2 & H3). by destruct x as [|[]| |]. Qed.

Lemma in_unit_opp x : in_unit x -> in_unit (SFopp x).
Proof.
  intros (H1 & H2 & H3). split; [by destruct x|].
  split; [exact (eq_trans (fle_opp x Map.one) H3)|].
  exact (eq_trans (fle_opp Map.minus_one x) H2).
Qed.

Lemma in_unit_zero : in_unit f_zero.
Proof. done. Qed.

(** an accumulator as the code keeps it; the calibration may be anything *)
Record acc_ok (a : EvdevAccumulator) : Prop := {
  acc_calib : length (Evdev.calib a) = 8%nat;
  acc_len : length (Evdev.axes a) = 8%nat;
  acc_unit : Forall in_unit (Evdev.axes a)
}.

Lemma isub_small a b : Z.abs (Evdev.isub a b) < 2 ^ 64.
Proof.
  unfold Evdev.isub, to_signed. pose proof (wrap_uint 32 (a - b) ltac:(lia)) as H.
  unfold uint in H. case_if; lia.
Qed.

Lemma slot_of_bound code i inv : Evdev.slot_of code = Some (i, inv) -> (i < 8)%nat.
Proof.
  unfold Evdev.slot_of. repeat case_match; intros [= <- <-]; vm_compute; lia.
Qed.

Lemma push_abs_ok a code value : acc_ok a ->
  exists a' b, Evdev.push_abs a code value = Ret (a', b) /\ acc_ok a'.
Proof.
  intros [Hc Hl Hu]. unfold Evdev.push_abs.
  destruct (Evdev.slot_of code) as [[i inv]|] eqn:E; [|eexists _, _; split; [done | by constructor]].
  apply slot_of_bound in E. unfold index.
  destruct (lookup_lt_is_Some_2 (Evdev.calib a) (Nat.min i 7)) as [[lo hi] ->]; [lia|].
  rewrite ret_bind. cbn [fst snd].
  set (span := Z.max (Evdev.isub hi lo) 1).
  assert (Hs : f_nonzero (f32_of_Z span) = true).
  { apply f32_of_Z_nonzero; [lia|]. pose proof (isub_small hi lo). lia. }
  destruct (clamp_unit (f32_sub (f32_mul (f32_div (f32_of_Z (Evdev.isub value lo)) (f32_of_Z span))
    (f32_of_Z 2)) Map.one)) as (x & -> & Hx).
  { apply f32_sub_num; [|done]. apply f32_mul_num; [|done].
    apply f32_div_num; [apply f32_of_Z_num | done]. }
  rewrite ret_bind. rewrite (proj2 (Nat.ltb_lt _ _)) by lia. cbn [assert]. rewrite ret_bind.
  eexists _, _. split; [done|]. constructor; cbn [Evdev.calib Evdev.axes]; [done | by rewrite length_insert|].
  apply Forall_insert; [done|]. destruct inv; [by apply in_unit_opp | done].
Qed.

Lemma event_push_ok a ev : acc_ok a -> exists a' b, Evdev.push a ev = Ret (a', b) /\ acc_ok a'.
Proof.
  intros H. unfold Evdev.push.
  set (a1 := {| Evdev.calib := _ |}). assert (H1 : acc_ok a1) by (destruct H; by constructor).
  case_if; [by apply push_abs_ok|]. case_if; [|eauto].
  eexists _, _. split; [done|]. destruct H1. by constructor.
Qed.

Section Device.
Context {W : Type} `{OS : !EvdevOs W} `{FT : !FiniteTraffic W}.
Implicit Types (w : W) (s : LinuxEvdev.EvdevSource).

Lemma push_events_ok k : forall a buf off got, acc_ok a ->
  exists a' b, LinuxEvdev.push_events a buf off k got = Ret (a', b) /\ acc_ok a'.
Proof.
  induction k as [|k IH]; intros a buf off got Ha; cbn [LinuxEvdev.push_events]; [eauto|].
  destruct (Evdev.decode_event buf off) as [ev|].
  - destruct (event_push_ok a ev Ha) as (a1 & b & -> & H1). rewrite !ret_bind. by apply IH.
  - rewrite ret_bind. by apply IH.
Qed.

Lemma drain_loop_ok fuel : forall w s buf got, (reads_ahead w (LinuxEvdev.fd s) < fuel)%nat ->
  acc_ok (LinuxEvdev.acc s) ->
  exists w' s' b, LinuxEvdev.drain_loop fuel w s buf got = Ret (w', s', b) /\
    acc_ok (LinuxEvdev.acc s') /\ LinuxEvdev.dev_info s' = LinuxEvdev.dev_info s /\
    LinuxEvdev.fd s' = LinuxEvdev.fd s.
Proof.
  induction fuel as [|fuel IH]; intros w s buf got Hf Ha; [lia|]. cbn [LinuxEvdev.drain_loop].
  destruct (dev_read w (LinuxEvdev.fd s) LinuxEvdev.BUF_LEN) as [w' [bs|]] eqn:E; [|by eexists _, _, _].
  pose proof (dev_read_some _ _ _ _ _ E) as Hn.
  destruct (push_events_ok (length bs / EVENT_SIZE) (LinuxEvdev.acc s)
    (bs ++ drop (length bs) buf) 0 got Ha) as (a & b & -> & H1).
  rewrite ret_bind. cbn beta iota zeta. destruct (Nat.ltb_spec (length bs) LinuxEvdev.BUF_LEN) as [Hlt|Hge]; [by eexists _, _, _|].
  pose proof (full_reads_end _ _ _ _ _ E ltac:(lia)) as Hp.
  destruct (IH w' {| LinuxEvdev.fd := LinuxEvdev.fd s; LinuxEvdev.dev_info := LinuxEvdev.dev_info s;
    LinuxEvdev.acc := a |} (bs ++ drop (length bs) buf) b) as (w2 & s2 & b2 & -> & H2 & H3 & H4);
    [cbn [LinuxEvdev.fd]; lia | done|].
  by eexists _, _, _.
Qed.

(** A device that fills every buffer holds the drain forever. *)
Lemma busy_device_holds_drain fuel : forall w s buf got, acc_ok (LinuxEvdev.acc s) ->
  (forall w, exists w' bs, dev_read w (LinuxEvdev.fd s) LinuxEvdev.BUF_LEN = (w', Some bs) /\ length bs = LinuxEvdev.BUF_LEN) ->
  LinuxEvdev.drain_loop fuel w s buf got = NoFuel.
Proof.
  induction fuel as [|fuel IH]; intros w s buf got Ha Hb; [done|]. cbn [LinuxEvdev.drain_loop].
  destruct (Hb w) as (w' & bs & -> & Hl).
  destruct (push_events_ok (length bs / EVENT_SIZE) (LinuxEvdev.acc s)
    (bs ++ drop (length bs) buf) 0 got Ha) as (a & b & -> & H1).
  rewrite ret_bind. cbn beta iota zeta. rewrite (proj2 (Nat.ltb_ge _ _)) by lia. by apply IH.
Qed.

Lemma evdev_poll_numeric (ws : W * LinuxEvdev.EvdevSource) out : acc_ok (LinuxEvdev.acc ws.2) ->
  exists (s' : W * LinuxEvdev.EvdevSource) rep b, poll ws out = Ret (s', rep, b) /\ acc_ok (LinuxEvdev.acc s'.2) /\
    (b = true -> Forall (fun x => is_nan x = false) (Report.axes rep)).
Proof.
  intros Ha. destruct ws as [w s]. cbn [poll LinuxEvdev.source]. unfold LinuxEvdev.poll, LinuxEvdev.drain.
  destruct (drain_loop_ok (S (reads_ahead w (LinuxEvdev.fd s))) w s (replicate LinuxEvdev.BUF_LEN 0) false)
    as (w' & s' & b & E & Ha' & _); [lia | done|].
  cbn [fst snd] in *. rewrite E, ret_bind. destruct b; eexists _, _, _; (split; [reflexivity|]); split; try done.
  intros _. cbn [Report.axes Evdev.snapshot]. eapply Forall_impl; [exact (acc_unit _ Ha')|]. by intros x [Hx _].
Qed.
#[export] Instance evdev_numeric : NumericSource (W * LinuxEvdev.EvdevSource) := {|
  src_ok ws _ := acc_ok (LinuxEvdev.acc ws.2);
  poll_numeric ws out H := evdev_poll_numeric ws out H
|}.

Lemma calibrate_length w fd codes : forall i calib w' c,
  LinuxEvdev.calibrate w fd codes i calib = (w', c) -> length c = length calib.
Proof.
  revert w. induction codes as [|code codes IH]; intros w i calib w' c; cbn [LinuxEvdev.calibrate].
  - by intros [= _ <-].
  - destruct (dev_abs w fd _) as [w1 r]. intros H. rewrite (IH _ _ _ _ _ H).
    destruct r; [by rewrite length_insert | done].
Qed.

Lemma open_ok w path w' s : LinuxEvdev.open w path = (w', Ok s) -> acc_ok (LinuxEvdev.acc s).
Proof.
  unfold LinuxEvdev.open. case_bool_decide; [done|]. destruct (dev_open w path) as [w1 [fd|e]]; [|done].
  destruct (dev_id w1 fd) as [w2 id]. destruct (default (0, 0) id) as [vid pid].
  destruct (LinuxEvdev.calibrate _ _ _ _ _) as [w3 c] eqn:E. intros [= _ <-].
  apply calibrate_length in E. constructor; cbn [LinuxEvdev.acc Evdev.calib Evdev.axes]; [done | done|].
  by repeat constructor.
Qed.
End Device.

(** ** The mapping *)

Lemma f32_sub_num_l x y : f_finite x = true -> is_nan y = false -> is_nan (f32_sub x y) = false.
Proof.
  destruct x as [sx|sx| |sx mx ex], y as [sy|sy| |sy my ey]; try done; intros _ _;
    try (by destruct sx, sy). apply normalize_num.
Qed.

(** a dead zone the mapping can work with: positive, and [1 - zone] is not zero *)
Definition zone_ok (zone : f32) : Prop :=
  f_finite zone = true /\ f_nonzero (f32_sub Map.one zone) = true.

Lemma dz_num v zone : zone_ok zone -> in_unit v -> is_nan (Map.dz v zone) = false.
Proof.
  intros [Hz H1] Hv. unfold Map.dz. case_if; [done|].
  apply f32_div_num; [|done]. apply f32_sub_num_l; [by apply in_unit_finite|].
  apply f32_mul_finite_num; [|done]. destruct Hv as [Hn _]. by destruct v as [[]|[]| |[]].
Qed.

(** inside the zone an axis is zero *)
Lemma dz_inside v zone : fle (SFabs v) zone = true -> Map.dz v zone = f_zero.
Proof. intros H. unfold Map.dz. by rewrite H, orb_true_r. Qed.

(** a zone that is not positive silences the axis altogether *)
Lemma dz_no_zone v zone : fle zone f_zero = true -> Map.dz v zone = f_zero.
Proof. intros H. unfold Map.dz. by rewrite H. Qed.

Lemma g_spec m rep i inv : exists v, Map.g m rep i inv = Ret (f32_mul (Map.dz v (deadzone m)) (Map.sgn inv)) /\
  (is_nan (Map.raw rep i) = false -> in_unit v).
Proof.
  unfold Map.g. rewrite (fclamp_eq _ _ _ unit_bounds), ret_bind. eexists. split; [done|].
  intros Hn. destruct (clamp_unit _ Hn) as (r & E & Hr).
  rewrite (fclamp_eq _ _ _ unit_bounds) in E. by injection E as ->.
Qed.

Lemma raw_num rep i : Forall (fun x => is_nan x = false) (Report.axes rep) ->
  is_nan (Map.raw rep i) = false.
Proof.
  intros H. unfold Map.raw. destruct (Report.axes rep !! i) as [x|] eqn:E; [|done].
  exact (proj1 (Forall_lookup (fun x => is_nan x = false) _) H i x E).
Qed.

(** The mapping always returns; it changes the first four axes only. *)
Lemma apply_spec m rep (out : Cmd.ControlCommand f32) : length (Cmd.axes out) = 6%nat ->
  exists r p y t, Map.apply m rep out =
    Ret (Cmd.with_axes out ([r; p; y; t] ++ drop 4 (Cmd.axes out))) /\
    (is_nan (Map.raw rep (throttle_slot m)) = false ->
       is_nan t = false /\ fle f_zero t = true /\ fle t Map.one = true) /\
    (zone_ok (deadzone m) -> Forall (fun x => is_nan x = false) (Report.axes rep) ->
       is_nan r = false /\ is_nan p = false /\ is_nan y = false).
Proof.
  intros Hl. unfold Map.apply.
  destruct (g_spec m rep (roll_slot m) (invert_roll m)) as (vr & -> & Hr).
  destruct (g_spec m rep (pitch_slot m) (invert_pitch m)) as (vp & -> & Hp).
  destruct (g_spec m rep (yaw_slot m) (invert_yaw m)) as (vy & -> & Hy).
  rewrite !ret_bind. rewrite (fclamp_eq _ _ _ unit_bounds), ret_bind.
  set (thr := clampv _ _ _). set (u := f32_add (f32_mul thr Map.half) Map.half).
  rewrite (fclamp_eq u f_zero Map.one eq_refl), ret_bind.
  eexists _, _, _, _. split; [|split].
  - f_equal. f_equal. destruct (Cmd.axes out) as [|? [|? [|? [|? ax]]]]; try discriminate. reflexivity.
  - intros Hn. destruct (clamp_unit _ Hn) as (x & E & Hx).
    rewrite (fclamp_eq _ _ _ unit_bounds) in E. injection E as E. fold thr in E.
    assert (Hu : is_nan u = false).
    { apply f32_add_num; [|done]. apply f32_mul_num; [|done]. rewrite E. apply Hx. }
    destruct (clampv_bounds u f_zero Map.one eq_refl Hu) as [H1 H2]. split; [|done].
    by destruct (clampv u f_zero Map.one).
  - intros Hz Hall.
    pose proof (fun i => raw_num rep i Hall) as Hraw.
    assert (G : forall v inv, in_unit v -> is_nan (f32_mul (Map.dz v (deadzone m)) (Map.sgn inv)) = false).
    { intros v inv Hv. apply f32_mul_num; [by apply dz_num | by destruct inv]. }
    split_and!; apply G; auto.
Qed.

(** ** Operators *)

Lemma effective_spec h now i : CoPilot.effective_operator h now = Some i <->
  (i < MAX_OPERATORS)%nat /\ CoPilot.live h i now = true /\
  forall j, (j < i)%nat -> CoPilot.live h j now = false.
Proof.
  unfold CoPilot.effective_operator, MAX_OPERATORS. cbn [seq List.find].
  destruct (CoPilot.live h 0 now) eqn:E0; [|destruct (CoPilot.live h 1 now) eqn:E1]; split.
  - intros [= <-]. split; [lia|]. split; [done | lia].
  - intros (H1 & H2 & H3). destruct i; [done|]. rewrite H3 in E0 by lia. discriminate.
  - intros [= <-]. split; [lia|]. split; [done|]. intros j Hj. by replace j with 0%nat by lia.
  - intros (H1 & H2 & H3). destruct i as [|[|i]]; [congruence | done | lia].
  - done.
  - intros (H1 & H2 & H3). destruct i as [|[|i]]; [congruence | congruence | lia].
Qed.

(** *** Decoding what the kernel wrote *)

Lemma or_bytes_val bs : forall k v, bytes bs -> 0 <= k -> uint (8 * k) v ->
  Evdev.or_bytes bs k v = v + le_val bs * 2 ^ (8 * k).
Proof.
  induction bs as [|b bs IH]; intros k v Hb Hk Hv; cbn [Evdev.or_bytes le_val]; [lia|].
  apply Forall_cons in Hb as [Hb Hbs]. unfold byte, uint in Hb.
  rewrite lor_disjoint by (done || lia).
  assert (E : 2 ^ (8 * (k + 1)) = 256 * 2 ^ (8 * k)).
  { rewrite Z.mul_add_distr_l, Z.pow_add_r by lia. lia. }
  rewrite IH; [rewrite E; lia | done | lia|].
  unfold uint in *. rewrite E. pose proof (pow2_pos (8 * k) ltac:(lia)). nia.
Qed.

Lemma rd_bytes pre z rest : uint 64 z ->
  Evdev.rd (pre ++ le_bytes 8 z ++ rest) (length pre) = z.
Proof.
  intros Hz. unfold Evdev.rd. rewrite drop_app_length, take_app_length' by by rewrite length_le_bytes.
  rewrite or_bytes_val by (apply le_bytes_bytes || (unfold uint; simpl; lia)).
  rewrite le_val_bytes_id by done. simpl. lia.
Qed.

Lemma field_bytes pre n z rest : uint (8 * Z.of_nat n) z ->
  le_val (take n (drop (length pre) (pre ++ le_bytes n z ++ rest))) = z.
Proof.
  intros Hz. rewrite drop_app_length, take_app_length' by by rewrite length_le_bytes.
  by apply le_val_bytes_id.
Qed.

(** the kernel's image of an event *)
Definition event_bytes (e : EvdevEvent) : list Z :=
  le_bytes 8 (wrap 64 (Evdev.tv_sec e)) ++ le_bytes 8 (wrap 64 (Evdev.tv_usec e))
  ++ le_bytes 2 (Evdev.kind e) ++ le_bytes 2 (Evdev.code e) ++ le_bytes 4 (wrap 32 (Evdev.value e)).

Record event_ok (e : EvdevEvent) : Prop := {
  ev_sec : - 2 ^ 63 <= Evdev.tv_sec e < 2 ^ 63;
  ev_usec : - 2 ^ 63 <= Evdev.tv_usec e < 2 ^ 63;
  ev_kind : uint 16 (Evdev.kind e);
  ev_code : uint 16 (Evdev.code e);
  ev_value : - 2 ^ 31 <= Evdev.value e < 2 ^ 31
}.

(** An event anywhere in a buffer is decoded to itself. *)
Theorem event_roundtrip pre e rest : event_ok e ->
  Evdev.decode_event (pre ++ event_bytes e ++ rest) (length pre) = Some e.
Proof.
  intros [H1 H2 H3 H4 H5]. unfold Evdev.decode_event, event_bytes.
  rewrite (proj2 (Nat.ltb_ge _ _))
    by (rewrite !length_app, !length_le_bytes; unfold EVENT_SIZE; lia).
  rewrite <- !app_assoc.
  rewrite rd_bytes by (apply wrap_uint; lia).
  set (b1 := le_bytes 8 (wrap 64 (Evdev.tv_sec e))). set (b2 := le_bytes 8 (wrap 64 (Evdev.tv_usec e))).
  set (b3 := le_bytes 2 (Evdev.kind e)). set (b4 := le_bytes 2 (Evdev.code e)).
  set (b5 := le_bytes 4 (wrap 32 (Evdev.value e))).
  assert (L1 : length b1 = 8%nat) by apply length_le_bytes.
  assert (L2 : length b2 = 8%nat) by apply length_le_bytes.
  assert (L3 : length b3 = 2%nat) by apply length_le_bytes.
  assert (L4 : length b4 = 2%nat) by apply length_le_bytes.
  replace (length pre + 8)%nat with (length (pre ++ b1)) by (rewrite length_app; lia).
  replace (length pre + 16)%nat with (length ((pre ++ b1) ++ b2)) by (rewrite !length_app; lia).
  replace (length pre + 18)%nat with (length (((pre ++ b1) ++ b2) ++ b3)) by (rewrite !length_app; lia).
  replace (length pre + 20)%nat with (length ((((pre ++ b1) ++ b2) ++ b3) ++ b4))
    by (rewrite !length_app; lia).
  rewrite !(app_assoc pre b1). unfold b2 at 1. rewrite rd_bytes by (apply wrap_uint; lia). fold b2.
  rewrite !(app_assoc (pre ++ b1) b2). unfold b3 at 1. rewrite field_bytes by done. fold b3.
  rewrite !(app_assoc ((pre ++ b1) ++ b2) b3). unfold b4 at 1. rewrite field_bytes by done. fold b4.
  rewrite !(app_assoc (((pre ++ b1) ++ b2) ++ b3) b4). unfold b5. rewrite field_bytes by (apply wrap_uint; lia).
  rewrite !to_signed_wrap by lia. by destruct e.
Qed.

(** ** Theorems *)

(** a tick over any source that keeps the interface *)
Lemma numeric_tick {S Q K} `{RS : !RawInputSource S} `{NS : !NumericSource S}
    `{RQ : !BoundedFifo Q (Cmd.ControlCommand f32)} `{HK : !Haptics.HapticSink K}
    (st : InputStage Q S K) l now :
  src_ok (source st) (scratch_report st) -> fifo_rep (ring st) l -> zone_ok (deadzone (map st)) ->
  exists st' o, tick st now = Ret (st', o) /\
    src_ok (source st') (scratch_report st') /\
    match o with
    | None => fifo_rep (ring st') l
    | Some cmd =>
        fifo_rep (ring st') (l ++ [cmd]) /\ Cmd.mode cmd = Some FullTeleop /\
        Cmd.is_ai_origin cmd = false /\ Cmd.timestamp_ns cmd = now /\ Cmd.seq cmd = 0 /\
        Forall (fun x => is_nan x = false) (Cmd.axes cmd) /\
        exists t, Cmd.axes cmd !! Slot.THROTTLE = Some t /\ fle f_zero t = true /\ fle t Map.one = true
    end.
Proof.
  intros Ha Hq Hz. unfold tick.
  destruct (poll_numeric _ _ Ha) as (s' & rep & b & -> & Ha' & Hnum). rewrite ret_bind. cbn beta iota.
  destruct b; cbn [negb].
  2:{ eexists _, None. split; [done|]. cbn [source ring haptics scratch_report]. done. }
  specialize (Hnum eq_refl). set (cmd0 := Cmd.with_timestamp _ now).
  destruct (apply_spec (map st) rep cmd0 eq_refl) as (r & p & y & t & -> & Ht & Hrpy).
  rewrite ret_bind. destruct (Ht (raw_num _ _ Hnum)) as (Htn & Ht0 & Ht1).
  destruct (Hrpy Hz Hnum) as (Hr & Hp & Hy).
  match goal with |- context [fifo_push (ring st) ?c] => set (cmd := c) end.
  change (negb (Z.land (Cmd.flags cmd) 2 =? 0)) with false. cbv iota.
  destruct (Z.lt_ge_cases (Z.of_nat (length l)) (fifo_capacity (ring st))) as [Hc|Hc].
  - destruct (fifo_push_ok _ _ cmd Hq Hc) as (q' & -> & Hq' & _). rewrite ret_bind.
    eexists _, (Some cmd). split; [done|]. cbn [source ring haptics scratch_report].
    split; [done|]. split; [done|]. split; [done|]. split; [done|]. split; [done|].
    split; [done|]. split.
    + unfold cmd. cbn [Cmd.axes Cmd.with_axes cmd0]. by repeat constructor.
    + by exists t.
  - rewrite (fifo_push_full _ _ cmd Hq Hc), ret_bind. by eexists _, None.
Qed.

(** No tick of the stage drives the haptic sinks: the flags it looks at are those of
    the command it has just zeroed. *)
Lemma tick_never_alerts {S Q K} `{RS : !RawInputSource S} `{RQ : !BoundedFifo Q (Cmd.ControlCommand f32)}
    `{HK : !Haptics.HapticSink K} (st st' : InputStage Q S K) now o :
  tick st now = Ret (st', o) -> haptics st' = haptics st.
Proof.
  unfold tick. intros ([[s rep] fresh] & _ & E)%bind_ret_inv. destruct fresh; cbn [negb] in E; [|by injection E as <- _].
  apply bind_ret_inv in E as (cmd & Ec & E). assert (Hf : Cmd.flags cmd = 0).
  { unfold Map.apply in Ec. do 5 (apply bind_ret_inv in Ec as (? & _ & Ec)). by injection Ec as <-. }
  rewrite Hf in E. apply bind_ret_inv in E as ([q r] & _ & E). by injection E as <- _.
Qed.

(** C25: from the device to the ring: whatever bytes the kernel delivers and
    whatever ranges it reported, a tick of the stage over an evdev device returns, as
    long as the device does not fill the read buffer of 64 events without end
    ([FiniteTraffic]; such a device holds the tick, [busy_device_holds_drain]).  With a dead
    zone that is a finite number for which one less the zone is not zero, the tick
    leaves the ring alone or appends one command, which is in full teleoperation, of
    human origin, stamped with the tick's time, has only numbers on its axes and a
    throttle between 0 and 1. *)
Theorem input_tick_safe {W Q K} `{OS : !EvdevOs W} `{FT : !FiniteTraffic W} `{RQ : !BoundedFifo Q (Cmd.ControlCommand f32)}
    `{HK : !Haptics.HapticSink K} (st : InputStage Q (W * LinuxEvdev.EvdevSource) K) l now :
  acc_ok (LinuxEvdev.acc (source st).2) -> fifo_rep (ring st) l -> zone_ok (deadzone (map st)) ->
  exists st' o, tick st now = Ret (st', o) /\
    acc_ok (LinuxEvdev.acc (source st').2) /\
    match o with
    | None => fifo_rep (ring st') l
    | Some cmd =>
        fifo_rep (ring st') (l ++ [cmd]) /\ Cmd.mode cmd = Some FullTeleop /\
        Cmd.is_ai_origin cmd = false /\ Cmd.timestamp_ns cmd = now /\ Cmd.seq cmd = 0 /\
        Forall (fun x => is_nan x = false) (Cmd.axes cmd) /\
        exists t, Cmd.axes cmd !! Slot.THROTTLE = Some t /\ fle f_zero t = true /\ fle t Map.one = true
    end.
Proof.
  intros Ha Hq Hz. destruct (numeric_tick (NS := evdev_numeric) st l now Ha Hq Hz) as (st' & o & E & Hs & H).
  exists st', o. split; [exact E|]. split; [exact Hs | exact H].
Qed.

(** the co-pilot hub gives control to one operator: the live one of lowest
    id, and authority to nobody else.  A heartbeat keeps an operator live for the
    timeout, a release ends it at once, and neither touches the other's slot. *)
Theorem one_operator_commands (h : CoPilot.CoPilotHub) (id : nat) t now :
  length (CoPilot.last_seen h) = MAX_OPERATORS -> length (CoPilot.released h) = MAX_OPERATORS ->
  (id < MAX_OPERATORS)%nat ->
  (forall i, CoPilot.effective_operator h now = Some i <->
     (i < MAX_OPERATORS)%nat /\ CoPilot.live h i now = true /\
     forall j, (j < i)%nat -> CoPilot.live h j now = false) /\
  (forall i j, CoPilot.authority_for h i now = f32_of_Z 1 -> i <> j ->
     CoPilot.authority_for h j now = f_zero) /\
  CoPilot.live (CoPilot.heartbeat h id t) id now = (ssub now t <=? CoPilot.timeout_ns h) /\
  CoPilot.live (CoPilot.release h id) id now = false /\
  (forall j, j <> id -> CoPilot.live (CoPilot.heartbeat h id t) j now = CoPilot.live h j now /\
                        CoPilot.live (CoPilot.release h id) j now = CoPilot.live h j now).
Proof.
  intros Hl Hr Hid. split; [intros i; apply effective_spec|]. split.
  { intros i j. unfold CoPilot.authority_for.
    destruct (CoPilot.effective_operator h now) as [o|]; [|done].
    destruct (Nat.eqb_spec o i) as [->|]; [|done]. intros _ Hne.
    by rewrite (proj2 (Nat.eqb_neq i j) Hne). }
  destruct h as [ls rs tm]. cbn [CoPilot.last_seen CoPilot.released] in Hl, Hr.
  destruct ls as [|a [|b [|]]]; try discriminate. destruct rs as [|x [|y [|]]]; try discriminate.
  unfold MAX_OPERATORS in Hid. destruct id as [|[|]]; [| |lia].
  - split; [reflexivity|]. split; [reflexivity|]. intros [|[|j]] Hj; [lia | split; reflexivity | split; reflexivity].
  - split; [reflexivity|]. split; [reflexivity|]. intros [|[|j]] Hj; [split; reflexivity | lia | split; reflexivity].
Qed.

(** the entries other than [k] do not change *)
Lemma lookup_opt_insert {A} (l : list A) (o : option A) i k : i <> k ->
  match o with Some c => <[i := c]> l | None => l end !! k = l !! k.
Proof. intros Hik. destruct o; [by apply list_lookup_insert_ne | done]. Qed.

(** the hat switch is calibrated with another axis's range: on a device that
    reports no rudder, whatever range it reports for the hat, pushing the hat fully
    right moves its axis by less than a thousandth. *)
Theorem hat_is_dead {W} `{OS : !EvdevOs W} (w w' : W) path s :
  (forall (w : W) fd, (dev_abs w fd (LinuxEvdev.eviocg_abs ABS_RUDDER)).2 = None) ->
  LinuxEvdev.open w path = (w', Ok s) ->
  exists a x, Evdev.push_abs (LinuxEvdev.acc s) ABS_HAT0X 1 = Ret (a, true) /\
    Evdev.axes a !! Slot.LAT_X = Some x /\ fle f_zero x = true /\ fle x (f32_lit 1 1000) = true.
Proof.
  intros Hno. unfold LinuxEvdev.open. case_bool_decide; [done|].
  destruct (dev_open w path) as [w1 [fd|e]]; [|done].
  destruct (dev_id w1 fd) as [w2 id]. destruct (default (0, 0) id) as [vid pid].
  destruct (LinuxEvdev.calibrate _ _ _ _ _) as [w3 c] eqn:E. intros [= _ <-].
  assert (Hc : c !! 4%nat = Some (-1023, 1023)).
  { unfold LinuxEvdev.CAL_CODES in E. cbn [LinuxEvdev.calibrate Nat.min] in E.
    repeat match type of E with context [dev_abs ?x fd ?r] =>
      let Er := fresh "Er" in let w := fresh "w" in let o := fresh "o" in
      pose proof (Hno x fd) as Er;
      destruct (dev_abs x fd r) as [w o]; cbn [snd] in Er end.
    injection E as _ <-. subst. rewrite !lookup_opt_insert by done. by destruct o. }
  unfold Evdev.push_abs. cbn [LinuxEvdev.acc Evdev.calib].
  change (Evdev.slot_of ABS_HAT0X) with (Some (Slot.LAT_X, false)).
  unfold index. change (Nat.min Slot.LAT_X 7) with 4%nat. rewrite Hc, ret_bind.
  eexists _, _. split; [vm_compute; reflexivity|]. split; [reflexivity|].
  split; vm_compute; reflexivity.
Qed.

Module DemoInput.
(** A device file: the bytes the kernel holds.  It has a stick and a hat with the
    range [-1..1] but no rudder. *)
#[export, refine] Instance os : EvdevOs (list Z) := {|
  dev_open w _ := (w, Ok 3);
  dev_id w _ := (w, Some (0x45E, 0x789));
  dev_abs w _ req := (w, if req =? LinuxEvdev.eviocg_abs ABS_HAT0X then Some (-1, 1)
                         else if req =? LinuxEvdev.eviocg_abs ABS_X then Some (-100, 100) else None);
  dev_read w _ n := match take n w with [] => (w, None) | bs => (drop n w, Some bs) end;
  dev_close w _ := w;
  reads_ahead w _ := length w
|}.
Proof.
  intros w fd n w' bs H. pose proof (length_take w n) as Et. destruct (take n w) as [|b l]; [done|].
  injection H as <- <-. cbn [length] in *. lia.
Defined.
#[export] Instance traffic : FiniteTraffic (list Z).
Proof.
  intros w fd n w' bs H Hl. unfold dev_read, os in H. unfold reads_ahead, os.
  pose proof (f_equal length (take_drop n w)) as E. rewrite length_app in E.
  destruct (take n w) as [|b l]; [done|]. injection H as <- <-. cbn [length] in *. lia.
Qed.

Definition event (k c v : Z) : EvdevEvent :=
  {| Evdev.tv_sec := 1; Evdev.tv_usec := 5; Evdev.kind := k; Evdev.code := c; Evdev.value := v |}.
Definition kernel : list Z :=
  event_bytes (event EV_ABS ABS_X 50) ++ event_bytes (event EV_KEY 0x130 1)
  ++ event_bytes (event EV_SYN 0 0).
Definition opened : LinuxEvdev.EvdevSource :=
  match (LinuxEvdev.open kernel [47; 100]).2 with
  | Ok s => s
  | Err _ => {| LinuxEvdev.fd := 0;
                LinuxEvdev.dev_info := {| Report.vendor_id := 0; Report.product_id := 0;
                  Report.path := []; Report.num_axes := 0; Report.num_buttons := 0 |};
                LinuxEvdev.acc := Evdev.default |}
  end.
Definition stage : InputStage (Spsc.SpscRing (Cmd.ControlCommand f32))
    (list Z * LinuxEvdev.EvdevSource) Haptics.MockHaptics :=
  {| source := (kernel, opened); map := Map.default; ring := fifo_with_capacity 4;
     haptics := [Haptics.mock_new 2]; scratch_report := Report.default |}.
End DemoInput.
#[export] Existing Instance DemoInput.os.
#[export] Existing Instance DemoInput.traffic.

Lemma input_tick_safe_witness :
  exists st' o, tick DemoInput.stage 77 = Ret (st', o) /\
    acc_ok (LinuxEvdev.acc (source st').2) /\
    match o with
    | None => fifo_rep (ring st') []
    | Some cmd =>
        fifo_rep (ring st') ([] ++ [cmd]) /\ Cmd.mode cmd = Some FullTeleop /\
        Cmd.is_ai_origin cmd = false /\ Cmd.timestamp_ns cmd = 77 /\ Cmd.seq cmd = 0 /\
        Forall (fun x => is_nan x = false) (Cmd.axes cmd) /\
        exists t, Cmd.axes cmd !! Slot.THROTTLE = Some t /\ fle f_zero t = true /\ fle t Map.one = true
    end.
Proof.
  apply (input_tick_safe DemoInput.stage [] 77).
  - exact (open_ok DemoInput.kernel [47; 100] DemoInput.kernel DemoInput.opened eq_refl).
  - apply (fifo_new_rep 4). simpl. lia.
  - split; vm_compute; reflexivity.
Defined.

Lemma one_operator_commands_witness :
  CoPilot.live (CoPilot.heartbeat (CoPilot.new 100) 1 50) 1 150 = true.
Proof.
  destruct (one_operator_commands (CoPilot.new 100) 1 50 150 eq_refl eq_refl) as (_ & _ & H & _);
    [vm_compute; lia|].
  rewrite H. reflexivity.
Defined.

Lemma hat_is_dead_witness :
  exists a x, Evdev.push_abs (LinuxEvdev.acc DemoInput.opened) ABS_HAT0X 1 = Ret (a, true) /\
    Evdev.axes a !! Slot.LAT_X = Some x /\ fle f_zero x = true /\ fle x (f32_lit 1 1000) = true.
Proof.
  apply (hat_is_dead DemoInput.kernel DemoInput.kernel [47; 100]).
  - intros w fd. reflexivity.
  - reflexivity.
Defined.

(** one tick: half deflection of the stick, a button, the kernel's time *)
Example tick_demo :
  match tick DemoInput.stage 77 with
  | Ret (st', Some cmd) =>
      feq (nth 0 (Cmd.axes cmd) f_zero) (f32_div (f32_sub (f32_lit 1 2) (f32_lit 4 100))
                                           (f32_sub Map.one (f32_lit 4 100))) = true /\
      Report.buttons (scratch_report st') = 0x10000 /\
      Report.timestamp_ns (scratch_report st') = 1000000005 /\
      Report.seq (scratch_report st') = 1
  | _ => False
  end.
Proof. vm_compute. repeat split. Qed.

(** A dead zone of zero silences roll, pitch and yaw whatever the stick says. *)
Theorem zero_deadzone_silences m rep out : fle (deadzone m) f_zero = true ->
  length (Cmd.axes out) = 6%nat ->
  exists out' z, Map.apply m rep out = Ret out' /\ take 3 (Cmd.axes out') = z /\
    Forall (fun x => feq x f_zero = true) z.
Proof.
  intros Hz Hl. unfold Map.apply.
  destruct (g_spec m rep (roll_slot m) (invert_roll m)) as (vr & -> & _).
  destruct (g_spec m rep (pitch_slot m) (invert_pitch m)) as (vp & -> & _).
  destruct (g_spec m rep (yaw_slot m) (invert_yaw m)) as (vy & -> & _).
  rewrite !ret_bind, !dz_no_zone by done.
  rewrite (fclamp_eq _ _ _ unit_bounds), ret_bind.
  rewrite (fclamp_eq _ f_zero Map.one eq_refl), ret_bind. eexists _, _. split; [done|]. split; [done|].
  destruct (Cmd.axes out) as [|? [|? [|? [|? ax]]]]; try discriminate.
  cbn [Cmd.axes Cmd.with_axes]. simpl.
  repeat constructor; by destruct (invert_roll m), (invert_pitch m), (invert_yaw m).
Qed.

(** Buttons 32 codes apart share a bit: pressing one and releasing the other clears it. *)
Example buttons_alias :
  Evdev.buttons (Evdev.push_key (Evdev.push_key Evdev.default 0x120 true).1 0x140 false).1 = 0.
Proof. reflexivity. Qed.

(** A range wider than an [i32] wraps to a span of one. *)
Example span_overflow :
  Z.max (Evdev.isub (2 ^ 31 - 1) (- 2 ^ 31)) 1 = 1.
Proof. reflexivity. Qed.
