(* ===== verification/Sim.v ===== *)
(** * Flight simulation: [tpt-t-hal/src/sim]

    [Vec]: vectors, quaternions and the rotations of world.rs.  [World]: the rigid
    bodies, their accumulators and the fixed step with ground contact.  [Drone]:
    drone.rs, the quadrotor on the virtual bus.  The trigonometric functions are
    the class [Libm]; every other operation is IEEE arithmetic as written. *)

From stdpp Require Import strings.
From S2P Require Import Prelude Cast Float FloatFacts Ser Hal.

(** The platform's mathematical library; Rust does not fix its precision. *)
Class Libm := {
  f64_sin : f64 -> f64;
  f64_cos : f64 -> f64;
  f64_asin : f64 -> f64;
  f64_atan2 : f64 -> f64 -> f64;
  f64_hypot : f64 -> f64 -> f64
}.

Definition DT_S : f64 := f64_lit 5 1000.

(** ** Vectors and attitude (world.rs) *)

Module Vec.

Record vec3 := V3 { vx : f64; vy : f64; vz : f64 }.
Record quat := Q4 { qw : f64; qx : f64; qy : f64; qz : f64 }.

Definition zero3 : vec3 := V3 f_zero f_zero f_zero.
(** [for k in 0..3] over vectors indexed in parallel *)
Definition map3 (f : f64 -> f64) (a : vec3) : vec3 := V3 (f (vx a)) (f (vy a)) (f (vz a)).
Definition zip3 (f : f64 -> f64 -> f64) (a b : vec3) : vec3 :=
  V3 (f (vx a) (vx b)) (f (vy a) (vy b)) (f (vz a) (vz b)).
Definition add3 : vec3 -> vec3 -> vec3 := zip3 f64_add.

Definition f64_neg (x : f64) : f64 := SFopp x.
Definition sum2 (a b : f64) : f64 := f64_add a b.

#[local] Notation "a ⊕ b" := (f64_add a b) (at level 50, left associativity).
#[local] Notation "a ⊖ b" := (f64_sub a b) (at level 50, left associativity).
#[local] Notation "a ⊗ b" := (f64_mul a b) (at level 40, left associativity).

Definition quat_mul (a b : quat) : quat :=
  Q4 (qw a ⊗ qw b ⊖ qx a ⊗ qx b ⊖ qy a ⊗ qy b ⊖ qz a ⊗ qz b)
     (qw a ⊗ qx b ⊕ qx a ⊗ qw b ⊕ qy a ⊗ qz b ⊖ qz a ⊗ qy b)
     (qw a ⊗ qy b ⊖ qx a ⊗ qz b ⊕ qy a ⊗ qw b ⊕ qz a ⊗ qx b)
     (qw a ⊗ qz b ⊕ qx a ⊗ qy b ⊖ qy a ⊗ qx b ⊕ qz a ⊗ qw b).

Definition quat_mul_half (q wq : quat) : quat :=
  let p := quat_mul q wq in
  let h := f64_lit 1 2 in
  Q4 (h ⊗ qw p) (h ⊗ qx p) (h ⊗ qy p) (h ⊗ qz p).

Definition quat_rotate (q : quat) (v : vec3) : vec3 :=
  let two := f64_of_Z 2 in
  let x2 := qx q ⊗ two in
  let y2 := qy q ⊗ two in
  let z2 := qz q ⊗ two in
  let tx := y2 ⊗ vz v ⊖ z2 ⊗ vy v in
  let ty := z2 ⊗ vx v ⊖ x2 ⊗ vz v in
  let tz := x2 ⊗ vy v ⊖ y2 ⊗ vx v in
  V3 (vx v ⊕ qw q ⊗ tx ⊕ (qy q ⊗ tz ⊖ qz q ⊗ ty))
     (vy v ⊕ qw q ⊗ ty ⊕ (qz q ⊗ tx ⊖ qx q ⊗ tz))
     (vz v ⊕ qw q ⊗ tz ⊕ (qx q ⊗ ty ⊖ qy q ⊗ tx)).

Definition quat_rotate_inv (q : quat) (v : vec3) : vec3 :=
  quat_rotate (Q4 (qw q) (f64_neg (qx q)) (f64_neg (qy q)) (f64_neg (qz q))) v.

(** [(yaw, pitch, roll)] *)
Definition quat_to_euler `{Libm} (q : quat) : exec (f64 * f64 * f64) :=
  let '(Q4 w x y z) := q in
  let one := f64_of_Z 1 in
  let two := f64_of_Z 2 in
  let roll := f64_atan2 (two ⊗ (w ⊗ x ⊕ y ⊗ z)) (one ⊖ two ⊗ (x ⊗ x ⊕ y ⊗ y)) in
  s ← fclamp (two ⊗ (w ⊗ y ⊖ z ⊗ x)) (f64_neg one) one;
  let pitch := f64_asin s in
  let yaw := f64_atan2 (two ⊗ (w ⊗ z ⊕ x ⊗ y)) (one ⊖ two ⊗ (y ⊗ y ⊕ z ⊗ z)) in
  Ret (yaw, pitch, roll).

Lemma quat_to_euler_total `{Libm} q : exists e, quat_to_euler q = Ret e.
Proof. destruct q. eexists. reflexivity. Qed.

End Vec.

(** ** The world (world.rs) *)

Module World.
Import Vec.

#[local] Notation "a ⊕ b" := (f64_add a b) (at level 50, left associativity).
#[local] Notation "a ⊖ b" := (f64_sub a b) (at level 50, left associativity).
#[local] Notation "a ⊗ b" := (f64_mul a b) (at level 40, left associativity).
#[local] Notation "a ⊘ b" := (f64_div a b) (at level 40, left associativity).

Record RigidState := {
  pos : vec3; vel : vec3; att : quat; omega : vec3; mass : f64; inv_inertia : vec3; half : vec3
}.

Section World.
Context `{LM : Libm}.

Definition rigid_new (mass : f64) (half pos : vec3) (yaw : f64) : RigidState :=
  let third := mass ⊘ f64_of_Z 3 in
  let ix := third ⊗ (vy half ⊗ vy half ⊕ vz half ⊗ vz half) in
  let iy := third ⊗ (vx half ⊗ vx half ⊕ vz half ⊗ vz half) in
  let iz := third ⊗ (vx half ⊗ vx half ⊕ vy half ⊗ vy half) in
  let h := yaw ⊗ f64_lit 1 2 in
  let one := f64_of_Z 1 in
  {| pos := pos; vel := zero3; att := Q4 (f64_cos h) f_zero f_zero (f64_sin h); omega := zero3;
     mass := mass; inv_inertia := V3 (one ⊘ ix) (one ⊘ iy) (one ⊘ iz); half := half |}.

Record World := {
  bodies : list RigidState; force : list vec3; torque : list vec3; gravity : vec3; restitution : f64
}.

Definition new (gravity : vec3) : World :=
  {| bodies := []; force := []; torque := []; gravity := gravity; restitution := f64_lit 2 10 |}.

Definition add_box (w : World) (mass : f64) (half pos : vec3) (yaw_rad : f64) : World * nat :=
  let bodies := bodies w ++ [rigid_new mass half pos yaw_rad] in
  ({| bodies := bodies; force := force w ++ [zero3]; torque := torque w ++ [zero3];
      gravity := gravity w; restitution := restitution w |}, (length bodies - 1)%nat).

Definition add_force (w : World) (id : nat) (f_world : vec3) : exec World :=
  acc ← index (force w) id;
  Ret {| bodies := bodies w; force := <[id := add3 acc f_world]> (force w); torque := torque w;
         gravity := gravity w; restitution := restitution w |}.

Definition add_torque (w : World) (id : nat) (tau_body : vec3) : exec World :=
  acc ← index (torque w) id;
  Ret {| bodies := bodies w; force := force w; torque := <[id := add3 acc tau_body]> (torque w);
         gravity := gravity w; restitution := restitution w |}.

(** the linear part: [v += (g + F/m) dt; x += v dt] *)
Definition linear (b : RigidState) (g f : vec3) (dt : f64) : RigidState :=
  let v := add3 (vel b) (map3 (fun a => a ⊗ dt) (add3 g (map3 (fun x => x ⊘ mass b) f))) in
  {| pos := add3 (pos b) (map3 (fun a => a ⊗ dt) v); vel := v; att := att b; omega := omega b;
     mass := mass b; inv_inertia := inv_inertia b; half := half b |}.

(** the angular part in the body frame *)
Definition angular (b : RigidState) (tau : vec3) (dt : f64) : RigidState :=
  let one := f64_of_Z 1 in
  let ix := one ⊘ vx (inv_inertia b) in
  let iy := one ⊘ vy (inv_inertia b) in
  let iz := one ⊘ vz (inv_inertia b) in
  let w := omega b in
  let gyro := V3 (vy w ⊗ iz ⊗ vz w ⊖ vz w ⊗ iy ⊗ vy w)
                 (vz w ⊗ ix ⊗ vx w ⊖ vx w ⊗ iz ⊗ vz w)
                 (vx w ⊗ iy ⊗ vy w ⊖ vy w ⊗ ix ⊗ vx w) in
  let acc := zip3 f64_mul (inv_inertia b) (zip3 f64_sub tau gyro) in
  {| pos := pos b; vel := vel b; att := att b;
     omega := add3 w (map3 (fun a => a ⊗ dt) acc);
     mass := mass b; inv_inertia := inv_inertia b; half := half b |}.

Definition normalize (q : quat) : quat :=
  let n := SFsqrt 53 1024 (qw q ⊗ qw q ⊕ qx q ⊗ qx q ⊕ qy q ⊗ qy q ⊕ qz q ⊗ qz q) in
  if flt (f64_lit 1 (10 ^ 12)) n then Q4 (qw q ⊘ n) (qx q ⊘ n) (qy q ⊘ n) (qz q ⊘ n) else q.

Definition attitude (b : RigidState) (dt : f64) : RigidState :=
  let d := quat_mul_half (att b) (Q4 f_zero (vx (omega b)) (vy (omega b)) (vz (omega b))) in
  let q := att b in
  {| pos := pos b; vel := vel b;
     att := normalize (Q4 (qw q ⊕ qw d ⊗ dt) (qx q ⊕ qx d ⊗ dt) (qy q ⊕ qy d ⊗ dt) (qz q ⊕ qz d ⊗ dt));
     omega := omega b; mass := mass b; inv_inertia := inv_inertia b; half := half b |}.

(** contact with the plane [z = 0] *)
Definition bounce (restitution v : f64) : f64 :=
  if flt v f_zero then (if flt (f64_neg v) (f64_lit 5 100) then f_zero else f64_neg v ⊗ restitution) else v.

Definition contact (b : RigidState) (restitution : f64) : RigidState :=
  if flt (vz (pos b) ⊖ vz (half b)) f_zero then
    {| pos := V3 (vx (pos b)) (vy (pos b)) (vz (half b));
       vel := V3 (vx (vel b) ⊗ f64_lit 985 1000) (vy (vel b) ⊗ f64_lit 985 1000) (bounce restitution (vz (vel b)));
       att := att b; omega := map3 (fun w => w ⊗ f64_lit 97 100) (omega b);
       mass := mass b; inv_inertia := inv_inertia b; half := half b |}
  else b.

Definition body_step (b : RigidState) (g f tau : vec3) (restitution dt : f64) : RigidState :=
  contact (attitude (angular (linear b g f dt) tau dt) dt) restitution.

(** [for i in 0..self.bodies.len()] *)
Fixpoint step_from (w : World) (i : nat) (bs : list RigidState) (dt : f64) : exec (list RigidState) :=
  match bs with
  | [] => Ret []
  | b :: bs =>
      f ← index (force w) i;
      tau ← index (torque w) i;
      bs ← step_from w (S i) bs dt;
      Ret (body_step b (gravity w) f tau (restitution w) dt :: bs)
  end.

Definition step (w : World) (dt : f64) : exec World :=
  bs ← step_from w 0 (bodies w) dt;
  Ret {| bodies := bs; force := (fun _ => zero3) <$> force w; torque := (fun _ => zero3) <$> torque w;
         gravity := gravity w; restitution := restitution w |}.

Definition get (w : World) (id : nat) : exec RigidState := index (bodies w) id.
Definition euler (w : World) (id : nat) : exec (f64 * f64 * f64) :=
  b ← index (bodies w) id; quat_to_euler (att b).
Definition rotate_to_body (w : World) (id : nat) (v : vec3) : exec vec3 :=
  b ← index (bodies w) id; Ret (quat_rotate_inv (att b) v).
Definition rotate_to_world (w : World) (id : nat) (v : vec3) : exec vec3 :=
  b ← index (bodies w) id; Ret (quat_rotate (att b) v).

(** *** Invariant *)

Definition world_ok (w : World) : Prop :=
  length (force w) = length (bodies w) /\ length (torque w) = length (bodies w) /\
  restitution w = f64_lit 2 10.

(** A body the step has just moved: not below the plane, and not sinking when it
    touches it. *)
Definition above_ground (b : RigidState) : Prop := flt (vz (pos b) ⊖ vz (half b)) f_zero = false.

Lemma new_ok g : world_ok (new g).
Proof. done. Qed.

Lemma add_box_ok w m h p yaw : world_ok w ->
  let '(w', id) := add_box w m h p yaw in
  world_ok w' /\ id = length (bodies w) /\ bodies w' !! id = Some (rigid_new m h p yaw) /\
  forall j, (j < length (bodies w))%nat -> bodies w' !! j = bodies w !! j.
Proof.
  intros (Hf & Ht & Hr). unfold add_box, world_ok; cbn [bodies force torque restitution].
  rewrite !length_app. simpl length. rewrite Nat.add_sub. split_and!; try lia; try done.
  - by rewrite lookup_app_r, Nat.sub_diag by lia.
  - intros j Hj. by rewrite lookup_app_l.
Qed.

Lemma add_force_ok w id f : world_ok w -> (id < length (bodies w))%nat ->
  exists w', add_force w id f = Ret w' /\ world_ok w' /\ bodies w' = bodies w.
Proof.
  intros (Hf & Ht & Hr) Hid. unfold add_force, index. destruct (lookup_lt_is_Some_2 (force w) id) as [a ->]; [lia|].
  rewrite ret_bind. eexists. split; [reflexivity|]. split; [|done].
  unfold world_ok; cbn. by rewrite length_insert.
Qed.

Lemma add_torque_ok w id f : world_ok w -> (id < length (bodies w))%nat ->
  exists w', add_torque w id f = Ret w' /\ world_ok w' /\ bodies w' = bodies w.
Proof.
  intros (Hf & Ht & Hr) Hid. unfold add_torque, index. destruct (lookup_lt_is_Some_2 (torque w) id) as [a ->]; [lia|].
  rewrite ret_bind. eexists. split; [reflexivity|]. split; [|done].
  unfold world_ok; cbn. by rewrite length_insert.
Qed.

(** subtracting a value from itself never yields a negative one *)
Lemma sub_self x : flt (f64_sub x x) f_zero = false.
Proof.
  destruct x as [s|s| |s m e]; try (by destruct s); [done|].
  unfold f64_sub. cbn [SFsub]. rewrite Z.min_id.
  assert (E : forall p, fst (shl_align p e e) = p) by (intros p; unfold shl_align; by rewrite Z.sub_diag).
  rewrite E, Z.sub_diag. by destruct s.
Qed.

(** a product of positive factors is not negative *)
Lemma round_aux_positive prec emax m e l :
  flt (binary_round_aux prec emax false m e l) f_zero = false.
Proof.
  unfold binary_round_aux. destruct (shr_fexp _ _ _ _ _) as [r1 e1]. destruct (shr_fexp _ _ _ _ _) as [r2 e2].
  destruct (shr_m r2); [done| |done]. by destruct (_ <=? _).
Qed.

Lemma bounce_up v : is_nan v = false -> flt (bounce (f64_lit 2 10) v) f_zero = false.
Proof.
  intros Hn. unfold bounce. destruct (flt v f_zero) eqn:Ev; [|done].
  destruct (flt (f64_neg v) _); [done|].
  destruct v as [s|s| |s m e]; [by destruct s|by destruct s|done|].
  destruct s; [|done]. apply round_aux_positive.
Qed.

Lemma bounce_nan v : is_nan v = true -> bounce (f64_lit 2 10) v = v.
Proof. by destruct v. Qed.

Lemma contact_spec b : above_ground (contact b (f64_lit 2 10)) /\
  (flt (vz (pos b) ⊖ vz (half b)) f_zero = true ->
     vz (pos (contact b (f64_lit 2 10))) = vz (half b) /\
     flt (vz (vel (contact b (f64_lit 2 10)))) f_zero = false) /\
  (flt (vz (pos b) ⊖ vz (half b)) f_zero = false -> contact b (f64_lit 2 10) = b).
Proof.
  unfold above_ground, contact. destruct (flt (vz (pos b) ⊖ vz (half b)) f_zero) eqn:E.
  - split_and!; [apply sub_self| |done]. intros _. split; [done|]. cbn [vel vz].
    destruct (is_nan (vz (vel b))) eqn:En; [|by apply bounce_up].
    rewrite bounce_nan by done. by destruct (vz (vel b)).
  - split_and!; done.
Qed.

Lemma step_from_spec w dt bs i : restitution w = f64_lit 2 10 ->
  (i + length bs <= length (force w))%nat -> (i + length bs <= length (torque w))%nat ->
  exists bs', step_from w i bs dt = Ret bs' /\ length bs' = length bs /\ Forall above_ground bs'.
Proof.
  intros Hr. revert i. induction bs as [|b bs IH]; intros i Hf Ht; cbn [step_from length] in *.
  - exists []. by split_and!.
  - destruct (lookup_lt_is_Some_2 (force w) i) as [f Ef]; [lia|].
    destruct (lookup_lt_is_Some_2 (torque w) i) as [t Et]; [lia|].
    destruct (IH (S i)) as (bs' & E & Hl & Ha); [lia|lia|].
    unfold index. rewrite Ef, ret_bind, Et, ret_bind, E, ret_bind. eexists. split; [reflexivity|].
    split; [simpl; by rewrite Hl|]. constructor; [|done]. unfold body_step. rewrite Hr. apply contact_spec.
Qed.

Lemma step_ok w dt : world_ok w ->
  exists w', step w dt = Ret w' /\ world_ok w' /\ length (bodies w') = length (bodies w) /\
    Forall above_ground (bodies w') /\
    (forall f, f ∈ force w' -> f = zero3) /\ (forall t, t ∈ torque w' -> t = zero3).
Proof.
  intros (Hf & Ht & Hr). unfold step.
  destruct (step_from_spec w dt (bodies w) 0 Hr) as (bs & E & Hl & Ha); [lia|lia|].
  rewrite E, ret_bind. eexists. split; [reflexivity|]. unfold world_ok; cbn [bodies force torque restitution].
  rewrite !length_fmap. split_and!; try congruence; try done.
  - intros f Hin. by apply list_elem_of_fmap in Hin as (? & -> & _).
  - intros f Hin. by apply list_elem_of_fmap in Hin as (? & -> & _).
Qed.

(** *** Programs over a world *)

Inductive op := AddBox (m : f64) (h p : vec3) (yaw : f64) | AddForce (id : nat) (f : vec3)
  | AddTorque (id : nat) (t : vec3) | Step (dt : f64).

Definition exec_op (w : World) (o : op) : exec World :=
  match o with
  | AddBox m h p yaw => Ret (fst (add_box w m h p yaw))
  | AddForce id f => add_force w id f
  | AddTorque id t => add_torque w id t
  | Step dt => step w dt
  end.

Fixpoint exec_ops (w : World) (os : list op) : exec World :=
  match os with
  | [] => Ret w
  | o :: os => w ← exec_op w o; exec_ops w os
  end.

(** handles are those [add_box] has returned by then *)
Fixpoint handles_ok (n : nat) (os : list op) : Prop :=
  match os with
  | [] => True
  | AddBox _ _ _ _ :: os => handles_ok (S n) os
  | AddForce id _ :: os => (id < n)%nat /\ handles_ok n os
  | AddTorque id _ :: os => (id < n)%nat /\ handles_ok n os
  | Step _ :: os => handles_ok n os
  end.

Lemma exec_ops_ok os w : world_ok w -> handles_ok (length (bodies w)) os ->
  exists w', exec_ops w os = Ret w' /\ world_ok w'.
Proof.
  revert w. induction os as [|o os IH]; intros w Hw Hh; cbn [exec_ops].
  - by exists w.
  - destruct o as [m h p yaw|id f|id t|dt]; cbn [exec_op handles_ok] in *.
    + pose proof (add_box_ok w m h p yaw Hw) as Ha. destruct (add_box w m h p yaw) as [w1 i] eqn:Ea.
      destruct Ha as (Hw1 & _). rewrite ret_bind. apply IH; [exact Hw1|].
      replace (length (bodies (w1, i).1)) with (S (length (bodies w))); [done|].
      injection Ea as <- _. cbn. rewrite length_app. simpl. lia.
    + destruct Hh as [Hid Hh]. destruct (add_force_ok w id f Hw Hid) as (w1 & E & Hw1 & Eb).
      rewrite E, ret_bind. apply IH; [done|by rewrite Eb].
    + destruct Hh as [Hid Hh]. destruct (add_torque_ok w id t Hw Hid) as (w1 & E & Hw1 & Eb).
      rewrite E, ret_bind. apply IH; [done|by rewrite Eb].
    + destruct (step_ok w dt Hw) as (w1 & E & Hw1 & El & _). rewrite E, ret_bind. apply IH; [done|by rewrite El].
Qed.

End World.

(** Whatever forces and torques are applied to the bodies of a world, its steps
    never panic; after a step no body is below the ground, whatever values its
    state had overflowed to, and no force carries over to the next step. *)
Theorem world_keeps_ground `{Libm} (g : vec3) (os : list op) (dt : f64) :
  handles_ok 0 os ->
  exists w w', exec_ops (new g) os = Ret w /\ step w dt = Ret w' /\
    length (bodies w') = length (bodies w) /\
    (forall b, b ∈ bodies w' -> flt (f64_sub (vz (pos b)) (vz (half b))) f_zero = false) /\
    (forall f, f ∈ force w' ++ torque w' -> f = zero3).
Proof.
  intros Hh. destruct (exec_ops_ok os (new g) (new_ok g) Hh) as (w & E & Hw).
  destruct (step_ok w dt Hw) as (w' & E' & _ & Hl & Ha & Hf & Ht). exists w, w'.
  split_and!; [done|done|done|by apply Forall_forall|]. intros f Hin. apply elem_of_app in Hin as [?|?]; auto.
Qed.

End World.

(** a library that knows the angle zero *)
Definition flat_libm : Libm := {|
  f64_sin x := x; f64_cos _ := f64_of_Z 1; f64_asin x := x; f64_atan2 y _ := y; f64_hypot x _ := SFabs x
|}.

Lemma world_keeps_ground_witness :
  let g := Vec.V3 f_zero f_zero (f64_lit (-981) 100) in
  let os := [World.AddBox (f64_of_Z 1) (Vec.V3 (f64_lit 1 20) (f64_lit 1 20) (f64_lit 1 50)) Vec.zero3 f_zero;
             World.AddForce 0 (Vec.V3 f_zero f_zero (f64_of_Z (-100)))] in
  World.handles_ok 0 os /\
  exists w w', World.exec_ops (LM := flat_libm) (World.new g) os = Ret w /\
    World.step w (f64_lit 1 500) = Ret w' /\
    forall b, b ∈ World.bodies w' -> flt (f64_sub (Vec.vz (World.pos b)) (Vec.vz (World.half b))) f_zero = false.
Proof.
  split; [cbn; split; [lia|exact I]|].
  destruct (World.world_keeps_ground (H := flat_libm) (Vec.V3 f_zero f_zero (f64_lit (-981) 100))
    [World.AddBox (f64_of_Z 1) (Vec.V3 (f64_lit 1 20) (f64_lit 1 20) (f64_lit 1 50)) Vec.zero3 f_zero;
     World.AddForce 0 (Vec.V3 f_zero f_zero (f64_of_Z (-100)))] (f64_lit 1 500)) as (w & w' & E & E' & _ & H & _).
  - cbn. split; [lia|exact I].
  - by exists w, w'.
Defined.

(** ** The quadrotor (drone.rs) *)

Module Drone.
Import Vec World.

#[local] Notation "a ⊕ b" := (f64_add a b) (at level 50, left associativity).
#[local] Notation "a ⊖ b" := (f64_sub a b) (at level 50, left associativity).
#[local] Notation "a ⊗ b" := (f64_mul a b) (at level 40, left associativity).
#[local] Notation "a ⊘ b" := (f64_div a b) (at level 40, left associativity).

Definition N_MOTORS : nat := 4.
Definition ARM_M : f64 := f64_lit 22 100.
Definition MASS_KG : f64 := f64_lit 11 10.
Definition MAX_ROTOR_THRUST_N : f64 := f64_of_Z 5.
Definition YAW_COEF : f64 := f64_lit 9 10000.
Definition ROTOR_POS : list (f64 * f64) :=
  [(f64_neg ARM_M, ARM_M); (ARM_M, ARM_M); (f64_neg ARM_M, f64_neg ARM_M); (ARM_M, f64_neg ARM_M)].

Record QuadDrone := { body : nat; motors : list Esc.SimMotor; prev_vel : vec3; cmd_seq : Z }.

(** [motors] has [N_MOTORS] elements *)
Definition drone_ok (w : World) (d : QuadDrone) : Prop :=
  world_ok w /\ (body d < length (bodies w))%nat /\ length (motors d) = N_MOTORS.

Section Drone.
Context `{LM : Libm} (nan32 nan64 : Z).

Definition spawn (w : World) : World * QuadDrone :=
  let half := V3 (f64_lit 12 100) (f64_lit 12 100) (f64_lit 45 1000) in
  let '(w, b) := add_box w MASS_KG half (V3 f_zero f_zero (vz half ⊕ f64_lit 2 100)) f_zero in
  (w, {| body := b; motors := replicate N_MOTORS (Esc.new (f32_of_Z 16)); prev_vel := zero3; cmd_seq := 1 |}).

(** [u16::from_be_bytes([data[2 i], data[2 i + 1]])] *)
Definition raw_thrust (f : CanFrame) (i : nat) : exec Z :=
  hi ← index (Can.data f) (2 * i);
  lo ← index (Can.data f) (2 * i + 1);
  Ret (256 * hi + lo).

Definition motor_command (seq raw : Z) : Motor.MotorCommand f32 :=
  {| Motor.seq := seq; Motor.timestamp_ns := wmul 64 seq 5000000; Motor.mode_raw := Motor.as_u8 Thrust;
     Motor.pad3 := replicate 3 0; Motor.value := f32_div (f32_of_Z raw) (f32_of_Z 65535) |}.

Fixpoint apply_all (f : CanFrame) (seq : Z) (i : nat) (ms : list Esc.SimMotor) : exec (list Esc.SimMotor) :=
  match ms with
  | [] => Ret []
  | m :: ms =>
      raw ← raw_thrust f i;
      ms ← apply_all f seq (S i) ms;
      Ret (motor_apply m (motor_command seq raw) :: ms)
  end.

Definition handle_can (d : QuadDrone) (frame : CanFrame) : exec (QuadDrone * bool) :=
  if negb (Can.id frame =? Can.MOTOR_CMD) || (Can.len frame <? 8) then Ret (d, false)
  else
    ms ← apply_all frame (cmd_seq d) 0 (motors d);
    Ret ({| body := body d; motors := ms; prev_vel := prev_vel d; cmd_seq := wadd 64 (cmd_seq d) 1 |}, true).

Definition thrusts (d : QuadDrone) : list f32 := Esc.normalized_thrust <$> motors d.

Fixpoint tick_all (ms : list Esc.SimMotor) (dt : f32) : exec (list Esc.SimMotor) :=
  match ms with
  | [] => Ret []
  | m :: ms => m ← Esc.tick m dt; ms ← tick_all ms dt; Ret (m :: ms)
  end.

(** total thrust and the two arm torques *)
Definition resultant (ms : list Esc.SimMotor) : f64 * f64 * f64 :=
  foldl (fun '(fz, tx, ty) '(p, m) =>
    let fi := f32_to_f64 (Esc.normalized_thrust m) ⊗ MAX_ROTOR_THRUST_N in
    (fz ⊕ fi, tx ⊕ p.2 ⊗ fi, ty ⊕ f64_neg p.1 ⊗ fi)) (f_zero, f_zero, f_zero) (zip ROTOR_POS ms).

(** [Sum for f64] starts from minus zero. *)
Definition sum_omega (ms : list Esc.SimMotor) (i j : nat) : exec f64 :=
  a ← index ms i;
  b ← index ms j;
  Ret (S754_zero true ⊕ f32_to_f64 (Esc.omega a) ⊕ f32_to_f64 (Esc.omega b)).

Definition apply_actuation (d : QuadDrone) (w : World) (dt_s : f64) : exec (QuadDrone * World) :=
  ms ← tick_all (motors d) (f64_to_f32 dt_s);
  let '(fz, tau_x, tau_y) := resultant ms in
  s1 ← sum_omega ms 0 3;
  s2 ← sum_omega ms 1 2;
  let tau_z := YAW_COEF ⊗ (s1 ⊖ s2) in
  up_world ← rotate_to_world w (body d) (V3 f_zero f_zero fz);
  w ← add_force w (body d) up_world;
  w ← add_torque w (body d) (V3 tau_x tau_y tau_z);
  Ret ({| body := body d; motors := ms; prev_vel := prev_vel d; cmd_seq := cmd_seq d |}, w).

(** [f64::consts::PI], [to_radians], [to_degrees], and [rem_euclid] over the exact
    remainder of [%] *)
Definition PI : f64 := S754_finite false 7074237752028440 (-51).
Definition to_radians (x : f64) : f64 := x ⊗ (PI ⊘ f64_of_Z 180).
Definition to_degrees (x : f64) : f64 := x ⊗ (f64_of_Z 180 ⊘ PI).
Definition f64_rem (x y : f64) : f64 :=
  match x, y with
  | S754_nan, _ | _, S754_nan | S754_infinity _, _ | _, S754_zero _ => S754_nan
  | S754_zero s, _ => S754_zero s
  | S754_finite _ _ _, S754_infinity _ => x
  | S754_finite sx mx ex, S754_finite _ my ey =>
      let e := Z.min ex ey in
      let r := (Zpos mx * 2 ^ (ex - e)) mod (Zpos my * 2 ^ (ey - e)) in
      if r =? 0 then S754_zero sx else binary_normalize 53 1024 (if sx then - r else r) e sx
  end.
Definition rem_euclid (x y : f64) : f64 :=
  let r := f64_rem x y in if flt r f_zero then r ⊕ SFabs y else r.

Definition LAT0 : f64 := f64_lit 476062 10000.
Definition LON0 : f64 := f64_lit (-1223321) 10000.

Definition bits3 (v : vec3) : list Z := f32_bits nan32 <$> [f64_to_f32 (vx v); f64_to_f32 (vy v); f64_to_f32 (vz v)].

Definition post_step (d : QuadDrone) (w : World) (dt : f64) (imu : Telemetry.ImuSample)
    (gps : Telemetry.GpsSample) (pose : Frame.Pose6D f64)
  : exec (QuadDrone * Telemetry.ImuSample * Telemetry.GpsSample * Frame.Pose6D f64) :=
  s ← get w (body d);
  let acc := map3 (fun a => a ⊘ dt) (zip3 f64_sub (vel s) (prev_vel d)) in
  let g := f64_lit 981 100 in
  spec_body ← rotate_to_body w (body d) (V3 (vx acc) (vy acc) (vz acc ⊕ g));
  let imu := {| Telemetry.imu_magic := Telemetry.imu_magic imu; Telemetry.imu_version := Telemetry.imu_version imu;
     Telemetry.imu_reserved := Telemetry.imu_reserved imu; Telemetry.imu_seq := wadd 64 (Telemetry.imu_seq imu) 1;
     Telemetry.imu_timestamp_ns := Telemetry.imu_timestamp_ns imu; Telemetry.gyro_rps := bits3 (omega s);
     Telemetry.accel_g := bits3 (map3 (fun a => a ⊘ g) spec_body) |} in
  let metres := f64_of_Z 111320 in
  let ground_speed := f64_hypot (vx (vel s)) (vy (vel s)) in
  let course := if flt (f64_lit 1 10) ground_speed
    then f32_bits nan32 (f64_to_f32 (rem_euclid (to_degrees (f64_atan2 (vy (vel s)) (vx (vel s)))) (f64_of_Z 360)))
    else Telemetry.course_deg gps in
  let gps := {| Telemetry.gps_magic := Telemetry.gps_magic gps; Telemetry.gps_version := Telemetry.gps_version gps;
     Telemetry.gps_reserved := Telemetry.gps_reserved gps; Telemetry.gps_seq := wadd 64 (Telemetry.gps_seq gps) 1;
     Telemetry.gps_timestamp_ns := Telemetry.gps_timestamp_ns gps;
     Telemetry.lat_deg := f64_bits nan64 (LAT0 ⊕ vx (pos s) ⊘ metres);
     Telemetry.lon_deg := f64_bits nan64 (LON0 ⊕ vy (pos s) ⊘ (metres ⊗ f64_cos (to_radians LAT0)));
     Telemetry.alt_m := f64_bits nan64 (vz (pos s));
     Telemetry.speed_mps := f32_bits nan32 (f64_to_f32 ground_speed);
     Telemetry.course_deg := course; Telemetry.sats := 14; Telemetry.fix_ok := 1 |} in
  '(yaw, pitch, roll) ← euler w (body d);
  Ret ({| body := body d; motors := motors d; prev_vel := vel s; cmd_seq := cmd_seq d |}, imu, gps,
       {| Frame.x := vx (pos s); Frame.y := vy (pos s); Frame.z := vz (pos s); Frame.yaw := f64_to_f32 yaw;
          Frame.pitch := f64_to_f32 pitch; Frame.roll := f64_to_f32 roll; Frame.pose_reserved := 0 |}).

(** *** One control period never panics *)

Lemma spawn_ok w : world_ok w -> let '(w', d) := spawn w in drone_ok w' d /\ bodies w' !! body d <> None.
Proof.
  intros Hw. unfold spawn. pose proof (add_box_ok w MASS_KG (V3 (f64_lit 12 100) (f64_lit 12 100) (f64_lit 45 1000))
    (V3 f_zero f_zero (vz (V3 (f64_lit 12 100) (f64_lit 12 100) (f64_lit 45 1000)) ⊕ f64_lit 2 100)) f_zero Hw) as H.
  destruct (add_box _ _ _ _ _) as [w' b]. destruct H as (Hw' & -> & Hb & _). split.
  - split_and!; [done| |done]. cbn [body]. by apply lookup_lt_Some in Hb.
  - cbn [body]. by rewrite Hb.
Qed.

(** a frame as its type has it: eight data bytes *)
Definition frame_ok (f : CanFrame) : Prop := length (Can.data f) = 8%nat /\ bytes (Can.data f).

Lemma raw_thrust_ok f i : frame_ok f -> (i < 4)%nat ->
  exists hi lo, Can.data f !! (2 * i)%nat = Some hi /\ Can.data f !! (2 * i + 1)%nat = Some lo /\
    raw_thrust f i = Ret (256 * hi + lo) /\ 0 <= 256 * hi + lo < 65536.
Proof.
  intros [Hl Hb] Hi. destruct (lookup_lt_is_Some_2 (Can.data f) (2 * i)) as [hi Eh]; [lia|].
  destruct (lookup_lt_is_Some_2 (Can.data f) (2 * i + 1)) as [lo El]; [lia|].
  exists hi, lo. unfold raw_thrust, index. rewrite Eh, El, !ret_bind. split_and!; try done.
  all: apply list_elem_of_lookup_2 in Eh, El; apply (proj1 (Forall_forall _ _) Hb) in Eh, El;
    unfold byte, uint in *; lia.
Qed.

Lemma apply_all_ok f seq ms i : frame_ok f -> (i + length ms <= 4)%nat ->
  exists ms', apply_all f seq i ms = Ret ms' /\ length ms' = length ms /\
    forall k m, ms !! k = Some m -> exists raw, raw_thrust f (i + k) = Ret raw /\ 0 <= raw < 65536 /\
      ms' !! k = Some (Esc.apply m (motor_command seq raw)).
Proof.
  intros Hf. revert i. induction ms as [|m ms IH]; intros i Hi; cbn [apply_all length] in *.
  - exists []. split_and!; done.
  - destruct (raw_thrust_ok f i Hf) as (hi & lo & _ & _ & E & Hr); [lia|].
    destruct (IH (S i)) as (ms' & E' & Hl & Hk); [lia|]. rewrite E, ret_bind, E', ret_bind.
    eexists. split; [reflexivity|]. split; [simpl; by rewrite Hl|]. intros [|k] m' Hm; simpl in Hm |- *.
    + injection Hm as <-. exists (256 * hi + lo). rewrite Nat.add_0_r. split_and!; [done|lia|lia|done].
    + destruct (Hk k m' Hm) as (raw & Er & Hraw & Hms). exists raw. by rewrite Nat.add_succ_r.
Qed.

(** A motor frame is consumed exactly when its identifier and length fit; then each
    motor latches the fraction its two bytes name, and the sequence advances. *)
Lemma handle_can_spec w d f : drone_ok w d -> frame_ok f ->
  exists d' r, handle_can d f = Ret (d', r) /\ drone_ok w d' /\ body d' = body d /\ prev_vel d' = prev_vel d /\
    (r = true <-> Can.id f = Can.MOTOR_CMD /\ 8 <= Can.len f) /\
    (if r then cmd_seq d' = wadd 64 (cmd_seq d) 1 /\
       forall k m, motors d !! k = Some m -> exists raw, raw_thrust f k = Ret raw /\ 0 <= raw < 65536 /\
         motors d' !! k = Some (Esc.apply m (motor_command (cmd_seq d) raw))
     else d' = d).
Proof.
  intros (Hw & Hb & Hm) Hf. unfold handle_can.
  destruct (Z.eqb_spec (Can.id f) Can.MOTOR_CMD) as [Hid|Hid]; destruct (Z.ltb_spec (Can.len f) 8) as [Hl|Hl]; simpl.
  1, 3, 4: do 2 eexists; split; [reflexivity|]; split_and!; try done; split; [done|]; intros [? ?]; try done; lia.
  destruct (apply_all_ok f (cmd_seq d) (motors d) 0 Hf) as (ms & E & Hlen & Hk); [rewrite Hm; unfold N_MOTORS; lia|].
  rewrite E, ret_bind. do 2 eexists. split; [reflexivity|]. split_and!; try done.
  split_and!; [done|done|]. cbn [motors]. by rewrite Hlen.
Qed.

Lemma tick_all_ok ms dt : exists ms', tick_all ms dt = Ret ms' /\ length ms' = length ms.
Proof.
  induction ms as [|m ms IH]; cbn [tick_all].
  - by exists [].
  - destruct (Esc.tick_total m dt) as (m' & E & _). destruct IH as (ms' & E' & Hl).
    rewrite E, ret_bind, E', ret_bind. eexists. split; [reflexivity|]. simpl. by rewrite Hl.
Qed.

Lemma sum_omega_ok ms i j : (i < length ms)%nat -> (j < length ms)%nat -> exists s, sum_omega ms i j = Ret s.
Proof.
  intros Hi Hj. unfold sum_omega, index.
  destruct (lookup_lt_is_Some_2 ms i Hi) as [a ->]. rewrite ret_bind.
  destruct (lookup_lt_is_Some_2 ms j Hj) as [b ->]. rewrite ret_bind. by eexists.
Qed.

Lemma apply_actuation_ok d w dt : drone_ok w d ->
  exists d' w', apply_actuation d w dt = Ret (d', w') /\ drone_ok w' d' /\ bodies w' = bodies w /\ body d' = body d.
Proof.
  intros (Hw & Hb & Hm). unfold apply_actuation.
  destruct (tick_all_ok (motors d) (f64_to_f32 dt)) as (ms & E & Hl). rewrite E, ret_bind.
  destruct (resultant ms) as [[fz tx] ty]. rewrite Hm in Hl. unfold N_MOTORS in Hl.
  destruct (sum_omega_ok ms 0 3) as [s1 E1]; [lia|lia|]. destruct (sum_omega_ok ms 1 2) as [s2 E2]; [lia|lia|].
  rewrite E1, ret_bind, E2, ret_bind. unfold rotate_to_world, index.
  destruct (lookup_lt_is_Some_2 (bodies w) (body d) Hb) as [b Eb]. rewrite Eb, ret_bind, ret_bind.
  destruct (add_force_ok w (body d) (quat_rotate (att b) (V3 f_zero f_zero fz)) Hw Hb) as (w1 & Ef & Hw1 & Eb1).
  rewrite Ef, ret_bind.
  destruct (add_torque_ok w1 (body d) (V3 tx ty (YAW_COEF ⊗ (s1 ⊖ s2))) Hw1) as (w2 & Et & Hw2 & Eb2); [by rewrite Eb1|].
  rewrite Et, ret_bind. do 2 eexists. split; [reflexivity|]. unfold drone_ok. cbn [body motors].
  rewrite Eb2, Eb1. by split_and!.
Qed.

Lemma post_step_ok d w dt imu gps pose : drone_ok w d ->
  exists d' imu' gps' pose', post_step d w dt imu gps pose = Ret (d', imu', gps', pose') /\ drone_ok w d' /\
    body d' = body d /\ Telemetry.imu_seq imu' = wadd 64 (Telemetry.imu_seq imu) 1 /\
    exists b, bodies w !! body d = Some b /\ prev_vel d' = vel b /\
      Frame.x pose' = vx (pos b) /\ Frame.y pose' = vy (pos b) /\ Frame.z pose' = vz (pos b).
Proof.
  intros (Hw & Hb & Hm). unfold post_step, get, rotate_to_body, euler, index.
  destruct (lookup_lt_is_Some_2 (bodies w) (body d) Hb) as [b Eb]. rewrite Eb, !ret_bind.
  destruct (quat_to_euler_total (att b)) as [[[yaw pitch] roll] Ee]. rewrite Ee, ret_bind.
  do 4 eexists. split; [reflexivity|]. split_and!; try done. exists b. by split_and!.
Qed.

(** The control period of the fixture: frames, actuation, physics, sensors. *)
Definition period (d : QuadDrone) (w : World) (frame : CanFrame) (dt : f64) (imu : Telemetry.ImuSample)
    (gps : Telemetry.GpsSample) (pose : Frame.Pose6D f64)
  : exec (QuadDrone * World * Telemetry.ImuSample * Telemetry.GpsSample * Frame.Pose6D f64) :=
  '(d, _) ← handle_can d frame;
  '(d, w) ← apply_actuation d w dt;
  w ← step w dt;
  '(d, imu, gps, pose) ← post_step d w dt imu gps pose;
  Ret (d, w, imu, gps, pose).

Lemma period_ok d w frame dt imu gps pose : drone_ok w d -> frame_ok frame ->
  exists d' w' imu' gps' pose', period d w frame dt imu gps pose = Ret (d', w', imu', gps', pose') /\
    drone_ok w' d' /\ exists b, bodies w' !! body d' = Some b /\ Frame.z pose' = vz (pos b) /\ above_ground b.
Proof.
  intros Hd Hf. unfold period.
  destruct (handle_can_spec w d frame Hd Hf) as (d1 & r & E1 & Hd1 & _). rewrite E1, ret_bind.
  destruct (apply_actuation_ok d1 w dt Hd1) as (d2 & w2 & E2 & (Hw2 & Hb2 & Hm2) & _). rewrite E2, ret_bind.
  destruct (step_ok w2 dt Hw2) as (w3 & E3 & Hw3 & Hl3 & Ha3 & _). rewrite E3, ret_bind.
  assert (Hd3 : drone_ok w3 d2) by (split_and!; [done|by rewrite Hl3|done]).
  destruct (post_step_ok d2 w3 dt imu gps pose Hd3) as (d4 & imu' & gps' & pose' & E4 & Hd4 & Eb & _ & b & Eb' & _ & _ & _ & Ez).
  rewrite E4, ret_bind. do 5 eexists. split; [reflexivity|]. split; [done|]. exists b. rewrite Eb.
  split_and!; [done|done|]. apply (proj1 (Forall_forall _ _) Ha3). by eapply list_elem_of_lookup_2.
Qed.

(** one period per frame *)
Fixpoint fly (d : QuadDrone) (w : World) (frames : list CanFrame) (dt : f64) (imu : Telemetry.ImuSample)
    (gps : Telemetry.GpsSample) (pose : Frame.Pose6D f64)
  : exec (QuadDrone * World * Telemetry.ImuSample * Telemetry.GpsSample * Frame.Pose6D f64) :=
  match frames with
  | [] => Ret (d, w, imu, gps, pose)
  | f :: frames =>
      '(d, w, imu, gps, pose) ← period d w f dt imu gps pose;
      fly d w frames dt imu gps pose
  end.

(** the pose is that of the drone's body, above the ground *)
Definition pose_grounded (d : QuadDrone) (w : World) (pose : Frame.Pose6D f64) : Prop :=
  exists b, bodies w !! body d = Some b /\ Frame.z pose = vz (pos b) /\ above_ground b.

Lemma fly_ok frames d w dt imu gps pose : drone_ok w d -> Forall frame_ok frames ->
  frames = [] /\ pose_grounded d w pose \/ frames <> [] ->
  exists d' w' imu' gps' pose', fly d w frames dt imu gps pose = Ret (d', w', imu', gps', pose') /\
    drone_ok w' d' /\ pose_grounded d' w' pose'.
Proof.
  intros Hd Hf. revert d w imu gps pose Hd. induction Hf as [|f frames Hf Hfs IH]; intros d w imu gps pose Hd Hp; cbn [fly].
  - destruct Hp as [[_ Hp]|]; [|done]. by do 5 eexists.
  - destruct (period_ok d w f dt imu gps pose Hd Hf) as (d1 & w1 & i1 & g1 & p1 & E & Hd1 & Hg1).
    rewrite E, ret_bind. apply IH; [done|]. destruct frames; [by left|by right].
Qed.

End Drone.

(** A spawned quadrotor flies for any number of control periods, with any frames
    on the bus, without a panic, and the pose it reports afterwards is never
    below the ground. *)
Theorem drone_flies `{Libm} (nan32 nan64 : Z) (g : vec3) (frames : list CanFrame) (dt : f64)
    (imu : Telemetry.ImuSample) (gps : Telemetry.GpsSample) (pose : Frame.Pose6D f64) :
  Forall frame_ok frames -> frames <> [] ->
  let '(w, d) := spawn (World.new g) in
  exists d' w' imu' gps' pose' b, fly nan32 nan64 d w frames dt imu gps pose = Ret (d', w', imu', gps', pose') /\
    bodies w' !! body d' = Some b /\ Frame.z pose' = vz (pos b) /\
    flt (f64_sub (Frame.z pose') (vz (half b))) f_zero = false.
Proof.
  intros Hf Hne. pose proof (spawn_ok (World.new g) (new_ok g)) as Hs. destruct (spawn (World.new g)) as [w d].
  destruct Hs as [Hd _]. destruct (fly_ok nan32 nan64 frames d w dt imu gps pose Hd Hf (or_intror Hne))
    as (d' & w' & i' & g' & p' & E & _ & b & Eb & Ez & Ha).
  exists d', w', i', g', p', b. split_and!; [done|done|done|]. rewrite Ez. exact Ha.
Qed.

(** a frame with full thrust on every rotor *)
Definition full_thrust : CanFrame := Can.new Can.MOTOR_CMD (replicate 8 255).

Lemma drone_flies_witness :
  frame_ok full_thrust /\
  let '(w, d) := spawn (LM := flat_libm) (World.new (V3 f_zero f_zero (f64_lit (-981) 100))) in
  exists d' w' imu' gps' pose' b,
    fly (LM := flat_libm) 0 0 d w [full_thrust; full_thrust] DT_S (Telemetry.imu_zeroed 0 0)
      (Telemetry.gps_zeroed 0 0) (Frame.default_pose f_zero) = Ret (d', w', imu', gps', pose') /\
    bodies w' !! body d' = Some b /\ Frame.z pose' = vz (pos b) /\
    flt (f64_sub (Frame.z pose') (vz (half b))) f_zero = false.
Proof.
  assert (Hf : frame_ok full_thrust) by (split; [reflexivity|by vm_compute; repeat constructor]).
  split; [exact Hf|].
  apply (drone_flies (H := flat_libm) 0 0 (V3 f_zero f_zero (f64_lit (-981) 100)) [full_thrust; full_thrust]);
    [by do 2 (constructor; [exact Hf|])|done].
Defined.

(** The remainder is that of exact division. *)
Example rem_examples :
  rem_euclid (f64_of_Z (-90)) (f64_of_Z 360) = f64_of_Z 270 /\ rem_euclid (f64_of_Z 725) (f64_of_Z 360) = f64_of_Z 5 /\
  f64_rem (f64_lit 11 2) (f64_of_Z 2) = f64_lit 3 2 /\ is_nan (f64_rem (f64_of_Z 1) f_zero) = true.
Proof. vm_compute. split_and!; reflexivity. Qed.

End Drone.
