(* ===== verification/Media.v ===== *)
(** * Media: [tpt-t-media/src]

    [Frames]: pool.rs, the slab of frame blocks.  [Encoder]: encoder.rs, the
    bitrate governor between the link's congestion signal and a video encoder.
    [Capture]: capture.rs, the test-pattern source.  Pixel buffers are byte lists;
    an index outside the buffer panics.  The hardware back ends of the source
    refuse every call and appear as the constants they return. *)

From stdpp Require Import strings.
From S2P Require Import Prelude Text Backpressure.

Inductive MediaError :=
| Unsupported (what : list Z)
| BufferTooSmall (needed got : Z)
| Device (what : list Z).

(** [Display] *)
Definition MediaError_fmt (e : MediaError) : list Z :=
  match e with
  | Unsupported s => ascii_bytes "unsupported: " ++ s
  | BufferTooSmall needed got =>
      ascii_bytes "buffer too small: need " ++ dec needed ++ ascii_bytes ", got " ++ dec got
  | Device s => ascii_bytes "device error: " ++ s
  end.

(** [buf[i] = v] *)
Definition store (buf : list Z) (i : nat) (v : Z) : exec (list Z) :=
  if decide (i < length buf)%nat then Ret (<[i := v]> buf) else Panic.

(** [for x in xs { s = f(x, s) }] *)
Fixpoint for_each {X St} (xs : list X) (f : X -> St -> exec St) (s : St) : exec St :=
  match xs with
  | [] => Ret s
  | x :: xs => s' ← f x s; for_each xs f s'
  end.

(** The loop rule: an invariant indexed by the number of rounds done. *)
Lemma for_each_inv {X St} (P : nat -> St -> Prop) (f : X -> St -> exec St) xs s k :
  P k s ->
  (forall j x s, xs !! j = Some x -> P (k + j)%nat s ->
     exists s', f x s = Ret s' /\ P (S (k + j)) s') ->
  exists s', for_each xs f s = Ret s' /\ P (k + length xs)%nat s'.
Proof.
  revert s k. induction xs as [|x xs IH]; intros s k H0 Hs; simpl.
  - exists s. by rewrite Nat.add_0_r.
  - destruct (Hs 0%nat x s eq_refl) as (s' & E & H'); [by rewrite Nat.add_0_r|].
    rewrite E, ret_bind. destruct (IH s' (S k)) as (s'' & E' & H'').
    + by rewrite Nat.add_0_r in H'.
    + intros j y t Hj Ht. destruct (Hs (S j) y t Hj) as (t' & Et & Ht'); [by rewrite Nat.add_succ_r|].
      exists t'. by rewrite Nat.add_succ_r in Ht'.
    + exists s''. by rewrite Nat.add_succ_r.
Qed.

(** ** Frames and the block slab (pool.rs) *)

Inductive PixFmt := GrayY8 | Rgb888 | Nv12.
#[export] Instance PixFmt_eq_dec : EqDecision PixFmt.
Proof. solve_decision. Defined.

Module Frames.

Definition as_u32 (f : PixFmt) : Z := match f with GrayY8 => 0 | Rgb888 => 1 | Nv12 => 2 end.
Definition bytes_per_pixel (f : PixFmt) : Z := match f with GrayY8 => 1 | Rgb888 => 3 | Nv12 => 2 end.

Definition min_buffer_len (f : PixFmt) (w h : Z) : Z :=
  match f with
  | Nv12 => wmul 64 (wmul 64 w h) 3 / 2
  | other => wmul 64 (wmul 64 (bytes_per_pixel other) w) h
  end.

Record FrameMeta := {
  seq : Z; timestamp_ns : Z; width : Z; height : Z; stride : Z; format : Z
}.

Definition new_meta (seq timestamp_ns width height : Z) (format : PixFmt) : FrameMeta :=
  {| seq := seq; timestamp_ns := timestamp_ns; width := width; height := height;
     stride := match format with Nv12 => width | other => wmul 32 (bytes_per_pixel other) width end;
     format := as_u32 format |}.

Definition default_meta : FrameMeta :=
  {| seq := 0; timestamp_ns := 0; width := 0; height := 0; stride := 0; format := 0 |}.

Definition pixfmt (m : FrameMeta) : PixFmt :=
  if format m =? 0 then GrayY8 else if format m =? 1 then Rgb888 else Nv12.

(** [free] is a stack whose top is the last element. *)
Record FramePool := { slab : list Z; block_len : Z; free : list Z; used : Z }.

(** [vec![..]] and [Vec::with_capacity] refuse more than [isize::MAX] bytes. *)
Definition new (block_len blocks : Z) : exec FramePool :=
  _ ← assert ((0 <? block_len) && (0 <? blocks));
  _ ← assert (4 * blocks <=? 2 ^ 63 - 1);
  _ ← assert (wmul 64 block_len blocks <=? 2 ^ 63 - 1);
  Ret {| slab := replicate (Z.to_nat (wmul 64 block_len blocks)) 0; block_len := block_len;
         free := reverse (seqZ 0 (wrap 32 blocks)); used := 0 |}.

Definition capacity (p : FramePool) : Z := Z.of_nat (length (free p)) + used p.
Definition available (p : FramePool) : Z := Z.of_nat (length (free p)).
Definition in_use (p : FramePool) : Z := used p.

(** A [Block] is the index it holds; its lifetime excludes other borrows. *)
Definition alloc (p : FramePool) : FramePool * option Z :=
  match last (free p) with
  | None => (p, None)
  | Some idx =>
      ({| slab := slab p; block_len := block_len p; free := removelast (free p);
          used := wadd 64 (used p) 1 |}, Some idx)
  end.

(** [Deref] *)
Definition deref (p : FramePool) (idx : Z) : exec (list Z) :=
  range (slab p) (Z.to_nat (wmul 64 idx (block_len p))) (Z.to_nat (block_len p)).

(** [DerefMut]: the caller's writes turn the block's bytes into [f] of them *)
Definition deref_mut (p : FramePool) (idx : Z) (f : list Z -> list Z) : exec FramePool :=
  b ← deref p idx;
  s ← copy_from_slice (slab p) (Z.to_nat (wmul 64 idx (block_len p))) (f b);
  Ret {| slab := s; block_len := block_len p; free := free p; used := used p |}.

(** [Drop] *)
Definition release (p : FramePool) (idx : Z) : FramePool :=
  {| slab := slab p; block_len := block_len p; free := free p ++ [idx]; used := wsub 64 (used p) 1 |}.

(** *** Invariant

    [out] lists the blocks handed out and not yet dropped. *)

Record pool_ok (n : Z) (out : list Z) (p : FramePool) : Prop := {
  ok_len : 0 < block_len p;
  ok_count : 0 < n < 2 ^ 32;
  ok_slab : Z.of_nat (length (slab p)) = block_len p * n;
  ok_fit : block_len p * n < 2 ^ 63;
  ok_perm : free p ++ out ≡ₚ seqZ 0 n;
  ok_used : used p = Z.of_nat (length out)
}.

Lemma new_pool_ok bl n p : 0 < bl -> 0 < n < 2 ^ 32 -> bl * n < 2 ^ 63 -> new bl n = Ret p ->
  pool_ok n [] p /\ block_len p = bl.
Proof.
  intros Hb Hn Hf. unfold new. rewrite !(proj2 (Z.ltb_lt _ _)), (proj2 (Z.leb_le (4 * n) _)) by lia.
  assert (E : wmul 64 bl n = bl * n) by (apply wrap_id; unfold uint; nia). rewrite E.
  rewrite (proj2 (Z.leb_le (bl * n) _)) by lia. intros [= <-]. split; [|done].
  constructor; cbn [block_len slab free used]; try done.
  - rewrite length_replicate, Z2Nat.id; [done|nia].
  - rewrite app_nil_r, wrap_id by (unfold uint; lia). apply reverse_Permutation.
Qed.

Lemma new_pool_total bl n : 0 < bl -> 0 < n < 2 ^ 32 -> bl * n < 2 ^ 63 -> exists p, new bl n = Ret p.
Proof.
  intros Hb Hn Hf. unfold new. rewrite !(proj2 (Z.ltb_lt _ _)), (proj2 (Z.leb_le (4 * n) _)) by lia.
  assert (E : wmul 64 bl n = bl * n) by (apply wrap_id; unfold uint; nia). rewrite E.
  rewrite (proj2 (Z.leb_le (bl * n) _)) by lia. eexists; reflexivity.
Qed.

Lemma pool_used_small n out p : pool_ok n out p -> used p <= n.
Proof.
  intros []. rewrite ok_used0.
  apply Permutation_length in ok_perm0. rewrite length_app, length_seqZ in ok_perm0. lia.
Qed.

(** [alloc] hands out a block nobody holds, and fails only when all are held. *)
Lemma alloc_ok n out p : pool_ok n out p ->
  match alloc p with
  | (p', Some i) => pool_ok n (i :: out) p' /\ i ∉ out /\ slab p' = slab p /\ block_len p' = block_len p
  | (p', None) => p' = p /\ Z.of_nat (length out) = n
  end.
Proof.
  intros Hok. pose proof (pool_used_small _ _ _ Hok) as Hu. destruct Hok as [Hl Hn Hs Hf Hp Hus].
  unfold alloc. destruct (last (free p)) as [i|] eqn:E.
  - assert (Ef : free p = removelast (free p) ++ [i]).
    { destruct (exists_last (l := free p)) as (l & a & El); [intros Ee; by rewrite Ee in E|].
      rewrite El in E. rewrite last_snoc in E. rewrite El, removelast_last. congruence. }
    assert (Hp' : removelast (free p) ++ i :: out ≡ₚ seqZ 0 n).
    { etransitivity; [|exact Hp]. rewrite Ef at 2. by rewrite <- app_assoc. }
    assert (Hd : NoDup (removelast (free p) ++ i :: out)) by (rewrite Hp'; apply NoDup_seqZ).
    apply NoDup_app in Hd as (_ & _ & Hd). apply NoDup_cons in Hd as [Hi _].
    pose proof (Permutation_length Hp') as Hlen. rewrite length_app, length_seqZ in Hlen. simpl in Hlen.
    split_and!; try done. constructor; cbn [block_len slab free used length]; try done.
    unfold wadd. rewrite wrap_id by (unfold uint; lia). lia.
  - apply last_None in E. rewrite E in Hp. apply Permutation_length in Hp.
    rewrite length_seqZ in Hp. simpl in Hp. split; [done|lia].
Qed.

(** Dropping a held block makes it available again. *)
Lemma release_ok n i out p : pool_ok n (i :: out) p -> pool_ok n out (release p i).
Proof.
  intros [Hl Hn Hs Hf Hp Hus]. constructor; cbn [release block_len slab free used]; try done.
  - by rewrite <- app_assoc.
  - unfold wsub. simpl in Hus. pose proof (Permutation_length Hp) as Hlen.
    rewrite length_app, length_seqZ in Hlen. simpl in Hlen. rewrite wrap_id by (unfold uint; lia). lia.
Qed.

Lemma capacity_ok n out p : pool_ok n out p -> capacity p = n.
Proof.
  intros [_ Hn _ _ Hp Hu]. unfold capacity. apply Permutation_length in Hp.
  rewrite length_app, length_seqZ in Hp. lia.
Qed.

Lemma block_range n out p i : pool_ok n out p -> i ∈ out ->
  0 <= i < n /\ wmul 64 i (block_len p) = i * block_len p /\
  (Z.to_nat (i * block_len p) + Z.to_nat (block_len p) <= length (slab p))%nat.
Proof.
  intros [Hl Hn Hs Hf Hp _] Hi.
  assert (Hr : 0 <= i < n).
  { apply (elem_of_seqZ 0 n i). rewrite <- Hp. apply elem_of_app. by right. }
  split_and!; [lia|lia|apply wrap_id; unfold uint; nia|].
  apply Nat2Z.inj_le. rewrite Nat2Z.inj_add, !Z2Nat.id, Hs by nia. nia.
Qed.

Lemma take_drop_splice_other {A} (l b : list A) (i j k : nat) : (i + length b <= length l)%nat ->
  (j + k <= i \/ i + length b <= j)%nat -> take k (drop j (splice l i b)) = take k (drop j l).
Proof.
  intros Hi Hd. apply list_eq. intros x. destruct (decide (x < k)%nat) as [Hx|Hx].
  - rewrite !lookup_take_lt, !lookup_drop by lia. unfold splice. destruct Hd as [Hd|Hd].
    + rewrite lookup_app_l by (rewrite length_take; lia). by rewrite lookup_take_lt by lia.
    + rewrite !lookup_app_r by (rewrite ?length_take; lia). rewrite lookup_drop, length_take.
      f_equal. lia.
  - rewrite !lookup_take_ge; [done|lia|lia].
Qed.

(** A write through one held block reads back and leaves every other block alone. *)
Lemma write_isolated n out p i f : pool_ok n out p -> i ∈ out ->
  (forall b, length (f b) = length b) ->
  exists b p', deref p i = Ret b /\ deref_mut p i f = Ret p' /\ pool_ok n out p' /\
    deref p' i = Ret (f b) /\ forall j, j ∈ out -> j <> i -> deref p' j = deref p j.
Proof.
  intros Hok Hi Hf. pose proof (block_range _ _ _ _ Hok Hi) as (Hr & Ew & Hb).
  set (o := Z.to_nat (i * block_len p)) in *. set (k := Z.to_nat (block_len p)) in *.
  assert (Ed : deref p i = Ret (take k (drop o (slab p)))).
  { unfold deref, range. rewrite Ew. fold o k. by rewrite decide_True. }
  set (b := take k (drop o (slab p))) in *.
  assert (Lb : length b = k) by (unfold b; rewrite length_take, length_drop; lia).
  eexists b, {| slab := splice (slab p) o (f b); block_len := block_len p; free := free p; used := used p |}.
  assert (Ls : length (splice (slab p) o (f b)) = length (slab p)) by (apply length_splice; rewrite Hf; lia).
  assert (Ew' : forall j, j ∈ out -> wmul 64 j (block_len p) = j * block_len p)
    by (intros j Hj; apply (block_range _ _ _ _ Hok Hj)).
  split_and!; [done| | | |].
  - unfold deref_mut. rewrite Ed, ret_bind, Ew. fold o. unfold copy_from_slice.
    rewrite decide_True by (rewrite Hf; lia). done.
  - destruct Hok. constructor; cbn [slab block_len free used]; try done. by rewrite Ls.
  - unfold deref, range; cbn [slab block_len]. rewrite Ew. fold o k. rewrite decide_True by lia.
    f_equal. unfold splice. rewrite drop_app_ge by (rewrite length_take; lia).
    rewrite length_take, Nat.min_l, Nat.sub_diag, drop_0 by lia.
    rewrite take_app_le by (rewrite Hf; lia). apply take_ge. rewrite Hf. lia.
  - intros j Hj Hne. pose proof (block_range _ _ _ _ Hok Hj) as (Hrj & Ewj & Hbj).
    unfold deref, range; cbn [slab block_len]. rewrite Ewj, Ls, !decide_True by done.
    f_equal. destruct Hok as [Hl _ _ _ _ _]. apply take_drop_splice_other; rewrite ?Hf; [lia|].
    rewrite Lb. unfold o, k. destruct (Z.lt_total j i) as [?|[?|?]]; [left|done|right];
      apply Nat2Z.inj_le; rewrite Nat2Z.inj_add, !Z2Nat.id by nia; nia.
Qed.

(** The length computation wraps in 64 bits: at the largest geometry the
    required length is less than the luma plane alone. *)
Example min_buffer_len_wraps : exists w h, 0 < w < 2 ^ 32 /\ 0 < h < 2 ^ 32 /\
  min_buffer_len GrayY8 w h = w * h /\ min_buffer_len Nv12 w h < w * h.
Proof. exists (2 ^ 32 - 1), (2 ^ 32 - 1). vm_compute. split_and!; congruence. Qed.

End Frames.

(** ** Encoders and the bitrate governor (encoder.rs) *)

Module Encoder.

Class BitrateSignal (S : Type) := { suggested_bitrate_bps : S -> Z }.

Record ConstBitrate := { const_bps : Z }.
#[export] Instance const_signal : BitrateSignal ConstBitrate := {| suggested_bitrate_bps := const_bps |}.
#[export] Instance backpressure_signal : BitrateSignal Bp.Backpressure :=
  {| suggested_bitrate_bps := Bp.suggested_bitrate_bps |}.

Class VideoEncoder (E : Type) := {
  set_bitrate : E -> Z -> E;
  current_bitrate : E -> Z;
  encode : E -> list Z -> Frames.FrameMeta -> list Z -> exec (list Z * result Z MediaError)
}.

Record NullEncoder := { bitrate : Z }.
Definition null_encode (e : NullEncoder) (frame : list Z) (meta : Frames.FrameMeta) (out : list Z)
  : exec (list Z * result Z MediaError) :=
  if (length out <? length frame)%nat then
    Ret (out, Err (BufferTooSmall (Z.of_nat (length frame)) (Z.of_nat (length out))))
  else
    out ← copy_from_slice out 0 frame;
    Ret (out, Ok (Z.of_nat (length frame))).
#[export] Instance null_encoder : VideoEncoder NullEncoder := {|
  set_bitrate _ bps := {| bitrate := bps |};
  current_bitrate := bitrate;
  encode := null_encode
|}.

(** the vendor encoders that are not bound yet *)
Definition nvenc_open : result unit MediaError :=
  Err (Unsupported (ascii_bytes "NVENC binding deferred to hardware bring-up")).
Definition amf_open : result unit MediaError :=
  Err (Unsupported (ascii_bytes "AMF binding deferred to hardware bring-up")).
Inductive Deferred := Nvenc | Amf.
Definition deferred_text (d : Deferred) : list Z :=
  match d with Nvenc => ascii_bytes "NVENC binding deferred" | Amf => ascii_bytes "AMF binding deferred" end.
#[export] Instance deferred_encoder : VideoEncoder Deferred := {|
  set_bitrate d _ := d;
  current_bitrate _ := 0;
  encode d _ _ out := Ret (out, Err (Unsupported (deferred_text d)))
|}.

Definition slew (last want min_step : Z) : Z :=
  if last =? want then want
  else
    let delta := Z.abs (want - last) in
    let step := Z.min delta (Z.max (Z.max (want / 4) min_step) 1) in
    if last <? want then Z.min (sadd 64 last step) want else Z.max (ssub last step) want.

Section Governor.
Context {S E : Type} `{BS : !BitrateSignal S} `{VE : !VideoEncoder E}.

Record EncoderGovernor := { signal : S; last : Z; min_bps : Z; max_bps : Z; min_step : Z }.

Definition new (signal : S) (min_bps max_bps : Z) : exec EncoderGovernor :=
  _ ← assert (min_bps <=? max_bps);
  Ret {| signal := signal; last := min_bps; min_bps := min_bps; max_bps := max_bps;
         min_step := Z.max (max_bps / 64) 1000 |}.

Definition target (g : EncoderGovernor) : Z :=
  Z.min (Z.max (suggested_bitrate_bps (signal g)) (min_bps g)) (max_bps g).

Definition tick (ge : EncoderGovernor * E) : EncoderGovernor * E :=
  let '(g, enc) := ge in
  let next := slew (last g) (target g) (min_step g) in
  ({| signal := signal g; last := next; min_bps := min_bps g; max_bps := max_bps g;
      min_step := min_step g |}, set_bitrate enc next).

Definition current (g : EncoderGovernor) : Z := last g.

(** the signal the governor reads may change between ticks *)
Definition observe (g : EncoderGovernor) (s : S) : EncoderGovernor :=
  {| signal := s; last := last g; min_bps := min_bps g; max_bps := max_bps g; min_step := min_step g |}.

Definition gov_ok (g : EncoderGovernor) : Prop :=
  0 <= min_bps g /\ min_bps g <= last g <= max_bps g /\ max_bps g < 2 ^ 64 /\
  min_step g = Z.max (max_bps g / 64) 1000.

Lemma new_gov_ok s lo hi : 0 <= lo <= hi -> hi < 2 ^ 64 ->
  exists g, new s lo hi = Ret g /\ gov_ok g /\ last g = lo /\ signal g = s.
Proof.
  intros Hb Hh. unfold new. rewrite (proj2 (Z.leb_le _ _)) by lia. eexists. split; [reflexivity|].
  unfold gov_ok; cbn [min_bps max_bps last min_step signal]. split_and!; done || lia.
Qed.

(** One step of the slew: it moves toward [want] by at least [min_step] without
    passing it, and by no more than the larger of [want / 4] and [min_step]. *)
Lemma slew_spec l w ms : 0 <= l < 2 ^ 64 -> 0 <= w < 2 ^ 64 -> 0 < ms ->
  (l <= w -> l <= slew l w ms <= w) /\ (w <= l -> w <= slew l w ms <= l) /\
  Z.abs (w - slew l w ms) = Z.max 0 (Z.abs (w - l) - Z.max (w / 4) ms).
Proof.
  intros Hl Hw Hm. unfold slew, sadd, ssub, umax.
  destruct (Z.eqb_spec l w) as [->|Hne]; [lia|]. destruct (Z.ltb_spec l w); lia.
Qed.

Lemma target_bounds g : min_bps g <= max_bps g -> min_bps g <= target g <= max_bps g.
Proof. unfold target. lia. Qed.

Lemma tick_ok g enc : gov_ok g ->
  gov_ok (tick (g, enc)).1 /\
  Z.abs (target g - last (tick (g, enc)).1) =
    Z.max 0 (Z.abs (target g - last g) - Z.max (target g / 4) (min_step g)).
Proof.
  intros (H0 & Hl & Hm & Hs). pose proof (target_bounds g ltac:(lia)) as Ht.
  pose proof (slew_spec (last g) (target g) (min_step g)) as Hsl.
  destruct Hsl as (Hup & Hdown & Hd); [lia|lia|lia|]. cbn. split; [|exact Hd].
  unfold gov_ok; cbn. split_and!; lia.
Qed.

(** The applied rate stays in the session's range whatever the signal does. *)
Lemma run_bounded signals g enc : gov_ok g ->
  let '(g', _) := foldl (fun ge s => tick (observe ge.1 s, ge.2)) (g, enc) signals in
  gov_ok g' /\ min_bps g' = min_bps g /\ max_bps g' = max_bps g.
Proof.
  revert g enc. induction signals as [|s signals IH]; intros g enc Hg; [done|].
  cbn [foldl fst snd]. destruct (tick (observe g s, enc)) as [g1 enc1] eqn:Ex.
  assert (Hg1 : gov_ok g1).
  { change g1 with ((g1, enc1).1). rewrite <- Ex. apply tick_ok. exact Hg. }
  specialize (IH g1 enc1 Hg1). injection Ex as <- _. exact IH.
Qed.

(** A constant signal is reached within 65 ticks, and then held. *)
Lemma converges g enc k : gov_ok g ->
  let '(g', _) := Nat.iter k tick (g, enc) in
  gov_ok g' /\ target g' = target g /\ min_step g' = min_step g /\
  Z.abs (target g - last g') <= Z.max 0 (Z.abs (target g - last g) - Z.of_nat k * min_step g).
Proof.
  intros Hg. induction k as [|k IH].
  - simpl. split_and!; [done..|lia].
  - rewrite Nat.iter_succ. destruct (Nat.iter k tick (g, enc)) as [g1 e1].
    destruct IH as (H1 & Ht & Hm & Hd). destruct (tick_ok g1 e1 H1) as (H2 & Hd2).
    destruct (tick (g1, e1)) as [g2 e2] eqn:Ex. cbn [fst] in *.
    assert (E2 : target g2 = target g1 /\ min_step g2 = min_step g1) by (injection Ex as <- _; done).
    destruct E2 as [Et Em]. rewrite Et, Em, Ht, Hm in *. split_and!; [done..|].
    destruct Hg as (_ & _ & _ & Hs). lia.
Qed.

End Governor.
Arguments EncoderGovernor : clear implicits.

(** C26: Driven by a constant suggestion, the governor settles the encoder on the
    suggestion clamped to the session's range within 65 ticks, from any starting
    rate in the range. *)
Theorem governor_settles {S E} `{!BitrateSignal S} `{!VideoEncoder E} (g : EncoderGovernor S) (enc : E)
    (k : nat) :
  (forall (e : E) b, current_bitrate (set_bitrate e b) = b) -> gov_ok g -> (65 <= k)%nat ->
  let '(g', enc') := Nat.iter k tick (g, enc) in
  current g' = Z.min (Z.max (suggested_bitrate_bps (signal g)) (min_bps g)) (max_bps g) /\
  current_bitrate enc' = current g' /\ min_bps g <= current g' <= max_bps g.
Proof.
  intros Hset Hg Hk. pose proof (converges g enc k Hg) as Hc.
  destruct k as [|k]; [lia|]. rewrite Nat.iter_succ in *.
  destruct (Nat.iter k tick (g, enc)) as [g1 e1]. destruct (tick (g1, e1)) as [g2 e2] eqn:Ex.
  destruct Hc as (H2 & Ht & _ & Hd). injection Ex as <- <-. unfold current; cbn [last] in *.
  pose proof (target_bounds g) as Hb. destruct Hg as (H0 & Hl & Hm & Hs).
  specialize (Hb ltac:(lia)).
  assert (max_bps g <= 65 * min_step g) by (rewrite Hs; clear -H0 Hl; Z.to_euclidean_division_equations; lia).
  assert (65 * min_step g <= Z.of_nat (Datatypes.S k) * min_step g) by nia.
  rewrite Hset. unfold target in *. lia.
Qed.

Lemma governor_settles_witness :
  let g := {| signal := {| const_bps := 100000000 |}; last := 1000000; min_bps := 1000000;
              max_bps := 80000000; min_step := 1250000 |} in
  gov_ok g /\ current (Nat.iter 65 tick (g, {| bitrate := 0 |})).1 = 80000000.
Proof.
  split; [unfold gov_ok; vm_compute; intuition congruence|].
  pose proof (governor_settles {| signal := {| const_bps := 100000000 |}; last := 1000000;
    min_bps := 1000000; max_bps := 80000000; min_step := 1250000 |} {| bitrate := 0 |} 65) as H.
  destruct (Nat.iter 65 tick _) as [g' enc'].
  destruct H as (H & _); [done|unfold gov_ok; vm_compute; intuition congruence|done|]. exact H.
Defined.

(** The pass-through encoder copies the frame or refuses it whole. *)
Lemma null_encode_spec e frame meta out :
  null_encode e frame meta out =
    Ret (if (length out <? length frame)%nat
         then (out, Err (BufferTooSmall (Z.of_nat (length frame)) (Z.of_nat (length out))))
         else (frame ++ drop (length frame) out, Ok (Z.of_nat (length frame)))).
Proof.
  unfold null_encode. destruct (Nat.ltb_spec (length out) (length frame)) as [H|H]; [done|].
  unfold copy_from_slice. by rewrite decide_True by lia.
Qed.

End Encoder.

(** ** The test-pattern source (capture.rs) *)

Module Capture.
Import Frames.

Class CaptureBackend (C : Type) := {
  configure : C -> Z -> Z -> PixFmt -> C * result unit MediaError;
  grab : C -> list Z -> FrameMeta -> exec (C * list Z * FrameMeta * result unit MediaError)
}.

Record TestPatternCapture := {
  tp_width : Z; tp_height : Z; tp_format : PixFmt; tp_seq : Z; start_ns : Z
}.

Definition new (w h : Z) (f : PixFmt) : TestPatternCapture :=
  {| tp_width := w; tp_height := h; tp_format := f; tp_seq := 0; start_ns := 0 |}.

Definition paint (c : TestPatternCapture) (buf : list Z) : exec (list Z) :=
  let w := Z.to_nat (tp_width c) in
  let h := Z.to_nat (tp_height c) in
  let luma := for_each (List.seq 0 h) (fun y => for_each (List.seq 0 w) (fun x b =>
                store b (y * w + x) (Z.of_nat (x + y) mod 256))) in
  match tp_format c with
  | Rgb888 =>
      let stride := (3 * w)%nat in
      for_each (List.seq 0 h) (fun y => for_each (List.seq 0 w) (fun x b =>
        let i := (y * stride + x * 3)%nat in
        b ← store b i (Z.of_nat x mod 256);
        b ← store b (i + 1) (Z.of_nat y mod 256);
        store b (i + 2) (Z.of_nat (x + y) mod 256))) buf
  | GrayY8 => luma buf
  | Nv12 =>
      b ← luma buf;
      if decide (w * h <= length b)%nat then
        Ret (take (w * h) b ++ replicate (length b - w * h) 128)
      else Panic
  end.

Definition pattern_grab (c : TestPatternCapture) (buf : list Z) (meta : FrameMeta)
  : exec (TestPatternCapture * list Z * FrameMeta * result unit MediaError) :=
  let need := min_buffer_len (tp_format c) (tp_width c) (tp_height c) in
  if Z.of_nat (length buf) <? need then
    Ret (c, buf, meta, Err (BufferTooSmall need (Z.of_nat (length buf))))
  else
    buf ← paint c buf;
    let s := wadd 64 (tp_seq c) 1 in
    Ret ({| tp_width := tp_width c; tp_height := tp_height c; tp_format := tp_format c;
            tp_seq := s; start_ns := start_ns c |}, buf,
         new_meta s (wadd 64 (start_ns c) (wmul 64 s 33333333)) (tp_width c) (tp_height c) (tp_format c),
         Ok tt).

#[export] Instance test_pattern : CaptureBackend TestPatternCapture := {|
  configure c w h f :=
    ({| tp_width := w; tp_height := h; tp_format := f; tp_seq := tp_seq c; start_ns := start_ns c |}, Ok tt);
  grab := pattern_grab
|}.

(** the camera back ends that are not bound yet *)
Inductive DeferredCamera := V4l2 | DirectShow | Mac.
Definition deferred_name (d : DeferredCamera) : list Z :=
  match d with V4l2 => ascii_bytes "V4L2" | DirectShow => ascii_bytes "DirectShow"
             | Mac => ascii_bytes "AVFoundation" end.
Definition deferred_open (d : DeferredCamera) : result DeferredCamera MediaError :=
  Err (Unsupported (deferred_name d ++ ascii_bytes " binding deferred to hardware bring-up")).
#[export] Instance deferred_camera : CaptureBackend DeferredCamera := {|
  configure d _ _ _ := (d, Err (Unsupported (deferred_name d ++ ascii_bytes " binding deferred")));
  grab d buf meta := Ret (d, buf, meta, Err (Unsupported (deferred_name d ++ ascii_bytes " binding deferred")))
|}.

(** *** The picture

    The byte a frame of width [w] holds at offset [i]. *)
Definition luma_at (w i : nat) : Z := Z.of_nat (i mod w + i / w) mod 256.
Definition rgb_at (w i : nat) : Z :=
  let x := (i mod (3 * w) / 3)%nat in
  let y := (i / (3 * w))%nat in
  match (i mod 3)%nat with
  | 0%nat => Z.of_nat x mod 256
  | 1%nat => Z.of_nat y mod 256
  | _ => Z.of_nat (x + y) mod 256
  end.

(** [buf] after its first [n] bytes have been painted with [g] *)
Definition painted (g : nat -> Z) (buf : list Z) (n : nat) : list Z :=
  map g (List.seq 0 n) ++ drop n buf.

Lemma painted_0 g buf : painted g buf 0 = buf.
Proof. done. Qed.

Lemma length_painted g buf n : (n <= length buf)%nat -> length (painted g buf n) = length buf.
Proof. intros. unfold painted. rewrite length_app, length_map, length_seq, length_drop. lia. Qed.

Lemma store_painted g buf n v : (n < length buf)%nat -> v = g n ->
  store (painted g buf n) n v = Ret (painted g buf (S n)).
Proof.
  intros Hn ->. unfold store. rewrite decide_True by (rewrite length_painted; lia). f_equal.
  unfold painted. rewrite seq_S, map_app, insert_app_r_alt by (rewrite length_map, length_seq; lia).
  rewrite length_map, length_seq, Nat.sub_diag, <- app_assoc. f_equal.
  destruct (lookup_lt_is_Some_2 buf n Hn) as [x Hx].
  by rewrite (drop_S _ _ _ Hx).
Qed.

(** A raster scan whose body paints the next [k] bytes paints the whole image. *)
Lemma raster (g : nat -> Z) (buf : list Z) (k w h : nat) (body : nat -> nat -> list Z -> exec (list Z)) :
  (h * (k * w) <= length buf)%nat ->
  (forall x y, (x < w)%nat -> (y < h)%nat ->
     body y x (painted g buf (y * (k * w) + k * x)) = Ret (painted g buf (y * (k * w) + k * x + k))) ->
  for_each (List.seq 0 h) (fun y => for_each (List.seq 0 w) (body y)) buf
    = Ret (painted g buf (h * (k * w))).
Proof.
  intros Hlen Hbody.
  destruct (for_each_inv (fun y b => b = painted g buf (y * (k * w)))
    (fun y => for_each (List.seq 0 w) (body y)) (List.seq 0 h) buf 0) as (b & E & ->); [done| |].
  - intros j y b Hj ->. apply lookup_seq in Hj as [-> Hj]. simpl.
    destruct (for_each_inv (fun x b => b = painted g buf (j * (k * w) + k * x)) (body j) (List.seq 0 w)
      (painted g buf (j * (k * w))) 0) as (b & E & ->); [f_equal; lia| |].
    + intros i x b Hi ->. apply lookup_seq in Hi as [-> Hi]. simpl. rewrite Hbody by done.
      eexists. split; [done|]. f_equal. lia.
    + eexists. split; [exact E|]. rewrite length_seq. simpl. f_equal. lia.
  - rewrite E, length_seq. done.
Qed.

Lemma luma_scan w h buf : (h * w <= length buf)%nat ->
  for_each (List.seq 0 h) (fun y => for_each (List.seq 0 w) (fun x b =>
    store b (y * w + x) (Z.of_nat (x + y) mod 256))) buf = Ret (painted (luma_at w) buf (h * w)).
Proof.
  intros Hlen. replace (h * w)%nat with (h * (1 * w))%nat by lia.
  apply (raster (luma_at w) buf 1 w h (fun y x b => store b (y * w + x) (Z.of_nat (x + y) mod 256)));
    [lia|]. intros x y Hx Hy. rewrite !Nat.mul_1_l, Nat.add_1_r. apply store_painted; [nia|].
  unfold luma_at. rewrite (Nat.add_comm _ x), Nat.Div0.mod_add, Nat.mod_small, Nat.div_add, Nat.div_small; try lia.
  f_equal.
Qed.

Lemma rgb_at_cell w x y c : (x < w)%nat -> (c < 3)%nat ->
  let i := (y * (3 * w) + 3 * x + c)%nat in
  (i mod (3 * w) / 3 = x)%nat /\ (i / (3 * w) = y)%nat /\ (i mod 3 = c)%nat.
Proof.
  intros Hx Hc i. unfold i. split_and!.
  - replace (y * (3 * w) + 3 * x + c)%nat with (3 * x + c + y * (3 * w))%nat by lia.
    rewrite Nat.Div0.mod_add, Nat.mod_small by lia. rewrite Nat.mul_comm, Nat.div_add_l, Nat.div_small; lia.
  - rewrite <- Nat.add_assoc, Nat.div_add_l, Nat.div_small; lia.
  - replace (y * (3 * w) + 3 * x + c)%nat with (c + (y * w + x) * 3)%nat by lia.
    rewrite Nat.Div0.mod_add, Nat.mod_small; lia.
Qed.

Lemma paint_spec c buf : 0 <= tp_width c -> 0 <= tp_height c ->
  let w := Z.to_nat (tp_width c) in
  let h := Z.to_nat (tp_height c) in
  (h * (match tp_format c with Rgb888 => 3 | _ => 1 end * w) <= length buf)%nat ->
  paint c buf = Ret (match tp_format c with
    | GrayY8 => painted (luma_at w) buf (h * w)
    | Rgb888 => painted (rgb_at w) buf (h * (3 * w))
    | Nv12 => map (luma_at w) (List.seq 0 (h * w)) ++ replicate (length buf - h * w) 128
    end).
Proof.
  intros Hw Hh w h Hlen. unfold paint. fold w h. destruct (tp_format c).
  - apply luma_scan. lia.
  - rewrite (raster (rgb_at w) buf 3 w h); [done|done|]. intros x y Hx Hy.
    pose proof (fun c => rgb_at_cell w x y c Hx) as Hcell.
    assert (Hin : (y * (3 * w) + 3 * x + 3 <= h * (3 * w))%nat) by nia.
    replace (x * 3)%nat with (3 * x)%nat by lia. set (i := (y * (3 * w) + 3 * x)%nat) in *.
    assert (Hg : forall c, (c < 3)%nat -> rgb_at w (i + c) =
      match c with 0%nat => Z.of_nat x mod 256 | 1%nat => Z.of_nat y mod 256 | _ => Z.of_nat (x + y) mod 256 end).
    { intros c' Hc'. unfold rgb_at. destruct (Hcell c' Hc') as (-> & -> & ->). done. }
    pose proof (Hg 0%nat ltac:(lia)) as G0. pose proof (Hg 1%nat ltac:(lia)) as G1.
    pose proof (Hg 2%nat ltac:(lia)) as G2. rewrite Nat.add_0_r in G0.
    replace (i + 1)%nat with (S i) in * by lia. replace (i + 2)%nat with (S (S i)) in * by lia.
    replace (i + 3)%nat with (S (S (S i))) in * by lia.
    rewrite (store_painted _ _ i), ret_bind by (done || lia).
    rewrite (store_painted _ _ (S i)), ret_bind by (done || lia).
    apply store_painted; [lia|done].
  - rewrite luma_scan by lia. rewrite ret_bind, length_painted by lia.
    rewrite decide_True by lia. rewrite Nat.mul_comm. do 2 f_equal. unfold painted.
    apply take_app_length'. by rewrite length_map, length_seq.
Qed.

Lemma min_buffer_exact f w h : 0 <= w -> 0 <= h -> 3 * w * h < 2 ^ 64 ->
  min_buffer_len f w h = match f with GrayY8 => w * h | Rgb888 => 3 * w * h | Nv12 => w * h * 3 / 2 end.
Proof.
  intros Hw Hh Hf. assert (0 <= w * h) by nia.
  assert (w <= 3 * w * h \/ h = 0) by nia.
  destruct f; unfold min_buffer_len, wmul, bytes_per_pixel.
  - rewrite Z.mul_1_l. destruct (decide (h = 0)) as [->|]; [by rewrite !Z.mul_0_r|].
    rewrite (wrap_id 64 w), wrap_id; unfold uint; nia.
  - destruct (decide (h = 0)) as [->|]; [by rewrite !Z.mul_0_r|].
    rewrite (wrap_id 64 (3 * w)), wrap_id; unfold uint; nia.
  - rewrite (wrap_id 64 (w * h)), wrap_id; [done|unfold uint; lia..].
Qed.

(** A grab with a large enough buffer never fails: it paints the gradient,
    leaves bytes beyond the picture of a packed format alone, and stamps the
    frame with the next sequence number. *)
Lemma grab_spec c buf meta : 0 <= tp_width c < 2 ^ 32 -> 0 <= tp_height c ->
  3 * tp_width c * tp_height c < 2 ^ 64 ->
  min_buffer_len (tp_format c) (tp_width c) (tp_height c) <= Z.of_nat (length buf) ->
  exists c' buf', pattern_grab c buf meta = Ret (c', buf',
      new_meta (wadd 64 (tp_seq c) 1) (wadd 64 (start_ns c) (wmul 64 (wadd 64 (tp_seq c) 1) 33333333))
        (tp_width c) (tp_height c) (tp_format c), Ok tt) /\
    paint c buf = Ret buf' /\ length buf' = length buf /\ tp_seq c' = wadd 64 (tp_seq c) 1.
Proof.
  intros Hw Hh Hf Hb. unfold pattern_grab.
  rewrite (proj2 (Z.ltb_ge _ _)) by lia. rewrite min_buffer_exact in Hb by lia.
  assert (Hlen : (Z.to_nat (tp_height c) * (match tp_format c with Rgb888 => 3 | _ => 1 end * Z.to_nat (tp_width c))
                  <= length buf)%nat).
  { apply Nat2Z.inj_le. rewrite !Nat2Z.inj_mul, !Z2Nat.id by lia.
    assert (0 <= tp_width c * tp_height c) by nia. destruct (tp_format c); [lia|lia|].
    enough (tp_width c * tp_height c <= tp_width c * tp_height c * 3 / 2) by lia.
    apply Z.div_le_lower_bound; lia. }
  rewrite (paint_spec c buf) by lia. rewrite ret_bind. do 2 eexists. split_and!; [done|done| |done].
  destruct (tp_format c).
  - apply length_painted. lia.
  - apply length_painted. lia.
  - rewrite length_app, length_map, length_seq, length_replicate. lia.
Qed.

End Capture.
