(* ===== verification/BurnIn.v ===== *)
(** * Telemetry burn-in: [tpt-t-media/src/burnin.rs]

    The telemetry line rasterized into a frame with the built-in 5x7 font, before
    the encoder sees it.  [lit] is the reference picture; [burn_in_exact] shows
    that the drawing loops produce exactly that picture. *)

From stdpp Require Import strings.
From S2P Require Import Prelude Float Text Ser Media.
Import Frames.

Definition GLYPH_W : Z := 5.
Definition GLYPH_H : Z := 7.
Definition GLYPH_ADVANCE : Z := GLYPH_W + 1.

(** character code and seven rows, bit 4 the leftmost column *)
Definition GLYPHS : list (Z * list Z) :=
  [(32, [0; 0; 0; 0; 0; 0; 0]);
   (48, [0x0E; 0x11; 0x13; 0x15; 0x19; 0x11; 0x0E]);
   (49, [0x04; 0x0C; 0x04; 0x04; 0x04; 0x04; 0x0E]);
   (50, [0x0E; 0x11; 0x01; 0x02; 0x04; 0x08; 0x1F]);
   (51, [0x1F; 0x02; 0x04; 0x02; 0x01; 0x11; 0x0E]);
   (52, [0x02; 0x06; 0x0A; 0x12; 0x1F; 0x02; 0x02]);
   (53, [0x1F; 0x10; 0x1E; 0x01; 0x01; 0x11; 0x0E]);
   (54, [0x06; 0x08; 0x10; 0x1E; 0x11; 0x11; 0x0E]);
   (55, [0x1F; 0x01; 0x02; 0x04; 0x08; 0x08; 0x08]);
   (56, [0x0E; 0x11; 0x11; 0x0E; 0x11; 0x11; 0x0E]);
   (57, [0x0E; 0x11; 0x11; 0x0F; 0x01; 0x02; 0x0C]);
   (65, [0x0E; 0x11; 0x11; 0x1F; 0x11; 0x11; 0x11]);
   (66, [0x1E; 0x11; 0x11; 0x1E; 0x11; 0x11; 0x1E]);
   (67, [0x0E; 0x11; 0x10; 0x10; 0x10; 0x11; 0x0E]);
   (68, [0x1E; 0x11; 0x11; 0x11; 0x11; 0x11; 0x1E]);
   (69, [0x1F; 0x10; 0x10; 0x1E; 0x10; 0x10; 0x1F]);
   (70, [0x1F; 0x10; 0x10; 0x1E; 0x10; 0x10; 0x10]);
   (71, [0x0E; 0x11; 0x10; 0x17; 0x11; 0x11; 0x0F]);
   (72, [0x11; 0x11; 0x11; 0x1F; 0x11; 0x11; 0x11]);
   (73, [0x0E; 0x04; 0x04; 0x04; 0x04; 0x04; 0x0E]);
   (74, [0x07; 0x02; 0x02; 0x02; 0x02; 0x12; 0x0C]);
   (75, [0x11; 0x12; 0x14; 0x18; 0x14; 0x12; 0x11]);
   (76, [0x10; 0x10; 0x10; 0x10; 0x10; 0x10; 0x1F]);
   (77, [0x11; 0x1B; 0x15; 0x15; 0x11; 0x11; 0x11]);
   (78, [0x11; 0x19; 0x15; 0x13; 0x11; 0x11; 0x11]);
   (79, [0x0E; 0x11; 0x11; 0x11; 0x11; 0x11; 0x0E]);
   (80, [0x1E; 0x11; 0x11; 0x1E; 0x10; 0x10; 0x10]);
   (81, [0x0E; 0x11; 0x11; 0x11; 0x15; 0x12; 0x0D]);
   (82, [0x1E; 0x11; 0x11; 0x1E; 0x14; 0x12; 0x11]);
   (83, [0x0F; 0x10; 0x10; 0x0E; 0x01; 0x01; 0x1E]);
   (84, [0x1F; 0x04; 0x04; 0x04; 0x04; 0x04; 0x04]);
   (85, [0x11; 0x11; 0x11; 0x11; 0x11; 0x11; 0x0E]);
   (86, [0x11; 0x11; 0x11; 0x11; 0x11; 0x0A; 0x04]);
   (87, [0x11; 0x11; 0x11; 0x15; 0x15; 0x1B; 0x11]);
   (88, [0x11; 0x11; 0x0A; 0x04; 0x0A; 0x11; 0x11]);
   (89, [0x11; 0x11; 0x0A; 0x04; 0x04; 0x04; 0x04]);
   (90, [0x1F; 0x01; 0x02; 0x04; 0x08; 0x10; 0x1F]);
   (58, [0x04; 0x04; 0x00; 0x04; 0x04; 0x00; 0x04]);
   (46, [0x00; 0x00; 0x00; 0x00; 0x00; 0x0C; 0x0C]);
   (45, [0x00; 0x00; 0x00; 0x1F; 0x00; 0x00; 0x00]);
   (37, [0x19; 0x1A; 0x04; 0x0B; 0x13; 0x00; 0x00]);
   (47, [0x01; 0x02; 0x02; 0x04; 0x08; 0x08; 0x10]);
   (44, [0x00; 0x00; 0x00; 0x00; 0x0C; 0x0C; 0x04])].

Definition glyph (ch : Z) : option (list Z) :=
  snd <$> List.find (fun p => p.1 =? ch) GLYPHS.

(** [i32] addition *)
Definition iadd (a b : Z) : Z := to_signed 32 (wrap 32 (a + b)).

Definition set_pixel (frame : list Z) (meta : FrameMeta) (x y shade : Z) : exec (list Z) :=
  let w := to_signed 32 (width meta) in
  let h := to_signed 32 (height meta) in
  if (x <? 0) || (y <? 0) || (w <=? x) || (h <=? y) then Ret frame
  else
    let row := wmul 64 y (stride meta) in
    match pixfmt meta with
    | GrayY8 | Nv12 => store frame (Z.to_nat (wadd 64 row x)) shade
    | Rgb888 => copy_from_slice frame (Z.to_nat (wadd 64 row (x * 3))) [shade; shade; shade]
    end.

Definition draw_glyph (frame : list Z) (meta : FrameMeta) (ch x y shade : Z) : exec (list Z * Z) :=
  frame ← match glyph ch with
          | None => Ret frame
          | Some g =>
              for_each (imap (fun r bits => (Z.of_nat r, bits)) g) (fun '(row, bits) =>
                for_each (seqZ 0 GLYPH_W) (fun col frame =>
                  if Z.land (Z.shiftr bits (4 - col)) 1 =? 0 then Ret frame
                  else set_pixel frame meta (iadd x col) (iadd y row) shade)) frame
          end;
  Ret (frame, GLYPH_ADVANCE).

Fixpoint burn_in_text (frame : list Z) (meta : FrameMeta) (text : list Z) (cx y shade : Z)
  : exec (list Z) :=
  match text with
  | [] => Ret frame
  | b :: text =>
      '(frame, advance) ← draw_glyph frame meta b cx y shade;
      let cx := iadd cx advance in
      if to_signed 32 (width meta) <? cx then Ret frame
      else burn_in_text frame meta text cx y shade
  end.

(** *** What the text covers

    A reference picture: pixel [(px, py)] is lit when some character has the bit
    of its glyph there, the characters standing six pixels apart from [(x, y)]. *)

Definition glyph_bit (ch col row : Z) : bool :=
  (0 <=? col) && (col <? GLYPH_W) && (0 <=? row) &&
  match g ← glyph ch; g !! Z.to_nat row with
  | Some bits => negb (Z.land (Z.shiftr bits (4 - col)) 1 =? 0)
  | None => false
  end.

Fixpoint lit (text : list Z) (x y px py : Z) : bool :=
  match text with
  | [] => false
  | ch :: text => glyph_bit ch (px - x) (py - y) || lit text (x + GLYPH_ADVANCE) y px py
  end.

(** bytes per pixel of the plane drawn to *)
Definition cell (meta : FrameMeta) : Z := match pixfmt meta with Rgb888 => 3 | _ => 1 end.

(** the pixel the byte at offset [i] belongs to *)
Definition pixel_of (meta : FrameMeta) (i : nat) : option (Z * Z) :=
  let x := Z.of_nat i mod stride meta / cell meta in
  let y := Z.of_nat i / stride meta in
  if (x <? width meta) && (y <? height meta) then Some (x, y) else None.

Definition meta_ok (meta : FrameMeta) (frame : list Z) : Prop :=
  0 <= width meta < 2 ^ 31 /\ 0 <= height meta < 2 ^ 31 /\
  cell meta * width meta <= stride meta < 2 ^ 32 /\
  stride meta * height meta <= Z.of_nat (length frame).

Section Burn.
Context (meta : FrameMeta) (shade : Z) (frame : list Z) (Hok : meta_ok meta frame).

(** [b] is [frame] with the bytes in [P] set to the shade *)
Definition burnt (P : nat -> bool) (b : list Z) : Prop :=
  length b = length frame /\
  forall i, b !! i = if P i then (fun _ => shade) <$> frame !! i else frame !! i.

Lemma burnt_ext P Q b : (forall i, P i = Q i) -> burnt P b -> burnt Q b.
Proof. intros He [Hl Hb]. split; [done|]. intros i. by rewrite <- He. Qed.

Definition hit (x y : Z) (i : nat) : bool := bool_decide (pixel_of meta i = Some (x, y)).

Lemma cell_cases : cell meta = 1 \/ cell meta = 3.
Proof. unfold cell. destruct (pixfmt meta); auto. Qed.

Lemma to_signed_small z : 0 <= z < 2 ^ 31 -> to_signed 32 z = z.
Proof. intros. unfold to_signed. rewrite (proj2 (Z.ltb_lt _ _)) by (change (32 - 1) with 31; lia). done. Qed.

(** the bytes of an in-range pixel *)
Lemma hit_spec x y i : 0 <= x < width meta -> 0 <= y < height meta ->
  let k := y * stride meta + x * cell meta in
  hit x y i = true <-> k <= Z.of_nat i < k + cell meta.
Proof.
  destruct Hok as (Hw & Hh & Hs & Hl). intros Hx Hy k. unfold hit, pixel_of. rewrite bool_decide_eq_true.
  assert (Hst : 0 < stride meta) by (destruct cell_cases; nia).
  pose proof (Z.div_mod (Z.of_nat i) (stride meta)) as Hd.
  pose proof (Z.mod_pos_bound (Z.of_nat i) (stride meta)) as Hm.
  set (q := Z.of_nat i / stride meta) in *. set (r := Z.of_nat i mod stride meta) in *.
  split.
  - destruct (_ && _) eqn:E; [|done]. intros [= Ex Ey]. subst k. unfold cell in *.
    destruct (pixfmt meta); Z.to_euclidean_division_equations; nia.
  - intros Hi. assert (q = y /\ r = Z.of_nat i - y * stride meta) as [-> Hr].
    { assert (x * cell meta + cell meta <= stride meta) by nia.
      assert (q = y) by (subst k; nia). split; nia. }
    assert (r / cell meta = x) as ->.
    { symmetry. apply (Z.div_unique_pos r (cell meta) x (r - x * cell meta)); subst k; lia. }
    by rewrite !(proj2 (Z.ltb_lt _ _)) by lia.
Qed.

Lemma hit_out x y i : ~ (0 <= x < width meta /\ 0 <= y < height meta) -> hit x y i = false.
Proof.
  destruct Hok as (Hw & Hh & Hs & Hl). intros Hn. apply bool_decide_eq_false. unfold pixel_of.
  destruct (_ && _) eqn:E; [|done]. intros [= Ex Ey]. zbool. apply Hn.
  assert (0 <= stride meta) by (destruct cell_cases; nia).
  split; split; try lia; subst.
  - apply Z.div_pos; [|destruct cell_cases; lia]. destruct (decide (stride meta = 0)) as [->|].
    + rewrite Zmod_0_r. lia.
    + apply Z.mod_pos_bound. lia.
  - destruct (decide (stride meta = 0)) as [->|]; [by rewrite Zdiv_0_r|].
    apply Z.div_pos; lia.
Qed.

Lemma set_pixel_burnt P b x y : burnt P b ->
  exists b', set_pixel b meta x y shade = Ret b' /\ burnt (fun i => P i || hit x y i) b'.
Proof.
  intros Hb. pose proof Hok as (Hw & Hh & Hs & Hl). unfold set_pixel. rewrite !to_signed_small by done.
  destruct (_ || _) eqn:E.
  - exists b. split; [done|]. eapply burnt_ext; [|exact Hb]. intros i. rewrite hit_out; [by rewrite orb_false_r|].
    intros [Hx Hy]. zbool. rewrite !orb_true_iff, !Z.ltb_lt, !Z.leb_le in E. lia.
  - zbool. assert (Hx : 0 <= x < width meta) by lia. assert (Hy : 0 <= y < height meta) by lia.
    pose proof (fun i => hit_spec x y i Hx Hy) as Hhit. cbv zeta in Hhit.
    assert (Hk : 0 <= y * stride meta + x * cell meta /\
                 y * stride meta + x * cell meta + cell meta <= stride meta * height meta).
    { destruct cell_cases; nia. }
    set (k := y * stride meta + x * cell meta) in *. destruct Hb as [Hlen Hb].
    assert (Hrow0 : 0 <= y * stride meta <= 2 ^ 31 * 2 ^ 32)
      by (split; [|apply Z.mul_le_mono_nonneg]; destruct cell_cases; nia).
    assert (Hxc : 0 <= x * cell meta < 2 ^ 32) by (destruct cell_cases; nia).
    assert (Hrow : 0 <= y * stride meta < 2 ^ 64) by lia.
    unfold wmul. rewrite (wrap_id 64 (y * stride meta)) by done.
    assert (Hk64 : k < 2 ^ 64) by lia.
    assert (Hstep : forall b', length b' = length b ->
      (forall i, b' !! i = if decide (k <= Z.of_nat i < k + cell meta) then Some shade else b !! i) ->
      burnt (fun i => P i || hit x y i) b').
    { intros b' Hl' Hb'. split; [congruence|]. intros i. rewrite Hb'. specialize (Hhit i).
      destruct (decide _) as [Hin|Hin].
      - rewrite (proj2 Hhit Hin), orb_true_r.
        destruct (lookup_lt_is_Some_2 frame i) as [v ->]; [lia|done].
      - destruct (hit x y i); [tauto|]. by rewrite orb_false_r, Hb. }
    unfold cell in *. destruct (pixfmt meta); unfold wadd; rewrite wrap_id by (unfold uint; lia).
    1, 3: unfold store; rewrite decide_True by lia; eexists; split; [done|]; apply Hstep;
      [apply length_insert|]; intros i; destruct (decide (k <= Z.of_nat i < k + 1)) as [Hin|Hin];
      [replace (Z.to_nat (y * stride meta + x)) with i by lia; apply list_lookup_insert_eq; lia
      |apply list_lookup_insert_ne; lia].
    change (y * stride meta + x * 3) with k. unfold copy_from_slice.
    rewrite decide_True by (simpl; lia). eexists; split; [done|]. apply Hstep; [apply length_splice; simpl; lia|].
    intros i. unfold splice. destruct (decide _) as [Hin|Hin].
    + rewrite lookup_app_r by (rewrite length_take; lia). rewrite lookup_app_l by (rewrite length_take; simpl; lia).
      rewrite length_take. replace (i - _)%nat with (Z.to_nat (Z.of_nat i - k)) by lia.
      assert (Hc : Z.of_nat i - k = 0 \/ Z.of_nat i - k = 1 \/ Z.of_nat i - k = 2) by lia.
      by destruct Hc as [->|[->| ->]].
    + destruct (decide (Z.of_nat i < k)).
      * rewrite lookup_app_l by (rewrite length_take; lia). apply lookup_take_lt. lia.
      * rewrite !lookup_app_r by (rewrite ?length_take; simpl; lia). rewrite lookup_drop, length_take.
        f_equal. simpl. lia.
Qed.

Lemma iadd_small a b : - 2 ^ 31 <= a + b < 2 ^ 31 -> iadd a b = a + b.
Proof.
  intros H. unfold iadd, to_signed, wrap. change (2 ^ (32 - 1)) with (2 ^ 31).
  destruct (Z.ltb_spec ((a + b) mod 2 ^ 32) (2 ^ 31)); Z.to_euclidean_division_equations; lia.
Qed.

Section Glyph.
Context (P : nat -> bool) (ch x y : Z) (Hx : - 2 ^ 31 <= x < 2 ^ 31 - 6) (Hy : - 2 ^ 31 <= y < 2 ^ 31 - 8).

(** painted after [r] rows and [j] columns of the next one *)
Definition upto (r j : Z) (i : nat) : bool :=
  P i || match pixel_of meta i with
         | Some (px, py) => glyph_bit ch (px - x) (py - y) &&
             ((py - y <? r) || ((py - y =? r) && (px - x <? j)))
         | None => false
         end.

Lemma upto_next r j i : upto r (j + 1) i =
  upto r j i || (hit (x + j) (y + r) i && glyph_bit ch j r).
Proof.
  unfold upto, hit. destruct (P i); [done|]. destruct (pixel_of meta i) as [[px py]|]; simpl.
  - destruct (decide (px = x + j /\ py = y + r)) as [[-> ->]|Hn].
    + rewrite bool_decide_true by done. replace (x + j - x) with j by lia. replace (y + r - y) with r by lia.
      rewrite (proj2 (Z.ltb_lt j (j + 1))), !Z.eqb_refl, (proj2 (Z.ltb_ge r r)), (proj2 (Z.ltb_ge j j)) by lia.
      by destruct (glyph_bit ch j r).
    + rewrite bool_decide_false by (intros [= -> ->]; tauto). rewrite orb_false_r. f_equal. f_equal.
      destruct (Z.eqb_spec (py - y) r); [|done]. simpl. apply eq_bool_prop_intro.
      rewrite !Is_true_true, !Z.ltb_lt. lia.
  - done.
Qed.

Lemma upto_row r i : upto r 5 i = upto (r + 1) 0 i.
Proof.
  unfold upto. destruct (pixel_of meta i) as [[px py]|]; [|done]. f_equal.
  destruct (glyph_bit ch (px - x) (py - y)) eqn:E; [|done]. simpl.
  unfold glyph_bit, GLYPH_W in E. rewrite !andb_true_iff, !Z.leb_le, !Z.ltb_lt in E. destruct E as [[[? ?] ?] _].
  apply eq_bool_prop_intro. rewrite !Is_true_true, !orb_true_iff, !andb_true_iff, !Z.ltb_lt, !Z.eqb_eq. lia.
Qed.

Lemma glyph_rows g : glyph ch = Some g -> length g = 7%nat.
Proof.
  intros H. assert (Hall : forallb (fun p => (length p.2 =? 7)%nat) GLYPHS = true) by reflexivity.
  unfold glyph in H. destruct (List.find _ GLYPHS) as [p|] eqn:E; [|done]. injection H as <-.
  apply List.find_some in E as [Hin _]. rewrite forallb_forall in Hall. apply Nat.eqb_eq. auto.
Qed.

Lemma draw_glyph_burnt b : burnt P b ->
  exists b', draw_glyph b meta ch x y shade = Ret (b', GLYPH_ADVANCE) /\
    burnt (fun i => P i || match pixel_of meta i with
                           | Some (px, py) => glyph_bit ch (px - x) (py - y) | None => false end) b'.
Proof.
  intros Hb. unfold draw_glyph. destruct (glyph ch) as [g|] eqn:Eg.
  - pose proof (glyph_rows g Eg) as Hg.
    destruct (for_each_inv (fun r b => burnt (upto (Z.of_nat r) 0) b)
      (fun '(row, bits) => for_each (seqZ 0 GLYPH_W) (fun col frame =>
         if Z.land (Z.shiftr bits (4 - col)) 1 =? 0 then Ret frame
         else set_pixel frame meta (iadd x col) (iadd y row) shade))
      (imap (fun r bits => (Z.of_nat r, bits)) g) b 0) as (b' & E & Hb').
    + eapply burnt_ext; [|exact Hb]. intros i. unfold upto. destruct (pixel_of meta i) as [[px py]|]; [|by rewrite orb_false_r].
      destruct (glyph_bit ch (px - x) (py - y)) eqn:E; simpl; [|by rewrite orb_false_r].
      unfold glyph_bit in E. rewrite !andb_true_iff, !Z.leb_le in E.
      rewrite !(proj2 (Z.ltb_ge _ _)) by lia. by rewrite andb_false_r, orb_false_r.
    + intros r [row bits] b1 Hr Hb1. rewrite list_lookup_imap in Hr.
      destruct (g !! r) as [bits'|] eqn:Hbits; [|done]. injection Hr as <- <-.
      pose proof (lookup_lt_Some _ _ _ Hbits) as Hrl.
      destruct (for_each_inv (fun j b => burnt (upto (Z.of_nat r) (Z.of_nat j)) b)
        (fun col frame => if Z.land (Z.shiftr bits' (4 - col)) 1 =? 0 then Ret frame
           else set_pixel frame meta (iadd x col) (iadd y (Z.of_nat r)) shade)
        (seqZ 0 GLYPH_W) b1 0) as (b2 & E2 & Hb2); [exact Hb1| |].
      * intros j col b2 Hj Hb2. apply lookup_seqZ in Hj as [-> Hj]. unfold GLYPH_W in Hj. simpl in Hb2 |- *.
        rewrite Z.add_0_l. rewrite !iadd_small by lia.
        assert (Hbit : glyph_bit ch (Z.of_nat j) (Z.of_nat r) =
                       negb (Z.land (Z.shiftr bits' (4 - Z.of_nat j)) 1 =? 0)).
        { unfold glyph_bit, GLYPH_W. rewrite Eg. simpl. rewrite Nat2Z.id, Hbits.
          by rewrite !(proj2 (Z.leb_le _ _)), (proj2 (Z.ltb_lt _ _)) by lia. }
        destruct (_ =? 0).
        -- exists b2. split; [done|]. eapply burnt_ext; [|exact Hb2]. intros i.
           rewrite Nat2Z.inj_succ, <- Z.add_1_r, upto_next, Hbit. by rewrite andb_false_r, orb_false_r.
        -- destruct (set_pixel_burnt _ _ (x + Z.of_nat j) (y + Z.of_nat r) Hb2) as (b3 & E3 & Hb3).
           exists b3. split; [done|]. eapply burnt_ext; [|exact Hb3]. intros i.
           by rewrite Nat2Z.inj_succ, <- Z.add_1_r, upto_next, Hbit, andb_true_r.
      * exists b2. split; [exact E2|]. rewrite length_seqZ in Hb2. simpl in Hb2.
        eapply burnt_ext; [|exact Hb2]. intros i. change (Z.of_nat (Pos.to_nat 5)) with 5.
        by rewrite upto_row, Nat2Z.inj_succ, <- Z.add_1_r.
    + rewrite E, ret_bind. exists b'. split; [done|]. rewrite length_imap, Hg in Hb'. simpl in Hb'.
      eapply burnt_ext; [|exact Hb']. intros i. unfold upto. destruct (pixel_of meta i) as [[px py]|]; [|done].
      f_equal. destruct (glyph_bit ch (px - x) (py - y)) eqn:E'; [|done].
      unfold glyph_bit in E'. rewrite !andb_true_iff, Eg, !Z.leb_le in E'. destruct E' as [[_ Hr0] E'].
      simpl in E'. destruct (g !! _) as [bits|] eqn:Hl; [|done]. apply lookup_lt_Some in Hl.
      by rewrite (proj2 (Z.ltb_lt _ _)) by lia.
  - exists b. split; [done|]. eapply burnt_ext; [|exact Hb]. intros i.
    destruct (pixel_of meta i) as [[px py]|]; [|by rewrite orb_false_r].
    unfold glyph_bit. rewrite Eg. simpl. by rewrite andb_false_r, orb_false_r.
Qed.
End Glyph.

(** nothing left of the glyphs is lit *)
Lemma lit_left text cx y px py : px < cx -> lit text cx y px py = false.
Proof.
  revert cx. induction text as [|ch text IH]; intros cx Hp; [done|]. simpl.
  rewrite IH by (unfold GLYPH_ADVANCE, GLYPH_W; lia).
  unfold glyph_bit. by rewrite (proj2 (Z.leb_gt 0 (px - cx))) by lia.
Qed.

Definition lit_byte (text : list Z) (x y : Z) (i : nat) : bool :=
  match pixel_of meta i with Some (px, py) => lit text x y px py | None => false end.

Lemma burn_text_burnt text P b x y : - 2 ^ 31 <= x -> - 2 ^ 31 <= y < 2 ^ 31 - 8 ->
  x + 6 * Z.of_nat (length text) < 2 ^ 31 - 6 -> burnt P b ->
  exists b', burn_in_text b meta text x y shade = Ret b' /\ burnt (fun i => P i || lit_byte text x y i) b'.
Proof.
  intros Hx Hy. revert P b x Hx. induction text as [|ch text IH]; intros P b x Hx Hlen Hb; simpl.
  - exists b. split; [done|]. eapply burnt_ext; [|exact Hb]. intros i. unfold lit_byte.
    destruct (pixel_of meta i) as [[px py]|]; by rewrite orb_false_r.
  - simpl length in Hlen. destruct (draw_glyph_burnt P ch x y ltac:(lia) Hy b Hb) as (b1 & E1 & Hb1).
    rewrite E1, ret_bind. change GLYPH_ADVANCE with 6 in *. rewrite iadd_small by lia.
    destruct Hok as (Hw & _). rewrite to_signed_small by done.
    destruct (Z.ltb_spec (width meta) (x + 6)).
    + exists b1. split; [done|]. eapply burnt_ext; [|exact Hb1]. intros i. unfold lit_byte. simpl.
      destruct (pixel_of meta i) as [[px py]|] eqn:Ep; [|done]. f_equal.
      change GLYPH_ADVANCE with 6. rewrite lit_left, orb_false_r; [done|]. unfold pixel_of in Ep.
      destruct (_ && _) eqn:Eb; [|done]. injection Ep as <- <-. zbool. lia.
    + destruct (IH _ b1 (x + 6) ltac:(lia) ltac:(lia) Hb1) as (b2 & E2 & Hb2). exists b2. split; [done|].
      eapply burnt_ext; [|exact Hb2]. intros i. unfold lit_byte. simpl.
      destruct (pixel_of meta i) as [[px py]|]; [by rewrite <- orb_assoc|by rewrite !orb_false_r].
Qed.

End Burn.

(** Rasterizing a line returns for every text and position: exactly the bytes of
    the visible pixels some glyph covers take the shade, every other byte of the
    frame keeps its value, and stopping at the right edge loses nothing. *)
Theorem burn_in_exact (frame : list Z) (meta : FrameMeta) (text : list Z) (x y shade : Z) :
  meta_ok meta frame -> - 2 ^ 31 <= x -> - 2 ^ 31 <= y < 2 ^ 31 - 8 ->
  x + 6 * Z.of_nat (length text) < 2 ^ 31 - 6 ->
  exists frame', burn_in_text frame meta text x y shade = Ret frame' /\
    length frame' = length frame /\
    forall i, frame' !! i = match pixel_of meta i with
                            | Some (px, py) => if lit text x y px py then (fun _ => shade) <$> frame !! i
                                               else frame !! i
                            | None => frame !! i
                            end.
Proof.
  intros Hok Hx Hy Hlen.
  destruct (burn_text_burnt meta shade frame Hok text (fun _ => false) frame x y Hx Hy Hlen) as (b & E & Hl & Hb);
    [by split|].
  exists b. split_and!; [done|done|]. intros i. rewrite Hb. unfold lit_byte. simpl.
  by destruct (pixel_of meta i) as [[px py]|].
Qed.

Lemma burn_in_exact_witness :
  let meta := new_meta 0 0 20 12 Rgb888 in
  meta_ok meta (replicate 720 0) /\
  exists f, burn_in_text (replicate 720 0) meta [65; 49] 2 2 255 = Ret f /\ length f = 720%nat /\
    f !! 129%nat = Some 255 /\ f !! 130%nat = Some 255 /\ f !! 126%nat = Some 0.
Proof.
  assert (Hok : meta_ok (new_meta 0 0 20 12 Rgb888) (replicate 720 0)).
  { unfold meta_ok. rewrite length_replicate. vm_compute. intuition congruence. }
  split; [exact Hok|].
  destruct (burn_in_exact (replicate 720 0) (new_meta 0 0 20 12 Rgb888) [65; 49] 2 2 255 Hok)
    as (f & E & Hl & Hf); [vm_compute; congruence| |vm_compute; congruence|].
  - vm_compute. intuition congruence.
  - exists f. split; [exact E|]. split; [exact Hl|]. rewrite !Hf. vm_compute. repeat split.
Defined.

(** *** The telemetry line *)

(** [num / den] rounded to the nearest integer, ties to even *)
Definition div_even (num den : Z) : Z :=
  let q := num / den in
  let r := num mod den in
  if 2 * r <? den then q else if den <? 2 * r then q + 1 else if Z.even q then q else q + 1.

(** [{:.1}]: one decimal of the exact value, correctly rounded *)
Definition fixed1 (v : f32) : list Z :=
  let sign (s : bool) := if s then [45] else [] in
  match v with
  | S754_nan => ascii_bytes "NaN"
  | S754_infinity s => sign s ++ ascii_bytes "inf"
  | S754_zero s => sign s ++ ascii_bytes "0.0"
  | S754_finite s m e =>
      let n := div_even (10 * Zpos m * 2 ^ Z.max e 0) (2 ^ Z.max (- e) 0) in
      sign s ++ dec (n / 10) ++ 46 :: dec (n mod 10)
  end.

Record BufWriter := { buf : list Z; len : nat }.
Definition new_writer : BufWriter := {| buf := replicate 128 0; len := 0 |}.

Definition as_str (w : BufWriter) : exec (list Z) :=
  s ← range (buf w) 0 (len w);
  Ret (if from_utf8 s then s else []).

Definition write_str (w : BufWriter) (s : list Z) : exec BufWriter :=
  let n := Nat.min (length s) (length (buf w) - len w) in
  b ← copy_from_slice (buf w) (len w) (take n s);
  Ret {| buf := b; len := len w + n |}.

Definition label (kind : Z) : list Z :=
  match Telemetry.from_u16 kind with
  | Some Battery => ascii_bytes "BAT "
  | Some Pose => ascii_bytes "POS "
  | Some Temperature => ascii_bytes "TMP "
  | _ => ascii_bytes "GEN "
  end.

Definition format_telemetry (pkt : Telemetry.TelemetryPacket) (out : BufWriter) : exec BufWriter :=
  out ← write_str out (label (Telemetry.tp_kind pkt));
  for_each (Telemetry.values pkt) (fun v out => write_str out (fixed1 (f32_of_bits v) ++ [32])) out.

Definition burn_in_telemetry (frame : list Z) (meta : FrameMeta) (pkt : Telemetry.TelemetryPacket)
    (shade : Z) : exec (list Z) :=
  buf ← format_telemetry pkt new_writer;
  text ← as_str buf;
  burn_in_text frame meta text 2 2 shade.

(** the whole line, and what the writer keeps of it *)
Definition line (pkt : Telemetry.TelemetryPacket) : list Z :=
  label (Telemetry.tp_kind pkt) ++ mjoin ((fun v => fixed1 (f32_of_bits v) ++ [32]) <$> Telemetry.values pkt).

Definition holds (w : BufWriter) (s : list Z) : Prop :=
  len w = Nat.min (length s) 128 /\ buf w = take 128 s ++ replicate (128 - length s) 0.

Lemma write_str_holds w s t : holds w s -> exists w', write_str w t = Ret w' /\ holds w' (s ++ t).
Proof.
  intros [Hl Hb]. unfold write_str.
  assert (Hlen : length (buf w) = 128%nat).
  { rewrite Hb, length_app, length_take, length_replicate. lia. }
  rewrite Hlen, Hl, Hb. set (n := Nat.min (length t) (128 - Nat.min (length s) 128)).
  rewrite (copy_zeros (take 128 s) (take n t)) by (rewrite ?length_take; lia).
  eexists. split; [reflexivity|]. split; cbn [len buf].
  - rewrite length_app. lia.
  - rewrite length_take, length_app. f_equal; [|f_equal; lia].
    rewrite take_app. f_equal. subst n. destruct (decide (length t <= 128 - length s)%nat).
    + rewrite !take_ge by lia. done.
    + f_equal. lia.
Qed.

Lemma ascii_check s : forallb (fun c => (0 <=? c) && (c <? 128)) s = true -> ascii s.
Proof.
  rewrite forallb_forall. intros H. apply Forall_forall. intros c Hc.
  specialize (H c). rewrite <- list_elem_of_In in H. specialize (H Hc). zbool. lia.
Qed.

Lemma fixed1_ascii v : ascii (fixed1 v).
Proof.
  assert (Hd : forall n, 0 <= n -> ascii (dec n)) by (intros n Hn; by apply digits_ascii, dec_spec).
  assert (Hs : forall s : bool, ascii (if s then [45] else [])) by (intros []; by apply ascii_check).
  unfold fixed1. destruct v as [s|s| |s m e].
  - apply Forall_app. split; [apply Hs|]. by apply ascii_check.
  - apply Forall_app. split; [apply Hs|]. by apply ascii_check.
  - by apply ascii_check.
  - apply Forall_app. split; [apply Hs|]. set (num := 10 * _ * _). set (den := 2 ^ _).
    assert (Hn : 0 <= div_even num den).
    { assert (0 <= num / den) by (apply Z.div_pos; subst num den; [|apply pow2_pos; lia];
        pose proof (pow2_pos (Z.max e 0)); lia).
      unfold div_even. repeat case_match; lia. }
    apply Forall_app. split; [apply Hd, Z.div_pos; lia|]. constructor; [lia|].
    apply Hd, Z.mod_pos_bound. lia.
Qed.

Lemma line_ascii pkt : ascii (line pkt).
Proof.
  unfold line. apply Forall_app. split.
  - unfold label. repeat case_match; by apply ascii_check.
  - apply Forall_join, Forall_fmap, Forall_forall. intros v _. apply Forall_app. split; [apply fixed1_ascii|].
    by apply ascii_check.
Qed.

Lemma write_each {A} (f : A -> list Z) vs w s : holds w s ->
  exists w', for_each vs (fun v out => write_str out (f v)) w = Ret w' /\ holds w' (s ++ mjoin (f <$> vs)).
Proof.
  intros Hw. destruct (for_each_inv (fun k w => holds w (s ++ mjoin (take k (f <$> vs))))
    (fun v out => write_str out (f v)) vs w 0) as (w' & E & H).
  - by rewrite app_nil_r.
  - intros j v u Hj Hu. destruct (write_str_holds _ _ (f v) Hu) as (u' & E & Hu'). exists u'. split; [done|].
    simpl. rewrite (take_S_r _ j (f v)) by (by rewrite list_lookup_fmap, Hj).
    rewrite join_app. simpl. by rewrite app_nil_r, app_assoc.
  - exists w'. split; [done|]. by rewrite Nat.add_0_l, take_ge in H by (rewrite length_fmap; lia).
Qed.

(** The drawn text is the first 128 bytes of the line. *)
Lemma format_spec pkt : exists w, format_telemetry pkt new_writer = Ret w /\
  as_str w = Ret (take 128 (line pkt)).
Proof.
  unfold format_telemetry.
  destruct (write_str_holds new_writer [] (label (Telemetry.tp_kind pkt))) as (w1 & E1 & H1); [done|].
  rewrite E1, ret_bind.
  destruct (write_each (fun v => fixed1 (f32_of_bits v) ++ [32]) (Telemetry.values pkt) w1 _ H1)
    as (w2 & E2 & H2).
  exists w2. split; [exact E2|]. change (holds w2 (line pkt)) in H2. destruct H2 as [Hl Hb]. unfold as_str, range.
  rewrite decide_True by (rewrite Hl, Hb, length_app, length_take, length_replicate; lia).
  rewrite ret_bind, drop_0, Hl, Hb. replace (Nat.min (length (line pkt)) 128) with (length (take 128 (line pkt)))
      by (rewrite length_take; lia).
  rewrite take_app_length, from_utf8_ascii; [done|]. apply Forall_take, line_ascii.
Qed.

(** Burning a telemetry packet in returns on every frame that matches its
    metadata, and draws the first 128 bytes of its line. *)
Theorem telemetry_burn_in_exact (frame : list Z) (meta : FrameMeta) (pkt : Telemetry.TelemetryPacket)
    (shade : Z) :
  meta_ok meta frame ->
  exists frame', burn_in_telemetry frame meta pkt shade = Ret frame' /\ length frame' = length frame /\
    forall i, frame' !! i = match pixel_of meta i with
                            | Some (px, py) => if lit (take 128 (line pkt)) 2 2 px py
                                               then (fun _ => shade) <$> frame !! i else frame !! i
                            | None => frame !! i
                            end.
Proof.
  intros Hok. unfold burn_in_telemetry. destruct (format_spec pkt) as (w & E & Es).
  rewrite E, ret_bind, Es, ret_bind.
  destruct (burn_text_burnt meta shade frame Hok (take 128 (line pkt)) (fun _ => false) frame 2 2)
    as (b & Eb & Hl & Hb); [lia|lia|rewrite length_take; lia|by split|].
  exists b. split_and!; [done|done|]. intros i. rewrite Hb. unfold lit_byte. simpl.
  by destruct (pixel_of meta i) as [[px py]|].
Qed.

(** The source's example of a battery line shows a percent sign; the code writes
    every value of the packet and no sign.  A reading that overflowed or is
    missing leaves the strip blank: the font has no lower-case letters. *)
Example battery_line :
  take 20 (line {| Telemetry.tp_magic := 0; Telemetry.tp_kind := 1; Telemetry.tp_reserved := 0;
    Telemetry.tp_seq := 0; Telemetry.tp_timestamp_ns := 0;
    Telemetry.values := 0x42AE0000 :: replicate 7 0 |}) = ascii_bytes "BAT 87.0 0.0 0.0 0.0".
Proof. vm_compute. reflexivity. Qed.

Example infinity_invisible : forall x y px py,
  lit (fixed1 (f32_of_bits 0x7F800000)) x y px py = false.
Proof.
  intros. assert (H : forall c, c ∈ fixed1 (f32_of_bits 0x7F800000) -> glyph c = None).
  { intros c Hc. rewrite list_elem_of_In in Hc. vm_compute in Hc.
    by destruct Hc as [<-|[<-|[<-|[]]]]. }
  revert x H. induction (fixed1 _) as [|c t IH]; intros x H; [done|]. simpl.
  rewrite IH by (intros c' Hc'; apply H; by right). unfold glyph_bit. rewrite (H c) by by left.
  simpl. by rewrite andb_false_r.
Qed.
