(* ===== verification/CoreProfile.v ===== *)
(** * Core-pinning profiles: [tpt-t-core/src/profile.rs], [affinity.rs], [tpt-t-cli/src/profile.rs]

    The configuration text that assigns latency-critical roles to CPU cores: its
    parser, the validation against a machine, the default text the command-line
    tool generates, and pinning the calling thread.  Text is a list of
    characters.  [str_debug] stands for the [Debug] escape of a string in error
    messages; the operating system's part of pinning is the class [PinOs]. *)

From stdpp Require Import strings gmap.
From S2P Require Import Prelude Text.

(** ** Roles *)

Inductive Role := Video | Control | Network | Input | Media | Storage | Spare.
#[export] Instance Role_eq_dec : EqDecision Role.
Proof. solve_decision. Defined.

Definition ALL : list Role := [Video; Control; Network; Input; Media; Storage; Spare].

Definition key (r : Role) : list Z :=
  match r with
  | Video => ascii_bytes "video"
  | Control => ascii_bytes "control"
  | Network => ascii_bytes "network"
  | Input => ascii_bytes "input"
  | Media => ascii_bytes "media"
  | Storage => ascii_bytes "storage"
  | Spare => ascii_bytes "spare"
  end.

Definition from_key (s : list Z) : option Role :=
  let lower := to_ascii_lowercase s in
  List.find (fun r => bool_decide (key r = lower)) ALL.

(** ** Errors *)

Inductive LineKind :=
| MissingEquals (raw : list Z)
| UnknownRole (key : list Z)
| BadCoreSpec (spec : list Z)
| DuplicateRole (key : list Z).

Record ProfileError := { lineno : Z; kind : LineKind }.

(** [{:?}] of a string: quoted; printable ASCII other than the quote and the
    backslash is not escaped *)
Definition plain (c : Z) : bool := (32 <=? c) && (c <? 127) && negb (c =? 34) && negb (c =? 92).
Class StrDebug := {
  str_debug : list Z -> list Z;
  str_debug_plain s : forallb plain s = true -> str_debug s = [34] ++ s ++ [34]
}.

Section Debug.
Context `{SD : StrDebug}.

Definition ProfileError_fmt (e : ProfileError) : list Z :=
  ascii_bytes "core-profile line " ++ dec (lineno e) ++ ascii_bytes ": " ++
  match kind e with
  | MissingEquals s => ascii_bytes "expected `key = value`, got " ++ str_debug s
  | UnknownRole s => ascii_bytes "unknown role " ++ str_debug s
  | BadCoreSpec s => ascii_bytes "bad core spec " ++ s
  | DuplicateRole s => ascii_bytes "duplicate assignment for " ++ str_debug s
  end.

(** ** Parsing *)

(** [str::lines] *)
Definition strip_cr (s : list Z) : list Z :=
  if bool_decide (last s = Some 13) then removelast s else s.
Definition str_lines (s : list Z) : list (list Z) :=
  let parts := split [10] s in
  let parts := if bool_decide (last parts = Some []) then removelast parts else parts in
  map strip_cr parts.

Fixpoint parse_parts (parts : list (list Z)) (out : list Z) : result (list Z) (list Z) :=
  match parts with
  | [] => Ok out
  | part :: parts =>
      let part := trim part in
      if bool_decide (part = []) then parse_parts parts out
      else
        let range := ascii_bytes "range " ++ str_debug part in
        match split_once [45] part with
        | Some (a, b) =>
            match parse_uint 64 (trim a), parse_uint 64 (trim b) with
            | Some a, Some b =>
                if (b <? a) || (4096 <? b - a) then Err range
                else parse_parts parts (out ++ seqZ a (b - a + 1))
            | _, _ => Err range
            end
        | None =>
            match parse_uint 64 part with
            | Some c => parse_parts parts (out ++ [c])
            | None => Err (ascii_bytes "index " ++ str_debug part)
            end
        end
  end.
Definition parse_core_list (s : list Z) : result (list Z) (list Z) := parse_parts (split [44] s) [].

Definition CoreProfile := gmap (list Z) (list Z).

Fixpoint parse_lines (n : Z) (ls : list (list Z)) (assigned : CoreProfile)
  : result CoreProfile ProfileError :=
  match ls with
  | [] => Ok assigned
  | raw :: ls =>
      let line := trim (default [] (head (split [35] raw))) in
      if bool_decide (line = []) then parse_lines (n + 1) ls assigned
      else
        let bad k := Err {| lineno := n + 1; kind := k |} in
        match split_once [61] line with
        | None => bad (MissingEquals raw)
        | Some (k, value) =>
            let k := trim k in
            match from_key k with
            | None => bad (UnknownRole k)
            | Some role =>
                match parse_core_list (trim value) with
                | Err s => bad (BadCoreSpec s)
                | Ok cores =>
                    if bool_decide (cores = []) then bad (BadCoreSpec (ascii_bytes "empty list"))
                    else if assigned !! key role then bad (DuplicateRole k)
                    else parse_lines (n + 1) ls (<[key role := cores]> assigned)
                end
            end
        end
  end.
Definition parse (text : list Z) : result CoreProfile ProfileError := parse_lines 0 (str_lines text) ∅.

End Debug.

(** the file's text, or the error of reading it *)
Inductive LoadError (E : Type) := ReadFailed (e : E) | InvalidData (text : list Z).
Arguments ReadFailed {E} e.
Arguments InvalidData {E} text.
Definition load_profile `{StrDebug} {E} (file : result (list Z) E) : result CoreProfile (LoadError E) :=
  match file with
  | Err e => Err (ReadFailed e)
  | Ok text =>
      match parse text with
      | Ok p => Ok p
      | Err e => Err (InvalidData (ProfileError_fmt e))
      end
  end.

(** ** Validation *)

Definition cores_for (p : CoreProfile) (role : Role) : list Z := default [] (p !! key role).

Inductive ValidateError := TooHigh (role : Role) (c machine : Z) | Twice (c : Z) (role : Role).
Definition ValidateError_fmt (e : ValidateError) : list Z :=
  match e with
  | TooHigh role c machine =>
      key role ++ ascii_bytes " requests core " ++ dec c ++ ascii_bytes " >= " ++ dec machine
  | Twice c role =>
      ascii_bytes "core " ++ dec c ++ ascii_bytes " assigned multiple times (" ++ key role ++ ascii_bytes ")"
  end.

Fixpoint validate_cores (machine : Z) (role : Role) (cs : list Z) (seen : list bool)
  : exec (result (list bool) ValidateError) :=
  match cs with
  | [] => Ret (Ok seen)
  | c :: cs =>
      if machine <=? c then Ret (Err (TooHigh role c machine))
      else
        b ← index seen (Z.to_nat c);
        if b : bool then Ret (Err (Twice c role))
        else validate_cores machine role cs (<[Z.to_nat c := true]> seen)
  end.

Fixpoint validate_roles (p : CoreProfile) (machine : Z) (roles : list Role) (seen : list bool)
  : exec (result unit ValidateError) :=
  match roles with
  | [] => Ret (Ok tt)
  | role :: roles =>
      r ← validate_cores machine role (cores_for p role) seen;
      match r with
      | Err e => Ret (Err e)
      | Ok seen => validate_roles p machine roles seen
      end
  end.
Definition validate (p : CoreProfile) (machine : Z) : exec (result unit ValidateError) :=
  validate_roles p machine ALL (replicate (Z.to_nat machine) false).

(** ** The generated default (tpt-t-cli) *)

Fixpoint default_lines (r cores : Z) (roles : list Role) : list Z :=
  match roles with
  | [] => []
  | role :: roles =>
      if cores <=? r then []
      else (if decide (role = Spare) then [] else key role ++ ascii_bytes " = " ++ dec r ++ [10])
           ++ default_lines (r + 1) cores roles
  end.

Definition default_profile_text (cores : Z) : list Z :=
  let cores := Z.max cores 1 in
  ascii_bytes "# tpt-teleop core profile (generated by tpt-t-cli profile)" ++ [10] ++
  ascii_bytes "# cores available: " ++ dec cores ++ [10] ++
  default_lines 0 cores ALL ++
  (if Z.of_nat (length ALL) <? cores then
     key Spare ++ ascii_bytes " = " ++ (ascii_bytes "6-" ++ dec (cores - 1)) ++ [10]
   else []).

(** ** Pinning (affinity.rs) *)

Inductive AffinityError (E : Type) := NoCores | OutOfRange (core max : Z) | Os (e : E) | Mach (kr : Z).
Arguments NoCores {E}.
Arguments OutOfRange {E} core max.
Arguments Os {E} e.
Arguments Mach {E} kr.

Definition AffinityError_fmt {E} (show : E -> list Z) (e : AffinityError E) : list Z :=
  match e with
  | NoCores => ascii_bytes "no cores requested"
  | OutOfRange core max =>
      ascii_bytes "core " ++ dec core ++ ascii_bytes " out of range (machine has " ++ dec max ++ ascii_bytes ")"
  | Os e => ascii_bytes "affinity syscall failed: " ++ show e
  | Mach kr => ascii_bytes "mach thread_policy_set failed: kern=" ++ dec_signed kr
  end.

(** [sysconf] and [sched_setaffinity] on a set of CPUs *)
Class PinOs (W E : Type) := {
  sysconf_nproc : W -> Z;
  sched_setaffinity : W -> gset Z -> W * result unit E
}.

Section Pin.
Context {W E : Type} `{PO : !PinOs W E}.

Definition core_count (w : W) : Z := Z.max (sysconf_nproc w) 1.

(** [CPU_SET] indexes the 1024 bits of [cpu_set_t] *)
Fixpoint cpu_set (cores : list Z) (set : gset Z) : exec (gset Z) :=
  match cores with
  | [] => Ret set
  | c :: cores => _ ← assert (c <? 1024); cpu_set cores ({[c]} ∪ set)
  end.

Definition pin_linux (w : W) (cores : list Z) : exec (W * result unit (AffinityError E)) :=
  set ← cpu_set cores ∅;
  let '(w, r) := sched_setaffinity w set in
  Ret (w, match r with Ok _ => Ok tt | Err e => Err (Os e) end).

Definition pin_current (w : W) (cores : list Z) : exec (W * result unit (AffinityError E)) :=
  if bool_decide (cores = []) then Ret (w, Err NoCores)
  else
    let max := core_count w in
    match List.find (fun c => max <=? c) cores with
    | Some c => Ret (w, Err (OutOfRange c max))
    | None => pin_linux w cores
    end.

(** the body of the thread [spawn_pinned] starts *)
Definition spawn_pinned_body {A} (w : W) (cores : list Z) (f : W -> exec A) : exec A :=
  '(w, r) ← pin_current w cores;
  match r with
  | Err _ => Panic
  | Ok _ => f w
  end.

End Pin.

(** ** Validation is exact *)

Definition all_cores (p : CoreProfile) : list Z := mjoin (cores_for p <$> ALL).

(** [seen] marks the cores in [done] *)
Definition marks (machine : Z) (seen : list bool) (done : list Z) : Prop :=
  Z.of_nat (length seen) = machine /\
  forall c, 0 <= c < machine -> (seen !! Z.to_nat c = Some true <-> c ∈ done).

Lemma marks_insert machine seen done c : marks machine seen done -> 0 <= c < machine ->
  marks machine (<[Z.to_nat c := true]> seen) (done ++ [c]).
Proof.
  intros [Hl Hm] Hc. split; [by rewrite length_insert|]. intros d Hd.
  rewrite elem_of_app, list_elem_of_singleton, <- (Hm d Hd).
  destruct (decide (c = d)) as [->|Hne].
  - rewrite list_lookup_insert_eq by (apply Nat2Z.inj_lt; rewrite Z2Nat.id; lia). tauto.
  - rewrite list_lookup_insert_ne by lia. intuition congruence.
Qed.

Lemma validate_cores_spec machine role cs : Forall (fun c => 0 <= c) cs ->
  forall seen done, marks machine seen done -> NoDup done ->
  exists r, validate_cores machine role cs seen = Ret r /\
    match r with
    | Ok seen' => marks machine seen' (done ++ cs) /\ NoDup (done ++ cs) /\ Forall (fun c => c < machine) cs
    | Err _ => ~ (NoDup (done ++ cs) /\ Forall (fun c => c < machine) cs)
    end.
Proof.
  induction 1 as [|c cs Hc _ IH]; intros seen done Hm Hd; simpl in *.
  - eexists. split; [reflexivity|]. by rewrite app_nil_r.
  - destruct (Z.leb_spec machine c) as [Hge|Hlt].
    { eexists. split; [reflexivity|]. intros [_ Hf]. inversion Hf. lia. }
    destruct (lookup_lt_is_Some_2 seen (Z.to_nat c)) as [b Hb]; [destruct Hm as [Hm0 _]; apply Nat2Z.inj_lt; rewrite Z2Nat.id by done; lia|].
    unfold index. rewrite Hb, ret_bind. pose proof (proj2 Hm c ltac:(lia)) as Hcm. destruct b.
    + eexists. split; [reflexivity|]. intros [Hn _]. apply NoDup_app in Hn as (_ & Hdis & _).
      apply (Hdis c); [by apply Hcm|by left].
    + assert (Hr0 : 0 <= c < machine) by lia.
      destruct (IH _ (done ++ [c]) (marks_insert _ _ _ _ Hm Hr0)) as (r & E & Hr).
      { apply NoDup_app. split_and!; [done| |apply NoDup_singleton]. intros x Hx.
        rewrite list_elem_of_singleton. intros ->. apply Hcm in Hx. congruence. }
      exists r. split; [done|]. rewrite <- app_assoc in Hr. destruct r; simpl in Hr.
      * destruct Hr as (? & ? & ?). split_and!; [done|done|]. by constructor.
      * intros [? Hf]. apply Hr. split; [done|]. by inversion Hf.
Qed.

Lemma validate_roles_spec p machine roles :
  (forall r, r ∈ roles -> Forall (fun c => 0 <= c) (cores_for p r)) ->
  forall seen done, marks machine seen done -> NoDup done ->
  exists r, validate_roles p machine roles seen = Ret r /\
    (is_ok r = true <-> NoDup (done ++ mjoin (cores_for p <$> roles)) /\
                        Forall (fun c => c < machine) (mjoin (cores_for p <$> roles))).
Proof.
  induction roles as [|role roles IH]; intros Hp seen done Hm Hd; cbn [validate_roles].
  - exists (Ok tt). split; [done|]. change (mjoin (cores_for p <$> [])) with (@nil Z). rewrite app_nil_r.
    split; [|done]. by split.
  - destruct (validate_cores_spec machine role (cores_for p role) (Hp role ltac:(by left)) seen done Hm Hd)
      as (r & E & Hr). rewrite E, ret_bind.
    change (mjoin (cores_for p <$> role :: roles)) with (cores_for p role ++ mjoin (cores_for p <$> roles)).
    setoid_rewrite Forall_app. destruct r as [seen'|e].
    + destruct Hr as (Hm' & Hd' & Hf).
      destruct (IH ltac:(intros; apply Hp; by right) seen' _ Hm' Hd') as (r & E' & Hr).
      exists r. split; [done|]. rewrite Hr, <- app_assoc. tauto.
    + exists (Err e). split; [done|]. split; [discriminate|]. intros [Hn [Hf _]]. destruct Hr. split; [|done].
      rewrite app_assoc in Hn. by apply NoDup_app in Hn as [? _].
Qed.

(** The profiles [parse] returns. *)
Definition profile_ok (p : CoreProfile) : Prop :=
  forall k cs, p !! k = Some cs ->
    (exists r, k = key r) /\ cs <> [] /\ Forall (fun c => 0 <= c < 2 ^ 64) cs.

Lemma profile_ok_cores p r : profile_ok p -> Forall (fun c => 0 <= c) (cores_for p r).
Proof.
  intros Hp. unfold cores_for. destruct (p !! key r) as [cs|] eqn:E; [|constructor].
  destruct (Hp _ _ E) as (_ & _ & Hf). simpl. eapply Forall_impl; [exact Hf|]. simpl. lia.
Qed.

(** Validation always returns, and accepts exactly the profiles in which no core
    is claimed twice and every core exists on the machine. *)
Theorem validate_exact (p : CoreProfile) (machine : Z) : 0 <= machine -> profile_ok p ->
  exists r, validate p machine = Ret r /\
    (is_ok r = true <-> NoDup (all_cores p) /\ Forall (fun c => c < machine) (all_cores p)).
Proof.
  intros Hm Hp. unfold validate, all_cores.
  destruct (validate_roles_spec p machine ALL (fun r _ => profile_ok_cores p r Hp)
    (replicate (Z.to_nat machine) false) []) as (r & E & Hr); [|constructor|].
  - split; [rewrite length_replicate; lia|]. intros c Hc. rewrite lookup_replicate, elem_of_nil.
    split; [intros [? _]; congruence|done].
  - exists r. split; [done|]. exact Hr.
Qed.

(** ** What parsing yields *)

Section Parse.
Context `{SD : StrDebug}.

Lemma parse_parts_range parts out cs : Forall (fun c => 0 <= c < 2 ^ 64) out ->
  parse_parts parts out = Ok cs -> Forall (fun c => 0 <= c < 2 ^ 64) cs.
Proof.
  revert out. induction parts as [|part parts IH]; intros out Ho; simpl; [by intros [= <-]|].
  case_bool_decide; [by apply IH|]. destruct (split_once [45] (trim part)) as [[a b]|].
  - destruct (parse_uint 64 (trim a)) as [x|] eqn:Ea; [|done].
    destruct (parse_uint 64 (trim b)) as [y|] eqn:Eb; [|done]. destruct (_ || _) eqn:Eor; [done|].
    apply IH. apply Forall_app. split; [done|]. apply Forall_seqZ. intros c Hc. zbool.
    apply parse_uint_range in Ea, Eb. lia.
  - destruct (parse_uint 64 (trim part)) as [x|] eqn:E; [|done]. apply IH, Forall_app.
    split; [done|]. constructor; [|constructor]. by apply parse_uint_range in E.
Qed.

Lemma parse_lines_ok n ls m p : profile_ok m -> parse_lines n ls m = Ok p -> profile_ok p.
Proof.
  revert n m. induction ls as [|raw ls IH]; intros n m Hm; simpl; [by intros [= <-]|].
  case_bool_decide; [by apply IH|]. destruct (split_once [61] _) as [[k v]|]; [|done].
  destruct (from_key (trim k)) as [role|]; [|done].
  destruct (parse_core_list (trim v)) as [cs|] eqn:Ec; [|done]. case_bool_decide; [done|].
  destruct (m !! key role); [done|]. apply IH. intros k' cs' Hl.
  apply lookup_insert_Some in Hl as [[<- <-]|[_ Hl]]; [|by apply Hm]. split_and!; [by exists role|done|].
  eapply parse_parts_range; [|exact Ec]. constructor.
Qed.

(** A parsed profile only names roles, assigns each a non-empty list of machine
    words, and a missing role reads as the empty list. *)
Lemma parse_ok text p : parse text = Ok p -> profile_ok p.
Proof. apply parse_lines_ok. intros k cs Hl. by apply lookup_empty_Some in Hl. Qed.

(** ** Lines *)

Lemma str_lines_cons l rest : 10 ∉ l -> last l <> Some 13 ->
  str_lines (l ++ 10 :: rest) = l :: str_lines rest.
Proof.
  intros Hl Hcr. unfold str_lines. rewrite split_cons by done.
  destruct (split [10] rest) as [|p ps] eqn:E.
  { unfold split in E. destruct rest; simpl in E; [done|]. by destruct (split_once _ _) as [[]|]. }
  assert (Es : strip_cr l = l) by (unfold strip_cr; by rewrite bool_decide_false).
  rewrite last_cons_cons. case_bool_decide; simpl; by rewrite Es.
Qed.

Lemma str_lines_nil : str_lines [] = [].
Proof. done. Qed.

Lemma parse_comment n r ls m : parse_lines n ((35 :: r) :: ls) m = parse_lines (n + 1) ls m.
Proof.
  cbn [parse_lines]. change (35 :: r) with ([] ++ 35 :: r). rewrite split_cons by (by intros H; inversion H).
  done.
Qed.

(** a role's key, as text *)
Lemma key_facts r : visible (key r) /\ key r <> [] /\ from_key (key r) = Some r /\
  (35 ∉ key r) /\ (61 ∉ key r) /\ (10 ∉ key r).
Proof.
  split_and!; destruct r; try (by apply no_char); try done;
    unfold visible; rewrite Forall_forall; intros c Hc; apply list_elem_of_In in Hc; vm_compute in Hc;
    repeat (destruct Hc as [<-|Hc]; [reflexivity|]); done.
Qed.

Lemma key_inj r r' : key r = key r' -> r = r'.
Proof.
  intros E. apply (inj Some). rewrite <- (proj1 (proj2 (proj2 (key_facts r)))).
  rewrite <- (proj1 (proj2 (proj2 (key_facts r')))). by rewrite E.
Qed.

Lemma trim_line a b s : visible a -> a <> [] -> visible b -> b <> [] -> trim (a ++ s ++ b) = a ++ s ++ b.
Proof.
  intros Ha Hna Hb Hnb. destruct Ha as [|c a Hc _]; [done|]. destruct (exists_last Hnb) as (b' & d & ->).
  apply Forall_app in Hb as [_ Hd]. inversion Hd as [|? ? Hd' _]. subst.
  replace ((c :: a) ++ s ++ b' ++ [d]) with (c :: (a ++ s ++ b') ++ [d]) by (simpl; by rewrite <- !app_assoc).
  by apply trim_visible.
Qed.

(** An assignment line assigns. *)
Lemma parse_assign n role spec cores ls m :
  visible spec -> 35 ∉ spec -> parse_core_list spec = Ok cores -> cores <> [] -> m !! key role = None ->
  parse_lines n ((key role ++ ascii_bytes " = " ++ spec) :: ls) m =
  parse_lines (n + 1) ls (<[key role := cores]> m).
Proof.
  intros Hs Hh Hp Hc Hm. destruct (key_facts role) as (Hv & Hne & Hf & H35 & H61 & _).
  assert (Hsn : spec <> []) by (intros ->; vm_compute in Hp; congruence).
  cbn [parse_lines]. set (raw := key role ++ ascii_bytes " = " ++ spec).
  assert (E35 : 35 ∉ raw).
  { unfold raw. rewrite !elem_of_app. intros [?|[Hi|?]]; [done| |done]. revert Hi. by apply no_char. }
  rewrite split_one by done. cbn [head default from_option id].
  assert (Et : trim raw = raw) by by apply trim_line.
  unfold id. rewrite Et. rewrite bool_decide_false by (unfold raw; destruct (key role); done).
  assert (Eo : split_once [61] raw = Some (key role ++ [32], 32 :: spec)).
  { unfold split_once, raw. change (ascii_bytes " = " ++ spec) with ([32] ++ 61 :: 32 :: spec).
    rewrite app_assoc, find_at_one.
    - simpl. rewrite take_app_length. do 2 f_equal.
      rewrite drop_app_ge by (simpl; lia). simpl length. by replace (_ + 1 - _)%nat with 1%nat by lia.
    - rewrite elem_of_app, list_elem_of_singleton. intros [?|?]; [done|lia]. }
  rewrite Eo, trim_space_r, Hf, trim_space, Hp by done. rewrite bool_decide_false by done.
  by rewrite Hm.
Qed.

(** ** Printing and reading back *)

Fixpoint print_cores (cs : list Z) : list Z :=
  match cs with
  | [] => []
  | [c] => dec c
  | c :: cs => dec c ++ 44 :: print_cores cs
  end.
Definition print_profile (l : list (Role * list Z)) : list Z :=
  mjoin ((fun rc => key rc.1 ++ ascii_bytes " = " ++ print_cores rc.2 ++ [10]) <$> l).

Lemma parse_dec c parts out : 0 <= c < 2 ^ 64 ->
  parse_parts (dec c :: parts) out = parse_parts parts (out ++ [c]).
Proof.
  intros Hc. destruct (dec_spec c) as (Hd & _ & Hne); [lia|]. cbn [parse_parts].
  rewrite trim_unchanged by (apply dec_visible; lia). rewrite bool_decide_false by done.
  unfold split_once. rewrite find_at_none by (apply dec_no; [lia|done]). cbn [fmap option_fmap option_map].
  by rewrite parse_uint_dec.
Qed.

Lemma parse_print_cores cs : Forall (fun c => 0 <= c < 2 ^ 64) cs -> cs <> [] ->
  parse_core_list (print_cores cs) = Ok cs.
Proof.
  intros Hcs Hne. unfold parse_core_list.
  assert (E : split [44] (print_cores cs) = map dec cs).
  { induction Hcs as [|c cs Hc Hcs IH]; [done|]. destruct cs as [|d cs].
    - cbn [print_cores map]. apply split_one, dec_no; [lia|done].
    - cbn [print_cores map] in *. rewrite split_cons by (apply dec_no; [lia|done]). by rewrite IH. }
  rewrite E. clear E Hne. assert (G : forall out, parse_parts (map dec cs) out = Ok (out ++ cs)).
  { induction Hcs as [|c cs Hc _ IH]; intros out; simpl map; [by rewrite app_nil_r|].
    rewrite parse_dec by done. by rewrite IH, <- app_assoc. }
  apply G.
Qed.

Lemma print_cores_text cs : Forall (fun c => 0 <= c) cs ->
  visible (print_cores cs) /\ (35 ∉ print_cores cs) /\ (10 ∉ print_cores cs) /\ last (print_cores cs) <> Some 13.
Proof.
  intros Hcs. assert (Hd : Forall (fun c => is_digit c = true \/ c = 44) (print_cores cs)).
  { induction Hcs as [|c cs Hc Hcs IH]; [constructor|].
    assert (Hdc : Forall (fun c => is_digit c = true \/ c = 44) (dec c)).
    { eapply Forall_impl; [apply (dec_spec c Hc)|]. auto. }
    destruct cs as [|d cs]; [done|]. cbn [print_cores]. apply Forall_app. split; [done|]. constructor; [by right|exact IH]. }
  rewrite Forall_forall in Hd. split_and!.
  - apply Forall_forall. intros c Hc. destruct (Hd c Hc) as [Hi| ->]; [|done].
    assert (Hg : digits [c]) by by constructor. apply digits_visible in Hg. by inversion Hg.
  - intros Hc. destruct (Hd _ Hc); done.
  - intros Hc. destruct (Hd _ Hc); done.
  - intros Hc. apply last_Some_elem_of in Hc. destruct (Hd _ Hc); done.
Qed.

Lemma parse_printed l rest n m :
  NoDup l.*1 -> Forall (fun rc => rc.2 <> [] /\ Forall (fun c => 0 <= c < 2 ^ 64) rc.2) l ->
  (forall r, r ∈ l.*1 -> m !! key r = None) ->
  parse_lines n (str_lines (print_profile l ++ rest)) m =
  parse_lines (n + Z.of_nat (length l)) (str_lines rest) (list_to_map ((fun rc => (key rc.1, rc.2)) <$> l) ∪ m).
Proof.
  revert n m. induction l as [|[r cs] l IH]; intros n m Hn Hl Hm.
  - simpl length. rewrite Z.add_0_r. f_equal. symmetry. apply (map_empty_union (m : gmap _ _)).
  - cbn [fmap list_fmap fst snd] in *. apply NoDup_cons in Hn as [Hr Hn].
    inversion Hl as [|? ? [Hne Hcs] Hl']; subst. cbn [fst snd] in *.
    destruct (key_facts r) as (_ & _ & _ & _ & _ & H10).
    assert (Hcs0 : Forall (fun c => 0 <= c) cs) by (eapply Forall_impl; [exact Hcs|]; simpl; lia).
    destruct (print_cores_text cs Hcs0) as (Hv & H35 & Ht10 & Hcr).
    assert (Hpn : print_cores cs <> []).
    { intros E. pose proof (parse_print_cores cs Hcs Hne) as Hp. rewrite E in Hp. vm_compute in Hp. congruence. }
    change (print_profile ((r, cs) :: l)) with
      ((key r ++ ascii_bytes " = " ++ print_cores cs ++ [10]) ++ print_profile l).
    replace (((key r ++ ascii_bytes " = " ++ print_cores cs ++ [10]) ++ print_profile l) ++ rest)
      with ((key r ++ ascii_bytes " = " ++ print_cores cs) ++ 10 :: print_profile l ++ rest)
      by (by rewrite <- !app_assoc).
    rewrite str_lines_cons.
    + rewrite (parse_assign _ r _ cs) by (try done; try (by apply parse_print_cores); apply Hm; by left).
      rewrite IH; [|done|done|].
      * set (L := list_to_map ((fun rc => (key rc.1, rc.2)) <$> l) : gmap (list Z) (list Z)).
        assert (HL : L !! key r = None).
        { apply not_elem_of_list_to_map_1. rewrite <- list_fmap_compose. intros Hin.
          apply list_elem_of_fmap in Hin as ([r' cs'] & Ek & Hin). apply Hr.
          apply key_inj in Ek as ->. apply list_elem_of_fmap. by exists (r', cs'). }
        replace (n + Z.of_nat (length ((r, cs) :: l))) with (n + 1 + Z.of_nat (length l)) by (simpl length; lia).
        f_equal. exact ((eq_trans (eq_sym (insert_union_r L (m : gmap _ _) _ _ HL)) (insert_union_l L (m : gmap _ _) _ _))).
      * intros r' Hr'. transitivity ((m : gmap (list Z) (list Z)) !! key r'); [|apply Hm; by right].
        apply lookup_insert_ne. intros Ek. apply Hr. by apply key_inj in Ek as ->.
    + rewrite !elem_of_app. intros [?|[Hi|?]]; [done| |done]. revert Hi. by apply no_char.
    + rewrite app_assoc, last_app. destruct (last (print_cores cs)) eqn:El; [congruence|].
      apply last_None in El. done.
Qed.

Lemma cores_for_printed l r cs : NoDup l.*1 -> (r, cs) ∈ l ->
  cores_for (list_to_map ((fun rc => (key rc.1, rc.2)) <$> l)) r = cs.
Proof.
  intros Hn Hin. refine (f_equal (default []) (elem_of_list_to_map_1 (M := gmap (list Z)) _ _ cs _ _)).
  - rewrite <- list_fmap_compose. change (NoDup ((key ∘ fst) <$> l)). rewrite list_fmap_compose.
    apply NoDup_fmap_2; [|done]. intros a b. apply key_inj.
  - apply list_elem_of_fmap. by exists (r, cs).
Qed.

Lemma cores_for_absent l r : r ∉ l.*1 ->
  cores_for (list_to_map ((fun rc => (key rc.1, rc.2)) <$> l)) r = [].
Proof.
  intros Hr. refine (f_equal (default []) (not_elem_of_list_to_map_1 (M := gmap (list Z)) _ _ _)).
  rewrite <- list_fmap_compose. intros Hin. apply list_elem_of_fmap in Hin as ([r' cs] & Ek & Hin).
  apply Hr. apply key_inj in Ek as ->. apply list_elem_of_fmap. by exists (r', cs).
Qed.

(** Reading back a printed profile recovers it: every role the text assigns gets
    exactly its cores, in order, and every other role none. *)
Theorem profile_roundtrip (l : list (Role * list Z)) :
  NoDup l.*1 -> Forall (fun rc => rc.2 <> [] /\ Forall (fun c => 0 <= c < 2 ^ 64) rc.2) l ->
  exists p, parse (print_profile l) = Ok p /\
    (forall r cs, (r, cs) ∈ l -> cores_for p r = cs) /\ (forall r, r ∉ l.*1 -> cores_for p r = []).
Proof.
  intros Hn Hl. exists (list_to_map ((fun rc => (key rc.1, rc.2)) <$> l)). split_and!.
  - unfold parse. rewrite <- (app_nil_r (print_profile l)), parse_printed; [|done|done|].
    + rewrite str_lines_nil. cbn [parse_lines]. f_equal. apply (map_union_empty (_ : gmap _ _)).
    + intros r _. apply (lookup_empty (M := gmap (list Z))).
  - intros r cs. by apply cores_for_printed.
  - intros r. apply cores_for_absent.
Qed.

(** ** The generated default *)

Definition spare_line (cores : Z) : list Z := key Spare ++ ascii_bytes " = " ++ (ascii_bytes "6-" ++ dec (cores - 1)).

Lemma spare_visible n : 0 <= n -> visible (ascii_bytes "6-" ++ dec n).
Proof. intros Hn. change (visible (54 :: 45 :: dec n)). do 2 (constructor; [done|]). by apply dec_visible. Qed.

Lemma spare_spec cores : 7 < cores <= 4103 ->
  parse_core_list (ascii_bytes "6-" ++ dec (cores - 1)) = Ok (seqZ 6 (cores - 6)).
Proof.
  intros Hc. destruct (dec_spec (cores - 1)) as (Hd & _ & Hne); [lia|].
  assert (Hv : visible (ascii_bytes "6-" ++ dec (cores - 1))).
  { apply spare_visible. lia. }
  unfold parse_core_list. rewrite split_one.
  - cbn [parse_parts]. rewrite trim_unchanged by done. rewrite bool_decide_false by done.
    assert (Eo : split_once [45] (ascii_bytes "6-" ++ dec (cores - 1)) = Some ([54], dec (cores - 1))).
    { unfold split_once. change (ascii_bytes "6-" ++ dec (cores - 1)) with ([54] ++ 45 :: dec (cores - 1)).
      by rewrite find_at_one by (rewrite list_elem_of_singleton; lia). }
    rewrite Eo. change (parse_uint 64 (trim [54])) with (Some 6). cbv iota beta.
    rewrite trim_unchanged by (apply dec_visible; lia). rewrite parse_uint_dec by lia.
    rewrite (proj2 (Z.ltb_ge (cores - 1) 6)), (proj2 (Z.ltb_ge 4096 _)) by lia. simpl. do 2 f_equal. lia.
  - rewrite elem_of_app. intros [Hi|Hi]; [revert Hi; by apply no_char|].
    revert Hi. apply dec_no; [lia|done].
Qed.

Definition fixed_roles : list (Role * list Z) :=
  [(Video, [0]); (Control, [1]); (Network, [2]); (Input, [3]); (Media, [4]); (Storage, [5])].

Definition default_assign (cores : Z) : list (Role * list Z) :=
  take (Z.to_nat cores) fixed_roles ++ (if 7 <? cores then [(Spare, seqZ 6 (cores - 6))] else []).

Lemma default_text cores : 1 <= cores ->
  default_profile_text cores =
    (35 :: ascii_bytes " tpt-teleop core profile (generated by tpt-t-cli profile)") ++ 10 ::
    (35 :: ascii_bytes " cores available: " ++ dec cores) ++ 10 ::
    print_profile (take (Z.to_nat cores) fixed_roles) ++ (if 7 <? cores then spare_line cores ++ [10] else []).
Proof.
  intros Hc. unfold default_profile_text, spare_line. rewrite Z.max_l by lia.
  change (Z.of_nat (length ALL)) with 7.
  assert (E : default_lines 0 cores ALL = print_profile (take (Z.to_nat cores) fixed_roles)).
  { destruct (Z.leb_spec cores 7) as [Hle|Hgt].
    - assert (Hin : cores ∈ seqZ 1 7) by (apply elem_of_seqZ; lia). apply list_elem_of_In in Hin.
      vm_compute in Hin. by repeat (destruct Hin as [<-|Hin]; [reflexivity|]).
    - rewrite take_ge by (simpl; lia). unfold ALL. cbn [default_lines].
      rewrite !(proj2 (Z.leb_gt cores _)) by lia. reflexivity. }
  rewrite E, <- !app_assoc. destruct (7 <? cores); by rewrite <- ?app_assoc.
Qed.

Lemma fixed_ok k : NoDup (take k fixed_roles).*1 /\
  Forall (fun rc => rc.2 <> [] /\ Forall (fun c => 0 <= c < 2 ^ 64) rc.2) (take k fixed_roles).
Proof.
  split.
  - rewrite fmap_take. eapply sublist_NoDup; [|apply sublist_take].
    vm_compute. repeat constructor; set_solver.
  - apply Forall_take. repeat constructor; done.
Qed.

Lemma cores_for_insert (m : gmap (list Z) (list Z)) role cs r :
  cores_for (<[key role := cs]> m) r = if decide (r = role) then cs else cores_for m r.
Proof.
  unfold cores_for. destruct (decide (r = role)) as [->|Hne].
  - exact (f_equal (default []) (lookup_insert_eq m (key role) cs)).
  - refine (f_equal (default []) (lookup_insert_ne m (key role) (key r) cs _)).
    intros E. apply key_inj in E. congruence.
Qed.

Lemma default_parsed cores : 1 <= cores <= 4103 ->
  exists p, parse (default_profile_text cores) = Ok p /\
    (forall r cs, (r, cs) ∈ default_assign cores -> cores_for p r = cs) /\
    (forall r, r ∉ (default_assign cores).*1 -> cores_for p r = []).
Proof.
  intros Hc. rewrite default_text by lia. unfold parse.
  rewrite str_lines_cons; [|by apply no_char|done]. rewrite parse_comment.
  assert (Hdc : 10 ∉ dec cores /\ last (dec cores) <> Some 13).
  { split; [apply dec_no; [lia|done]|]. intros Hl. apply last_Some_elem_of in Hl. revert Hl. apply dec_no; [lia|done]. }
  destruct Hdc as [Hd10 Hd13]. destruct (fixed_ok (Z.to_nat cores)) as [Hfn Hfo].
  rewrite str_lines_cons.
  2: { rewrite elem_of_cons, elem_of_app. intros [?|[Hi|?]]; [done| |done]. revert Hi. by apply no_char. }
  2: { rewrite app_comm_cons, last_app. destruct (last (dec cores)) eqn:El; [congruence|].
       apply last_None in El. by apply dec_spec in El; [|lia]. }
  rewrite parse_comment, parse_printed; [|done|done|intros r _; apply (lookup_empty (M := gmap (list Z)))].
  set (m := list_to_map _ ∪ _). assert (Em : m = list_to_map ((fun rc => (key rc.1, rc.2)) <$> take (Z.to_nat cores) fixed_roles)
    :> gmap (list Z) (list Z)) by apply (map_union_empty (_ : gmap _ _)).
  assert (Hsp : forall k, Spare ∉ (take k fixed_roles).*1).
  { intros k. rewrite fmap_take. intros Hi. apply list_elem_of_lookup in Hi as [i Hi].
    apply lookup_take_Some in Hi as [Hi _]. apply list_elem_of_lookup_2, list_elem_of_In in Hi.
    simpl in Hi. intuition congruence. }
  unfold default_assign. destruct (Z.ltb_spec 7 cores) as [Hgt|Hle].
  - destruct (dec_spec (cores - 1)) as (Hd & _ & Hne); [lia|].
    rewrite str_lines_cons.
    + rewrite str_lines_nil. unfold spare_line.
      rewrite (parse_assign _ Spare _ (seqZ 6 (cores - 6))).
      * exists (<[key Spare := seqZ 6 (cores - 6)]> m). split; [done|]. rewrite Em. split.
        -- intros r cs Hin. rewrite (cores_for_insert _ Spare). apply elem_of_app in Hin as [Hin|Hin].
           ++ rewrite decide_False; [by apply cores_for_printed|]. intros ->. apply (Hsp (Z.to_nat cores)).
              apply list_elem_of_fmap. by eexists (_, _).
           ++ apply list_elem_of_singleton in Hin as [= -> ->]. by rewrite decide_True.
        -- intros r Hr. rewrite fmap_app, elem_of_app in Hr. rewrite (cores_for_insert _ Spare).
           rewrite decide_False by (intros ->; apply Hr; right; by left).
           apply cores_for_absent. tauto.
      * apply spare_visible. lia.
      * rewrite elem_of_app. intros [Hi|Hi]; [revert Hi; by apply no_char|]. revert Hi. apply dec_no; [lia|done].
      * apply spare_spec. lia.
      * intros E. apply (f_equal length) in E. rewrite length_seqZ in E. simpl in E. lia.
      * rewrite Em. apply not_elem_of_list_to_map_1. rewrite <- list_fmap_compose. intros Hin.
        apply list_elem_of_fmap in Hin as ([r cs] & Ek & Hin). apply (Hsp (Z.to_nat cores)).
        apply key_inj in Ek as ->. apply list_elem_of_fmap. by exists (r, cs).
    + unfold spare_line. rewrite !elem_of_app.
      intros [Hi|[Hi|[Hi|Hi]]]; [revert Hi; by apply no_char..|]. revert Hi. apply dec_no; [lia|done].
    + unfold spare_line. rewrite !app_assoc, last_app. destruct (last (dec (cores - 1))) eqn:El.
      * intros [= ->]. apply last_Some_elem_of in El. revert El. apply dec_no; [lia|done].
      * by apply last_None in El.
  - rewrite str_lines_nil, app_nil_r. exists m. split; [done|]. rewrite Em. split.
    + intros r cs. by apply cores_for_printed.
    + apply cores_for_absent.
Qed.

Lemma default_all cores p : 1 <= cores ->
  (forall r cs, (r, cs) ∈ default_assign cores -> cores_for p r = cs) ->
  (forall r, r ∉ (default_assign cores).*1 -> cores_for p r = []) ->
  all_cores p = seqZ 0 (Z.min cores 6) ++ (if 7 <? cores then seqZ 6 (cores - 6) else []).
Proof.
  intros Hc Hp Hn. unfold all_cores, ALL. cbn [fmap list_fmap mjoin list_join].
  destruct (Z.ltb_spec 7 cores) as [Hgt|Hle].
  - unfold default_assign in Hp. rewrite (proj2 (Z.ltb_lt 7 cores)), take_ge in Hp by (simpl; lia).
    assert (Hp' : forall r cs, List.In (r, cs) (fixed_roles ++ [(Spare, seqZ 6 (cores - 6))]) -> cores_for p r = cs).
    { intros r cs Hi. apply Hp. by apply list_elem_of_In. }
    rewrite (Hp' Video [0]), (Hp' Control [1]), (Hp' Network [2]), (Hp' Input [3]), (Hp' Media [4]),
      (Hp' Storage [5]), (Hp' Spare (seqZ 6 (cores - 6))) by (simpl; tauto).
    rewrite Z.min_r, app_nil_r by lia. reflexivity.
  - assert (Hin : cores ∈ seqZ 1 7) by (apply elem_of_seqZ; lia). apply list_elem_of_In in Hin.
    vm_compute in Hin. clear Hc Hle. unfold default_assign in *.
    repeat (destruct Hin as [<-|Hin]; [
      repeat match goal with |- context [cores_for p ?r] =>
        first [rewrite (Hn r) by (vm_compute; rewrite ?elem_of_cons; intuition (try congruence); set_solver)
              |erewrite (Hp r) by (apply list_elem_of_In; simpl; eauto 10)] end; reflexivity|]). done.
Qed.

(** The default profile of a machine with 1 to 4103 cores parses and validates
    against it, pins the six latency-critical roles to the first cores that
    exist, and gives the rest of a machine with more than seven cores to Spare. *)
Theorem default_profile_valid (cores : Z) : 1 <= cores <= 4103 ->
  exists p, parse (default_profile_text cores) = Ok p /\ validate p cores = Ret (Ok tt) /\
    all_cores p = seqZ 0 (Z.min cores 6) ++ (if 7 <? cores then seqZ 6 (cores - 6) else []).
Proof.
  intros Hc. destruct (default_parsed cores Hc) as (p & Ep & Hp & Hn).
  pose proof (default_all cores p ltac:(lia) Hp Hn) as Hall. exists p. split_and!; [done| |done].
  destruct (validate_exact p cores) as (r & E & Hr); [lia|by eapply parse_ok|].
  rewrite E. destruct r as [[]|e]; [done|]. exfalso. simpl in Hr.
  assert (false = true); [|done]. apply Hr. rewrite Hall. destruct (Z.ltb_spec 7 cores).
  - rewrite Z.min_r by lia. change (seqZ 6 (cores - 6)) with (seqZ (0 + 6) (cores - 6)).
    rewrite <- seqZ_app by lia. split; [apply NoDup_seqZ|apply Forall_seqZ; lia].
  - rewrite app_nil_r. split; [apply NoDup_seqZ|apply Forall_seqZ; lia].
Qed.
End Parse.

(** a [Debug] that escapes nothing *)
Definition quote_debug : StrDebug := {| str_debug s := [34] ++ s ++ [34]; str_debug_plain _ _ := eq_refl |}.

Lemma validate_exact_witness :
  let p : CoreProfile := {[ key Video := [0; 2]; key Spare := [1] ]} in
  profile_ok p /\ exists r, validate p 3 = Ret r /\
    (is_ok r = true <-> NoDup (all_cores p) /\ Forall (fun c => c < 3) (all_cores p)).
Proof.
  assert (Hp : profile_ok ({[ key Video := [0; 2]; key Spare := [1] ]} : gmap (list Z) (list Z))).
  { intros k cs Hl. apply lookup_insert_Some in Hl as [[<- <-]|[_ Hl]].
    - split_and!; [by exists Video|done|by repeat constructor].
    - apply lookup_singleton_Some in Hl as [<- <-]. split_and!; [by exists Spare|done|by repeat constructor]. }
  split; [exact Hp|]. apply (validate_exact {[ key Video := [0; 2]; key Spare := [1] ]} 3); [lia|exact Hp].
Defined.

Lemma profile_roundtrip_witness :
  NoDup ([(Video, [0; 2]); (Spare, [1])] : list (Role * list Z)).*1 /\
  exists p, parse (SD := quote_debug) (print_profile [(Video, [0; 2]); (Spare, [1])]) = Ok p /\
    cores_for p Video = [0; 2] /\ cores_for p Spare = [1] /\ cores_for p Control = [].
Proof.
  assert (Hn : NoDup ([(Video, [0; 2]); (Spare, [1])] : list (Role * list Z)).*1)
    by (apply NoDup_cons; split; [by rewrite list_elem_of_singleton|apply NoDup_singleton]).
  split; [exact Hn|].
  destruct (profile_roundtrip (SD := quote_debug) [(Video, [0; 2]); (Spare, [1])] Hn) as (p & E & Hp & Ha).
  { by repeat constructor. }
  exists p. split_and!; [exact E|apply Hp; by left|apply Hp; right; by left|apply Ha].
  rewrite list_elem_of_In. simpl. intuition congruence.
Defined.

Lemma default_profile_valid_witness :
  exists p, parse (SD := quote_debug) (default_profile_text 16) = Ok p /\ validate p 16 = Ret (Ok tt) /\
    all_cores p = seqZ 0 16.
Proof. apply (default_profile_valid (SD := quote_debug) 16). lia. Defined.

(** With exactly seven cores nobody gets the last one: Spare starts at the eighth. *)
Example seventh_core_idle : exists pre post,
  default_profile_text 7 = pre ++ dec 7 ++ post /\ default_profile_text 6 = pre ++ dec 6 ++ post.
Proof.
  exists (take 78 (default_profile_text 7)), (drop 79 (default_profile_text 7)). split; reflexivity.
Qed.

(** Beyond 4103 cores the generated range is refused by the parser. *)
Example default_too_wide :
  parse_core_list (SD := quote_debug) (ascii_bytes "6-" ++ dec 4103) = Err (ascii_bytes "range " ++
    [34] ++ ascii_bytes "6-4103" ++ [34]).
Proof. vm_compute. reflexivity. Qed.

(** ** Pinning *)

Lemma cpu_set_spec cores set : Forall (fun c => c < 1024) cores ->
  cpu_set cores set = Ret (list_to_set cores ∪ set).
Proof.
  intros H. revert set. induction H as [|c cores Hc _ IH]; intros set; simpl.
  - by rewrite (left_id_L ∅ (∪)).
  - rewrite (proj2 (Z.ltb_lt c 1024)) by done. cbn [assert mbind exec_bind]. rewrite IH. f_equal. set_solver.
Qed.

(** On a machine the CPU set can describe, pinning never panics, refuses an empty
    list and a core that does not exist without touching the scheduler, and
    otherwise asks for exactly the listed cores. *)
Lemma pin_current_spec {W E} `{!PinOs W E} (w : W) cores : core_count w <= 1024 ->
  pin_current w cores = Ret (
    if decide (cores = []) then (w, Err NoCores)
    else match List.find (fun c => core_count w <=? c) cores with
         | Some c => (w, Err (OutOfRange c (core_count w)))
         | None => let '(w', r) := sched_setaffinity w (list_to_set cores) in
                   (w', match r with Ok _ => Ok tt | Err e => Err (Os e) end)
         end).
Proof.
  intros Hm. unfold pin_current. case_bool_decide as Hn; case_decide; try done.
  destruct (List.find _ cores) as [c|] eqn:Ef; [done|]. unfold pin_linux. rewrite cpu_set_spec.
  - rewrite ret_bind, (right_id_L ∅ (∪)). by destruct (sched_setaffinity _ _).
  - apply Forall_forall. intros c Hc. apply list_elem_of_In in Hc.
    pose proof (List.find_none _ _ Ef c Hc) as Hlt. simpl in Hlt. zbool. lia.
Qed.
