(* ===== verification/CmdWire.v ===== *)
(** * Commands as the loop computes them and as the link carries them

    In Rust a [ControlCommand] holds floats and is archived as it is.  Here the
    safety loop computes on [f32] values and the link carries their bit patterns;
    [wire] is the passage from one to the other.  A command is [typed] when its
    fields are within their Rust types; [tick_typed] shows that the safety loop
    only emits typed commands, so that what it emits can always be framed. *)

From S2P Require Import Prelude Cast Mode Ser Float FloatText FloatFacts Ring Safety SafetyLoop.

(** [f32::to_bits] on every axis; [nan] is the pattern of a NaN *)
Definition wire (nan : Z) (c : Command) : Cmd.ControlCommand Z :=
  {| Cmd.magic := Cmd.magic c; Cmd.version := Cmd.version c; Cmd.reserved := Cmd.reserved c;
     Cmd.seq := Cmd.seq c; Cmd.timestamp_ns := Cmd.timestamp_ns c; Cmd.mode_raw := Cmd.mode_raw c;
     Cmd.flags := Cmd.flags c; Cmd.axis_count := Cmd.axis_count c; Cmd.pad0 := Cmd.pad0 c;
     Cmd.axes := f32_bits nan <$> Cmd.axes c; Cmd.crc := Cmd.crc c |}.

(** ** Values of 32 bits *)

Definition f32_range (x : f32) : Prop :=
  match x with S754_finite _ m e => Zpos m < 2 ^ 24 /\ -149 <= e <= 104 | _ => True end.

Lemma f32_bits_range nan x : uint 32 nan -> f32_range x -> uint 32 (f32_bits nan x).
Proof.
  intros Hn. unfold f32_bits, to_bits, uint in *. destruct x as [s|s| |s m e]; cbn [f32_range].
  - intros _. by destruct s.
  - intros _. by destruct s.
  - done.
  - intros [Hm He]. change (2 ^ (23 + 8)) with (2 ^ 31).
    change (3 - 2 ^ (8 - 1) - (23 + 1)) with (-149). rewrite Z.shiftl_mul_pow2 by lia.
    destruct (Z.ltb_spec (Zpos m) (2 ^ 23)); destruct s; lia.
Qed.

Lemma shr_fexp_range m e l r e' : 0 <= m -> shr_fexp 24 128 m e l = (r, e') ->
  0 <= shr_m r < 2 ^ 24 /\ -149 <= e'.
Proof.
  intros Hm E. unfold shr_fexp in E.
  pose proof (shr_div (shr_record_of_loc m l) e (fexp 24 128 (Zdigits2 m + e) - e)) as H.
  rewrite E, shr_of_loc in H. cbn [fst snd] in H. destruct (H Hm) as [-> ->]. clear E H.
  set (d := Zdigits2 m). assert (F : fexp 24 128 (d + e) = Z.max (d + e - 24) (-149)) by (unfold fexp, emin; lia).
  rewrite F. split; [|lia]. set (n := Z.max (Z.max (d + e - 24) (-149) - e) 0).
  pose proof (pow2_pos n ltac:(lia)) as Hp. split; [by apply Z.div_pos|].
  apply Z.div_lt_upper_bound; [done|]. destruct m as [|p|p]; [lia| |lia].
  pose proof (Zdigits2_log2 p) as Ed. fold d in Ed. pose proof (log2_bounds (Zpos p) ltac:(lia)) as [_ Hl].
  rewrite <- Ed in Hl. assert (Hd : 0 <= d) by (pose proof (Z.log2_nonneg (Zpos p)); lia).
  assert (2 ^ d <= 2 ^ n * 2 ^ 24); [|lia]. rewrite <- Z.pow_add_r by lia.
  apply Z.pow_le_mono_r; lia.
Qed.

Lemma round_aux_range s m e l : 0 <= m -> f32_range (binary_round_aux 24 128 s m e l).
Proof.
  intros Hm. unfold binary_round_aux.
  destruct (shr_fexp 24 128 m e l) as [r1 e1] eqn:E1. destruct (shr_fexp_range _ _ _ _ _ Hm E1) as [H1 He1].
  set (m2 := round_nearest_even _ _).
  assert (H2 : 0 <= m2) by (pose proof (rne_bounds (shr_m r1) (loc_of_shr_record r1)); lia).
  destruct (shr_fexp 24 128 m2 e1 loc_Exact) as [r2 e2] eqn:E2.
  destruct (shr_fexp_range _ _ _ _ _ H2 E2) as [H3 He2].
  destruct (shr_m r2); [done | | lia]. destruct (Z.leb_spec e2 (128 - 24)); [|done]. cbn. lia.
Qed.

Lemma normalize_range m e s : f32_range (binary_normalize 24 128 m e s).
Proof.
  destruct m as [|p|p]; [done| |]; cbn [binary_normalize]; unfold binary_round;
    destruct (shl_align _ _ _); apply round_aux_range; lia.
Qed.

Lemma f32_mul_range x y : f32_range (f32_mul x y).
Proof. destruct x as [sx|sx| |sx mx ex], y as [sy|sy| |sy my ey]; try done. apply round_aux_range. lia. Qed.

Lemma f32_opp_range x : f32_range x -> f32_range (SFopp x).
Proof. by destruct x. Qed.

Lemma f32_add_range x y : f32_range x -> f32_range y -> f32_range (f32_add x y).
Proof.
  destruct x as [sx|sx| |sx mx ex], y as [sy|sy| |sy my ey]; try done; intros _ _;
    try (by destruct sx, sy). apply normalize_range.
Qed.

Lemma f32_sub_range x y : f32_range x -> f32_range y -> f32_range (f32_sub x y).
Proof.
  destruct x as [sx|sx| |sx mx ex], y as [sy|sy| |sy my ey]; try done; intros _ _;
    try (by destruct sx, sy). apply normalize_range.
Qed.

Lemma f64_to_f32_range x : f32_range (f64_to_f32 x).
Proof. destruct x as [s|s| |s m e]; try done. apply normalize_range. Qed.

Lemma clampv_range x lo hi : f32_range x -> f32_range lo -> f32_range hi -> f32_range (clampv x lo hi).
Proof. intros. unfold clampv. by repeat case_match. Qed.

(** ** Typed commands *)

Definition header_typed (c : Command) : Prop :=
  let c := Cmd.with_axes c [] in
  uint 32 (Cmd.magic c) /\ uint 16 (Cmd.version c) /\ uint 16 (Cmd.reserved c) /\
  uint 64 (Cmd.seq c) /\ uint 64 (Cmd.timestamp_ns c) /\ uint 8 (Cmd.mode_raw c) /\
  uint 8 (Cmd.flags c) /\ uint 8 (Cmd.axis_count c) /\ uint 8 (Cmd.pad0 c) /\ uint 32 (Cmd.crc c).

Definition typed (c : Command) : Prop :=
  wf6 c /\ Forall f32_range (Cmd.axes c) /\ header_typed c.

Lemma wire_wf nan c : uint 32 nan -> typed c -> pb_wf (wire nan c).
Proof.
  intros Hn (Hw & Ha & Hh). unfold header_typed in Hh. cbn in Hh. destruct c as [m v r sq ts mo fl n p ax cr].
  unfold wf6 in Hw. cbn in *. do 6 (destruct ax as [|? ax]; [discriminate|]). destruct ax; [|discriminate].
  do 6 (apply Forall_cons in Ha as [? Ha]). unfold fields_wf, Cmd.widths, Cmd.fields. cbn.
  repeat (apply Forall2_cons; split); try apply Forall2_nil; try done;
    first [tauto | by apply f32_bits_range].
Qed.

Lemma same_header_typed c d : same_header d c -> header_typed c -> header_typed d.
Proof. unfold header_typed. by intros ->. Qed.

Lemma axis_range c k : Forall f32_range (Cmd.axes c) -> f32_range (axis c k).
Proof.
  intros Ha. unfold axis. rewrite nth_lookup. destruct (Cmd.axes c !! k) as [x|] eqn:E; [|done].
  exact (proj1 (Forall_lookup f32_range _) Ha k x E).
Qed.

Lemma typed_set c k v : typed c -> f32_range v -> typed (set_axis c k v).
Proof. intros (Hw & Ha & Hh) Hv. split_and!; [by apply wf6_set | by apply Forall_insert | done]. Qed.

Lemma typed_axis c k : typed c -> f32_range (axis c k).
Proof. intros (_ & Ha & _). by apply axis_range. Qed.

Lemma zeroed_typed m : typed (Cmd.zeroed f_zero m).
Proof. split_and!; [done | by repeat constructor|]. unfold header_typed, uint. destruct m; vm_compute; split_and!; congruence. Qed.

Lemma estop_typed sq t : uint 64 sq -> uint 64 t -> typed (Limits.write_emergency_stop sq t).
Proof.
  intros Hs Ht. split_and!; [done | by repeat constructor|].
  unfold header_typed. split_and!; first [done | by vm_compute].
Qed.

(** ** The stages of the loop *)

Lemma compensate_typed l c : typed c -> typed (Latency.compensate l c).
Proof.
  intros Hc. unfold Latency.compensate. case_if; [|done]. cbn [foldl].
  repeat (apply typed_set; [|apply f32_mul_range]). done.
Qed.

Lemma veto_typed v c d t : f32_range (Veto.cap_bits v) -> typed c -> Veto.apply v c = Ret (d, t) -> typed d.
Proof.
  intros Hv Hc. unfold Veto.apply. destruct (Veto.active v); cbn [negb]; [|by intros [= <- _]].
  set (cap := fmax _ _). assert (Hcap : f32_range cap).
  { unfold cap, fmax. repeat case_match; try done; by vm_compute. }
  generalize Veto.TRANSLATIONAL false. clearbody cap. intros axs. revert c Hc.
  induction axs as [|ax axs IH]; intros c Hc b; cbn [Veto.apply_loop]; [by intros [= <- _]|].
  intros (after & Ha & H)%bind_ret_inv. revert H. destruct (negb _); apply IH; [|done].
  apply typed_set; [done|]. apply fclamp_cases in Ha as [->|[->| ->]]; [by apply typed_axis | by apply f32_opp_range | done].
Qed.

Section Loop.
Context (hypot : f64 -> f64 -> f64).
Context {Q : Type} `{!BoundedFifo Q Command} {QE : Type} `{!BoundedFifo QE Transition}.
Implicit Types s : SafetyLoop Q QE.

Lemma mix_typed s c : uint 8 (Cmd.mode_raw (baseline s)) -> Forall f32_range (Cmd.axes (baseline s)) ->
  typed c -> typed (mix_authority s c).
Proof.
  intros Hb Hbx (Hw & Ha & Hh). unfold mix_authority. case_if; [|done]. split_and!; [done| |].
  - cbn. repeat constructor; apply f32_add_range; apply f32_mul_range.
  - unfold header_typed in *. cbn in *. destruct (fle _ _); tauto.
Qed.

Lemma clamp_typed g p verdict c d : typed c -> Geo.clamp_command hypot g p verdict c = Ret d -> typed d.
Proof.
  intros Hc. assert (Hn : f32_range Geo.THROTTLE_NEUTRAL) by (by vm_compute).
  assert (Hsup : forall sv c k u, typed c -> typed (Geo.suppress sv c k u)).
  { intros sv c' k u Hc'. unfold Geo.suppress. case_if; [|done]. apply typed_set; [done|].
    apply f32_sub_range; [by apply typed_axis | apply f64_to_f32_range]. }
  unfold Geo.clamp_command. intros (c1 & H1 & H2)%bind_ret_inv. injection H2 as <-.
  assert (Hc1 : typed c1).
  { revert H1. case_if; [|by intros [= <-]]. intros (sv & _ & H)%bind_ret_inv. injection H as <-.
    case_if; [|done]. by repeat apply Hsup. }
  repeat case_if; repeat apply typed_set; done.
Qed.

Lemma fence_typed s t c s' d : typed c -> fence_stage hypot s t c = Ret (s', d) -> typed d.
Proof.
  intros Hc. unfold fence_stage. case_decide; [by intros [= _ <-]|].
  intros (c1 & H1 & H2)%bind_ret_inv. apply (clamp_typed _ _ _ _ _ Hc) in H1.
  revert H2. case_if; [|by intros [= _ <-]].
  intros ([sm m] & _ & H2)%bind_ret_inv. by injection H2 as _ <-.
Qed.

Definition limits_range (l : Limits.KinematicLimits) : Prop :=
  f32_range (Limits.max_tilt_norm l) /\ f32_range (Limits.max_yaw_norm l) /\
  f32_range (Limits.max_lateral_norm l) /\ f32_range (Limits.max_axis_step l) /\
  f32_range (Limits.max_throttle_step l).

Lemma unit_range : f32_range (f32_of_Z 1).
Proof. by vm_compute. Qed.

Lemma limited_typed l prev c : limits_range l -> typed prev -> typed c ->
  typed (Cmd.with_axes c (limited l prev c <$> seq 0 6)).
Proof.
  intros (H1 & H2 & H3 & H4 & H5) Hp Hc. split_and!; [done| |by destruct Hc as (_ & _ & ?)].
  cbn [Cmd.axes Cmd.with_axes]. apply Forall_fmap, Forall_seq. intros k _. cbn. unfold limited.
  assert (H : f32_range (lo_of l k) /\ f32_range (hi_of l k) /\ f32_range (step_of l k)).
  { destruct k as [|[|[|[|k]]]]; split_and!; try exact unit_range; try assumption;
      try (apply f32_opp_range; assumption); exact I. }
  destruct H as (Hlo & Hhi & Hst).
  apply f32_add_range; [by apply typed_axis|]. apply clampv_range; [|by apply f32_opp_range | done].
  apply f32_sub_range; [|by apply typed_axis]. apply clampv_range; [by apply typed_axis | done | done].
Qed.

Lemma brake_typed s c : typed c -> typed (brake_stage s c).2.
Proof.
  intros Hc. unfold brake_stage. cbn [snd].
  assert (Hp : f32_range DESCEND_PIN_THROTTLE) by (by vm_compute).
  repeat case_if; repeat apply typed_set; done.
Qed.

(** What the loop's state must satisfy for its output to be typed. *)
Definition loop_typed s : Prop :=
  limits_range (limits (cfg s)) /\ f32_range (Veto.cap_bits (veto s)) /\ typed (last_out s) /\
  uint 8 (Cmd.mode_raw (baseline s)) /\ Forall f32_range (Cmd.axes (baseline s)).

Lemma advance_blend_same s s' : advance_blend s = Ret s' ->
  exists b a, s' = with_blend s b a.
Proof.
  unfold advance_blend. destruct (blend s) as [b|] eqn:E.
  - intros ([b' a] & _ & [= <-])%bind_ret_inv. eauto.
  - intros [= <-]. exists (blend s), (authority s). by rewrite with_blend_self.
Qed.

(** A tick on typed commands emits a typed command and leaves the loop ready for
    the next. *)
Lemma tick_typed fuel s inq outq c now unix_ns s' n o : loop_inv s inq outq -> last inq = Some c ->
  (length inq < fuel)%nat -> typed c -> uint 64 now -> loop_typed s ->
  process_one hypot fuel s now unix_ns = Ret (s', n, o) ->
  exists cmd, o = Some cmd /\ typed cmd /\ loop_typed s'.
Proof.
  intros I Hlast Hf Hc Hnow (Hl & Hv & Hp & Hm & Hx). unfold process_one.
  intros (s1 & (b1 & a1 & ->)%advance_blend_same & H)%bind_ret_inv.
  destruct (fifo_drain_spec inq fuel (input s) (li_input _ _ _ I) Hf) as (q & Hd & _).
  cbn [input with_blend] in H. rewrite Hd, ret_bind in H. cbn beta iota zeta in H. rewrite Hlast in H.
  destruct (Latency.observe _ _ _) as [lat delay].
  apply bind_ret_inv in H as (s2 & (b2 & a2 & ->)%advance_blend_same & H).
  set (c2 := mix_authority _ _) in H.
  assert (H2 : typed c2) by (apply mix_typed; [done | done | by apply compensate_typed]). clearbody c2.
  apply bind_ret_inv in H as ([c3 t3] & H3%veto_typed & H); [|done|done].
  apply bind_ret_inv in H as ([s4 c4] & E4 & H). pose proof (fence_typed _ _ _ _ _ H3 E4) as H4.
  assert (Hs4 : exists sm latched, s4 = with_machine (with_blend (with_latency
      (with_rings (with_blend s b1 a1) q (output s)) lat) b2 a2) sm latched).
  { revert E4. unfold fence_stage. case_decide.
    - intros [= <- _]. by do 2 eexists.
    - intros (c' & _ & E4)%bind_ret_inv. revert E4. case_if.
      + intros ([sm m] & _ & [= <- _])%bind_ret_inv. by do 2 eexists.
      + intros [= <- _]. by do 2 eexists. }
  destruct Hs4 as (sm & latched & ->).
  destruct (apply_limited (limits (cfg s)) (last_out s) c4 (li_limits _ _ _ I) (li_last _ _ _ I) (proj1 H4)) as [t5 E5].
  cbn [cfg last_out with_machine with_blend with_latency with_rings] in H. rewrite E5, ret_bind in H.
  cbn beta iota zeta in H.
  match type of H with context [brake_stage ?x ?y] =>
    pose proof (brake_typed x y (limited_typed _ _ _ Hl Hp H4)) as H6; pose proof (brake_keeps x y) as K;
    destruct (brake_stage x y) as [s6 c6] end.
  destruct K as (bl & d & [= -> <-] & _). cbn [snd] in H6.
  set (cmd := if estop_latched _ then _ else _) in H.
  assert (Hcmd : typed cmd).
  { unfold cmd. destruct (estop_latched _); [|done]. apply estop_typed; [|done]. apply H6. }
  clearbody cmd. apply bind_ret_inv in H as ([out r] & _ & H). injection H as <- _ <-.
  exists cmd. split; [done|]. split; [done|]. unfold loop_typed. cbn. by split_and!.
Qed.

End Loop.
