(* ===== verification/MuxSocket.v ===== *)
(** * The multiplexer on its socket: the rest of [tpt-t-link/src/mux.rs]

    [Mux] holds the framing and the parser with the socket's answers as inputs.
    Here the socket itself is the class [UdpOs], and binding, sending and receiving
    are the whole functions.  [UdpNet] says what a network of datagrams may do, which
    is to lose, delay, repeat and reorder them; [ship] and [receive] are about the two
    ends over it. *)

From stdpp Require Import strings.
From S2P Require Import Prelude Cast Backpressure Ser Crc Mesh Reliable Text Mux.

Class UdpOs (W Addr : Type) := {
  udp_bind : W -> list Z -> Z -> W * result Z IoError;
  udp_set_nonblocking : W -> Z -> bool -> W * result unit IoError;
  udp_close : W -> Z -> W;
  udp_local_addr : W -> Z -> result Addr IoError;
  udp_send_to : W -> Z -> list Z -> Addr -> W * result nat IoError;
  (** the buffer after the receive, the datagram's length and its sender *)
  udp_recv_from : W -> Z -> list Z -> W * result (list Z * nat * Addr) IoError
}.

(** ** The aligned receive buffer *)

Module Rx.

(** [base]: where the allocator put it; [repr(align(16))] *)
Record RxBuffer := { base : Z; buf : list Z }.
Definition new (base : Z) : RxBuffer := {| base := base; buf := replicate MAX_DATAGRAM 0 |}.
Definition default (base : Z) : RxBuffer := new base.
Definition fmt : list Z := ascii_bytes "RxBuffer(..)".
Definition deref (b : RxBuffer) : list Z := buf b.

Definition rx_ok (b : RxBuffer) : Prop := base b mod 16 = 0 /\ length (buf b) = MAX_DATAGRAM.

Lemma rx_new_ok a : a mod 16 = 0 -> rx_ok (new a).
Proof. intros Ha. split; [done|]. apply length_replicate. Qed.

End Rx.

Definition FrameError_fmt (e : FrameError) : list Z :=
  match e with
  | Malformed => ascii_bytes "malformed frame"
  | CrcMismatch => ascii_bytes "crc mismatch"
  | PayloadRejected => ascii_bytes "payload rejected"
  end.

(** ** The multiplexer and its socket *)

Module Sock.
Section Sock.
Context {W Addr : Type} `{UO : !UdpOs W Addr}.
Context `{RC : !Rkyv (Cmd.ControlCommand Z) pb_wf} `{RT : !Rkyv Telemetry.TelemetryPacket pb_wf}.

Record UdpMux := { socket : Z; mux : Mux.UdpMux }.

Definition bind_on (w : W) (host : list Z) (port : Z) : W * result UdpMux IoError :=
  let '(w, r) := udp_bind (Addr := Addr) w host port in
  match r with
  | Err e => (w, Err e)
  | Ok s =>
      let '(w, r) := udp_set_nonblocking (Addr := Addr) w s true in
      match r with
      | Err e => (udp_close (Addr := Addr) w s, Err e)
      | Ok _ => (w, Ok {| socket := s;
                          mux := {| scratch := []; stats := no_stats; backpressure := Bp.new 100000000 |} |})
      end
  end.

Definition bind (w : W) (port : Z) := bind_on w (ascii_bytes "0.0.0.0") port.
Definition bind_ephemeral (w : W) := bind w 0.
Definition bind_loopback (w : W) := bind_on w (ascii_bytes "127.0.0.1") 0.
Definition local_addr (w : W) (m : UdpMux) : result Addr IoError := udp_local_addr w (socket m).
Definition as_raw_fd (m : UdpMux) : Z := socket m.
(** dropping the value *)
Definition drop_mux (w : W) (m : UdpMux) : W := udp_close (Addr := Addr) w (socket m).

Definition send_framed (w : W) (m : UdpMux) (dst : Addr) (buf : list Z) (now_ns : Z)
  : W * UdpMux * result nat IoError :=
  let '(w, res) := udp_send_to w (socket m) buf dst in
  let '(x, r) := Mux.send_framed (mux m) res now_ns in
  (w, {| socket := socket m; mux := x |}, r).

(** one receive; [None] on would-block (off Windows nothing is retried) *)
Definition fill (w : W) (m : UdpMux) (b : Rx.RxBuffer)
  : W * Rx.RxBuffer * result (option (nat * Addr)) IoError :=
  let '(w, r) := udp_recv_from w (socket m) (Rx.buf b) in
  match r with
  | Ok (bs, n, from) => (w, {| Rx.base := Rx.base b; Rx.buf := bs |}, Ok (Some (n, from)))
  | Err WouldBlock | Err TimedOut => (w, b, Ok None)
  | Err e => (w, b, Err e)
  end.

Definition recv_frame (w : W) (m : UdpMux) (b : Rx.RxBuffer)
  : exec (W * UdpMux * Rx.RxBuffer * result (option (result (Inbound Addr) FrameError)) IoError) :=
  let '(w, b, r) := fill w m b in
  match r with
  | Err e => Ret (w, m, b, Err e)
  | Ok got =>
      '(x, step) ← Mux.recv_frame (mux m) (Rx.base b) ((fun '(n, from) => (Rx.buf b, n, from)) <$> got);
      Ret (w, {| socket := socket m; mux := x |}, b, Ok step)
  end.

End Sock.
End Sock.

(** ** A network of datagrams

    [on_way w t]: the datagrams that socket [t] may still receive.  Sending puts a
    datagram on the way, or loses it; a receive hands over one of those on the way,
    in any order, cut to the buffer, or none; the datagram may stay on the way, and
    be received again.  Nothing says that a datagram is ever received.

    What is received was sent by this process: the laws are about ports bound to
    127.0.0.1 that nobody else on the machine sends to. *)

Class UdpNet (W Addr : Type) `{UO : !UdpOs W Addr} := {
  on_way : W -> Z -> list (list Z);
  bind_law w w' s w'' : udp_bind (Addr := Addr) w (ascii_bytes "127.0.0.1") 0 = (w', Ok s) ->
    udp_set_nonblocking (Addr := Addr) w' s true = (w'', Ok tt) -> on_way w'' s = [];
  send_law w s bs a w' r : udp_send_to w s bs a = (w', r) ->
    forall t d, d ∈ on_way w' t -> d ∈ on_way w t \/ d = bs;
  recv_law w t buf w' r : udp_recv_from (Addr := Addr) w t buf = (w', r) ->
    (forall u d, d ∈ on_way w' u -> d ∈ on_way w u) /\
    match r with
    | Ok (buf', n, _) => exists d, d ∈ on_way w t /\ n = Nat.min (length d) (length buf) /\
                                   buf' = take n d ++ drop n buf
    | Err _ => True
    end
}.

Section Exchange.
Context {W Addr : Type} `{UO : !UdpOs W Addr} `{UN : !UdpNet W Addr}.
Context `{RC : !Rkyv (Cmd.ControlCommand Z) pb_wf} `{RT : !Rkyv Telemetry.TelemetryPacket pb_wf}.

(** nothing new is on the way *)
Definition nothing_new (w w' : W) : Prop := forall t d, d ∈ on_way w' t -> d ∈ on_way w t.
#[export] Instance nothing_new_preorder : PreOrder nothing_new.
Proof. split; [by intros w t d | intros w1 w2 w3 H1 H2 t d Hd; by apply H1, H2]. Qed.

Lemma nothing_new_nil w w' t : nothing_new w w' -> on_way w t = [] -> on_way w' t = [].
Proof.
  intros H E. destruct (on_way w' t) as [|d l] eqn:Ew; [done|].
  assert (Hd : d ∈ on_way w t) by (apply H; rewrite Ew; by left). rewrite E in Hd. by apply elem_of_nil in Hd.
Qed.
Lemma nothing_new_Forall P w w' t : nothing_new w w' -> Forall P (on_way w t) -> Forall P (on_way w' t).
Proof. rewrite !Forall_forall. intros H HP d Hd. by apply HP, H. Qed.

(** [d] is the frame of one of the commands [cmds], stamped with its integrity code *)
Definition stamped (cmd : Cmd.ControlCommand Z) : Cmd.ControlCommand Z := Cmd.with_crc cmd (command_crc cmd).
Definition carries (cmds : list (Cmd.ControlCommand Z)) (d : list Z) : Prop :=
  exists cmd bs, cmd ∈ cmds /\ pb_wf cmd /\ to_bytes (stamped cmd) = Some bs /\ (length bs <= MAX_PAYLOAD)%nat /\
                 d = framed Control 0 bs.

Lemma carries_mono cmds cmds' d : cmds ⊆ cmds' -> carries cmds d -> carries cmds' d.
Proof. intros H (cmd & bs & Hc & ?). exists cmd, bs. split; [by apply H | done]. Qed.

(** A command framed and handed to the socket: what is on the way afterwards was on
    the way before or is its frame. *)
Lemma ship w tx a buf now cmd bs cmds t :
  length buf = MAX_DATAGRAM -> pb_wf cmd -> to_bytes (stamped cmd) = Some bs -> (length bs <= MAX_PAYLOAD)%nat ->
  Forall (carries cmds) (on_way w t) ->
  exists x buf' n w1 tx' r,
    write_control_frame (Sock.mux tx) cmd 0 buf = Ret (x, buf', Ok n) /\ length buf' = MAX_DATAGRAM /\
    (n <= MAX_DATAGRAM)%nat /\ take n buf' = framed Control 0 bs /\
    Sock.send_framed w {| Sock.socket := Sock.socket tx; Sock.mux := x |} a (framed Control 0 bs) now = (w1, tx', r) /\
    Sock.socket tx' = Sock.socket tx /\ Forall (carries (cmds ++ [cmd])) (on_way w1 t) /\
    (w1, r) = udp_send_to w (Sock.socket tx) (framed Control 0 bs) a.
Proof.
  intros Hl Hw Hp Hn HF.
  destruct (write_archived_ok (Sock.mux tx) (Some bs) Control 0 buf Hl) as (x & buf' & res & Hs & _ & Hlen & Hres).
  destruct res as [n|]; [|lia]. destruct Hres as (bs' & [= <-] & _ & -> & Htake).
  destruct (udp_send_to w (Sock.socket tx) (framed Control 0 bs) a) as [w1 r] eqn:Es.
  exists x, buf', (20 + length bs)%nat, w1.
  destruct (Mux.send_framed x r now) as [m1 r1] eqn:Em.
  assert (Hr : r1 = r) by (unfold Mux.send_framed in Em; by destruct r as [|[]]; injection Em as _ <-).
  exists {| Sock.socket := Sock.socket tx; Sock.mux := m1 |}, r. subst r1.
  split; [unfold write_control_frame, stamped in *; by rewrite Hp|]. split; [done|].
  split; [unfold MAX_PAYLOAD, HEADER_LEN, TRAILER_LEN, MAX_DATAGRAM in *; lia|].
  split; [exact Htake|]. split; [unfold Sock.send_framed; cbn [Sock.socket Sock.mux]; by rewrite Es, Em|].
  split; [done|]. split; [|done]. apply Forall_forall. intros d Hd.
  destruct (send_law _ _ _ _ _ _ Es t d Hd) as [H| ->].
  - rewrite Forall_forall in HF. eapply carries_mono; [|by apply HF]. set_solver.
  - exists cmd, bs. split; [set_solver | done].
Qed.

(** A receive while only frames of commands are on the way: an error of the socket,
    nothing, or one of the commands. *)
Definition received (cmds : list (Cmd.ControlCommand Z))
    (r : result (option (result (Inbound Addr) FrameError)) IoError) : Prop :=
  match r with
  | Ok (Some (Ok (InControl c _ reliable))) => c ∈ stamped <$> cmds /\ reliable = false
  | Ok (Some _) => False
  | Ok None | Err _ => True
  end.

Lemma length_carried cmds d : carries cmds d -> (length d <= MAX_DATAGRAM)%nat.
Proof.
  intros (cmd & bs & _ & _ & _ & Hn & ->). rewrite length_framed.
  unfold MAX_PAYLOAD, HEADER_LEN, TRAILER_LEN, MAX_DATAGRAM in *. lia.
Qed.

Lemma demux_carried m base cmd bs (buf : list Z) (from : Addr) : base mod 16 = 0 -> pb_wf cmd -> to_bytes (stamped cmd) = Some bs ->
  (length bs <= MAX_PAYLOAD)%nat -> exists m',
  Mux.recv_frame m base (Some (framed Control 0 bs ++ buf, (20 + length bs)%nat, from)) =
    Ret (m', Some (Ok (InControl (stamped cmd) from false))).
Proof.
  intros Hbase Hw Hp Hn. assert (Ho : outbound_wf (OutControl cmd 0)) by (split; [done|]; vm_compute; done).
  assert (Hbs : bytes bs) by (by apply (to_bytes_bytes _ _ Hp)).
  cbn [Mux.recv_frame]. rewrite demux_framed by done. rewrite ret_bind.
  pose proof (demux_payload_inbound base (OutControl cmd 0) bs from Hbase Ho Hp) as Hd.
  cbn [channel_of fst snd inbound_of] in Hd. rewrite Hd. cbn [is_ok]. by eexists.
Qed.

Lemma receive w rx rb cmds : Rx.rx_ok rb -> Forall (carries cmds) (on_way w (Sock.socket rx)) ->
  exists w' rx' rb' r, Sock.recv_frame w rx rb = Ret (w', rx', rb', r) /\ nothing_new w w' /\
    Sock.socket rx' = Sock.socket rx /\ Rx.rx_ok rb' /\ received cmds r.
Proof.
  intros [Hbase Hrb] HF. unfold Sock.recv_frame, Sock.fill.
  destruct (udp_recv_from w (Sock.socket rx) (Rx.buf rb)) as [w' r] eqn:Er.
  destruct (recv_law _ _ _ _ _ Er) as [Hnew Hr].
  destruct r as [[[buf' n] from]|e].
  - destruct Hr as (d & Hd & -> & ->). rewrite Forall_forall in HF. pose proof (HF d Hd) as Hc.
    pose proof (length_carried _ _ Hc) as Hld. rewrite Hrb, (Nat.min_l _ _ Hld), take_ge by done.
    destruct Hc as (cmd & bs & Hin & Hw & Hp & Hn & ->).
    cbn [fmap option_fmap option_map Rx.base Rx.buf]. rewrite length_framed.
    destruct (demux_carried (Sock.mux rx) (Rx.base rb) cmd bs (drop (20 + length bs) (Rx.buf rb)) from Hbase Hw Hp Hn) as [m' E].
    rewrite E, ret_bind. do 4 eexists. split; [reflexivity|]. split; [exact Hnew|]. split; [done|]. split.
    + split; [done|]. cbn [Rx.buf]. rewrite length_app, length_framed, length_drop, Hrb. rewrite length_framed in Hld. lia.
    + split; [|done]. apply list_elem_of_fmap. by exists cmd.
  - destruct e; cbn [fmap option_fmap option_map Mux.recv_frame]; rewrite ?ret_bind;
      (do 4 eexists; split; [reflexivity|]; split; [exact Hnew|]; by destruct rx).
Qed.

(** ** Prompt delivery

    What a network that loses nothing does: as long as nothing else is on the way to
    [t], a datagram sent from [s] to [b] is what the next receive on [t] returns, and
    then nothing is on the way.  [I] says what stays true of the world meanwhile.
    Nothing assumes this; it is the condition under which nothing is lost. *)
Definition delivers (I : W -> Prop) (s t : Z) (b : Addr) : Prop :=
  forall w bs buf, I w -> on_way w t = [] -> (length bs <= MAX_DATAGRAM)%nat -> length buf = MAX_DATAGRAM ->
    exists w1 w2 from, udp_send_to w s bs b = (w1, Ok (length bs)) /\
      udp_recv_from w1 t buf = (w2, Ok (bs ++ drop (length bs) buf, length bs, from)) /\ I w2 /\ on_way w2 t = [].

Lemma receive_prompt I s rx b w rb cmd bs : delivers I s (Sock.socket rx) b -> I w -> on_way w (Sock.socket rx) = [] ->
  Rx.rx_ok rb -> pb_wf cmd -> to_bytes (stamped cmd) = Some bs -> (length bs <= MAX_PAYLOAD)%nat ->
  exists w1 w2 rx' rb' from, udp_send_to w s (framed Control 0 bs) b = (w1, Ok (20 + length bs)%nat) /\
    Sock.recv_frame w1 rx rb = Ret (w2, rx', rb', Ok (Some (Ok (InControl (stamped cmd) from false)))) /\
    I w2 /\ on_way w2 (Sock.socket rx) = [].
Proof.
  intros HD Hw0 Hi [Hbase Hrb] Hw Hp Hn.
  assert (Hmax : (length (framed Control 0 bs) <= MAX_DATAGRAM)%nat).
  { rewrite length_framed. unfold MAX_PAYLOAD, HEADER_LEN, TRAILER_LEN, MAX_DATAGRAM in *. lia. }
  destruct (HD w (framed Control 0 bs) (Rx.buf rb) Hw0 Hi Hmax Hrb) as (w1 & w2 & from & E1 & E2 & H1 & H2).
  rewrite length_framed in E1, E2.
  destruct (demux_carried (Sock.mux rx) (Rx.base rb) cmd bs (drop (20 + length bs) (Rx.buf rb)) from Hbase Hw Hp Hn) as [m' E].
  exists w1, w2. do 3 eexists. split; [exact E1|]. split; [|done].
  unfold Sock.recv_frame, Sock.fill. rewrite E2. cbn [fmap option_fmap option_map Rx.base Rx.buf]. rewrite E, ret_bind.
  reflexivity.
Qed.

End Exchange.
