(* ===== verification/Pipeline.v ===== *)
(** * The whole data plane: [tpt-t-integration/src/pipeline.rs]

    [PipelineHarness] wires the components of this library together: operator
    input, routing over the bus, the safety loop, the simulator as an optional
    sink, framing, the socket and the parser.  [pipeline_refines_loop] is about the
    composition: what comes out at the far end of the link is a command the safety
    loop emitted, as the loop left it, whatever datagrams the network loses, delays,
    repeats or reorders; and if it delivers each datagram at once, every command
    comes out in its step. *)

From stdpp Require Import strings.
From S2P Require Import Prelude Cast Ring Mode Pool Ser Crc Backpressure Mesh Reliable Text Mux Float FloatText FloatFacts Safety SafetyLoop Hal Input Sim CmdWire MuxSocket.

(** ** The scripted source *)

Module Scripted.
Section Source.
Context {QR : Type} `{RR : !BoundedFifo QR Report.ControllerReport}.

(** [inner] is shared with the harness, which pushes into it. *)
Record SharedScriptedSource := { inner : QR; src_info : Report.DeviceInfo }.

Definition new (inner : QR) : SharedScriptedSource :=
  {| inner := inner;
     src_info := {| Report.vendor_id := 0; Report.product_id := 0; Report.path := [];
                    Report.num_axes := 8; Report.num_buttons := 0 |} |}.

Definition poll (s : SharedScriptedSource) (out : Report.ControllerReport)
  : exec (SharedScriptedSource * Report.ControllerReport * bool) :=
  '(q, o) ← fifo_pop (inner s);
  let s := {| inner := q; src_info := src_info s |} in
  Ret (match o with Some r => (s, r, true) | None => (s, out, false) end).

Definition reopen (s : SharedScriptedSource) : exec (SharedScriptedSource * result unit InputError) :=
  '(q, _) ← fifo_drain (S (Z.to_nat (fifo_len (inner s)))) (inner s);
  Ret ({| inner := q; src_info := src_info s |}, Ok tt).

#[export] Instance source : RawInputSource SharedScriptedSource := {|
  Input.poll := poll; info := src_info; Input.reopen := reopen
|}.

End Source.
Arguments SharedScriptedSource : clear implicits.
End Scripted.
#[export] Existing Instance Scripted.source.
#[local] Existing Instance VirtualCan.endpoint_bus.

(** ** The simulator sink *)

(** [raw as u16] saturates; [to_be_bytes] *)
Definition motor_frame (thrust : f32) : exec CanFrame :=
  t ← fclamp thrust f_zero (f32_of_Z 1);
  let raw := f64_saturate 0 65535 (f32_mul t (f32_of_Z 65535)) in
  Ret (Can.new Can.MOTOR_CMD (concat (replicate 4 [raw / 256; raw mod 256]))).

(** the pose record is the HAL's on both sides *)
Definition geo_pose (p : Frame.Pose6D f64) : Geo.Pose6D :=
  {| Geo.x := Frame.x p; Geo.y := Frame.y p; Geo.z := Frame.z p; Geo.yaw := Frame.yaw p;
     Geo.pitch := Frame.pitch p; Geo.roll := Frame.roll p; Geo.reserved := Frame.pose_reserved p |}.

Module Sink.
Section Sink.
Context `{LM : Libm} (nan32 nan64 : Z).
Context {QC : Type} `{RCan : !BoundedFifo QC CanFrame}.

(** [can] holds the two endpoints [can_op] (side [A]) and [can_veh] (side [B]). *)
Record SimState := {
  world : World.World; drone : Drone.QuadDrone; can : VirtualCan.CanPair (Q := QC);
  imu : Telemetry.ImuSample; gps : Telemetry.GpsSample; pose : Frame.Pose6D f64
}.

Definition new : SimState :=
  let w := World.new (Vec.V3 f_zero f_zero (f64_lit (-981) 100)) in
  let '(w, d) := Drone.spawn w in
  {| world := w; drone := d; can := VirtualCan.can_pair 16; imu := Telemetry.imu_zeroed 0 0;
     gps := Telemetry.gps_zeroed 0 0; pose := Frame.default_pose f_zero |}.

(** the receive loop: every frame waiting at the vehicle's end *)
Fixpoint deliver (fuel : nat) (p : VirtualCan.CanPair (Q := QC)) (d : Drone.QuadDrone)
  : exec (VirtualCan.CanPair (Q := QC) * Drone.QuadDrone) :=
  match fuel with
  | O => NoFuel
  | S fuel =>
      '(e, f, got) ← can_recv (VirtualCan.endpoint p VirtualCan.B) (Can.new 0 []);
      let p := VirtualCan.with_endpoint p VirtualCan.B e in
      if negb got then Ret (p, d)
      else
        '(d, _) ← Drone.handle_can d f;
        deliver fuel p d
  end.

Definition tick (s : SimState) (safe : Command) : exec SimState :=
  thrust ← fclamp (axis safe THROTTLE) f_zero (f32_of_Z 1);
  f ← motor_frame thrust;
  '(e, _) ← can_send (VirtualCan.endpoint (can s) VirtualCan.A) f;
  let p := VirtualCan.with_endpoint (can s) VirtualCan.A e in
  '(p, d) ← deliver (S (Z.to_nat (fifo_len (VirtualCan.lane p VirtualCan.A)))) p (drone s);
  '(d, w) ← Drone.apply_actuation d (world s) DT_S;
  w ← World.step w DT_S;
  '(d, imu, gps, pose) ← Drone.post_step nan32 nan64 d w DT_S (imu s) (gps s) (pose s);
  Ret {| world := w; drone := d; can := p; imu := imu; gps := gps; pose := pose |}.

End Sink.
Arguments SimState : clear implicits.
End Sink.

(** ** The harness *)

(** the two other things the harness asks of its host *)
Class Pace (W : Type) := {
  sleep_us : W -> Z -> W;
  system_time_ns : W -> Z
}.

Section Harness.
Context (hypot : f64 -> f64 -> f64) (nan32 nan64 : Z).
Context `{LM : Libm}.
Context {Q QE QR QC K W Addr : Type}.
Context `{RQ : !BoundedFifo Q Command} `{RE : !BoundedFifo QE Transition}
  `{RR : !BoundedFifo QR Report.ControllerReport} `{RCan : !BoundedFifo QC CanFrame}.
Context `{HK : !Haptics.HapticSink K} `{UO : !UdpOs W Addr} `{PW : !Pace W}.
Context `{RC : !Rkyv (Cmd.ControlCommand Z) pb_wf} `{RT : !Rkyv Telemetry.TelemetryPacket pb_wf}.

Notation Stage := (InputStage Q (Scripted.SharedScriptedSource QR) K).

(** The rings [input], [safety_in], [safety_out] and [queue] are each shared by two
    owners; they live in [ring ingest], [input loop_], [output loop_] and
    [inner (source ingest)]. *)
Record PipelineHarness := {
  loop_ : SafetyLoop Q QE; bus : Bus.MessageBus Q; safety_sub : nat; logger_sub : nat;
  ingest : Stage; sim : option (Sink.SimState QC); tx : Sock.UdpMux; rx : Sock.UdpMux; dst : Addr;
  send_buf : list Z; rx_buf : Rx.RxBuffer; route_scratch : list Command;
  logger_scratch : list Command; routed_count : Z
}.

Fixpoint idle_ticks (n : nat) (l : SafetyLoop Q QE) (unix_ns : Z) : exec (SafetyLoop Q QE) :=
  match n with
  | O => Ret l
  | S n =>
      '(l, _, _) ← process_one hypot (drain_fuel l) l 0 unix_ns;
      idle_ticks n l unix_ns
  end.

(** the safety loop of [build_with], settled in full teleoperation *)
Definition settled_loop (cfg : SafetyConfig) (unix_ns : Z) : exec (SafetyLoop Q QE) :=
  l ← SafetyLoop.new (fifo_with_capacity 1024) (fifo_with_capacity 1024) Machine.new cfg;
  '(l, _) ← request_mode l unix_ns Assist;
  '(l, _) ← request_mode l unix_ns FullTeleop;
  idle_ticks 500 l unix_ns.

(** [at_]: where the receive buffer is placed *)
Definition build_with (w : W) (at_ : Z) (cfg : SafetyConfig)
  : exec (W * result PipelineHarness IoError) :=
  l ← settled_loop cfg (system_time_ns w);
  let '(b, safety_sub) := Bus.subscribe (Bus.new 1024) in
  let '(b, logger_sub) := Bus.subscribe b in
  let '(w, r) := Sock.bind_loopback (Addr := Addr) w in
  match r with
  | Err e => Ret (w, Err e)
  | Ok tx =>
      let '(w, r) := Sock.bind_loopback (Addr := Addr) w in
      match r with
      | Err e => Ret (Sock.drop_mux (Addr := Addr) w tx, Err e)
      | Ok rx =>
          match Sock.local_addr w rx with
          | Err e => Ret (Sock.drop_mux (Addr := Addr) (Sock.drop_mux (Addr := Addr) w rx) tx, Err e)
          | Ok dst =>
              let queue := fifo_with_capacity 256 in
              Ret (w, Ok {| loop_ := l; bus := b; safety_sub := safety_sub; logger_sub := logger_sub;
                ingest := stage_new (Scripted.new queue) Map.default (fifo_with_capacity 1024);
                sim := None; tx := tx; rx := rx; dst := dst; send_buf := replicate MAX_DATAGRAM 0;
                rx_buf := Rx.new at_; route_scratch := []; logger_scratch := []; routed_count := 0 |})
          end
      end
  end.

Definition build (w : W) (at_ : Z) := build_with w at_ default_config.

Definition with_ingest (h : PipelineHarness) (st : Stage) : PipelineHarness :=
  {| loop_ := loop_ h; bus := bus h; safety_sub := safety_sub h; logger_sub := logger_sub h;
     ingest := st; sim := sim h; tx := tx h; rx := rx h; dst := dst h; send_buf := send_buf h;
     rx_buf := rx_buf h; route_scratch := route_scratch h; logger_scratch := logger_scratch h;
     routed_count := routed_count h |}.
Definition with_sim (h : PipelineHarness) (l : SafetyLoop Q QE) (s : option (Sink.SimState QC)) : PipelineHarness :=
  {| loop_ := l; bus := bus h; safety_sub := safety_sub h; logger_sub := logger_sub h;
     ingest := ingest h; sim := s; tx := tx h; rx := rx h; dst := dst h; send_buf := send_buf h;
     rx_buf := rx_buf h; route_scratch := route_scratch h; logger_scratch := logger_scratch h;
     routed_count := routed_count h |}.
Definition with_tx (h : PipelineHarness) (m : Sock.UdpMux) (buf : list Z) : PipelineHarness :=
  {| loop_ := loop_ h; bus := bus h; safety_sub := safety_sub h; logger_sub := logger_sub h;
     ingest := ingest h; sim := sim h; tx := m; rx := rx h; dst := dst h; send_buf := buf;
     rx_buf := rx_buf h; route_scratch := route_scratch h; logger_scratch := logger_scratch h;
     routed_count := routed_count h |}.
Definition with_rx (h : PipelineHarness) (m : Sock.UdpMux) (buf : Rx.RxBuffer) : PipelineHarness :=
  {| loop_ := loop_ h; bus := bus h; safety_sub := safety_sub h; logger_sub := logger_sub h;
     ingest := ingest h; sim := sim h; tx := tx h; rx := m; dst := dst h; send_buf := send_buf h;
     rx_buf := buf; route_scratch := route_scratch h; logger_scratch := logger_scratch h;
     routed_count := routed_count h |}.
Definition with_routing (h : PipelineHarness) (st : Stage) (l : SafetyLoop Q QE) (b : Bus.MessageBus Q)
    (rs ls : list Command) (n : Z) : PipelineHarness :=
  {| loop_ := l; bus := b; safety_sub := safety_sub h; logger_sub := logger_sub h;
     ingest := st; sim := sim h; tx := tx h; rx := rx h; dst := dst h; send_buf := send_buf h;
     rx_buf := rx_buf h; route_scratch := rs; logger_scratch := ls; routed_count := n |}.

(** the ring the ingest stage fills *)
Definition with_input (st : Stage) (q : Q) : Stage :=
  {| source := source st; map := map st; ring := q; haptics := haptics st;
     scratch_report := scratch_report st |}.

Definition enable_sim (h : PipelineHarness) : PipelineHarness := with_sim h (loop_ h) (Some Sink.new).

Definition feed_report (h : PipelineHarness) (r : Report.ControllerReport) : exec PipelineHarness :=
  let s := source (ingest h) in
  '(q, _) ← fifo_push (Scripted.inner s) r;
  Ret (with_ingest h {| source := {| Scripted.inner := q; Scripted.src_info := Scripted.src_info s |};
         map := map (ingest h); ring := ring (ingest h); haptics := haptics (ingest h);
         scratch_report := scratch_report (ingest h) |}).

Definition ingest_tick (h : PipelineHarness) (now_ns : Z) : exec PipelineHarness :=
  '(st, _) ← tick (ingest h) now_ns;
  Ret (with_ingest h st).

Definition routed (h : PipelineHarness) : Z := routed_count h.
Definition harness_pose (h : PipelineHarness) : Frame.Pose6D f64 :=
  match sim h with Some s => Sink.pose s | None => Frame.default_pose f_zero end.

(** [while let Some(cmd) = self.input.pop()] *)
Fixpoint publish_input (fuel : nat) (q : Q) (b : Bus.MessageBus Q) (n : Z)
  : exec (Q * Bus.MessageBus Q * Z) :=
  match fuel with
  | O => NoFuel
  | S fuel =>
      '(q, o) ← fifo_pop q;
      match o with
      | None => Ret (q, b, n)
      | Some cmd =>
          '(b, _) ← Bus.publish b cmd;
          publish_input fuel q b (wadd 64 n 1)
      end
  end.

(** [for c in scratch.drain(..) { let _ = ring.push(c); }] *)
Fixpoint push_all (q : Q) (cs : list Command) : exec Q :=
  match cs with
  | [] => Ret q
  | c :: cs => '(q, _) ← fifo_push q c; push_all q cs
  end.

Definition poll_bus (b : Bus.MessageBus Q) (id : nat) : exec (Bus.MessageBus Q * list Command) :=
  n ← Bus.pending b id;
  Bus.poll (S (Z.to_nat n)) b id.

Definition route (h : PipelineHarness) : exec PipelineHarness :=
  let q := ring (ingest h) in
  '(q, b, n) ← publish_input (S (Z.to_nat (fifo_len q))) q (bus h) (routed_count h);
  '(b, cs) ← poll_bus b (safety_sub h);
  sin ← push_all (input (loop_ h)) cs;
  '(b, ls) ← poll_bus b (logger_sub h);
  Ret (with_routing h (with_input (ingest h) q) (with_rings (loop_ h) sin (output (loop_ h))) b [] ls n).

(** the beginning both tails share: safety, sink, framing and transmission *)
Definition emit (w : W) (h : PipelineHarness) (now_ns : Z)
  : exec (W * PipelineHarness * result (option nat) IoError) :=
  '(l, _, _) ← process_one hypot (drain_fuel (loop_ h)) (loop_ h) now_ns (system_time_ns w);
  '(q, safe) ← fifo_pop (output l);
  let l := with_rings l (input l) q in
  match safe with
  | None => Ret (w, with_sim h l (sim h), Ok None)
  | Some s =>
      '(l, sm) ← (match sim h with
                  | None => Ret (l, None)
                  | Some sm => sm ← Sink.tick nan32 nan64 sm s; Ret (set_pose l (geo_pose (Sink.pose sm)), Some sm)
                  end);
      let h := with_sim h l sm in
      '(x, buf, r) ← write_control_frame (Sock.mux (tx h)) (wire nan32 s) 0 (send_buf h);
      let h := with_tx h {| Sock.socket := Sock.socket (tx h); Sock.mux := x |} buf in
      match r with
      | Err e => Ret (w, h, Err e)
      | Ok n =>
          sl ← slice_to (send_buf h) n;
          let '(w, m, r) := Sock.send_framed w (tx h) (dst h) sl now_ns in
          let h := with_tx h m (send_buf h) in
          Ret (w, h, match r with Ok sent => Ok (Some sent) | Err e => Err e end)
      end
  end.

(** [for _ in 0..n] *)
Fixpoint recv_rounds (n : nat) (w : W) (h : PipelineHarness)
  : exec (W * PipelineHarness * result (option (Cmd.ControlCommand Z)) IoError) :=
  match n with
  | O => Ret (w, h, Ok None)
  | S n =>
      '(w, m, b, r) ← Sock.recv_frame w (rx h) (rx_buf h);
      let h := with_rx h m b in
      match r with
      | Err e => Ret (w, h, Err e)
      | Ok (Some (Ok (InControl cmd _ _))) => Ret (w, h, Ok (Some (command_from_archived cmd)))
      | Ok (Some _) => recv_rounds n w h
      | Ok None => recv_rounds n (sleep_us w 20) h
      end
  end.

Definition recv_one (w : W) (h : PipelineHarness) := recv_rounds 400 w h.

Definition run_hot (w : W) (h : PipelineHarness) (now_ns : Z)
  : exec (W * PipelineHarness * result (option (Cmd.ControlCommand Z)) IoError) :=
  '(w, h, r) ← emit w h now_ns;
  match r with Err e => Ret (w, h, Err e) | Ok _ => recv_one w h end.

Definition forward_tail (w : W) (h : PipelineHarness) (now_ns : Z)
  : exec (W * PipelineHarness * result nat IoError) :=
  '(w, h, r) ← emit w h now_ns;
  Ret (w, h, match r with Err e => Err e | Ok sent => Ok (default 0%nat sent) end).

Definition push_input (h : PipelineHarness) (cmd : Command) : exec PipelineHarness :=
  '(q, _) ← fifo_push (ring (ingest h)) cmd;
  Ret (with_ingest h (with_input (ingest h) q)).

Definition step (w : W) (h : PipelineHarness) (now_ns : Z) :=
  h ← ingest_tick h now_ns; h ← route h; run_hot w h now_ns.
Definition step_direct (w : W) (h : PipelineHarness) (cmd : Command) (now_ns : Z) :=
  h ← push_input h cmd; h ← route h; run_hot w h now_ns.
Definition pump_forward (w : W) (h : PipelineHarness) (now_ns : Z) :=
  h ← ingest_tick h now_ns; h ← route h; forward_tail w h now_ns.
Definition pump_forward_direct (w : W) (h : PipelineHarness) (cmd : Command) (now_ns : Z) :=
  h ← push_input h cmd; h ← route h; forward_tail w h now_ns.

(** ** The harness between two commands *)

Context `{UN : !UdpNet W Addr}.
(** a pause brings nothing new on the way *)
Hypothesis pause_quiet : forall (w : W) us, nothing_new w (sleep_us w us).

(** the frame a command leaves in *)
Definition on_wire (c : Command) : Cmd.ControlCommand Z := stamped (wire nan32 c).

Definition sim_ok (s : Sink.SimState QC) : Prop :=
  Drone.drone_ok (Sink.world s) (Sink.drone s) /\ fifo_rep (VirtualCan.a2b (Sink.can s)) [].

(** [past]: the commands emitted so far; only their frames may be on the way *)
Record ready (past : list Command) (w : W) (h : PipelineHarness) : Prop := {
  rd_loop : loop_inv (loop_ h) [] [];
  rd_typed : loop_typed (loop_ h);
  rd_in : 1 <= fifo_capacity (input (loop_ h));
  rd_out : 1 <= fifo_capacity (output (loop_ h));
  rd_ring : fifo_rep (ring (ingest h)) [];
  rd_ring_cap : 1 <= fifo_capacity (ring (ingest h));
  rd_bus : Bus.bus_rep (bus h) 1024 [[]; []];
  rd_subs : safety_sub h = 0%nat /\ logger_sub h = 1%nat;
  rd_send : length (send_buf h) = MAX_DATAGRAM;
  rd_rx : Rx.rx_ok (rx_buf h);
  rd_way : Forall (carries (wire nan32 <$> past)) (on_way w (Sock.socket (rx h)));
  rd_sim : match sim h with Some s => sim_ok s | None => True end
}.

(** *** The sink *)

Lemma saturate_range lo hi v : lo <= 0 <= hi -> lo <= f64_saturate lo hi v <= hi.
Proof. intros H. unfold f64_saturate. repeat case_match; lia. Qed.

Lemma motor_frame_ok v : exists f, motor_frame v = Ret f /\ Drone.frame_ok f.
Proof.
  unfold motor_frame. rewrite fclamp_eq, ret_bind by (vm_compute; reflexivity).
  set (raw := f64_saturate _ _ _). assert (Hr : 0 <= raw <= 65535) by (apply saturate_range; lia). clearbody raw.
  eexists. split; [reflexivity|]. split; [done|].
  assert (Hb : byte (raw / 256) /\ byte (raw mod 256)).
  { unfold byte, uint. pose proof (Z.mod_pos_bound raw 256). split; [|lia].
    split; [apply Z.div_pos; lia | apply Z.div_lt_upper_bound; lia]. }
  destruct Hb. unfold bytes. cbn. repeat (constructor; [done|]). constructor.
Qed.

Lemma deliver_ok l w : forall fuel p d, fifo_rep (VirtualCan.a2b p) l -> Forall Drone.frame_ok l ->
  (length l < fuel)%nat -> Drone.drone_ok w d ->
  exists p' d', Sink.deliver fuel p d = Ret (p', d') /\ fifo_rep (VirtualCan.a2b p') [] /\ Drone.drone_ok w d'.
Proof.
  induction l as [|f l IH]; intros fuel p d Hp Hl Hf Hd; (destruct fuel as [|fuel]; [simpl in Hf; lia|]);
    cbn [Sink.deliver can_recv VirtualCan.endpoint_bus].
  - destruct (VirtualCan.can_recv_spec (VirtualCan.endpoint p VirtualCan.B) (Can.new 0 []) [] Hp)
      as (e & E & _ & _ & He). rewrite E, ret_bind. cbn. do 2 eexists. split; [reflexivity|]. by split.
  - destruct (VirtualCan.can_recv_spec (VirtualCan.endpoint p VirtualCan.B) (Can.new 0 []) (f :: l) Hp)
      as (e & E & _ & _ & He). rewrite E, ret_bind. cbn [negb default head].
    apply Forall_cons in Hl as [Hfr Hl].
    destruct (Drone.handle_can_spec w d f Hd Hfr) as (d1 & r & E1 & Hd1 & _).
    change (id f) with f. rewrite E1, ret_bind.
    apply IH; [exact He | done | simpl in Hf; lia | done].
Qed.

Lemma sink_tick_ok s safe : sim_ok s -> exists s', Sink.tick nan32 nan64 s safe = Ret s' /\ sim_ok s' /\
  Drone.pose_grounded (Sink.drone s') (Sink.world s') (Sink.pose s').
Proof.
  intros [Hd Hc]. unfold Sink.tick. rewrite fclamp_eq, ret_bind by (vm_compute; reflexivity).
  destruct (motor_frame_ok (clampv (axis safe THROTTLE) f_zero (f32_of_Z 1))) as (f & -> & Hf). rewrite ret_bind.
  cbn [can_send VirtualCan.endpoint_bus].
  destruct (VirtualCan.can_send_spec (VirtualCan.endpoint (Sink.can s) VirtualCan.A) f [] Hc)
    as (e & r & -> & _ & He & _). rewrite ret_bind. cbn beta iota zeta.
  set (p := VirtualCan.with_endpoint _ _ e). set (l := [] ++ _) in He.
  assert (Hl : Forall Drone.frame_ok l) by (unfold l; destruct r; [by apply Forall_singleton | apply Forall_nil_2]).
  assert (Hp : fifo_rep (VirtualCan.a2b p) l) by exact He. clearbody l.
  change (VirtualCan.lane p VirtualCan.A) with (VirtualCan.a2b p). rewrite (fifo_len_rep _ _ Hp), Nat2Z.id.
  destruct (deliver_ok l (Sink.world s) (S (length l)) p (Sink.drone s) Hp Hl) as (p' & d1 & -> & Hp' & Hd1); [lia|done|].
  rewrite ret_bind.
  destruct (Drone.apply_actuation_ok d1 (Sink.world s) DT_S Hd1) as (d2 & w2 & -> & (Hw2 & Hb2 & Hm2) & _).
  rewrite ret_bind. cbn beta iota zeta.
  destruct (World.step_ok w2 DT_S Hw2) as (w3 & -> & Hw3 & Hl3 & Ha3 & _). rewrite ret_bind.
  assert (Hd3 : Drone.drone_ok w3 d2) by (split_and!; [done|by rewrite Hl3|done]).
  destruct (Drone.post_step_ok nan32 nan64 d2 w3 DT_S (Sink.imu s) (Sink.gps s) (Sink.pose s) Hd3)
    as (d4 & i & g & po & -> & Hd4 & Eb & _ & b & Hb & _ & _ & _ & Ez).
  rewrite ret_bind. eexists. split; [reflexivity|]. split; [by split|]. exists b. cbn. rewrite Eb.
  split_and!; [done|done|]. apply (proj1 (Forall_forall _ _) Ha3). by eapply list_elem_of_lookup_2.
Qed.

(** *** Routing *)

Lemma push_one (q : Q) c : fifo_rep q [] -> 1 <= fifo_capacity q ->
  exists q', fifo_push q c = Ret (q', Ok tt) /\ fifo_rep q' [c] /\ fifo_capacity q' = fifo_capacity q.
Proof. intros Hq Hc. apply (fifo_push_ok q [] c Hq). simpl. lia. Qed.

Lemma publish_ok (b : Bus.MessageBus Q) (c : Command) : Bus.bus_rep b 1024 [[]; []] ->
  exists b' n, Bus.publish b c = Ret (b', n) /\ Bus.bus_rep b' 1024 [[c]; [c]].
Proof.
  intros Hb. destruct (bus_fan_out b 1024 [[]; []] c Hb) as [(b' & E & Hb') _].
  eexists b', _. split; [exact E|]. exact Hb'.
Qed.

Lemma poll_ok (b : Bus.MessageBus Q) l1 l2 id l : Bus.bus_rep b 1024 [l1; l2] -> [l1; l2] !! id = Some l ->
  exists b', poll_bus b id = Ret (b', l) /\ Bus.bus_rep b' 1024 (<[id := []]> [l1; l2]).
Proof.
  intros Hb Hl. unfold poll_bus.
  destruct (proj2 (bus_fan_out b 1024 [l1; l2] (Cmd.zeroed f_zero Auto) Hb) id l
    (S (length l)) Hl) as (Hp & Hd & _). rewrite Hp, ret_bind, Nat2Z.id. apply Hd. lia.
Qed.

Lemma route_ok past w h c : ready past w h -> exists h',
  (h ← push_input h c; route h) = Ret h' /\
  (exists q, fifo_push (input (loop_ h)) c = Ret (q, Ok tt) /\ loop_ h' = with_rings (loop_ h) q (output (loop_ h))) /\
  Bus.bus_rep (bus h') 1024 [[]; []] /\ fifo_rep (ring (ingest h')) [] /\
  fifo_capacity (ring (ingest h')) = fifo_capacity (ring (ingest h)) /\
  safety_sub h' = 0%nat /\ logger_sub h' = 1%nat /\ sim h' = sim h /\ tx h' = tx h /\ rx h' = rx h /\
  dst h' = dst h /\ send_buf h' = send_buf h /\ rx_buf h' = rx_buf h /\
  routed_count h' = wadd 64 (routed_count h) 1.
Proof.
  intros R. destruct (rd_subs _ _ _ R) as [Hs1 Hs2].
  unfold push_input. destruct (push_one _ c (rd_ring _ _ _ R) (rd_ring_cap _ _ _ R)) as (q1 & -> & Hq1 & Hc1).
  rewrite ret_bind. cbn beta iota. rewrite ret_bind. unfold route.
  cbn [ingest with_ingest with_input ring bus routed_count safety_sub logger_sub loop_].
  rewrite (fifo_len_rep _ _ Hq1). change (S (Z.to_nat (Z.of_nat (length [c])))) with 2%nat.
  cbn [publish_input]. destruct (fifo_pop_some _ _ _ Hq1) as (q2 & -> & Hq2 & Hc2). rewrite ret_bind. cbn beta iota.
  destruct (publish_ok _ c (rd_bus _ _ _ R)) as (b1 & n & -> & Hb1). rewrite ret_bind. cbn beta iota.
  rewrite (fifo_pop_nil _ Hq2), ret_bind. cbn beta iota. rewrite ret_bind. cbn beta iota.
  rewrite Hs1, Hs2. destruct (poll_ok _ _ _ 0%nat _ Hb1 eq_refl) as (b2 & -> & Hb2). rewrite ret_bind. cbn beta iota.
  destruct (push_one (input (loop_ h)) c (li_input _ _ _ (rd_loop _ _ _ R)) (rd_in _ _ _ R)) as (q3 & E3 & Hq3 & Hc3).
  cbn [push_all]. rewrite E3, !ret_bind. cbn [insert list_insert] in Hb2.
  destruct (poll_ok _ _ _ 1%nat _ Hb2 eq_refl) as (b3 & -> & Hb3). rewrite ret_bind. cbn beta iota.
  eexists. split; [reflexivity|]. cbn. split_and!; try done; [eauto | congruence].
Qed.

(** *** One command through the plane *)

Definition is_pose (o : loop_op) : Prop := match o with OpPose _ => True | _ => False end.

(** the simulated vehicle is above the ground, and the safety loop knows its pose *)
Definition grounded (h : PipelineHarness) : Prop :=
  match sim h with
  | Some s => Drone.pose_grounded (Sink.drone s) (Sink.world s) (Sink.pose s) /\
              pose (loop_ h) = geo_pose (Sink.pose s)
  | None => True
  end.

(** the archive of a command is small: the command has a fixed layout *)
Hypothesis archive_fits : forall c : Cmd.ControlCommand Z, pb_wf c ->
  exists bs, to_bytes c = Some bs /\ (length bs <= MAX_PAYLOAD)%nat.

Lemma recv_first n w h w' m b cmd a r :
  Sock.recv_frame w (rx h) (rx_buf h) = Ret (w', m, b, Ok (Some (Ok (InControl cmd a r)))) ->
  recv_rounds (S n) w h = Ret (w', with_rx h m b, Ok (Some (command_from_archived cmd))).
Proof. intros E. cbn [recv_rounds]. by rewrite E. Qed.

Lemma recv_one_first w h w' m b cmd a r :
  Sock.recv_frame w (rx h) (rx_buf h) = Ret (w', m, b, Ok (Some (Ok (InControl cmd a r)))) ->
  recv_one w h = Ret (w', with_rx h m b, Ok (Some (command_from_archived cmd))).
Proof. unfold recv_one. change 400%nat with (S 399). generalize 399%nat. intros k. apply recv_first. Qed.

(** what a step may answer: a command emitted by then, nothing, or an error of the
    socket *)
Definition answered (past : list Command) (r : result (option (Cmd.ControlCommand Z)) IoError) : Prop :=
  match r with Ok (Some c) => c ∈ on_wire <$> past | _ => True end.

Lemma recv_rounds_ok past n : forall w h, Rx.rx_ok (rx_buf h) ->
  Forall (carries (wire nan32 <$> past)) (on_way w (Sock.socket (rx h))) ->
  exists w' m b r, recv_rounds n w h = Ret (w', with_rx h m b, r) /\ nothing_new w w' /\
    Sock.socket m = Sock.socket (rx h) /\ Rx.rx_ok b /\ answered past r.
Proof.
  induction n as [|n IH]; intros w h Hb HF; cbn [recv_rounds].
  - exists w, (rx h), (rx_buf h), (Ok None). split; [by destruct h|]. by split_and!.
  - destruct (receive w (rx h) (rx_buf h) _ Hb HF) as (w1 & m & b & r & -> & Hn & Hs & Hb' & Hr). rewrite ret_bind.
    cbn beta iota zeta.
    destruct r as [[[[c from rep| | | | |]|]|]|e]; cbn [received] in Hr; try done.
    + do 4 eexists. split; [reflexivity|]. split_and!; try done. cbn [answered].
      destruct Hr as [(x & -> & (k & -> & Hk)%list_elem_of_fmap)%list_elem_of_fmap _].
      apply list_elem_of_fmap. exists k. split; [reflexivity | done].
    + destruct (IH (sleep_us w1 20) (with_rx h m b)) as (w2 & m2 & b2 & r2 & -> & Hn2 & Hs2 & Hb2 & Hr2); [done|..].
      { cbn [rx with_rx]. rewrite Hs. eapply nothing_new_Forall; [|exact HF]. etrans; [exact Hn | apply pause_quiet]. }
      do 4 eexists. split; [reflexivity|]. split; [|by rewrite Hs2].
      etrans; [exact Hn|]. etrans; [apply pause_quiet | done].
    + do 4 eexists. split; [reflexivity|]. by split_and!.
Qed.

Lemma recv_one_ok past w h : Rx.rx_ok (rx_buf h) -> Forall (carries (wire nan32 <$> past)) (on_way w (Sock.socket (rx h))) ->
  exists w' m b r, recv_one w h = Ret (w', with_rx h m b, r) /\ nothing_new w w' /\
    Sock.socket m = Sock.socket (rx h) /\ Rx.rx_ok b /\ answered past r.
Proof. unfold recv_one. generalize 400%nat. intros n. apply recv_rounds_ok. Qed.

Lemma rings_inv l i o iq oq (q1 q2 : Q) : loop_inv l i o -> fifo_rep q1 iq -> fifo_rep q2 oq -> Forall wf6 iq ->
  loop_inv (with_rings l q1 q2) iq oq.
Proof. intros [H1 H2 H3 H4 H5 H6 H7] ???. by constructor. Qed.

(** framing and transmission of what the loop emitted: the end of [emit] *)
Definition transmit (w : W) (h : PipelineHarness) (s : Command) (now_ns : Z)
  : exec (W * PipelineHarness * result (option nat) IoError) :=
  '(x, buf, r) ← write_control_frame (Sock.mux (tx h)) (wire nan32 s) 0 (send_buf h);
  let h := with_tx h {| Sock.socket := Sock.socket (tx h); Sock.mux := x |} buf in
  match r with
  | Err e => Ret (w, h, Err e)
  | Ok n =>
      sl ← slice_to (send_buf h) n;
      let '(w, m, r) := Sock.send_framed w (tx h) (dst h) sl now_ns in
      let h := with_tx h m (send_buf h) in
      Ret (w, h, match r with Ok sent => Ok (Some sent) | Err e => Err e end)
  end.

(** the two ends of the link stay where they are *)
Definition same_ends (h h' : PipelineHarness) : Prop :=
  Sock.socket (tx h') = Sock.socket (tx h) /\ Sock.socket (rx h') = Sock.socket (rx h) /\ dst h' = dst h.

(** the link of the harness delivers each datagram at once, the world staying in [I] *)
Definition prompt (I : W -> Prop) (h : PipelineHarness) : Prop :=
  delivers I (Sock.socket (tx h)) (Sock.socket (rx h)) (dst h).
(** nothing is on the way to the receiving end *)
Definition idle (w : W) (h : PipelineHarness) : Prop := on_way w (Sock.socket (rx h)) = [].

Lemma prompt_same I h h' : same_ends h h' -> prompt I h -> prompt I h'.
Proof. unfold prompt. by intros (-> & -> & ->). Qed.

Lemma ship_ok past w h s now :
  typed s -> length (send_buf h) = MAX_DATAGRAM -> Rx.rx_ok (rx_buf h) ->
  Forall (carries (wire nan32 <$> past)) (on_way w (Sock.socket (rx h))) -> uint 32 nan32 ->
  exists w' h' tx' buf rx' rb' r,
    ('(w, h, r) ← transmit w h s now; match r with Err e => Ret (w, h, Err e) | Ok _ => recv_one w h end) = Ret (w', h', r) /\
    h' = with_rx (with_tx h tx' buf) rx' rb' /\
    length buf = MAX_DATAGRAM /\ Rx.rx_ok rb' /\ same_ends h h' /\
    Forall (carries (wire nan32 <$> past ++ [s])) (on_way w' (Sock.socket (rx h))) /\ answered (past ++ [s]) r /\
    forall I, prompt I h -> I w -> idle w h -> r = Ok (Some (on_wire s)) /\ I w' /\ idle w' h.
Proof.
  intros Hs Hl Hrb HF Hn. pose proof (wire_wf nan32 s Hn Hs) as Hw.
  destruct (archive_fits (on_wire s)) as (bs & Hbs & Hfit); [by apply with_crc_wf|].
  destruct (ship w (tx h) (dst h) (send_buf h) now (wire nan32 s) bs (wire nan32 <$> past) (Sock.socket (rx h)) Hl Hw Hbs Hfit HF)
    as (x & buf & n & w1 & tx' & res & E1 & Hlb & Hnm & Htk & E2 & Ht & HF1 & Eu).
  set (g := with_tx h tx' buf). change [wire nan32 s] with (wire nan32 <$> [s]) in HF1. rewrite <- fmap_app in HF1.
  assert (Et : transmit w h s now = Ret (w1, g, match res with Ok sent => Ok (Some sent) | Err e => Err e end)).
  { unfold transmit. rewrite E1, ret_bind. cbn beta iota zeta. cbn [with_tx send_buf tx dst].
    rewrite slice_to_ok by lia. rewrite ret_bind, Htk, E2. reflexivity. }
  rewrite Et, ret_bind. cbn beta iota. clear Et.
  assert (Hp : forall I, prompt I h -> I w -> idle w h -> exists w2 rx' rb' from, is_ok res = true /\
    Sock.recv_frame w1 (rx h) (rx_buf h) = Ret (w2, rx', rb', Ok (Some (Ok (InControl (on_wire s) from false)))) /\
    I w2 /\ idle w2 h).
  { intros I HI Hi Hq. destruct (receive_prompt I _ _ _ w (rx_buf h) (wire nan32 s) bs HI Hi Hq Hrb Hw Hbs Hfit)
      as (v1 & v2 & rx' & rb' & from & F1 & F2 & F3 & F4).
    rewrite <- Eu in F1. injection F1 as -> ->. exists v2, rx', rb', from. by split_and!. }
  destruct res as [sent|e].
  - destruct (recv_one_ok (past ++ [s]) w1 g Hrb HF1) as (w2 & m & b & r & Er & Hnew & Hm & Hb & Ha). rewrite Er.
    exists w2, (with_rx g m b), tx', buf, m, b, r. split; [reflexivity|]. split; [done|]. split; [done|]. split; [done|].
    split; [by split_and!|]. split; [by eapply nothing_new_Forall|]. split; [done|].
    intros I HI Hi Hq. destruct (Hp I HI Hi Hq) as (v2 & rx' & rb' & from & _ & Ef & Hv & Hv').
    rewrite (recv_one_first _ g _ _ _ _ _ _ Ef) in Er. injection Er as <- _ _ <-. done.
  - exists w1, g, tx', buf, (rx h), (rx_buf h), (Err e). split; [reflexivity|].
    split; [by destruct h|]. split; [done|]. split; [done|]. split; [by split_and!|]. split; [done|]. split; [done|].
    intros I HI Hi Hq. by destruct (Hp I HI Hi Hq) as (? & ? & ? & ? & ? & _).
Qed.

Lemma set_pose_inv l p i o : loop_inv l i o -> loop_inv (set_pose l p) i o.
Proof. intros [H1 H2 H3 H4 H5 H6 H7]. by constructor. Qed.

(** what the loop does between two commands of the harness *)
Lemma loop_part past h c now unix_ns q w : ready past w h -> typed c -> uint 64 now ->
  fifo_push (input (loop_ h)) c = Ret (q, Ok tt) ->
  exists l1 out q',
    let l0 := with_rings (loop_ h) q (output (loop_ h)) in
    process_one hypot (drain_fuel l0) l0 now unix_ns = Ret (l1, 1%nat, Some out) /\
    fifo_pop (output l1) = Ret (q', Some out) /\
    loop_run hypot (loop_ h) [OpInput c; OpTick now unix_ns; OpTake] = Ret (with_rings l1 (input l1) q', [out]) /\
    loop_inv (with_rings l1 (input l1) q') [] [] /\ loop_typed (with_rings l1 (input l1) q') /\
    1 <= fifo_capacity (input l1) /\ 1 <= fifo_capacity q' /\ typed out /\ Cmd.seq out = Cmd.seq c.
Proof.
  intros R Hc Hnow Eq.
  destruct (push_one (input (loop_ h)) c (li_input _ _ _ (rd_loop _ _ _ R)) (rd_in _ _ _ R)) as (q0 & E0 & Hq & Hcap).
  rewrite E0 in Eq. injection Eq as ->. set (l0 := with_rings (loop_ h) q (output (loop_ h))).
  assert (I0 : loop_inv l0 [c] []).
  { apply (rings_inv _ _ _ _ _ _ _ (rd_loop _ _ _ R) Hq (li_output _ _ _ (rd_loop _ _ _ R))).
    apply Forall_singleton. apply Hc. }
  assert (Hf : (length [c] < drain_fuel l0)%nat).
  { unfold drain_fuel. cbn [input l0 with_rings]. rewrite Hcap. pose proof (rd_in _ _ _ R). simpl. lia. }
  destruct (process_cmd hypot (drain_fuel l0) l0 [c] [] c now unix_ns I0 eq_refl Hf)
    as (l1 & out & pre & E1 & I1 & _ & _ & _ & Ho1 & Hi1 & _ & _ & _ & _ & Hpre & _ & _ & Hout).
  destruct (tick_typed hypot (drain_fuel l0) l0 [c] [] c now unix_ns l1 _ _ I0 eq_refl Hf Hc Hnow (rd_typed _ _ _ R) E1)
    as (cmd & [= <-] & Ht & Hlt).
  assert (Hcap0 : 1 <= fifo_capacity (output l0)) by apply (rd_out _ _ _ R).
  assert (Hroom : (Z.of_nat (length ([] : list Command)) <? fifo_capacity (output l0)) = true) by (apply Z.ltb_lt; simpl length; lia).
  rewrite Hroom in I1. cbn [app] in I1.
  destruct (fifo_pop_some _ _ _ (li_output _ _ _ I1)) as (q' & E2 & Hq' & Hcap').
  exists l1, out, q'. cbv zeta. split; [exact E1|]. split; [exact E2|]. split.
  { cbn [loop_run loop_step]. rewrite E0. cbn [mbind exec_bind]. fold l0. rewrite E1. cbn [mbind exec_bind].
    rewrite E2. done. }
  split; [by apply (rings_inv _ _ _ _ _ _ _ I1 (li_input _ _ _ I1) Hq')|].
  split; [exact Hlt|]. split; [rewrite Hi1; cbn [input l0 with_rings]; rewrite Hcap; apply (rd_in _ _ _ R)|].
  split; [rewrite Hcap', Ho1; exact Hcap0|]. split; [done|].
  rewrite Hout. destruct (estop_latched l1); [done|].
  destruct (brake_keeps l0 (Cmd.with_axes pre (limited (limits (cfg l0)) (last_out l0) pre <$> seq 0 6)))
    as (b & d & E & [Hd _] & _). rewrite E. cbn [snd]. rewrite Hd. exact Hpre.
Qed.

Lemma step_direct_ok past w h c now : uint 32 nan32 -> ready past w h -> typed c -> uint 64 now ->
  exists w' h' r out poses, step_direct w h c now = Ret (w', h', r) /\ ready (past ++ [out]) w' h' /\
    answered (past ++ [out]) r /\
    loop_run hypot (loop_ h) (OpInput c :: OpTick now (system_time_ns w) :: OpTake :: poses) = Ret (loop_ h', [out]) /\
    Forall is_pose poses /\ Cmd.seq out = Cmd.seq c /\ routed h' = wadd 64 (routed h) 1 /\ grounded h' /\
    same_ends h h' /\
    forall I, prompt I h -> I w -> idle w h -> r = Ok (Some (on_wire out)) /\ I w' /\ idle w' h.
Proof.
  intros Hn R Hc Hnow. destruct (route_ok past w h c R) as (h1 & Er & (q & Eq & El) & Hbus & Hring & Hrcap & Hs1 & Hs2
    & Hsim & Htx & Hrx & Hdst & Hsb & Hrb & Hcnt).
  destruct (loop_part past h c now (system_time_ns w) q w R Hc Hnow Eq)
    as (l1 & out & q' & E1 & E2 & Erun & I2 & T2 & Hic & Hoc & Hto & Hseq). cbv zeta in E1.
  assert (Est : step_direct w h c now = (h ← (h ← push_input h c; route h); run_hot w h now)).
  { unfold step_direct. by destruct (push_input h c). }
  rewrite Est, Er, ret_bind. clear Est. unfold run_hot, emit. rewrite El, E1, ret_bind. cbn beta iota.
  rewrite E2, ret_bind. cbn beta iota zeta. rewrite Hsim.
  set (l2 := with_rings l1 (input l1) q') in *.
  assert (Hsink : exists l3 sm poses,
    match sim h with
    | None => Ret (l2, None)
    | Some sm => sm ← Sink.tick nan32 nan64 sm out; Ret (set_pose l2 (geo_pose (Sink.pose sm)), Some sm)
    end = Ret (l3, sm) /\ loop_inv l3 [] [] /\ loop_typed l3 /\ input l3 = input l2 /\ output l3 = q' /\
    match sm with Some s => sim_ok s /\ Drone.pose_grounded (Sink.drone s) (Sink.world s) (Sink.pose s) /\
                            pose l3 = geo_pose (Sink.pose s) | None => True end /\
    Forall is_pose poses /\ loop_run hypot l2 poses = Ret (l3, [])).
  { pose proof (rd_sim _ _ _ R) as Hsok. destruct (sim h) as [s|].
    - destruct (sink_tick_ok s out Hsok) as (s' & -> & Hs' & Hg). rewrite ret_bind.
      exists (set_pose l2 (geo_pose (Sink.pose s'))), (Some s'), [OpPose (geo_pose (Sink.pose s'))].
      split; [done|]. split; [by apply set_pose_inv|]. split_and!; try done. by apply Forall_singleton.
    - exists l2, None, []. by split_and!. }
  destruct Hsink as (l3 & sm & poses & -> & I3 & T3 & Hi3 & Ho3 & Hsm & Hpo & Erun3). rewrite ret_bind. cbn beta iota.
  destruct (ship_ok past w (with_sim h1 l3 sm) out now) as (w2 & h2 & tx' & buf & rx' & rb' & r & F1 & F2 & F3 & F4 & F5 & F6 & F7 & F8).
  { done. } { cbn [with_sim send_buf]. rewrite Hsb. apply R. } { cbn [with_sim rx_buf]. rewrite Hrb. apply R. }
  { cbn [with_sim rx]. rewrite Hrx. apply R. } { done. }
  cbn [with_sim rx] in F6. rewrite Hrx in F6.
  assert (Hends : same_ends h h2).
  { destruct F5 as (G1 & G2 & G3). cbn [with_sim tx rx dst] in G1, G2, G3. rewrite Htx in G1. rewrite Hrx in G2. rewrite Hdst in G3.
    by split_and!. }
  exists w2, h2, r, out, poses. split; [exact F1|]. clear F1. split.
  { destruct (rd_subs _ _ _ R) as [? ?]. destruct Hends as (_ & Hends & _).
    constructor; rewrite ?Hends; rewrite ?F2; cbn; try done; rewrite ?Hi3, ?Ho3; try done.
    - rewrite Hrcap. apply (rd_ring_cap _ _ _ R).
    - destruct sm; [apply Hsm | done]. }
  split; [done|]. split.
  { rewrite F2. change (OpInput c :: OpTick now (system_time_ns w) :: OpTake :: poses) with
      ([OpInput c; OpTick now (system_time_ns w); OpTake] ++ poses).
    rewrite loop_run_app, Erun. cbn [mbind exec_bind]. by rewrite Erun3. }
  split; [done|]. split; [done|]. split; [rewrite F2; exact Hcnt|]. split; [rewrite F2; unfold grounded; cbn; destruct sm; [apply Hsm | done]|].
  split; [done|]. intros I HI Hi Hq. unfold idle in *. cbn [with_sim rx] in F8. rewrite Hrx in F8. apply F8; [|done|done].
  revert HI. unfold prompt. cbn [with_sim tx rx dst]. by rewrite Htx, Hrx, Hdst.
Qed.

(** *** Building the harness *)

Hypothesis small_rings : fifo_min (Q := Q) (A := Command) <= 1024 /\
  fifo_min (Q := QE) (A := Transition) <= Machine.DEFAULT_EVENT_RING /\
  fifo_min (Q := QR) (A := Report.ControllerReport) <= 256 /\ fifo_min (Q := QC) (A := CanFrame) <= 16.

Lemma advance_typed (l l' : SafetyLoop Q QE) : advance_blend l = Ret l' -> loop_typed l -> loop_typed l'.
Proof. by intros (b & a & ->)%advance_blend_same. Qed.

Lemma idle_ticks_ok n : forall l t, loop_inv l [] [] -> loop_typed l ->
  exists l', idle_ticks n l t = Ret l' /\ loop_inv l' [] [] /\ loop_typed l' /\
    fifo_capacity (input l') = fifo_capacity (input l) /\ fifo_capacity (output l') = fifo_capacity (output l).
Proof.
  induction n as [|n IH]; intros l t I T; cbn [idle_ticks]; [by exists l|].
  destruct (process_idle hypot (drain_fuel l) l [] 0 t I) as (l1 & E & I1 & _ & _ & _ & _ & _ & Ho & Hi);
    [unfold drain_fuel; lia|].
  rewrite E, ret_bind. cbn beta iota. assert (T1 : loop_typed l1).
  { unfold process_one in E. apply bind_ret_inv in E as (l0 & E0 & E).
    apply bind_ret_inv in E as ([q d] & _ & E). pose proof (advance_typed _ _ E0 T) as T0.
    destruct (last d); [|by injection E as <-].
    destruct (Latency.observe _ _ _) in E. apply bind_ret_inv in E as (? & _ & E).
    apply bind_ret_inv in E as ([? ?] & _ & E). apply bind_ret_inv in E as ([? ?] & _ & E).
    apply bind_ret_inv in E as ([? ?] & _ & E). destruct (brake_stage _ _).
    by apply bind_ret_inv in E as ([? ?] & _ & E). }
  destruct (IH l1 t I1 T1) as (l2 & E2 & I2 & T2 & H1 & H2). exists l2. split_and!; congruence || done.
Qed.

Lemma request_typed (l l' : SafetyLoop Q QE) t m r : request_mode l t m = Ret (l', r) -> loop_typed l ->
  loop_typed l' /\ input l' = input l /\ output l' = output l.
Proof.
  unfold request_mode. intros ([sm x] & _ & E)%bind_ret_inv T. destruct x; [|by injection E as <- _].
  destruct (flt _ _); by injection E as <- _.
Qed.

Lemma settled_ok t : exists l, settled_loop default_config t = Ret l /\ loop_inv l [] [] /\ loop_typed l /\
  fifo_capacity (input l) = 1024 /\ fifo_capacity (output l) = 1024.
Proof.
  destruct small_rings as (HQ & HE & _). unfold settled_loop, SafetyLoop.new, Latency.new.
  rewrite fclamp_eq by (vm_compute; reflexivity). rewrite !ret_bind.
  set (l0 := {| SafetyLoop.input := _ |}).
  assert (H0 : fifo_rep (fifo_with_capacity 1024 : Q) []) by (apply fifo_new_rep; lia).
  assert (I0 : loop_inv l0 [] []).
  { constructor; try done; try exact H0.
    exists Auto, []. apply new_rep. split; [exact HE|]. by vm_compute. }
  assert (T0 : loop_typed l0).
  { split; [by vm_compute|]. split; [done|]. split; [apply zeroed_typed|].
    split; [by vm_compute|]. by repeat constructor. }
  destruct (request_mode_ok l0 Assist t [] [] I0) as (l1 & r1 & E1 & I1 & _). rewrite E1, ret_bind. cbn beta iota.
  destruct (request_typed _ _ _ _ _ E1 T0) as (T1 & Hi1 & Ho1).
  destruct (request_mode_ok l1 FullTeleop t [] [] I1) as (l2 & r2 & E2 & I2 & _). rewrite E2, ret_bind. cbn beta iota.
  destruct (request_typed _ _ _ _ _ E2 T1) as (T2 & Hi2 & Ho2).
  destruct (idle_ticks_ok 500 l2 t I2 T2) as (l3 & E3 & I3 & T3 & Hi3 & Ho3).
  exists l3. split; [exact E3|]. split; [done|]. split; [done|].
  rewrite Hi3, Ho3, Hi2, Ho2, Hi1, Ho1. cbn [input output l0]. by rewrite fifo_new_cap.
Qed.

Lemma bind_loopback_ok w w' m : Sock.bind_loopback (Addr := Addr) w = (w', Ok m) -> on_way w' (Sock.socket m) = [].
Proof.
  unfold Sock.bind_loopback, Sock.bind_on. destruct (udp_bind w _ 0) as [w1 [s|e]] eqn:E1; [|done].
  destruct (udp_set_nonblocking w1 s true) as [w2 [[]|e]] eqn:E2; [|done]. intros [= <- <-].
  exact (bind_law w w1 s w2 E1 E2).
Qed.

Lemma sink_new_ok : sim_ok Sink.new.
Proof.
  destruct small_rings as (_ & _ & _ & HC). unfold Sink.new. cbv zeta. set (w0 := World.new _).
  pose proof (Drone.spawn_ok w0 (World.new_ok _)) as Hs. destruct (Drone.spawn w0) as [wd dr].
  split; [apply Hs|]. cbn. apply fifo_new_rep. lia.
Qed.

(** Building never panics; a harness it returns is ready, with or without the
    simulator. *)
Lemma build_ready w at_ : at_ mod 16 = 0 ->
  exists w' r, build w at_ = Ret (w', r) /\
    match r with Ok h => ready [] w' h /\ ready [] w' (enable_sim h) /\ idle w' h | Err _ => True end.
Proof.
  intros Ha. destruct small_rings as (HQ & HE & HR & HC). unfold build, build_with.
  destruct (settled_ok (system_time_ns w)) as (l & -> & I & T & Hi & Ho). rewrite ret_bind.
  cbn [Bus.subscribe Bus.new Bus.subscribers Bus.per_subscriber_capacity app length].
  destruct (Sock.bind_loopback w) as [w1 [t|e]] eqn:E1; [|by do 2 eexists].
  destruct (Sock.bind_loopback w1) as [w2 [x|e]] eqn:E2; [|by do 2 eexists].
  destruct (Sock.local_addr w2 x) as [d|e] eqn:E3; [|by do 2 eexists].
  pose proof (bind_loopback_ok _ _ _ E2) as Hin.
  assert (H0 : fifo_rep (fifo_with_capacity 1024 : Q) []) by (apply fifo_new_rep; lia).
  do 2 eexists. split; [reflexivity|]. cbn beta iota.
  match goal with |- ready _ _ ?h /\ _ => assert (R : ready [] w2 h) end.
  { constructor; cbn; try done; rewrite ?Hi, ?Ho, ?fifo_new_cap; try done.
    - split; [done|]. repeat constructor; try exact H0; by rewrite fifo_new_cap.
    - by rewrite Hin. }
  split; [done|]. split; [|done]. destruct R. constructor; try done. apply sink_new_ok.
Qed.

(** *** Runs *)

Fixpoint drive (w : W) (h : PipelineHarness) (cmds : list (Command * Z))
  : exec (W * PipelineHarness * list (result (option (Cmd.ControlCommand Z)) IoError)) :=
  match cmds with
  | [] => Ret (w, h, [])
  | (c, t) :: cmds =>
      '(w, h, r) ← step_direct w h c t;
      '(w, h, rs) ← drive w h cmds;
      Ret (w, h, r :: rs)
  end.

(** [serves cmds ops]: a bare safety loop is given each command, ticks once, has
    its output taken, and may be told a pose. *)
Inductive serves : list (Command * Z) -> list loop_op -> Prop :=
| serves_nil : serves [] []
| serves_cons c t u poses cmds ops : Forall is_pose poses -> serves cmds ops ->
    serves ((c, t) :: cmds) ((OpInput c :: OpTick t u :: OpTake :: poses) ++ ops).

(** the answers [rs] of steps that emitted [outs], after [past] *)
Definition answers (past outs : list Command) (rs : list (result (option (Cmd.ControlCommand Z)) IoError)) : Prop :=
  length rs = length outs /\ forall k r, rs !! k = Some r -> answered (past ++ take (S k) outs) r.

Lemma answers_cons past out outs r rs : answered (past ++ [out]) r -> answers (past ++ [out]) outs rs ->
  answers past (out :: outs) (r :: rs).
Proof.
  intros Hr [Hl Ha]. split; [cbn; by rewrite Hl|]. intros [|k] x; cbn [lookup list_lookup].
  - by intros [= <-].
  - intros Hx%Ha. by rewrite <- app_assoc in Hx.
Qed.

Lemma drive_ok cmds : uint 32 nan32 -> Forall (fun ct => typed ct.1 /\ uint 64 ct.2) cmds ->
  forall past w h, ready past w h ->
  exists w' h' rs outs ops, drive w h cmds = Ret (w', h', rs) /\
    ready (past ++ outs) w' h' /\ serves cmds ops /\ loop_run hypot (loop_ h) ops = Ret (loop_ h', outs) /\
    Cmd.seq <$> outs = (fun ct : Command * Z => Cmd.seq ct.1) <$> cmds /\ answers past outs rs /\
    (grounded h \/ cmds <> [] -> grounded h') /\
    forall I, prompt I h -> I w -> idle w h -> rs = (fun o => Ok (Some (on_wire o))) <$> outs.
Proof.
  intros Hn Hc. induction Hc as [|[c t] cmds [Ht Hu] Hc IH]; intros past w h R.
  - exists w, h, [], [], []. rewrite app_nil_r. split_and!; try done; [constructor | by intros [|]].
  - cbn [drive]. destruct (step_direct_ok past w h c t Hn R Ht Hu)
      as (w1 & h1 & r & out & poses & -> & R1 & Ha & Erun & Hp & Hs & _ & Hg & He & Hd). rewrite ret_bind. cbn beta iota.
    destruct (IH (past ++ [out]) w1 h1 R1) as (w2 & h2 & rs & outs & ops & -> & R2 & Hsv & Erun2 & Hs2 & Ha2 & Hg2 & Hd2). rewrite ret_bind.
    eexists w2, h2, (r :: rs), (out :: outs), _. split; [reflexivity|]. split; [by rewrite <- app_assoc in R2|].
    split; [by constructor|]. split.
    { rewrite loop_run_app, Erun. cbn [mbind exec_bind]. by rewrite Erun2. }
    split; [cbn; by rewrite Hs, Hs2|]. split; [by apply answers_cons|]. split; [auto|].
    intros I HI Hi Hq. destruct (Hd I HI Hi Hq) as (-> & Hi1 & Hq1). cbn. f_equal. apply (Hd2 I); [|done|].
    + by eapply prompt_same.
    + unfold idle in *. destruct He as (_ & -> & _). done.
Qed.

(** C3: the data plane refines the safety loop, over a network that may lose, delay,
    repeat and reorder datagrams.  Whatever commands are pushed through a ready harness,
    one per step, no step panics or hangs, and the harness's safety loop does what a bare
    one does that is given the same commands and the poses of the simulator.  What
    a step answers from the far end of the link is an error of the socket, nothing, or
    a command the loop has emitted by then, in this step or an earlier one, stamped with
    its integrity code and not altered by routing, framing, the socket or the parser
    (as long as nobody else on the machine sends to the receiving port).  If the network
    does hand over each datagram at the next receive, the answers are the commands the
    loop emitted, one for one and in order.  The harness is ready for more, and the
    simulated vehicle is never below the ground. *)
Theorem pipeline_refines_loop past w h cmds : uint 32 nan32 -> ready past w h ->
  Forall (fun ct => typed ct.1 /\ uint 64 ct.2) cmds ->
  exists w' h' rs outs ops, drive w h cmds = Ret (w', h', rs) /\
    ready (past ++ outs) w' h' /\ serves cmds ops /\ loop_run hypot (loop_ h) ops = Ret (loop_ h', outs) /\
    Cmd.seq <$> outs = (fun ct : Command * Z => Cmd.seq ct.1) <$> cmds /\ answers past outs rs /\
    (cmds <> [] -> grounded h') /\
    forall I, prompt I h -> I w -> idle w h -> rs = (fun o => Ok (Some (on_wire o))) <$> outs.
Proof.
  intros Hn R Hc. destruct (drive_ok cmds Hn Hc past w h R)
    as (w' & h' & rs & outs & ops & E & R' & Hs & El & Hq & Ha & Hg & Hd).
  exists w', h', rs, outs, ops. split_and!; auto.
Qed.

(** *** The ingest stage *)

Lemma g_range m rep i inv v : Map.g m rep i inv = Ret v -> f32_range v.
Proof. unfold Map.g. intros (? & _ & [= <-])%bind_ret_inv. apply f32_mul_range. Qed.

(** the mapping writes values of 32 bits, whatever the report holds *)
Lemma map_typed m rep out cmd : typed out -> Map.apply m rep out = Ret cmd ->
  typed cmd /\ Cmd.flags cmd = Cmd.flags out /\ Cmd.seq cmd = Cmd.seq out.
Proof.
  intros Ho. unfold Map.apply. intros (r & Hr%g_range & H)%bind_ret_inv.
  apply bind_ret_inv in H as (p & Hp%g_range & H). apply bind_ret_inv in H as (y & Hy%g_range & H).
  apply bind_ret_inv in H as (thr & _ & H). apply bind_ret_inv in H as (t & Ht & [= <-]).
  assert (Hone : f32_range Map.one /\ f32_range Map.half) by (by vm_compute).
  assert (Htr : f32_range t).
  { apply fclamp_cases in Ht as [->|[->| ->]]; [|done|apply Hone].
    apply f32_add_range; [apply f32_mul_range | apply Hone]. }
  split; [|done]. change (typed (set_axis (set_axis (set_axis (set_axis out 0 r) 1 p) 2 y) 3 t)).
  by repeat apply typed_set.
Qed.

(** a report at the ingest stage is a command pushed directly *)
Lemma report_is_command past w h r now : ready past w h -> uint 64 now ->
  fifo_rep (Scripted.inner (source (ingest h))) [r] ->
  exists h0 cmd, step w h now = step_direct w h0 cmd now /\ ready past w h0 /\ loop_ h0 = loop_ h /\
    typed cmd /\ Cmd.seq cmd = 0 /\ Cmd.timestamp_ns cmd = now /\
    fifo_rep (Scripted.inner (source (ingest h0))) [] /\
    fifo_capacity (Scripted.inner (source (ingest h0))) = fifo_capacity (Scripted.inner (source (ingest h))) /\
    sim h0 = sim h /\ routed_count h0 = routed_count h /\ same_ends h h0.
Proof.
  intros R Hn Hr. unfold step, ingest_tick, tick. cbn [Input.poll Scripted.source]. unfold Scripted.poll.
  destruct (fifo_pop_some _ _ _ Hr) as (q & -> & Hq & Hcap). rewrite !ret_bind. cbn beta iota zeta.
  cbn [negb]. set (cmd0 := Cmd.with_timestamp _ now).
  assert (H0 : typed cmd0).
  { split; [done|]. split; [by repeat constructor|]. unfold header_typed. split_and!; first [exact Hn | by vm_compute]. }
  destruct (apply_spec (map (ingest h)) r cmd0 eq_refl) as (rr & p & y & t & E & _). rewrite E, ret_bind.
  destruct (map_typed _ _ _ _ H0 E) as (Hc & Hf & Hs). 
  match goal with |- context [fifo_push (ring (ingest h)) ?c] => set (cmd := c) end.
  change (Z.land (Cmd.flags cmd) 2 =? 0) with true. cbn [negb].
  set (s0 := {| Scripted.inner := q; Scripted.src_info := Scripted.src_info (source (ingest h)) |}).
  set (h0 := with_ingest h {| source := s0; map := map (ingest h); ring := ring (ingest h);
    haptics := haptics (ingest h); scratch_report := r |}).
  exists h0, cmd. split.
  - unfold step_direct, push_input. cbn [h0 ingest with_ingest ring].
    clearbody cmd.
    unfold f32 in *. destruct (fifo_push (ring (ingest h)) cmd) as [[q1 y1]| | |]; reflexivity.
  - split; [by destruct R|]. by split_and!.
Qed.

(** A controller report fed to the harness becomes a command the loop emits. *)
Theorem report_answered past w h r now : uint 32 nan32 -> ready past w h -> uint 64 now ->
  fifo_rep (Scripted.inner (source (ingest h))) [] -> 1 <= fifo_capacity (Scripted.inner (source (ingest h))) ->
  exists w' h' x out, (h ← feed_report h r; step w h now) = Ret (w', h', x) /\
    ready (past ++ [out]) w' h' /\ Cmd.seq out = 0 /\ answered (past ++ [out]) x.
Proof.
  intros Hn R Hnow Hq Hcap. unfold feed_report.
  destruct (fifo_push_ok _ [] r Hq) as (q & -> & Hq' & _); [simpl; lia|]. rewrite ret_bind. cbn beta iota. rewrite ret_bind.
  match goal with |- context [step w ?x now] => set (h1 := x) end.
  assert (R1 : ready past w h1) by (by destruct R).
  destruct (report_is_command past w h1 r now R1 Hnow Hq') as (h0 & cmd & -> & R0 & _ & Hc & Hs & _).
  destruct (step_direct_ok past w h0 cmd now Hn R0 Hc Hnow) as (w' & h' & x & out & poses & E & R' & Ha & _ & _ & Hs' & _).
  exists w', h', x, out. split; [exact E|]. split; [done|]. by rewrite Hs', Hs.
Qed.

End Harness.

(** ** A concrete plane

    Sockets are numbered queues and addresses their numbers.  A receive returns the
    oldest datagram once more than [lag] are waiting. *)

Module DemoNet.

Notation net := (list (list (list Z * nat))).

Definition os_behind (lag : nat) : UdpOs net nat := {|
  udp_bind w _ _ := (w ++ [[]], Ok (Z.of_nat (length w)));
  udp_set_nonblocking w _ _ := (w, Ok tt);
  udp_close w _ := w;
  udp_local_addr w s := if (s <? 0) || (Z.of_nat (length w) <=? s) then Err OtherIo else Ok (Z.to_nat s);
  udp_send_to w s bs a :=
    match w !! a with
    | Some q => (<[a := q ++ [(bs, Z.to_nat s)]]> w, Ok (length bs))
    | None => (w, Err OtherIo)
    end;
  udp_recv_from w s buf :=
    match w !! Z.to_nat s with
    | Some ((bs, a) :: q) =>
        if (length q <? lag)%nat then (w, Err WouldBlock)
        else
          let n := Nat.min (length bs) (length buf) in
          (<[Z.to_nat s := q]> w, Ok (take n bs ++ drop n buf, n, a))
    | _ => (w, Err WouldBlock)
    end
|}.
Definition os := os_behind 0.

Definition waiting (w : net) (s : Z) : list (list Z) := fst <$> default [] (w !! Z.to_nat s).

Lemma waiting_insert w (a : nat) q t d : (a < length w)%nat -> d ∈ waiting (<[a := q]> w) t ->
  (Z.to_nat t = a /\ d ∈ q.*1) \/ d ∈ waiting w t.
Proof.
  intros Ha. unfold waiting. destruct (decide (Z.to_nat t = a)) as [->|Hn].
  - rewrite list_lookup_insert_eq by done. by left.
  - rewrite list_lookup_insert_ne by done. by right.
Qed.

#[refine] Definition lossy lag : UdpNet net nat (UO := os_behind lag) := {| on_way := waiting |}.
Proof.
  - intros w w' s w'' E1 E2. injection E1 as <- <-. injection E2 as <-. unfold waiting.
    by rewrite Nat2Z.id, lookup_app_r, Nat.sub_diag by lia.
  - intros w s bs a w' r E t d Hd. cbn [udp_send_to os_behind] in E. destruct (w !! a) as [q|] eqn:Eq; injection E as <- _; [|by left].
    apply waiting_insert in Hd as [[<- Hd]|Hd]; [|by left|by eapply lookup_lt_Some].
    rewrite fmap_app in Hd. apply elem_of_app in Hd as [Hd|Hd%list_elem_of_singleton]; [|by right].
    left. unfold waiting. by rewrite Eq.
  - intros w t buf w' r E. cbn [udp_recv_from os_behind] in E.
    destruct (w !! Z.to_nat t) as [[|[bs a] q]|] eqn:Eq; try (injection E as <- <-; by split).
    destruct (_ <? _)%nat; [injection E as <- <-; by split|]. injection E as <- <-. split.
    + intros u d [[Hu Hd]|Hd]%waiting_insert; [|done|by eapply lookup_lt_Some].
      unfold waiting. rewrite Hu, Eq. by right.
    + exists bs. split; [unfold waiting; rewrite Eq; by left|]. split; [done|]. by rewrite take_take, Nat.min_id || done.
Defined.
Definition loopback : UdpNet net nat (UO := os) := lossy 0.

(** the network with no lag delivers at once *)
Lemma delivers_at_once (s t : Z) (b : nat) : t = Z.of_nat b ->
  delivers (UN := loopback) (fun w => (b < length w)%nat) s t b.
Proof.
  intros ->. intros w bs buf Hb Hq Hn Hl. cbn in Hq. unfold waiting in Hq. rewrite Nat2Z.id in Hq.
  destruct (lookup_lt_is_Some_2 w b Hb) as [q Eq]. rewrite Eq in Hq. cbn in Hq. apply fmap_nil_inv in Hq as ->.
  eexists _, _, _. cbn [udp_send_to udp_recv_from os os_behind]. rewrite Eq. split; [reflexivity|].
  rewrite Nat2Z.id, list_lookup_insert_eq by done. cbn [app]. cbn beta iota.
  rewrite Nat.min_l, take_ge by lia. split; [reflexivity|]. split; [by rewrite !length_insert|].
  unfold loopback, lossy. cbn [on_way]. unfold waiting. by rewrite Nat2Z.id, list_lookup_insert_eq by (by rewrite length_insert).
Qed.

Definition pace : Pace net := {| sleep_us w _ := w; system_time_ns _ := 0 |}.

Notation Harness := (PipelineHarness (Q := Spsc.SpscRing Command) (QE := Spsc.SpscRing Transition)
  (QR := Spsc.SpscRing Report.ControllerReport) (QC := Spsc.SpscRing CanFrame)
  (K := Haptics.MockHaptics) (Addr := nat)).

Definition built : exec (net * result Harness IoError) :=
  build (UO := os) (PW := pace) demo_hypot [] 0.
Lemma pause_quiet (w : net) us : nothing_new (UN := loopback) w (sleep_us (Pace := pace) w us).
Proof. by intros t d. Qed.

Definition first : Command := set_axis (Cmd.with_seq (Cmd.zeroed f_zero FullTeleop) 7) THROTTLE (f32_lit 1 2).
Definition second : Command := set_axis (Cmd.with_seq (Cmd.zeroed f_zero FullTeleop) 8) ROLL (f32_lit 1 10).

Lemma first_typed : typed first.
Proof.
  apply typed_set; [|by vm_compute]. split; [done|]. split; [by repeat constructor|].
  unfold header_typed. split_and!; by vm_compute.
Qed.
Lemma second_typed : typed second.
Proof.
  apply typed_set; [|by vm_compute]. split; [done|]. split; [by repeat constructor|].
  unfold header_typed. split_and!; by vm_compute.
Qed.
Lemma pattern_zero : uint 32 0.
Proof. by vm_compute. Qed.
Definition script : list (Command * Z) := [(first, 5); (second, 10)].
Lemma script_typed : Forall (fun ct : Command * Z => typed ct.1 /\ uint 64 ct.2) script.
Proof.
  apply Forall_cons. split; [split; [exact first_typed | by vm_compute]|].
  apply Forall_singleton. split; [exact second_typed | by vm_compute].
Qed.
Lemma archive_small (c : Cmd.ControlCommand Z) : pb_wf c ->
  exists bs, to_bytes (Rkyv := raw_cmd) c = Some bs /\ (length bs <= MAX_PAYLOAD)%nat.
Proof.
  intros Hc. exists (bytes_of c). split; [done|]. rewrite (length_bytes_of c Hc). vm_compute. lia.
Qed.

End DemoNet.

(** The mode machine of a fresh harness is settled in full teleoperation, and its
    authority blend has run its course. *)
Definition settled (r : exec (list (list (list Z * nat)) * result (PipelineHarness (Q := Spsc.SpscRing Command)
    (QE := Spsc.SpscRing Transition) (QR := Spsc.SpscRing Report.ControllerReport)
    (QC := Spsc.SpscRing CanFrame) (K := Haptics.MockHaptics) (Addr := nat)) IoError)) : Prop :=
  match r with
  | Ret (w, Ok h) => authority (loop_ h) = f32_of_Z 1 /\ Machine.current (machine (loop_ h)) = FullTeleop /\
                     Sock.socket (rx h) = 1 /\ dst h = 1%nat /\ length w = 2%nat
  | _ => False
  end.
Example harness_settled : settled DemoNet.built.
Proof. vm_compute. by split. Qed.

Lemma built_ok : exists w h, DemoNet.built = Ret (w, Ok h) /\
  ready (RC := raw_cmd) (UN := DemoNet.loopback) 0 [] w (enable_sim (LM := flat_libm) h) /\
  idle (UN := DemoNet.loopback) w (enable_sim (LM := flat_libm) h) /\
  Sock.socket (rx h) = 1 /\ dst h = 1%nat /\ length w = 2%nat.
Proof.
  destruct (build_ready (LM := flat_libm) (RC := raw_cmd) (UO := DemoNet.os) (PW := DemoNet.pace) (UN := DemoNet.loopback)
    (Q := Spsc.SpscRing Command) (QE := Spsc.SpscRing Transition) (QR := Spsc.SpscRing Report.ControllerReport)
    (QC := Spsc.SpscRing CanFrame) (K := Haptics.MockHaptics) demo_hypot 0) with (w := @nil (list (list Z * nat))) (at_ := 0)
    as (w & r & E & Hr); [by vm_compute | done|].
  assert (Eb : DemoNet.built = Ret (w, r)) by exact E. pose proof harness_settled as Hs. rewrite Eb in Hs.
  destruct r as [h|e]; [|destruct Hs]. exists w, h. split; [exact Eb|]. split; [exact (proj1 (proj2 Hr))|].
  split; [exact (proj2 (proj2 Hr))|]. exact (proj2 (proj2 Hs)).
Qed.

(** A network one datagram behind: the first step gets no answer, the second the
    command of the first. *)
Example late_answer :
  match build (UO := DemoNet.os_behind 1) (PW := DemoNet.pace) (K := Haptics.MockHaptics) (Q := Spsc.SpscRing Command)
          (QE := Spsc.SpscRing Transition) (QR := Spsc.SpscRing Report.ControllerReport) (QC := Spsc.SpscRing CanFrame)
          demo_hypot [] 0 with
  | Ret (w, Ok h) =>
      match drive (LM := flat_libm) (UO := DemoNet.os_behind 1) (PW := DemoNet.pace) (RC := raw_cmd) (RT := raw_tp) demo_hypot 0 0
              w h DemoNet.script with
      | Ret (_, _, [Ok None; Ok (Some c)]) => Cmd.seq c = 7
      | _ => False
      end
  | _ => False
  end.
Proof. vm_compute. reflexivity. Qed.

Lemma pipeline_refines_loop_witness : exists w h w' h' d1 d2,
  DemoNet.built = Ret (w, Ok h) /\
  drive (LM := flat_libm) (UO := DemoNet.os) (PW := DemoNet.pace) (RC := raw_cmd) (RT := raw_tp) demo_hypot 0 0
    w (enable_sim (LM := flat_libm) h) DemoNet.script =
    Ret (w', h', [Ok (Some d1); Ok (Some d2)]) /\
  Cmd.seq d1 = 7 /\ Cmd.seq d2 = 8 /\ grounded h'.
Proof.
  destruct built_ok as (w & h & Eb & R & Hq & Hrx & Hdst & Hlen).
  destruct (pipeline_refines_loop (LM := flat_libm) (UO := DemoNet.os) (PW := DemoNet.pace) (RC := raw_cmd)
    (RT := raw_tp) (UN := DemoNet.loopback) demo_hypot 0 0 DemoNet.pause_quiet DemoNet.archive_small [] w (enable_sim (LM := flat_libm) h)
    DemoNet.script) as (w' & h' & rs & outs & ops & E & _ & _ & _ & Hs & _ & Hg & Hd).
  - exact DemoNet.pattern_zero.
  - exact R.
  - exact DemoNet.script_typed.
  - rewrite (Hd (fun w => (1 < length w)%nat)) in E.
    + destruct outs as [|o1 [|o2 [|]]]; [done|done| |done].
      pose proof (f_equal (fun l => nth 0 l 0) Hs) as H1. pose proof (f_equal (fun l => nth 1 l 0) Hs) as H2.
      exists w, h, w', h', (on_wire 0 o1), (on_wire 0 o2).
      split; [exact Eb|]. split; [exact E|]. split; [exact H1|]. split; [exact H2|]. apply Hg. discriminate.
    + unfold prompt. cbn [enable_sim with_sim tx rx dst]. rewrite Hdst. apply DemoNet.delivers_at_once. exact Hrx.
    + lia.
    + exact Hq.
Defined.
