(* ===== verification/HeapCount.v ===== *)
(** * Counting the heap: [tpt-t-integration/src/alloc.rs]

    The allocator that tallies its calls on the way to the system's, which is the
    class [SystemAlloc] (a null answer is [None]).  [net_counts_reallocs]: what the
    tally called net growth measures. *)

From S2P Require Import Prelude.

(** a block is known by its address; [live w]: how many blocks are allocated *)
Class SystemAlloc (W : Type) := {
  sys_alloc : W -> Z -> W * option Z;
  sys_alloc_zeroed : W -> Z -> W * option Z;
  sys_dealloc : W -> Z -> Z -> W;
  sys_realloc : W -> Z -> Z -> Z -> W * option Z
}.

Record AllocCounts := { allocs : Z; deallocs : Z; reallocs : Z; bytes : Z }.

(** [reset_counts] *)
Definition reset_counts : AllocCounts := {| allocs := 0; deallocs := 0; reallocs := 0; bytes := 0 |}.

(** the four statics are the state; [counts] reads them *)
Definition counts (s : AllocCounts) : AllocCounts := s.

(** [as i64] and wrapping arithmetic *)
Definition net_allocations (c : AllocCounts) : Z :=
  to_signed 64 (wsub 64 (wadd 64 (allocs c) (reallocs c)) (deallocs c)).

Section Counting.
Context {W : Type} `{SA : !SystemAlloc W}.

Definition count_alloc (c : AllocCounts) (size : Z) : AllocCounts :=
  {| allocs := wadd 64 (allocs c) 1; deallocs := deallocs c; reallocs := reallocs c;
     bytes := wadd 64 (bytes c) size |}.

Definition alloc (w : W) (c : AllocCounts) (size : Z) : W * AllocCounts * option Z :=
  let '(w, p) := sys_alloc w size in (w, count_alloc c size, p).
Definition alloc_zeroed (w : W) (c : AllocCounts) (size : Z) : W * AllocCounts * option Z :=
  let '(w, p) := sys_alloc_zeroed w size in (w, count_alloc c size, p).
Definition dealloc (w : W) (c : AllocCounts) (ptr size : Z) : W * AllocCounts :=
  (sys_dealloc w ptr size,
   {| allocs := allocs c; deallocs := wadd 64 (deallocs c) 1; reallocs := reallocs c; bytes := bytes c |}).
Definition realloc (w : W) (c : AllocCounts) (ptr size new_size : Z) : W * AllocCounts * option Z :=
  let '(w, p) := sys_realloc w ptr size new_size in
  (w, {| allocs := allocs c; deallocs := deallocs c; reallocs := wadd 64 (reallocs c) 1; bytes := bytes c |}, p).

(** ** What the tally measures *)

Inductive call := CAlloc (size : Z) | CZeroed (size : Z) | CFree (ptr size : Z) | CRealloc (ptr size new_size : Z).

Definition run_call (wc : W * AllocCounts) (x : call) : W * AllocCounts :=
  let '(w, c) := wc in
  match x with
  | CAlloc size => (alloc w c size).1
  | CZeroed size => (alloc_zeroed w c size).1
  | CFree p size => dealloc w c p size
  | CRealloc p size n => (realloc w c p size n).1
  end.

Definition is_alloc (x : call) : bool := match x with CAlloc _ | CZeroed _ => true | _ => false end.
Definition is_free (x : call) : bool := match x with CFree _ _ => true | _ => false end.
Definition is_realloc (x : call) : bool := match x with CRealloc _ _ _ => true | _ => false end.
Definition tally (f : call -> bool) (xs : list call) : Z := Z.of_nat (length (List.filter f xs)).

Lemma tally_cons f x xs : tally f (x :: xs) = (if f x then 1 else 0) + tally f xs.
Proof. unfold tally. simpl. destruct (f x); simpl; lia. Qed.

Lemma run_tallies xs : forall wc, let c := (foldl run_call wc xs).2 in
  wrap 64 (allocs c) = wrap 64 (allocs wc.2 + tally is_alloc xs) /\
  wrap 64 (deallocs c) = wrap 64 (deallocs wc.2 + tally is_free xs) /\
  wrap 64 (reallocs c) = wrap 64 (reallocs wc.2 + tally is_realloc xs).
Proof.
  induction xs as [|x xs IH]; intros [w c]; cbn zeta.
  - cbn. unfold tally. simpl. rewrite !Z.add_0_r. done.
  - cbn [foldl]. destruct (IH (run_call (w, c) x)) as (Ha & Hd & Hr). rewrite Ha, Hd, Hr, !tally_cons.
    destruct x; cbn [run_call is_alloc is_free is_realloc];
      unfold alloc, alloc_zeroed, dealloc, realloc, count_alloc;
      repeat (match goal with |- context [let '(_, _) := ?e in _] => destruct e end); cbn [fst snd allocs deallocs reallocs];
      unfold wadd; split_and!; rewrite ?wrap_add_l; f_equal; lia.
Qed.

(** After a reset, net growth is allocations less frees, plus the reallocations:
    a block moved by [realloc] is counted again though the heap holds as many
    blocks as before, and the tally does not look at sizes. *)
Theorem net_counts_reallocs (w : W) (xs : list call) : Z.of_nat (length xs) < 2 ^ 63 ->
  net_allocations (counts (foldl run_call (w, reset_counts) xs).2) =
    tally is_alloc xs - tally is_free xs + tally is_realloc xs.
Proof.
  intros Hl. unfold net_allocations, counts, wsub, wadd.
  destruct (run_tallies xs (w, reset_counts)) as (Ha & Hd & Hr). cbn [snd reset_counts allocs deallocs reallocs] in *.
  rewrite Z.add_0_l in Ha, Hd, Hr. set (c := (foldl run_call (w, reset_counts) xs).2) in *.
  rewrite wrap_sub_l, <- wrap_sub_r, Hd, wrap_sub_r, <- wrap_sub_l, <- wrap_add_l, Ha, wrap_add_l,
    <- wrap_add_r, Hr, wrap_add_r, wrap_sub_l.
  assert (Hs : tally is_alloc xs + tally is_free xs + tally is_realloc xs = Z.of_nat (length xs) /\
    0 <= tally is_alloc xs /\ 0 <= tally is_free xs /\ 0 <= tally is_realloc xs).
  { clear. split; [|unfold tally; lia]. induction xs as [|x xs IH]; [done|].
    rewrite !tally_cons. cbn [length]. destruct x; simpl; lia. }
  rewrite to_signed_wrap by lia. lia.
Qed.

End Counting.

(** an allocator that numbers its blocks *)
#[local] Instance bump_alloc : SystemAlloc Z := {|
  sys_alloc w _ := (w + 1, Some w); sys_alloc_zeroed w _ := (w + 1, Some w);
  sys_dealloc w _ _ := w; sys_realloc w p _ _ := (w, Some p)
|}.

Lemma net_counts_reallocs_witness :
  net_allocations (counts (foldl run_call (0, reset_counts) [CAlloc 8; CRealloc 0 8 64; CFree 0 64]).2) = 1.
Proof. apply (net_counts_reallocs 0 [CAlloc 8; CRealloc 0 8 64; CFree 0 64]). reflexivity. Defined.

(** The documented invariant, net zero, holds of a path that frees a small old
    block and keeps a large new one, and fails of one that leaks nothing. *)
Example net_zero_grows :
  net_allocations (counts (foldl run_call (0, reset_counts) [CFree 9 8; CAlloc 1000000]).2) = 0.
Proof. vm_compute. reflexivity. Qed.
