(* ===== verification/Uring.v ===== *)
(** * The io_uring transmit queue: [tpt-t-link/src/uring.rs]

    Datagrams wait in slots the kernel reads from; a free list links the idle
    slots.  The ring itself is the class [IoUringOs]; [UringLaws] states what the
    kernel promises about entries: an entry is in its hands from the push until its
    completion is taken.  [uring_memory_safe]: whatever is called, memory in the
    kernel's hands is not touched.  [transmit] is the use the service makes of the
    queue ([service.rs]). *)

From stdpp Require Import strings.
From S2P Require Import Prelude Text Mux.

Definition DEFAULT_SLOTS : nat := 64.
Definition NONE : Z := 2 ^ 16 - 1.

Inductive StageError := Busy.
Definition StageError_fmt (e : StageError) : list Z :=
  match e with Busy => ascii_bytes "io_uring tx slots exhausted" end.

Inductive SlotState := Free | Staged | InFlight.
#[export] Instance SlotState_eq_dec : EqDecision SlotState.
Proof. solve_decision. Defined.

(** [iov] and [msg] point into the slot itself and are rebuilt from these fields
    before every push *)
Record Slot := {
  state : SlotState; buf : list Z; len : nat; addr : list Z; addr_len : Z; next_free : Z
}.

(** ** Addresses *)

Inductive IpAddr := V4 (octets : list Z) | V6 (octets : list Z).
Record SocketAddr := { ip : IpAddr; port : Z; flowinfo : Z; scope_id : Z }.

Definition AF_INET : Z := 2.
Definition AF_INET6 : Z := 10.
Definition STORAGE : nat := 128.

(** the 128 bytes of [sockaddr_storage] and the length in use *)
Definition fill_sockaddr (peer : SocketAddr) : list Z * Z :=
  let be16 := [port peer / 256; port peer mod 256] in
  match ip peer with
  | V4 o => (le_bytes 2 AF_INET ++ be16 ++ o ++ replicate (STORAGE - 8) 0, 16)
  | V6 o => (le_bytes 2 AF_INET6 ++ be16 ++ replicate 4 0 ++ o ++ replicate (STORAGE - 24) 0, 28)
  end.

(** ** The kernel's side *)

(** a SENDMSG entry: the descriptor, and the slot its [msghdr] is in *)
Record Sqe := { sqe_fd : Z; user_data : nat }.

Class IoUringOs (W : Type) := {
  ring_new : W -> Z -> W * result Z IoError;
  sq_push : W -> Z -> Sqe -> W * bool;
  submit : W -> Z -> W * result nat IoError;
  submit_and_wait : W -> Z -> nat -> W * result nat IoError;
  (** the completions ready now: user data and result *)
  completion : W -> Z -> W * list (nat * Z)
}.

Class UringLaws (W : Type) `{OS : !IoUringOs W} := {
  in_kernel : W -> Z -> list nat;
  new_law w n w' r : ring_new w n = (w', Ok r) -> in_kernel w' r = [];
  push_law w r e : let '(w', ok) := sq_push w r e in
    in_kernel w' r ≡ₚ (if ok then user_data e :: in_kernel w r else in_kernel w r);
  submit_law w r : in_kernel (submit w r).1 r = in_kernel w r;
  wait_law w r n : in_kernel (submit_and_wait w r n).1 r = in_kernel w r;
  completion_law w r : let '(w', cs) := completion w r in in_kernel w r ≡ₚ cs.*1 ++ in_kernel w' r
}.

(** ** The queue *)

Section Queue.
Context {W : Type} `{OS : !IoUringOs W}.

Record UringTx := {
  ring : Z; fd : Z; slots : list Slot; free_head : Z; staged : Z; inflight : Z
}.

Definition empty_slot (slots i : nat) : Slot :=
  {| state := Free; buf := replicate MAX_DATAGRAM 0; len := 0; addr := replicate STORAGE 0; addr_len := 0;
     next_free := if (i + 1 <? slots)%nat then wrap 16 (Z.of_nat (i + 1)) else NONE |}.

Definition new (w : W) (fd : Z) (slots : nat) : W * result UringTx IoError :=
  let slots := Nat.max slots 1 in
  let '(w, r) := ring_new w (wrap 32 (Z.of_nat slots)) in
  match r with
  | Err e => (w, Err e)
  | Ok r => (w, Ok {| ring := r; fd := fd; slots := empty_slot slots <$> seq 0 slots; free_head := 0;
                      staged := 0; inflight := 0 |})
  end.

Definition available (t : UringTx) : Z := wsub 64 (wsub 64 (Z.of_nat (length (slots t))) (staged t)) (inflight t).

(** [fill]: the closure, with the slot's buffer after it *)
Definition stage (t : UringTx) (peer : SocketAddr) (fill : list Z -> exec (list Z * nat))
  : exec (UringTx * result unit StageError) :=
  if free_head t =? NONE then Ret (t, Err Busy)
  else
    let idx := Z.to_nat (free_head t) in
    slot ← index (slots t) idx;
    '(b, n) ← fill (buf slot);
    let '(a, al) := fill_sockaddr peer in
    let slot' := {| state := Staged; buf := b; len := n; addr := a; addr_len := al; next_free := next_free slot |} in
    Ret ({| ring := ring t; fd := fd t; slots := <[idx := slot']> (slots t); free_head := next_free slot;
            staged := wadd 64 (staged t) 1; inflight := inflight t |}, Ok tt).

Definition set_state (s : Slot) (st : SlotState) : Slot :=
  {| state := st; buf := buf s; len := len s; addr := addr s; addr_len := addr_len s; next_free := next_free s |}.

(** [for idx in 0..self.slots.len()]: [n] slots left from [idx] on *)
Fixpoint push_loop (w : W) (t : UringTx) (ss : list Slot) (idx n : nat) (pushed : Z)
  : exec (W * list Slot * Z) :=
  match n with
  | O => Ret (w, ss, pushed)
  | S n =>
      s ← index ss idx;
      if decide (state s = Staged) then
        let '(w, ok) := sq_push w (ring t) {| sqe_fd := fd t; user_data := idx |} in
        if negb ok then Ret (w, ss, pushed)
        else push_loop w t (<[idx := set_state s InFlight]> ss) (S idx) n (wadd 64 pushed 1)
      else push_loop w t ss (S idx) n pushed
  end.

Definition submit_staged (w : W) (t : UringTx) : exec (W * UringTx * result Z IoError) :=
  '(w, ss, pushed) ← push_loop w t (slots t) 0 (length (slots t)) 0;
  let t := {| ring := ring t; fd := fd t; slots := ss; free_head := free_head t;
              staged := wsub 64 (staged t) pushed; inflight := wadd 64 (inflight t) pushed |} in
  if 0 <? pushed then
    let '(w, r) := submit w (ring t) in
    Ret (w, t, match r with Ok _ => Ok pushed | Err e => Err e end)
  else Ret (w, t, Ok pushed).

Definition wait (w : W) (t : UringTx) (n : nat) : W * result unit IoError :=
  let '(w, r) := submit_and_wait w (ring t) n in
  (w, match r with Ok _ => Ok tt | Err e => Err e end).

(** one completion *)
Definition reap_one (t : UringTx) (idx : nat) : UringTx :=
  match slots t !! idx with
  | None => {| ring := ring t; fd := fd t; slots := slots t; free_head := free_head t;
               staged := staged t; inflight := ssub (inflight t) 1 |}
  | Some s =>
      let s' := {| state := Free; buf := buf s; len := len s; addr := addr s; addr_len := addr_len s;
                   next_free := free_head t |} in
      {| ring := ring t; fd := fd t; slots := <[idx := s']> (slots t); free_head := wrap 16 (Z.of_nat idx);
         staged := staged t; inflight := ssub (inflight t) 1 |}
  end.

(** the errors handed to [on_error], and the count *)
Definition reap (w : W) (t : UringTx) : W * UringTx * list Z * nat :=
  let '(w, cs) := completion w (ring t) in
  (w, foldl (fun t c => reap_one t c.1) t cs, List.filter (fun r => r <? 0) cs.*2, length cs).

(** the closure [transmit] stages with: the framed bytes, cut at the slot's size *)
Definition copy_fill (bs slot : list Z) : exec (list Z * nat) :=
  let n := Nat.min (length bs) (length slot) in
  slot ← copy_from_slice slot 0 (take n bs);
  Ret (slot, n).

(** the io_uring half of [ServiceCore::transmit]; [false]: the caller takes the
    socket path *)
Definition transmit (w : W) (t : UringTx) (dst : SocketAddr) (bs : list Z) : exec (W * UringTx * bool) :=
  '(t, r) ← stage t dst (copy_fill bs);
  match r with
  | Err _ => Ret (w, t, false)
  | Ok _ =>
      '(w, t, r) ← submit_staged w t;
      let submitted := match r with Ok n => n =? 1 | Err _ => false end in
      let '(w, completed) :=
        if submitted then let '(w, r) := wait w t (Z.to_nat (inflight t)) in (w, is_ok r) else (w, false) in
      let '(w, t, errors, _) := reap w t in
      Ret (w, t, completed && negb (0 <? length errors)%nat)
  end.

End Queue.

(** ** The invariant

    [K]: the slots in the kernel's hands; [fl]: the free list. *)

Definition count (st : SlotState) (ss : list Slot) : nat := length (filter (fun s => state s = st) ss).

Inductive chain (ss : list Slot) : Z -> list nat -> Prop :=
| chain_nil : chain ss NONE []
| chain_cons i s l : ss !! i = Some s -> chain ss (next_free s) l -> chain ss (Z.of_nat i) (i :: l).

(** the entry's [iovec] stays inside the slot's buffer *)
Definition in_slot (s : Slot) : Prop := length (buf s) = MAX_DATAGRAM /\ (len s <= length (buf s))%nat.

Record slots_inv (K : list nat) (ss : list Slot) (head : Z) (fl : list nat) : Prop := {
  si_len : Z.of_nat (length ss) <= 65535;
  si_bufs : forall i s, ss !! i = Some s -> in_slot s;
  si_chain : chain ss head fl;
  si_nodup : NoDup fl;
  si_free : forall i s, ss !! i = Some s -> (state s = Free <-> i ∈ fl);
  si_once : NoDup K;
  si_kernel : forall i, i ∈ K <-> exists s, ss !! i = Some s /\ state s = InFlight
}.

Definition counted (t : UringTx) : Prop :=
  staged t = Z.of_nat (count Staged (slots t)) /\ inflight t = Z.of_nat (count InFlight (slots t)).

Lemma slot_count_insert st ss i s s' : ss !! i = Some s ->
  Z.of_nat (count st (<[i := s']> ss)) = Z.of_nat (count st ss)
    - (if decide (state s = st) then 1 else 0) + (if decide (state s' = st) then 1 else 0).
Proof.
  intros Hi. pose proof (lookup_lt_Some _ _ _ Hi) as Hl. unfold count.
  pose proof (insert_take_drop ss i s' Hl) as E1. pose proof (take_drop_middle ss i s Hi) as E2.
  revert E1 E2. generalize (take i ss), (drop (S i) ss). intros a b -> <-. rewrite !filter_app, !length_app, !filter_cons. repeat case_decide; cbn [length]; lia.
Qed.

Lemma count_split ss : (count Free ss + count Staged ss + count InFlight ss)%nat = length ss.
Proof.
  unfold count. induction ss as [|s ss IH]; [done|]. rewrite !filter_cons. cbn [length].
  destruct (state s) eqn:E; repeat case_decide; try congruence; cbn [length]; lia.
Qed.

Lemma count_pos st ss i s : ss !! i = Some s -> state s = st -> (0 < count st ss)%nat.
Proof.
  intros Hi Hs. unfold count. apply list_elem_of_lookup_2 in Hi.
  destruct (filter (fun s => state s = st) ss) eqn:E; [|simpl; lia].
  assert (H : s ∈ filter (fun s => state s = st) ss) by (by apply list_elem_of_filter). rewrite E in H. by apply not_elem_of_nil in H.
Qed.

Lemma count_zero st ss : (forall i s, ss !! i = Some s -> state s <> st) -> count st ss = 0%nat.
Proof.
  intros H. unfold count. destruct (filter (fun s => state s = st) ss) as [|s l] eqn:E; [done|].
  assert (Hs : s ∈ filter (fun s => state s = st) ss) by (rewrite E; by left).
  apply list_elem_of_filter in Hs as [Hs [i Hi]%list_elem_of_lookup_1]. by apply H in Hi.
Qed.

Lemma chain_insert ss h l i s : chain ss h l -> i ∉ l -> chain (<[i := s]> ss) h l.
Proof.
  induction 1 as [|j sj l Hj _ IH]; intros Hi; [constructor|]. apply not_elem_of_cons in Hi as [Hne Hi].
  apply (chain_cons _ j sj l); [by rewrite list_lookup_insert_ne | auto].
Qed.

Lemma chain_none K ss h fl : slots_inv K ss h fl -> (h = NONE <-> fl = []).
Proof.
  intros I. destruct (si_chain _ _ _ _ I) as [|i s l Hi Hc]; [done|]. split; [|done]. intros E.
  apply lookup_lt_Some in Hi. pose proof (si_len _ _ _ _ I). unfold NONE in E. lia.
Qed.

(** a slot keeps its bytes and its destination *)
Definition same_memory (s s' : Slot) : Prop :=
  buf s' = buf s /\ len s' = len s /\ addr s' = addr s /\ addr_len s' = addr_len s.
Definition untouched (P : nat -> Prop) (ss ss' : list Slot) : Prop :=
  forall i s, P i -> ss !! i = Some s -> exists s', ss' !! i = Some s' /\ same_memory s s'.

(** *** Each transition of a slot *)

Lemma claim_inv K ss h i fl s s' : slots_inv K ss h (i :: fl) -> ss !! i = Some s ->
  state s' = Staged -> in_slot s' -> next_free s' = next_free s ->
  h = Z.of_nat i /\ slots_inv K (<[i := s']> ss) (next_free s) fl /\ i ∉ K.
Proof.
  intros I Hi Hst Hb Hn. pose proof (lookup_lt_Some _ _ _ Hi) as Hl.
  inversion_clear I as [Hlen Hbufs Hch Hnd Hfr Honce Hk]. apply NoDup_cons in Hnd as [Hni Hnd].
  inversion Hch as [|j sj l Hj Hc Eh El]; subst. rewrite Hi in Hj. injection Hj as <-.
  assert (HiK : i ∉ K).
  { intros (s0 & Hs0 & Hf)%Hk. rewrite Hi in Hs0. injection Hs0 as <-.
    assert (state s = Free) by (apply (Hfr i s Hi); by left). congruence. }
  split; [done|]. split; [|done]. constructor; try done.
  - by rewrite length_insert.
  - intros k sk. rewrite list_lookup_insert. case_decide; [by intros [= <-]|]. apply Hbufs.
  - by apply chain_insert.
  - intros k sk. rewrite list_lookup_insert. case_decide as Hd.
    + intros [= <-]. destruct Hd as [<- _]. rewrite Hst. split; [done|]. by intros ?%Hni.
    + intros Hsk. rewrite (Hfr k sk Hsk). split; [|by right]. intros [->|]%elem_of_cons; [|done].
      by destruct Hd.
  - intros k. rewrite Hk. split; intros (sk & Hsk & Hf).
    + exists sk. split; [|done]. rewrite list_lookup_insert_ne; [done|]. intros <-. apply HiK, Hk. eauto.
    + rewrite list_lookup_insert in Hsk. case_decide; [injection Hsk as <-; congruence | eauto].
Qed.

Lemma push_inv K ss h fl i s : slots_inv K ss h fl -> ss !! i = Some s -> state s = Staged ->
  forall K', K' ≡ₚ i :: K -> slots_inv K' (<[i := set_state s InFlight]> ss) h fl.
Proof.
  intros I Hi Hst K' HK'. pose proof (lookup_lt_Some _ _ _ Hi) as Hl.
  inversion_clear I as [Hlen Hbufs Hch Hnd Hfr Honce Hk].
  assert (HiK : i ∉ K) by (intros (s0 & Hs0 & Hf)%Hk; congruence).
  assert (Hifl : i ∉ fl) by (intros Hf; apply (Hfr i s Hi) in Hf; congruence).
  constructor; try done.
  - by rewrite length_insert.
  - intros k sk. rewrite list_lookup_insert. case_decide as Hd; [|apply Hbufs]. intros [= <-].
    exact (Hbufs i s Hi).
  - by apply chain_insert.
  - intros k sk. rewrite list_lookup_insert. case_decide as Hd; [|apply Hfr]. intros [= <-].
    destruct Hd as [<- _]. by split.
  - rewrite HK'. by constructor.
  - intros k. rewrite HK', elem_of_cons, Hk, list_lookup_insert. case_decide as Hd.
    + destruct Hd as [<- _]. split; [|by left]. eexists. by split.
    + split; [intros [->|H]; [by destruct Hd | done] | by right].
Qed.

Lemma release_inv K ss h fl i s s' : slots_inv (i :: K) ss h fl -> ss !! i = Some s ->
  state s' = Free -> in_slot s' -> next_free s' = h ->
  slots_inv K (<[i := s']> ss) (Z.of_nat i) (i :: fl) /\ state s = InFlight.
Proof.
  intros I Hi Hst Hb Hn. pose proof (lookup_lt_Some _ _ _ Hi) as Hl.
  inversion_clear I as [Hlen Hbufs Hch Hnd Hfr Honce Hk]. apply NoDup_cons in Honce as [HiK Honce].
  assert (Hs : state s = InFlight).
  { destruct (proj1 (Hk i)) as (s0 & Hs0 & Hf); [by left|]. congruence. }
  assert (Hifl : i ∉ fl) by (intros Hf; apply (Hfr i s Hi) in Hf; congruence).
  split; [|done]. constructor; try done.
  - by rewrite length_insert.
  - intros k sk. rewrite list_lookup_insert. case_decide as Hd; [|apply Hbufs]. intros [= <-].
    exact Hb.
  - apply (chain_cons _ i s'); [by apply list_lookup_insert_eq|]. rewrite Hn. by apply chain_insert.
  - by constructor.
  - intros k sk. rewrite list_lookup_insert, elem_of_cons. case_decide as Hd.
    + intros [= <-]. destruct Hd as [<- _]. split; [by left | done].
    + intros Hsk. rewrite (Hfr k sk Hsk). split; [by right|]. intros [->|]; [by destruct Hd | done].
  - intros k. rewrite list_lookup_insert. split.
    + intros HkK. destruct (proj1 (Hk k)) as (sk & Hsk & Hf); [by right|].
      exists sk. rewrite decide_False; [done|]. intros [<- _]. done.
    + case_decide as Hd; [intros (sk & [= <-] & ?); congruence|]. intros Hex.
      apply Hk, elem_of_cons in Hex as [->|]; [by destruct Hd | done].
Qed.

Section Operations.
Context {W : Type} `{UL : UringLaws W}.

Definition tx_inv (w : W) (t : UringTx) (fl : list nat) : Prop :=
  slots_inv (in_kernel w (ring t)) (slots t) (free_head t) fl /\ counted t.

Lemma counts_small K ss h fl st : slots_inv K ss h fl -> Z.of_nat (count st ss) <= 65535.
Proof.
  intros I. pose proof (si_len _ _ _ _ I). pose proof (count_split ss). destruct st; lia.
Qed.

Lemma small_uint z : 0 <= z <= 65535 -> uint 64 z.
Proof. unfold uint. lia. Qed.

Lemma available_free w t fl : tx_inv w t fl -> available t = Z.of_nat (count Free (slots t)).
Proof.
  intros [I [Hs Hi]]. unfold available, wsub. rewrite Hs, Hi. pose proof (count_split (slots t)).
  pose proof (si_len _ _ _ _ I). 
  rewrite (wrap_id 64 (Z.of_nat (length (slots t)) - _)) by (apply small_uint; lia).
  rewrite wrap_id by (apply small_uint; lia). lia.
Qed.

Lemma free_count w t fl : tx_inv w t fl -> (free_head t = NONE <-> available t = 0).
Proof.
  intros HI. rewrite (available_free _ _ _ HI). destruct HI as [I _]. rewrite (chain_none _ _ _ _ I).
  split.
  - intros ->. rewrite count_zero; [done|]. intros i s Hi Hf.
    apply (si_free _ _ _ _ I i s Hi) in Hf. by apply not_elem_of_nil in Hf.
  - intros Hz. destruct fl as [|i fl]; [done|]. exfalso. pose proof (si_chain _ _ _ _ I) as Hc.
    inversion Hc as [|j sj l Hj _ Eh El]; subst.
    assert (Hf : state sj = Free) by (apply (si_free _ _ _ _ I i sj Hj); by left).
    pose proof (count_pos Free (slots t) i sj Hj Hf). lia.
Qed.

Lemma memory_insert (P : nat -> Prop) ss i s s' : ss !! i = Some s -> (P i -> same_memory s s') ->
  untouched P ss (<[i := s']> ss).
Proof.
  intros Hi Hs k sk Hk Hsk. rewrite list_lookup_insert. case_decide as Hd; [|by exists sk].
  destruct Hd as [<- _]. rewrite Hi in Hsk. injection Hsk as <-. eauto.
Qed.

Lemma untouched_trans (P : nat -> Prop) a b c : untouched P a b -> untouched P b c -> untouched P a c.
Proof.
  intros H1 H2 i s Hi Hs. destruct (H1 i s Hi Hs) as (s1 & Hs1 & M1). destruct (H2 i s1 Hi Hs1) as (s2 & Hs2 & M2).
  exists s2. split; [done|]. unfold same_memory in *. intuition congruence.
Qed.

(** a closure that keeps the slot's size and names a count within it; [stage]
    trusts it for that ([stage_trusts_fill]) *)
Definition fill_ok (fill : list Z -> exec (list Z * nat)) : Prop :=
  forall b, length b = MAX_DATAGRAM -> exists b' n, fill b = Ret (b', n) /\ length b' = MAX_DATAGRAM /\ (n <= MAX_DATAGRAM)%nat.

Lemma le_of {a b c : nat} : a = b -> (c <= b)%nat -> (c <= a)%nat.
Proof. lia. Qed.

Lemma stage_ok w t fl peer fill : tx_inv w t fl -> fill_ok fill ->
  exists t' r fl', stage t peer fill = Ret (t', r) /\ tx_inv w t' fl' /\ ring t' = ring t /\
    (available t = 0 -> r = Err Busy /\ t' = t) /\
    (available t <> 0 -> r = Ok tt /\ exists i b n s', (i ∉ in_kernel w (ring t)) /\ slots t' !! i = Some s' /\
       state s' = Staged /\ fill b = Ret (buf s', n) /\ len s' = n /\ (addr s', addr_len s') = fill_sockaddr peer) /\
    untouched (fun i => i ∈ in_kernel w (ring t)) (slots t) (slots t').
Proof.
  intros HI Hf. pose proof (free_count _ _ _ HI) as Hfc. unfold stage.
  destruct (Z.eqb_spec (free_head t) NONE) as [Hn|Hn].
  { exists t, (Err Busy), fl. split_and!; try done.
    - intros Ha. by apply Hfc in Hn.
    - intros i s _ Hs. by exists s. }
  assert (Hne : available t <> 0) by (by rewrite <- Hfc). destruct HI as [I [Hs Hif]].
  pose proof (chain_none _ _ _ _ I) as Hcn. pose proof (si_chain _ _ _ _ I) as Hc.
  inversion Hc as [E E'|i s l Hi Hc' Eh El]; [by rewrite <- E in Hn|]. subst fl.
  rewrite Nat2Z.id. unfold index. rewrite Hi, ret_bind.
  destruct (Hf (buf s) (proj1 (si_bufs _ _ _ _ I i s Hi))) as (b & n & Eb & Hlb & Hnb). rewrite Eb, ret_bind. cbn beta iota.
  destruct (fill_sockaddr peer) as [a al] eqn:Ea.
  match goal with |- context [<[i := ?x]> _] => set (s' := x) end.
  destruct (claim_inv _ _ _ i l s s' I Hi eq_refl (conj Hlb (le_of Hlb Hnb)) eq_refl) as (_ & I' & HiK).
  assert (Hfree : state s = Free) by (apply (si_free _ _ _ _ I i s Hi); by left).
  pose proof (counts_small _ _ _ _ Staged I') as Hcs. pose proof (slot_count_insert Staged _ _ _ s' Hi) as C1.
  pose proof (slot_count_insert InFlight _ _ _ s' Hi) as C2. rewrite Hfree in C1, C2.
  change (state s') with Staged in C1, C2. rewrite decide_False, decide_True in C1 by done.
  rewrite !decide_False in C2 by done.
  eexists _, (Ok tt), l. split; [reflexivity|]. split.
  { split; [exact I'|]. unfold counted. cbn [staged inflight slots]. split; [|lia]. rewrite Hs. unfold wadd.
    rewrite wrap_id by (apply small_uint; lia). lia. }
  split; [done|]. split; [done|]. split.
  { intros _. split; [done|]. exists i, (buf s), n, s'. split; [done|]. cbn [slots].
    split; [apply list_lookup_insert_eq; by apply lookup_lt_Some in Hi|]. by split_and!. }
  cbn [slots]. apply (memory_insert _ _ _ s); [done | by intros ?].
Qed.

Lemma push_loop_ok t fl n : forall w ss idx pushed, slots_inv (in_kernel w (ring t)) ss (free_head t) fl ->
  (idx + n <= length ss)%nat -> 0 <= pushed -> pushed + Z.of_nat n < 2 ^ 64 ->
  exists w' ss' k, push_loop w t ss idx n pushed = Ret (w', ss', pushed + k) /\ 0 <= k /\
    slots_inv (in_kernel w' (ring t)) ss' (free_head t) fl /\
    Z.of_nat (count Staged ss') = Z.of_nat (count Staged ss) - k /\
    Z.of_nat (count InFlight ss') = Z.of_nat (count InFlight ss) + k /\
    untouched (fun _ => True) ss ss' /\ length ss' = length ss.
Proof.
  induction n as [|n IH]; intros w ss idx pushed I Hn Hp Hb; cbn [push_loop].
  { exists w, ss, 0. rewrite Z.add_0_r. split_and!; try done; try lia. intros i s _ Hs. by exists s. }
  destruct (lookup_lt_is_Some_2 ss idx ltac:(lia)) as [s Hi]. unfold index. rewrite Hi, ret_bind.
  case_decide as Hst; [|apply IH; try done; lia].
  pose proof (push_law w (ring t) {| sqe_fd := fd t; user_data := idx |}) as Hlaw.
  destruct (sq_push w (ring t) _) as [w1 ok]. cbn [user_data] in Hlaw. destruct ok; cbn [negb].
  - pose proof (push_inv _ _ _ _ _ _ I Hi Hst _ Hlaw) as I1.
    unfold wadd. rewrite wrap_id by (unfold uint; lia).
    destruct (IH w1 (<[idx := set_state s InFlight]> ss) (S idx) (pushed + 1) I1) as (w' & ss' & k & E & Hk & I' & C1 & C2 & Hu & Hl);
      [rewrite length_insert; lia | lia | lia|].
    exists w', ss', (k + 1). replace (pushed + (k + 1)) with (pushed + 1 + k) by lia.
    pose proof (slot_count_insert Staged _ _ _ (set_state s InFlight) Hi) as D1.
    pose proof (slot_count_insert InFlight _ _ _ (set_state s InFlight) Hi) as D2.
    rewrite Hst in D1, D2. change (state (set_state s InFlight)) with InFlight in D1, D2.
    rewrite decide_True, decide_False in D1 by done. rewrite decide_False, decide_True in D2 by done. split; [exact E|]. split_and!; try lia; [done| |by rewrite Hl, length_insert].
    eapply untouched_trans; [|exact Hu]. apply (memory_insert _ _ _ s _ Hi). by intros _.
  - exists w1, ss, 0. rewrite Z.add_0_r. split; [done|]. split; [lia|]. split.
    { destruct I. constructor; try done; [by rewrite Hlaw|]. intros i. by rewrite Hlaw. }
    split_and!; try lia. intros i s0 _ Hs. by exists s0.
Qed.

Lemma submit_ok w t fl : tx_inv w t fl -> exists w' t' r, submit_staged w t = Ret (w', t', r) /\ tx_inv w' t' fl /\
  ring t' = ring t /\ untouched (fun _ => True) (slots t) (slots t').
Proof.
  intros [I [Hs Hif]]. unfold submit_staged. pose proof (si_len _ _ _ _ I) as Hlen.
  destruct (push_loop_ok t fl (length (slots t)) w (slots t) 0 0 I) as (w1 & ss & k & E & Hk & I1 & C1 & C2 & Hu & _);
    [lia | lia | lia|].
  rewrite E, ret_bind. cbn beta iota zeta. rewrite Z.add_0_l.
  set (t1 := {| ring := ring t |}).
  assert (Hc : counted t1).
  { pose proof (counts_small _ _ _ _ Staged I1). pose proof (counts_small _ _ _ _ InFlight I1).
    pose proof (counts_small _ _ _ _ Staged I). pose proof (counts_small _ _ _ _ InFlight I).
    unfold counted, wsub, wadd. cbn [staged inflight slots t1]. rewrite Hs, Hif, C1, C2 in *.
    unfold wsub, wadd. rewrite !wrap_id by (apply small_uint; lia). done. }
  destruct (0 <? k).
  - pose proof (submit_law w1 (ring t)) as Hl. cbn [ring t1]. destruct (submit w1 (ring t)) as [w2 r]. cbn [fst] in Hl.
    do 3 eexists. split; [reflexivity|]. split; [|done]. split; [|done]. cbn [ring slots free_head t1]. by rewrite Hl.
  - do 3 eexists. split; [reflexivity|]. by split.
Qed.

Lemma reap_fold cs : forall K t fl, slots_inv (cs ++ K) (slots t) (free_head t) fl -> counted t ->
  exists fl', let t' := foldl reap_one t cs in slots_inv K (slots t') (free_head t') fl' /\ counted t' /\
    ring t' = ring t /\ untouched (fun _ => True) (slots t) (slots t').
Proof.
  induction cs as [|i cs IH]; intros K t fl I [Hs Hif]; cbn [foldl].
  { exists fl. split_and!; try done. intros k s _ Hk. by exists s. }
  cbn [app] in I. destruct (proj1 (si_kernel _ _ _ _ I i)) as (s & Hi & Hst); [by left|].
  set (s' := {| state := Free; buf := buf s; len := len s; addr := addr s; addr_len := addr_len s;
                next_free := free_head t |}).
  destruct (release_inv _ _ _ _ i s s' I Hi eq_refl (si_bufs _ _ _ _ I i s Hi) eq_refl) as [I' _].
  pose proof (slot_count_insert Staged _ _ _ s' Hi) as D1. pose proof (slot_count_insert InFlight _ _ _ s' Hi) as D2.
  rewrite Hst in D1, D2. change (state s') with Free in D1, D2. rewrite !decide_False in D1 by done.
  rewrite decide_True, decide_False in D2 by done. pose proof (count_pos InFlight _ _ _ Hi Hst).
  assert (Hw : wrap 16 (Z.of_nat i) = Z.of_nat i).
  { apply wrap_id. apply lookup_lt_Some in Hi. pose proof (si_len _ _ _ _ I). unfold uint. lia. }
  set (t1 := {| ring := ring t; fd := fd t; slots := <[i := s']> (slots t);
                free_head := wrap 16 (Z.of_nat i); staged := staged t; inflight := ssub (inflight t) 1 |}).
  assert (E1 : reap_one t i = t1) by (unfold reap_one; by rewrite Hi). rewrite E1. clear E1.
  destruct (IH K t1 (i :: fl)) as (fl' & I2 & C2 & Hr & Hu).
  { cbn [slots free_head t1]. by rewrite Hw. }
  { unfold counted. cbn [staged inflight slots t1]. unfold ssub. lia. }
  exists fl'. split; [exact I2|]. split; [exact C2|]. split; [exact Hr|].
  eapply untouched_trans; [|exact Hu]. cbn [slots t1]. apply (memory_insert _ _ _ s _ Hi). by intros _.
Qed.

Lemma reap_ok w t fl : tx_inv w t fl -> exists fl', let '(w', t', _, _) := reap w t in
  tx_inv w' t' fl' /\ ring t' = ring t /\ untouched (fun _ => True) (slots t) (slots t').
Proof.
  intros [I C]. unfold reap. pose proof (completion_law w (ring t)) as Hl.
  destruct (completion w (ring t)) as [w1 cs].
  assert (I1 : slots_inv (cs.*1 ++ in_kernel w1 (ring t)) (slots t) (free_head t) fl).
  { destruct I. constructor; try done; [by rewrite <- Hl|]. intros i. by rewrite <- Hl. }
  assert (Ef : forall t0, foldl (fun t c => reap_one t c.1) t0 cs = foldl reap_one t0 cs.*1).
  { clear. induction cs as [|[i r] cs IH]; intros t0; [done|]. simpl. apply IH. }
  destruct (reap_fold cs.*1 _ t fl I1 C) as (fl' & I2 & C2 & Hr & Hu). exists fl'. rewrite Ef.
  split; [|by split]. split; [by rewrite Hr | done].
Qed.

(** ** Programs over the queue *)

Inductive op := OStage (peer : SocketAddr) (fill : list Z -> exec (list Z * nat)) | OSubmit | OWait (n : nat) | OReap.
Definition op_ok (o : op) : Prop := match o with OStage _ fill => fill_ok fill | _ => True end.

Definition run_op (w : W) (t : UringTx) (o : op) : exec (W * UringTx) :=
  match o with
  | OStage peer fill => '(t, _) ← stage t peer fill; Ret (w, t)
  | OSubmit => '(w, t, _) ← submit_staged w t; Ret (w, t)
  | OWait n => Ret ((wait w t n).1, t)
  | OReap => let '(w, t, _, _) := reap w t in Ret (w, t)
  end.

Fixpoint run_ops (w : W) (t : UringTx) (os : list op) : exec (W * UringTx) :=
  match os with
  | [] => Ret (w, t)
  | o :: os => '(w, t) ← run_op w t o; run_ops w t os
  end.

Lemma untouched_refl (P : nat -> Prop) ss : untouched P ss ss.
Proof. intros i s _ Hs. by exists s. Qed.

Lemma untouched_all (P : nat -> Prop) ss ss' : untouched (fun _ => True) ss ss' -> untouched P ss ss'.
Proof. intros H i s _. by apply H. Qed.

Lemma run_op_ok w t fl o : tx_inv w t fl -> op_ok o ->
  exists w' t' fl', run_op w t o = Ret (w', t') /\ tx_inv w' t' fl' /\
    untouched (fun i => i ∈ in_kernel w (ring t)) (slots t) (slots t').
Proof.
  intros I Ho. destruct o as [peer fill| |n|]; cbn [run_op].
  - destruct (stage_ok w t fl peer fill I Ho) as (t' & r & fl' & -> & I' & _ & _ & _ & Hu).
    rewrite ret_bind. by exists w, t', fl'.
  - destruct (submit_ok w t fl I) as (w' & t' & r & -> & I' & _ & Hu).
    rewrite ret_bind. exists w', t', fl. split_and!; [done|done|by apply untouched_all].
  - exists (wait w t n).1, t, fl. split; [done|]. split; [|apply untouched_refl].
    unfold wait. pose proof (wait_law w (ring t) n) as Hl. destruct (submit_and_wait w (ring t) n) as [w1 r].
    destruct I as [I C]. split; [|done]. cbn [fst] in *. by rewrite Hl.
  - destruct (reap_ok w t fl I) as (fl' & H). destruct (reap w t) as [[[w' t'] es] n].
    destruct H as (I' & _ & Hu). exists w', t', fl'. split_and!; [done|done|by apply untouched_all].
Qed.

Lemma run_ops_ok os : forall w t fl, tx_inv w t fl -> Forall op_ok os ->
  exists w' t' fl', run_ops w t os = Ret (w', t') /\ tx_inv w' t' fl'.
Proof.
  induction os as [|o os IH]; intros w t fl I Ho; cbn [run_ops]; [by exists w, t, fl|].
  apply Forall_cons in Ho as [Ho Hos]. destruct (run_op_ok w t fl o I Ho) as (w1 & t1 & fl1 & -> & I1 & _).
  rewrite ret_bind. by apply (IH w1 t1 fl1).
Qed.

Lemma fresh_chain n i : forall k, (k = n - i)%nat -> (i <= n)%nat -> Z.of_nat n <= 65535 ->
  chain (empty_slot n <$> seq 0 n) (if (i <? n)%nat then Z.of_nat i else NONE) (seq i k).
Proof.
  intros k. revert i. induction k as [|k IH]; intros i Hk Hi Hn.
  - destruct (Nat.ltb_spec i n); [lia|]. constructor.
  - destruct (Nat.ltb_spec i n); [|lia]. cbn [seq]. apply (chain_cons _ i (empty_slot n i)).
    { rewrite list_lookup_fmap, lookup_seq_lt by lia. done. }
    cbn [next_free empty_slot]. specialize (IH (S i) ltac:(lia) ltac:(lia) Hn).
    replace (i + 1)%nat with (S i) by lia. destruct (Nat.ltb_spec (S i) n); [|done].
    rewrite wrap_id; [done|]. unfold uint. lia.
Qed.

Lemma empty_in_slot n i : in_slot (empty_slot n i).
Proof. split; cbn [buf len empty_slot]; [apply length_replicate | lia]. Qed.

Lemma new_inv w0 fd n w t : Z.of_nat n <= 65535 -> new w0 fd n = (w, Ok t) ->
  tx_inv w t (seq 0 (Nat.max n 1)) /\ available t = Z.of_nat (Nat.max n 1).
Proof.
  intros Hn. unfold new. set (m := Nat.max n 1). assert (Hm : Z.of_nat m <= 65535 /\ (1 <= m)%nat) by (unfold m; lia).
  destruct (ring_new w0 _) as [w1 [r|e]] eqn:E; [|done]. intros [= <- <-]. apply new_law in E.
  assert (Hst : forall i s, (empty_slot m <$> seq 0 m) !! i = Some s -> state s = Free).
  { intros i s. rewrite list_lookup_fmap. destruct (seq 0 m !! i); [|done]. by intros [= <-]. }
  assert (Hc : forall st, st <> Free -> count st (empty_slot m <$> seq 0 m) = 0%nat).
  { intros st Hne. apply count_zero. intros i s Hi. rewrite (Hst i s Hi). congruence. }
  assert (I : tx_inv w1 {| ring := r; fd := fd; slots := empty_slot m <$> seq 0 m; free_head := 0; staged := 0; inflight := 0 |} (seq 0 m)).
  { split.
    - constructor; cbn [ring slots free_head]; rewrite ?E.
      + rewrite length_fmap, length_seq. lia.
      + intros i s. rewrite list_lookup_fmap. destruct (seq 0 m !! i); [|done]. intros [= <-]. apply empty_in_slot.
      + pose proof (fresh_chain m 0 m ltac:(lia) ltac:(lia) (proj1 Hm)) as Hch.
        rewrite (proj2 (Nat.ltb_lt 0 m)) in Hch by lia. exact Hch.
      + apply NoDup_seq.
      + intros i s Hi. split; [|by rewrite (Hst i s Hi)]. intros _. apply elem_of_seq.
        apply lookup_lt_Some in Hi. rewrite length_fmap, length_seq in Hi. lia.
      + constructor.
      + intros i. split; [by intros ?%not_elem_of_nil|]. intros (s & Hs & Hf). rewrite (Hst i s Hs) in Hf. discriminate.
    - unfold counted. cbn [staged inflight slots]. by rewrite (Hc Staged), (Hc InFlight) by discriminate. }
  split; [exact I|]. rewrite (available_free _ _ _ I). cbn [slots].
  pose proof (count_split (empty_slot m <$> seq 0 m)) as Hs. rewrite (Hc Staged), (Hc InFlight), length_fmap, length_seq in Hs by discriminate. lia.
Qed.

(** C40: zero-copy transmission is memory safe.  Whatever is staged, submitted,
    awaited and reaped, in any order, no operation panics, the three counters add
    up to the slots, the length the kernel is given stays inside the slot's buffer
    (when the closures name lengths within it), and no operation touches the bytes, the length or the
    destination of a slot the kernel may still read; a datagram is refused exactly
    when no slot is idle, and otherwise goes, with its destination, into a slot
    that the kernel does not hold. *)
Theorem uring_memory_safe w0 fd n w t0 os : Z.of_nat n <= 65535 -> new w0 fd n = (w, Ok t0) -> Forall op_ok os ->
  exists w' t', run_ops w t0 os = Ret (w', t') /\
    available t' + staged t' + inflight t' = Z.of_nat (length (slots t')) /\
    (forall i s, slots t' !! i = Some s -> in_slot s) /\
    (forall o, op_ok o -> exists w'' t'', run_op w' t' o = Ret (w'', t'') /\
       forall i s, i ∈ in_kernel w' (ring t') -> slots t' !! i = Some s ->
         exists s', slots t'' !! i = Some s' /\ same_memory s s') /\
    (forall peer fill, fill_ok fill -> exists t'' r, stage t' peer fill = Ret (t'', r) /\
       (available t' = 0 -> r = Err Busy) /\
       (available t' <> 0 -> r = Ok tt /\ exists i b k s', (i ∉ in_kernel w' (ring t')) /\
          slots t'' !! i = Some s' /\ fill b = Ret (buf s', k) /\ len s' = k /\
          (addr s', addr_len s') = fill_sockaddr peer)).
Proof.
  intros Hn Hnew Ho. destruct (new_inv w0 fd n w t0 Hn Hnew) as [I0 _].
  destruct (run_ops_ok os w t0 _ I0 Ho) as (w' & t' & fl & E & I). exists w', t'. split; [exact E|]. split_and!.
  - rewrite (available_free _ _ _ I). destruct I as [_ [-> ->]]. pose proof (count_split (slots t')). lia.
  - destruct I as [I _]. exact (si_bufs _ _ _ _ I).
  - intros o Hok. destruct (run_op_ok w' t' fl o I Hok) as (w'' & t'' & fl'' & E' & _ & Hu). by exists w'', t''.
  - intros peer fill Hf. destruct (stage_ok w' t' fl peer fill I Hf) as (t'' & r & fl' & E' & _ & _ & Hb & Hs & _).
    exists t'', r. split; [exact E'|]. split; [intros Ha; by apply Hb|]. intros Ha.
    destruct (Hs Ha) as (-> & i & b & k & s' & H1 & H2 & _ & H3 & H4 & H5). split; [done|].
    exists i, b, k, s'. by split_and!.
Qed.

End Operations.

(** ** The send the service makes *)

Section Transmit.
Context {W : Type} `{UL : UringLaws W}.

Lemma copy_fill_ok bs : fill_ok (copy_fill bs).
Proof.
  intros b Hb. unfold copy_fill. set (n := Nat.min (length bs) (length b)).
  assert (Hn : (0 + length (take n bs) <= length b)%nat) by (rewrite length_take; unfold n; lia).
  unfold copy_from_slice. rewrite decide_True by exact Hn. rewrite ret_bind. eexists _, n. split; [reflexivity|].
  rewrite length_splice by exact Hn. split; [exact Hb | unfold n; lia].
Qed.

(** the call returns whatever the kernel answers, the queue stays well formed, and
    [true] is only reported when the submission, the wait and every completion
    reaped went well *)
Lemma uring_transmit_ok w t fl dst bs : tx_inv w t fl ->
  exists w' t' r fl', transmit w t dst bs = Ret (w', t', r) /\ tx_inv w' t' fl' /\
    (available t = 0 -> r = false /\ t' = t /\ w' = w).
Proof.
  intros I. unfold transmit.
  destruct (stage_ok w t fl dst _ I (copy_fill_ok bs)) as (t1 & r1 & fl1 & -> & I1 & _ & Hb & Hs & _).
  rewrite ret_bind. destruct r1 as [u|e].
  2:{ exists w, t1, false, fl1. split; [done|]. split; [done|]. intros Ha. by destruct (Hb Ha) as [_ ->]. }
  destruct (submit_ok w t1 fl1 I1) as (w2 & t2 & r2 & -> & I2 & _). rewrite ret_bind.
  assert (Ha : available t <> 0) by (intros Ha; destruct (Hb Ha) as [E _]; discriminate).
  set (sub := match r2 with Ok n => n =? 1 | Err _ => false end).
  assert (H3 : exists w3 c, (if sub then let '(w, r) := wait w2 t2 (Z.to_nat (inflight t2)) in (w, is_ok r) else (w2, false)) = (w3, c)
    /\ tx_inv w3 t2 fl1).
  { destruct sub; [|by exists w2, false]. unfold wait.
    pose proof (wait_law w2 (ring t2) (Z.to_nat (inflight t2))) as Hl.
    destruct (submit_and_wait w2 (ring t2) (Z.to_nat (inflight t2))) as [w3 r3]. eexists _, _. split; [reflexivity|].
    destruct I2 as [I2 C]. split; [|done]. cbn [fst] in Hl. by rewrite Hl. }
  destruct H3 as (w3 & c & -> & I3). destruct (reap_ok w3 t2 fl1 I3) as (fl4 & H4).
  destruct (reap w3 t2) as [[[w4 t4] es] n]. destruct H4 as (I4 & _ & _).
  exists w4, t4, (c && negb (0 <? length es)%nat), fl4. by split_and!.
Qed.

End Transmit.

(** ** A kernel to run it on *)

Module Demo.

(** entries pushed, entries the kernel has transmitted and completed, the log of
    slots transmitted, and whether a signal interrupts the next wait *)
Record Kernel := { queued : list nat; completed : list (nat * Z); wire : list nat; signal : bool }.

Definition flush (k : Kernel) : Kernel :=
  {| queued := []; completed := completed k ++ ((fun i => (i, 0)) <$> queued k); wire := wire k ++ queued k;
     signal := false |}.

#[export] Instance kernel_os : IoUringOs Kernel := {
  ring_new k n := ({| queued := []; completed := []; wire := wire k; signal := signal k |}, Ok 0);
  sq_push k r e := ({| queued := queued k ++ [user_data e]; completed := completed k; wire := wire k; signal := signal k |}, true);
  submit k r := (k, Ok (length (queued k)));
  submit_and_wait k r n := (if signal k
    then ({| queued := queued k; completed := completed k; wire := wire k; signal := false |}, Err OtherIo)
    else (flush k, Ok (length (queued k))));
  completion k r := ({| queued := queued k; completed := []; wire := wire k; signal := signal k |}, completed k)
}.

#[export, program] Instance kernel_laws : UringLaws Kernel := { in_kernel k r := (completed k).*1 ++ queued k }.
Next Obligation. intros w n w' r E. by injection E as <- <-. Qed.
Next Obligation.
  intros w r e. simpl. rewrite app_assoc. symmetry. apply Permutation_cons_append.
Qed.
Next Obligation. done. Qed.
Next Obligation.
  intros w r n. simpl. destruct (signal w); simpl; [done|].
  rewrite app_nil_r, fmap_app, <- list_fmap_compose, list_fmap_id. done.
Qed.
Next Obligation. intros w r. simpl. done. Qed.

Definition peer : SocketAddr := {| ip := V4 [127; 0; 0; 1]; port := 4455; flowinfo := 0; scope_id := 0 |}.
Definition link_local (zone : Z) : SocketAddr :=
  {| ip := V6 ([254; 128] ++ replicate 13 0 ++ [1]); port := 4455; flowinfo := 0; scope_id := zone |}.
Definition fresh (sig : bool) (n : nat) : exec (Kernel * UringTx) :=
  match new {| queued := []; completed := []; wire := []; signal := sig |} 3 n with
  | (k, Ok t) => Ret (k, t)
  | (_, Err _) => Panic
  end.
Definition write1 (x : Z) (slot : list Z) : exec (list Z * nat) :=
  slot ← copy_from_slice slot 0 [x]; Ret (slot, 1%nat).

End Demo.

Module Checks.
Import Demo.

Lemma write1_ok x : fill_ok (write1 x).
Proof.
  intros b Hb. unfold write1, copy_from_slice. rewrite decide_True by (rewrite Hb; vm_compute; lia).
  rewrite ret_bind. eexists _, 1%nat. split; [reflexivity|].
  rewrite length_splice by (rewrite Hb; vm_compute; lia). split; [exact Hb | vm_compute; lia].
Qed.

Definition session : list op :=
  [OStage peer (write1 7); OSubmit; OStage peer (write1 8); OStage peer (write1 9); OWait 1; OReap; OSubmit].

(** two slots, one datagram reaped, a third refused on the way *)
Lemma uring_memory_safe_witness :
  exists w t0 w' t', new {| queued := []; completed := []; wire := []; signal := false |} 3 2 = (w, Ok t0) /\
    run_ops w t0 session = Ret (w', t') /\
    available t' + staged t' + inflight t' = Z.of_nat (length (slots t')).
Proof.
  destruct (new {| queued := []; completed := []; wire := []; signal := false |} 3 2) as [w [t0|e]] eqn:E;
    [|discriminate E].
  destruct (uring_memory_safe _ 3 2 w t0 session ltac:(lia) E) as (w' & t' & Hr & Hc & _).
  { repeat constructor; apply write1_ok. }
  exists w, t0, w', t'. split; [reflexivity|]. split; [exact Hr | exact Hc].
Defined.

(** the free list is a stack: the slot reaped last is the next one taken *)
Example slots_are_reused :
  ('(k, t) ← fresh false 2;
   '(k, t, a) ← transmit k t peer [1; 2; 3];
   '(k, t, b) ← transmit k t peer [4; 5];
   Ret (a, b, wire k, available t, (fun s => take 3 (buf s)) <$> slots t)) =
  Ret (true, true, [0%nat; 0%nat], 2, [[4; 5; 3]; [0; 0; 0]]).
Proof. vm_compute. reflexivity. Qed.

(** a signal during the wait: [transmit] sends the caller to the socket with the
    same datagram while the kernel still has it to send *)
Lemma interrupted_wait_sends_twice :
  ('(k, t) ← fresh true 4;
   '(k, t, sent) ← transmit k t peer [1; 2; 3];
   let '(k', _) := wait k t 1 in
   Ret (sent, in_kernel k 0, inflight t, wire k')) = Ret (false, [0%nat], 1, [0%nat]).
Proof. vm_compute. reflexivity. Qed.

(** a closure that names more bytes than the slot has: the kernel is told to read
    past the buffer *)
Lemma stage_trusts_fill :
  ('(_, t) ← fresh false 1;
   '(t, r) ← stage t peer (fun b => Ret (b, 2000%nat));
   Ret (r, (fun s => (len s, length (buf s))) <$> slots t)) = Ret (Ok tt, [(2000, MAX_DATAGRAM)%nat]).
Proof. vm_compute. reflexivity. Qed.

(** the zone of a link-local IPv6 destination is not handed to the kernel *)
Lemma scope_is_dropped a b : ip a = ip b -> port a = port b -> fill_sockaddr a = fill_sockaddr b.
Proof. unfold fill_sockaddr. by intros -> ->. Qed.

Example interfaces_confused : link_local 2 <> link_local 3 /\ fill_sockaddr (link_local 2) = fill_sockaddr (link_local 3).
Proof. split; [discriminate | by apply scope_is_dropped]. Qed.

End Checks.
