(* ===== verification/Terminal.v ===== *)
(** * The terminal

    The standard streams of the command-line tool, as its subcommands use them, and
    what the C library and the file system answer it. *)

From stdpp Require Import strings.
From S2P Require Import Prelude Text.

Class Terminal (W : Type) := {
  (** a write to the stream, and whether it succeeded *)
  stdout_write : W -> list Z -> W * bool;
  stderr_write : W -> list Z -> W * bool
}.

(** The macros panic when the stream cannot be written. *)
Definition stream_ok {W} (r : W * bool) : exec W := if r.2 then Ret r.1 else Panic.
Definition print {W} `{!Terminal W} (w : W) (s : list Z) : exec W := stream_ok (stdout_write w s).
Definition println {W} `{!Terminal W} (w : W) (s : list Z) : exec W := print w (s ++ [10]).
Definition eprintln {W} `{!Terminal W} (w : W) (s : list Z) : exec W := stream_ok (stderr_write w (s ++ [10])).

(** no write to the standard streams fails: they are open, and nobody closes the far
    end of a pipe *)
Definition streams_open (W : Type) `{!Terminal W} : Prop :=
  forall (w : W) s, (stdout_write w s).2 = true /\ (stderr_write w s).2 = true.

Section Streams.
Context {W : Type} `{TM : !Terminal W}.

Lemma print_open (w : W) s : streams_open W -> print w s = Ret (stdout_write w s).1.
Proof. intros H. unfold print, stream_ok. by rewrite (proj1 (H w s)). Qed.
Lemma println_open (w : W) s : streams_open W -> println w s = Ret (stdout_write w (s ++ [10])).1.
Proof. apply print_open. Qed.
Lemma eprintln_open (w : W) s : streams_open W -> eprintln w s = Ret (stderr_write w (s ++ [10])).1.
Proof. intros H. unfold eprintln, stream_ok. by rewrite (proj2 (H w (s ++ [10]))). Qed.

(** a closed standard output brings a line down *)
Lemma println_closed (w : W) s : (stdout_write w (s ++ [10])).2 = false -> println w s = Panic.
Proof. intros H. unfold println, print, stream_ok. by rewrite H. Qed.
End Streams.

(** lines printed to open streams *)
Ltac printing Hs :=
  rewrite ?(println_open _ _ Hs), ?(eprintln_open _ _ Hs), ?(print_open _ _ Hs), ?ret_bind; cbn beta iota zeta.

(** Directories and files.  An error is its text. *)
Class FileSystem (W : Type) := {
  current_dir : W -> option (list Z);
  path_exists : W -> list Z -> bool;
  create_dir_all : W -> list Z -> W * result unit (list Z);
  write_file_bytes : W -> list Z -> list Z -> W * result unit (list Z);
  read_file_bytes : W -> list Z -> result (list Z) (list Z)
}.

(** [thread::sleep], in nanoseconds *)
Class Sleeper (W : Type) := { sleep : W -> Z -> W }.
