(* ===== verification/Console.v ===== *)
(** * The fleet console: [tpt-t-cli/src/console.rs]

    A client of the fleet server's [/mcp] endpoint: lines typed by an operator (or
    an agent) become JSON-RPC tool calls, one connection each, and the answers are
    printed.  Sockets and files are the class [ConsoleOs].  The last
    part joins the client to the server of this library. *)

From stdpp Require Import gmap strings.
From S2P Require Import Prelude Text Float FloatText Json Http CoreProfile Terminal.

(** ** [String::from_utf8_lossy]

    A maximal prefix of a well-formed sequence that is cut short is one
    replacement character; decoding goes on behind it. *)

Definition REPLACEMENT : Z := 0xFFFD.

(** the second byte a lead byte of three or four bytes allows *)
Definition second_ok (b0 b1 : Z) : bool :=
  is_cont b1 && negb ((b0 =? 0xE0) && (b1 <? 0xA0)) && negb ((b0 =? 0xED) && (0xA0 <=? b1))
  && negb ((b0 =? 0xF0) && (b1 <? 0x90)) && negb ((b0 =? 0xF4) && (0x90 <=? b1)).

Fixpoint from_utf8_lossy (bs : list Z) : list Z :=
  match bs with
  | [] => []
  | b0 :: r =>
      if b0 <? 0x80 then b0 :: from_utf8_lossy r
      else if (0xC2 <=? b0) && (b0 <=? 0xDF) then
        match r with
        | b1 :: r' => if is_cont b1 then ((b0 - 0xC0) * 64 + (b1 - 0x80)) :: from_utf8_lossy r'
                      else REPLACEMENT :: from_utf8_lossy r
        | [] => [REPLACEMENT]
        end
      else if (0xE0 <=? b0) && (b0 <=? 0xEF) then
        match r with
        | b1 :: r1 =>
            if second_ok b0 b1 then
              match r1 with
              | b2 :: r2 =>
                  if is_cont b2 then ((b0 - 0xE0) * 4096 + (b1 - 0x80) * 64 + (b2 - 0x80)) :: from_utf8_lossy r2
                  else REPLACEMENT :: from_utf8_lossy r1
              | [] => [REPLACEMENT]
              end
            else REPLACEMENT :: from_utf8_lossy r
        | [] => [REPLACEMENT]
        end
      else if (0xF0 <=? b0) && (b0 <=? 0xF4) then
        match r with
        | b1 :: r1 =>
            if second_ok b0 b1 then
              match r1 with
              | b2 :: r2 =>
                  if is_cont b2 then
                    match r2 with
                    | b3 :: r3 =>
                        if is_cont b3 then
                          ((b0 - 0xF0) * 262144 + (b1 - 0x80) * 4096 + (b2 - 0x80) * 64 + (b3 - 0x80)) :: from_utf8_lossy r3
                        else REPLACEMENT :: from_utf8_lossy r2
                    | [] => [REPLACEMENT]
                    end
                  else REPLACEMENT :: from_utf8_lossy r1
              | [] => [REPLACEMENT]
              end
            else REPLACEMENT :: from_utf8_lossy r
        | [] => [REPLACEMENT]
        end
      else REPLACEMENT :: from_utf8_lossy r
  end.

(** ** The client *)

Class ConsoleOs (W St : Type) := {
  tcp_connect : W -> list Z -> W * result St (list Z);
  client_write_all : W -> St -> list Z -> W * result unit (list Z);
  client_flush : W -> St -> W * result unit (list Z);
  client_read_to_end : W -> St -> W * result (list Z) (list Z);
  read_to_string : W -> list Z -> W * result (list Z) (list Z);
  stdout_flush : W -> W * bool
}.

Module Console.

(** the text of the request; [String::len] counts bytes *)
Definition request (host : list Z) (auth : option (list Z)) (json_body : list Z) : list Z :=
  ascii_bytes "POST /mcp HTTP/1.1" ++ CRLF ++ ascii_bytes "Host: " ++ host ++ CRLF ++
  ascii_bytes "Content-Type: application/json" ++ CRLF ++
  ascii_bytes "Content-Length: " ++ dec (Z.of_nat (length (utf8 json_body))) ++ CRLF ++
  match auth with
  | Some h => ascii_bytes "Authorization: TPT-Attestation " ++ h ++ CRLF
  | None => []
  end ++
  ascii_bytes "Connection: close" ++ CRLF ++ CRLF ++ json_body.

(** [str::lines().next()] *)
Definition first_line (s : list Z) : option (list Z) :=
  match s with
  | [] => None
  | _ =>
      let l := match split_once [10] s with Some (l, _) => l | None => s end in
      Some (match split_once [10] s, last l with Some _, Some 13 => removelast l | _, _ => l end)
  end.

(** status and body of the bytes received *)
Definition response (raw : list Z) : Z * list Z :=
  let text := from_utf8_lossy raw in
  let '(head, body) := match split_once (CRLF ++ CRLF) text with Some p => p | None => (text, []) end in
  let status := line ← first_line head; code ← split_whitespace line !! 1%nat; parse_uint 16 code in
  (default 0 status, body).

Section Console.
Context {W St : Type} `{OS : !ConsoleOs W St} `{TM : !Terminal W} `{SD : !StrDebug}.

Definition send_request (w : W) (host : list Z) (auth : option (list Z)) (json_body : list Z)
  : W * result (Z * list Z) (list Z) :=
  let '(w, c) := tcp_connect w host in
  match c with
  | Err e => (w, Err e)
  | Ok stream =>
      let '(w, r) := client_write_all w stream (utf8 (request host auth json_body)) in
      match r with
      | Err e => (w, Err e)
      | Ok _ =>
          let '(w, r) := client_flush w stream in
          match r with
          | Err e => (w, Err e)
          | Ok _ =>
              let '(w, raw) := client_read_to_end w stream in
              (w, match raw with Err e => Err e | Ok raw => Ok (response raw) end)
          end
      end
  end.

Definition call_body (id : Z) (tool : string) (args : Json) : Json :=
  Json.obj
    [(ascii_bytes "jsonrpc", Json.str (ascii_bytes "2.0"));
     (ascii_bytes "id", Json.uint id);
     (ascii_bytes "method", Json.str (ascii_bytes "tools/call"));
     (ascii_bytes "params", Json.obj [(ascii_bytes "name", Json.str (ascii_bytes tool)); (ascii_bytes "arguments", args)])].

(** what is printed for an answer *)
Definition show (w : W) (v : Json) : exec W :=
  match Json.get v (ascii_bytes "error"), Json.get v (ascii_bytes "result") with
  | Some err, _ => eprintln w (ascii_bytes "error: " ++ Json.write err)
  | None, Some result => println w (Json.write result)
  | None, None => println w (Json.write v)
  end.

(** the counter after the call comes back with the terminal *)
Definition dispatch (w : W) (host : list Z) (auth : option (list Z)) (next_id : Z) (tool : string) (args : Json)
  : exec (W * Z) :=
  let '(w, r) := send_request w host auth (Json.write (call_body next_id tool args)) in
  let next_id := wadd 64 next_id 1 in
  match r with
  | Ok (status, resp_body) =>
      v ← Json.parse (utf8 resp_body);
      match v with
      | Ok v => w ← show w v; Ret (w, next_id)
      | Err e =>
          w ← eprintln w (ascii_bytes "error: invalid JSON response (HTTP " ++ dec status ++ ascii_bytes "): "
                          ++ e ++ [10] ++ resp_body);
          Ret (w, next_id)
      end
  | Err e =>
      w ← eprintln w (ascii_bytes "error: request to " ++ host ++ ascii_bytes " failed: " ++ e);
      Ret (w, next_id)
  end.

Definition bad_unit (w : W) : exec W := eprintln w (ascii_bytes "error: unit id must be an integer").

Definition call_unit_tool (w : W) (host : list Z) (auth : option (list Z)) (next_id : Z) (tool : string)
    (unit : list Z) : exec (W * Z) :=
  match parse_uint 64 unit with
  | Some uid => dispatch w host auth next_id tool (Json.obj [(ascii_bytes "unit_id", Json.uint uid)])
  | None => w ← bad_unit w; Ret (w, next_id)
  end.

Definition help_text : list Z :=
  ascii_bytes "commands:" ++ [10] ++
  ascii_bytes "  list                          list every registered unit" ++ [10] ++
  ascii_bytes "  assign <unit_id> <operator>   assign an operator to a unit" ++ [10] ++
  ascii_bytes "  auto <unit_id>                engage autonomy (AUTO mode)" ++ [10] ++
  ascii_bytes "  manual <unit_id>              take manual control (FULL-TELEOP mode)" ++ [10] ++
  ascii_bytes "  help                          show this message" ++ [10] ++
  ascii_bytes "  quit                          exit the console".

(** one line typed; [None]: the console ends *)
Definition command (w : W) (host : list Z) (auth : option (list Z)) (next_id : Z) (line : list Z)
  : exec (W * option Z) :=
  let keep (m : exec (W * Z)) := '(w, n) ← m; Ret (w, Some n) in
  let go_on (m : exec W) := w ← m; Ret (w, Some next_id) in
  let other := go_on (eprintln w (ascii_bytes "error: unrecognized command " ++ str_debug line ++
                                  ascii_bytes " (type 'help')")) in
  match split_whitespace line with
  | [] => Panic
  | word :: rest =>
      if decide (word = ascii_bytes "quit" \/ word = ascii_bytes "exit") then Ret (w, None)
      else if decide (word = ascii_bytes "help") then go_on (println w help_text)
      else if decide (word = ascii_bytes "list") then
        match rest with [] => keep (dispatch w host auth next_id "list_units" (Json.obj [])) | _ => other end
      else if decide (word = ascii_bytes "assign") then
        match rest with
        | [unit; operator] =>
            match parse_uint 64 unit with
            | Some uid => keep (dispatch w host auth next_id "assign_unit"
                (Json.obj [(ascii_bytes "unit_id", Json.uint uid); (ascii_bytes "operator", Json.str operator)]))
            | None => go_on (bad_unit w)
            end
        | _ => other
        end
      else if decide (word = ascii_bytes "auto") then
        match rest with [unit] => keep (call_unit_tool w host auth next_id "engage_autonomy" unit) | _ => other end
      else if decide (word = ascii_bytes "manual") then
        match rest with [unit] => keep (call_unit_tool w host auth next_id "take_manual_control" unit) | _ => other end
      else other
  end.

(** [lines]: what [read_line] returns until the end of the input or an error *)
Fixpoint repl (w : W) (host : list Z) (auth : option (list Z)) (next_id : Z) (lines : list (list Z))
  : exec (W * Z) :=
  w ← print w (ascii_bytes "> ");
  let '(w, flushed) := stdout_flush w in
  if negb flushed then Ret (w, 1)
  else match lines with
  | [] => w ← println w []; Ret (w, 0)
  | line :: lines =>
      match trim line with
      | [] => repl w host auth next_id lines
      | _ =>
          '(w, next) ← command w host auth next_id (trim line);
          match next with
          | None => Ret (w, 0)
          | Some next_id => repl w host auth next_id lines
          end
      end
  end.

(** the options; [None]: an error was reported *)
Fixpoint options (w : W) (args : list (list Z)) (host : list Z) (auth : option (list Z))
  : exec (W * option (list Z * option (list Z))) :=
  let refuse (m : exec W) := w ← m; Ret (w, None) in
  match args with
  | [] => Ret (w, Some (host, auth))
  | a :: args =>
      if decide (a = ascii_bytes "--host") then
        match args with
        | h :: args => options w args h auth
        | [] => refuse (eprintln w (ascii_bytes "error: --host requires an address"))
        end
      else if decide (a = ascii_bytes "--attestation") then
        match args with
        | path :: args =>
            let '(w, r) := read_to_string w path in
            match r with
            | Ok hex => options w args host (Some (trim hex))
            | Err e => refuse (eprintln w (ascii_bytes "error: cannot read attestation file " ++ str_debug path ++
                                           ascii_bytes ": " ++ e))
            end
        | [] => refuse (eprintln w (ascii_bytes "error: --attestation requires a file path"))
        end
      else refuse (eprintln w (ascii_bytes "error: unrecognized argument " ++ str_debug a))
  end.

Definition run (w : W) (args lines : list (list Z)) : exec (W * Z) :=
  '(w, o) ← options w args (ascii_bytes "127.0.0.1:8080") None;
  match o with
  | None => Ret (w, 1)
  | Some (host, auth) =>
      w ← println w (ascii_bytes "tpt-teleop AI co-pilot console " ++ [0x2014] ++ ascii_bytes " dispatching to "
                     ++ host ++ ascii_bytes " via MCP");
      w ← println w (ascii_bytes "type 'help' for commands, 'quit' to exit");
      repl w host auth 1 lines
  end.

End Console.
End Console.

(** ** Decoding what was encoded *)

(** the bits of a scalar value, six at a time *)
Lemma sextets c : 0 <= c -> exists a b d e, c = ((a * 64 + b) * 64 + d) * 64 + e /\
  0 <= a /\ 0 <= b < 64 /\ 0 <= d < 64 /\ 0 <= e < 64 /\
  c / 64 = (a * 64 + b) * 64 + d /\ c / 4096 = a * 64 + b /\ c / 262144 = a /\
  c mod 64 = e /\ (c / 64) mod 64 = d /\ (c / 4096) mod 64 = b.
Proof.
  intros Hc. exists (c / 262144), ((c / 4096) mod 64), ((c / 64) mod 64), (c mod 64).
  assert (E1 : c / 4096 = c / 64 / 64) by (rewrite Z.div_div by lia; f_equal; lia).
  assert (E2 : c / 262144 = c / 64 / 64 / 64) by (rewrite !Z.div_div by lia; f_equal; lia).
  rewrite E1, E2. pose proof (Z.div_mod c 64 ltac:(lia)). pose proof (Z.div_mod (c / 64) 64 ltac:(lia)).
  pose proof (Z.div_mod (c / 64 / 64) 64 ltac:(lia)). pose proof (Z.div_pos (c / 64 / 64) 64 ltac:(apply Z.div_pos; [apply Z.div_pos|]; lia) ltac:(lia)).
  pose proof (Z.mod_pos_bound c 64 ltac:(lia)). pose proof (Z.mod_pos_bound (c / 64) 64 ltac:(lia)).
  pose proof (Z.mod_pos_bound (c / 64 / 64) 64 ltac:(lia)). split_and!; lia.
Qed.

Ltac decide_ltb :=
  repeat match goal with
  | |- context [?a <? ?b] => destruct (Z.ltb_spec a b); try lia; cbn [andb negb]
  | |- context [?a <=? ?b] => destruct (Z.leb_spec a b); try lia; cbn [andb negb]
  | |- context [?a =? ?b] => destruct (Z.eqb_spec a b); try lia; cbn [andb negb]
  end.

Lemma encode_decode c r : is_char c = true -> from_utf8 (encode_utf8 c ++ r) = cons c <$> from_utf8 r.
Proof.
  intros Hc. unfold is_char in Hc. zbool. destruct (sextets c ltac:(lia)) as (a & b & d & e & E & Ha & Hb & Hd & He & Hq).
  destruct Hq as (Q1 & Q2 & Q3 & Q4 & Q5 & Q6). unfold encode_utf8. rewrite Q6, Q5, Q4, Q3, Q2, Q1.
  destruct (Z.ltb_spec c 0x80); [cbn [app from_utf8]; by decide_ltb|].
  destruct (Z.ltb_spec c 0x800); [cbn [app from_utf8]; unfold is_cont; decide_ltb; do 2 f_equal; lia|].
  destruct (Z.ltb_spec c 0x10000); cbn [app from_utf8]; unfold is_cont; decide_ltb; do 2 f_equal; lia.
Qed.

Lemma utf8_decode s : Forall (fun c => is_char c = true) s -> from_utf8 (utf8 s) = Some s.
Proof.
  induction 1 as [|c s Hc _ IH]; [done|]. unfold utf8 in *. cbn [map concat]. by rewrite encode_decode, IH.
Qed.

(** what the strict decoder accepts, the lossy one reads the same way *)
Lemma lossy_valid bs : forall s, from_utf8 bs = Some s -> from_utf8_lossy bs = s.
Proof.
  induction bs as [bs IH] using (induction_ltof1 _ (@length Z)); unfold ltof in IH. intros s.
  destruct bs as [|b0 r]; [by intros [= <-]|]. cbn [from_utf8 from_utf8_lossy].
  assert (step : forall x r' s0, (length r' < length (b0 :: r))%nat -> (cons x <$> from_utf8 r') = Some s0 ->
    x :: from_utf8_lossy r' = s0).
  { intros x r' s0 Hl (t & E & ->)%fmap_Some. f_equal. by apply IH. }
  destruct (b0 <? 0x80); [by apply step; simpl; lia|].
  destruct ((0xC2 <=? b0) && (b0 <=? 0xDF)).
  { destruct r as [|b1 r]; [done|]. destruct (is_cont b1); [|done]. apply step. simpl. lia. }
  destruct (Z.leb_spec 0xE0 b0), (Z.leb_spec b0 0xEF); cbn [andb].
  - destruct r as [|b1 [|b2 r]]; [done|done|]. unfold second_ok.
    destruct (is_cont b1), (is_cont b2); cbn [andb]; try done.
    destruct (negb ((b0 =? 0xE0) && (b1 <? 0xA0))), (negb ((b0 =? 0xED) && (0xA0 <=? b1))); cbn [andb]; try done.
    rewrite (proj2 (Z.eqb_neq b0 0xF0)), (proj2 (Z.eqb_neq b0 0xF4)) by lia. cbn [andb negb].
    apply step. simpl. lia.
  - destruct ((0xF0 <=? b0) && (b0 <=? 0xF4)); [|done].
    destruct r as [|b1 [|b2 [|b3 r]]]; [done..|]. unfold second_ok.
    destruct (is_cont b1), (is_cont b2), (is_cont b3); cbn [andb]; try done.
    rewrite (proj2 (Z.eqb_neq b0 0xE0)), (proj2 (Z.eqb_neq b0 0xED)) by lia. cbn [andb negb].
    destruct (negb ((b0 =? 0xF0) && (b1 <? 0x90))), (negb ((b0 =? 0xF4) && (0x90 <=? b1))); cbn [andb]; try done.
    apply step. simpl. lia.
  - destruct ((0xF0 <=? b0) && (b0 <=? 0xF4)) eqn:E; [zbool; lia | done].
  - destruct ((0xF0 <=? b0) && (b0 <=? 0xF4)) eqn:E; [zbool; lia | done].
Qed.

(** ** A printed request is read back *)

Section ReadBack.
Context `{UC : !Unicode}.

(** lines joined by line ends, none behind the last *)
Fixpoint joined (l : list Z) (ls : list (list Z)) : list Z :=
  match ls with [] => l | l' :: ls => l ++ CRLF ++ joined l' ls end.

Definition line_ok (l : list Z) : Prop := 13 ∉ l /\ l <> [].

Lemma crlf_here l needle r : 13 ∉ l -> take (length needle) (13 :: r) = needle -> hd_error needle = Some 13 ->
  find_at needle (l ++ 13 :: r) = Some (length l).
Proof.
  intros Hl Ht Hh. destruct needle as [|c needle]; [done|]. injection Hh as ->. rewrite find_at_skip by done.
  cbn [find_at]. rewrite bool_decide_true by done. cbn [fmap option_fmap option_map]. f_equal. lia.
Qed.

Lemma split_crlf_cons l r : 13 ∉ l -> split CRLF (l ++ CRLF ++ r) = l :: split CRLF r.
Proof.
  intros Hl. unfold split. rewrite length_app. cbn [length app CRLF]. rewrite !Nat.add_succ_r.
  remember (S (length l + length r)) as n eqn:En. cbn [split_aux].
  unfold split_once. change (13 :: 10 :: r) with (CRLF ++ r).
  cbn [app CRLF]. rewrite crlf_here by done. cbn [fmap option_fmap option_map].
  rewrite take_app_length. f_equal. rewrite drop_app_ge by lia.
  replace (length l + length CRLF - length l)%nat with (length CRLF) by lia.
  change (drop (length CRLF) (13 :: 10 :: r)) with r.
  apply split_aux_fuel; [done | lia].
Qed.

Lemma split_crlf_one l : 13 ∉ l -> split CRLF l = [l].
Proof.
  intros Hl. unfold split. destruct l as [|c l]; [done|]. cbn [length split_aux]. unfold split_once.
  rewrite <- (app_nil_r (c :: l)) at 1. unfold CRLF. by rewrite find_at_skip by done.
Qed.

Lemma split_joined l ls : 13 ∉ l -> Forall line_ok ls -> split CRLF (joined l ls) = l :: ls.
Proof.
  revert l. induction ls as [|l' ls IH]; intros l Hl Hls; cbn [joined]; [by apply split_crlf_one|].
  apply Forall_cons in Hls as [[H1 H2] Hls]. by rewrite split_crlf_cons, IH.
Qed.

Lemma joined_cons l ls : l <> [] -> 13 ∉ l -> exists c t, joined l ls = c :: t /\ c <> 13.
Proof.
  intros Hl Hn. destruct l as [|c l]; [done|]. assert (c <> 13) by set_solver.
  destruct ls; cbn [joined]; eauto.
Qed.

Lemma find_blank l ls b : 13 ∉ l -> Forall line_ok ls ->
  find_at (CRLF ++ CRLF) (joined l ls ++ CRLF ++ CRLF ++ b) = Some (length (joined l ls)).
Proof.
  change (CRLF ++ CRLF) with [13; 10; 13; 10]. revert l. induction ls as [|l' ls IH]; intros l Hl Hls; cbn [joined].
  - by apply crlf_here.
  - apply Forall_cons in Hls as [[H1 H2] Hls]. specialize (IH l' H1 Hls).
    destruct (joined_cons l' ls H2 H1) as (c & t & E & Hc). rewrite <- !app_assoc. rewrite find_at_skip by done.
    rewrite E in IH |- *. cbn [app CRLF] in IH |- *. cbn [find_at length take].
    rewrite bool_decide_false by (intros [= ?]; done). rewrite bool_decide_false by done.
    cbn [find_at length take] in IH. rewrite IH. cbn [fmap option_fmap option_map].
    rewrite length_app. cbn [length]. done.
Qed.

Definition field (h : list Z * list Z) : list Z := h.1 ++ ascii_bytes ": " ++ h.2.

Lemma request_joined m t hs b : request_text m t hs b =
  joined (m ++ [32] ++ t ++ ascii_bytes " HTTP/1.1") (map field hs) ++ CRLF ++ CRLF ++ b.
Proof.
  assert (H : forall hs l, l ++ CRLF ++ concat (map (fun h => h.1 ++ ascii_bytes ": " ++ h.2 ++ CRLF) hs) =
    joined l (map field hs) ++ CRLF).
  { clear. intros hs. induction hs as [|h hs IH]; intros l; [cbn [map concat joined]; by rewrite (app_nil_r CRLF)|].
    cbn [map joined concat]. rewrite <- !app_assoc. f_equal. f_equal. rewrite <- IH. unfold field.
    by rewrite <- !app_assoc. }
  unfold request_text. rewrite (app_assoc (joined _ _)), <- H. by rewrite <- !app_assoc.
Qed.

(** a header a client may send: its name is a token, its value has no outer spaces *)
Definition header_ok (h : list Z * list Z) : Prop :=
  ascii (h.1 ++ h.2) /\ 13 ∉ h.1 ++ h.2 /\ 58 ∉ h.1 /\ visible h.1 /\ trim (32 :: h.2) = h.2.

Definition lowered (h : list Z * list Z) : list Z * list Z := (to_ascii_lowercase h.1, h.2).
Definition announced (cl : Z) (h : list Z * list Z) : Z :=
  if decide (to_ascii_lowercase h.1 = ascii_bytes "content-length") then default 0 (parse_uint 64 h.2) else cl.

Lemma header_read acc h : header_ok h ->
  Request.header_line acc (field h) = (acc.1 ++ [lowered h], announced acc.2 h).
Proof.
  intros (Ha & Hn & Hc & Hv & Ht). unfold Request.header_line.
  rewrite bool_decide_false by (unfold field; by destruct h.1).
  assert (E : split_once [58] (field h) = Some (h.1, 32 :: h.2)).
  { unfold field, split_once. change (h.1 ++ ascii_bytes ": " ++ h.2) with (h.1 ++ 58 :: 32 :: h.2).
    rewrite find_at_one by done. cbn [fmap option_fmap option_map length]. rewrite take_app_length. f_equal. f_equal.
    rewrite drop_app_ge by lia. by replace (length h.1 + 1 - length h.1)%nat with 1%nat by lia. }
  rewrite E, trim_unchanged, Ht by done. apply Forall_app in Ha as [Ha _].
  rewrite to_lowercase_ascii by done. done.
Qed.

Lemma headers_read hs : forall acc, Forall header_ok hs ->
  foldl Request.header_line acc (map field hs) = (acc.1 ++ map lowered hs, foldl announced acc.2 hs).
Proof.
  induction hs as [|h hs IH]; intros acc Hh; cbn [map foldl]; [destruct acc; by rewrite app_nil_r|].
  apply Forall_cons in Hh as [H1 H2]. rewrite header_read by done. rewrite IH by done. cbn [fst snd].
  by rewrite <- app_assoc.
Qed.

Lemma words_visible s rest w : visible s -> s <> [] -> words (s ++ 32 :: rest) w = (w ++ s) :: words rest [].
Proof.
  revert w. induction s as [|c s IH]; intros w Hs Hne; [done|]. inversion Hs as [|? ? Hc Hs']. subst.
  cbn [app words]. rewrite Hc. destruct s as [|d s].
  - cbn [app words]. change (is_whitespace 32) with true. cbv iota.
    rewrite bool_decide_false by (by destruct w). done.
  - rewrite IH by done. by rewrite <- app_assoc.
Qed.

Lemma start_words m t : visible m -> m <> [] -> visible t -> t <> [] ->
  split_whitespace (m ++ [32] ++ t ++ ascii_bytes " HTTP/1.1") = [m; t; ascii_bytes "HTTP/1.1"].
Proof.
  intros. unfold split_whitespace. change (m ++ [32] ++ ?x) with (m ++ 32 :: x).
  rewrite words_visible by done. change (ascii_bytes " HTTP/1.1") with (32 :: ascii_bytes "HTTP/1.1").
  by rewrite words_visible by done.
Qed.

Lemma visible_no c s : visible s -> is_whitespace c = true -> c ∉ s.
Proof. intros Hs Hc Hi. apply (proj1 (Forall_forall _ _) Hs) in Hi. congruence. Qed.

Lemma joined_ascii l ls : ascii l -> Forall ascii ls -> ascii (joined l ls).
Proof.
  revert l. induction ls as [|l' ls IH]; intros l Hl Hls; cbn [joined]; [done|].
  apply Forall_cons in Hls as [H1 H2]. apply Forall_app. split; [done|]. repeat constructor; try lia.
  by apply IH.
Qed.

(** What a client prints is what the server reads: method, path, query, headers with
    their names in lower case, and the whole body, when the length announced is the
    body's. *)
Lemma request_read_back m t p q hs b : ascii (m ++ t) -> visible m -> m <> [] -> visible t -> t <> [] ->
  Request.split_query t = (p, q) -> Forall header_ok hs ->
  foldl announced 0 hs = Z.of_nat (length b) -> Z.of_nat (length (request_text m t hs b)) < 2 ^ 63 ->
  Request.parse (request_text m t hs b) =
  Ret (Ok (Some ({| method := Method.parse m; path := p; query := q; headers := map lowered hs; body := b |},
                 Z.of_nat (length (request_text m t hs b))))).
Proof.
  intros Ha Hm Hm0 Ht Ht0 Hq Hh Hcl Hlen. rewrite request_joined in Hlen |- *.
  set (start := m ++ [32] ++ t ++ ascii_bytes " HTTP/1.1") in *.
  assert (Hs13 : 13 ∉ start).
  { unfold start. rewrite !not_elem_of_app. split_and!; try by apply visible_no. all: by apply no_char. }
  assert (Hls : Forall line_ok (map field hs)).
  { apply Forall_fmap, (Forall_impl _ _ _ Hh). intros h (_ & Hn & _). split; [|unfold field; cbn; by destruct h.1].
    unfold field, compose. rewrite not_elem_of_app in Hn. rewrite !not_elem_of_app. split_and!; [apply Hn| |apply Hn].
    by apply no_char. }
  assert (Hasc : ascii (joined start (map field hs))).
  { apply Forall_app in Ha as [Ha1 Ha2]. apply joined_ascii.
    - unfold start. apply Forall_app; split; [done|]. constructor; [lia|]. apply Forall_app; split; [done|].
      repeat constructor; lia.
    - apply Forall_fmap, (Forall_impl _ _ _ Hh). intros h (Hx & _). apply Forall_app in Hx as [Hx1 Hx2].
      unfold field, compose. apply Forall_app; split; [done|]. cbn. by do 2 (constructor; [lia|]). }
  unfold Request.parse. rewrite find_blank by done.
  set (hd := joined start (map field hs)) in *. replace (length hd + 4 - 4)%nat with (length hd) by lia.
  rewrite take_app_length, from_utf8_ascii by done. unfold Request.parse_head, hd. rewrite split_joined by done.
  unfold start at 1. rewrite start_words by done. rewrite headers_read by done. cbn [fst snd app]. rewrite Hq, Hcl.
  fold hd. rewrite !length_app in Hlen |- *. cbn [length CRLF] in Hlen |- *. cbv zeta. unfold wadd.
  rewrite wrap_id by (unfold uint; lia).
  rewrite (proj2 (Z.ltb_ge _ _)), (proj2 (Z.ltb_ge _ _)) by lia.
  replace (Z.to_nat _ - (length hd + 4))%nat with (length b) by lia.
  rewrite drop_app_ge by lia. replace (length hd + 4 - length hd)%nat with 4%nat by lia. cbn [app drop].
  rewrite firstn_all. do 3 f_equal. f_equal. lia.
Qed.

End ReadBack.

(** ** A printed response is read back *)

Abbreviation chars s := (Forall (fun c => is_char c = true) s).

Lemma ascii_chars s : ascii s -> chars s.
Proof. intros H. apply (Forall_impl _ _ _ H). intros c Hc. unfold is_char. zbool. lia. Qed.

Lemma lossy_utf8 s : chars s -> from_utf8_lossy (utf8 s) = s.
Proof. intros Hs. by apply lossy_valid, utf8_decode. Qed.

Lemma first_line_joined l ls : l <> [] -> 10 ∉ l -> 13 ∉ l -> Console.first_line (joined l ls) = Some l.
Proof.
  intros Hl H10 H13. destruct ls as [|l' ls]; cbn [joined].
  - unfold Console.first_line, split_once. rewrite find_at_none by done. destruct l; [done|]. cbn [fmap option_fmap option_map].
    done.
  - assert (E : split_once [10] (l ++ CRLF ++ joined l' ls) = Some (l ++ [13], joined l' ls)).
    { unfold split_once, CRLF. change (l ++ [13; 10] ++ joined l' ls) with (l ++ [13] ++ 10 :: joined l' ls).
      rewrite (app_assoc l [13]), find_at_one by (rewrite not_elem_of_app, list_elem_of_singleton; split; [done|lia]).
      cbn [fmap option_fmap option_map length]. rewrite take_app_length. do 2 f_equal.
      rewrite drop_app_ge by lia. by replace (_ + 1 - _)%nat with 1%nat by lia. }
    unfold Console.first_line. destruct (l ++ CRLF ++ joined l' ls) eqn:El; [by destruct l|]. rewrite E, last_snoc.
    by rewrite removelast_last.
Qed.

Ltac text_ascii :=
  repeat (apply Forall_app; split); try done; try (by apply digits_ascii); try (repeat constructor; lia).
Ltac text_lacks :=
  rewrite ?not_elem_of_app; split_and?; try done; try (by apply digits_no); try (by apply no_char).

(** the lines of a response's head *)
Definition status_line (code : Z) : list Z :=
  ascii_bytes "HTTP/1.1 " ++ dec code ++ 32 :: Response.status_text code.
Definition head_lines (ct : list Z) (n : Z) : list (list Z) :=
  [ascii_bytes "content-type: " ++ ct; ascii_bytes "content-length: " ++ dec n; ascii_bytes "connection: close"].

Lemma reason_plain code : ascii (Response.status_text code) /\ forall c, c < 32 -> c ∉ Response.status_text code.
Proof.
  unfold Response.status_text. assert (H : forall c t, c < 32 -> forallb (fun x => 32 <=? x) t = true -> c ∉ t).
  { intros c t Hc Ht Hi. rewrite forallb_forall in Ht. apply list_elem_of_In, Ht in Hi. zbool. lia. }
  repeat (case_match; [split; [repeat constructor; lia | intros c Hc; by apply H]|]).
  split; [repeat constructor; lia | intros c Hc; by apply H].
Qed.

Lemma status_line_plain code : 0 <= code ->
  ascii (status_line code) /\ 13 ∉ status_line code /\ 10 ∉ status_line code /\
  split_whitespace (status_line code) !! 1%nat = Some (dec code).
Proof.
  intros Hc. destruct (dec_spec code Hc) as (D1 & _ & D3), (reason_plain code) as [R1 R2]. unfold status_line.
  change (dec code ++ 32 :: Response.status_text code) with (dec code ++ [32] ++ Response.status_text code).
  split; [text_ascii|]. split; [text_lacks; by apply R2|]. split; [text_lacks; by apply R2|].
  unfold split_whitespace. change (ascii_bytes "HTTP/1.1 " ++ ?x) with (ascii_bytes "HTTP/1.1" ++ 32 :: x).
  change ([32] ++ ?x) with (32 :: x). rewrite words_visible; [|by repeat constructor|done].
  by rewrite words_visible by (done || by apply digits_visible).
Qed.

Lemma head_lines_plain ct n : 0 <= n -> ascii ct -> 13 ∉ ct ->
  Forall ascii (head_lines ct n) /\ Forall line_ok (head_lines ct n).
Proof.
  intros Hn Ha Hc. destruct (dec_spec n Hn) as (D1 & _). unfold head_lines. split.
  - repeat (apply Forall_cons; split); try done; text_ascii.
  - repeat (apply Forall_cons; split); try done; (split; [text_lacks|done]).
Qed.

Lemma response_text code ct s : 0 <= code -> ascii ct ->
  Response.to_bytes (Response.with_body code ct (utf8 s)) =
  utf8 (joined (status_line code) (head_lines ct (Z.of_nat (length (utf8 s)))) ++ CRLF ++ CRLF ++ s).
Proof.
  intros Hc Ha. unfold Response.to_bytes, Response.with_body, Response.header_bytes.
  cbn [status resp_headers resp_body map concat fst snd joined head_lines]. unfold status_line.
  change (32 :: Response.status_text code) with ([32] ++ Response.status_text code).
  rewrite !utf8_app. change (utf8 CRLF) with CRLF.
  change (utf8 (ascii_bytes "connection: close")) with (ascii_bytes "connection: close").
  change (utf8 (ascii_bytes "content-type: ")) with (utf8 (ascii_bytes "content-type") ++ utf8 (ascii_bytes ": ")).
  change (utf8 (ascii_bytes "content-length: ")) with (utf8 (ascii_bytes "content-length") ++ utf8 (ascii_bytes ": ")).
  by rewrite app_nil_r, <- !app_assoc.
Qed.

(** Status and body of a response the server printed: the whole text, whatever
    characters it has. *)
Lemma response_read_back code ct s : 0 <= code < 2 ^ 16 -> ascii ct -> 13 ∉ ct -> chars s ->
  Console.response (Response.to_bytes (Response.with_body code ct (utf8 s))) = (code, s).
Proof.
  intros Hc Ha Hn Hs. rewrite response_text by (done || lia). set (n := Z.of_nat (length (utf8 s))).
  destruct (status_line_plain code ltac:(lia)) as (S1 & S2 & S3 & S4).
  destruct (head_lines_plain ct n ltac:(lia) Ha Hn) as [L1 L2].
  assert (Hne : status_line code <> []) by done.
  pose proof (joined_ascii _ _ S1 L1) as Hj. unfold Console.response. rewrite lossy_utf8.
  2: { apply Forall_app; split; [by apply ascii_chars|]. do 4 (constructor; [done|]). done. }
  unfold split_once. rewrite find_blank by done. cbn [fmap option_fmap option_map].
  rewrite take_app_length, drop_app_ge by lia.
  replace (_ + length (CRLF ++ CRLF) - _)%nat with 4%nat by (cbn [length app CRLF]; lia). cbn [app CRLF drop].
  rewrite first_line_joined by done. cbn [mbind option_bind]. rewrite S4. cbn [mbind option_bind].
  by rewrite parse_uint_dec by lia.
Qed.

(** the text of a value is made of characters *)
Lemma write_json_string_chars s : chars s -> chars (Json.write_json_string s).
Proof.
  intros Hs. unfold Json.write_json_string. constructor; [done|]. apply Forall_app; split; [|by constructor].
  induction Hs as [|c s Hc Hs IH]; [constructor|]. cbn [map concat]. apply Forall_app; split; [|done].
  unfold Json.write_char. repeat (case_match; [by repeat constructor|]). case_match; [|by constructor].
  unfold is_char in Hc. zbool. apply ascii_chars. unfold hex_digit.
  pose proof (Z.mod_pos_bound c 16 ltac:(lia)). pose proof (Z.div_pos c 16 ltac:(lia) ltac:(lia)).
  pose proof (Z.div_lt_upper_bound c 16 2 ltac:(lia) ltac:(lia)).
  repeat (apply Forall_cons; split); try constructor; try lia; case_match; lia.
Qed.

Lemma commas_chars ls : Forall (fun l => chars l) ls -> chars (Json.commas ls).
Proof.
  intros H. unfold Json.commas. destruct H as [|l ls Hl H]; [constructor|]. apply Forall_app; split; [done|].
  induction H as [|l' ls Hl' H IH]; [constructor|]. cbn [map concat app]. constructor; [done|]. by apply Forall_app.
Qed.

Lemma write_chars v : Json.finite v -> chars (Json.write v).
Proof.
  induction v as [|b|n|s|items IH|fields IH]; intros Hf; cbn [Json.write].
  - by repeat constructor.
  - by destruct b; repeat constructor.
  - destruct Hf as [H1 H2]. destruct (Json.write_num_text n H1 H2) as (s & t & ip & fp & dot & -> & Ht & _).
    by eapply ascii_chars, Json.neg_sign_ascii.
  - by apply write_json_string_chars.
  - apply Forall_app; split; [by constructor|]. apply Forall_app; split; [|by constructor]. apply commas_chars, Forall_fmap.
    apply Json.foldr_and in Hf. induction IH as [|v vs Hv _ IHl]; [constructor|].
    apply Forall_cons in Hf as [H1 H2]. constructor; [by apply Hv | by apply IHl].
  - apply Forall_app; split; [by constructor|]. apply Forall_app; split; [|by constructor]. apply commas_chars, Forall_fmap.
    apply (Json.foldr_and (fun f => chars f.1 /\ Json.finite f.2)) in Hf.
    induction IH as [|[k v] vs Hv _ IHl]; [constructor|]. apply Forall_cons in Hf as [[H1 H2] H3].
    constructor; [|by apply IHl]. unfold compose. apply Forall_app; split; [by apply write_json_string_chars|].
    constructor; [done|]. by apply Hv.
Qed.

(** ** The console's request, as the server reads it *)

Definition console_headers (host : list Z) (auth : option (list Z)) (n : Z) : list (list Z * list Z) :=
  [(ascii_bytes "Host", host); (ascii_bytes "Content-Type", ascii_bytes "application/json");
   (ascii_bytes "Content-Length", dec n)] ++
  match auth with Some h => [(ascii_bytes "Authorization", ascii_bytes "TPT-Attestation " ++ h)] | None => [] end ++
  [(ascii_bytes "Connection", ascii_bytes "close")].

Definition console_request (host : list Z) (auth : option (list Z)) (body : list Z) : Request :=
  {| method := Post; path := ascii_bytes "/mcp"; query := [];
     headers := map lowered (console_headers host auth (Z.of_nat (length body))); body := body |}.

(** a value that may stand behind a header's name *)
Definition value_ok (v : list Z) : Prop := ascii v /\ visible v.

Lemma header_value_ok name v : ascii name -> visible name -> 58 ∉ name -> value_ok v -> header_ok (name, v).
Proof.
  intros H1 H2 H3 [H4 H5]. unfold header_ok. cbn [fst snd]. split_and!; try done.
  - by apply Forall_app.
  - rewrite not_elem_of_app. split; by apply visible_no.
  - by apply trim_space.
Qed.

Lemma trim_parts c a d b : is_whitespace c = false -> visible b -> is_whitespace d = false -> trim (32 :: c :: a ++ b ++ [d]) = c :: a ++ b ++ [d].
Proof. intros Hc _ Hd. unfold trim. cbn [trim_start]. rewrite app_assoc. exact (trim_visible (a ++ b) c d Hc Hd). Qed.

Lemma auth_value_ok h : value_ok h -> h <> [] -> header_ok (ascii_bytes "Authorization", ascii_bytes "TPT-Attestation " ++ h).
Proof.
  intros [Ha Hv] Hne. destruct (exists_last Hne) as (h' & d & ->). apply Forall_app in Hv as [Hv Hd].
  unfold header_ok. cbn [fst snd]. split_and!; try done.
  - apply Forall_app; split; [repeat constructor; lia|]. apply Forall_app; split; [repeat constructor; lia | done].
  - rewrite !not_elem_of_app. split_and!; try (by apply no_char); by apply visible_no; [|done]; try done.
  - by apply no_char.
  - by repeat constructor.
  - apply (trim_parts _ (ascii_bytes "PT-Attestation ")); [done|done|]. by inversion Hd.
Qed.

Definition auth_ok (auth : option (list Z)) : Prop :=
  match auth with Some h => value_ok h /\ h <> [] | None => True end.

Lemma console_headers_ok host auth n : value_ok host -> auth_ok auth -> 0 <= n ->
  Forall header_ok (console_headers host auth n).
Proof.
  intros Hh Ha Hn. unfold console_headers.
  assert (value_ok (dec n)) by (split; [by apply digits_ascii, dec_spec | by apply dec_visible]).
  assert (V : forall v, forallb (fun c => (33 <=? c) && (c <? 127)) v = true -> value_ok v).
  { intros v Hv. rewrite forallb_forall in Hv. split; apply Forall_forall; intros c Hc; apply list_elem_of_In, Hv in Hc; zbool;
      [lia|]. unfold is_whitespace. repeat (apply orb_false_iff; split); try apply andb_false_iff; lia. }
  assert (N : forall name v, forallb (fun c => (33 <=? c) && (c <? 127) && negb (c =? 58)) name = true -> value_ok v -> header_ok (name, v)).
  { intros name v Hm Hv. assert (value_ok name) as [? ?].
    { apply V. rewrite forallb_forall in Hm |- *. intros c Hc. apply Hm in Hc. by apply andb_true_iff in Hc as [-> _]. }
    apply header_value_ok; try done. intros Hi. rewrite forallb_forall in Hm. by apply list_elem_of_In, Hm in Hi. }
  repeat (apply Forall_cons; split); [by apply N | by apply N; [|by apply V] | by apply N |].
  apply Forall_app; split; [|by constructor; [apply N; [|apply V]|]].
  destruct auth as [h|]; [|done]. constructor; [|done]. apply auth_value_ok; apply Ha.
Qed.

(** the bytes on the wire are those of a printed request *)
Lemma request_bytes host auth body : ascii host -> match auth with Some h => ascii h | None => True end ->
  utf8 (Console.request host auth body) =
  request_text (ascii_bytes "POST") (ascii_bytes "/mcp") (console_headers host auth (Z.of_nat (length (utf8 body)))) (utf8 body).
Proof.
  intros Hh Ha. set (n := Z.of_nat (length (utf8 body))). assert (Hd : ascii (dec n)) by (apply digits_ascii, dec_spec; lia).
  unfold Console.request, request_text, console_headers. fold n. rewrite !utf8_app.
  rewrite (utf8_ascii host), (utf8_ascii (dec n)) by done.
  destruct auth as [h|].
  - rewrite !utf8_app, (utf8_ascii h) by done. cbn [map concat app fst snd]. rewrite <- !app_assoc. reflexivity.
  - cbn [map concat app fst snd]. rewrite <- !app_assoc. reflexivity.
Qed.

Lemma length_read_back host auth n : 0 <= n < 2 ^ 64 -> foldl announced 0 (console_headers host auth n) = n.
Proof.
  intros Hn. unfold console_headers. cbn [app foldl]. unfold announced at 1 2 3.
  rewrite foldl_app. cbn [fst snd].
  assert (E : default 0 (parse_uint 64 (dec n)) = n) by (rewrite parse_uint_dec by done; done).
  destruct auth as [h|]; cbn [foldl]; unfold announced; cbn [fst snd];
    repeat (rewrite decide_False by done); rewrite ?(decide_True (P := to_ascii_lowercase (ascii_bytes "Content-Length") = ascii_bytes "content-length")) by done; exact E.
Qed.

Lemma request_served `{UC : !Unicode} host auth body : value_ok host -> auth_ok auth ->
  Z.of_nat (length (utf8 (Console.request host auth body))) < 2 ^ 63 ->
  Request.parse (utf8 (Console.request host auth body)) =
  Ret (Ok (Some (console_request host auth (utf8 body), Z.of_nat (length (utf8 (Console.request host auth body)))))).
Proof.
  intros Hh Ha Hl. destruct Hh as [Hh1 Hh2]. assert (Ha1 : match auth with Some h => ascii h | None => True end)
    by (destruct auth; [apply Ha | done]). rewrite request_bytes in Hl |- * by done.
  apply request_read_back; try done.
  - repeat constructor; lia.
  - by repeat constructor.
  - by repeat constructor.
  - apply console_headers_ok; [done|done|lia].
  - apply length_read_back. unfold request_text in Hl. rewrite !length_app in Hl. lia.
Qed.

(** *** Every line is answered *)

Section Total.
Context {W St : Type} `{OS : !ConsoleOs W St} `{TM : !Terminal W} `{SD : !StrDebug}.
Hypothesis streams : streams_open W.

Lemma show_returns (w : W) v : exists w', Console.show w v = Ret w'.
Proof. unfold Console.show. repeat case_match; printing streams; by eexists. Qed.

Lemma dispatch_returns (w : W) host auth id tool args : exists w',
  Console.dispatch w host auth id tool args = Ret (w', wadd 64 id 1).
Proof.
  unfold Console.dispatch. destruct (Console.send_request w host auth _) as [w1 [[st b]|e]]; [|printing streams; eauto].
  destruct (Json.parse_returns (3 * length (utf8 b) + 1)) as [H _].
  destruct (H (utf8 b) ltac:(lia)) as (r & E & _). unfold Json.parse. rewrite E. cbn [mbind exec_bind].
  destruct r as [[v r]|e]; [|cbn [mbind exec_bind]; printing streams; eauto].
  destruct (Json.skip_ws r); cbn [mbind exec_bind].
  - destruct (show_returns w1 v) as [w2 ->]. rewrite ret_bind. eauto.
  - printing streams. eauto.
Qed.

Lemma trim_start_suffix s : exists p, s = p ++ trim_start s.
Proof.
  induction s as [|c s [p IH]]; [by exists []|]. cbn [trim_start]. destruct (is_whitespace c); [|by exists []].
  exists (c :: p). by rewrite IH at 1.
Qed.

Lemma trim_start_head s : match trim_start s with [] => True | c :: _ => is_whitespace c = false end.
Proof. induction s as [|c s IH]; [done|]. cbn [trim_start]. by destruct (is_whitespace c) eqn:E. Qed.

Lemma words_nonempty s : forall w, w <> [] -> words s w <> [].
Proof.
  induction s as [|c s IH]; intros w Hw; cbn [words]; [by rewrite bool_decide_false|].
  destruct (is_whitespace c); [by rewrite bool_decide_false | apply IH; by destruct w].
Qed.

Lemma trim_words s : trim s <> [] -> split_whitespace (trim s) <> [].
Proof.
  unfold trim. pose proof (trim_start_head s) as Hh. destruct (trim_start_suffix (reverse (trim_start s))) as [p E].
  destruct (reverse (trim_start (reverse (trim_start s)))) as [|c t] eqn:Er; [done|]. intros _.
  apply (f_equal reverse) in E. rewrite reverse_involutive, reverse_app, Er in E. rewrite E in Hh. cbn [app] in Hh.
  unfold split_whitespace. cbn [words]. rewrite Hh. by apply words_nonempty.
Qed.

(** no line, typed or piped in, brings the console down *)
Lemma command_returns (w : W) host auth id line : trim line <> [] ->
  exists w' o, Console.command w host auth id (trim line) = Ret (w', o).
Proof.
  intros Hl. apply trim_words in Hl. unfold Console.command.
  destruct (split_whitespace (trim line)) as [|word rest]; [done|].
  assert (D : forall tool args, exists w' o,
    ('(w, n) ← Console.dispatch w host auth id tool args; Ret (w, Some n)) = Ret (w', o)).
  { intros tool args. destruct (dispatch_returns w host auth id tool args) as [w' ->]. cbn. eauto. }
  assert (U : forall tool unit, exists w' o,
    ('(w, n) ← Console.call_unit_tool w host auth id tool unit; Ret (w, Some n)) = Ret (w', o)).
  { intros tool unit. unfold Console.call_unit_tool. destruct (parse_uint 64 unit); [apply D|].
    unfold Console.bad_unit. printing streams. eauto. }
  unfold Console.bad_unit. rewrite !(println_open _ _ streams), !(eprintln_open _ _ streams), !ret_bind.
  repeat (case_decide; [repeat case_match; eauto|]). eauto.
Qed.

Lemma repl_returns host auth lines : forall (w : W) id, exists w' code,
  Console.repl w host auth id lines = Ret (w', code) /\ (code = 0 \/ code = 1).
Proof.
  induction lines as [|line lines IH]; intros w id; cbn [Console.repl]; rewrite (print_open _ _ streams), ret_bind;
    destruct (stdout_flush (stdout_write w (ascii_bytes "> ")).1) as [w1 [|]]; cbn [negb]; eauto.
  - printing streams. eauto.
  - destruct (trim line) as [|c t] eqn:E; [apply IH|]. rewrite <- E.
    destruct (command_returns w1 host auth id line) as (w2 & o & ->); [by rewrite E|]. cbn [mbind exec_bind].
    destruct o; [apply IH | eauto].
Qed.

Lemma options_return : forall args (w : W) host auth, exists w' o, Console.options w args host auth = Ret (w', o).
Proof.
  fix IH 1. intros [|a args] w host auth; cbn [Console.options]; [by do 2 eexists|]. cbv zeta.
  destruct (decide (a = ascii_bytes "--host")).
  { destruct args as [|h args]; [printing streams; by do 2 eexists | apply IH]. }
  destruct (decide (a = ascii_bytes "--attestation")); [|printing streams; by do 2 eexists].
  destruct args as [|p args]; [printing streams; by do 2 eexists|].
  destruct (read_to_string w p) as [w1 [hex|err]]; [apply IH | printing streams; by do 2 eexists].
Qed.

(** As long as the standard streams can be written, the console ends on every input,
    with code 0 or 1, and never by a panic: whatever the arguments, the lines, the
    network and the server's answers are. *)
Theorem console_ends (w : W) args lines :
  exists w' code, Console.run w args lines = Ret (w', code) /\ (code = 0 \/ code = 1).
Proof.
  unfold Console.run. destruct (options_return args w (ascii_bytes "127.0.0.1:8080") None) as (w1 & o & ->).
  rewrite ret_bind. destruct o as [[host auth]|]; [|eauto].
  rewrite (println_open _ _ streams), ret_bind, (println_open _ _ streams), ret_bind. apply repl_returns.
Qed.

End Total.
