(* ===== verification/ConsoleFleet.v ===== *)
(** * The console joined to the server

    [tpt-t-cli/src/console.rs] on one end of the connection, the request handling
    of [tpt-t-cloud/src/server.rs] on the other: the site holds the server, the
    machine it runs on, the bytes on the wire, what becomes of the connections to
    come, and the operator's screen.  What an operator types is compared with the fleet
    operation it stands for, whether the connection holds or fails. *)

From stdpp Require Import gmap strings.
From S2P Require Import Prelude Text Float FloatText Ring Mode Mux Service Cipher Trust Json Sfu Recorder Fleet Http Gate Mcp Server CoreProfile Terminal Console.

Section Site.
Context {W F T Q : Type} `{OS : !CloudOs W F} `{TR : !UnitTransport T W} `{BF : !BoundedFifo Q MediaFrame}.
Context `{ED : !Ed25519} `{XD : !X25519} `{HK : !HkdfSha256}.
Context {Aes Cha : Type} `{AA : !AeadInPlace Aes} `{AC : !AeadInPlace Cha}.
Context {E : Type} `{GR : !Getrandom E}.
Context {St : Type} `{UC : !Unicode} `{SD : !StrDebug}.
Abbreviation server := (Server.FleetServer (F := F) (T := T) (Aes := Aes) (Cha := Cha) St).

(** What becomes of a connection: it is not made; it fails while the request is
    written, of which the server handles nothing; the server handles the request, and
    the answer is lost; or it holds. *)
Inductive Fate :=
| Refused (e : list Z)
| Broken (e : list Z)
| AnswerLost (e : list Z)
| Holds.

(** [screen]: the newest text first, with the stream it went to; [tty]: the streams
    can be written; [fates]: of the connections to come, the first one first, and the
    rest hold *)
Inductive stream := Out | Error.
Record Site := {
  srv : server; world : W; entropy : E; heap : Sfu.Heap Q; wire : list Z; screen : list (stream * list Z);
  tty : bool; fates : list Fate
}.
Definition fate (x : Site) : Fate := default Holds (head (fates x)).

(** the server's end of one connection *)
Definition serve (x : Site) : exec (Site * list Z) :=
  r ← Request.parse (wire x);
  match r with
  | Ok (Some (req, _)) =>
      '(s, w, e, resp) ← Server.handle_request (srv x) (world x) (entropy x) (heap x) req;
      Ret ({| srv := s; world := w; entropy := e; heap := heap x; wire := []; screen := screen x;
             tty := tty x; fates := fates x |},
           Response.to_bytes resp)
  | _ => Ret (x, [])
  end.

Definition put (x : Site) (to : stream) (s : list Z) : Site :=
  {| srv := srv x; world := world x; entropy := entropy x; heap := heap x; wire := wire x; screen := (to, s) :: screen x;
     tty := tty x; fates := fates x |}.
Definition send (x : Site) (bs : list Z) : Site :=
  {| srv := srv x; world := world x; entropy := entropy x; heap := heap x; wire := bs; screen := screen x;
     tty := tty x; fates := fates x |}.
(** the connection is over *)
Definition hang_up (x : Site) : Site :=
  {| srv := srv x; world := world x; entropy := entropy x; heap := heap x; wire := []; screen := screen x;
     tty := tty x; fates := tail (fates x) |}.
Definition commit (x : Site) (s : server) (w : W) (e : E) : Site :=
  {| srv := s; world := w; entropy := e; heap := heap x; wire := []; screen := screen x;
     tty := tty x; fates := fates x |}.

#[export] Instance site_os : ConsoleOs Site unit := {
  tcp_connect x _ := match fate x with Refused e => (hang_up x, Err e) | _ => (send x [], Ok tt) end;
  client_write_all x _ bs := match fate x with Broken e => (hang_up x, Err e) | _ => (send x (wire x ++ bs), Ok tt) end;
  client_flush x _ := (x, Ok tt);
  client_read_to_end x _ :=
    match serve x with
    | Ret (x, bs) => (hang_up x, match fate x with AnswerLost e => Err e | _ => Ok bs end)
    | _ => (hang_up x, Err (ascii_bytes "connection reset by peer"))
    end;
  read_to_string x _ := (x, Err (ascii_bytes "no such file"));
  stdout_flush x := (x, true)
}.
#[export] Instance site_terminal : Terminal Site := {
  stdout_write x s := (put x Out s, tty x);
  stderr_write x s := (put x Error s, tty x)
}.
(** a text put on the screen by one of the macros *)
Definition display (x : Site) (to : stream) (s : list Z) : exec Site := stream_ok (put x to s, tty x).

Implicit Types (x : Site).

(** *** One call *)

Definition body_of (id : Z) (tool : string) (args : Json) : list Z := Json.write (Console.call_body id tool args).

(** what a client is told of a connection that did not hold *)
Definition lost (x : Site) : option (list Z) :=
  match fate x with Refused e | Broken e | AnswerLost e => Some e | Holds => None end.
(** the request reaches the server *)
Definition reaches (x : Site) : bool := match fate x with AnswerLost _ | Holds => true | _ => false end.

Lemma send_served x host auth body s w e r : value_ok host -> auth_ok auth ->
  Z.of_nat (length (utf8 (Console.request host auth body))) < 2 ^ 63 -> Json.finite r ->
  Server.handle_request (srv x) (world x) (entropy x) (heap x) (console_request host auth (utf8 body)) =
    Ret (s, w, e, Response.json 200 r) ->
  Console.send_request x host auth body =
    (hang_up (if reaches x then commit x s w e else x),
     match lost x with Some err => Err err | None => Ok (200, Json.write r) end).
Proof.
  intros Hh Ha Hl Hr Hs. unfold Console.send_request, reaches, lost.
  cbn [tcp_connect client_write_all client_flush client_read_to_end site_os].
  destruct (fate x) as [err|err|err|] eqn:Ef; [done|..]; change (fate (send x [])) with (fate x); rewrite Ef; [done|..];
    unfold serve; cbn [wire send srv world entropy heap screen app tty fates];
    rewrite request_served by done; rewrite ret_bind, Hs, ret_bind; unfold Response.json;
    match goal with |- context [fate ?y] => change (fate y) with (fate x) end; rewrite Ef; [done|].
  rewrite response_read_back; [done | lia | repeat constructor; lia | by apply no_char | by apply write_chars].
Qed.

Definition fail_line (host err : list Z) : list Z := (ascii_bytes "error: request to " ++ host ++ ascii_bytes " failed: " ++ err) ++ [10].

Lemma dispatch_served x host auth id tool args s w e r : value_ok host -> auth_ok auth ->
  Z.of_nat (length (utf8 (Console.request host auth (body_of id tool args)))) < 2 ^ 63 -> Json.finite r ->
  Server.handle_request (srv x) (world x) (entropy x) (heap x) (console_request host auth (utf8 (body_of id tool args))) =
    Ret (s, w, e, Response.json 200 r) ->
  Console.dispatch x host auth id tool args =
    (y ← (let x' := hang_up (if reaches x then commit x s w e else x) in
          match lost x with
          | Some err => display x' Error (fail_line host err)
          | None => Console.show x' (Json.reread r)
          end);
     Ret (y, wadd 64 id 1)).
Proof.
  intros Hh Ha Hl Hr Hs. unfold Console.dispatch. fold (body_of id tool args).
  rewrite (send_served x host auth (body_of id tool args) s w e r Hh Ha Hl Hr Hs). cbv zeta.
  destruct (lost x); [done|]. change (utf8 (Json.write r)) with (Json.text r). by rewrite Json.parse_text, ret_bind.
Qed.

(** *** The request reaches the tool *)

Definition tools : list string := ["list_units"; "assign_unit"; "engage_autonomy"; "take_manual_control"]%string.

Lemma tool_ascii tool : tool ∈ tools -> ascii (ascii_bytes tool).
Proof. intros Ht. apply list_elem_of_In in Ht. repeat destruct Ht as [<-|Ht]; try done; repeat constructor; lia. Qed.

Lemma body_parsed id tool args : tool ∈ tools -> 0 <= id < 2 ^ 53 -> Json.finite args ->
  Json.parse (utf8 (body_of id tool args)) =
  Ret (Ok (Json.reread (Console.call_body id tool args))).
Proof.
  intros Ht Hid Ha. apply (Json.parse_text (Console.call_body id tool args)).
  pose proof (proj1 (Json.uint_survives id Hid)) as Hu. pose proof (ascii_chars _ (tool_ascii tool Ht)) as Hc.
  cbn [Console.call_body Json.obj Json.str Json.finite foldr fst snd Json.uint] in Hu |- *. destruct Hu.
  repeat match goal with |- _ /\ _ => split end; try done; repeat constructor.
Qed.

Lemma handle_call id tool args (f : Fleet.Fleet F T) w (h : Sfu.Heap Q) auth : tool ∈ tools ->
  Mcp.handle (Json.reread (Console.call_body id tool args)) f w h auth =
  Mcp.call_tool (ascii_bytes tool) (Json.reread args) f w h (Json.reread (Json.uint id)) auth.
Proof.
  intros Ht. pose proof (utf8_ascii _ (tool_ascii tool Ht)) as Hu. unfold Mcp.handle, Console.call_body.
  cbn [Json.reread Json.obj Json.str map]. rewrite Hu.
  change (utf8 (ascii_bytes "jsonrpc")) with (ascii_bytes "jsonrpc"). change (utf8 (ascii_bytes "id")) with (ascii_bytes "id").
  change (utf8 (ascii_bytes "method")) with (ascii_bytes "method"). change (utf8 (ascii_bytes "params")) with (ascii_bytes "params").
  change (utf8 (ascii_bytes "name")) with (ascii_bytes "name"). change (utf8 (ascii_bytes "arguments")) with (ascii_bytes "arguments").
  change (utf8 (ascii_bytes "tools/call")) with (ascii_bytes "tools/call").
  reflexivity.
Qed.

Lemma console_routed x host auth b :
  Server.handle_request (srv x) (world x) (entropy x) (heap x) (console_request host auth b) =
  Server.mcp_response (srv x) (world x) (entropy x) (heap x) (console_request host auth b).
Proof. reflexivity. Qed.

(** without a gate the call is the tool's *)
Lemma call_served x host id tool args f w r : Server.authz (srv x) = None -> tool ∈ tools -> value_ok host ->
  0 <= id < 2 ^ 53 -> Json.finite args -> Json.finite r ->
  Z.of_nat (length (utf8 (Console.request host None (body_of id tool args)))) < 2 ^ 63 ->
  Mcp.call_tool (ascii_bytes tool) (Json.reread args) (Server.fleet (srv x)) (world x) (heap x)
    (Json.reread (Json.uint id)) None = Ret (f, w, r) ->
  Console.dispatch x host None id tool args =
    (y ← (let x' := hang_up (if reaches x then commit x (Server.set_fleet (srv x) f) w (entropy x) else x) in
          match lost x with
          | Some err => display x' Error (fail_line host err)
          | None => Console.show x' (Json.reread r)
          end);
     Ret (y, wadd 64 id 1)).
Proof.
  intros Hz Ht Hh Hid Ha Hr Hl Hc. apply dispatch_served; try done. rewrite console_routed.
  unfold Server.mcp_response. cbn [body console_request]. rewrite body_parsed by done. rewrite ret_bind, Hz, ret_bind.
  by rewrite handle_call, Hc, ret_bind by done.
Qed.

(** *** Typing [auto] and [manual] *)

Definition word (engage : bool) : string := if engage then "auto" else "manual".
Definition tool_of (engage : bool) : string := if engage then "engage_autonomy" else "take_manual_control".
Definition operation (engage : bool) (f : Fleet.Fleet F T) (w : W) (uid : Z) :=
  if engage then Fleet.engage_autonomy f w uid else Fleet.take_manual_control f w uid.

Definition typed_line (engage : bool) (uid : Z) : list Z := ascii_bytes (word engage) ++ 32 :: dec uid.
Definition unit_args (uid : Z) : Json := Json.obj [(ascii_bytes "unit_id", Json.uint uid)].

(** what the operator reads *)
Definition report (engage : bool) (uid : Z) (res : result unit CloudError) : stream * list Z :=
  match res with
  | Ok _ => (Out, Json.write (Json.obj [(ascii_bytes "unit_id", Json.uint uid);
      (ascii_bytes "tool", Json.str (ascii_bytes (tool_of engage))); (ascii_bytes "ok", Bool true)]) ++ [10])
  | Err e => (Error, ascii_bytes "error: " ++ Json.write (Json.obj [(ascii_bytes "code", Num (f64_of_Z (-32000)));
      (ascii_bytes "message", Json.str (utf8 (CloudError_fmt e)))]) ++ [10])
  end.

Definition answer (engage : bool) (uid id : Z) (res : result unit CloudError) : Json :=
  match res with
  | Ok _ => Mcp.json_rpc_ok (Json.reread (Json.uint id)) (Json.obj [(ascii_bytes "unit_id", Json.uint uid);
      (ascii_bytes "tool", Json.str (ascii_bytes (tool_of engage))); (ascii_bytes "ok", Bool true)])
  | Err e => Mcp.json_rpc_err (Json.reread (Json.uint id)) (-32000) (CloudError_fmt e)
  end.

Lemma words_end s w : visible s -> s <> [] -> words s w = [w ++ s].
Proof.
  revert w. induction s as [|c s IH]; intros w Hs Hne; [done|]. inversion Hs as [|? ? Hc Hs']. subst.
  cbn [words]. rewrite Hc. destruct s as [|d s]; [cbn [words]; by rewrite bool_decide_false by (by destruct w)|].
  rewrite IH by done. by rewrite <- app_assoc.
Qed.

Lemma typed_words engage uid : 0 <= uid -> split_whitespace (typed_line engage uid) = [ascii_bytes (word engage); dec uid].
Proof.
  intros Hu. unfold split_whitespace, typed_line. rewrite words_visible by (destruct engage; first [done | repeat constructor]).
  rewrite words_end by (by apply dec_visible || apply dec_spec). done.
Qed.

Lemma command_tool x host auth id engage uid : 0 <= uid < 2 ^ 64 ->
  Console.command x host auth id (typed_line engage uid) =
  ('(x, n) ← Console.dispatch x host auth id (tool_of engage) (unit_args uid); Ret (x, Some n)).
Proof.
  intros Hu. unfold Console.command. rewrite typed_words by lia.
  destruct engage; cbn [word tool_of];
    repeat (rewrite decide_False by (intros Hx; repeat destruct Hx as [Hx|Hx]; discriminate Hx));
    rewrite decide_True by done; unfold Console.call_unit_tool; by rewrite parse_uint_dec by done.
Qed.

Lemma tool_called engage f w (h : Sfu.Heap Q) uid id f' w' res : 0 <= uid < 2 ^ 53 ->
  operation engage f w uid = Ret (f', w', res) ->
  Mcp.call_tool (ascii_bytes (tool_of engage)) (Json.reread (unit_args uid)) f w h (Json.reread (Json.uint id)) None =
  Ret (f', w', answer engage uid id res).
Proof.
  intros Hu Ho. unfold Mcp.call_tool.
  repeat rewrite decide_False by (by destruct engage). rewrite decide_True by (destruct engage; cbn; set_solver).
  unfold Mcp.mode_tool, unit_args. cbn [Json.reread Json.obj map]. change (utf8 (ascii_bytes "unit_id")) with (ascii_bytes "unit_id").
  cbn [Json.get List.find fst snd]. rewrite bool_decide_true by done. cbn [fmap option_fmap option_map mbind option_bind snd].
  rewrite (proj2 (Json.uint_survives uid Hu)).
  assert (Hb : bool_decide (ascii_bytes (tool_of engage) = ascii_bytes "engage_autonomy") = engage) by by destruct engage.
  rewrite Hb. unfold operation in Ho. rewrite Ho, ret_bind. by destruct res, engage.
Qed.

Lemma reread_uint n : 0 <= n < 2 ^ 53 -> Json.finite (Json.reread (Json.uint n)) /\ Json.reread (Json.reread (Json.uint n)) = Json.reread (Json.uint n).
Proof.
  intros Hn. destruct (Json.uint_survives n Hn) as [Hf _]. unfold Json.uint in *. cbn [Json.reread Json.finite] in *.
  by destruct (f64_of_Z n).
Qed.

Definition legal (res : result unit CloudError) : Prop :=
  match res with Ok _ => True | Err e => chars (CloudError_fmt e) end.

Lemma answer_finite engage uid id res : 0 <= uid < 2 ^ 53 -> 0 <= id < 2 ^ 53 -> legal res ->
  Json.finite (answer engage uid id res).
Proof.
  intros Hu Hi Hl. destruct (reread_uint id Hi) as [Hid _]. destruct (Json.uint_survives uid Hu) as [Huid _].
  assert (Hn : Json.finite (Num (f64_of_Z (-32000)))) by (vm_compute; by split).
  destruct res as [[]|e]; cbn [answer Mcp.json_rpc_ok Mcp.json_rpc_err Json.obj Json.finite foldr fst snd Json.str].
  - destruct engage; split_and!; first [done | exact Hid | exact Huid | by repeat constructor].
  - split_and!; first [done | exact Hid | apply Hn | by repeat constructor].
Qed.

Lemma uint_plain n : 0 <= n < 2 ^ 53 -> Json.reread (Json.uint n) = Json.uint n.
Proof.
  intros Hn. unfold Json.uint. cbn [Json.reread]. f_equal. destruct (decide (n = 0)) as [->|]; [by vm_compute|].
  destruct (f64_of_Z_small n ltac:(lia)) as (m & e & -> & _). done.
Qed.

Lemma shown x engage uid id res : 0 <= uid < 2 ^ 53 ->
  Console.show x (Json.reread (answer engage uid id res)) = display x (report engage uid res).1 (report engage uid res).2.
Proof.
  intros Hu. assert (Ht : utf8 (ascii_bytes (tool_of engage)) = ascii_bytes (tool_of engage)) by by destruct engage.
  destruct res as [[]|e].
  - unfold answer, Mcp.json_rpc_ok. cbn [Json.reread Json.obj Json.str map]. rewrite (uint_plain uid), Ht by done. reflexivity.
  - reflexivity.
Qed.

Lemma tool_of_tools engage : tool_of engage ∈ tools.
Proof. unfold tools. destruct engage; cbn; set_solver. Qed.

Lemma uid_ascii : ascii (ascii_bytes "unit_id").
Proof. repeat constructor; lia. Qed.

Lemma unit_args_finite uid : 0 <= uid < 2 ^ 53 -> Json.finite (unit_args uid).
Proof.
  intros Hu. destruct (Json.uint_survives uid Hu) as [Hf _]. unfold unit_args. apply (conj (conj (ascii_chars _ uid_ascii) Hf) I).
Qed.

(** C17: What the operator types is what the fleet does.  On a server without a gate,
    for a unit number and a call counter below [2^53] (from there on the number is sent
    rounded, [console_rounds_unit]), [auto <unit>] or [manual <unit>] typed into the
    console goes out as an HTTP request printed by the client and parsed by the server.
    If the connection holds, or fails only after the server has the request, the site
    changes exactly as the fleet operation on that unit does; if it fails before, nothing
    changes.  The operator is shown the operation's outcome as the server printed it,
    the result on standard output or the error on standard error, or, if the
    connection failed, that the request failed, even if the operation was done.  The call
    counter moves by one.  A stream that cannot be written brings the console down
    after the operation. *)
Theorem console_drives_fleet x host id uid (engage : bool) f w res :
  Server.authz (srv x) = None -> value_ok host -> 0 <= uid < 2 ^ 53 -> 0 <= id < 2 ^ 53 -> legal res ->
  Z.of_nat (length (utf8 (Console.request host None (body_of id (tool_of engage) (unit_args uid))))) < 2 ^ 63 ->
  operation engage (Server.fleet (srv x)) (world x) uid = Ret (f, w, res) ->
  Console.command x host None id (typed_line engage uid) =
    (let x' := hang_up (if reaches x then commit x (Server.set_fleet (srv x) f) w (entropy x) else x) in
     let '(to, text) := match lost x with
                        | Some err => (Error, fail_line host err)
                        | None => report engage uid res
                        end in
     y ← display x' to text; Ret (y, Some (id + 1))).
Proof.
  intros Hz Hh Hu Hid Hl Hlen Ho. rewrite command_tool by lia.
  rewrite (call_served x host id (tool_of engage) (unit_args uid) f w (answer engage uid id res)); try done.
  - rewrite bind_assoc. cbv zeta. unfold wadd. rewrite wrap_id by (unfold uint; lia).
    destruct (lost x); [done|]. rewrite shown by done. by destruct (report engage uid res).
  - apply tool_of_tools.
  - by apply unit_args_finite.
  - by apply answer_finite.
  - by apply tool_called.
Qed.

(** From [2^53] on the console parses unit numbers exactly but sends them as
    [f64]: the odd number and its even neighbour are one request. *)
Lemma console_rounds_unit x host auth id tool :
  Console.call_unit_tool x host auth id tool (dec (2 ^ 53 + 1)) = Console.call_unit_tool x host auth id tool (dec (2 ^ 53)).
Proof. unfold Console.call_unit_tool. rewrite !parse_uint_dec by lia. by rewrite Json.uint_aliases. Qed.

End Site.

(** ** A site to type into *)

Module DemoSite.

#[export] Existing Instance quote_debug.
#[export] Existing Instance ascii_unicode.

Definition ungated : DemoServer.server := Server.set_fleet (Server.new {| sent := [] |}) DemoServer.fleet.
Definition site :=
  {| srv := ungated; world := 0; entropy := 0; heap := heap0; wire := []; screen := []; tty := true; fates := [] |}.
Abbreviation Site := ltac:(let T := type of site in exact T).
Definition host : list Z := ascii_bytes "127.0.0.1:8080".

Definition mode_of (x : Site) : option Mode := Fleet.umode <$> (Fleet.units (Server.fleet (srv x)) !! 5).
Definition result_line : list Z := Json.write (Json.obj [(ascii_bytes "unit_id", Json.uint 5);
  (ascii_bytes "tool", Json.str (ascii_bytes "engage_autonomy")); (ascii_bytes "ok", Bool true)]) ++ [10].

Lemma host_ok : value_ok host.
Proof. split; repeat constructor; lia. Qed.
Lemma short : Z.of_nat (length (utf8 (Console.request host None (body_of 1 (tool_of true) (unit_args 5))))) < 2 ^ 63.
Proof. vm_compute. reflexivity. Qed.

(** a session: engage the unit, ask for one that is not there, leave *)
Definition session : exec (Site * Z) :=
  Console.repl site host None 1 [ascii_bytes "auto 5"; ascii_bytes " manual 6 "; ascii_bytes "quit"; ascii_bytes "auto 5"].
Definition seen (m : exec (Site * Z)) : option (option Mode * list (stream * list Z) * Z) :=
  match m with Ret (x, code) => Some (mode_of x, List.filter (fun l => negb (bool_decide (l.2 = ascii_bytes "> "))) (screen x), code) | _ => None end.

End DemoSite.
Import DemoSite.

(** the connection holds: the operator sees the result; the answer is lost: the
    operation is done all the same *)
Definition cut_off (e : list Z) : Site :=
  {| srv := srv DemoSite.site; world := 0; entropy := 0; heap := heap0; wire := []; screen := []; tty := true;
     fates := [AnswerLost e] |}.

Lemma console_drives_fleet_witness : exists f w,
  operation true (Server.fleet DemoSite.ungated) 0 5 = Ret (f, w, Ok tt) /\
  Console.command DemoSite.site DemoSite.host None 1 (ascii_bytes "auto 5") =
    Ret (put (hang_up (commit DemoSite.site (Server.set_fleet DemoSite.ungated f) w 0)) Out DemoSite.result_line, Some 2) /\
  Console.command (cut_off [116]) DemoSite.host None 1 (ascii_bytes "auto 5") =
    Ret (put (hang_up (commit (cut_off [116]) (Server.set_fleet DemoSite.ungated f) w 0)) Error (fail_line DemoSite.host [116]), Some 2) /\
  Fleet.umode <$> (Fleet.units f !! 5) = Some Auto.
Proof.
  assert (H : exists x, operation true (Server.fleet DemoSite.ungated) 0 5 = Ret x /\
    (is_ok x.2 && bool_decide (Fleet.umode <$> (Fleet.units x.1.1 !! 5) = Some Auto)) = true).
  { apply (DemoServer.returned _ (fun x => is_ok x.2 && bool_decide (Fleet.umode <$> (Fleet.units x.1.1 !! 5) = Some Auto))).
    vm_compute. reflexivity. }
  destruct H as ([[f w] res] & E & Hm). cbn [fst snd] in Hm. apply andb_true_iff in Hm as [Hok Hm].
  destruct res as [[]|e]; [|discriminate Hok]. apply bool_decide_eq_true in Hm.
  exists f, w. split; [exact E|]. split; [|split; [|exact Hm]].
  - exact (console_drives_fleet DemoSite.site DemoSite.host 1 5 true f w (Ok tt) eq_refl DemoSite.host_ok
      ltac:(lia) ltac:(lia) I DemoSite.short E).
  - exact (console_drives_fleet (cut_off [116]) DemoSite.host 1 5 true f w (Ok tt) eq_refl DemoSite.host_ok
      ltac:(lia) ltac:(lia) I DemoSite.short E).
Defined.

(** the unit is engaged; the one that is not there is an error; nothing is read
    after [quit] *)
Example session_seen : DemoSite.seen DemoSite.session =
  Some (Some Auto,
        [(Error, ascii_bytes "error: " ++ Json.write (Json.obj [(ascii_bytes "code", Num (f64_of_Z (-32000)));
           (ascii_bytes "message", Json.str (ascii_bytes "unit 6 not found"))]) ++ [10]);
         (Out, DemoSite.result_line)], 0).
Proof. vm_compute. reflexivity. Qed.
