(* ===== verification/Path.v ===== *)
(** * File paths

    [std::path] on Unix, as the command-line tool uses it: a path is its text, a
    list of [char]s; [components] are what it means, two paths being equal when
    their components are. *)

From stdpp Require Import strings.
From S2P Require Import Prelude Text.

Inductive Component := RootDir | CurDir | ParentDir | Normal (s : list Z).
#[export] Instance Component_eq_dec : EqDecision Component.
Proof. solve_decision. Defined.

Definition is_absolute (p : list Z) : bool := match p with 47 :: _ => true | _ => false end.

(** what stands between separators *)
Definition segs (p : list Z) : list (list Z) := filter (fun s => s <> []) (split [47] p).

Definition component (s : list Z) : option Component :=
  if decide (s = [46]) then None
  else if decide (s = [46; 46]) then Some ParentDir
  else Some (Normal s).

Definition body (p : list Z) : list Component := omap component (segs p).

(** [Path::components]: [.] counts at the head of a relative path only *)
Definition components (p : list Z) : list Component :=
  if is_absolute p then RootDir :: body p
  else match split [47] p with
       | s :: _ => if decide (s = [46]) then CurDir :: body p else body p
       | [] => body p
       end.

(** [Component::as_os_str] *)
Definition os_str (c : Component) : list Z :=
  match c with RootDir => [47] | CurDir => [46] | ParentDir => [46; 46] | Normal s => s end.

(** [PathBuf::push], [Path::join] *)
Definition push (base p : list Z) : list Z :=
  if is_absolute p then p
  else match last base with
       | None => base ++ p
       | Some c => if c =? 47 then base ++ p else base ++ 47 :: p
       end.
Definition join (base p : list Z) : list Z := push base p.

(** [Path::parent], [PathBuf::pop]; the text comes back without repeated
    separators *)
Definition render (cs : list Component) : list Z := foldl (fun p c => push p (os_str c)) [] cs.
Definition parent (p : list Z) : option (list Z) :=
  match last (components p) with
  | None | Some RootDir => None
  | Some _ => Some (render (removelast (components p)))
  end.

(** where a path leads, by its text alone *)
Definition resolve_step (at_ : list (list Z)) (c : Component) : list (list Z) :=
  match c with
  | RootDir => []
  | CurDir => at_
  | ParentDir => removelast at_
  | Normal s => at_ ++ [s]
  end.
Definition resolve (cs : list Component) : list (list Z) := foldl resolve_step [] cs.

(** ** Lemmas *)

Lemma split_glue (c : Z) a b : split [c] (a ++ c :: b) = split [c] a ++ split [c] b.
Proof.
  remember (length a) as n eqn:En. revert a En. induction (lt_wf n) as [n _ IH]. intros a ->.
  destruct (decide (c ∈ a)) as [Hin|Hn]; [|by rewrite split_cons, (split_one c a) by done].
  apply list_elem_of_split in Hin as (a1 & a2 & ->).
  assert (H : exists x y, a1 ++ c :: a2 = x ++ c :: y /\ c ∉ x).
  { clear. induction a1 as [|d a1 (x & y & E & Hx)]; [exists [], a2; split; [done | apply not_elem_of_nil]|].
    destruct (decide (d = c)) as [->|Hd]; [exists [], (a1 ++ c :: a2); split; [done | apply not_elem_of_nil]|].
    exists (d :: x), y. cbn [app]. rewrite E. split; [done|]. by apply not_elem_of_cons. }
  destruct H as (x & y & E & Hx). rewrite E in *. rewrite <- app_assoc. cbn [app].
  rewrite (split_cons c x (y ++ c :: b)), (split_cons c x y) by done. cbn [app]. f_equal. apply (IH (length y)); [|done].
  apply (f_equal length) in E. rewrite !length_app in *. cbn [length] in *. lia.
Qed.

Lemma segs_glue a b : segs (a ++ 47 :: b) = segs a ++ segs b.
Proof. unfold segs. by rewrite split_glue, filter_app. Qed.

Lemma segs_nil : segs [] = [].
Proof. reflexivity. Qed.

Lemma segs_push a b : a <> [] -> is_absolute b = false -> segs (push a b) = segs a ++ segs b.
Proof.
  intros Ha Hb. unfold push. rewrite Hb. destruct (exists_last Ha) as (a' & c & ->). rewrite last_snoc.
  destruct (Z.eqb_spec c 47) as [->|Hc]; [|apply segs_glue].
  rewrite <- app_assoc. cbn [app]. rewrite !segs_glue, segs_nil. by rewrite app_nil_r.
Qed.

Lemma body_push a b : a <> [] -> is_absolute b = false -> body (push a b) = body a ++ body b.
Proof. intros. unfold body. by rewrite segs_push, omap_app by done. Qed.

(** a name: a component's text that is none of the special ones *)
Definition name (s : list Z) : Prop := s <> [] /\ 47 ∉ s /\ s <> [46] /\ s <> [46; 46].
Definition proper (c : Component) : Prop := match c with Normal s => name s | ParentDir => True | _ => False end.

Lemma split_no_sep (c : Z) a s : s ∈ split [c] a -> c ∉ s.
Proof.
  remember (length a) as n eqn:En. revert a En. induction (lt_wf n) as [n _ IH]. intros a ->.
  destruct (decide (c ∈ a)) as [Hin|Hn]; [|rewrite split_one by done; by intros ->%list_elem_of_singleton].
  apply list_elem_of_split in Hin as (a1 & a2 & ->). rewrite split_glue, elem_of_app.
  rewrite length_app in IH. cbn [length] in IH.
  intros [H|H]; [apply (IH (length a1)) in H | apply (IH (length a2)) in H]; done || lia.
Qed.

Lemma body_proper p : Forall proper (body p).
Proof.
  unfold body. apply Forall_forall. intros c Hc. apply list_elem_of_omap in Hc as (s & Hs & Hc).
  unfold segs in Hs. apply list_elem_of_filter in Hs as [Hne Hs]. apply split_no_sep in Hs.
  unfold component in Hc. repeat case_decide; simplify_eq; by repeat split.
Qed.

Lemma component_os_str c : proper c -> segs (os_str c) = [os_str c] /\ component (os_str c) = Some c /\
  is_absolute (os_str c) = false /\ os_str c <> [].
Proof.
  destruct c as [| | |s]; try done. intros (H1 & H2 & H3 & H4). cbn [os_str]. split_and!.
  - unfold segs. rewrite split_one by done. by rewrite filter_cons_True.
  - unfold component. by rewrite !decide_False.
  - destruct s as [|x s]; [done|]. cbn [is_absolute]. destruct (decide (x = 47)) as [->|Hx]; [set_solver|].
    destruct x as [|p|p]; try done. by repeat (destruct p as [p|p|]; try done).
  - done.
Qed.

Lemma component_body c : proper c -> body (os_str c) = [c].
Proof. intros Hc. destruct (component_os_str c Hc) as (H1 & H2 & _). unfold body. rewrite H1. simpl. by rewrite H2. Qed.

(** pushing components one by one *)
Definition push_all (base : list Z) (cs : list Component) : list Z := foldl (fun p c => push p (os_str c)) base cs.

Lemma push_nonempty a b : b <> [] -> push a b <> [].
Proof. intros Hb. unfold push. destruct (is_absolute b); [done|]. destruct (last a); [case_match|]; by destruct a. Qed.

Lemma body_push_all cs : forall a, a <> [] -> Forall proper cs -> body (push_all a cs) = body a ++ cs.
Proof.
  induction cs as [|c cs IH]; intros a Ha Hc; cbn [push_all foldl]; [by rewrite app_nil_r|].
  apply Forall_cons in Hc as [H1 H2]. destruct (component_os_str c H1) as (_ & _ & Hr & Hne).
  fold (push_all (push a (os_str c)) cs). rewrite IH by (done || by apply push_nonempty).
  rewrite body_push, component_body by done. by rewrite <- app_assoc.
Qed.

Lemma push_nil b : is_absolute b = false -> push [] b = b.
Proof. intros Hb. unfold push. by rewrite Hb. Qed.

Lemma is_absolute_push a b : a <> [] -> is_absolute b = false -> is_absolute (push a b) = is_absolute a.
Proof.
  intros Ha Hb. unfold push. rewrite Hb. destruct a as [|x a]; [done|]. destruct (last (x :: a)); [case_match|]; done.
Qed.

Lemma push_all_relative cs : forall a, a <> [] -> is_absolute a = false -> Forall proper cs ->
  is_absolute (push_all a cs) = false.
Proof.
  induction cs as [|c cs IH]; intros a Ha Hr Hc; cbn [push_all foldl]; [done|]. apply Forall_cons in Hc as [H1 H2].
  destruct (component_os_str c H1) as (_ & _ & Hr' & Hne). fold (push_all (push a (os_str c)) cs).
  apply IH; [by apply push_nonempty | by rewrite is_absolute_push | done].
Qed.

(** the relative text of a list of components has just these *)
Lemma render_relative cs : Forall proper cs -> is_absolute (render cs) = false /\ body (render cs) = cs.
Proof.
  intros Hc. destruct cs as [|c cs]; [done|]. apply Forall_cons in Hc as [H1 H2].
  destruct (component_os_str c H1) as (_ & _ & Hr & Hne). unfold render. cbn [foldl]. rewrite push_nil by done.
  fold (push_all (os_str c) cs). split; [by apply push_all_relative|].
  rewrite body_push_all by done. by rewrite component_body.
Qed.

Lemma components_join a b : is_absolute a = true -> is_absolute b = false ->
  components (join a b) = components a ++ body b.
Proof.
  intros Ha Hb. assert (Hne : a <> []) by by destruct a. unfold components, join.
  rewrite is_absolute_push, Ha by done. by rewrite body_push.
Qed.

(** as many steps up as down lead back *)
Lemma resolve_back ns : forall at_, foldl resolve_step at_ (map Normal ns ++ replicate (length ns) ParentDir) = at_.
Proof.
  induction ns as [|s ns IH] using rev_ind; intros at_; [done|].
  rewrite map_app, length_app, Nat.add_comm. cbn [length Nat.add replicate map]. rewrite <- app_assoc. cbn [app].
  rewrite foldl_app. cbn [foldl resolve_step]. rewrite removelast_last, <- foldl_app. apply IH.
Qed.
