(* ===== verification/Scaffold.v ===== *)
(** * Project scaffolding and licence policy: [tpt-t-cli/src/scaffold.rs], [deny.rs]

    [scaffold]: the arguments, the checks on the name, the relative paths to the
    workspace crates and the three files written from templates.  [deny]: the
    licence policy file.  The texts are kept with a tilde for every double quote.
    [relative_path_leads] is about the paths: from the new project they lead to the
    workspace's crates. *)

From stdpp Require Import strings.
From S2P Require Import Prelude Text CoreProfile Terminal Path Dashboard.

(** the characters of a literal *)
Definition literal (s : string) : list Z := default [] (from_utf8 (unquote (ascii_bytes s))).

Definition CARGO_TOML : list Z := literal "[package]
name = ~__NAME__~
version = ~0.1.0~
edition = ~2024~
license = ~MIT OR Apache-2.0~

[dependencies]
tpt-t-core = { path = ~__CORE__~ }
tpt-t-ring = { path = ~__RING__~ }
tpt-t-macros = { path = ~__MACROS__~ }
rkyv = { version = ~0.8~, features = [~bytecheck~] }

[[bin]]
name = ~__NAME__~
path = ~src/main.rs~
".

Definition MAIN_RS : list Z := literal "//! __NAME__ — robot scaffolded by `tpt-t-cli scaffold __NAME__`.
//!
//! `Camera` pushes frames into its ring; `Motor` pulls commands out of its
//! ring. Replace the placeholder types with real device drivers and wire your
//! own shutdown signal into the `stop` flag.

use std::sync::atomic::{AtomicBool, Ordering};
use std::sync::Arc;
use std::time::Duration;

use rkyv::{Archive, Deserialize, Serialize};
use tpt_t::Robot;
use tpt_t_core::profile::CoreProfile;
use tpt_t_core::robot::RobotDevice;

#[derive(Archive, Serialize, Deserialize)]
#[repr(C)]
pub struct Frame {
    pub seq: u32,
    pub pixels: [u8; 32],
}

#[derive(Archive, Serialize, Deserialize)]
#[repr(C)]
pub struct Command {
    pub throttle: f32,
}

/// Camera device: captures frames and pushes them into the generated `cam`
/// channel for the rest of the pipeline to consume.
pub struct Camera {
    stop: Arc<AtomicBool>,
}

impl RobotDevice for Camera {
    type Channels = __STRUCT__Channels;
    fn run(self, ch: &__STRUCT__Channels) {
        let mut seq = 0u32;
        while !self.stop.load(Ordering::Relaxed) {
            // TODO: replace with real frame capture.
            let _ = __STRUCT__::push_cam(ch, Frame { seq, pixels: [0u8; 32] });
            seq = seq.wrapping_add(1);
            std::thread::sleep(Duration::from_millis(1));
        }
    }
}

/// Motor device: pulls `Command`s from the `arm` channel and actuates them.
pub struct Motor {
    stop: Arc<AtomicBool>,
}

impl RobotDevice for Motor {
    type Channels = __STRUCT__Channels;
    fn run(self, ch: &__STRUCT__Channels) {
        while !self.stop.load(Ordering::Relaxed) {
            if let Some(cmd) = __STRUCT__::pop_arm(ch) {
                // TODO: replace with real actuation.
                let _ = cmd.throttle;
            }
            std::thread::sleep(Duration::from_millis(1));
        }
    }
}

#[derive(Robot)]
#[robot(thread_per_core = true)]
pub struct __STRUCT__ {
    #[camera(id = 0, element = Frame, capacity = 256)]
    pub cam: Camera,
    #[motor(id = 1, element = Command, capacity = 256)]
    pub arm: Motor,
}

fn main() {
    let stop = Arc::new(AtomicBool::new(false));
    let bot = __STRUCT__ {
        cam: Camera { stop: stop.clone() },
        arm: Motor { stop: stop.clone() },
    };

    // Lock-free channels generated from the struct fields.
    let channels = bot.channels();

    // Zero-copy serialize a frame straight into a pre-allocated wire buffer.
    let mut buf = tpt_t_core::ser::AlignedBuf::new();
    let _ = __STRUCT__::serialize_cam(&Frame { seq: 1, pixels: [0; 32] }, &mut buf);
    let _ = __STRUCT__::push_cam(&channels, Frame { seq: 1, pixels: [0; 32] });
    let _ = __STRUCT__::pop_cam(&channels);

    // Pin each device to its core-profile role and run. Raise `stop` (e.g. on
    // Ctrl-C) to let the device loops exit, then join their threads.
    let profile = CoreProfile::parse(~video = 0\ncontrol = 1\n~)
        .expect(~valid core profile~);
    let handles = bot
        .launch(&profile)
        .expect(~launch should pin and spawn device threads~);
    for h in handles {
        let _ = h.join();
    }
}
".

Definition DENY_TOML : list Z := literal "# cargo-deny configuration — the ~MIT Chain~ policy (spec §2)
#
# Generated by `tpt-t-cli deny`. tpt-teleop keeps its dependency tree free of
# Apache-only patent liabilities:
#   * Allowed: MIT, BSD-2/3-Clause, ISC, Zlib, MPL-2.0.
#   * Dual MIT OR Apache-2.0 crates are permitted, but resolved strictly under
#     MIT via the [[licenses.clarify]] overrides below.
#   * Strictly Apache-2.0-only crates are banned outright.

[graph]
all-features = true
targets = [
    { triple = ~x86_64-unknown-linux-gnu~ },
    { triple = ~aarch64-apple-darwin~ },
    { triple = ~x86_64-pc-windows-msvc~ },
]

[licenses]
version = 2
allow = [
    ~MIT~,
    ~BSD-2-Clause~,
    ~BSD-3-Clause~,
    ~ISC~,
    ~Zlib~,
    ~MPL-2.0~,
    ~Unicode-DFS-2016~,
    ~Unicode-3.0~,
]
deny = [ ~Apache-2.0~ ]
confidence-threshold = 0.93

[[licenses.clarify]]
name = ~rkyv~
expression = ~MIT~

[[licenses.clarify]]
name = ~rkyv_derive~
expression = ~MIT~

[[licenses.clarify]]
name = ~bytecheck~
expression = ~MIT~

[[licenses.clarify]]
name = ~bytecheck_derive~
expression = ~MIT~

[[licenses.clarify]]
name = ~ptr_meta~
expression = ~MIT~

[[licenses.clarify]]
name = ~rend~
expression = ~MIT~

[[licenses.clarify]]
name = ~rancor~
expression = ~MIT~

[[licenses.clarify]]
name = ~proc-macro2~
expression = ~MIT~

[[licenses.clarify]]
name = ~quote~
expression = ~MIT~

[[licenses.clarify]]
name = ~syn~
expression = ~MIT~

[[licenses.clarify]]
name = ~unicode-ident~
expression = ~MIT~

[bans]
multiple-versions = ~warn~
wildcards = ~deny~
highlight = ~all~

[sources]
unknown-registry = ~deny~
unknown-git = ~deny~
allow-registry = [~https://github.com/rust-lang/crates.io-index~]

[advisories]
version = 2
yanked = ~warn~
".

(** [str::replace] *)
Fixpoint glue (sep : list Z) (l : list Z) (ls : list (list Z)) : list Z :=
  match ls with [] => l | l' :: ls => l ++ sep ++ glue sep l' ls end.
Definition replace_all (pat with_ s : list Z) : list Z :=
  match split pat s with [] => [] | l :: ls => glue with_ l ls end.
Abbreviation replaced p w s := (replace_all (ascii_bytes p) w s).

Definition is_ascii_alphanumeric (c : Z) : bool :=
  is_digit c || ((65 <=? c) && (c <=? 90)) || ((97 <=? c) && (c <=? 122)).
Definition starts_with (p s : list Z) : bool := bool_decide (is_Some (strip_prefix p s)).

Module Scaffold.

Definition OK : Z := 0.
Definition FAIL : Z := 1.

Definition name_char (c : Z) : bool := is_ascii_alphanumeric c || (c =? 95) || (c =? 45).

(** [char::to_uppercase] on the characters [name_char] lets through *)
Definition to_uppercase (c : Z) : Z := if (97 <=? c) && (c <=? 122) then c - 32 else c.

Fixpoint capitalize_loop (s : list Z) (out : list Z) (upper : bool) : list Z :=
  match s with
  | [] => out
  | c :: s =>
      if (c =? 95) || (c =? 45) then capitalize_loop s out true
      else if upper then capitalize_loop s (out ++ [to_uppercase c]) false
      else capitalize_loop s (out ++ [c]) false
  end.
Definition capitalize (s : list Z) : list Z :=
  match capitalize_loop s [] true with [] => ascii_bytes "Bot" | out => out end.

(** [take_while] over the two lists side by side *)
Fixpoint common_prefix (a b : list Component) : nat :=
  match a, b with
  | x :: a, y :: b => if decide (x = y) then S (common_prefix a b) else O
  | _, _ => O
  end.

Section Scaffold.
Context {W E : Type} `{FS : !FileSystem W} `{TM : !Terminal W} `{PO : !PinOs W E} `{SD : !StrDebug}.

Definition core_toml : list Z := ascii_bytes "crates/tpt-t-core/Cargo.toml".

(** the walk up from the current directory; the fuel is its depth *)
Fixpoint walk_up (fuel : nat) (w : W) (dir : list Z) : exec (option (list Z)) :=
  match fuel with
  | O => NoFuel
  | S fuel =>
      if path_exists w (join dir core_toml) then Ret (Some dir)
      else match parent dir with
           | Some dir => walk_up fuel w dir
           | None => Ret None
           end
  end.
Definition find_workspace_root (w : W) : exec (option (list Z)) :=
  match current_dir w with
  | None => Ret None
  | Some dir => walk_up (S (length (components dir))) w dir
  end.

Definition to_absolute (w : W) (p : list Z) : list Z :=
  if is_absolute p then p else match current_dir w with Some c => join c p | None => p end.

Definition rel_path (w : W) (from to : list Z) : list Z :=
  let from_c := components (to_absolute w from) in
  let to_c := components (to_absolute w to) in
  let common := common_prefix from_c to_c in
  let result := render (replicate (length from_c - common) ParentDir ++ drop common to_c) in
  if bool_decide (result = []) then [46] else map (fun c => if c =? 92 then 47 else c) result.

Definition write_file (w : W) (path content : list Z) : W * result unit (list Z) :=
  let '(w, r) := write_file_bytes w path (utf8 content) in
  (w, match r with Ok _ => Ok tt | Err e => Err (ascii_bytes "cannot write " ++ path ++ ascii_bytes ": " ++ e) end).

Definition dependency (w : W) (project_dir : list Z) (root : option (list Z)) (crate : string) : list Z :=
  match root with
  | Some root => rel_path w project_dir (join root (ascii_bytes "crates/" ++ ascii_bytes crate))
  | None => ascii_bytes "../crates/" ++ ascii_bytes crate
  end.

Definition cargo_toml (name struct_name core ring macros : list Z) : list Z :=
  replaced "__MACROS__" macros (replaced "__RING__" ring (replaced "__CORE__" core
    (replaced "__STRUCT__" struct_name (replaced "__NAME__" name CARGO_TOML)))).
Definition main_rs (name struct_name : list Z) : list Z :=
  replaced "__STRUCT__" struct_name (replaced "__NAME__" name MAIN_RS).

Definition scaffold (w : W) (name out_dir : list Z) : exec (W * result (list Z) (list Z)) :=
  let project_dir := join out_dir name in
  if path_exists w project_dir then
    Ret (w, Err (ascii_bytes "target directory " ++ project_dir ++ ascii_bytes " already exists"))
  else
    let struct_name := capitalize name in
    root ← find_workspace_root w;
    let core := dependency w project_dir root "tpt-t-core" in
    let ring := dependency w project_dir root "tpt-t-ring" in
    let macros := dependency w project_dir root "tpt-t-macros" in
    let '(w, r) := create_dir_all w (join project_dir (ascii_bytes "src")) in
    match r with
    | Err e => Ret (w, Err (ascii_bytes "cannot create " ++ project_dir ++ ascii_bytes ": " ++ e))
    | Ok _ =>
        let '(w, r) := write_file w (join project_dir (ascii_bytes "Cargo.toml"))
                         (cargo_toml name struct_name core ring macros) in
        match r with
        | Err e => Ret (w, Err e)
        | Ok _ =>
            let '(w, r) := write_file w (join project_dir (ascii_bytes "src/main.rs")) (main_rs name struct_name) in
            match r with
            | Err e => Ret (w, Err e)
            | Ok _ =>
                let '(w, r) := write_file w (join project_dir (ascii_bytes "core-profile.txt"))
                                 (default_profile_text (Z.max (core_count w) 1)) in
                Ret (w, match r with Err e => Err e | Ok _ => Ok project_dir end)
            end
        end
    end.

(** the arguments: name and path, or the one not expected *)
Fixpoint options (args : list (list Z)) (name path : option (list Z))
  : result (option (list Z) * option (list Z)) (list Z) :=
  match args with
  | [] => Ok (name, path)
  | a :: args =>
      if decide (a = ascii_bytes "--path") then
        match args with
        | p :: args => options args name (Some p)
        | [] => Err (ascii_bytes "error: --path requires a value")
        end
      else match strip_prefix (ascii_bytes "--path=") a with
      | Some p => options args name (Some p)
      | None =>
          if match name with None => true | Some _ => false end && negb (starts_with (ascii_bytes "--") a)
          then options args (Some a) path
          else Err (ascii_bytes "error: unexpected argument " ++ str_debug a)
      end
  end.

Definition next_steps (name dir : list Z) : list Z :=
  ascii_bytes "scaffolded robot " ++ str_debug name ++ ascii_bytes " at " ++ dir ++ [10; 10] ++
  ascii_bytes "next steps:" ++ [10; 9] ++ ascii_bytes "cd " ++ dir ++ [10; 9] ++ ascii_bytes "cargo build" ++ [10; 9] ++
  ascii_bytes "# wire your Camera/Motor types and run with `cargo run --release`".

Definition run (w : W) (args : list (list Z)) : exec (W * Z) :=
  match options args None None with
  | Err e => w ← eprintln w e; Ret (w, FAIL)
  | Ok (None, _) => w ← eprintln w (ascii_bytes "error: scaffold requires a <NAME>"); Ret (w, FAIL)
  | Ok (Some name, path) =>
      if negb (forallb name_char name) then
        (w ← eprintln w (ascii_bytes "error: NAME must be alphanumeric/underscore/dash"); Ret (w, FAIL))
      else
        let out_dir := match path with
                       | Some p => p
                       | None => match current_dir w with Some d => d | None => [46] end
                       end in
        '(w, r) ← scaffold w name out_dir;
        match r with
        | Ok dir => w ← println w (next_steps name dir); Ret (w, OK)
        | Err e => w ← eprintln w (ascii_bytes "error: scaffold failed: " ++ e); Ret (w, FAIL)
        end
  end.

End Scaffold.
End Scaffold.

Module Deny.
Section Deny.
Context {W : Type} `{FS : !FileSystem W} `{TM : !Terminal W} `{SD : !StrDebug}.

Fixpoint options (args : list (list Z)) (out : option (list Z)) : result (option (list Z)) (list Z) :=
  match args with
  | [] => Ok out
  | a :: args =>
      if decide (a = ascii_bytes "--out") then
        match args with
        | o :: args => options args (Some o)
        | [] => Err (ascii_bytes "error: --out requires a value")
        end
      else match strip_prefix (ascii_bytes "--out=") a with
      | Some o => options args (Some o)
      | None => Err (ascii_bytes "error: unexpected argument " ++ str_debug a)
      end
  end.

Definition run (w : W) (args : list (list Z)) : exec (W * Z) :=
  match options args None with
  | Err e => w ← eprintln w e; Ret (w, Scaffold.FAIL)
  | Ok out =>
      let out := default (ascii_bytes "cargo-deny.toml") out in
      let '(w, r) := write_file_bytes w out (utf8 DENY_TOML) in
      match r with
      | Ok _ => w ← println w (ascii_bytes "wrote cargo-deny config to " ++ out); Ret (w, Scaffold.OK)
      | Err e => w ← eprintln w (ascii_bytes "error: cannot write " ++ out ++ ascii_bytes ": " ++ e); Ret (w, Scaffold.FAIL)
      end
  end.

End Deny.
End Deny.

(** ** Paths *)

Lemma common_prefix_spec a b :
  take (Scaffold.common_prefix a b) a = take (Scaffold.common_prefix a b) b /\
  (Scaffold.common_prefix a b <= length a)%nat /\ (Scaffold.common_prefix a b <= length b)%nat.
Proof.
  revert b. induction a as [|x a IH]; intros [|y b]; simpl; try (split; [done|lia]).
  case_decide as E; simpl; [|split; [done|lia]]. subst. destruct (IH b) as (H1 & H2 & H3). rewrite H1. split; [done|lia].
Qed.

Lemma normals cs : Forall proper cs -> ParentDir ∉ cs -> exists ns, cs = map Normal ns.
Proof.
  induction 1 as [|c cs Hc Hcs IH]; intros Hn; [by exists []|]. apply not_elem_of_cons in Hn as [Hp Hn].
  destruct (IH Hn) as [ns ->]. destruct c as [| | |s]; try done. by exists (s :: ns).
Qed.

Section Relative.
Context {W : Type} `{FS : !FileSystem W}.

Definition no_backslash (c : Component) : Prop := match c with Normal s => 92 ∉ s | _ => True end.

Lemma render_no (x : Z) cs : x <> 46 -> x <> 47 -> Forall (fun c => match c with Normal s => x ∉ s | _ => True end) cs -> x ∉ render cs.
Proof.
  intros H1 H2. unfold render. assert (G : forall base, x ∉ base -> Forall (fun c => match c with Normal s => x ∉ s | _ => True end) cs ->
    x ∉ foldl (fun p c => push p (os_str c)) base cs); [|apply G, not_elem_of_nil].
  induction cs as [|c cs IH]; intros base Hb Hc; cbn [foldl]; [done|]. apply Forall_cons in Hc as [Hc Hcs].
  apply IH; [|done]. assert (Ho : x ∉ os_str c).
  { destruct c; cbn [os_str]; rewrite ?not_elem_of_cons; try (split_and!; try done; apply not_elem_of_nil). done. }
  unfold push. destruct (is_absolute (os_str c)); [done|]. destruct (last base) as [z|]; [destruct (z =? 47)|];
    rewrite ?not_elem_of_app, ?not_elem_of_cons; by split_and!.
Qed.

Lemma map_slashes s : 92 ∉ s -> map (fun c => if c =? 92 then 47 else c) s = s.
Proof.
  induction s as [|c s IH]; intros Hs; [done|]. apply not_elem_of_cons in Hs as [H1 H2]. cbn [map].
  rewrite (proj2 (Z.eqb_neq c 92)) by congruence. by rewrite IH.
Qed.

Lemma components_absolute p : is_absolute p = true -> components p = RootDir :: body p.
Proof. intros H. unfold components. by rewrite H. Qed.

Lemma climb_back fc tc k : Forall proper fc -> ParentDir ∉ fc -> (k <= length fc)%nat -> take k fc = take k tc ->
  resolve (RootDir :: fc ++ replicate (length fc - k) ParentDir ++ drop k tc) = resolve (RootDir :: tc).
Proof.
  intros Hp Hn Hk Hc. destruct (normals (drop k fc)) as [ns Ens]; [by apply Forall_drop | |].
  { intros H. apply Hn. rewrite <- (take_drop k fc). apply elem_of_app. by right. }
  assert (Hl : (length fc - k)%nat = length ns) by (by rewrite <- length_drop, Ens, length_map).
  rewrite Hl, <- (take_drop k fc), Ens, <- app_assoc, (app_assoc (map Normal ns)), Hc.
  unfold resolve. cbn [foldl resolve_step]. rewrite !foldl_app, <- (foldl_app _ (map Normal ns)), resolve_back.
  by rewrite <- foldl_app, take_drop.
Qed.

(** The relative path leads where it should.  From an absolute directory
    whose path does not climb, the relative path computed for an absolute target,
    joined to the directory, resolves to the target's own place; it is relative,
    so the project can be moved together with its workspace. *)
Theorem relative_path_leads (w : W) from to : is_absolute from = true -> is_absolute to = true ->
  ParentDir ∉ components from -> Forall no_backslash (components to) ->
  is_absolute (Scaffold.rel_path w from to) = false /\
  resolve (components (join from (Scaffold.rel_path w from to))) = resolve (components to).
Proof.
  intros Hf Ht Hn Hb. unfold Scaffold.rel_path, Scaffold.to_absolute. rewrite Hf, Ht.
  rewrite !components_absolute in * by done. set (fc := body from) in *. set (tc := body to) in *.
  cbn [Scaffold.common_prefix]. rewrite decide_True by done. cbn [length drop Nat.sub].
  destruct (common_prefix_spec fc tc) as (Hc & Hlf & Hlt). set (k := Scaffold.common_prefix fc tc) in *.
  pose proof (body_proper from : Forall proper fc) as Pf. pose proof (body_proper to : Forall proper tc) as Pt.
  apply not_elem_of_cons in Hn as [_ Hn]. apply Forall_cons in Hb as [_ Hb].
  set (cs := replicate (length fc - k) ParentDir ++ drop k tc).
  assert (Pc : Forall proper cs).
  { apply Forall_app. split; [by apply Forall_replicate | by apply Forall_drop]. }
  destruct (render_relative cs Pc) as [Hr Hbody].
  assert (H92 : 92 ∉ render cs).
  { apply render_no; [lia|lia|]. apply Forall_app. split; [by apply Forall_replicate | by apply Forall_drop]. }
  rewrite (map_slashes _ H92).
  unfold cs in *. pose proof (climb_back fc tc k Pf Hn Hlf Hc) as Hback.
  case_bool_decide as E.
  - rewrite E in Hbody. change (body []) with (@nil Component) in Hbody. rewrite <- Hbody, app_nil_r in Hback.
    split; [done|]. rewrite components_join, components_absolute by done. change (body [46]) with (@nil Component).
    rewrite app_nil_r. exact Hback.
  - split; [done|]. rewrite components_join, components_absolute, Hbody by done. exact Hback.
Qed.

End Relative.

(** ** Finding the workspace *)

Lemma components_render cs : Forall proper cs -> components (render (RootDir :: cs)) = RootDir :: cs.
Proof.
  intros Hc. unfold render. cbn [foldl]. change (push [] (os_str RootDir)) with [47].
  assert (H : forall cs a, a <> [] -> is_absolute a = true -> Forall proper cs -> is_absolute (push_all a cs) = true).
  { clear. induction cs as [|c cs IH]; intros a Ha Hr Hc; [done|]. apply Forall_cons in Hc as [H1 H2].
    destruct (component_os_str c H1) as (_ & _ & Hr' & Hne). cbn [push_all foldl]. apply IH; [by apply push_nonempty | |done].
    by rewrite is_absolute_push. }
  change (foldl (fun p c => push p (os_str c)) [47] cs) with (push_all [47] cs).
  rewrite components_absolute by by apply H. by rewrite body_push_all.
Qed.

Lemma parent_up p : is_absolute p = true ->
  match parent p with
  | None => body p = []
  | Some q => is_absolute q = true /\ body q = removelast (body p) /\ body p <> []
  end.
Proof.
  intros Hp. unfold parent. rewrite components_absolute by done. pose proof (body_proper p) as Hb.
  destruct (body p) as [|c cs]; [done|]. change (last (RootDir :: c :: cs)) with (last (c :: cs)).
  change (removelast (RootDir :: c :: cs)) with (RootDir :: removelast (c :: cs)).
  destruct (exists_last (l := c :: cs) ltac:(done)) as (l & x & El). rewrite El in Hb |- *. rewrite last_snoc, removelast_last.
  apply Forall_app in Hb as [Hl Hx]. apply Forall_cons in Hx as [Hx _]. pose proof (components_render l Hl) as Hq.
  assert (Hr : is_absolute (render (RootDir :: l)) = true /\ body (render (RootDir :: l)) = l).
  { revert Hq. unfold components. destruct (is_absolute (render (RootDir :: l))); [by intros [= ->]|].
    pose proof (body_proper (render (RootDir :: l))) as Hb.
    destruct (split _ _); [|case_decide]; intros Hq; try discriminate; rewrite Hq in Hb; by inversion Hb. }
  destruct x; try done; (split; [apply Hr|]; split; [apply Hr | by destruct l]).
Qed.

Section Workspace.
Context {W : Type} `{FS : !FileSystem W}.

Definition holds_core (w : W) (dir : list Z) : bool := path_exists w (join dir Scaffold.core_toml).

(** the directory itself, its parent, and so on up to the root *)
Inductive above : list Z -> list Z -> Prop :=
| above_self d : above d d
| above_parent d p q : parent d = Some p -> above p q -> above d q.

(** The walk ends at the root at the latest, and finds the nearest directory above
    that holds the workspace, if there is one. *)
Lemma walk_up_nearest (w : W) n : forall d, is_absolute d = true -> (length (body d) < n)%nat ->
  exists r, Scaffold.walk_up n w d = Ret r /\
    match r with
    | Some q => above d q /\ holds_core w q = true /\
        forall e, above d e -> holds_core w e = true -> above q e
    | None => forall e, above d e -> holds_core w e = false
    end.
Proof.
  induction n as [|n IH]; intros d Hd Hn; [lia|]. cbn [Scaffold.walk_up]. fold (holds_core w d).
  destruct (holds_core w d) eqn:E; [exists (Some d); split; [done|]; split; [constructor | by split]|].
  pose proof (parent_up d Hd) as Hp. destruct (parent d) as [p|] eqn:Ep.
  - destruct Hp as (Ha & Hb & Hne). destruct (IH p Ha) as (r & Er & Hr).
    { rewrite Hb. destruct (exists_last Hne) as (l & x & El). rewrite El in *. rewrite removelast_last.
      rewrite length_app in Hn. cbn in Hn. lia. }
    exists r. split; [done|]. assert (Hup : forall e, above d e -> e = d \/ above p e).
    { intros e He. inversion He as [|? p' ? Hp' He']; subst; [by left|]. right. congruence. }
    destruct r as [q|].
    + destruct Hr as (H1 & H2 & H3). split; [by eapply above_parent|]. split; [done|].
      intros e He Hc. destruct (Hup e He) as [->|He']; [congruence | by apply H3].
    + intros e He. destruct (Hup e He) as [->|He']; [done | by apply Hr].
  - exists None. split; [done|]. intros e He. inversion He as [|? p' ? Hp' He']; subst; [done | congruence].
Qed.

Lemma find_root_ends (w : W) : (forall d, current_dir w = Some d -> is_absolute d = true) ->
  exists r, Scaffold.find_workspace_root w = Ret r.
Proof.
  intros Ha. unfold Scaffold.find_workspace_root. destruct (current_dir w) as [d|]; [|eauto].
  destruct (walk_up_nearest w (S (length (components d))) d (Ha d eq_refl)) as (r & E & _); [|eauto].
  rewrite components_absolute by by apply Ha. cbn [length]. lia.
Qed.

End Workspace.

(** ** Names *)

Definition letter (c : Z) : bool := ((65 <=? c) && (c <=? 90)) || ((97 <=? c) && (c <=? 122)).
(** a Rust identifier without underscores *)
Definition identifier (s : list Z) : bool := match s with c :: t => letter c && forallb is_ascii_alphanumeric t | [] => false end.
(** the characters of a name that count *)
Definition dash (c : Z) : bool := (c =? 95) || (c =? 45).
Definition counting (s : list Z) : list Z := filter (fun c => dash c = false) s.

Lemma upper_alnum c : is_ascii_alphanumeric c = true ->
  is_ascii_alphanumeric (Scaffold.to_uppercase c) = true /\ letter (Scaffold.to_uppercase c) = letter c.
Proof.
  unfold is_ascii_alphanumeric, Scaffold.to_uppercase, letter, is_digit. intros H.
  destruct (Z.leb_spec 97 c), (Z.leb_spec c 122); cbn [andb]; split; zbool; try lia;
  repeat match goal with |- context [?a <=? ?b] => destruct (Z.leb_spec a b); try lia end; done.
Qed.

Lemma name_char_alnum c : Scaffold.name_char c = true -> dash c = false -> is_ascii_alphanumeric c = true.
Proof. unfold Scaffold.name_char, dash. intros H [E1 E2]%orb_false_iff. by rewrite E1, E2, !orb_false_r in H. Qed.

Lemma capitalize_loop_spec s : forallb Scaffold.name_char s = true -> forall out up,
  exists t, Scaffold.capitalize_loop s out up = out ++ t /\ Forall (fun c => is_ascii_alphanumeric c = true) t /\
    length t = length (counting s) /\
    letter <$> head t = letter <$> head (counting s).
Proof.
  induction s as [|c s IH]; cbn [forallb Scaffold.capitalize_loop]; intros H out up.
  - exists []. by rewrite app_nil_r.
  - apply andb_true_iff in H as [Hc Hs]. fold (dash c). destruct (dash c) eqn:Ed.
    + destruct (IH Hs out true) as (t & E & H). exists t. unfold counting. by rewrite filter_cons_False by congruence.
    + pose proof (name_char_alnum c Hc Ed) as Ha. destruct (upper_alnum c Ha) as [U1 U2].
      unfold counting. rewrite filter_cons_True by done. fold (counting s).
      destruct up.
      * destruct (IH Hs (out ++ [Scaffold.to_uppercase c]) false) as (t & E & Ht & Hl & _).
        exists (Scaffold.to_uppercase c :: t). rewrite E, <- app_assoc. cbn [length head fmap option_fmap option_map].
        rewrite Hl, U2. by split_and!; [|constructor|..].
      * destruct (IH Hs (out ++ [c]) false) as (t & E & Ht & Hl & _).
        exists (c :: t). rewrite E, <- app_assoc. cbn [length]. rewrite Hl. by split_and!; [|constructor|..].
Qed.

(** What the generated struct is called: an identifier, unless the first counting
    character of the name is a digit. *)
Lemma capitalize_identifier s : forallb Scaffold.name_char s = true ->
  identifier (Scaffold.capitalize s) = match counting s with c :: _ => letter c | [] => true end.
Proof.
  intros H. unfold Scaffold.capitalize. destruct (capitalize_loop_spec s H [] true) as (t & -> & Ht & Hl & Hh). cbn [app].
  destruct t as [|c t], (counting s) as [|d ds]; try discriminate; [reflexivity|]. injection Hh as Hh.
  cbn [identifier]. apply Forall_cons in Ht as [_ Ht]. rewrite Hh.
  rewrite (proj2 (forallb_forall _ _)), andb_true_r; [done|]. intros x Hx%list_elem_of_In.
  by apply (proj1 (Forall_forall _ _) Ht).
Qed.

(** ** A file system to scaffold in *)

Module DemoFs.

(** the current directory, what exists, and what was written, newest first *)
Record fs := { cwd : list Z; present : list (list Z); written : list (list Z * list Z); lines : list (list Z) }.
#[export] Instance demo_files : FileSystem fs := {
  current_dir w := Some (cwd w);
  path_exists w p := bool_decide (p ∈ present w);
  create_dir_all w p := ({| cwd := cwd w; present := p :: present w; written := written w; lines := lines w |}, Ok tt);
  write_file_bytes w p b := ({| cwd := cwd w; present := p :: present w; written := (p, b) :: written w; lines := lines w |}, Ok tt);
  read_file_bytes w p := Err (ascii_bytes "no such file")
}.
#[export] Instance demo_terminal : Terminal fs := {
  stdout_write w s := ({| cwd := cwd w; present := present w; written := written w; lines := s :: lines w |}, true);
  stderr_write w s := ({| cwd := cwd w; present := present w; written := written w; lines := s :: lines w |}, true)
}.
#[export] Instance demo_cpus : PinOs fs unit := { sysconf_nproc _ := 4; sched_setaffinity w _ := (w, Ok tt) }.
#[export] Existing Instance quote_debug.

Definition home : fs :=
  {| cwd := ascii_bytes "/home/op/tpt/robots"; present := [ascii_bytes "/home/op/tpt/crates/tpt-t-core/Cargo.toml"];
     written := []; lines := [] |}.

Definition wrote (m : exec (fs * Z)) : option (list (list Z) * Z) :=
  match m with Ret (w, code) => Some ((written w).*1, code) | _ => None end.
(** the file of that name, as written by the run *)
Definition text_of (m : exec (fs * Z)) (p : string) : list Z :=
  match m with Ret (w, _) => default [] (snd <$> List.find (fun f => bool_decide (f.1 = ascii_bytes p)) (written w)) | _ => [] end.
Definition has (s : string) (t : list Z) : bool := bool_decide (is_Some (find_at (unquote (ascii_bytes s)) t)).
Abbreviation run args := (Scaffold.run home (map ascii_bytes args)).

(** a project next to the workspace's crates *)
Example scaffolded :
  wrote (run ["arm-2"; "--path=/home/op/bots"]%string) =
    Some (map ascii_bytes ["/home/op/bots/arm-2/core-profile.txt"; "/home/op/bots/arm-2/src/main.rs"; "/home/op/bots/arm-2/Cargo.toml"], 0) /\
  has "tpt-t-core = { path = ~../../tpt/crates/tpt-t-core~ }"
    (text_of (run ["arm-2"; "--path=/home/op/bots"]%string) "/home/op/bots/arm-2/Cargo.toml") = true /\
  has "pub struct Arm2 {" (text_of (run ["arm-2"; "--path=/home/op/bots"]%string) "/home/op/bots/arm-2/src/main.rs") = true.
Proof. vm_compute. done. Qed.

(** the directory is there already: nothing is written *)
Example refused : wrote (Scaffold.run {| cwd := cwd home; present := [ascii_bytes "/home/op/tpt/robots/arm"]; written := []; lines := [] |}
  [ascii_bytes "arm"]) = Some ([], 1).
Proof. vm_compute. done. Qed.

(** A name that starts with a digit passes the check and gives a struct no
    compiler takes. *)
Lemma digit_names_accepted :
  wrote (run ["3d-arm"]%string) = Some (map ascii_bytes ["/home/op/tpt/robots/3d-arm/core-profile.txt";
    "/home/op/tpt/robots/3d-arm/src/main.rs"; "/home/op/tpt/robots/3d-arm/Cargo.toml"], 0) /\
  has "pub struct 3dArm {" (text_of (run ["3d-arm"]%string) "/home/op/tpt/robots/3d-arm/src/main.rs") = true /\
  identifier (Scaffold.capitalize (ascii_bytes "3d-arm")) = false.
Proof. vm_compute. done. Qed.

(** A name spelled like a placeholder passes too, and is replaced in its turn. *)
Lemma placeholder_names_replaced :
  has "name = ~STRUCT~" (text_of (run ["__STRUCT__"]%string) "/home/op/tpt/robots/__STRUCT__/Cargo.toml") = true.
Proof. vm_compute. done. Qed.

(** A target directory with a step up in it: the paths written do not lead to the
    crates. *)
Lemma climbing_target_misled :
  let dir := ascii_bytes "/home/op/x/../bots/arm" in
  has "tpt-t-core = { path = ~../../../../tpt/crates/tpt-t-core~ }"
    (text_of (run ["arm"; "--path=/home/op/x/../bots"]%string) "/home/op/x/../bots/arm/Cargo.toml") = true /\
  resolve (components (join dir (ascii_bytes "../../../../tpt/crates/tpt-t-core"))) = map ascii_bytes ["tpt"; "crates"; "tpt-t-core"] /\
  ParentDir ∈ components dir.
Proof. vm_compute. split; [done|]. split; [done|]. set_solver. Qed.

End DemoFs.
