(* ===== verification/Fmt.v ===== *)
(** * Formatting

    What [format!] of the standard library does for the command-line tool: widths,
    a fixed number of decimals, the [Debug] form of an [f32], and the whole of
    [str::parse] for the two floating-point types. *)

From stdpp Require Import strings.
From S2P Require Import Prelude Text Float FloatText.

(** ** Widths *)

Definition spaces (n : nat) : list Z := replicate n 32.
(** [{:>n}] and [{:<n}]; widths count characters *)
Definition pad_left (n : nat) (s : list Z) : list Z := spaces (n - length s) ++ s.
Definition pad_right (n : nat) (s : list Z) : list Z := s ++ spaces (n - length s).

Lemma length_pad_left n s : length (pad_left n s) = Nat.max n (length s).
Proof. unfold pad_left, spaces. rewrite length_app, length_replicate. lia. Qed.
Lemma length_pad_right n s : length (pad_right n s) = Nat.max n (length s).
Proof. unfold pad_right, spaces. rewrite length_app, length_replicate. lia. Qed.

(** ** Decimals *)

(** the quotient rounded to nearest, ties to even *)
Definition div_round (num den : Z) : Z :=
  let q := num / den in
  let r := num mod den in
  if 2 * r <? den then q else if den <? 2 * r then q + 1 else if Z.even q then q else q + 1.

Definition sign_text (s : bool) : list Z := if s then [45] else [].

(** [{:.n}], [n > 0], of the exact value *)
Definition fixed (n : nat) (v : spec_float) : list Z :=
  match v with
  | S754_nan => ascii_bytes "NaN"
  | S754_infinity s => sign_text s ++ ascii_bytes "inf"
  | S754_zero s => sign_text s ++ 48 :: 46 :: replicate n 48
  | S754_finite s m e =>
      let z := div_round (10 ^ Z.of_nat n * Zpos m * 2 ^ Z.max e 0) (2 ^ Z.max (- e) 0) in
      let frac := dec (z mod 10 ^ Z.of_nat n) in
      sign_text s ++ dec (z / 10 ^ Z.of_nat n) ++ 46 :: replicate (n - length frac) 48 ++ frac
  end.

Lemma div_round_near num den : 0 < den -> 2 * Z.abs (div_round num den * den - num) <= den.
Proof.
  intros Hd. unfold div_round. pose proof (Z.div_mod num den ltac:(lia)). pose proof (Z.mod_pos_bound num den ltac:(lia)).
  destruct (Z.ltb_spec (2 * (num mod den)) den), (Z.ltb_spec den (2 * (num mod den))); [lia| | |]; try lia.
  destruct (Z.even (num / den)); lia.
Qed.

(** ** Parsing *)

(** the parts of a decimal literal: sign, digits taken as one number, exponent *)
Definition decimal_parts (b : list Z) : option (bool * Z * Z) :=
  let '(s, b) := take_sign b in
  let '(ip, b) := span_digits b in
  let '(fp, b) := match b with
                  | c :: b' => if c =? 46 then span_digits b' else ([], b)
                  | [] => ([], [])
                  end in
  let m := dec_val (ip ++ fp) in
  let x := - Z.of_nat (length fp) in
  if bool_decide (ip ++ fp = []) then None
  else match b with
       | [] => Some (s, m, x)
       | c :: b' =>
           if (c =? 101) || (c =? 69) then
             let '(es, b') := take_sign b' in
             let '(ep, b') := span_digits b' in
             if bool_decide (ep = []) || negb (bool_decide (b' = [])) then None
             else Some (s, m, x + (if es then - dec_val ep else dec_val ep))
           else None
       end.

(** the words, in any case *)
Definition float_word (b : list Z) : option spec_float :=
  let '(s, b) := take_sign b in
  let w := to_ascii_lowercase b in
  if decide (w = ascii_bytes "inf") then Some (S754_infinity s)
  else if decide (w = ascii_bytes "infinity") then Some (S754_infinity s)
  else if decide (w = ascii_bytes "nan") then Some S754_nan
  else None.

Definition f32_of_ratio (s : bool) (num den : Z) : f32 :=
  if num =? 0 then S754_zero s
  else
    let '(q, e, l) := SFdiv_core_binary 24 128 num 0 den 0 in
    binary_round_aux 24 128 s q e l.
Definition f32_of_decimal (s : bool) (m x : Z) : f32 :=
  if 0 <=? x then f32_of_ratio s (m * 10 ^ x) 1 else f32_of_ratio s m (10 ^ (- x)).

(** [str::parse::<f64>], [str::parse::<f32>] *)
Definition parse_f64 (b : list Z) : option f64 :=
  match float_word b with
  | Some v => Some v
  | None => '(s, m, x) ← decimal_parts b; Some (f64_of_decimal s m x)
  end.
Definition parse_f32 (b : list Z) : option f32 :=
  match float_word b with
  | Some v => Some v
  | None => '(s, m, x) ← decimal_parts b; Some (f32_of_decimal s m x)
  end.

(** on numbers it is the parser the JSON reader uses *)
Lemma parse_f64_number b : float_word b = None -> parse_f64 b = f64_from_str b.
Proof.
  intros Hw. unfold parse_f64, decimal_parts, f64_from_str. rewrite Hw.
  destruct (take_sign b) as [s b1]. destruct (span_digits b1) as [ip b2].
  destruct (match b2 with [] => _ | _ => _ end) as [fp b3]. case_bool_decide; [done|].
  destruct b3 as [|c b']; [done|]. destruct ((c =? 101) || (c =? 69)); [|done].
  destruct (take_sign b') as [es b4]. destruct (span_digits b4) as [ep b5]. by destruct (_ || _).
Qed.

(** ** [Debug] of [f32] *)

(** the shortest digits that read back, nine at most *)
Definition shortest32 (m : positive) (e : Z) : Z * Z :=
  let v := S754_finite false m e in
  let num := Zpos m * 2 ^ Z.max e 0 in
  let den := 2 ^ Z.max (- e) 0 in
  let k0 := Z.of_nat (length (dec num)) - Z.of_nat (length (dec den)) in
  let k := if den * 10 ^ Z.max k0 0 <=? num * 10 ^ Z.max (- k0) 0 then k0 + 1 else k0 in
  let good c := (0 <? c.1) && bool_decide (f32_of_decimal false c.1 c.2 = v) in
  match List.find good (mjoin (candidates num den k <$> seqZ 1 9)) with
  | Some c => c
  | None => if 0 <=? e then (num, 0) else (Zpos m * 5 ^ (- e), e)
  end.

(** the last zeros of the digits moved to the exponent *)
Fixpoint strip_zeros (fuel : nat) (d x : Z) : Z * Z :=
  match fuel with
  | O => (d, x)
  | S fuel => if (d mod 10 =? 0) && (0 <? d) then strip_zeros fuel (d / 10) (x + 1) else (d, x)
  end.

(** [{:e}] of [d * 10^x] *)
Definition exponential (d x : Z) : list Z :=
  let '(d, x) := strip_zeros 20 d x in
  let ds := dec d in
  let p := x + Z.of_nat (length ds) - 1 in
  match ds with
  | [] => []
  | c :: r => c :: (match r with [] => [] | _ => 46 :: r end) ++ 101 :: dec_signed p
  end.

(** at least one decimal *)
Definition with_point (s : list Z) : list Z := if bool_decide (46 ∈ s) then s else s ++ [46; 48].

(** [{:?}]: in plain notation from [1e-4] to below [1e16] *)
Definition f32_debug (v : f32) : list Z :=
  match v with
  | S754_nan => ascii_bytes "NaN"
  | S754_infinity s => sign_text s ++ ascii_bytes "inf"
  | S754_zero s => sign_text s ++ ascii_bytes "0.0"
  | S754_finite s m e =>
      let a := S754_finite false m e in
      let '(d, x) := shortest32 m e in
      sign_text s ++
      if flt a (f32_of_decimal false 1 (-4)) || fle (f32_of_decimal false 1 16) a
      then exponential d x else with_point (render d x)
  end.

(** [{:?}] of an array *)
Fixpoint comma_list (l : list (list Z)) : list Z :=
  match l with
  | [] => []
  | [x] => x
  | x :: l => x ++ [44; 32] ++ comma_list l
  end.
Definition array_debug (vs : list f32) : list Z := 91 :: comma_list (map f32_debug vs) ++ [93].

Example debug_examples :
  array_debug [f32_of_decimal false 1 0; f32_of_decimal true 5 (-1); f32_of_decimal false 1 (-1); f32_of_decimal false 1 16;
               f32_of_decimal false 25 (-6); S754_nan; f32_of_bits 0x3DCCCCCE] =
  ascii_bytes "[1.0, -0.5, 0.1, 1e16, 2.5e-5, NaN, 0.10000001]".
Proof. vm_compute. reflexivity. Qed.

Example fixed_examples :
  fixed 3 (f64_of_decimal false 15 (-1)) = ascii_bytes "1.500" /\ fixed 6 (f64_of_decimal true 1 (-7)) = ascii_bytes "-0.000000" /\
  fixed 1 (f64_of_decimal false 25 (-2)) = ascii_bytes "0.2" /\ pad_left 8 (fixed 2 (f64_of_Z 3)) = ascii_bytes "    3.00".
Proof. vm_compute. done. Qed.

Example parse_examples :
  parse_f64 (ascii_bytes "+2.5e0") = Some (f64_lit 5 2) /\ parse_f64 (ascii_bytes "-Infinity") = Some (S754_infinity true) /\
  parse_f32 (ascii_bytes "NaN") = Some S754_nan /\ parse_f64 (ascii_bytes ".") = None /\ parse_f64 (ascii_bytes "1x") = None /\
  parse_f32 (ascii_bytes "0.1") = Some (f32_of_bits 0x3DCCCCCD).
Proof. vm_compute. done. Qed.
