(* ===== verification/Replay.v ===== *)
(** * Flight log replay: [tpt-t-cli/src/replay.rs]

    A flight data file printed frame by frame: the arguments, the summary, the
    filter, the limit and the pacing.  [replay_shows_log] is about a file left by
    the recorder of [Fdr]: what is printed are the frames that were recorded. *)

From stdpp Require Import strings.
From S2P Require Import Prelude Text Float FloatText Fmt Cast Mode Ser DirectIo Fdr CoreProfile Terminal.
Import Entry (FdrEntry).

Module Replay.

Record Options := { opt_path : option (list Z); speed : option f64; kind_filter : option RecordKind.RecordKind; limit : option Z }.
Definition no_options : Options := {| opt_path := None; speed := None; kind_filter := None; limit := None |}.

Definition parse_kind (s : list Z) : option RecordKind.RecordKind :=
  if decide (s = ascii_bytes "control") then Some RecordKind.Control
  else if decide (s = ascii_bytes "imu") then Some RecordKind.Imu
  else if decide (s = ascii_bytes "gps") then Some RecordKind.Gps
  else if decide (s = ascii_bytes "telemetry") then Some RecordKind.Telemetry
  else None.

Definition with_speed (o : Options) (v : f64) : Options :=
  {| opt_path := opt_path o; speed := Some v; kind_filter := kind_filter o; limit := limit o |}.
Definition with_kind (o : Options) (k : RecordKind.RecordKind) : Options :=
  {| opt_path := opt_path o; speed := speed o; kind_filter := Some k; limit := limit o |}.
Definition with_limit (o : Options) (n : Z) : Options :=
  {| opt_path := opt_path o; speed := speed o; kind_filter := kind_filter o; limit := Some n |}.
Definition with_path (o : Options) (p : list Z) : Options :=
  {| opt_path := Some p; speed := speed o; kind_filter := kind_filter o; limit := limit o |}.

Section Args.
Context `{SD : !StrDebug}.

(** the arguments, or the error reported *)
Fixpoint options (args : list (list Z)) (o : Options) : result Options (list Z) :=
  match args with
  | [] => Ok o
  | a :: args =>
      if decide (a = ascii_bytes "--speed") then
        let bad := Err (ascii_bytes "error: --speed requires a positive number") in
        match args with
        | s :: args => match parse_f64 s with
                       | Some v => if flt f_zero v then options args (with_speed o v) else bad
                       | None => bad
                       end
        | [] => bad
        end
      else if decide (a = ascii_bytes "--kind") then
        let bad := Err (ascii_bytes "error: --kind must be one of control|imu|gps|telemetry") in
        match args with
        | s :: args => match parse_kind s with Some k => options args (with_kind o k) | None => bad end
        | [] => bad
        end
      else if decide (a = ascii_bytes "--limit") then
        let bad := Err (ascii_bytes "error: --limit requires a number") in
        match args with
        | s :: args => match parse_uint 64 s with Some n => options args (with_limit o n) | None => bad end
        | [] => bad
        end
      else if match opt_path o with None => true | Some _ => false end
              && negb (bool_decide (is_Some (strip_prefix (ascii_bytes "--") a)))
      then options args (with_path o a)
      else Err (ascii_bytes "error: unrecognized argument " ++ str_debug a)
  end.
End Args.

(** *** One frame *)

Definition bool_text (b : bool) : list Z := ascii_bytes (if b then "true" else "false").
Definition kind_text (k : TelemetryKind) : list Z :=
  ascii_bytes (match k with Generic => "Generic" | Battery => "Battery" | Pose => "Pose" | Temperature => "Temperature" end).

Definition rel_ms (e : FdrEntry) (t0 : Z) : f64 :=
  f64_div (f64_of_Z (ssub (Entry.timestamp_ns e) t0)) (f64_of_Z 1000000).
Definition stamp (idx : Z) (e : FdrEntry) (t0 : Z) : list Z :=
  91 :: pad_left 6 (dec idx) ++ ascii_bytes "] t=+" ++ pad_left 10 (fixed 3 (rel_ms e t0)) ++ ascii_bytes "ms ".

Definition control_text (c : Cmd.ControlCommand Z) : list Z :=
  ascii_bytes "CONTROL   seq=" ++ pad_right 6 (dec (Cmd.seq c)) ++ ascii_bytes " mode=" ++
  pad_right 12 (match Cmd.mode c with Some m => ascii_bytes (Mode.name m) | None => [63] end) ++
  ascii_bytes " ai=" ++ pad_right 5 (bool_text (Cmd.is_ai_origin c)) ++ ascii_bytes " axes=" ++
  array_debug (map f32_of_bits (Cmd.axes c)).
Definition imu_text (s : Telemetry.ImuSample) : list Z :=
  ascii_bytes "IMU       seq=" ++ pad_right 6 (dec (Telemetry.imu_seq s)) ++ ascii_bytes " gyro_rps=" ++
  array_debug (map f32_of_bits (Telemetry.gyro_rps s)) ++ ascii_bytes " accel_g=" ++
  array_debug (map f32_of_bits (Telemetry.accel_g s)).
Definition gps_text (s : Telemetry.GpsSample) : list Z :=
  ascii_bytes "GPS       seq=" ++ pad_right 6 (dec (Telemetry.gps_seq s)) ++
  ascii_bytes " lat=" ++ fixed 6 (f64_of_bits (Telemetry.lat_deg s)) ++
  ascii_bytes " lon=" ++ fixed 6 (f64_of_bits (Telemetry.lon_deg s)) ++
  ascii_bytes " alt=" ++ fixed 1 (f64_of_bits (Telemetry.alt_m s)) ++ ascii_bytes "m speed=" ++
  fixed 1 (f32_of_bits (Telemetry.speed_mps s)) ++ ascii_bytes "m/s sats=" ++ dec (Telemetry.sats s) ++
  ascii_bytes " fix=" ++ bool_text (negb (Telemetry.fix_ok s =? 0)).
Definition telemetry_text (p : Telemetry.TelemetryPacket) : list Z :=
  ascii_bytes "TELEMETRY seq=" ++ pad_right 6 (dec (Telemetry.tp_seq p)) ++ ascii_bytes " kind=" ++
  pad_right 12 (match Telemetry.from_u16 (Telemetry.tp_kind p) with Some k => kind_text k | None => [63] end) ++
  ascii_bytes " values=" ++ array_debug (map f32_of_bits (Telemetry.values p)).

(** a payload decoded, or [<malformed>] under the kind's label *)
Definition decoded {T} `{!PlainBytes T} (label : string) (show : T -> list Z) (payload : list Z) : list Z :=
  match from_bytes_aligned (T := T) payload with
  | Some v => show v
  | None => ascii_bytes label ++ ascii_bytes "<malformed>"
  end.

Definition decode_line (idx : Z) (e : FdrEntry) (t0 : Z) : exec (list Z) :=
  match Entry.kind e with
  | Some RecordKind.Control => p ← Entry.payload e; Ret (stamp idx e t0 ++ decoded "CONTROL   " control_text p)
  | Some RecordKind.Imu => p ← Entry.payload e; Ret (stamp idx e t0 ++ decoded "IMU       " imu_text p)
  | Some RecordKind.Gps => p ← Entry.payload e; Ret (stamp idx e t0 ++ decoded "GPS       " gps_text p)
  | Some RecordKind.Telemetry => p ← Entry.payload e; Ret (stamp idx e t0 ++ decoded "TELEMETRY " telemetry_text p)
  | Some RecordKind.End_ | None => Ret (stamp idx e t0 ++ ascii_bytes "<end/unknown>")
  end.

Definition counts (k : RecordKind.RecordKind) (es : list FdrEntry) : Z :=
  Z.of_nat (length (filter (fun e => Entry.kind e = Some k) es)).

Section Replay.
Context {W : Type} `{FS : !FileSystem W} `{TM : !Terminal W} `{SL : !Sleeper W} `{SD : !StrDebug}.

(** [e0]: the first of the frames, which are not none *)
Definition print_summary (w : W) (path : list Z) (e0 : FdrEntry) (es : list FdrEntry) : exec W :=
  let all := e0 :: es in
  let span_ns := ssub (Entry.timestamp_ns (List.last es e0)) (Entry.timestamp_ns e0) in
  w ← println w (ascii_bytes "== " ++ path ++ ascii_bytes " ==");
  w ← println w (ascii_bytes "frames=" ++ dec (Z.of_nat (length all)) ++
    ascii_bytes " control=" ++ dec (counts RecordKind.Control all) ++ ascii_bytes " imu=" ++ dec (counts RecordKind.Imu all) ++
    ascii_bytes " gps=" ++ dec (counts RecordKind.Gps all) ++ ascii_bytes " telemetry=" ++ dec (counts RecordKind.Telemetry all) ++
    ascii_bytes " span=" ++ fixed 3 (f64_div (f64_of_Z span_ns) (f64_of_Z 1000000000)) ++ ascii_bytes "s");
  println w (ascii_bytes "---").

(** the pause before a frame *)
Definition pace (w : W) (o : Options) (prev_ts : option Z) (e : FdrEntry) : W :=
  match speed o, prev_ts with
  | Some mult, Some prev =>
      let delta_ns := ssub (Entry.timestamp_ns e) prev in
      if 0 <? delta_ns then sleep w (f64_as_u64 (f64_div (f64_of_Z delta_ns) mult)) else w
  | _, _ => w
  end.

(** the loop over the frames: the world and how many were printed *)
Fixpoint show (w : W) (o : Options) (t0 : Z) (prev_ts : option Z) (printed : Z) (es : list FdrEntry) : exec (W * Z) :=
  match es with
  | [] => Ret (w, printed)
  | e :: es =>
      if match kind_filter o with Some k => negb (bool_decide (Entry.kind e = Some k)) | None => false end
      then show w o t0 prev_ts printed es
      else if match limit o with Some max => max <=? printed | None => false end
      then Ret (w, printed)
      else
        let w := pace w o prev_ts e in
        line ← decode_line printed e t0;
        w ← println w line;
        show w o t0 (Some (Entry.timestamp_ns e)) (printed + 1) es
  end.

Definition usage : list Z :=
  ascii_bytes "usage: tpt-t-cli replay <FILE> [--speed <N>] [--kind <control|imu|gps|telemetry>] [--limit <N>]".

Definition run (w : W) (args : list (list Z)) : exec (W * Z) :=
  match options args no_options with
  | Err e => w ← eprintln w e; Ret (w, 1)
  | Ok o =>
      match opt_path o with
      | None => w ← eprintln w usage; Ret (w, 1)
      | Some path =>
          match read_file_bytes w path with
          | Err e => w ← eprintln w (ascii_bytes "error: cannot read " ++ str_debug path ++ ascii_bytes ": " ++ e); Ret (w, 1)
          | Ok bytes =>
              entries ← parse_entries bytes;
              match entries with
              | [] => w ← println w (path ++ ascii_bytes ": no frames"); Ret (w, 0)
              | e0 :: es =>
                  w ← print_summary w path e0 es;
                  '(w, printed) ← show w o (Entry.timestamp_ns e0) None 0 entries;
                  w ← println w (ascii_bytes "-- " ++ dec printed ++ ascii_bytes " frame(s) shown --");
                  Ret (w, 0)
              end
          end
      end
  end.

End Replay.
End Replay.

(** ** What is shown *)

Section Shown.
Context {W : Type} `{FS : !FileSystem W} `{TM : !Terminal W} `{SL : !Sleeper W} `{SD : !StrDebug}.
Implicit Types (w : W) (o : Replay.Options) (es : list FdrEntry).

Definition chosen o (e : FdrEntry) : bool :=
  match Replay.kind_filter o with Some k => bool_decide (Entry.kind e = Some k) | None => true end.
(** the frames asked for *)
Definition selected o es : list FdrEntry :=
  let es := List.filter (chosen o) es in
  match Replay.limit o with Some n => take (Z.to_nat n) es | None => es end.

(** the frames one after the other: each printed under its number, after the pause
    its distance from the one before asks for *)
Fixpoint narrate w o (t0 : Z) (prev : option Z) (n : Z) es : exec W :=
  match es with
  | [] => Ret w
  | e :: es =>
      line ← Replay.decode_line n e t0;
      w ← println (Replay.pace w o prev e) line;
      narrate w o t0 (Some (Entry.timestamp_ns e)) (n + 1) es
  end.

(** a frame whose length field lies inside its buffer *)
Definition fits (e : FdrEntry) : Prop := exists p, Entry.payload e = Ret p.

Lemma decode_line_returns n e t0 : fits e -> exists l, Replay.decode_line n e t0 = Ret l.
Proof.
  intros [p Hp]. unfold Replay.decode_line. destruct (Entry.kind e) as [[]|]; rewrite ?Hp, ?ret_bind; eauto.
Qed.

Lemma skip_chosen o e :
  match Replay.kind_filter o with Some k => negb (bool_decide (Entry.kind e = Some k)) | None => false end = negb (chosen o e).
Proof. unfold chosen. by destruct (Replay.kind_filter o). Qed.

(** how many frames may still be printed *)
Definition room o (n : Z) es : list FdrEntry :=
  match Replay.limit o with Some m => take (Z.to_nat (m - n)) es | None => es end.

Lemma show_selected o t0 es : Forall fits es -> forall w prev n,
  Replay.show w o t0 prev n es =
    (w' ← narrate w o t0 prev n (room o n (List.filter (chosen o) es));
     Ret (w', n + Z.of_nat (length (room o n (List.filter (chosen o) es))))).
Proof.
  intros Hes. induction Hes as [|e es He Hes IH]; intros w prev n; cbn [List.filter Replay.show].
  - unfold room. destruct (Replay.limit o); rewrite ?take_nil; cbn [narrate length]; by rewrite ret_bind, Z.add_0_r.
  - rewrite skip_chosen. destruct (chosen o e); cbn [negb]; [|apply IH].
    destruct (decode_line_returns n e t0 He) as [l El].
    assert (Hr : match Replay.limit o with Some max => max <=? n | None => false end = false ->
      room o n (e :: List.filter (chosen o) es) = e :: room o (n + 1) (List.filter (chosen o) es)).
    { unfold room. destruct (Replay.limit o) as [m|]; [|done]. intros Hm%Z.leb_gt.
      replace (Z.to_nat (m - n)) with (S (Z.to_nat (m - (n + 1)))) by lia. done. }
    destruct (match Replay.limit o with Some max => max <=? n | None => false end) eqn:Hm.
    + unfold room. destruct (Replay.limit o) as [m|]; [|done]. apply Z.leb_le in Hm.
      replace (Z.to_nat (m - n)) with O by lia. cbn [take narrate length]. by rewrite ret_bind, Z.add_0_r.
    + rewrite Hr by done. cbn [narrate length]. rewrite El, !ret_bind, bind_assoc.
      destruct (println (Replay.pace w o prev e) l) as [w1| | |]; [|done..]. rewrite !ret_bind, IH.
      replace (n + Z.of_nat (S (length (room o (n + 1) (List.filter (chosen o) es)))))
        with (n + 1 + Z.of_nat (length (room o (n + 1) (List.filter (chosen o) es)))) by lia. done.
Qed.

(** as long as the streams can be written, the narration ends *)
Lemma narrate_ends o t0 es : streams_open W -> Forall fits es -> forall w prev n, exists w', narrate w o t0 prev n es = Ret w'.
Proof.
  intros Hs Hes. induction Hes as [|e es He Hes IH]; intros w prev n; cbn [narrate]; [by eexists|].
  destruct (decode_line_returns n e t0 He) as [l ->]. rewrite ret_bind, (println_open _ _ Hs), ret_bind. apply IH.
Qed.

Definition finished (m : exec W) (count : Z) : exec (W * Z) :=
  w ← m; w ← println w (ascii_bytes "-- " ++ dec count ++ ascii_bytes " frame(s) shown --"); Ret (w, 0).

Lemma room_fits o n es : Forall fits es -> Forall fits (room o n (List.filter (chosen o) es)).
Proof.
  intros H. assert (Hf : Forall fits (List.filter (chosen o) es)).
  { rewrite Forall_forall in H |- *. intros e [He _]%list_elem_of_In%filter_In. by apply H, list_elem_of_In. }
  unfold room. destruct (Replay.limit o); [by apply Forall_take | done].
Qed.

(** C19: replaying a flight log shows the flight.  For the file a recorder left, whole
    or followed by what a crash wrote after the end marker, what the replay prints
    after the summary are the recorded frames themselves, in their order, those of the
    kind asked for and the first of them up to the limit, numbered from 0, each after
    the pause of its distance in time, and then their count.  As long as the standard
    streams can be written it ends, with code 0; a line that cannot be written brings
    it down at that line. *)
Theorem replay_shows_log w args o path bytes e0 es rest :
  Replay.options args Replay.no_options = Ok o -> Replay.opt_path o = Some path ->
  read_file_bytes w path = Ok bytes -> bytes = image (e0 :: es) ++ end_image ++ rest ->
  Forall data_frame (e0 :: es) -> Forall fits (e0 :: es) ->
  let shown := room o 0 (List.filter (chosen o) (e0 :: es)) in
  Replay.run w args =
    finished (w ← Replay.print_summary w path e0 es; narrate w o (Entry.timestamp_ns e0) None 0 shown)
      (Z.of_nat (length shown)) /\
  (streams_open W -> exists w', Replay.run w args = Ret (w', 0)).
Proof.
  intros Ho Hp Hr -> Hd Hf. cbv zeta. set (shown := room _ _ _).
  match goal with |- ?A /\ _ => assert (E : A) end.
  { unfold Replay.run. rewrite Ho, Hp, Hr.
    destruct (parse_log (e0 :: es) (image (e0 :: es) ++ end_image ++ rest) rest Hd ltac:(done)) as (l & El & _ & Hl).
    rewrite El, ret_bind, Hl by (rewrite !length_app; lia). unfold finished. rewrite bind_assoc.
    destruct (Replay.print_summary w path e0 es) as [w0| | |]; [|done..]. rewrite !ret_bind.
    rewrite show_selected, bind_assoc by done. by destruct (narrate _ _ _ _ _ _). }
  split; [exact E|]. intros Hs. rewrite E. unfold finished, Replay.print_summary. cbv zeta.
  rewrite !(println_open _ _ Hs), !ret_bind, (println_open _ _ Hs), ret_bind, (println_open _ _ Hs), ret_bind.
  match goal with |- context [narrate ?v _ _ _ _ _] =>
    destruct (narrate_ends o (Entry.timestamp_ns e0) shown Hs (room_fits o 0 _ Hf) v None 0) as [w' ->] end.
  rewrite ret_bind, (println_open _ _ Hs), ret_bind. by eexists.
Qed.

(** A frame whose length field was damaged brings the replay down: the length is
    not compared with the buffer before the payload is cut from it. *)
Lemma damaged_frame_panics w args o path bytes e rest :
  Replay.options args Replay.no_options = Ok o -> Replay.opt_path o = Some path ->
  Replay.kind_filter o = None -> Replay.limit o = None ->
  read_file_bytes w path = Ok bytes -> bytes = image [e] ++ end_image ++ rest -> data_frame e ->
  is_Some (Entry.kind e) -> Entry.payload e = Panic -> Replay.run w args = Panic.
Proof.
  intros Ho Hp Hk Hl Hr -> Hd [k Hek] Hpay. unfold Replay.run. rewrite Ho, Hp, Hr.
  destruct (parse_log [e] (image [e] ++ end_image ++ rest) rest) as (l & El & _ & Hle); [by constructor|done|].
  rewrite El, ret_bind, Hle by (rewrite !length_app; lia).
  assert (Hs : forall w, Replay.show w o (Entry.timestamp_ns e) None 0 [e] = Panic).
  { intros v. cbn [Replay.show]. rewrite Hk, Hl. unfold Replay.decode_line. rewrite Hek, Hpay.
    destruct Hd as [_ Hd]. by destruct k. }
  unfold Replay.print_summary, println, print, stream_ok. cbv zeta.
  repeat (destruct (_.2); [rewrite ret_bind | done]). by rewrite Hs.
Qed.

End Shown.

(** ** A log to replay *)

Module DemoLog.

Record tape := { disk : list Z; out : list (list Z); naps : list Z }.
#[export] Instance tape_files : FileSystem tape := {
  current_dir w := Some [47];
  path_exists w p := false;
  create_dir_all w p := (w, Err []);
  write_file_bytes w p b := (w, Err []);
  read_file_bytes w p := if decide (p = ascii_bytes "f.fdr") then Ok (disk w) else Err (ascii_bytes "no such file")
}.
#[export] Instance tape_terminal : Terminal tape := {
  stdout_write w s := ({| disk := disk w; out := s :: out w; naps := naps w |}, true);
  stderr_write w s := ({| disk := disk w; out := s :: out w; naps := naps w |}, true)
}.
Lemma tape_open : streams_open tape.
Proof. by split. Qed.
#[export] Instance tape_sleeper : Sleeper tape := { sleep w n := {| disk := disk w; out := out w; naps := n :: naps w |} }.
#[export] Existing Instance quote_debug.

Definition cmd : Cmd.ControlCommand Z := Cmd.with_seq (Cmd.zeroed 0 FullTeleop) 7.
Definition battery : Telemetry.TelemetryPacket := Telemetry.tp_zeroed Battery 3 300.
Definition f0 : FdrEntry := frame RecordKind.Control (bytes_of cmd) 1000000.
Definition f1 : FdrEntry := frame RecordKind.Telemetry (bytes_of battery) 3500000.
Definition f2 : FdrEntry := frame RecordKind.Control [1; 2; 3] 6000000.
Definition tape_of (es : list FdrEntry) : tape := {| disk := image es ++ end_image ++ [9; 9]; out := []; naps := [] |}.

Definition args : list (list Z) := map ascii_bytes ["--kind"; "control"; "f.fdr"; "--speed"; "2"]%string.
Definition opts : Replay.Options :=
  {| Replay.opt_path := Some (ascii_bytes "f.fdr"); Replay.speed := Some (f64_of_Z 2);
     Replay.kind_filter := Some RecordKind.Control; Replay.limit := None |}.

Lemma args_parsed : Replay.options args Replay.no_options = Ok opts.
Proof. vm_compute. reflexivity. Qed.
Lemma byte_list l : forallb (fun z => (0 <=? z) && (z <? 256)) l = true -> bytes l.
Proof.
  intros H. apply Forall_forall. intros z Hz%list_elem_of_In. rewrite forallb_forall in H. apply H in Hz.
  unfold byte, uint. zbool. lia.
Qed.
Lemma frame_ok k p t : forallb (fun z => (0 <=? z) && (z <? 256)) p = true -> (length p <=? 512)%nat = true ->
  (0 <=? t) && (t <? 2 ^ 64) = true -> k <> RecordKind.End_ -> data_frame (frame k p t) /\ fits (frame k p t).
Proof.
  intros Hb Hl%Nat.leb_le Ht Hk. destruct (frame_payload k p t Hl) as [H1 H2]. split; [split|].
  - apply frame_wf; [by apply byte_list | unfold uint; zbool; lia | exact Hl].
  - rewrite H2. congruence.
  - exists p. exact H1.
Qed.
Lemma frames_ok : Forall data_frame [f0; f1; f2] /\ Forall fits [f0; f1; f2].
Proof.
  assert (H : Forall (fun e => data_frame e /\ fits e) [f0; f1; f2]).
  { repeat (constructor; [apply frame_ok; vm_compute; (reflexivity || discriminate)|]). constructor. }
  split; apply (Forall_impl _ _ _ H); by intros e [].
Qed.

Lemma tape_read es : read_file_bytes (tape_of es) (ascii_bytes "f.fdr") = Ok (image es ++ end_image ++ [9; 9]).
Proof. cbn [read_file_bytes tape_files]. by rewrite decide_True. Qed.

Definition shown (m : exec (tape * Z)) : option (list (list Z) * list Z * Z) :=
  match m with Ret (w, c) => Some (out w, naps w, c) | _ => None end.

End DemoLog.
Import DemoLog.

(** the two control frames of three, half the 5 ms between them waited for, the
    second one not a command *)
Example replay_seen : DemoLog.shown (Replay.run (DemoLog.tape_of [DemoLog.f0; DemoLog.f1; DemoLog.f2]) DemoLog.args) =
  Some (map (fun s => ascii_bytes s ++ [10])
    ["-- 2 frame(s) shown --";
     "[     1] t=+     5.000ms CONTROL   <malformed>";
     "[     0] t=+     0.000ms CONTROL   seq=7      mode=TELEOP       ai=false axes=[0.0, 0.0, 0.0, 0.0, 0.0, 0.0]";
     "---"; "frames=3 control=2 imu=0 gps=0 telemetry=1 span=0.005s"; "== f.fdr =="]%string, [2500000], 0).
Proof. vm_compute. reflexivity. Qed.

Lemma replay_shows_log_witness : exists w',
  Replay.run (DemoLog.tape_of [DemoLog.f0; DemoLog.f1; DemoLog.f2]) DemoLog.args = Ret (w', 0).
Proof.
  destruct DemoLog.frames_ok as [Hd Hf].
  exact (proj2 (replay_shows_log (DemoLog.tape_of [DemoLog.f0; DemoLog.f1; DemoLog.f2]) DemoLog.args DemoLog.opts (ascii_bytes "f.fdr")
    (image [DemoLog.f0; DemoLog.f1; DemoLog.f2] ++ end_image ++ [9; 9]) DemoLog.f0 [DemoLog.f1; DemoLog.f2] [9; 9]
    DemoLog.args_parsed eq_refl (DemoLog.tape_read _) eq_refl Hd Hf) DemoLog.tape_open).
Defined.

(** the damage: a length of 600 in a frame of 512 *)
Definition damaged : FdrEntry :=
  {| Entry.timestamp_ns := 5; Entry.payload_len := 600; Entry.kind_raw := 1; Entry.pad := 0; Entry.reserved := 0;
     Entry.payload_raw := replicate 512 0 |}.
Example damaged_log_panics : Replay.run (DemoLog.tape_of [damaged]) [ascii_bytes "f.fdr"] = Panic.
Proof. vm_compute. reflexivity. Qed.
