(* ===== verification/Simulate.v ===== *)
(** * The live simulator: [tpt-t-cli/src/sim.rs]

    The subcommand flies the simulated drone through the whole data plane of
    [Pipeline] and prints a line per control tick.  [sim_flies] is about a flight:
    it comes to its end while its lines can be written, and what is printed is what the safety loop let
    through. *)

From stdpp Require Import strings.
From S2P Require Import Prelude Cast Ring Mode Pool Ser Crc Backpressure Mesh Reliable Text Mux Float FloatText FloatFacts Safety SafetyLoop Hal Input Sim CmdWire MuxSocket Pipeline CoreProfile Terminal Fmt.

(** ** [Duration::from_secs_f64]: nanoseconds, to nearest, ties to even *)

Definition from_secs_f64 (v : f64) : exec Z :=
  match v with
  | S754_nan | S754_infinity _ => Panic
  | S754_zero _ => Ret 0
  | S754_finite s m e =>
      if s then Panic
      else
        let ns := div_round (10 ^ 9 * Zpos m * 2 ^ Z.max e 0) (2 ^ Z.max (- e) 0) in
        if 2 ^ 64 * 10 ^ 9 <=? ns then Panic else Ret ns
  end.

(** the C library's single-precision functions *)
Class Libm32 := { f32_sin : f32 -> f32; f32_cos : f32 -> f32 }.

Module Simulate.

Definition DT_NS : Z := 5000000.

Record Options := { ticks : Z; rate_hz : f64; throttle : f32; roll : f32 }.
Definition default_options : Options :=
  {| ticks := 200; rate_hz := f64_of_Z 20; throttle := f32_lit 55 100; roll := f_zero |}.

Section Args.
Context `{SD : !StrDebug}.

(** the arguments, or the error reported *)
Fixpoint options (args : list (list Z)) (o : Options) : exec (result Options (list Z)) :=
  match args with
  | [] => Ret (Ok o)
  | a :: args =>
      if decide (a = ascii_bytes "--ticks") then
        let bad := Ret (Err (ascii_bytes "error: --ticks requires a number")) in
        match args with
        | s :: args =>
            match parse_uint 64 s with
            | Some v => options args {| ticks := v; rate_hz := rate_hz o; throttle := throttle o; roll := roll o |}
            | None => bad
            end
        | [] => bad
        end
      else if decide (a = ascii_bytes "--rate") then
        let bad := Ret (Err (ascii_bytes "error: --rate requires a number")) in
        match args with
        | s :: args =>
            match parse_f64 s with
            | Some v => options args {| ticks := ticks o; rate_hz := fmax v (f64_of_Z 1); throttle := throttle o; roll := roll o |}
            | None => bad
            end
        | [] => bad
        end
      else if decide (a = ascii_bytes "--throttle") then
        let bad := Ret (Err (ascii_bytes "error: --throttle requires a number")) in
        match args with
        | s :: args =>
            match parse_f32 s with
            | Some v =>
                v ← fclamp v f_zero (f32_of_Z 1);
                options args {| ticks := ticks o; rate_hz := rate_hz o; throttle := v; roll := roll o |}
            | None => bad
            end
        | [] => bad
        end
      else if decide (a = ascii_bytes "--roll") then
        let bad := Ret (Err (ascii_bytes "error: --roll requires a number")) in
        match args with
        | s :: args =>
            match parse_f32 s with
            | Some v => options args {| ticks := ticks o; rate_hz := rate_hz o; throttle := throttle o; roll := v |}
            | None => bad
            end
        | [] => bad
        end
      else Ret (Err (ascii_bytes "error: unrecognized argument " ++ str_debug a))
  end.
End Args.

Section Simulate.
Context (hypot : f64 -> f64 -> f64) (nan32 nan64 : Z).
Context `{LM : !Libm} `{L32 : !Libm32} (io_text : IoError -> list Z).
Context {Q QE QR QC K W Addr : Type}.
Context `{RQ : !BoundedFifo Q Command} `{RE : !BoundedFifo QE Transition}
  `{RR : !BoundedFifo QR Report.ControllerReport} `{RCan : !BoundedFifo QC CanFrame}.
Context `{HK : !Haptics.HapticSink K} `{UO : !UdpOs W Addr} `{PW : !Pace W}.
Context `{RC : !Rkyv (Cmd.ControlCommand Z) pb_wf} `{RT : !Rkyv Telemetry.TelemetryPacket pb_wf}.
Context `{TM : !Terminal W} `{SL : !Sleeper W} `{SD : !StrDebug}.

Notation Harness := (PipelineHarness (Q := Q) (QE := QE) (QR := QR) (QC := QC) (K := K) (Addr := Addr)).

(** the report of a tick: the roll oscillates about its base, the throttle too *)
Definition report (thr base_roll : f32) (tick now : Z) : exec Report.ControllerReport :=
  let t := f32_of_Z tick in
  let roll := f32_add base_roll (f32_mul (f32_sin (f32_mul t (f32_lit 5 100))) (f32_lit 2 10)) in
  thr ← fclamp (f32_add thr (f32_mul (f32_cos (f32_mul t (f32_lit 2 100))) (f32_lit 5 100))) f_zero (f32_of_Z 1);
  Ret {| Report.seq := wrap 32 tick; Report.buttons := 0;
         Report.axes := [roll; f_zero; f_zero; thr; f_zero; f_zero; f_zero; f_zero]; Report.timestamp_ns := now |}.

Definition wire_axis (c : Cmd.ControlCommand Z) (k : nat) : f32 := f32_of_bits (nth k (Cmd.axes c) 0).

(** the line of a tick *)
Definition row (tick : Z) (p : Frame.Pose6D f64) (rx : option (Cmd.ControlCommand Z)) (routed : Z) : list Z :=
  let '(rc, tc) := match rx with
                   | Some c => (wire_axis c ROLL, wire_axis c THROTTLE)
                   | None => (f_zero, f_zero)
                   end in
  pad_left 4 (dec tick) ++ ascii_bytes " | " ++ pad_left 8 (fixed 2 (Frame.x p)) ++ [32] ++
  pad_left 8 (fixed 2 (Frame.y p)) ++ [32] ++ pad_left 8 (fixed 2 (Frame.z p)) ++ ascii_bytes " | " ++
  pad_left 8 (fixed 3 rc) ++ [32] ++ pad_left 10 (fixed 3 tc) ++ ascii_bytes " | " ++ dec routed.

Definition last_line (p : Frame.Pose6D f64) (routed : Z) : list Z :=
  10 :: ascii_bytes "final pose: x=" ++ fixed 2 (Frame.x p) ++ ascii_bytes " y=" ++ fixed 2 (Frame.y p) ++
  ascii_bytes " z=" ++ fixed 2 (Frame.z p) ++ ascii_bytes "  routed=" ++ dec routed.

(** the harness goes out of scope *)
Definition drop_harness (w : W) (h : Harness) : W :=
  Sock.drop_mux (Addr := Addr) (Sock.drop_mux (Addr := Addr) w (tx h)) (rx h).

(** one tick up to its answer *)
Definition fly_tick (w : W) (h : Harness) (thr base_roll : f32) (tick : Z)
  : exec (W * Harness * result (option (Cmd.ControlCommand Z)) IoError) :=
  let now := wmul 64 tick DT_NS in
  r ← report thr base_roll tick now;
  h ← feed_report h r;
  step hypot nan32 nan64 w h now.

Definition step_failure (e : IoError) : list Z := ascii_bytes "error: pipeline step failed: " ++ io_text e.

(** [for tick in 0..ticks], [n] ticks to go; [false]: a step failed *)
Fixpoint fly (n : nat) (w : W) (h : Harness) (thr base_roll : f32) (frame tick : Z) : exec (W * Harness * bool) :=
  match n with
  | O => Ret (w, h, true)
  | S n =>
      '(w, h, rx) ← fly_tick w h thr base_roll tick;
      match rx with
      | Err e => w ← eprintln w (step_failure e); Ret (w, h, false)
      | Ok rx =>
          w ← println w (row tick (harness_pose h) rx (routed h));
          fly n (sleep w frame) h thr base_roll frame (tick + 1)
      end
  end.

Definition head_lines : list (list Z) :=
  [ascii_bytes "tpt-teleop simulator " ++ [0x2014] ++ ascii_bytes " Phase-4 drone + safety loop";
   ascii_bytes "tick |    x(m)     y(m)     z(m) | roll_cmd  throttle | routed";
   ascii_bytes "-----+----------------------------------+------------------+-------"].
Fixpoint print_lines (w : W) (ls : list (list Z)) : exec W :=
  match ls with [] => Ret w | l :: ls => w ← println w l; print_lines w ls end.

Definition build_failure (e : IoError) : list Z := ascii_bytes "error: cannot build pipeline harness: " ++ io_text e.

(** [at_]: where the receive buffer is placed *)
Definition simulate (w : W) (at_ : Z) (n : Z) (rate : f64) (thr base_roll : f32) : exec (W * Z) :=
  '(w, b) ← build (Q := Q) (QE := QE) (QR := QR) (QC := QC) (K := K) hypot w at_;
  match b with
  | Err e => w ← eprintln w (build_failure e); Ret (w, 1)
  | Ok h =>
      let h := enable_sim h in
      w ← print_lines w head_lines;
      frame ← from_secs_f64 (f64_div (f64_of_Z 1) rate);
      '(w, h, flown) ← fly (Z.to_nat n) w h thr base_roll frame 0;
      if negb flown then Ret (drop_harness w h, 1)
      else
        w ← println w (last_line (harness_pose h) (routed h));
        Ret (drop_harness w h, 0)
  end.

Definition run (w : W) (at_ : Z) (args : list (list Z)) : exec (W * Z) :=
  o ← options args default_options;
  match o with
  | Err e => w ← eprintln w e; Ret (w, 1)
  | Ok o => simulate w at_ (ticks o) (rate_hz o) (throttle o) (roll o)
  end.

End Simulate.
End Simulate.

(** ** The frame time *)

Lemma fexp_double k : fexp 53 1024 k = Z.max (k - 53) (-1074).
Proof. unfold fexp, emin. lia. Qed.
Lemma digits_bound q : 0 <= q -> q < 2 ^ Z.max (Zdigits2 q) 0.
Proof.
  intros Hq. destruct q as [|p|p]; [done| |lia]. rewrite Zdigits2_log2. pose proof (log2_bounds (Zpos p) ltac:(lia)).
  rewrite Z.max_l by (pose proof (Z.log2_nonneg (Zpos p)); lia). lia.
Qed.
Lemma digits_le q k : 0 <= k -> 0 <= q < 2 ^ k -> Zdigits2 q <= k.
Proof.
  intros Hk Hq. destruct q as [|p|p]; [simpl; lia| |lia]. rewrite Zdigits2_log2.
  assert (Z.log2 (Zpos p) < k) by (apply Z.log2_lt_pow2; lia). lia.
Qed.

(** one shift of the rounding: the mantissa fits, the exponent stays small *)
Lemma shift_fits r e d : 0 <= shr_m r -> shr_m r < 2 ^ Z.max d 0 -> e <= 1 -> d + e <= 54 ->
  let res := shr r e (fexp 53 1024 (d + e) - e) in
  0 <= shr_m res.1 < 2 ^ 53 /\ res.2 <= 1.
Proof.
  intros Hr Hd He Hde. cbv zeta. rewrite fexp_double.
  destruct (shr_div r e (Z.max (d + e - 53) (-1074) - e) Hr) as [-> ->]. set (n := Z.max (Z.max _ _ - e) 0).
  assert (Hn : 0 <= n /\ d - 53 <= n) by lia. split; [|lia]. pose proof (pow2_pos n ltac:(lia)).
  split; [by apply Z.div_pos|]. apply Z.div_lt_upper_bound; [done|]. rewrite <- Z.pow_add_r by lia.
  eapply Z.lt_le_trans; [exact Hd|]. apply Z.pow_le_mono_r; lia.
Qed.

(** rounding what is below [2^53] in steps no larger than one *)
Lemma round_aux_small q e l : 0 <= q -> e <= 0 -> Zdigits2 q + e <= 53 ->
  match binary_round_aux 53 1024 false q e l with
  | S754_zero s => s = false
  | S754_finite s m x => s = false /\ Zpos m < 2 ^ 53 /\ x <= 1
  | _ => False
  end.
Proof.
  intros Hq He Hd. unfold binary_round_aux, shr_fexp.
  pose proof (shift_fits (shr_record_of_loc q l) e (Zdigits2 q)) as H1. rewrite shr_of_loc in H1.
  destruct (H1 Hq (digits_bound q Hq) ltac:(lia) ltac:(lia)) as [Hm1 _].
  assert (He1 : (shr (shr_record_of_loc q l) e (fexp 53 1024 (Zdigits2 q + e) - e)).2 <= 0).
  { pose proof (shr_div (shr_record_of_loc q l) e (fexp 53 1024 (Zdigits2 q + e) - e)) as [_ ->];
      [by rewrite shr_of_loc | rewrite fexp_double; lia]. }
  destruct (shr (shr_record_of_loc q l) e _) as [r1 e1]. cbn [fst snd] in Hm1, He1. clear H1.
  pose proof (rne_bounds (shr_m r1) (loc_of_shr_record r1)) as Hm2. set (m2 := round_nearest_even _ _) in *.
  assert (Hd2 : Zdigits2 m2 <= 54) by (apply digits_le; lia).
  pose proof (shift_fits (shr_record_of_loc m2 loc_Exact) e1 (Zdigits2 m2)) as H2. rewrite shr_of_loc in H2.
  destruct (H2 ltac:(lia) (digits_bound m2 ltac:(lia)) ltac:(lia) ltac:(lia)) as [Hm3 He3]. clear H2.
  destruct (shr (shr_record_of_loc m2 loc_Exact) e1 _) as [r3 e3]. cbn [fst snd] in Hm3, He3.
  destruct (shr_m r3) as [|p|p]; [done| |lia]. rewrite (proj2 (Z.leb_le _ _)) by lia. split; [done|]. lia.
Qed.

Lemma div_round_upper num den : 0 <= num -> 0 < den -> div_round num den <= num + 1.
Proof.
  intros Hn Hd. assert (num / den <= num) by (apply Z.div_le_upper_bound; nia).
  unfold div_round. repeat case_match; lia.
Qed.

(** [1 / rate] of a rate of at least one is a duration *)
Lemma rate_period r : fle (f64_of_Z 1) r = true -> exists ns, from_secs_f64 (f64_div (f64_of_Z 1) r) = Ret ns.
Proof.
  change (f64_of_Z 1) with (S754_finite false 4503599627370496 (-52)). intros Hr.
  destruct r as [s|s| |s m e]; [by destruct s|by destruct s; [|eexists]|done|].
  destruct s; [done|]. assert (He : -52 <= e).
  { unfold fle, SFleb, SFcompare in Hr. destruct (Z.compare_spec (-52) e); [lia|lia|done]. }
  clear Hr. unfold f64_div, SFdiv, SFdiv_core_binary. cbn [xorb].
  set (e' := Z.min _ _). assert (He' : e' <= -52 - e) by (unfold e'; lia). clearbody e'.
  set (m' := match _ with Z0 => _ | Zpos _ => _ | Zneg _ => _ end).
  assert (Hm : m' = 2 ^ (-e - e')).
  { unfold m'. destruct (-52 - e - e') as [|p|p] eqn:E; [|rewrite Z.shiftl_mul_pow2 by lia|lia].
    - replace (- e - e') with 52 by lia. done.
    - rewrite <- E. change 4503599627370496 with (2 ^ 52). rewrite <- Z.pow_add_r by lia. f_equal. lia. }
  clearbody m'. pose proof (Z_div_mod m' (Zpos m) ltac:(lia)) as Hdiv.
  destruct (Z.div_eucl m' (Zpos m)) as [q r]. destruct Hdiv as [Hdiv Hrem].
  pose proof (pow2_pos (- e - e') ltac:(lia)) as Hpos.
  assert (Hq : 0 <= q <= m') by nia.
  assert (Hdq : Zdigits2 q <= - e - e' + 1).
  { apply digits_le; [lia|]. rewrite Z.pow_add_r by lia. lia. }
  pose proof (round_aux_small q e' (new_location (Zpos m) r) ltac:(lia) ltac:(lia) ltac:(lia)) as Hres.
  destruct (binary_round_aux _ _ _ _ _ _) as [s|s| |s p x]; [subst s; by eexists|done|done|].
  destruct Hres as (-> & Hp & Hx). cbn [from_secs_f64].
  assert (Hns : div_round (10 ^ 9 * Zpos p * 2 ^ Z.max x 0) (2 ^ Z.max (- x) 0) < 2 ^ 64 * 10 ^ 9).
  { assert (2 ^ Z.max x 0 <= 2) by (change 2 with (2 ^ 1) at 2; apply Z.pow_le_mono_r; lia).
    pose proof (pow2_pos (Z.max x 0) ltac:(lia)).
    set (a := 10 ^ 9 * Zpos p * 2 ^ Z.max x 0). assert (Ha : 0 <= a < 10 ^ 9 * 2 ^ 54).
    { unfold a. generalize dependent (2 ^ Z.max x 0). intros t Ht1 Ht2.
      assert (Zpos p * t <= Zpos p * 2) by (apply Z.mul_le_mono_nonneg_l; lia). lia. }
    pose proof (div_round_upper a (2 ^ Z.max (- x) 0) ltac:(lia) (pow2_pos (Z.max (- x) 0) ltac:(lia))). lia. }
  rewrite (proj2 (Z.leb_gt _ _) Hns). by eexists.
Qed.

Lemma rate_at_least_one v : fle (f64_of_Z 1) (fmax v (f64_of_Z 1)) = true.
Proof.
  unfold fmax. destruct (is_nan v) eqn:Hn; [done|]. change (is_nan (f64_of_Z 1)) with false. cbn iota.
  destruct (flt v (f64_of_Z 1)) eqn:Hv; [done|]. by apply flt_false_fle.
Qed.


Section Arguments.
Context `{SD : !StrDebug}.

(** whatever is typed, the arguments are read or refused, and what is read makes sense *)
Definition sensible (o : Simulate.Options) : Prop :=
  uint 64 (Simulate.ticks o) /\ fle (f64_of_Z 1) (Simulate.rate_hz o) = true.
Lemma options_ok : forall args o, sensible o ->
  exists r, Simulate.options args o = Ret r /\ match r with Ok o => sensible o | Err _ => True end.
Proof.
  fix IH 1. intros [|a args] o Ho; cbn [Simulate.options]; [by eexists|].
  destruct (decide (a = ascii_bytes "--ticks")); [|destruct (decide (a = ascii_bytes "--rate"));
    [|destruct (decide (a = ascii_bytes "--throttle")); [|destruct (decide (a = ascii_bytes "--roll")); [|by eexists]]]];
    (destruct args as [|s args]; [by eexists|]).
  - destruct (parse_uint 64 s) as [v|] eqn:Ev; [|by eexists]. apply IH. split; [by eapply parse_uint_range | apply Ho].
  - destruct (parse_f64 s); [|by eexists]. apply IH. split; [apply Ho | apply rate_at_least_one].
  - destruct (parse_f32 s); [|by eexists]. rewrite fclamp_eq, ret_bind by done. by apply IH.
  - destruct (parse_f32 s); [by apply IH | by eexists].
Qed.
End Arguments.

(** ** The flight *)

Section Flight.
Context (hypot : f64 -> f64 -> f64) (nan32 nan64 : Z).
Context `{LM : !Libm} `{L32 : !Libm32} (io_text : IoError -> list Z).
Context {Q QE QR QC K W Addr : Type}.
Context `{RQ : !BoundedFifo Q Command} `{RE : !BoundedFifo QE Transition}
  `{RR : !BoundedFifo QR Report.ControllerReport} `{RCan : !BoundedFifo QC CanFrame}.
Context `{HK : !Haptics.HapticSink K} `{UO : !UdpOs W Addr} `{PW : !Pace W} `{UN : !UdpNet W Addr}.
Context `{RC : !Rkyv (Cmd.ControlCommand Z) pb_wf} `{RT : !Rkyv Telemetry.TelemetryPacket pb_wf}.
Context `{TM : !Terminal W} `{SL : !Sleeper W} `{SD : !StrDebug}.

Notation Harness := (PipelineHarness (Q := Q) (QE := QE) (QR := QR) (QC := QC) (K := K) (Addr := Addr)).
Notation inner_ring h := (Scripted.inner (source (ingest h))).

(** the standard streams can be written, and neither a line on the terminal nor a
    pause brings anything new on the way *)
Hypothesis streams : streams_open W.
Hypothesis print_quiet : forall (w : W) s, nothing_new w (stdout_write w s).1.
Hypothesis sleep_quiet : forall (w : W) n, nothing_new w (sleep w n).
Hypothesis pause_quiet : forall (w : W) us, nothing_new w (sleep_us w us).
Hypothesis archive_fits : forall c : Cmd.ControlCommand Z, pb_wf c ->
  exists bs, to_bytes c = Some bs /\ (length bs <= MAX_PAYLOAD)%nat.
Hypothesis small_rings : fifo_min (Q := Q) (A := Command) <= 1024 /\
  fifo_min (Q := QE) (A := Transition) <= Machine.DEFAULT_EVENT_RING /\
  fifo_min (Q := QR) (A := Report.ControllerReport) <= 256 /\ fifo_min (Q := QC) (A := CanFrame) <= 16.
Hypothesis nan_pattern : uint 32 nan32.

(** the world after a line *)
Definition say (w : W) (s : list Z) : W := (stdout_write w (s ++ [10])).1.
Definition complain (w : W) (s : list Z) : W := (stderr_write w (s ++ [10])).1.
Definition say_all (w : W) (ls : list (list Z)) : W := foldl say w ls.

Lemma println_say w s : println w s = Ret (say w s).
Proof. exact (println_open w s streams). Qed.
Lemma eprintln_complain w s : eprintln w s = Ret (complain w s).
Proof. exact (eprintln_open w s streams). Qed.
Lemma print_lines_say ls : forall w, Simulate.print_lines w ls = Ret (say_all w ls).
Proof. induction ls as [|l ls IH]; intros w; cbn [Simulate.print_lines]; [done|]. rewrite println_say, ret_bind. apply IH. Qed.
Lemma say_all_quiet ls : forall w, nothing_new w (say_all w ls).
Proof. induction ls as [|l ls IH]; intros w; cbn [say_all foldl]; [done|]. etrans; [apply print_quiet | apply IH]. Qed.

Lemma ready_quiet past w w' (h : Harness) : nothing_new w w' -> ready nan32 past w h -> ready nan32 past w' h.
Proof. intros Hn R. constructor; try apply R. eapply nothing_new_Forall; [exact Hn | apply R]. Qed.

(** *** What a step leaves alone *)

Lemma recv_rounds_keeps n : forall w (h : Harness) w' h' r, recv_rounds n w h = Ret (w', h', r) ->
  ingest h' = ingest h /\ sim h' = sim h.
Proof.
  induction n as [|n IH]; intros w h w' h' r; cbn [recv_rounds]; [by intros [= _ <- _]|].
  intros ([[[w1 m] b] x] & _ & E)%bind_ret_inv. cbv zeta in E.
  destruct x as [[[i|e]|]|e]; [destruct i| | |]; try (by injection E as _ <- _);
    apply IH in E; exact E.
Qed.

Lemma emit_keeps w (h : Harness) now w' h' r : emit hypot nan32 nan64 w h now = Ret (w', h', r) ->
  ingest h' = ingest h /\ (is_Some (sim h) -> is_Some (sim h')).
Proof.
  unfold emit. intros ([[l n] o] & _ & E)%bind_ret_inv. apply bind_ret_inv in E as ([q safe] & _ & E).
  cbv zeta in E. destruct safe as [s|]; [|by injection E as _ <- _].
  apply bind_ret_inv in E as ([l1 sm] & Es & E).
  assert (Hsm : is_Some (sim h) -> is_Some sm).
  { destruct (sim h); [|by injection Es as _ <-]. apply bind_ret_inv in Es as (s' & _ & Es). by injection Es as _ <-. }
  clear Es. apply bind_ret_inv in E as ([[x buf] r1] & _ & E). destruct r1; [|by injection E as _ <- _].
  apply bind_ret_inv in E as (sl & _ & E). destruct (Sock.send_framed _ _ _ _ _) as [[w1 m] r2].
  by injection E as _ <- _.
Qed.

Lemma route_keeps (h h' : Harness) : route h = Ret h' -> source (ingest h') = source (ingest h) /\ sim h' = sim h.
Proof.
  unfold route. cbv zeta. intros ([[q b] n] & _ & E)%bind_ret_inv. apply bind_ret_inv in E as ([b1 cs] & _ & E).
  apply bind_ret_inv in E as (s & _ & E). apply bind_ret_inv in E as ([b2 ls] & _ & E). by injection E as <-.
Qed.

Lemma recv_one_keeps w (h : Harness) w' h' r : recv_one w h = Ret (w', h', r) -> ingest h' = ingest h /\ sim h' = sim h.
Proof. unfold recv_one. generalize 400%nat. intros n. apply recv_rounds_keeps. Qed.

Lemma run_hot_keeps w (h : Harness) now w' h' r : run_hot hypot nan32 nan64 w h now = Ret (w', h', r) ->
  ingest h' = ingest h /\ (is_Some (sim h) -> is_Some (sim h')).
Proof.
  unfold run_hot. intros ([[w1 h1] r1] & [Ei Em]%emit_keeps & E)%bind_ret_inv.
  destruct r1 as [sent|e]; [|by injection E as _ <- _].
  apply recv_one_keeps in E as [-> ->]. by rewrite Ei.
Qed.

Lemma push_input_keeps (h h' : Harness) c : push_input h c = Ret h' ->
  source (ingest h') = source (ingest h) /\ sim h' = sim h.
Proof. unfold push_input. intros ([q y] & _ & E)%bind_ret_inv. by injection E as <-. Qed.

Lemma step_direct_keeps w (h : Harness) c now w' h' r : step_direct hypot nan32 nan64 w h c now = Ret (w', h', r) ->
  source (ingest h') = source (ingest h) /\ (is_Some (sim h) -> is_Some (sim h')).
Proof.
  unfold step_direct. intros (h1 & [Es1 Em1]%push_input_keeps & E)%bind_ret_inv.
  apply bind_ret_inv in E as (h2 & [Es2 Em2]%route_keeps & E). apply run_hot_keeps in E as [Ei Em].
  rewrite Ei, Es2, Es1. split; [done|]. intros H. apply Em. by rewrite Em2, Em1.
Qed.

(** *** One tick *)

Record flying (past : list Command) (w : W) (h : Harness) (tick : Z) : Prop := {
  fl_ready : ready nan32 past w h;
  fl_empty : fifo_rep (inner_ring h) [];
  fl_room : 1 <= fifo_capacity (inner_ring h);
  fl_sim : is_Some (sim h);
  fl_routed : routed h = wrap 64 tick
}.

Lemma report_returns thr base tick now : exists r, Simulate.report thr base tick now = Ret r.
Proof. unfold Simulate.report. rewrite fclamp_eq, ret_bind by done. by eexists. Qed.

Lemma fly_tick_ok past w h thr base tick : flying past w h tick -> exists w' h' rx cmd out poses,
  Simulate.fly_tick hypot nan32 nan64 w h thr base tick = Ret (w', h', rx) /\
  flying (past ++ [out]) w' h' (tick + 1) /\ grounded h' /\ answered nan32 (past ++ [out]) rx /\ Forall is_pose poses /\
  loop_run hypot (loop_ h) (OpInput cmd :: OpTick (wmul 64 tick Simulate.DT_NS) (system_time_ns w) :: OpTake :: poses) =
    Ret (loop_ h', [out]) /\ Cmd.seq cmd = 0 /\ Cmd.timestamp_ns cmd = wmul 64 tick Simulate.DT_NS /\
  same_ends h h' /\
  forall I, prompt I h -> I w -> idle w h -> rx = Ok (Some (on_wire nan32 out)) /\ I w' /\ idle w' h.
Proof.
  intros [R Hq Hcap Hsim Hr]. unfold Simulate.fly_tick. cbv zeta. set (now := wmul 64 _ _).
  destruct (report_returns thr base tick now) as [r ->]. rewrite ret_bind. unfold feed_report. cbv zeta.
  destruct (fifo_push_ok _ [] r Hq) as (q & -> & Hq1 & Hc1); [simpl; lia|]. rewrite !ret_bind. cbn beta iota.
  match goal with |- context [step _ _ _ w ?x now] => set (h1 := x) end.
  assert (R1 : ready nan32 past w h1) by (by destruct R). assert (Hn : uint 64 now) by (apply wrap_uint; lia).
  destruct (report_is_command hypot nan32 nan64 past w h1 r now R1 Hn Hq1)
    as (h0 & cmd & -> & R0 & El & Hc & Hs & Ht & He0 & Hc0 & Hm0 & Hr0 & Hse).
  destruct (step_direct_ok hypot nan32 nan64 pause_quiet archive_fits past w h0 cmd now nan_pattern R0 Hc Hn)
    as (w' & h' & rx & out & poses & E & R' & Ha & Erun & Hp & _ & Hcnt & Hg & Hsd & Hd).
  destruct (step_direct_keeps _ _ _ _ _ _ _ E) as [Ek Em].
  exists w', h', rx, cmd, out, poses. split; [exact E|]. split.
  { constructor; [done|..]; rewrite ?Ek; [done | rewrite Hc0; cbn; lia | by apply Em; rewrite Hm0|].
    rewrite Hcnt. unfold routed in *. rewrite Hr0. cbn. rewrite Hr. unfold wadd. by rewrite wrap_add_l. }
  rewrite El in Erun. assert (Hse' : same_ends h h0) by exact Hse. destruct Hse' as (S1 & S2 & S3), Hsd as (S4 & S5 & S6).
  split; [done|]. split; [done|]. split; [done|]. split; [done|]. split; [done|]. split; [done|].
  split; [split_and!; congruence|].
  intros I HI Hi Hq'. unfold prompt, idle in *. rewrite <- S2. apply Hd; [by rewrite S1, S2, S3 | done | by rewrite S2].
Qed.

(** *** The whole flight *)

Section Log.
Context (thr base : f32) (frame : Z).

(** [logged w h tick rs outs w' h' failed]: from tick [tick] on, the loop emits the
    commands [outs], the far end answers [rs], and the flight prints a line for every
    answer, under the tick's number and with the count of commands routed and the
    vehicle's pose, never below the ground; [failed]: the error of the socket that
    ended it early. *)
Inductive logged : W -> Harness -> Z -> list (result (option (Cmd.ControlCommand Z)) IoError) -> list Command ->
    W -> Harness -> option IoError -> Prop :=
| logged_nil w h tick : logged w h tick [] [] w h None
| logged_cons w h tick rx rs out outs w1 h1 w' h' failed :
    Simulate.fly_tick hypot nan32 nan64 w h thr base tick = Ret (w1, h1, Ok rx) -> grounded h1 ->
    logged (sleep (say w1 (Simulate.row tick (harness_pose h1) rx (wrap 64 (tick + 1)))) frame)
      h1 (tick + 1) rs outs w' h' failed ->
    logged w h tick (Ok rx :: rs) (out :: outs) w' h' failed
| logged_failed w h tick e out w1 h1 :
    Simulate.fly_tick hypot nan32 nan64 w h thr base tick = Ret (w1, h1, Err e) -> grounded h1 ->
    logged w h tick [Err e] [out] w1 h1 (Some e).

Lemma line_quiet w s : nothing_new w (sleep (say w s) frame).
Proof. etrans; [apply print_quiet | apply sleep_quiet]. Qed.

(** how the loop over the ticks ends *)
Definition fly_end (w : W) (h : Harness) (failed : option IoError) : W * Harness * bool :=
  match failed with None => (w, h, true) | Some e => (complain w (Simulate.step_failure io_text e), h, false) end.

(** neither lines nor pauses lead out of [I] *)
Definition stays (I : W -> Prop) : Prop := (forall w s, I w -> I (stdout_write w s).1) /\ forall w n, I w -> I (sleep w n).

Lemma fly_returns n : forall past w h tick, flying past w h tick -> exists rs outs w' h' failed ops inputs,
  Simulate.fly hypot nan32 nan64 io_text n w h thr base frame tick = Ret (fly_end w' h' failed) /\
  logged w h tick rs outs w' h' failed /\ answers nan32 past outs rs /\
  (length outs <= n)%nat /\ (failed = None -> length outs = n) /\
  flying (past ++ outs) w' h' (tick + Z.of_nat (length outs)) /\
  serves inputs ops /\ inputs.*2 = (fun k => wmul 64 k Simulate.DT_NS) <$> seqZ tick (Z.of_nat (length outs)) /\
  Forall (fun i => Cmd.seq i.1 = 0 /\ Cmd.timestamp_ns i.1 = i.2) inputs /\
  loop_run hypot (loop_ h) ops = Ret (loop_ h', outs) /\ (grounded h \/ (0 < n)%nat -> grounded h') /\
  forall I, prompt I h -> stays I -> I w -> idle w h ->
    failed = None /\ rs = (fun o => Ok (Some (on_wire nan32 o))) <$> outs.
Proof.
  induction n as [|n IH]; intros past w h tick F; cbn [Simulate.fly].
  - exists [], [], w, h, None, [], []. rewrite Z.add_0_r, app_nil_r. split_and!; try done; try constructor; try done. intros [|]; [done|lia].
  - destruct (fly_tick_ok past w h thr base tick F) as (w1 & h1 & rx & cmd & out & poses & E & F1 & Hg & Ha & Hp & Erun & Hs & Ht & He & Hd).
    rewrite E, ret_bind. cbn beta iota zeta. pose proof (fl_routed _ _ _ _ F1) as Hr.
    destruct rx as [rx|e].
    + rewrite println_say, ret_bind. set (w2 := sleep _ frame).
      assert (Hw2 : nothing_new w1 w2) by apply line_quiet.
      assert (F2 : flying (past ++ [out]) w2 h1 (tick + 1)).
      { destruct F1. constructor; try done. by eapply ready_quiet. }
      destruct (IH (past ++ [out]) w2 h1 (tick + 1) F2)
        as (rs & outs & w' & h' & failed & ops & inputs & E' & Hl & Has & Hn & Hn' & F' & Hsv & Hin & Hty & Erun' & Hg' & Hd').
      exists (Ok rx :: rs), (out :: outs), w', h', failed,
        ((OpInput cmd :: OpTick (wmul 64 tick Simulate.DT_NS) (system_time_ns w) :: OpTake :: poses) ++ ops),
        ((cmd, wmul 64 tick Simulate.DT_NS) :: inputs).
      split; [exact E'|]. split; [econstructor; [exact E|exact Hg|]; by rewrite <- Hr|]. split; [by apply answers_cons|].
      cbn [length]. split; [lia|]. split; [intros Hf; by rewrite Hn'|]. split.
      { rewrite <- app_assoc in F'. replace (tick + Z.of_nat (S (length outs))) with (tick + 1 + Z.of_nat (length outs)) by lia. done. }
      split; [by constructor|].
      rewrite seqZ_cons by lia. replace (Z.pred (Z.of_nat (S (length outs)))) with (Z.of_nat (length outs)) by lia.
      cbn [fmap list_fmap fst snd]. rewrite <- Z.add_1_r, Hin. split; [done|]. split; [by constructor|]. split.
      { rewrite loop_run_app, Erun. cbn [mbind exec_bind]. by rewrite Erun'. }
      split; [auto|]. intros I HI HS Hi Hq. destruct (Hd I HI Hi Hq) as (Erx & Hi1 & Hq1). injection Erx as ->.
      destruct (Hd' I) as [-> ->]; [by eapply prompt_same | done | by apply HS, HS | | done].
      unfold idle in *. destruct He as (_ & -> & _). by eapply nothing_new_nil.
    + rewrite eprintln_complain, ret_bind.
      exists [Err e], [out], w1, h1, (Some e), ((OpInput cmd :: OpTick (wmul 64 tick Simulate.DT_NS) (system_time_ns w) :: OpTake :: poses) ++ []),
        [(cmd, wmul 64 tick Simulate.DT_NS)].
      split; [done|]. split; [by constructor|]. split; [apply answers_cons; [done|]; by split|]. cbn [length].
      split; [lia|]. split; [done|]. split; [done|]. split; [constructor; [done | constructor]|].
      split; [done|]. split; [by repeat constructor|]. split.
      { by rewrite app_nil_r. }
      split; [auto|]. intros I HI HS Hi Hq. by destruct (Hd I HI Hi Hq) as (? & _).
Qed.
End Log.

(** a harness just built *)
Lemma build_fresh w at_ w' (h : Harness) : build hypot w at_ = Ret (w', Ok h) ->
  inner_ring h = fifo_with_capacity 256 /\ routed h = 0.
Proof.
  unfold build, build_with. intros (l & _ & E)%bind_ret_inv.
  destruct (Bus.subscribe _) as [b s1]. destruct (Bus.subscribe b) as [b2 s2].
  destruct (Sock.bind_loopback w) as [w1 [t|e]]; [|done].
  destruct (Sock.bind_loopback w1) as [w2 [x|e]]; [|done].
  destruct (Sock.local_addr w2 x) as [d|e]; [|done]. by injection E as _ <-.
Qed.

Lemma built_flying w at_ : at_ mod 16 = 0 -> exists w1 b, build hypot w at_ = Ret (w1, b) /\
  match b with
  | Ok h => flying [] (say_all w1 Simulate.head_lines) (enable_sim h) 0 /\ idle (say_all w1 Simulate.head_lines) h
  | Err _ => True
  end.
Proof.
  intros Ha. destruct (build_ready (Q := Q) (QE := QE) (QR := QR) (QC := QC) (K := K) hypot nan32 small_rings w at_ Ha) as (w1 & b & E & Hb).
  exists w1, b. split; [exact E|]. destruct b as [h|e]; [|done]. destruct Hb as (_ & R & Hi).
  destruct (build_fresh _ _ _ _ E) as [Hin Hr]. destruct small_rings as (_ & _ & HR & _). split.
  - constructor; [|cbn; rewrite Hin; apply fifo_new_rep; lia | cbn; rewrite Hin, fifo_new_cap; done | by eexists | exact Hr].
    eapply ready_quiet; [apply say_all_quiet | exact R].
  - eapply nothing_new_nil; [apply say_all_quiet | exact Hi].
Qed.

(** what flying by the options [o] amounts to, from the harness [h] on: the frame
    time is a duration; the log has a line for each answer of the far end; the safety
    loop emits the commands a bare one emits when it is given a command per tick,
    stamped with the tick's time, and the poses of the simulator; an answer is one of
    those emitted by then, or nothing; after the last tick the final pose is printed.
    A socket that fails ends the flight with its error. *)
Definition flight (o : Simulate.Options) (w1 : W) (h : Harness) (end_ : exec (W * Z)) : Prop :=
  exists frame rs outs w2 (h2 : Harness) failed ops inputs,
    from_secs_f64 (f64_div (f64_of_Z 1) (Simulate.rate_hz o)) = Ret frame /\
    logged (Simulate.throttle o) (Simulate.roll o) frame (say_all w1 Simulate.head_lines) h 0 rs outs w2 h2 failed /\
    answers nan32 [] outs rs /\
    serves inputs ops /\ inputs.*2 = (fun k => wmul 64 k Simulate.DT_NS) <$> seqZ 0 (Z.of_nat (length outs)) /\
    Forall (fun i => Cmd.seq i.1 = 0 /\ Cmd.timestamp_ns i.1 = i.2) inputs /\
    loop_run hypot (loop_ h) ops = Ret (loop_ h2, outs) /\ (0 < Simulate.ticks o -> grounded h2) /\
    match failed with
    | None => length outs = Z.to_nat (Simulate.ticks o) /\
        end_ = Ret (Simulate.drop_harness (say w2 (Simulate.last_line (harness_pose h2) (Simulate.ticks o))) h2, 0)
    | Some e => (length outs <= Z.to_nat (Simulate.ticks o))%nat /\
        end_ = Ret (Simulate.drop_harness (complain w2 (Simulate.step_failure io_text e)) h2, 1)
    end /\
    forall I, prompt I h -> stays I -> I (say_all w1 Simulate.head_lines) ->
      failed = None /\ rs = (fun out => Ok (Some (on_wire nan32 out))) <$> outs.

Notation run := (Simulate.run (Q := Q) (QE := QE) (QR := QR) (QC := QC) (K := K) hypot nan32 nan64 io_text).

Lemma run_flies w at_ args o : at_ mod 16 = 0 -> Simulate.options args Simulate.default_options = Ret (Ok o) -> sensible o ->
  exists w1 b, build hypot w at_ = Ret (w1, b) /\
  match b with
  | Err e => run w at_ args = Ret (complain w1 (Simulate.build_failure io_text e), 1)
  | Ok h => flight o w1 (enable_sim h) (run w at_ args)
  end.
Proof.
  intros Ha Ho [Hn Hr]. destruct (built_flying w at_ Ha) as (w1 & b & E & Hb). exists w1, b. split; [exact E|].
  unfold Simulate.run. rewrite Ho, ret_bind. unfold Simulate.simulate. rewrite E, ret_bind. cbn beta iota zeta.
  destruct b as [h|e]; [|by rewrite eprintln_complain, ret_bind]. destruct Hb as [Hb Hidle].
  destruct (rate_period (Simulate.rate_hz o) Hr) as [frame Ef]. rewrite print_lines_say, ret_bind, Ef, ret_bind.
  destruct (fly_returns (Simulate.throttle o) (Simulate.roll o) frame (Z.to_nat (Simulate.ticks o)) _ _ _ 0 Hb)
    as (rs & outs & w2 & h2 & failed & ops & inputs & E2 & Hl & Has & Hle & Heq & F & Hs & Hi & Hty & Er & Hg & Hd).
  destruct Hn as [Hn0 Hn1]. exists frame, rs, outs, w2, h2, failed, ops, inputs. rewrite E2, ret_bind.
  split; [exact Ef|]. split; [exact Hl|]. split; [exact Has|]. split; [exact Hs|]. split; [exact Hi|]. split; [exact Hty|].
  split; [exact Er|]. split; [intros ?; apply Hg; right; lia|]. split.
  - destruct failed as [e|]; cbn [fly_end negb]; [by split|]. rewrite println_say, ret_bind. split; [by apply Heq|].
    assert (Hc : routed h2 = Simulate.ticks o).
    { rewrite (fl_routed _ _ _ _ F), (Heq eq_refl), Z2Nat.id by lia. by apply wrap_id. }
    by rewrite Hc.
  - intros I HI HS Hi0. by apply (Hd I).
Qed.

Lemma sensible_default : sensible Simulate.default_options.
Proof. by vm_compute. Qed.

(** Whatever is typed, the subcommand ends with code 0 or 1. *)
Lemma run_ends w at_ args : at_ mod 16 = 0 -> exists w' code, run w at_ args = Ret (w', code) /\ (code = 0 \/ code = 1).
Proof.
  intros Ha. destruct (options_ok args _ sensible_default) as (r & Eo & Hr). destruct r as [o|e].
  - destruct (run_flies w at_ args o Ha Eo Hr) as (w1 & [h|e] & _ & Hb); [|eauto].
    destruct Hb as (? & ? & ? & ? & ? & failed & ? & ? & _ & _ & _ & _ & _ & _ & _ & _ & Hb & _).
    destruct failed; destruct Hb as [_ ->]; eauto.
  - unfold Simulate.run. rewrite Eo, ret_bind, eprintln_complain, ret_bind. eauto.
Qed.

(** C18: a simulated flight is what it is shown to be.  Options that were accepted
    make a flight that comes to its end, as long as its lines can be written: no tick
    panics or waits forever, and the duration between two lines is defined for every
    rate.  Each line shows the vehicle's pose, never below the ground, and what came out
    of the far end of the link in that tick: nothing, or a command that the safety loop
    had emitted by then, the loop behaving as a bare one that is given one operator
    command per tick.  If no socket call fails all the ticks asked for are flown and the
    subcommand ends with code 0 after the final pose and the count of ticks; a socket
    that fails, or cannot be had, is reported and ends it with code 1.  If the network
    delivers each datagram at once, no tick fails and each line shows its own tick's
    command. *)
Theorem sim_flies w at_ args o : at_ mod 16 = 0 -> Simulate.options args Simulate.default_options = Ret (Ok o) ->
  exists w1 b, build hypot w at_ = Ret (w1, b) /\
  match b with
  | Err e => run w at_ args = Ret (complain w1 (Simulate.build_failure io_text e), 1)
  | Ok h => flight o w1 (enable_sim h) (run w at_ args)
  end.
Proof.
  intros Ha Ho. apply run_flies; [done..|].
  destruct (options_ok args _ sensible_default) as (r & Eo & Hr). rewrite Ho in Eo. by injection Eo as <-.
Qed.

End Flight.

(** ** A flight *)

Module DemoFlight.

(** the sockets of [DemoNet] behind a terminal; [screen] has the last line first *)
Record desk := { net : list (list (list Z * nat)); screen : list (list Z); naps : list Z }.
Definition on_net {A} (d : desk) (r : list (list (list Z * nat)) * A) : desk * A :=
  ({| net := r.1; screen := screen d; naps := naps d |}, r.2).

#[export] Instance desk_udp : UdpOs desk nat := {|
  udp_bind d a p := on_net d (udp_bind (UdpOs := DemoNet.os) (net d) a p);
  udp_set_nonblocking d s b := on_net d (udp_set_nonblocking (UdpOs := DemoNet.os) (net d) s b);
  udp_close d s := {| net := udp_close (UdpOs := DemoNet.os) (net d) s; screen := screen d; naps := naps d |};
  udp_local_addr d s := udp_local_addr (UdpOs := DemoNet.os) (net d) s;
  udp_send_to d s bs a := on_net d (udp_send_to (UdpOs := DemoNet.os) (net d) s bs a);
  udp_recv_from d s buf := on_net d (udp_recv_from (UdpOs := DemoNet.os) (net d) s buf)
|}.
#[export] Instance desk_terminal : Terminal desk := {
  stdout_write d s := ({| net := net d; screen := s :: screen d; naps := naps d |}, true);
  stderr_write d s := ({| net := net d; screen := s :: screen d; naps := naps d |}, true)
}.
#[export] Instance desk_sleeper : Sleeper desk := { sleep d n := {| net := net d; screen := screen d; naps := n :: naps d |} }.
#[export] Instance desk_pace : Pace desk := {| sleep_us d _ := d; system_time_ns _ := 0 |}.
#[export] Existing Instance quote_debug.
#[export] Existing Instance flat_libm.
#[export] Existing Instance raw_cmd.
#[export] Existing Instance raw_tp.
#[export] Instance flat_libm32 : Libm32 := { f32_sin _ := f_zero; f32_cos _ := f32_of_Z 1 }.

#[refine, export] Instance desk_network : UdpNet desk nat := {| on_way d t := DemoNet.waiting (net d) t |}.
Proof.
  - intros w w' s w'' E1 E2. destruct w, w', w''. cbn in E1, E2. injection E1 as <- _ _ E1. injection E2 as <- _ _.
    refine (bind_law (UdpNet := DemoNet.loopback) _ _ s _ _ eq_refl). cbn. by rewrite E1.
  - intros w s bs a w' r E. cbn [udp_send_to desk_udp] in E. unfold on_net in E.
    destruct (udp_send_to (UdpOs := DemoNet.os) (net w) s bs a) as [n x] eqn:E1. injection E as <- _.
    exact (send_law (UdpNet := DemoNet.loopback) _ _ _ _ _ _ E1).
  - intros w t buf w' r E. cbn [udp_recv_from desk_udp] in E. unfold on_net in E.
    destruct (udp_recv_from (UdpOs := DemoNet.os) (net w) t buf) as [n x] eqn:E1. injection E as <- <-.
    exact (recv_law (UdpNet := DemoNet.loopback) _ _ _ _ _ E1).
Defined.

Definition io_text (e : IoError) : list Z := ascii_bytes "i/o error".
Definition args : list (list Z) := List.map ascii_bytes ["--ticks"; "2"; "--rate"; "nan"; "--throttle"; "0.9"]%string.
Definition opts : Simulate.Options :=
  {| Simulate.ticks := 2; Simulate.rate_hz := f64_of_Z 1; Simulate.throttle := f32_lit 9 10; Simulate.roll := f_zero |}.
Definition desk0 : desk := {| net := []; screen := []; naps := [] |}.

Definition flown : exec (desk * Z) :=
  Simulate.run (Q := Spsc.SpscRing Command) (QE := Spsc.SpscRing Transition) (QR := Spsc.SpscRing Report.ControllerReport)
    (QC := Spsc.SpscRing CanFrame) (K := Haptics.MockHaptics) (Addr := nat) demo_hypot 0 0 io_text desk0 0 args.

Definition seen (m : exec (desk * Z)) : option (list (list Z) * list Z * Z) :=
  match m with Ret (d, c) => Some (rev (screen d), naps d, c) | _ => None end.

End DemoFlight.
Import DemoFlight.

(** two ticks at a rate that is no number: the slew limit of the safety loop lets
    the throttle rise by a hundredth a tick, the vehicle still stands *)
Example flight_seen : DemoFlight.seen DemoFlight.flown =
  Some (List.map (fun l => l ++ [10])
    [ascii_bytes "tpt-teleop simulator " ++ [0x2014] ++ ascii_bytes " Phase-4 drone + safety loop";
     ascii_bytes "tick |    x(m)     y(m)     z(m) | roll_cmd  throttle | routed";
     ascii_bytes "-----+----------------------------------+------------------+-------";
     ascii_bytes "   0 |     0.00     0.00     0.06 |    0.000      0.010 | 1";
     ascii_bytes "   1 |     0.00     0.00     0.06 |    0.000      0.020 | 2";
     10 :: ascii_bytes "final pose: x=0.00 y=0.00 z=0.06  routed=2"], [1000000000; 1000000000], 0).
Proof. vm_compute. reflexivity. Qed.

Lemma args_read : Simulate.options DemoFlight.args Simulate.default_options = Ret (Ok DemoFlight.opts).
Proof. vm_compute. reflexivity. Qed.
Lemma desk_open : streams_open DemoFlight.desk.
Proof. by split. Qed.
Lemma desk_quiet (d : DemoFlight.desk) s n : nothing_new d (stdout_write d s).1 /\ nothing_new d (sleep d n) /\ nothing_new d (sleep_us d n).
Proof. split_and!; by intros t x. Qed.
Lemma ring_minima : fifo_min (Q := Spsc.SpscRing Command) (A := Command) <= 1024 /\
  fifo_min (Q := Spsc.SpscRing Transition) (A := Transition) <= Machine.DEFAULT_EVENT_RING /\
  fifo_min (Q := Spsc.SpscRing Report.ControllerReport) (A := Report.ControllerReport) <= 256 /\
  fifo_min (Q := Spsc.SpscRing CanFrame) (A := CanFrame) <= 16.
Proof. split_and!; by vm_compute. Qed.

Lemma ends_well d c : DemoFlight.flown = Ret (d, c) -> c = 0.
Proof. intros E. pose proof flight_seen as H. rewrite E in H. cbn [DemoFlight.seen] in H. by injection H. Qed.

Lemma sim_flies_witness : exists w1 h, 0 mod 16 = 0 /\
  flight (Q := Spsc.SpscRing Command) (QE := Spsc.SpscRing Transition) (QR := Spsc.SpscRing Report.ControllerReport)
    (QC := Spsc.SpscRing CanFrame) (K := Haptics.MockHaptics) demo_hypot 0 0 DemoFlight.io_text DemoFlight.opts w1 (enable_sim h) DemoFlight.flown.
Proof.
  destruct (sim_flies (Q := Spsc.SpscRing Command) (QE := Spsc.SpscRing Transition) (QR := Spsc.SpscRing Report.ControllerReport)
    (QC := Spsc.SpscRing CanFrame) (K := Haptics.MockHaptics) demo_hypot 0 0 DemoFlight.io_text
    desk_open (fun d s => proj1 (desk_quiet d s 0)) (fun d n => proj1 (proj2 (desk_quiet d [] n)))
    (fun d n => proj2 (proj2 (desk_quiet d [] n))) DemoNet.archive_small ring_minima
    DemoNet.pattern_zero DemoFlight.desk0 0 DemoFlight.args DemoFlight.opts eq_refl args_read) as (w1 & b & _ & Hb).
  destruct b as [h|e]; [exists w1, h; split; [reflexivity | exact Hb]|].
  discriminate (ends_well _ _ Hb).
Defined.
