(* ===== verification/Doctor.v ===== *)
(** * The environment check: [tpt-t-cli/src/doctor.rs]

    What the machine offers is the class [ToolHost] together with the file system
    and the processor count.  [doctor_gates] says what the exit code is worth. *)

From stdpp Require Import strings.
From S2P Require Import Prelude Text CoreProfile Terminal Path Scaffold Fmt.

(** [Command::output] of a program and its arguments: [None] when it cannot be
    started, else whether it succeeded and what it wrote; and the platform's names *)
Class ToolHost (W : Type) := {
  run_program : W -> list Z -> list (list Z) -> W * option (bool * list Z);
  target_os : list Z;
  target_arch : list Z
}.

Module Doctor.

Definition OK : Z := 0.
Definition FAIL : Z := 1.

Record Finding := { name : list Z; ok : bool; critical : bool; detail : list Z }.
Definition pass (name detail : list Z) : Finding := {| name := name; ok := true; critical := true; detail := detail |}.
Definition warn (name detail : list Z) : Finding := {| name := name; ok := false; critical := false; detail := detail |}.
Definition fail (name detail : list Z) : Finding := {| name := name; ok := false; critical := true; detail := detail |}.

Section Doctor.
Context {W E : Type} `{FS : !FileSystem W} `{TM : !Terminal W} `{PO : !PinOs W E} `{TH : !ToolHost W}.

Definition tool_version (w : W) (program : list Z) (args : list (list Z)) : W * list Z :=
  let '(w, o) := run_program w program args in
  let out := '(success, stdout) ← o; if success : bool then from_utf8 stdout else None in
  (w, trim (default [] out)).

(** the walk up from the current directory; the fuel is its depth *)
Fixpoint walk (fuel : nat) (w : W) (dir : list Z) : exec bool :=
  match fuel with
  | O => NoFuel
  | S fuel =>
      if path_exists w (join dir (ascii_bytes "crates/tpt-t-core/Cargo.toml")) then Ret true
      else match parent dir with
           | Some dir => walk fuel w dir
           | None => Ret false
           end
  end.
Definition workspace_ok (w : W) : exec bool :=
  match current_dir w with
  | None => Ret false
  | Some dir => walk (S (length (components dir))) w dir
  end.

(** a tool that must answer, and one that may *)
Definition required (tool answer : list Z) : Finding :=
  match answer with
  | [] => fail tool (tool ++ ascii_bytes " not found on PATH " ++ [0x2014] ++ ascii_bytes " install Rust >= 1.85")
  | _ => pass tool answer
  end.
Definition optional_deny (answer : list Z) : Finding :=
  match answer with
  | [] => warn (ascii_bytes "cargo-deny") (ascii_bytes "not installed " ++ [0x2014] ++
      ascii_bytes " `cargo deny check` license audit unavailable (optional)")
  | _ => pass (ascii_bytes "cargo-deny") answer
  end.
Definition platform : Finding := pass (ascii_bytes "platform") (target_os ++ ascii_bytes " / " ++ target_arch).
Definition cpu_cores (cores : Z) : Finding :=
  pass (ascii_bytes "cpu-cores") (dec cores ++ ascii_bytes " logical cores available for pinning").
Definition workspace (found : bool) : Finding :=
  if found then pass (ascii_bytes "workspace") (ascii_bytes "crates/tpt-t-core located")
  else fail (ascii_bytes "workspace") (ascii_bytes "run doctor from the workspace root (crates/tpt-t-core not found)").

Definition version : list (list Z) := [ascii_bytes "--version"].

Definition collect (w : W) : exec (W * list Finding) :=
  let '(w, rustc) := tool_version w (ascii_bytes "rustc") version in
  let '(w, cargo) := tool_version w (ascii_bytes "cargo") version in
  let cores := core_count w in
  let '(w, deny) := tool_version w (ascii_bytes "cargo-deny") version in
  found ← workspace_ok w;
  Ret (w, [required (ascii_bytes "rustc") rustc; required (ascii_bytes "cargo") cargo; platform; cpu_cores cores;
           optional_deny deny; workspace found]).

Definition mark (f : Finding) : list Z :=
  ascii_bytes (if ok f then "ok" else if critical f then "FAIL" else "warn").
Definition line (f : Finding) : list Z :=
  ascii_bytes "  [" ++ pad_left 4 (mark f) ++ ascii_bytes "] " ++ pad_right 12 (name f) ++ [32] ++ detail f.

(** the loop over the findings: the terminal and whether a critical one failed *)
Fixpoint show (w : W) (critical_fail : bool) (fs : list Finding) : exec (W * bool) :=
  match fs with
  | [] => Ret (w, critical_fail)
  | f :: fs =>
      w ← println w (line f);
      show w (if negb (ok f) && critical f then true else critical_fail) fs
  end.

Definition warnings (fs : list Finding) : Z := Z.of_nat (length (List.filter (fun f => negb (ok f) && negb (critical f)) fs)).
Definition failures (fs : list Finding) : Z := Z.of_nat (length (List.filter (fun f => negb (ok f) && critical f) fs)).
Definition tally (fs : list Finding) : list Z :=
  10 :: dec (wsub 64 (wsub 64 (Z.of_nat (length fs)) (warnings fs)) (failures fs)) ++ ascii_bytes " check(s) passed, " ++
  dec (warnings fs) ++ ascii_bytes " warning(s), " ++ dec (failures fs) ++ ascii_bytes " failure(s)".

Definition run (w : W) : exec (W * Z) :=
  w ← println w (ascii_bytes "tpt-teleop doctor " ++ [0x2014] ++ ascii_bytes " environment check" ++ [10]);
  '(w, findings) ← collect w;
  '(w, critical_fail) ← show w false findings;
  w ← println w (tally findings);
  if (critical_fail : bool) then
    (w ← println w (ascii_bytes "doctor: environment is NOT ready " ++ [0x2014] ++ ascii_bytes " resolve the FAIL items above");
     Ret (w, FAIL))
  else (w ← println w (ascii_bytes "doctor: environment looks ready"); Ret (w, OK)).

End Doctor.
End Doctor.

(** ** What the exit code is worth *)

Section Verdict.
Context {W E : Type} `{FS : !FileSystem W} `{TM : !Terminal W} `{PO : !PinOs W E} `{TH : !ToolHost W}.

(** the check and the scaffolder look for the workspace alike *)
Lemma walk_agrees n (w : W) d :
  Doctor.walk n w d = (r ← Scaffold.walk_up n w d; Ret (match r with Some _ => true | None => false end)).
Proof.
  revert d. induction n as [|n IH]; intros d; [done|]. cbn [Doctor.walk Scaffold.walk_up].
  change (ascii_bytes "crates/tpt-t-core/Cargo.toml") with Scaffold.core_toml.
  destruct (path_exists w _); [done|]. destruct (parent d); [apply IH | done].
Qed.
Lemma workspace_agrees (w : W) :
  Doctor.workspace_ok w = (r ← Scaffold.find_workspace_root w; Ret (match r with Some _ => true | None => false end)).
Proof. unfold Doctor.workspace_ok, Scaffold.find_workspace_root. destruct (current_dir w); [apply walk_agrees | done]. Qed.

(** a tool answers: it runs, succeeds, and prints more than white space *)
Definition answers (w : W) (program : list Z) : bool :=
  negb (bool_decide ((Doctor.tool_version w program Doctor.version).2 = [])).

Lemma required_ok tool answer : Doctor.ok (Doctor.required tool answer) = negb (bool_decide (answer = [])) /\
  Doctor.critical (Doctor.required tool answer) = true.
Proof. by destruct answer. Qed.

Lemma show_verdict fs : streams_open W -> forall (w : W) b, exists w', Doctor.show w b fs =
  Ret (w', b || existsb (fun f => negb (Doctor.ok f) && Doctor.critical f) fs).
Proof.
  intros Hs. induction fs as [|f fs IH]; intros w b; cbn [Doctor.show existsb]; [exists w; by rewrite orb_false_r|].
  rewrite (println_open _ _ Hs), ret_bind.
  destruct (IH (stdout_write w (Doctor.line f ++ [10])).1 (if negb (Doctor.ok f) && Doctor.critical f then true else b)) as (w' & ->).
  exists w'. destruct (negb (Doctor.ok f) && Doctor.critical f), b; done.
Qed.

(** a finding passes, warns or fails, and nothing else *)
Lemma tally_adds_up fs : Z.of_nat (length fs) =
  Z.of_nat (length (List.filter Doctor.ok fs)) + Doctor.warnings fs + Doctor.failures fs.
Proof.
  unfold Doctor.warnings, Doctor.failures. induction fs as [|f fs IH]; [done|]. cbn [List.filter length].
  destruct (Doctor.ok f), (Doctor.critical f); cbn [negb andb length]; lia.
Qed.

(** the machine once the first line is out *)
Definition greeting (w : W) : W :=
  (stdout_write w ((ascii_bytes "tpt-teleop doctor " ++ [0x2014] ++ ascii_bytes " environment check" ++ [10]) ++ [10])).1.
Definition after (w : W) (program : list Z) : W := (Doctor.tool_version w program Doctor.version).1.

(** The environment check is a gate.  As long as its lines can be written it ends; its exit code is 0 exactly if
    the compiler and the build tool answer and the workspace lies on the way up from
    the current directory, the missing licence checker notwithstanding; else it is 1. *)
Theorem doctor_gates w : streams_open W -> (forall w d, current_dir w = Some d -> is_absolute d = true) ->
  let w1 := greeting w in
  let w2 := after w1 (ascii_bytes "rustc") in
  let w3 := after (after w2 (ascii_bytes "cargo")) (ascii_bytes "cargo-deny") in
  exists w' code, Doctor.run w = Ret (w', code) /\ (code = Doctor.OK \/ code = Doctor.FAIL) /\
    (code = Doctor.OK <-> answers w1 (ascii_bytes "rustc") = true /\ answers w2 (ascii_bytes "cargo") = true /\
                          exists root, Scaffold.find_workspace_root w3 = Ret (Some root)).
Proof.
  intros Hs Ha. cbv zeta. unfold Doctor.run, Doctor.collect. cbv zeta. rewrite (println_open _ _ Hs), ret_bind. fold (greeting w).
  unfold answers, after. destruct (Doctor.tool_version (greeting w) _ _) as [w2 rustc]. cbn [fst snd].
  destruct (Doctor.tool_version w2 _ _) as [w3 cargo]. cbn [fst snd].
  destruct (Doctor.tool_version w3 _ _) as [w4 deny]. cbn [fst snd].
  destruct (find_root_ends w4 (Ha w4)) as [r Er]. rewrite workspace_agrees, Er, !ret_bind. cbv beta iota.
  set (fs := [_; _; _; _; _; _]). destruct (show_verdict fs Hs w4 false) as [w5 ->]. rewrite ret_bind. cbv beta iota.
  rewrite (println_open _ _ Hs), ret_bind, !(println_open _ _ Hs), !ret_bind.
  assert (Hv : existsb (fun f => negb (Doctor.ok f) && Doctor.critical f) fs =
    bool_decide (rustc = []) || bool_decide (cargo = []) || match r with Some _ => false | None => true end).
  { unfold fs. cbn [existsb]. destruct (required_ok (ascii_bytes "rustc") rustc) as [-> ->].
    destruct (required_ok (ascii_bytes "cargo") cargo) as [-> ->]. rewrite !negb_involutive, !andb_true_r.
    by destruct deny, r, (bool_decide (rustc = [])), (bool_decide (cargo = [])). }
  rewrite Hv. clearbody fs.
  destruct (bool_decide (rustc = [])), (bool_decide (cargo = [])), r as [root|]; cbn [orb negb];
    do 2 eexists; (split; [reflexivity|]); (split; [by (left + right)|]);
    (split; [intros H; try done; by eauto | intros (H1 & H2 & root' & H3); try done; by injection H3]).
Qed.

End Verdict.

(** ** A machine without the licence checker *)

Module DemoHost.

Record host := { here : list Z; shown : list (list Z) }.
#[export] Instance host_files : FileSystem host := {
  current_dir w := Some (here w);
  path_exists w p := bool_decide (p = ascii_bytes "/ws/crates/tpt-t-core/Cargo.toml");
  create_dir_all w p := (w, Err []);
  write_file_bytes w p b := (w, Err []);
  read_file_bytes w p := Err []
}.
#[export] Instance host_terminal : Terminal host := {
  stdout_write w s := ({| here := here w; shown := s :: shown w |}, true);
  stderr_write w s := ({| here := here w; shown := s :: shown w |}, true)
}.
#[export] Instance host_pin : PinOs host unit := { sysconf_nproc _ := 8; sched_setaffinity w _ := (w, Ok tt) }.
#[export] Instance host_tools : ToolHost host := {
  run_program w p _ := (w, if bool_decide (p = ascii_bytes "cargo-deny") then None else Some (true, p ++ ascii_bytes " 1.85.0" ++ [10]));
  target_os := ascii_bytes "linux"; target_arch := ascii_bytes "x86_64"
}.
Definition at_ (dir : string) : host := {| here := ascii_bytes dir; shown := [] |}.
Definition screen (m : exec (host * Z)) : option (list (list Z) * Z) :=
  match m with Ret (w, c) => Some (rev (shown w), c) | _ => None end.

End DemoHost.
Import DemoHost.

Example doctor_seen : DemoHost.screen (Doctor.run (DemoHost.at_ "/ws/crates")) = Some (map (fun l => l ++ [10])
  [ascii_bytes "tpt-teleop doctor " ++ [0x2014] ++ ascii_bytes " environment check" ++ [10];
   ascii_bytes "  [  ok] rustc        rustc 1.85.0"; ascii_bytes "  [  ok] cargo        cargo 1.85.0";
   ascii_bytes "  [  ok] platform     linux / x86_64"; ascii_bytes "  [  ok] cpu-cores    8 logical cores available for pinning";
   ascii_bytes "  [warn] cargo-deny   not installed " ++ [0x2014] ++ ascii_bytes " `cargo deny check` license audit unavailable (optional)";
   ascii_bytes "  [  ok] workspace    crates/tpt-t-core located"; 10 :: ascii_bytes "5 check(s) passed, 1 warning(s), 0 failure(s)";
   ascii_bytes "doctor: environment looks ready"], 0).
Proof. vm_compute. reflexivity. Qed.
Example doctor_refuses : option_map snd (DemoHost.screen (Doctor.run (DemoHost.at_ "/tmp"))) = Some 1.
Proof. vm_compute. reflexivity. Qed.
