(* ===== verification/Cli.v ===== *)
(** * The command-line tool: [tpt-t-cli/src/main.rs, profile.rs]

    The dispatch of the subcommands of this library, and the one that writes a
    core-pinning profile.  [cli_ends] is about every command line, the arguments as
    the bytes the process gets. *)

From stdpp Require Import gmap strings.
From S2P Require Import Prelude Cast Ring Mode Pool Ser Crc Backpressure Mesh Reliable Text Mux Float FloatText FloatFacts Safety SafetyLoop Hal Input Sim CmdWire MuxSocket Pipeline CoreProfile Terminal Console Path Scaffold Fmt Replay Simulate Doctor.

(** ** [str::parse::<usize>]: the value, or the text of the first error met *)

Fixpoint parse_digits (v : Z) (s : list Z) : result Z (list Z) :=
  match s with
  | [] => Ok v
  | c :: s =>
      if negb (is_digit c) then Err (ascii_bytes "invalid digit found in string")
      else
        let v := 10 * v + (c - 48) in
        if 2 ^ 64 <=? v then Err (ascii_bytes "number too large to fit in target type") else parse_digits v s
  end.
Definition parse_usize (s : list Z) : result Z (list Z) :=
  match s with
  | [] => Err (ascii_bytes "cannot parse integer from empty string")
  | [c] => if (c =? 43) || (c =? 45) then Err (ascii_bytes "invalid digit found in string") else parse_digits 0 [c]
  | c :: s' => parse_digits 0 (if c =? 43 then s' else s)
  end.

Lemma parse_digits_range s : forall v n, 0 <= v -> parse_digits v s = Ok n -> 0 <= n.
Proof.
  induction s as [|c s IH]; intros v n Hv; cbn [parse_digits]; [by intros [= <-]|].
  destruct (is_digit c) eqn:Hc; [|done]. cbn [negb]. unfold is_digit in Hc. zbool.
  destruct (2 ^ 64 <=? _); [done|]. apply IH. lia.
Qed.
Lemma parse_usize_nonneg s n : parse_usize s = Ok n -> 0 <= n.
Proof.
  unfold parse_usize. destruct s as [|c [|d s]]; [done| |].
  - destruct (_ || _); [done|]. by apply parse_digits_range.
  - by apply parse_digits_range.
Qed.

(** ** The profile subcommand *)

Module Profile.

Definition OK : Z := 0.
Definition FAIL : Z := 1.

Section Profile.
Context {W E : Type} `{FS : !FileSystem W} `{TM : !Terminal W} `{PO : !PinOs W E} `{SD : !StrDebug}.

(** the arguments: cores and output, or the error reported *)
Fixpoint options (args : list (list Z)) (cores : option Z) (out : option (list Z))
  : result (option Z * option (list Z)) (list Z) :=
  match args with
  | [] => Ok (cores, out)
  | a :: args =>
      if decide (a = ascii_bytes "--cores") then
        match args with
        | s :: args =>
            match parse_usize s with
            | Ok n => options args (Some n) out
            | Err e => Err (ascii_bytes "error: --cores: " ++ e)
            end
        | [] => Err (ascii_bytes "error: --cores requires a value")
        end
      else if decide (a = ascii_bytes "--out") then
        match args with
        | p :: args => options args cores (Some p)
        | [] => Err (ascii_bytes "error: --out requires a value")
        end
      else match strip_prefix (ascii_bytes "--cores=") a with
      | Some s =>
          match parse_usize s with
          | Ok n => options args (Some n) out
          | Err e => Err (ascii_bytes "error: --cores: " ++ e)
          end
      | None =>
          match strip_prefix (ascii_bytes "--out=") a with
          | Some p => options args cores (Some p)
          | None => Err (ascii_bytes "error: unexpected argument " ++ str_debug a)
          end
      end
  end.

(** the warning about a profile that does not fit the machine *)
Definition check (w : W) (text : list Z) (cores : Z) : exec W :=
  let warn e := eprintln w (ascii_bytes "warning: generated profile is invalid: " ++ e) in
  match parse text with
  | Ok p =>
      r ← validate p cores;
      match r with Ok _ => Ret w | Err e => warn (ValidateError_fmt e) end
  | Err e => warn (ProfileError_fmt e)
  end.

Definition run (w : W) (args : list (list Z)) : exec (W * Z) :=
  match options args None None with
  | Err e => w ← eprintln w e; Ret (w, FAIL)
  | Ok (cores, out) =>
      let cores := match cores with Some n => n | None => Z.max (core_count w) 1 end in
      let text := default_profile_text cores in
      w ← check w text cores;
      match out with
      | Some path =>
          let '(w, r) := write_file_bytes w path (utf8 text) in
          match r with
          | Ok _ =>
              w ← println w (ascii_bytes "wrote core profile to " ++ path ++ ascii_bytes " (" ++ dec cores ++
                             ascii_bytes " cores)");
              Ret (w, OK)
          | Err e => w ← eprintln w (ascii_bytes "error: cannot write " ++ path ++ ascii_bytes ": " ++ e); Ret (w, FAIL)
          end
      | None => w ← println w text; Ret (w, OK)
      end
  end.

End Profile.
End Profile.

(** ** Dispatch *)

Module Cli.

(** [CARGO_PKG_VERSION] *)
Definition VERSION : list Z := ascii_bytes "0.1.0".
Definition usage : list Z :=
  ascii_bytes "tpt-t-cli v" ++ VERSION ++ [32; 0x2014] ++ ascii_bytes " tpt-teleop developer tooling" ++ [10; 10] ++
  ascii_bytes "USAGE:" ++ [10] ++
  ascii_bytes "    tpt-t-cli scaffold <NAME> [--path <DIR>]   Scaffold a new robot crate" ++ [10] ++
  ascii_bytes "    tpt-t-cli deny     [--out <FILE>]          Emit cargo-deny MIT-chain config" ++ [10] ++
  ascii_bytes "    tpt-t-cli profile  [--cores <N>] [--out <FILE>]  Emit a CPU core-pinning profile" ++ [10] ++
  ascii_bytes "    tpt-t-cli replay   <FILE> [--speed <N>] [--kind <K>] [--limit <N>]  Replay an FDR file" ++ [10] ++
  ascii_bytes "    tpt-t-cli console  [--host <ADDR:PORT>] [--attestation <FILE>]  MCP fleet-dispatch console" ++ [10] ++
  ascii_bytes "    tpt-t-cli doctor                              Check toolchain/environment" ++ [10] ++
  ascii_bytes "    tpt-t-cli sim      [--ticks <N>] [--rate <HZ>] [--throttle <F>] [--roll <R>]  Live simulator" ++ [10] ++
  ascii_bytes "    tpt-t-cli help                              Show this message" ++ [10].

Section Cli.
Context (hypot : f64 -> f64 -> f64) (nan32 nan64 : Z).
Context `{LM : !Libm} `{L32 : !Libm32} (io_text : IoError -> list Z).
Context {Q QE QR QC K W Addr E St : Type}.
Context `{RQ : !BoundedFifo Q Command} `{RE : !BoundedFifo QE Transition}
  `{RR : !BoundedFifo QR Report.ControllerReport} `{RCan : !BoundedFifo QC CanFrame}.
Context `{HK : !Haptics.HapticSink K} `{UO : !UdpOs W Addr} `{PW : !Pace W}.
Context `{RC : !Rkyv (Cmd.ControlCommand Z) pb_wf} `{RT : !Rkyv Telemetry.TelemetryPacket pb_wf}.
Context `{FS : !FileSystem W} `{TM : !Terminal W} `{SL : !Sleeper W} `{PO : !PinOs W E} `{TH : !ToolHost W}
  `{OS : !ConsoleOs W St} `{SD : !StrDebug}.

Definition print_usage (w : W) : exec W := println w usage.

(** [lines]: what is typed into the console; [at_]: where a receive buffer is placed *)
Definition run (w : W) (at_ : Z) (lines args : list (list Z)) : exec (W * Z) :=
  match args with
  | [] => w ← print_usage w; Ret (w, 0)
  | a :: args =>
      if decide (a = ascii_bytes "scaffold") then Scaffold.run w args
      else if decide (a = ascii_bytes "deny") then Deny.run w args
      else if decide (a = ascii_bytes "profile") then Profile.run w args
      else if decide (a = ascii_bytes "replay") then Replay.run w args
      else if decide (a = ascii_bytes "console") then Console.run w args lines
      else if decide (a = ascii_bytes "doctor") then Doctor.run w
      else if decide (a = ascii_bytes "sim") then
        Simulate.run (Q := Q) (QE := QE) (QR := QR) (QC := QC) (K := K) hypot nan32 nan64 io_text w at_ args
      else if decide (a = ascii_bytes "help" \/ a = ascii_bytes "-h" \/ a = ascii_bytes "--help") then
        (w ← print_usage w; Ret (w, 0))
      else
        (w ← eprintln w (ascii_bytes "error: unknown subcommand " ++ str_debug a); w ← print_usage w; Ret (w, 1))
  end.

(** [std::env::args]: an argument that is no UTF-8 panics when it is reached *)
Fixpoint env_args (argv : list (list Z)) : exec (list (list Z)) :=
  match argv with
  | [] => Ret []
  | a :: argv =>
      match from_utf8 a with
      | Some s => args ← env_args argv; Ret (s :: args)
      | None => Panic
      end
  end.

(** [argv]: the program's name and its arguments, in bytes *)
Definition main (w : W) (at_ : Z) (lines argv : list (list Z)) : exec (W * Z) :=
  args ← env_args argv;
  run w at_ lines (drop 1 args).

End Cli.
End Cli.

(** ** Every command line ends *)

(** [m] ends with an exit code *)
Definition ends {W} (m : exec (W * Z)) : Prop := exists w code, m = Ret (w, code) /\ (code = 0 \/ code = 1).

Lemma ends_now {W} (w : W) code : code = 0 \/ code = 1 -> ends (Ret (w, code)).
Proof. intros. by exists w, code. Qed.
#[export] Hint Resolve ends_now : teleop.

Section Ends.
Context {W E St : Type} `{FS : !FileSystem W} `{TM : !Terminal W} `{SL : !Sleeper W} `{PO : !PinOs W E} `{TH : !ToolHost W}
  `{OS : !ConsoleOs W St} `{SD : !StrDebug}.
Hypothesis streams : streams_open W.
Hypothesis cwd_absolute : forall (w : W) d, current_dir w = Some d -> is_absolute d = true.

(** a line and an exit code *)
Lemma println_ends (w : W) s code : code = 0 \/ code = 1 -> ends (w ← println w s; Ret (w, code)).
Proof. intros. printing streams. auto with teleop. Qed.
Lemma eprintln_ends (w : W) s code : code = 0 \/ code = 1 -> ends (w ← eprintln w s; Ret (w, code)).
Proof. intros. printing streams. auto with teleop. Qed.
#[local] Hint Resolve println_ends eprintln_ends : teleop.

Lemma scaffold_ends (w : W) args : ends (Scaffold.run w args).
Proof.
  unfold Scaffold.run. destruct (Scaffold.options args None None) as [[[name|] path]|e]; auto with teleop.
  destruct (forallb _ name); cbn [negb]; auto with teleop. cbv zeta. set (dir := match path with Some _ => _ | None => _ end).
  unfold Scaffold.scaffold. cbv zeta. destruct (path_exists w _); [rewrite ret_bind; auto with teleop|].
  destruct (find_root_ends w (cwd_absolute w)) as [r ->]. rewrite ret_bind.
  destruct (create_dir_all w _) as [w1 [?|e]]; [|rewrite ret_bind; auto with teleop].
  destruct (Scaffold.write_file w1 _ _) as [w2 [?|e]]; [|rewrite ret_bind; auto with teleop].
  destruct (Scaffold.write_file w2 _ _) as [w3 [?|e]]; [|rewrite ret_bind; auto with teleop].
  destruct (Scaffold.write_file w3 _ _) as [w4 [?|e]]; rewrite ret_bind; auto with teleop.
Qed.

Lemma deny_ends (w : W) args : ends (Deny.run w args).
Proof.
  unfold Deny.run. destruct (Deny.options args None); auto with teleop. cbv zeta.
  destruct (write_file_bytes w _ _) as [w1 [?|e]]; auto with teleop.
Qed.

Lemma profile_cores args : forall cores out c o, Profile.options args cores out = Ok (c, o) ->
  (forall n, cores = Some n -> 0 <= n) -> forall n, c = Some n -> 0 <= n.
Proof.
  revert args. fix IH 1. intros [|a args] cores out c o; cbn [Profile.options]; [by intros [= <- _]|].
  destruct (decide (a = ascii_bytes "--cores")).
  - destruct args as [|s args]; [done|]. destruct (parse_usize s) as [n|?] eqn:Es; [|done].
    intros H _. eapply IH; [exact H|]. intros ? [= <-]. by eapply parse_usize_nonneg.
  - destruct (decide (a = ascii_bytes "--out")); [destruct args as [|p args]; [done|]; apply IH|].
    destruct (strip_prefix _ a) as [s|].
    + destruct (parse_usize s) as [n'|?] eqn:Es; [|done].
      intros H _. eapply IH; [exact H|]. intros ? [= <-]. by eapply parse_usize_nonneg.
    + destruct (strip_prefix _ a); [apply IH | done].
Qed.

Lemma profile_ends (w : W) args : ends (Profile.run w args).
Proof.
  unfold Profile.run. destruct (Profile.options args None None) as [[cores out]|e] eqn:Eo; auto with teleop. cbv zeta.
  set (n := match cores with Some n => n | None => _ end).
  assert (Hn : 0 <= n).
  { unfold n. destruct cores as [c|]; [|lia]. by apply (profile_cores _ _ _ _ _ Eo). }
  assert (Hc : exists w1, Profile.check w (default_profile_text n) n = Ret w1).
  { unfold Profile.check. cbv zeta. destruct (parse _) as [p|e] eqn:Ep.
    - destruct (validate_exact p n Hn (parse_ok _ _ Ep)) as (r & -> & _). rewrite ret_bind.
      destruct r; [eauto | rewrite (eprintln_open _ _ streams); eauto].
    - rewrite (eprintln_open _ _ streams). eauto. }
  destruct Hc as [w1 ->]. rewrite ret_bind. destruct out as [path|]; auto with teleop.
  destruct (write_file_bytes w1 _ _) as [w2 [?|e]]; auto with teleop.
Qed.

Lemma doctor_ends (w : W) : ends (Doctor.run w).
Proof. destruct (doctor_gates w streams cwd_absolute) as (w' & c & -> & Hc & _). by apply ends_now. Qed.

(** the default profile of a machine with 1 to 4103 cores passes without a warning *)
Lemma profile_unwarned (w : W) n : 1 <= n <= 4103 -> Profile.check w (default_profile_text n) n = Ret w.
Proof. intros Hn. destruct (default_profile_valid n Hn) as (p & Ep & Ev & _). unfold Profile.check. by rewrite Ep, Ev. Qed.

End Ends.

Section EveryLine.
Context (hypot : f64 -> f64 -> f64) (nan32 nan64 : Z).
Context `{LM : !Libm} `{L32 : !Libm32} (io_text : IoError -> list Z).
Context {Q QE QR QC K W Addr E St : Type}.
Context `{RQ : !BoundedFifo Q Command} `{RE : !BoundedFifo QE Transition}
  `{RR : !BoundedFifo QR Report.ControllerReport} `{RCan : !BoundedFifo QC CanFrame}.
Context `{HK : !Haptics.HapticSink K} `{UO : !UdpOs W Addr} `{PW : !Pace W} `{UN : !UdpNet W Addr}.
Context `{RC : !Rkyv (Cmd.ControlCommand Z) pb_wf} `{RT : !Rkyv Telemetry.TelemetryPacket pb_wf}.
Context `{FS : !FileSystem W} `{TM : !Terminal W} `{SL : !Sleeper W} `{PO : !PinOs W E} `{TH : !ToolHost W}
  `{OS : !ConsoleOs W St} `{SD : !StrDebug}.
Hypothesis cwd_absolute : forall (w : W) d, current_dir w = Some d -> is_absolute d = true.
(** the standard streams can be written; neither a line nor a pause brings a datagram *)
Hypothesis streams : streams_open W.
Hypothesis print_quiet : forall (w : W) s, nothing_new w (stdout_write w s).1.
Hypothesis sleep_quiet : forall (w : W) n, nothing_new w (sleep w n).
Hypothesis pause_quiet : forall (w : W) us, nothing_new w (sleep_us w us).
Hypothesis archive_fits : forall c : Cmd.ControlCommand Z, pb_wf c ->
  exists bs, to_bytes c = Some bs /\ (length bs <= MAX_PAYLOAD)%nat.
Hypothesis small_rings : fifo_min (Q := Q) (A := Command) <= 1024 /\
  fifo_min (Q := QE) (A := Transition) <= Machine.DEFAULT_EVENT_RING /\
  fifo_min (Q := QR) (A := Report.ControllerReport) <= 256 /\ fifo_min (Q := QC) (A := CanFrame) <= 16.
Hypothesis nan_pattern : uint 32 nan32.

Notation run := (Cli.run (Q := Q) (QE := QE) (QR := QR) (QC := QC) (K := K) hypot nan32 nan64 io_text).
Notation main := (Cli.main (Q := Q) (QE := QE) (QR := QR) (QC := QC) (K := K) hypot nan32 nan64 io_text).

Lemma run_every_line (w : W) at_ lines args : at_ mod 16 = 0 -> head args <> Some (ascii_bytes "replay") ->
  ends (run w at_ lines args).
Proof.
  intros Ha Hr. destruct args as [|a args]; cbn [Cli.run]; [by apply println_ends; [|left]|]. cbn [head] in Hr.
  destruct (decide _); [by apply (scaffold_ends streams cwd_absolute)|]. destruct (decide _); [by apply deny_ends|].
  destruct (decide _); [by apply profile_ends|]. destruct (decide _); [congruence|].
  destruct (decide _); [by apply console_ends|]. destruct (decide _); [by apply (doctor_ends streams cwd_absolute)|].
  destruct (decide _).
  { by apply (run_ends hypot nan32 nan64 io_text streams print_quiet sleep_quiet pause_quiet archive_fits small_rings nan_pattern). }
  destruct (decide _); [by apply println_ends; [|left]|]. printing streams. apply println_ends; [done | by right].
Qed.

Definition unicode (s : list Z) : bool := bool_decide (is_Some (from_utf8 s)).

Lemma env_args_spec argv :
  if forallb unicode argv then exists args, Cli.env_args argv = Ret args /\ forall k : nat, args !! k = (argv !! k ≫= from_utf8)
  else Cli.env_args argv = Panic.
Proof.
  induction argv as [|a argv IH]; cbn [forallb Cli.env_args]; [by exists []|]. unfold unicode at 1.
  destruct (from_utf8 a) as [s|] eqn:Ea; [|by rewrite bool_decide_false by (by intros [])].
  rewrite bool_decide_true by done. cbn [andb]. destruct (forallb unicode argv); [|by rewrite IH].
  destruct IH as (args & -> & Hl). exists (s :: args). split; [done|]. intros [|k]; [by cbn; rewrite Ea|]. apply Hl.
Qed.


End EveryLine.

(** ** A machine *)

Import DemoFlight.
Module DemoMachine.

#[export] Instance desk_files : FileSystem desk := {
  current_dir w := Some (ascii_bytes "/ws");
  path_exists w p := bool_decide (p = ascii_bytes "/ws/crates/tpt-t-core/Cargo.toml");
  create_dir_all w p := (w, Ok tt);
  write_file_bytes w p b := (w, Err (ascii_bytes "disk full"));
  read_file_bytes w p := Err (ascii_bytes "no such file")
}.
#[export] Instance desk_pin : PinOs desk unit := { sysconf_nproc _ := 8; sched_setaffinity w _ := (w, Ok tt) }.
#[export] Instance desk_tools : ToolHost desk := {
  run_program w p _ := (w, Some (true, p)); target_os := ascii_bytes "linux"; target_arch := ascii_bytes "x86_64"
}.
#[export] Instance desk_console : ConsoleOs desk nat := {
  tcp_connect w _ := (w, Err (ascii_bytes "refused"));
  client_write_all w _ _ := (w, Ok tt); client_flush w _ := (w, Ok tt); client_read_to_end w _ := (w, Ok []);
  read_to_string w _ := (w, Err (ascii_bytes "no such file")); stdout_flush w := (w, true)
}.

Definition tool (args lines : list string) : exec (desk * Z) :=
  Cli.main (Q := Spsc.SpscRing Command) (QE := Spsc.SpscRing Transition) (QR := Spsc.SpscRing Report.ControllerReport)
    (QC := Spsc.SpscRing CanFrame) (K := Haptics.MockHaptics) (Addr := nat) demo_hypot 0 0 DemoFlight.io_text desk0 0
    (ascii_bytes <$> lines) (ascii_bytes "tpt-t-cli" :: (ascii_bytes <$> args)).
Definition said (m : exec (desk * Z)) : option (list string * Z) :=
  match m with Ret (d, c) => Some (string_of <$> rev (screen d), c) | _ => None end.

End DemoMachine.
Import DemoMachine.

Example tool_answers :
  DemoMachine.said (DemoMachine.tool ["profile"; "--cores"; "99999999999999999999x"] []) =
    Some (["error: --cores: number too large to fit in target type" +:+ string_of [10]], 1) /\
  DemoMachine.said (DemoMachine.tool ["scaffold"; "rover"] []) =
    Some (["error: scaffold failed: cannot write /ws/rover/Cargo.toml: disk full" +:+ string_of [10]], 1) /\
  DemoMachine.said (DemoMachine.tool ["console"; "--host"] ["quit"]) =
    Some (["error: --host requires an address" +:+ string_of [10]], 1) /\
  option_map snd (DemoMachine.said (DemoMachine.tool ["fly"] [])) = Some 1 /\
  option_map snd (DemoMachine.said (DemoMachine.tool [] [])) = Some 0.
Proof. vm_compute. split_and!; reflexivity. Qed.

(** the byte 255 is no UTF-8 *)
Example bad_argument_panics :
  Cli.main (Q := Spsc.SpscRing Command) (QE := Spsc.SpscRing Transition) (QR := Spsc.SpscRing Report.ControllerReport)
    (QC := Spsc.SpscRing CanFrame) (K := Haptics.MockHaptics) (Addr := nat) demo_hypot 0 0 DemoFlight.io_text desk0 0
    [] [ascii_bytes "tpt-t-cli"; ascii_bytes "help"; [255]] = Panic.
Proof. vm_compute. reflexivity. Qed.

