(* ===== verification/EventLoop.v ===== *)
(** * Event loops: [tpt-t-core/src/eventloop/]

    The trait and its three backends: epoll, kqueue and I/O completion ports.  The
    kernels are the classes [EpollOs], [KqueueOs] and [IocpOs]; [EpollLaws] and
    [KqueueLaws] state what the two Unix ones document.  [events_are_watched] is about
    [EpollLoop] and [kqueue_events_are_watched] about [KqueueLoop]; what their proofs
    share is the class [Watcher], which both implement. *)

From stdpp Require Import gmap strings.
From S2P Require Import Prelude Text.

(** ** The trait (mod.rs) *)

Module Ready.
Definition EMPTY : Z := 0.
Definition READ : Z := 1.
Definition WRITE : Z := 2.
Definition ERROR : Z := 4.
Definition intersects (a b : Z) : bool := negb (Z.land a b =? 0).
Definition contains (a b : Z) : bool := Z.land a b =? b.
Definition bitor (a b : Z) : Z := Z.lor a b.
End Ready.
Import Ready.

(** a file descriptor, or a handle as its address *)
Inductive Target := Fd (fd : Z) | Handle (h : Z).
Definition handle_raw (h : Z) : Target := Handle h.

(** what a system call fails with *)
Inductive SysError := Interrupted | WaitTimeout | Errno (n : Z).
Inductive LoopError := Unsupported (text : list Z) | Sys (e : SysError).

(** [f]: the handler's [ready]; the events of a dispatch are fed to it in order *)
Definition feed {H : Type} (f : H -> Z -> Z -> H) (h : H) (evs : list (Z * Z)) : H :=
  foldl (fun h ev => f h ev.1 ev.2) h evs.

(** the order in which a hash map is walked: some order *)
Class HashOrder := {
  hash_iter {A : Type} : gmap Z A -> list (Z * A);
  hash_iter_perm {A : Type} (m : gmap Z A) : hash_iter m ≡ₚ map_to_list m
}.

Section Find.
Context `{HO : !HashOrder} {A : Type}.

(** [regs.iter().find(|(_, (f, _))| *f == fd).map(|(t, _)| *t)] *)
Definition token_of (regs : gmap Z (Z * A)) (fd : Z) : option Z :=
  fst <$> List.find (fun kv => kv.2.1 =? fd) (hash_iter regs).

Lemma token_of_some regs fd t : token_of regs fd = Some t -> exists x, regs !! t = Some (fd, x).
Proof.
  unfold token_of. destruct (List.find _ _) as [[t' [f x]]|] eqn:E; [|done]. intros [= ->].
  apply List.find_some in E as [Hin Hf]. cbn in Hf. apply Z.eqb_eq in Hf as ->. exists x.
  apply elem_of_map_to_list. rewrite <- hash_iter_perm. by apply list_elem_of_In.
Qed.
Lemma token_of_none regs fd t x : token_of regs fd = None -> regs !! t <> Some (fd, x).
Proof.
  unfold token_of. destruct (List.find _ _) eqn:E; [done|]. intros _ H.
  apply elem_of_map_to_list in H. rewrite <- hash_iter_perm in H. apply list_elem_of_In in H.
  apply (List.find_none _ _ E) in H. cbn in H. by rewrite Z.eqb_refl in H.
Qed.
End Find.

(** ** epoll (linux.rs) *)

(** [epoll_event] as the pair of its bits and its token; a wait of [-1] has no limit *)
Class EpollOs (W : Type) := {
  epoll_create1 : W -> W * result Z SysError;
  epoll_ctl_add : W -> Z -> Z -> Z * Z -> W * result unit SysError;
  epoll_ctl_del : W -> Z -> Z -> W * result unit SysError;
  epoll_wait : W -> Z -> Z -> Z -> W * result (list (Z * Z)) SysError;
  close_epoll : W -> Z -> W
}.

Module Epoll.

Definition EPOLLIN : Z := 0x001.
Definition EPOLLOUT : Z := 0x004.
Definition EPOLLERR : Z := 0x008.
Definition EPOLLHUP : Z := 0x010.
Definition EPOLLET : Z := Z.shiftl 1 31.

Definition to_epoll_mask (interest : Z) : Z :=
  let m := Z.lor (Z.lor EPOLLERR EPOLLHUP) EPOLLET in
  let m := if intersects interest READ then Z.lor m EPOLLIN else m in
  if intersects interest WRITE then Z.lor m EPOLLOUT else m.

(** [regs]: token to descriptor and mask *)
Record EpollLoop := { epfd : Z; regs : gmap Z (Z * Z) }.

Definition to_ready (events : Z) : Z :=
  let r := EMPTY in
  let r := if Z.land events EPOLLIN =? 0 then r else bitor r READ in
  let r := if Z.land events EPOLLOUT =? 0 then r else bitor r WRITE in
  if Z.land events (Z.lor EPOLLERR EPOLLHUP) =? 0 then r else bitor r ERROR.

(** the timeout, in nanoseconds, as the milliseconds of [epoll_wait] *)
Definition millis (timeout : option Z) : Z :=
  match timeout with Some d => Z.min (d / 1000000) (2 ^ 31 - 1) | None => -1 end.

Section Epoll.
Context `{HO : !HashOrder} {W : Type} `{OS : !EpollOs W}.

Definition new (w : W) : W * result EpollLoop SysError :=
  let '(w, r) := epoll_create1 w in
  (w, match r with Ok fd => Ok {| epfd := fd; regs := ∅ |} | Err e => Err e end).

Definition drop (w : W) (l : EpollLoop) : W := close_epoll w (epfd l).

Definition register (w : W) (l : EpollLoop) (target : Target) (token interest : Z)
  : W * EpollLoop * result unit LoopError :=
  match target with
  | Handle _ => (w, l, Err (Unsupported (ascii_bytes "handles are Windows-only")))
  | Fd fd =>
      let mask := to_epoll_mask interest in
      let '(w, r) := epoll_ctl_add w (epfd l) fd (mask, token) in
      match r with
      | Err e => (w, l, Err (Sys e))
      | Ok _ => (w, {| epfd := epfd l; regs := <[token := (fd, mask)]> (regs l) |}, Ok tt)
      end
  end.

Definition unregister (w : W) (l : EpollLoop) (target : Target) : W * EpollLoop * result unit LoopError :=
  match target with
  | Handle _ => (w, l, Ok tt)
  | Fd fd =>
      match token_of (regs l) fd with
      | None => (w, l, Ok tt)
      | Some token =>
          let l := {| epfd := epfd l; regs := delete token (regs l) |} in
          let '(w, r) := epoll_ctl_del w (epfd l) fd in
          (w, l, match r with Err e => Err (Sys e) | Ok _ => Ok tt end)
      end
  end.

Definition dispatch {H : Type} (f : H -> Z -> Z -> H) (w : W) (l : EpollLoop) (timeout : option Z) (h : H)
  : W * H * result Z LoopError :=
  let '(w, r) := epoll_wait w (epfd l) 256 (millis timeout) in
  match r with
  | Err Interrupted => (w, h, Ok 0)
  | Err e => (w, h, Err (Sys e))
  | Ok evs => (w, feed f h ((fun ev => (ev.2, to_ready ev.1)) <$> evs), Ok (Z.of_nat (length evs)))
  end.

End Epoll.
End Epoll.
Import Epoll (EpollLoop).

(** ** kqueue (macos.rs) *)

Record Kevent := { ident : Z; filter : Z; flags : Z; udata : Z }.

Class KqueueOs (W : Type) := {
  kqueue : W -> W * result Z SysError;
  (** one change, no events *)
  kevent_change : W -> Z -> Kevent -> W * result unit SysError;
  (** no change, so many events, a wait in seconds and nanoseconds *)
  kevent_wait : W -> Z -> Z -> option (Z * Z) -> W * result (list Kevent) SysError;
  close_kqueue : W -> Z -> W
}.

Module Kqueue.

Definition EV_ADD : Z := 0x0001.
Definition EV_DELETE : Z := 0x0002.
Definition EV_ENABLE : Z := 0x0004.
Definition EV_CLEAR : Z := 0x0020.
Definition EV_EOF : Z := 0x8000.
Definition EV_ERROR : Z := 0x4000.
Definition EVFILT_READ : Z := -1.
Definition EVFILT_WRITE : Z := -2.
Definition ADD : Z := Z.lor (Z.lor EV_ADD EV_ENABLE) EV_CLEAR.

Record KqueueLoop := { kq : Z; regs : gmap Z (Z * list Z) }.

Definition filters_of (interest : Z) : list Z :=
  (if intersects interest READ then [EVFILT_READ] else []) ++
  (if intersects interest WRITE then [EVFILT_WRITE] else []).

Definition to_ready (ev : Kevent) : Z :=
  let r := EMPTY in
  let r := if Z.land (flags ev) (Z.lor EV_ERROR EV_EOF) =? 0 then r else bitor r ERROR in
  if filter ev =? EVFILT_READ then bitor r READ
  else if filter ev =? EVFILT_WRITE then bitor r WRITE
  else r.

Definition timespec (timeout : option Z) : option (Z * Z) :=
  (fun d => (to_signed 64 (d / 1000000000), d mod 1000000000)) <$> timeout.

Section Kqueue.
Context `{HO : !HashOrder} {W : Type} `{OS : !KqueueOs W}.

Definition new (w : W) : W * result KqueueLoop SysError :=
  let '(w, r) := kqueue w in
  (w, match r with Ok fd => Ok {| kq := fd; regs := ∅ |} | Err e => Err e end).

Definition drop (w : W) (l : KqueueLoop) : W := close_kqueue w (kq l).

(** the loop over the filters, left at the first failure *)
Fixpoint add_filters (w : W) (k fd token : Z) (fs : list Z) : W * result unit SysError :=
  match fs with
  | [] => (w, Ok tt)
  | filter :: fs =>
      let '(w, r) := kevent_change w k {| ident := fd; filter := filter; flags := ADD; udata := token |} in
      match r with Err e => (w, Err e) | Ok _ => add_filters w k fd token fs end
  end.

Definition arm (w : W) (l : KqueueLoop) (fd token interest : Z) : W * KqueueLoop * result unit LoopError :=
  let filters := filters_of interest in
  let '(w, r) := add_filters w (kq l) fd token filters in
  match r with
  | Err e => (w, l, Err (Sys e))
  | Ok _ => (w, {| kq := kq l; regs := <[token := (fd, filters)]> (regs l) |}, Ok tt)
  end.

Fixpoint delete_filters (w : W) (k fd : Z) (fs : list Z) : W :=
  match fs with
  | [] => w
  | filter :: fs =>
      let '(w, _) := kevent_change w k {| ident := fd; filter := filter; flags := EV_DELETE; udata := 0 |} in
      delete_filters w k fd fs
  end.

Definition disarm_fd (w : W) (l : KqueueLoop) (fd : Z) : W * KqueueLoop * result unit LoopError :=
  match token_of (regs l) fd with
  | None => (w, l, Ok tt)
  | Some token =>
      let filters := match regs l !! token with Some (_, fs) => fs | None => [] end in
      let l := {| kq := kq l; regs := delete token (regs l) |} in
      (delete_filters w (kq l) fd filters, l, Ok tt)
  end.

Definition register (w : W) (l : KqueueLoop) (target : Target) (token interest : Z)
  : W * KqueueLoop * result unit LoopError :=
  match target with
  | Handle _ => (w, l, Err (Unsupported (ascii_bytes "handles are Windows-only")))
  | Fd fd => arm w l fd token interest
  end.

Definition unregister (w : W) (l : KqueueLoop) (target : Target) : W * KqueueLoop * result unit LoopError :=
  match target with Fd fd => disarm_fd w l fd | Handle _ => (w, l, Ok tt) end.

Definition dispatch {H : Type} (f : H -> Z -> Z -> H) (w : W) (l : KqueueLoop) (timeout : option Z) (h : H)
  : W * H * result Z LoopError :=
  let '(w, r) := kevent_wait w (kq l) 256 (timespec timeout) in
  match r with
  | Err Interrupted => (w, h, Ok 0)
  | Err e => (w, h, Err (Sys e))
  | Ok evs => (w, feed f h ((fun ev => (udata ev, to_ready ev)) <$> evs), Ok (Z.of_nat (length evs)))
  end.

End Kqueue.
End Kqueue.
Import Kqueue (KqueueLoop).

(** ** I/O completion ports (windows.rs) *)

Class IocpOs (W : Type) := {
  create_port : W -> W * result Z SysError;
  associate : W -> Z -> Z -> Z -> W * result unit SysError;
  post_status : W -> Z -> Z -> W * result unit SysError;
  (** the key of a completion; a wait of [2^32 - 1] has no limit *)
  get_status : W -> Z -> Z -> W * result Z SysError
}.

Module Iocp.

Record IocpLoop := { port : Z; registered : gset Z }.

Section Iocp.
Context {W : Type} `{OS : !IocpOs W}.

Definition new (w : W) : W * result IocpLoop SysError :=
  let '(w, r) := create_port w in
  (w, match r with Ok p => Ok {| port := p; registered := ∅ |} | Err e => Err e end).

Definition post_wakeup (w : W) (l : IocpLoop) (token : Z) : W * result unit SysError := post_status w (port l) token.

Definition register (w : W) (l : IocpLoop) (target : Target) (token interest : Z)
  : W * IocpLoop * result unit LoopError :=
  match target with
  | Fd _ => (w, l, Err (Unsupported (ascii_bytes "fds are Unix-only")))
  | Handle h =>
      let '(w, r) := associate w h (port l) token in
      match r with
      | Err e => (w, l, Err (Sys e))
      | Ok _ => (w, {| port := port l; registered := {[h]} ∪ registered l |}, Ok tt)
      end
  end.

Definition unregister (w : W) (l : IocpLoop) (target : Target) : W * IocpLoop * result unit LoopError :=
  (w, match target with Handle h => {| port := port l; registered := registered l ∖ {[h]} |} | Fd _ => l end, Ok tt).

Definition millis (timeout : option Z) : Z :=
  match timeout with Some d => Z.min (d / 1000000) (2 ^ 32 - 1) | None => 2 ^ 32 - 1 end.

Definition dispatch {H : Type} (f : H -> Z -> Z -> H) (w : W) (l : IocpLoop) (timeout : option Z) (h : H)
  : W * H * result Z LoopError :=
  let '(w, r) := get_status w (port l) (millis timeout) in
  match r with
  | Err WaitTimeout => (w, h, Ok 0)
  | Err e => (w, h, Err (Sys e))
  | Ok key => (w, f h key (bitor READ WRITE), Ok 1)
  end.

End Iocp.
End Iocp.

(** ** What a loop promises

    [watching]: the token a descriptor is watched under, and whether for reading and
    for writing; [kernel_events]: what the kernel answers to a wait, each event as
    its token and whether it is readable, writable and in error. *)

Definition reads_writes (i : Z) : bool * bool := (intersects i READ, intersects i WRITE).
(** what a handler is told of an event *)
Definition told (ev : Z * Z) : Z * (bool * bool * bool) :=
  (ev.1, (intersects ev.2 READ, intersects ev.2 WRITE, intersects ev.2 ERROR)).

(** an event within an interest: never more than was asked for, but for errors *)
Definition within (ready : Z) (i : bool * bool) : Prop :=
  (intersects ready READ = true -> i.1 = true) /\ (intersects ready WRITE = true -> i.2 = true).

Class Watcher (W L : Type) := {
  lp_register : W -> L -> Target -> Z -> Z -> W * L * result unit LoopError;
  lp_unregister : W -> L -> Target -> W * L * result unit LoopError;
  lp_dispatch {H : Type} : (H -> Z -> Z -> H) -> W -> L -> option Z -> H -> W * H * result Z LoopError;
  watching : W -> L -> Z -> option (Z * (bool * bool));
  kernel_events : W -> L -> option Z -> list (Z * (bool * bool * bool));
  sound : W -> L -> Prop;
  register_law w l fd token i w' l' : sound w l -> watching w l fd = None ->
    (forall fd' x, watching w l fd' <> Some (token, x)) -> reads_writes i <> (false, false) ->
    lp_register w l (Fd fd) token i = (w', l', Ok tt) -> sound w' l' /\
    forall fd', watching w' l' fd' = if decide (fd' = fd) then Some (token, reads_writes i) else watching w l fd';
  unregister_law w l fd w' l' r : sound w l -> lp_unregister w l (Fd fd) = (w', l', r) -> sound w' l' /\
    forall fd', watching w' l' fd' = if decide (fd' = fd) then None else watching w l fd';
  dispatch_law {H} (f : H -> Z -> Z -> H) w l timeout h : sound w l -> exists w' evs r,
    lp_dispatch f w l timeout h = (w', feed f h evs, r) /\ sound w' l /\
    (forall fd, watching w' l fd = watching w l fd) /\
    Forall (fun ev => exists fd i, watching w l fd = Some (ev.1, i) /\ within ev.2 i) evs /\
    told <$> evs = kernel_events w l timeout /\
    (r = Ok (Z.of_nat (length evs)) \/ evs = [] /\ exists e, r = Err (Sys e))
}.

Inductive loop_op := Register (fd token interest : Z) | Unregister (fd : Z) | Wait (timeout : option Z).

Section Runs.
Context {W L : Type}.
Context (register : W -> L -> Target -> Z -> Z -> W * L * result unit LoopError).
Context (unregister : W -> L -> Target -> W * L * result unit LoopError).
Context (dispatch : forall H : Type, (H -> Z -> Z -> H) -> W -> L -> option Z -> H -> W * H * result Z LoopError).
Context (kernel : W -> L -> option Z -> list (Z * (bool * bool * bool))).

(** a run of a loop with these operations, up to the first refused registration; for
    every wait, the events its handler was given and those the kernel answered *)
Fixpoint serve (w : W) (l : L) (ops : list loop_op) : W * L * list (list (Z * Z) * list (Z * (bool * bool * bool))) * bool :=
  match ops with
  | [] => (w, l, [], true)
  | Register fd token i :: ops =>
      let '(w, l, r) := register w l (Fd fd) token i in
      match r with Ok _ => serve w l ops | Err _ => (w, l, [], false) end
  | Unregister fd :: ops =>
      let '(w, l, _) := unregister w l (Fd fd) in
      serve w l ops
  | Wait timeout :: ops =>
      let '(w', evs, _) := dispatch (list (Z * Z)) (fun seen token ready => seen ++ [(token, ready)]) w l timeout [] in
      let '(w'', l', rest, fin) := serve w' l ops in
      (w'', l', (evs, kernel w l timeout) :: rest, fin)
  end.
End Runs.

Section Contract.
Context {W L : Type} `{WT : !Watcher W L}.

(** the table of registrations an observer would keep *)
Notation table := (gmap Z (Z * (bool * bool))).
Definition record (op : loop_op) (m : table) : table :=
  match op with
  | Register fd token i => <[fd := (token, reads_writes i)]> m
  | Unregister fd => delete fd m
  | Wait _ => m
  end.
(** the tables at the waits *)
Fixpoint tables (ops : list loop_op) (m : table) : list table :=
  match ops with
  | [] => []
  | Wait t :: ops => m :: tables ops m
  | op :: ops => tables ops (record op m)
  end.
(** registrations are of descriptors not yet watched, under tokens not in use, for something *)
Fixpoint orderly (ops : list loop_op) (m : table) : Prop :=
  match ops with
  | [] => True
  | op :: ops =>
      match op with
      | Register fd token i => m !! fd = None /\ (forall fd' x, m !! fd' <> Some (token, x)) /\ reads_writes i <> (false, false)
      | _ => True
      end /\ orderly ops (record op m)
  end.

Lemma feed_log l evs : feed (fun seen token ready => seen ++ [(token, ready)]) l evs = l ++ evs.
Proof.
  unfold feed. revert l. induction evs as [|[t r] evs IH]; intros l; cbn [foldl]; [by rewrite app_nil_r|].
  rewrite IH, <- app_assoc. done.
Qed.

Definition reported (m : table) (ev : Z * Z) : Prop := exists fd i, m !! fd = Some (ev.1, i) /\ within ev.2 i.
(** what the handler of a wait was given: the kernel's events, all and in order, and
    only of what the table has *)
Definition faithful (wait : list (Z * Z) * list (Z * (bool * bool * bool))) (m : table) : Prop :=
  told <$> wait.1 = wait.2 /\ Forall (reported m) wait.1.

Notation serve_class := (serve lp_register lp_unregister (@lp_dispatch W L WT) kernel_events).

Lemma watcher_serves ops : forall (w : W) (l : L) m w' l' seen fin, sound w l ->
  (forall fd, watching w l fd = m !! fd) -> orderly ops m -> serve_class w l ops = (w', l', seen, fin) ->
  (if fin then Forall2 faithful seen (tables ops m) /\
               forall fd, watching w' l' fd = foldl (fun m op => record op m) m ops !! fd
   else exists k, Forall2 faithful seen (take k (tables ops m))).
Proof.
  induction ops as [|op ops IH]; intros w l m w' l' seen fin Hs Hm Ho; cbn [serve].
  { intros [= <- <- <- <-]. by repeat split. }
  destruct Ho as [Hop Ho]. destruct op as [fd token i|fd|timeout]; cbn [tables foldl].
  - destruct (lp_register w l (Fd fd) token i) as [[w1 l1] [[]|e]] eqn:E.
    + destruct Hop as (Hn & Ht & Hi). destruct (register_law w l fd token i w1 l1 Hs) as [Hs1 Hm1]; rewrite ?Hm; try done.
      { intros fd' x. rewrite Hm. apply Ht. }
      apply IH; [done| |done]. intros fd'. rewrite Hm1, Hm. cbn [record]. destruct (decide (fd' = fd)) as [->|].
      * by rewrite lookup_insert_eq.
      * by rewrite lookup_insert_ne.
    + intros [= <- <- <- <-]. exists 0%nat. constructor.
  - destruct (lp_unregister w l (Fd fd)) as [[w1 l1] r] eqn:E.
    destruct (unregister_law w l fd w1 l1 r Hs E) as [Hs1 Hm1].
    apply IH; [done| |done]. intros fd'. rewrite Hm1, Hm. cbn [record]. destruct (decide (fd' = fd)) as [->|].
    * by rewrite lookup_delete_eq.
    * by rewrite lookup_delete_ne.
  - destruct (dispatch_law (fun seen token ready => seen ++ [(token, ready)]) w l timeout [] Hs)
      as (w1 & evs & r & -> & Hs1 & Hm1 & Hev & Hk & _). rewrite feed_log. cbn [app].
    destruct (serve_class w1 l ops) as [[[w2 l2] rest] f2] eqn:E2. intros [= <- <- <- <-].
    assert (Hr : faithful (evs, kernel_events w l timeout) m).
    { split; [done|]. apply (Forall_impl _ _ _ Hev). intros ev (fd & i & H1 & H2). exists fd, i. by rewrite <- Hm. }
    specialize (IH w1 l m w2 l2 rest f2 Hs1 ltac:(intros fd; by rewrite Hm1) Ho E2). destruct f2.
    + destruct IH as (H1 & H2). split; [by constructor | done].
    + destruct IH as [k Hk']. exists (S k). by constructor.
Qed.
End Contract.

(** ** epoll keeps the promise *)

(** what the manual says of an epoll instance: [epoll_watch] is its interest list *)
Class EpollLaws (W : Type) `{OS : !EpollOs W} := {
  epoll_watch : W -> Z -> gmap Z (Z * Z);
  epoll_create_law w w' ep : epoll_create1 w = (w', Ok ep) -> epoll_watch w' ep = ∅;
  epoll_add_law w ep fd ev w' r : epoll_ctl_add w ep fd ev = (w', r) ->
    match r with
    | Ok _ => epoll_watch w ep !! fd = None /\ epoll_watch w' ep = <[fd := ev]> (epoll_watch w ep)
    | Err _ => epoll_watch w' ep = epoll_watch w ep
    end;
  epoll_del_law w ep fd w' r : epoll_ctl_del w ep fd = (w', r) -> epoll_watch w' ep = delete fd (epoll_watch w ep);
  epoll_wait_law w ep max ms w' r : epoll_wait w ep max ms = (w', r) -> epoll_watch w' ep = epoll_watch w ep /\
    match r with
    | Ok evs => Forall (fun ev => exists fd m, epoll_watch w ep !! fd = Some (m, ev.2) /\ Z.land ev.1 m = ev.1) evs
    | Err _ => True
    end
}.

Section EpollWatcher.
Context `{HO : !HashOrder} {W : Type} `{OS : !EpollOs W} `{EL : !EpollLaws W}.
Implicit Types (w : W) (l : EpollLoop).

(** what the kernel watches is registered, under the token it reports *)
Definition epoll_sound w l : Prop := forall fd m token, epoll_watch w (Epoll.epfd l) !! fd = Some (m, token) ->
  Epoll.regs l !! token = Some (fd, m) /\ exists i, m = Epoll.to_epoll_mask i.

Definition bits_of (m : Z) : bool * bool := (negb (Z.land m Epoll.EPOLLIN =? 0), negb (Z.land m Epoll.EPOLLOUT =? 0)).
Definition epoll_watching w l (fd : Z) : option (Z * (bool * bool)) :=
  '(m, token) ← epoll_watch w (Epoll.epfd l) !! fd; Some (token, bits_of m).

Lemma mask_bits i : bits_of (Epoll.to_epoll_mask i) = reads_writes i.
Proof. unfold Epoll.to_epoll_mask, reads_writes. by destruct (intersects i READ), (intersects i WRITE). Qed.

Lemma land_within e m k : Z.land e m = e -> Z.land m k = 0 -> Z.land e k = 0.
Proof. intros <- H. by rewrite <- Z.land_assoc, H, Z.land_0_r. Qed.

Lemma ready_bits e : intersects (Epoll.to_ready e) READ = negb (Z.land e Epoll.EPOLLIN =? 0) /\
  intersects (Epoll.to_ready e) WRITE = negb (Z.land e Epoll.EPOLLOUT =? 0).
Proof.
  unfold Epoll.to_ready. by destruct (Z.land e Epoll.EPOLLIN =? 0), (Z.land e Epoll.EPOLLOUT =? 0), (Z.land e _ =? 0).
Qed.

Lemma ready_within e m : Z.land e m = e -> within (Epoll.to_ready e) (bits_of m).
Proof.
  intros H. destruct (ready_bits e) as [Hr Hw]. unfold within, bits_of. rewrite Hr, Hw. cbn [fst snd].
  split; intros Hb; apply negb_true_iff, Z.eqb_neq in Hb; apply negb_true_iff, Z.eqb_neq; intros Hm;
    apply Hb; by eapply land_within.
Qed.

(** what [epoll_wait] answers, by the bits the manual gives them *)
Definition epoll_kernel w l (timeout : option Z) : list (Z * (bool * bool * bool)) :=
  let has bits b := negb (Z.land bits b =? 0) in
  match (epoll_wait w (Epoll.epfd l) 256 (Epoll.millis timeout)).2 with
  | Ok evs => (fun ev => (ev.2, (has ev.1 Epoll.EPOLLIN, has ev.1 Epoll.EPOLLOUT, has ev.1 (Z.lor Epoll.EPOLLERR Epoll.EPOLLHUP)))) <$> evs
  | Err _ => []
  end.
Lemma ready_error e : intersects (Epoll.to_ready e) ERROR = negb (Z.land e (Z.lor Epoll.EPOLLERR Epoll.EPOLLHUP) =? 0).
Proof.
  unfold Epoll.to_ready. by destruct (Z.land e Epoll.EPOLLIN =? 0), (Z.land e Epoll.EPOLLOUT =? 0), (Z.land e _ =? 0).
Qed.

Lemma epoll_new_sound w w' l : Epoll.new w = (w', Ok l) -> epoll_sound w' l /\ forall fd, epoll_watching w' l fd = None.
Proof.
  unfold Epoll.new. destruct (epoll_create1 w) as [w1 [ep|e]] eqn:E; [|done]. intros [= <- <-].
  apply epoll_create_law in E. unfold epoll_sound, epoll_watching. cbn. rewrite E. split; [|done].
  intros fd m t. by rewrite lookup_empty.
Qed.

Lemma epoll_register_law w l fd token i w' l' : epoll_sound w l -> epoll_watching w l fd = None ->
  (forall fd' x, epoll_watching w l fd' <> Some (token, x)) ->
  Epoll.register w l (Fd fd) token i = (w', l', Ok tt) -> epoll_sound w' l' /\
  forall fd', epoll_watching w' l' fd' = if decide (fd' = fd) then Some (token, reads_writes i) else epoll_watching w l fd'.
Proof.
  intros Hs Hn Ht. unfold Epoll.register. cbv zeta. destruct (epoll_ctl_add w _ fd _) as [w1 r] eqn:E.
  apply epoll_add_law in E. destruct r as [[]|e]; [|done]. intros [= <- <-]. destruct E as [_ E].
  unfold epoll_sound, epoll_watching in *. cbn [Epoll.epfd Epoll.regs]. rewrite E. split.
  - intros fd' m t. destruct (decide (fd' = fd)) as [->|Hne].
    + rewrite lookup_insert_eq. intros [= <- <-]. rewrite lookup_insert_eq. eauto.
    + rewrite lookup_insert_ne by done. intros H. rewrite lookup_insert_ne; [by apply Hs|].
      intros <-. apply (Ht fd' (bits_of m)). by rewrite H.
  - intros fd'. destruct (decide (fd' = fd)) as [->|Hne].
    + rewrite lookup_insert_eq. cbn. by rewrite mask_bits.
    + by rewrite lookup_insert_ne.
Qed.

Lemma epoll_unregister_law w l fd w' l' r : epoll_sound w l -> Epoll.unregister w l (Fd fd) = (w', l', r) ->
  epoll_sound w' l' /\ forall fd', epoll_watching w' l' fd' = if decide (fd' = fd) then None else epoll_watching w l fd'.
Proof.
  intros Hs. unfold Epoll.unregister. destruct (token_of (Epoll.regs l) fd) as [token|] eqn:Et.
  - destruct (epoll_ctl_del w _ fd) as [w1 r1] eqn:E. intros [= <- <- _]. apply epoll_del_law in E.
    apply token_of_some in Et as [x Hx]. cbn [Epoll.epfd] in E.
    unfold epoll_sound, epoll_watching in *. cbn [Epoll.epfd Epoll.regs]. rewrite E. split.
    + intros fd' m t. rewrite lookup_delete_Some. intros [Hne H]. destruct (Hs _ _ _ H) as [Hr Hi]. split; [|done].
      rewrite lookup_delete_ne; [done|]. intros <-. congruence.
    + intros fd'. destruct (decide (fd' = fd)) as [->|Hne]; [by rewrite lookup_delete_eq | by rewrite lookup_delete_ne].
  - intros [= <- <- _]. split; [done|]. intros fd'. destruct (decide (fd' = fd)) as [->|]; [|done].
    unfold epoll_watching. destruct (epoll_watch w _ !! fd) as [[m t]|] eqn:Ew; [|done].
    destruct (Hs _ _ _ Ew) as [Hr _]. by destruct (token_of_none _ _ t m Et).
Qed.

Lemma epoll_dispatch_law {H} (f : H -> Z -> Z -> H) w l timeout h : epoll_sound w l -> exists w' evs r,
  Epoll.dispatch f w l timeout h = (w', feed f h evs, r) /\ epoll_sound w' l /\
  (forall fd, epoll_watching w' l fd = epoll_watching w l fd) /\
  Forall (fun ev => exists fd i, epoll_watching w l fd = Some (ev.1, i) /\ within ev.2 i) evs /\
  told <$> evs = epoll_kernel w l timeout /\
  (r = Ok (Z.of_nat (length evs)) \/ evs = [] /\ exists e, r = Err (Sys e)).
Proof.
  intros Hs. unfold Epoll.dispatch, epoll_kernel. destruct (epoll_wait w _ 256 _) as [w1 r] eqn:E. cbn [snd]. cbv zeta.
  apply epoll_wait_law in E as [Ew Hev].
  assert (Hs1 : epoll_sound w1 l) by (unfold epoll_sound; by rewrite Ew).
  assert (Hw : forall fd, epoll_watching w1 l fd = epoll_watching w l fd) by (intros fd; unfold epoll_watching; by rewrite Ew).
  destruct r as [evs|e].
  2: { destruct e; (eexists w1, [], _; split; [reflexivity|]; split; [done|]; split; [done|]; split; [constructor|]; split; [done|]);
       [by left | right; eauto..]. }
  eexists w1, _, _. split; [reflexivity|]. split; [done|]. split; [done|]. split; [|split; [|left; by rewrite length_fmap]].
  - apply Forall_fmap, (Forall_impl _ _ _ Hev). intros [e t] (fd & m & H1 & H2). exists fd, (bits_of m). cbn in *.
    unfold epoll_watching. rewrite H1. split; [done | by apply ready_within].
  - rewrite <- list_fmap_compose. apply list_fmap_ext. intros _ [e t] _. unfold told, compose. cbn [fst snd].
    destruct (ready_bits e) as [-> ->]. by rewrite ready_error.
Qed.

#[export] Instance epoll_watcher : Watcher W EpollLoop := {|
  lp_register := Epoll.register; lp_unregister := Epoll.unregister; lp_dispatch := @Epoll.dispatch W OS;
  watching := epoll_watching; kernel_events := epoll_kernel; sound := epoll_sound;
  register_law w l fd token i w' l' Hs Hn Ht _ := epoll_register_law w l fd token i w' l' Hs Hn Ht;
  unregister_law := epoll_unregister_law; dispatch_law := @epoll_dispatch_law
|}.

(** C22: the epoll loop reports what is watched, all of it and nothing else.  In any run
    of [Epoll.register], [Epoll.unregister] and [Epoll.dispatch] on a new loop, where a
    registration is of a descriptor not yet watched, under a token not in use, for reading
    or writing: the handler of each wait is given the events the kernel answers, each once
    and in order, readable, writable or in error as the kernel's bits say; each bears
    the token of a descriptor that is registered at that moment, with no readiness but
    what was asked for and errors, so one that was unregistered is not reported again;
    and the kernel watches exactly the descriptors of the table an observer would keep,
    with their tokens and interests.  A registration the kernel refuses ends the run,
    and all this holds until then.  The kernel keeps its manual's word ([EpollLaws]), and
    no watched descriptor is closed meanwhile. *)
Theorem events_are_watched w0 w l ops w' l' seen fin : Epoll.new w0 = (w, Ok l) -> orderly ops ∅ ->
  serve Epoll.register Epoll.unregister (@Epoll.dispatch W OS) epoll_kernel w l ops = (w', l', seen, fin) ->
  if fin then Forall2 faithful seen (tables ops ∅) /\
              forall fd, ('(mask, token) ← epoll_watch w' (Epoll.epfd l') !! fd; Some (token, bits_of mask)) =
                         foldl (fun m op => record op m) ∅ ops !! fd
  else exists k, Forall2 faithful seen (take k (tables ops ∅)).
Proof.
  intros En Ho E. destruct (epoll_new_sound _ _ _ En) as [Hs Hw].
  exact (watcher_serves (WT := epoll_watcher) ops w l ∅ w' l' seen fin Hs
    (fun fd => eq_trans (Hw fd) (eq_sym (lookup_empty fd))) Ho E).
Qed.

(** A descriptor that is closed leaves the interest list by itself; the loop stays
    sound, but its entry stays in the table. *)
Lemma epoll_close_sound w w' l fd : epoll_sound w l ->
  epoll_watch w' (Epoll.epfd l) = delete fd (epoll_watch w (Epoll.epfd l)) ->
  epoll_sound w' l /\ epoll_watching w' l fd = None.
Proof.
  intros Hs E. unfold epoll_sound, epoll_watching. rewrite E. split; [|by rewrite lookup_delete_eq].
  intros fd' m t. rewrite lookup_delete_Some. intros [_ H]. by apply Hs.
Qed.

(** A failed registration leaves the loop as it was. *)
Lemma epoll_register_failed w l target token i w' l' e : Epoll.register w l target token i = (w', l', Err e) ->
  l' = l /\ epoll_watch w' (Epoll.epfd l) = epoll_watch w (Epoll.epfd l).
Proof.
  unfold Epoll.register. destruct target as [fd|h]; [|by intros [= <- <- _]]. cbv zeta.
  destruct (epoll_ctl_add w _ fd _) as [w1 [[]|e1]] eqn:E; [done|]. intros [= <- <- _]. by apply epoll_add_law in E.
Qed.

End EpollWatcher.

(** ** kqueue keeps it too *)

(** [kq_watch]: the token of each watched pair of descriptor and filter *)
Class KqueueLaws (W : Type) `{OS : !KqueueOs W} := {
  kq_watch : W -> Z -> gmap (Z * Z) Z;
  kqueue_law w w' k : kqueue w = (w', Ok k) -> kq_watch w' k = ∅;
  kq_add_law w k ev w' r : flags ev = Kqueue.ADD -> kevent_change w k ev = (w', r) ->
    match r with
    | Ok _ => kq_watch w' k = <[(ident ev, filter ev) := udata ev]> (kq_watch w k)
    | Err _ => kq_watch w' k = kq_watch w k
    end;
  kq_delete_law w k ev w' r : flags ev = Kqueue.EV_DELETE -> kevent_change w k ev = (w', r) ->
    kq_watch w' k = delete (ident ev, filter ev) (kq_watch w k);
  kq_wait_law w k max ts w' r : kevent_wait w k max ts = (w', r) -> kq_watch w' k = kq_watch w k /\
    match r with
    | Ok evs => Forall (fun ev => kq_watch w k !! (ident ev, filter ev) = Some (udata ev)) evs
    | Err _ => True
    end
}.

Section KqueueWatcher.
Context `{HO : !HashOrder} {W : Type} `{OS : !KqueueOs W} `{KL : !KqueueLaws W}.
Implicit Types (w : W) (l : KqueueLoop).
Notation RD := Kqueue.EVFILT_READ.
Notation WR := Kqueue.EVFILT_WRITE.

(** the kernel's pairs and the table are each other's image, one entry a descriptor *)
Record kq_sound w l : Prop := {
  ks_reg fd f t : kq_watch w (Kqueue.kq l) !! (fd, f) = Some t -> exists fs, Kqueue.regs l !! t = Some (fd, fs) /\ f ∈ fs;
  ks_back t fd fs : Kqueue.regs l !! t = Some (fd, fs) ->
    fs <> [] /\ forall f, f ∈ fs -> (f = RD \/ f = WR) /\ kq_watch w (Kqueue.kq l) !! (fd, f) = Some t;
  ks_one t1 t2 fd fs1 fs2 : Kqueue.regs l !! t1 = Some (fd, fs1) -> Kqueue.regs l !! t2 = Some (fd, fs2) -> t1 = t2
}.

Definition kq_watching w l (fd : Z) : option (Z * (bool * bool)) :=
  match kq_watch w (Kqueue.kq l) !! (fd, RD), kq_watch w (Kqueue.kq l) !! (fd, WR) with
  | Some t, x => Some (t, (true, bool_decide (is_Some x)))
  | None, Some t => Some (t, (false, true))
  | None, None => None
  end.

Lemma kq_watched w l fd t fs : kq_sound w l -> Kqueue.regs l !! t = Some (fd, fs) ->
  kq_watching w l fd = Some (t, (bool_decide (RD ∈ fs), bool_decide (WR ∈ fs))).
Proof.
  intros [H1 H2 H3] Hr. destruct (H2 _ _ _ Hr) as [Hne Hf].
  assert (G : forall f, kq_watch w (Kqueue.kq l) !! (fd, f) = if bool_decide (f ∈ fs) then Some t else None).
  { intros f. case_bool_decide as Hin; [by apply Hf|]. destruct (kq_watch w _ !! (fd, f)) as [t'|] eqn:E; [|done].
    destruct (H1 _ _ _ E) as (fs' & Hr' & Hin'). rewrite (H3 _ _ _ _ _ Hr Hr') in Hr. rewrite Hr in Hr'. by injection Hr' as ->. }
  unfold kq_watching. rewrite !G. destruct (bool_decide (RD ∈ fs)) eqn:Er; [by destruct (bool_decide (WR ∈ fs))|].
  destruct (bool_decide (WR ∈ fs)) eqn:Ew; [done|]. exfalso. apply bool_decide_eq_false in Er, Ew.
  destruct fs as [|f fs]; [done|]. destruct (Hf f ltac:(by left)) as [[->| ->] _]; [apply Er | apply Ew]; by left.
Qed.

Lemma kq_unwatched w l fd : kq_sound w l -> kq_watching w l fd = None <-> forall t fs, Kqueue.regs l !! t <> Some (fd, fs).
Proof.
  intros Hs. split.
  - intros Hn t fs Hr. by rewrite (kq_watched _ _ _ _ _ Hs Hr) in Hn.
  - intros Hn. unfold kq_watching. destruct (kq_watch w _ !! (fd, RD)) as [t|] eqn:E1;
      [destruct (ks_reg _ _ Hs _ _ _ E1) as (fs & Hr & _); by destruct (Hn t fs)|].
    destruct (kq_watch w _ !! (fd, WR)) as [t|] eqn:E2; [|done].
    destruct (ks_reg _ _ Hs _ _ _ E2) as (fs & Hr & _); by destruct (Hn t fs).
Qed.

Lemma kq_agree w l w' l' fd : kq_sound w l -> kq_sound w' l' ->
  (forall t fs, Kqueue.regs l' !! t = Some (fd, fs) <-> Kqueue.regs l !! t = Some (fd, fs)) ->
  kq_watching w' l' fd = kq_watching w l fd.
Proof.
  intros Hs Hs' He. destruct (kq_watching w l fd) as [x|] eqn:E.
  - assert (Hx : exists t fs, Kqueue.regs l !! t = Some (fd, fs)).
    { unfold kq_watching in E. destruct (kq_watch w _ !! (fd, RD)) as [t|] eqn:E1;
        [destruct (ks_reg _ _ Hs _ _ _ E1) as (fs & Hr & _); eauto|].
      destruct (kq_watch w _ !! (fd, WR)) as [t|] eqn:E2; [|done]. destruct (ks_reg _ _ Hs _ _ _ E2) as (fs & Hr & _); eauto. }
    destruct Hx as (t & fs & Hr). rewrite (kq_watched _ _ _ _ _ Hs Hr) in E. rewrite <- E.
    by apply kq_watched, He.
  - apply (kq_unwatched _ _ _ Hs'). intros t fs Hr. apply He in Hr. by apply (kq_unwatched _ _ _ Hs) in Hr.
Qed.

Lemma add_filters_ok w k fd token fs w' : Kqueue.add_filters w k fd token fs = (w', Ok tt) ->
  forall x, kq_watch w' k !! x = if bool_decide (x.1 = fd /\ x.2 ∈ fs) then Some token else kq_watch w k !! x.
Proof.
  revert w. induction fs as [|f fs IH]; intros w; cbn [Kqueue.add_filters].
  - intros [= <-] x. rewrite bool_decide_false; [done|]. intros [_ H]. by apply not_elem_of_nil in H.
  - destruct (kevent_change w k _) as [w1 r] eqn:E. apply kq_add_law in E; [|done]. destruct r as [[]|e]; [|done].
    cbn [ident filter udata] in E. intros H [fd' f']. rewrite (IH _ H), E. cbn [fst snd].
    destruct (decide (fd' = fd)) as [->|Hd].
    + destruct (decide (f' ∈ fs)) as [Hi|Hi].
      * rewrite !bool_decide_true; [done| |by split]. split; [done|]. by right.
      * rewrite bool_decide_false by tauto. destruct (decide (f' = f)) as [->|Hf].
        -- rewrite lookup_insert_eq, bool_decide_true; [done|]. split; [done|by left].
        -- rewrite lookup_insert_ne by congruence. rewrite bool_decide_false; [done|].
           intros [_ H']. apply elem_of_cons in H' as [?|?]; tauto.
    + rewrite !bool_decide_false by tauto. by rewrite lookup_insert_ne by congruence.
Qed.

Lemma delete_filters_ok k fd fs : forall w x, kq_watch (Kqueue.delete_filters w k fd fs) k !! x =
  if bool_decide (x.1 = fd /\ x.2 ∈ fs) then None else kq_watch w k !! x.
Proof.
  induction fs as [|f fs IH]; intros w [fd' f']; cbn [Kqueue.delete_filters].
  - rewrite bool_decide_false; [done|]. intros [_ H]. by apply not_elem_of_nil in H.
  - destruct (kevent_change w k _) as [w1 r] eqn:E. apply kq_delete_law in E; [|done]. cbn [ident filter] in E.
    rewrite IH, E. cbn [fst snd]. destruct (decide (fd' = fd)) as [->|Hd].
    + destruct (decide (f' ∈ fs)) as [Hi|Hi].
      * rewrite !bool_decide_true; [done| |by split]. split; [done|]. by right.
      * rewrite bool_decide_false by tauto. destruct (decide (f' = f)) as [->|Hf].
        -- rewrite lookup_delete_eq, bool_decide_true; [done|]. split; [done|by left].
        -- rewrite lookup_delete_ne by congruence. rewrite bool_decide_false; [done|].
           intros [_ H']. apply elem_of_cons in H' as [?|?]; tauto.
    + rewrite !bool_decide_false by tauto. by rewrite lookup_delete_ne by congruence.
Qed.

Lemma filters_spec i f : f ∈ Kqueue.filters_of i <-> (f = RD /\ intersects i READ = true) \/ (f = WR /\ intersects i WRITE = true).
Proof.
  unfold Kqueue.filters_of. rewrite elem_of_app. destruct (intersects i READ), (intersects i WRITE);
    rewrite ?list_elem_of_singleton, ?elem_of_nil; naive_solver.
Qed.
Lemma filters_bits i : (bool_decide (RD ∈ Kqueue.filters_of i), bool_decide (WR ∈ Kqueue.filters_of i)) = reads_writes i.
Proof.
  unfold reads_writes. f_equal.
  - destruct (intersects i READ) eqn:Ei; [apply bool_decide_eq_true | apply bool_decide_eq_false]; rewrite filters_spec, Ei;
      [by left | by intros [[_ ?]|[? _]]].
  - destruct (intersects i WRITE) eqn:Ei; [apply bool_decide_eq_true | apply bool_decide_eq_false]; rewrite filters_spec, Ei;
      [by right | by intros [[? _]|[_ ?]]].
Qed.

Lemma kq_register_law w l fd token i w' l' : kq_sound w l -> kq_watching w l fd = None ->
  (forall fd' x, kq_watching w l fd' <> Some (token, x)) -> reads_writes i <> (false, false) ->
  Kqueue.register w l (Fd fd) token i = (w', l', Ok tt) -> kq_sound w' l' /\
  forall fd', kq_watching w' l' fd' = if decide (fd' = fd) then Some (token, reads_writes i) else kq_watching w l fd'.
Proof.
  intros Hs Hn Ht Hi. unfold Kqueue.register, Kqueue.arm. cbv zeta. set (fs := Kqueue.filters_of i).
  destruct (Kqueue.add_filters w _ fd token fs) as [w1 [[]|e]] eqn:E; [|done]. intros [= <- <-].
  pose proof (add_filters_ok _ _ _ _ _ _ E) as Hk. pose proof (proj1 (kq_unwatched _ _ fd Hs) Hn) as Hfd.
  assert (Htok : Kqueue.regs l !! token = None).
  { destruct (Kqueue.regs l !! token) as [[fd' fs']|] eqn:Er; [|done]. exfalso. by eapply Ht, kq_watched. }
  assert (Hs1 : kq_sound w1 {| Kqueue.kq := Kqueue.kq l; Kqueue.regs := <[token := (fd, fs)]> (Kqueue.regs l) |}).
  { constructor; cbn [Kqueue.kq Kqueue.regs].
    - intros fd' f t. rewrite Hk. cbn [fst snd]. case_bool_decide as Hb.
      + destruct Hb as [-> Hf]. intros [= <-]. exists fs. by rewrite lookup_insert_eq.
      + intros H. destruct (ks_reg _ _ Hs _ _ _ H) as (fs' & Hr & Hf'). exists fs'.
        rewrite lookup_insert_ne by congruence. done.
    - intros t fd' fs'. rewrite lookup_insert_Some. intros [[<- [= <- <-]]|[Hne Hr]].
      + split; [|intros f Hf; split; [apply filters_spec in Hf; tauto|]; rewrite Hk; by rewrite bool_decide_true].
        unfold fs, Kqueue.filters_of. unfold reads_writes in Hi. by destruct (intersects i READ), (intersects i WRITE).
      + destruct (ks_back _ _ Hs _ _ _ Hr) as [H1 H2]. split; [done|]. intros f Hf. split; [by apply H2|].
        rewrite Hk. cbn [fst snd]. rewrite bool_decide_false; [by apply H2|]. intros [-> _]. by eapply Hfd.
    - intros t1 t2 fd' fs1 fs2. rewrite !lookup_insert_Some.
      intros [[<- [= <- <-]]|[H1 H2]] [[<- E1]|[H3 H4]]; try congruence.
      + by destruct (Hfd _ _ H4).
      + injection E1 as <- <-. by destruct (Hfd _ _ H2).
      + by eapply (ks_one _ _ Hs). }
  split; [done|]. intros fd'. destruct (decide (fd' = fd)) as [->|Hne].
  - rewrite (kq_watched _ _ fd token fs Hs1) by apply lookup_insert_eq. do 2 f_equal. apply filters_bits.
  - apply kq_agree; [done..|]. intros t fs'. cbn [Kqueue.regs]. rewrite lookup_insert_Some. split; [|intros Hr; right; split; congruence].
    intros [[_ [= <- _]]|[_ ?]]; done.
Qed.

Lemma kq_unregister_law w l fd w' l' r : kq_sound w l -> Kqueue.unregister w l (Fd fd) = (w', l', r) -> kq_sound w' l' /\
  forall fd', kq_watching w' l' fd' = if decide (fd' = fd) then None else kq_watching w l fd'.
Proof.
  intros Hs. unfold Kqueue.unregister, Kqueue.disarm_fd. destruct (token_of (Kqueue.regs l) fd) as [token|] eqn:Et.
  2: { intros [= <- <- _]. split; [done|]. intros fd'. destruct (decide (fd' = fd)) as [->|]; [|done].
       apply (kq_unwatched _ _ _ Hs). intros t fs. by apply token_of_none. }
  apply token_of_some in Et as [fs Hr]. rewrite Hr. cbv zeta. intros [= <- <- _]. cbn [Kqueue.kq].
  set (w1 := Kqueue.delete_filters w (Kqueue.kq l) fd fs). set (l1 := {| Kqueue.kq := _ |}).
  pose proof (delete_filters_ok (Kqueue.kq l) fd fs w) as Hk. fold w1 in Hk.
  assert (Hs1 : kq_sound w1 l1).
  { constructor; cbn [Kqueue.kq Kqueue.regs l1].
    - intros fd' f t. rewrite Hk. cbn [fst snd]. case_bool_decide as Hb; [done|]. intros H.
      destruct (ks_reg _ _ Hs _ _ _ H) as (fs' & Hr' & Hf'). exists fs'. split; [|done].
      rewrite lookup_delete_ne; [done|]. intros <-. apply Hb. rewrite Hr in Hr'. by injection Hr' as -> ->.
    - intros t fd' fs'. rewrite lookup_delete_Some. intros [Hne Hr']. destruct (ks_back _ _ Hs _ _ _ Hr') as [H1 H2].
      split; [done|]. intros f Hf. split; [by apply H2|]. rewrite Hk. cbn [fst snd].
      rewrite bool_decide_false; [by apply H2|]. intros [-> _]. by apply Hne, (ks_one _ _ Hs _ _ _ _ _ Hr Hr').
    - intros t1 t2 fd' fs1 fs2. rewrite !lookup_delete_Some. intros [_ H1] [_ H2]. by eapply (ks_one _ _ Hs). }
  split; [done|]. intros fd'. destruct (decide (fd' = fd)) as [->|Hne].
  - apply (kq_unwatched _ _ _ Hs1). intros t fs'. cbn [Kqueue.regs l1]. rewrite lookup_delete_Some. intros [Hne Hr'].
    by apply Hne, (ks_one _ _ Hs _ _ _ _ _ Hr Hr').
  - apply kq_agree; [done..|]. intros t fs'. cbn [Kqueue.regs l1]. rewrite lookup_delete_Some. split; [by intros [_ ?]|].
    intros Hr'. split; [|done]. intros <-. congruence.
Qed.

Lemma kq_ready_bits ev : intersects (Kqueue.to_ready ev) READ = (filter ev =? RD) /\
  intersects (Kqueue.to_ready ev) WRITE = (filter ev =? WR).
Proof.
  unfold Kqueue.to_ready. destruct (Z.eqb_spec (filter ev) RD) as [->|]; [by destruct (Z.land _ _ =? 0)|].
  by destruct (filter ev =? WR), (Z.land _ _ =? 0).
Qed.

(** what [kevent] answers, by its filters and flags *)
Definition kq_kernel w l (timeout : option Z) : list (Z * (bool * bool * bool)) :=
  match (kevent_wait w (Kqueue.kq l) 256 (Kqueue.timespec timeout)).2 with
  | Ok evs => (fun ev => (udata ev, (filter ev =? RD, filter ev =? WR,
                negb (Z.land (flags ev) (Z.lor Kqueue.EV_ERROR Kqueue.EV_EOF) =? 0)))) <$> evs
  | Err _ => []
  end.
Lemma kq_ready_error ev : intersects (Kqueue.to_ready ev) ERROR = negb (Z.land (flags ev) (Z.lor Kqueue.EV_ERROR Kqueue.EV_EOF) =? 0).
Proof.
  unfold Kqueue.to_ready. by destruct (filter ev =? RD), (filter ev =? WR), (Z.land _ _ =? 0).
Qed.

Lemma kq_dispatch_law {H} (f : H -> Z -> Z -> H) w l timeout h : kq_sound w l -> exists w' evs r,
  Kqueue.dispatch f w l timeout h = (w', feed f h evs, r) /\ kq_sound w' l /\
  (forall fd, kq_watching w' l fd = kq_watching w l fd) /\
  Forall (fun ev => exists fd i, kq_watching w l fd = Some (ev.1, i) /\ within ev.2 i) evs /\
  told <$> evs = kq_kernel w l timeout /\
  (r = Ok (Z.of_nat (length evs)) \/ evs = [] /\ exists e, r = Err (Sys e)).
Proof.
  intros Hs. unfold Kqueue.dispatch, kq_kernel. destruct (kevent_wait w _ 256 _) as [w1 r] eqn:E. cbn [snd].
  apply kq_wait_law in E as [Ew Hev].
  assert (Hs1 : kq_sound w1 l) by (destruct Hs; constructor; by rewrite ?Ew).
  assert (Hw : forall fd, kq_watching w1 l fd = kq_watching w l fd) by (intros fd; unfold kq_watching; by rewrite Ew).
  destruct r as [evs|e].
  2: { destruct e; (eexists w1, [], _; split; [reflexivity|]; split; [done|]; split; [done|]; split; [constructor|]; split; [done|]);
       [by left | right; eauto..]. }
  eexists w1, _, _. split; [reflexivity|]. split; [done|]. split; [done|]. split; [|split; [|left; by rewrite length_fmap]].
  - apply Forall_fmap, (Forall_impl _ _ _ Hev). intros ev Hin. destruct (ks_reg _ _ Hs _ _ _ Hin) as (fs & Hr & Hf).
    exists (ident ev). eexists. split; [exact (kq_watched _ _ _ _ _ Hs Hr)|]. destruct (kq_ready_bits ev) as [H1 H2].
    unfold within. cbn [fst snd]. rewrite H1, H2. split; intros Hb%Z.eqb_eq; apply bool_decide_eq_true; by rewrite <- Hb.
  - rewrite <- list_fmap_compose. apply list_fmap_ext. intros _ ev _. unfold told, compose. cbn [fst snd].
    destruct (kq_ready_bits ev) as [-> ->]. by rewrite kq_ready_error.
Qed.

#[export] Instance kqueue_watcher : Watcher W KqueueLoop := {|
  lp_register := Kqueue.register; lp_unregister := Kqueue.unregister; lp_dispatch := @Kqueue.dispatch W OS;
  watching := kq_watching; kernel_events := kq_kernel; sound := kq_sound;
  register_law := kq_register_law; unregister_law := kq_unregister_law; dispatch_law := @kq_dispatch_law
|}.

Lemma kq_new_sound w w' l : Kqueue.new w = (w', Ok l) -> kq_sound w' l /\ forall fd, kq_watching w' l fd = None.
Proof.
  unfold Kqueue.new. destruct (kqueue w) as [w1 [k|e]] eqn:E; [|done]. intros [= <- <-]. apply kqueue_law in E.
  unfold kq_watching. cbn [Kqueue.kq]. rewrite E. split; [|done]. constructor; cbn [Kqueue.kq Kqueue.regs].
  - intros fd f t. by rewrite E, lookup_empty.
  - intros t fd fs. by rewrite lookup_empty.
  - intros t1 t2 fd fs1 fs2. by rewrite lookup_empty.
Qed.

(** The kqueue loop reports what is watched, all of it and nothing else, in the same
    sense as the epoll loop. *)
Theorem kqueue_events_are_watched w0 w l ops w' l' seen fin : Kqueue.new w0 = (w, Ok l) -> orderly ops ∅ ->
  serve Kqueue.register Kqueue.unregister (@Kqueue.dispatch W OS) kq_kernel w l ops = (w', l', seen, fin) ->
  if fin then Forall2 faithful seen (tables ops ∅) /\
              forall fd, kq_watching w' l' fd = foldl (fun m op => record op m) ∅ ops !! fd
  else exists k, Forall2 faithful seen (take k (tables ops ∅)).
Proof.
  intros En Ho E. destruct (kq_new_sound _ _ _ En) as [Hs Hw].
  exact (watcher_serves (WT := kqueue_watcher) ops w l ∅ w' l' seen fin Hs
    (fun fd => eq_trans (Hw fd) (eq_sym (lookup_empty fd))) Ho E).
Qed.

End KqueueWatcher.

(** ** Where the backends fall short *)

Section Short.
Context `{HO : !HashOrder} {W : Type}.

(** Two descriptors under one token: the table keeps the second only, and the first
    can no longer be unregistered, though the answer is [Ok]. *)
Lemma shared_token_stays_watched `{OS : !EpollOs W} `{EL : !EpollLaws W} (w : W) l fd1 fd2 token i1 i2 w1 l1 w2 l2 :
  fd1 <> fd2 -> Epoll.regs l = ∅ -> Epoll.register w l (Fd fd1) token i1 = (w1, l1, Ok tt) ->
  Epoll.register w1 l1 (Fd fd2) token i2 = (w2, l2, Ok tt) ->
  Epoll.unregister w2 l2 (Fd fd1) = (w2, l2, Ok tt) /\
  epoll_watch w2 (Epoll.epfd l2) !! fd1 = Some (Epoll.to_epoll_mask i1, token).
Proof.
  intros Hne H0. unfold Epoll.register. cbv zeta. destruct (epoll_ctl_add w _ fd1 _) as [w1' r1] eqn:E1.
  destruct r1 as [[]|]; [|done]. intros [= <- <-]. cbn [Epoll.epfd Epoll.regs].
  destruct (epoll_ctl_add w1' _ fd2 _) as [w2' r2] eqn:E2. destruct r2 as [[]|]; [|done]. intros [= <- <-].
  apply epoll_add_law in E1 as [_ E1]. apply epoll_add_law in E2 as [_ E2].
  cbn [Epoll.epfd Epoll.regs]. rewrite E2, lookup_insert_ne, E1, lookup_insert_eq by done. split; [|done].
  unfold Epoll.unregister. cbn [Epoll.regs]. destruct (token_of _ fd1) as [t|] eqn:Et; [|done].
  apply token_of_some in Et as [x Hx]. rewrite H0 in Hx. apply lookup_insert_Some in Hx as [[_ [= <- _]]|[Hn Hx]]; [done|].
  apply lookup_insert_Some in Hx as [[? _]|[_ Hx]]; [done|]. by rewrite lookup_empty in Hx.
Qed.

(** A user that lets descriptors be closed without unregistering them, as the fleet
    server does with its connections, leaves one table entry each behind. *)
Fixpoint churn `{OS : !EpollOs W} (close : W -> Z -> W) (w : W) (l : EpollLoop) (n : nat) (fd token : Z) : option (W * EpollLoop) :=
  match n with
  | O => Some (w, l)
  | S n =>
      match Epoll.register w l (Fd fd) token READ with
      | (w, l, Ok _) => churn close (close w fd) l n fd (token + 1)
      | _ => None
      end
  end.
Lemma table_leaks `{OS : !EpollOs W} close n fd : forall (w : W) l token w' l',
  (forall t, token <= t -> Epoll.regs l !! t = None) -> churn close w l n fd token = Some (w', l') ->
  size (Epoll.regs l') = (n + size (Epoll.regs l))%nat.
Proof.
  induction n as [|n IH]; intros w l token w' l' Hf; cbn [churn]; [by intros [= _ <-]|].
  unfold Epoll.register. cbv zeta. destruct (epoll_ctl_add w _ fd _) as [w1 [[]|e]]; [|done]. intros H.
  apply IH in H; cbn [Epoll.regs] in *.
  - rewrite H, map_size_insert_None by (apply Hf; lia). lia.
  - intros t Ht. rewrite lookup_insert_ne by lia. apply Hf. lia.
Qed.

(** kqueue takes a descriptor's filters one at a time: when the second is refused,
    the first is watched under a token the table does not have. *)
Lemma half_armed `{OS : !KqueueOs W} `{KL : !KqueueLaws W} (w w1 w2 : W) l fd token e :
  kevent_change w (Kqueue.kq l) {| ident := fd; filter := Kqueue.EVFILT_READ; flags := Kqueue.ADD; udata := token |} = (w1, Ok tt) ->
  kevent_change w1 (Kqueue.kq l) {| ident := fd; filter := Kqueue.EVFILT_WRITE; flags := Kqueue.ADD; udata := token |} = (w2, Err e) ->
  Kqueue.register w l (Fd fd) token (bitor READ WRITE) = (w2, l, Err (Sys e)) /\
  kq_watch w2 (Kqueue.kq l) !! (fd, Kqueue.EVFILT_READ) = Some token.
Proof.
  intros E1 E2. unfold Kqueue.register, Kqueue.arm. cbv zeta.
  change (Kqueue.filters_of (bitor READ WRITE)) with [Kqueue.EVFILT_READ; Kqueue.EVFILT_WRITE]. cbn [Kqueue.add_filters].
  rewrite E1, E2. split; [done|]. apply kq_add_law in E1; [|done]. apply kq_add_law in E2; [|done].
  rewrite E2, E1. cbn [ident filter]. by rewrite lookup_insert_eq.
Qed.

(** On Windows nothing consults the set of registered handles: unregistering one does
    not change what is delivered. *)
Lemma iocp_unregister_ineffective `{OS : !IocpOs W} (w : W) l target : exists l', Iocp.unregister w l target = (w, l', Ok tt) /\
  forall (H : Type) (f : H -> Z -> Z -> H) timeout h, Iocp.dispatch f w l' timeout h = Iocp.dispatch f w l timeout h.
Proof. eexists. split; [reflexivity|]. intros H f timeout h. by destruct target. Qed.

(** a wait shorter than a millisecond is no wait *)
Lemma short_wait_polls d : 0 <= d < 1000000 -> Epoll.millis (Some d) = 0.
Proof. intros Hd. unfold Epoll.millis. by rewrite Z.div_small. Qed.

End Short.

(** ** A kernel *)

Module DemoKernel.

(** the interest list, and what has become ready: descriptor and bits *)
Record kern := { interest : gmap Z (Z * Z); pending : list (Z * Z) }.

Fixpoint ripe (m : gmap Z (Z * Z)) (l : list (Z * Z)) : list (Z * Z) :=
  match l with
  | [] => []
  | (fd, bits) :: l =>
      match m !! fd with
      | Some (mask, token) => (Z.land bits mask, token) :: ripe m l
      | None => ripe m l
      end
  end.

#[export] Instance kern_os : EpollOs kern := {
  epoll_create1 w := ({| interest := ∅; pending := pending w |}, Ok 3);
  epoll_ctl_add w _ fd ev :=
    match interest w !! fd with
    | Some _ => (w, Err (Errno 17))
    | None => ({| interest := <[fd := ev]> (interest w); pending := pending w |}, Ok tt)
    end;
  epoll_ctl_del w _ fd := ({| interest := delete fd (interest w); pending := pending w |}, Ok tt);
  epoll_wait w _ _ _ := (w, Ok (ripe (interest w) (pending w)));
  close_epoll w _ := w
}.
Lemma ripe_spec m l : Forall (fun ev => exists fd x, m !! fd = Some (x, ev.2) /\ Z.land ev.1 x = ev.1) (ripe m l).
Proof.
  induction l as [|[fd bits] l IH]; cbn [ripe]; [constructor|]. destruct (m !! fd) as [[x t]|] eqn:E; [|done].
  constructor; [|done]. exists fd, x. split; [done|]. cbn. by rewrite <- Z.land_assoc, Z.land_diag.
Qed.
#[export, refine] Instance kern_laws : EpollLaws kern := {| epoll_watch w _ := interest w |}.
Proof.
  - by intros w w' ep [= <- <-].
  - intros w ep fd ev w' r. cbn. destruct (interest w !! fd) eqn:E; by intros [= <- <-].
  - by intros w ep fd w' r [= <- <-].
  - intros w ep max ms w' r [= <- <-]. split; [done | apply ripe_spec].
Defined.
#[export, refine] Instance some_order : HashOrder := {| hash_iter A m := map_to_list m |}.
Proof. done. Defined.

Definition ops : list loop_op :=
  [Register 5 1 READ; Register 6 2 (bitor READ WRITE); Wait (Some 1000); Unregister 5; Wait None; Register 5 9 WRITE; Wait None].
(** both descriptors readable and writable, the second hung up *)
Definition start : kern := {| interest := ∅; pending := [(5, 5); (6, 21)] |}.
Definition fresh : EpollLoop := {| Epoll.epfd := 3; Epoll.regs := ∅ |}.

End DemoKernel.
Import DemoKernel.

Definition DemoRun := serve Epoll.register Epoll.unregister (@Epoll.dispatch DemoKernel.kern _) epoll_kernel
  {| DemoKernel.interest := ∅; DemoKernel.pending := DemoKernel.pending DemoKernel.start |} DemoKernel.fresh DemoKernel.ops.

Lemma events_are_watched_witness : exists seen,
  DemoRun.1.2 = seen /\ seen.*1 = [[(1, 1); (2, 7)]; [(2, 7)]; [(9, 2); (2, 7)]] /\
  Forall2 faithful seen (tables DemoKernel.ops ∅).
Proof.
  destruct DemoRun as [[[w' l'] seen] fin] eqn:E. exists seen. split; [reflexivity|].
  assert (Hs : seen.*1 = [[(1, 1); (2, 7)]; [(2, 7)]; [(9, 2); (2, 7)]] /\ fin = true).
  { assert (H : DemoRun.1.2.*1 = [[(1, 1); (2, 7)]; [(2, 7)]; [(9, 2); (2, 7)]] /\ DemoRun.2 = true) by (vm_compute; done).
    by rewrite E in H. }
  destruct Hs as [Hs ->]. split; [exact Hs|].
  refine (proj1 (events_are_watched DemoKernel.start _ DemoKernel.fresh DemoKernel.ops w' l' seen true eq_refl _ E)).
  cbn [orderly DemoKernel.ops record]. split_and!; try done; try (intros fd' x; vm_compute; repeat case_match; congruence).
Defined.
