(* ===== verification/Robot.v ===== *)
(** * The robot derive: [tpt-t-macros/src/lib.rs], [tpt-t-core/src/robot.rs]

    [expand] reads a struct whose fields carry device attributes; what it generates
    is described by [Generated] and given its meaning: the channel bundle, the
    push and pop wrappers, and [launch], which starts a thread for each device.
    The syntax tree is the one the parser library delivers; starting a thread is
    the class [Spawner].  [launch_isolates] is about a launched robot. *)

From stdpp Require Import gmap strings.
From S2P Require Import Prelude Ring Text CoreProfile.

(** ** The syntax the derive is given *)

(** the value after the equals sign *)
Inductive MetaValue := VInt (n : Z) | VBool (b : bool) | VStr (s : list Z) | VType (t : list Z).
Record Attr := { attr_path : list Z; nested : list (list Z * option MetaValue) }.
Record Field := { f_ident : list Z; f_ty : list Z; f_attrs : list Attr }.
Inductive Fields := Named (fs : list Field) | Unnamed | Unit.
Inductive Data := Struct (fs : Fields) | Enum | Union.
Record DeriveInput := { in_ident : list Z; in_attrs : list Attr; in_data : Data }.

(** an error of the derive's own, or of the parser *)
Inductive MacroError := Message (text : list Z) | Syntax.

(** ** The derive *)

Inductive DeviceKind := Camera | Motor.
Inductive RoleLit := LVideo | LControl | LNetwork | LInput | LMedia | LStorage | LSpare.

(** [RoleLit::path]: the role named in the generated code *)
Definition path (r : RoleLit) : Role :=
  match r with
  | LVideo => Video | LControl => Control | LNetwork => Network | LInput => Input
  | LMedia => Media | LStorage => Storage | LSpare => Spare
  end.

Record FieldCfg := { ident : list Z; id : Z; element : list Z; capacity : Z; role : RoleLit }.

(** what an attribute has said so far *)
Record Said := { said_id : option Z; said_element : option (list Z); said_capacity : Z; said_role : option RoleLit }.
Definition unsaid : Said := {| said_id := None; said_element := None; said_capacity := 1024; said_role := None |}.

Definition is_ident (p : list Z) (s : string) : bool := bool_decide (p = ascii_bytes s).

(** [LitInt] and [base10_parse::<usize>] *)
Definition parse_int (v : option MetaValue) : result Z MacroError :=
  match v with
  | Some (VInt n) => if n <? 2 ^ 64 then Ok n else Err Syntax
  | _ => Err Syntax
  end.

(** what the derive generates *)
Record Generated := { g_name : list Z; thread_per_core : bool; cfgs : list FieldCfg }.

Section Derive.
Context `{SD : !StrDebug}.

Definition parse_str (s : list Z) : result RoleLit MacroError :=
  let other := to_ascii_lowercase s in
  if decide (other = ascii_bytes "video") then Ok LVideo
  else if decide (other = ascii_bytes "control") then Ok LControl
  else if decide (other = ascii_bytes "network") then Ok LNetwork
  else if decide (other = ascii_bytes "input") then Ok LInput
  else if decide (other = ascii_bytes "media") then Ok LMedia
  else if decide (other = ascii_bytes "storage") then Ok LStorage
  else if decide (other = ascii_bytes "spare") then Ok LSpare
  else Err (Message (ascii_bytes "unknown robot role " ++ str_debug other ++
                     ascii_bytes " (expected video/control/network/input/media/storage/spare)")).

(** one [key = value] of the container attribute *)
Fixpoint container_keys (l : list (list Z * option MetaValue)) (tpc : bool) : result bool MacroError :=
  match l with
  | [] => Ok tpc
  | (k, v) :: l =>
      if is_ident k "thread_per_core" then
        match v with Some (VBool b) => container_keys l b | _ => Err Syntax end
      else Err (Message (ascii_bytes "unknown #[robot] key (only `thread_per_core` is supported)"))
  end.
Fixpoint container (attrs : list Attr) (tpc : bool) : result bool MacroError :=
  match attrs with
  | [] => Ok tpc
  | a :: attrs =>
      if negb (is_ident (attr_path a) "robot") then container attrs tpc
      else match container_keys (nested a) tpc with
           | Ok tpc => container attrs tpc
           | Err e => Err e
           end
  end.

Fixpoint field_keys (l : list (list Z * option MetaValue)) (s : Said) : result Said MacroError :=
  match l with
  | [] => Ok s
  | (k, v) :: l =>
      if is_ident k "id" then
        match parse_int v with
        | Ok n => field_keys l {| said_id := Some n; said_element := said_element s; said_capacity := said_capacity s; said_role := said_role s |}
        | Err e => Err e
        end
      else if is_ident k "element" then
        match v with
        | Some (VType t) => field_keys l {| said_id := said_id s; said_element := Some t; said_capacity := said_capacity s; said_role := said_role s |}
        | _ => Err Syntax
        end
      else if is_ident k "capacity" then
        match parse_int v with
        | Ok n => field_keys l {| said_id := said_id s; said_element := said_element s; said_capacity := n; said_role := said_role s |}
        | Err e => Err e
        end
      else if is_ident k "role" then
        match v with
        | Some (VStr t) =>
            match parse_str t with
            | Ok r => field_keys l {| said_id := said_id s; said_element := said_element s; said_capacity := said_capacity s; said_role := Some r |}
            | Err e => Err e
            end
        | _ => Err Syntax
        end
      else Err (Message (ascii_bytes "unknown key (expected id/element/capacity/role)"))
  end.

Definition device_kind (a : Attr) : option DeviceKind :=
  if is_ident (attr_path a) "camera" then Some Camera
  else if is_ident (attr_path a) "motor" then Some Motor
  else None.
Definition default_role (k : DeviceKind) : RoleLit := match k with Camera => LVideo | Motor => LControl end.

Definition configure (idx : nat) (f : Field) (k : DeviceKind) (s : Said) : FieldCfg :=
  {| ident := f_ident f; id := default (Z.of_nat idx) (said_id s); element := default (f_ty f) (said_element s);
     capacity := said_capacity s; role := default (default_role k) (said_role s) |}.

(** the attributes of one field, then the fields *)
Fixpoint field_attrs (idx : nat) (f : Field) (attrs : list Attr) (out : list FieldCfg) : result (list FieldCfg) MacroError :=
  match attrs with
  | [] => Ok out
  | a :: attrs =>
      match device_kind a with
      | None => field_attrs idx f attrs out
      | Some k =>
          match field_keys (nested a) unsaid with
          | Ok s => field_attrs idx f attrs (out ++ [configure idx f k s])
          | Err e => Err e
          end
      end
  end.
Fixpoint all_fields (idx : nat) (fs : list Field) (out : list FieldCfg) : result (list FieldCfg) MacroError :=
  match fs with
  | [] => Ok out
  | f :: fs =>
      match field_attrs idx f (f_attrs f) out with
      | Ok out => all_fields (S idx) fs out
      | Err e => Err e
      end
  end.

Definition expand (input : DeriveInput) : result Generated MacroError :=
  match in_data input with
  | Struct (Named fields) =>
      match container (in_attrs input) true with
      | Err e => Err e
      | Ok tpc =>
          match all_fields 0 fields [] with
          | Err e => Err e
          | Ok [] => Err (Message (ascii_bytes "#[derive(Robot)] found no #[camera] or #[motor] fields to wire up"))
          | Ok cs => Ok {| g_name := in_ident input; thread_per_core := tpc; cfgs := cs |}
          end
      end
  | Struct _ => Err (Message (ascii_bytes "#[derive(Robot)] requires a struct with named fields"))
  | _ => Err (Message (ascii_bytes "#[derive(Robot)] can only be applied to a struct"))
  end.

End Derive.

(** ** The generated code *)

Module Gen.

(** its names: [upper] is [str::to_uppercase] *)
Definition channels_name (g : Generated) : list Z := g_name g ++ ascii_bytes "Channels".
Definition ring_fields (g : Generated) : list (list Z * list Z) := (fun c => (ident c, element c)) <$> cfgs g.
Definition ser_fns (g : Generated) : list (list Z) :=
  mjoin ((fun c => [ascii_bytes "serialize_" ++ ident c; ascii_bytes "push_" ++ ident c; ascii_bytes "pop_" ++ ident c]) <$> cfgs g).
Definition id_consts (upper : list Z -> list Z) (g : Generated) : list (list Z * Z) :=
  (fun c => (upper (ident c) ++ ascii_bytes "_ID", id c)) <$> cfgs g.
Definition roles (g : Generated) : list Role := (fun c => path (role c)) <$> cfgs g.

Section Channels.
Context {Q V : Type} `{BF : !BoundedFifo Q V}.

(** a value of any element type is a [V]; the bundle has a ring per device field *)
Definition channels (g : Generated) : list (list Z * Q) :=
  (fun c => (ident c, fifo_with_capacity (capacity c))) <$> cfgs g.

(** the place of a ring in the bundle *)
Fixpoint ring_at (ch : list (list Z * Q)) (name : list Z) : option Q :=
  match ch with
  | [] => None
  | (n, q) :: ch => if decide (n = name) then Some q else ring_at ch name
  end.
Fixpoint set_ring (ch : list (list Z * Q)) (name : list Z) (q : Q) : list (list Z * Q) :=
  match ch with
  | [] => []
  | (n, q') :: ch => if decide (n = name) then (n, q) :: ch else (n, q') :: set_ring ch name q
  end.

(** [push_x] and [pop_x] of the device field [x] *)
Definition push (name : list Z) (ch : list (list Z * Q)) (v : V) : exec (list (list Z * Q) * result unit V) :=
  match ring_at ch name with
  | Some q => '(q, r) ← fifo_push q v; Ret (set_ring ch name q, r)
  | None => Panic
  end.
Definition pop (name : list Z) (ch : list (list Z * Q)) : exec (list (list Z * Q) * option V) :=
  match ring_at ch name with
  | Some q => '(q, r) ← fifo_pop q; Ret (set_ring ch name q, r)
  | None => Panic
  end.
End Channels.

(** what a thread started by [launch] is to do: pin itself, if it is to, and run
    the device *)
Record Task := { device : list Z; pinned : option (list Z) }.

(** [thread::Builder]: the name and the task *)
Class Spawner (W T E : Type) := { thread_spawn : W -> list Z -> Task -> W * result T E }.

Section Launch.
Context {W T E : Type} `{SP : !Spawner W T E}.

Definition task (g : Generated) (p : CoreProfile) (c : FieldCfg) : Task :=
  {| device := ident c; pinned := if thread_per_core g then Some (cores_for p (path (role c))) else None |}.
Definition thread_name (g : Generated) (c : FieldCfg) : list Z :=
  if thread_per_core g then ascii_bytes "tpt:" ++ ident c else ident c.

Fixpoint launch_bodies (g : Generated) (p : CoreProfile) (w : W) (cs : list FieldCfg) (handles : list T)
  : W * result (list T) E :=
  match cs with
  | [] => (w, Ok handles)
  | c :: cs =>
      let '(w, r) := thread_spawn w (thread_name g c) (task g p c) in
      match r with
      | Err e => (w, Err e)
      | Ok h => launch_bodies g p w cs (handles ++ [h])
      end
  end.
Definition launch (g : Generated) (p : CoreProfile) (w : W) : W * result (list T) E := launch_bodies g p w (cfgs g) [].
End Launch.

(** the thread of a task; [run]: [RobotDevice::run] of its device *)
Definition thread_body {M E : Type} `{PO : !PinOs M E} {A : Type} (m : M) (t : Task) (run : list Z -> M -> exec A) : exec A :=
  match pinned t with
  | Some cores => spawn_pinned_body m cores (run (device t))
  | None => run (device t) m
  end.

End Gen.

(** ** What the derive reads *)

Section Reads.
Context `{SD : !StrDebug}.

(** the derive and the profile parser know the same roles by the same names *)
Lemma parse_str_from_key s :
  match parse_str s with Ok r => from_key s = Some (path r) | Err _ => from_key s = None end.
Proof.
  unfold parse_str, from_key. cbv zeta. set (t := to_ascii_lowercase s). clearbody t. unfold ALL. cbn [List.find key].
  repeat (match goal with |- context [decide (t = ?x)] =>
    destruct (decide (t = x)) as [->|?]; [vm_compute; reflexivity|rewrite (bool_decide_false (x = t)) by congruence] end).
  reflexivity.
Qed.

(** the device attributes of the fields, in the order they are written, each with
    the position of its field *)
Fixpoint devices (idx : nat) (fs : list Field) : list (nat * Field * Attr * DeviceKind) :=
  match fs with
  | [] => []
  | f :: fs => omap (fun a => (fun k => (idx, f, a, k)) <$> device_kind a) (f_attrs f) ++ devices (S idx) fs
  end.
(** a device is wired as its attribute says: its arguments in turn, over the defaults *)
Definition wired (c : FieldCfg) (d : nat * Field * Attr * DeviceKind) : Prop :=
  exists s, field_keys (nested d.1.2) unsaid = Ok s /\ c = configure d.1.1.1 d.1.1.2 d.2 s.

Lemma field_attrs_spec idx f attrs : forall out cs, field_attrs idx f attrs out = Ok cs <->
  exists cs', cs = out ++ cs' /\ Forall2 wired cs' (omap (fun a => (fun k => (idx, f, a, k)) <$> device_kind a) attrs).
Proof.
  induction attrs as [|a attrs IH]; intros out cs; cbn [field_attrs omap list_omap].
  - split.
    + intros [= <-]. exists []. by rewrite app_nil_r.
    + intros (cs' & -> & H). apply Forall2_nil_inv_r in H as ->. by rewrite app_nil_r.
  - destruct (device_kind a) as [k|]; cbn [fmap option_fmap option_map]; [|apply IH].
    destruct (field_keys (nested a) unsaid) as [s|e] eqn:E.
    + rewrite IH. split.
      * intros (cs' & -> & H). exists (configure idx f k s :: cs'). rewrite <- app_assoc. split; [done|].
        constructor; [by exists s | done].
      * intros (cs' & -> & H). apply Forall2_cons_inv_r in H as (c & cs'' & (s' & Es & Ec) & H & ->). cbn in Es, Ec.
        rewrite E in Es. injection Es as <-. subst c. exists cs''. by rewrite <- app_assoc.
    + split; [done|]. intros (cs' & -> & H). apply Forall2_cons_inv_r in H as (c & cs'' & (s' & Es & _) & _ & _).
      cbn in Es. congruence.
Qed.

Lemma all_fields_spec fs : forall idx out cs, all_fields idx fs out = Ok cs <->
  exists cs', cs = out ++ cs' /\ Forall2 wired cs' (devices idx fs).
Proof.
  induction fs as [|f fs IH]; intros idx out cs; cbn [all_fields devices].
  - split.
    + intros [= <-]. exists []. by rewrite app_nil_r.
    + intros (cs' & -> & H). apply Forall2_nil_inv_r in H as ->. by rewrite app_nil_r.
  - destruct (field_attrs idx f (f_attrs f) out) as [out'|e] eqn:E.
    + apply field_attrs_spec in E as (c1 & -> & H1). rewrite IH. split.
      * intros (c2 & -> & H2). exists (c1 ++ c2). rewrite app_assoc. split; [done|]. by apply Forall2_app.
      * intros (cs' & -> & H). apply Forall2_app_inv_r in H as (d1 & d2 & H1' & H2 & ->). exists d2.
        split; [|done]. rewrite <- app_assoc. do 2 f_equal.
        assert (G : forall l a b, Forall2 wired a l -> Forall2 wired b l -> a = b).
        { induction l as [|d l IHl]; intros a b Ha Hb.
          - apply Forall2_nil_inv_r in Ha as ->. by apply Forall2_nil_inv_r in Hb as ->.
          - apply Forall2_cons_inv_r in Ha as (x & a' & (s1 & E1 & ->) & Ha & ->).
            apply Forall2_cons_inv_r in Hb as (y & b' & (s2 & E2 & ->) & Hb & ->).
            rewrite E1 in E2. injection E2 as <-. f_equal. by apply IHl. }
        by eapply G.
    + split; [done|]. intros (cs' & -> & H). apply Forall2_app_inv_r in H as (d1 & d2 & H1 & _ & _).
      assert (E' : field_attrs idx f (f_attrs f) out = Ok (out ++ d1)) by (apply field_attrs_spec; eauto). congruence.
Qed.

(** The derive accepts a struct with named fields and at least one device attribute
    exactly if every argument of every attribute can be read, and then wires each
    device as it is written, in the order of declaration. *)
Theorem expand_exact input g : expand input = Ok g <->
  exists fs tpc, in_data input = Struct (Named fs) /\ container (in_attrs input) true = Ok tpc /\
    g_name g = in_ident input /\ thread_per_core g = tpc /\ cfgs g <> [] /\ Forall2 wired (cfgs g) (devices 0 fs).
Proof.
  unfold expand. split.
  - destruct (in_data input) as [[fs| |]| |]; try done. destruct (container _ true) as [tpc|]; [|done].
    destruct (all_fields 0 fs []) as [cs|] eqn:E; [|done]. apply all_fields_spec in E as (cs' & -> & H). cbn [app].
    destruct cs' as [|c cs']; [done|]. intros [= <-]. exists fs, tpc. by split_and!.
  - intros (fs & tpc & -> & -> & Hn & Ht & Hne & H). assert (E : all_fields 0 fs [] = Ok (cfgs g)).
    { apply all_fields_spec. by exists (cfgs g). }
    rewrite E. destruct g as [n t cs]. cbn in *. subst. by destruct cs.
Qed.
End Reads.

(** ** The bundle *)

Section Bundle.
Context {Q V : Type} `{BF : !BoundedFifo Q V}.

(** [ls]: what each ring holds *)
Definition bundle (ch : list (list Z * Q)) (ls : list (list Z * list V)) : Prop :=
  Forall2 (fun nq nl => nq.1 = nl.1 /\ fifo_rep nq.2 nl.2) ch ls.

Lemma channels_empty g : Forall (fun c => fifo_min (Q := Q) (A := V) <= capacity c <= 2 ^ 63) (cfgs g) ->
  bundle (Gen.channels g) ((fun c => (ident c, [])) <$> cfgs g).
Proof.
  unfold bundle, Gen.channels. induction 1 as [|c cs Hc _ IH]; cbn; constructor; [|done]. split; [done|]. by apply fifo_new_rep.
Qed.

Lemma ring_at_set (ch : list (list Z * Q)) name q : is_Some (Gen.ring_at ch name) -> Gen.ring_at (Gen.set_ring ch name q) name = Some q.
Proof.
  induction ch as [|[n q'] ch IH]; cbn [Gen.ring_at Gen.set_ring]; [by intros []|].
  destruct (decide (n = name)) as [->|Hn]; cbn [Gen.ring_at]; [by rewrite decide_True|]. by rewrite decide_False.
Qed.
Lemma ring_at_other (ch : list (list Z * Q)) name other q : other <> name -> Gen.ring_at (Gen.set_ring ch name q) other = Gen.ring_at ch other.
Proof.
  intros Hne. induction ch as [|[n q'] ch IH]; cbn [Gen.ring_at Gen.set_ring]; [done|].
  destruct (decide (n = name)) as [->|Hn]; cbn [Gen.ring_at]; [by rewrite !decide_False by congruence|]. by rewrite IH.
Qed.

Lemma ring_at_bundle ch ls name : bundle ch ls -> name ∈ ls.*1 -> exists q l, Gen.ring_at ch name = Some q /\ fifo_rep q l /\ (name, l) ∈ ls.
Proof.
  induction 1 as [|[n q] [n' l] ch ls [Hn Hq] H IH]; cbn [fmap list_fmap fst snd Gen.ring_at] in *.
  - by intros ?%not_elem_of_nil.
  - subst n'. intros [->|Hin]%elem_of_cons.
    + exists q, l. rewrite decide_True by done. split_and!; [done|done|by left].
    + destruct (decide (n = name)) as [->|]; [exists q, l; split_and!; [done|done|by left]|].
      destruct (IH Hin) as (q0 & l0 & H1 & H2 & H3). exists q0, l0. split_and!; [done|done|by right].
Qed.

(** A device's wrappers are its ring and no other: what is pushed for one device is
    popped for it, oldest first, and no other ring changes. *)
Lemma push_own ch ls name q v : bundle ch ls -> Gen.ring_at ch name = Some q -> forall l, fifo_rep q l ->
  Z.of_nat (length l) < fifo_capacity q -> exists ch' q', Gen.push name ch v = Ret (ch', Ok tt) /\
    Gen.ring_at ch' name = Some q' /\ fifo_rep q' (l ++ [v]) /\
    forall other, other <> name -> Gen.ring_at ch' other = Gen.ring_at ch other.
Proof.
  intros _ Hq l Hl Hr. unfold Gen.push. rewrite Hq. destruct (fifo_push_ok q l v Hl Hr) as (q' & -> & Hq' & _).
  rewrite ret_bind. do 2 eexists. split; [reflexivity|]. split; [by apply ring_at_set; rewrite Hq|]. split; [done|].
  intros other Ho. by apply ring_at_other.
Qed.
Lemma pop_own ch ls name q v l : bundle ch ls -> Gen.ring_at ch name = Some q -> fifo_rep q (v :: l) ->
  exists ch' q', Gen.pop (V := V) name ch = Ret (ch', Some v) /\ Gen.ring_at ch' name = Some q' /\ fifo_rep q' l /\
    forall other, other <> name -> Gen.ring_at ch' other = Gen.ring_at ch other.
Proof.
  intros _ Hq Hl. unfold Gen.pop. rewrite Hq. destruct (fifo_pop_some q v l Hl) as (q' & -> & Hq' & _).
  rewrite ret_bind. do 2 eexists. split; [reflexivity|]. split; [by apply ring_at_set; rewrite Hq|]. split; [done|].
  intros other Ho. by apply ring_at_other.
Qed.
End Bundle.

(** ** Launch *)

(** a thread that was started runs its task; one that was not does not *)
Class SpawnerLaws (W T E : Type) `{SP : !Gen.Spawner W T E} := {
  started : W -> list Gen.Task;
  spawn_law w name t w' r : Gen.thread_spawn w name t = (w', r) ->
    started w' = match r with Ok _ => started w ++ [t] | Err _ => started w end
}.

Section Launched.
Context {W T E : Type} `{SP : !Gen.Spawner W T E} `{SL : !SpawnerLaws W T E}.

Lemma launch_bodies_spec g p cs : forall (w : W) (hs : list T) w' r, Gen.launch_bodies g p w cs hs = (w', r) ->
  match r with
  | Ok hs' => started w' = started w ++ (Gen.task g p <$> cs) /\ exists new, hs' = hs ++ new /\ length new = length cs
  | Err _ => exists k, (k < length cs)%nat /\ started w' = started w ++ take k (Gen.task g p <$> cs)
  end.
Proof.
  induction cs as [|c cs IH]; intros w hs w' r; cbn [Gen.launch_bodies].
  - intros [= <- <-]. cbn. rewrite app_nil_r. split; [done|]. exists []. by rewrite app_nil_r.
  - destruct (Gen.thread_spawn w _ (Gen.task g p c)) as [w1 r1] eqn:Es. apply spawn_law in Es.
    destruct r1 as [h|e].
    + intros H. apply IH in H. destruct r as [hs'|e].
      * destruct H as (H1 & new & -> & Hl). split; [rewrite H1, Es, <- app_assoc; done|].
        exists (h :: new). rewrite <- app_assoc. cbn. split; [done | by rewrite Hl].
      * destruct H as (k & Hk & H). exists (S k). split; [cbn; lia|]. rewrite H, Es, <- app_assoc. done.
    + intros [= <- <-]. exists 0%nat. split; [cbn; lia|]. cbn. by rewrite app_nil_r.
Qed.

(** A launch that fails part of the way leaves the threads it started running, and
    nobody holds a handle to them. *)
Lemma failed_launch_leaves_threads g p w w' e : Gen.launch g p w = (w', Err e) ->
  exists k, (k < length (cfgs g))%nat /\ started w' = started w ++ take k (Gen.task g p <$> cfgs g).
Proof. apply launch_bodies_spec. Qed.

Lemma roles_disjoint p r1 r2 : NoDup (all_cores p) -> r1 <> r2 -> cores_for p r1 ## cores_for p r2.
Proof.
  unfold all_cores. intros Hn Hne c H1 H2.
  assert (G : forall l, NoDup (mjoin (cores_for p <$> l)) -> NoDup l -> r1 ∈ l -> r2 ∈ l -> False).
  { induction l as [|r l IH]; [by intros _ _ ?%not_elem_of_nil|]. cbn [fmap list_fmap mjoin list_join].
    rewrite NoDup_app. intros (_ & Hd & Hl) Hnd. apply NoDup_cons in Hnd as [Hr Hnd].
    intros [->|Hi1]%elem_of_cons [->|Hi2]%elem_of_cons.
    - done.
    - apply (Hd c H1). apply list_elem_of_join. exists (cores_for p r2). split; [done|]. by apply list_elem_of_fmap_2.
    - apply (Hd c H2). apply list_elem_of_join. exists (cores_for p r1). split; [done|]. by apply list_elem_of_fmap_2.
    - by apply IH. }
  apply (G ALL Hn).
  - apply NoDup_ListNoDup. unfold ALL. repeat constructor; simpl; intuition discriminate.
  - apply list_elem_of_In. destruct r1; simpl; tauto.
  - apply list_elem_of_In. destruct r2; simpl; tauto.
Qed.

Context {M E' : Type} `{PO : !PinOs M E'} {A : Type}.

(** C23: a launched robot is isolated as its profile says.  For a robot that pins and a
    profile that passed validation on the machine, a launch that succeeds has started
    one thread per device, in the order of the fields; the thread of a device first
    restricts itself to exactly the cores of the device's role and only then runs
    the device, and panics instead of running it when the scheduler refuses or the
    profile has no cores for the role; devices of different roles never share a
    core. *)
Theorem launch_isolates g p (w w' : W) (hs : list T) (m : M) (run : list Z -> M -> exec A) :
  thread_per_core g = true -> profile_ok p -> core_count m <= 1024 -> validate p (core_count m) = Ret (Ok tt) ->
  Gen.launch g p w = (w', Ok hs) ->
  started w' = started w ++ (Gen.task g p <$> cfgs g) /\ length hs = length (cfgs g) /\
  (forall c, c ∈ cfgs g -> Gen.thread_body m (Gen.task g p c) run =
     let cores := cores_for p (path (role c)) in
     if decide (cores = []) then Panic
     else let '(m', r) := sched_setaffinity m (list_to_set cores) in
          match r with Ok _ => run (ident c) m' | Err _ => Panic end) /\
  (forall c1 c2, c1 ∈ cfgs g -> c2 ∈ cfgs g -> path (role c1) <> path (role c2) ->
     cores_for p (path (role c1)) ## cores_for p (path (role c2))).
Proof.
  intros Ht Hp Hm Hv Hl. apply launch_bodies_spec in Hl as (Hs & new & -> & Hlen). cbn [app].
  destruct (validate_exact p (core_count m)) as (r & Er & Hr); [unfold core_count; lia | done |].
  rewrite Hv in Er. injection Er as <-. destruct (proj1 Hr eq_refl) as [Hn Hlt].
  split; [done|]. split; [done|]. split; [|intros c1 c2 _ _; by apply roles_disjoint].
  intros c _. unfold Gen.thread_body, Gen.task, spawn_pinned_body. rewrite Ht. cbn [Gen.pinned Gen.device].
  rewrite pin_current_spec by done. cbv zeta. set (cores := cores_for p _). case_decide as Hc; [by rewrite ret_bind|].
  assert (Hf : List.find (fun c => core_count m <=? c) cores = None).
  { destruct (List.find _ cores) as [x|] eqn:Ef; [|done]. exfalso. apply List.find_some in Ef as [Hin Hx].
    apply list_elem_of_In in Hin. assert (Hall : x ∈ all_cores p).
    { unfold all_cores. apply list_elem_of_join. exists cores. split; [done|]. unfold cores. apply list_elem_of_fmap_2.
      apply list_elem_of_In. destruct (path (role c)); simpl; tauto. }
    rewrite Forall_forall in Hlt. specialize (Hlt x Hall). zbool. lia. }
  rewrite Hf. destruct (sched_setaffinity m _) as [m' [[]|e]]; by rewrite ret_bind.
Qed.
End Launched.

(** ** A robot *)

Module DemoBot.

#[export] Existing Instance quote_debug.
Definition txt := ascii_bytes.
Definition attr (p : string) (l : list (string * MetaValue)) : Attr :=
  {| attr_path := txt p; nested := (fun kv => (txt kv.1, Some kv.2)) <$> l |}.
Definition field (n ty : string) (l : list Attr) : Field := {| f_ident := txt n; f_ty := txt ty; f_attrs := l |}.
Definition struct (fs : list Field) (l : list Attr) : DeriveInput :=
  {| in_ident := txt "Rover"; in_attrs := l; in_data := Struct (Named fs) |}.

(** a camera, a field that is no device, a motor *)
Definition rover : DeriveInput := struct
  [field "cam" "Camera" [attr "camera" [("element", VType (txt "Frame")); ("capacity", VInt 256)]];
   field "name" "String" [];
   field "arm" "Motor" [attr "doc" []; attr "motor" [("id", VInt 7); ("role", VStr (txt "INPUT"))]]]
  [attr "robot" []].

Notation floor := (list (list Z * Gen.Task)).
(** threads are started until one name is refused *)
#[export] Instance floor_spawner : Gen.Spawner floor nat unit := {
  Gen.thread_spawn w name t := if decide (name = txt "bad") then (w, Err tt) else (w ++ [(name, t)], Ok (length w))
}.
#[export, refine] Instance floor_laws : SpawnerLaws floor nat unit := {| started w := snd <$> w |}.
Proof.
  intros w name t w' r. cbn. destruct (decide _); intros [= <- <-]; [done|]. by rewrite fmap_app.
Defined.
#[export] Instance four_cores : PinOs (list (gset Z)) unit := {
  sysconf_nproc _ := 4; sched_setaffinity w s := (w ++ [s], Ok tt)
}.
Definition profile : CoreProfile :=
  match parse (txt "video = 0,1" ++ [10] ++ txt "input = 3" ++ [10]) with Ok p => p | Err _ => ∅ end.
Definition bot : Generated :=
  {| g_name := txt "Rover"; thread_per_core := true;
     cfgs := [{| ident := txt "cam"; id := 0; element := txt "Frame"; capacity := 256; role := LVideo |};
              {| ident := txt "arm"; id := 7; element := txt "Motor"; capacity := 1024; role := LInput |}] |}.

End DemoBot.
Import DemoBot.

Example rover_read : expand DemoBot.rover = Ok DemoBot.bot.
Proof. vm_compute. reflexivity. Qed.
(** an unknown role, an unknown key, a struct without devices *)
Example derive_refuses :
  expand (DemoBot.struct [DemoBot.field "cam" "Camera" [DemoBot.attr "camera" [("role", VStr (DemoBot.txt "gpu"))]]] []) =
    Err (Message (ascii_bytes "unknown robot role " ++ [34] ++ ascii_bytes "gpu" ++ [34] ++
                  ascii_bytes " (expected video/control/network/input/media/storage/spare)")) /\
  expand (DemoBot.struct [DemoBot.field "cam" "Camera" [DemoBot.attr "camera" [("cores", VInt 1)]]] []) =
    Err (Message (ascii_bytes "unknown key (expected id/element/capacity/role)")) /\
  expand (DemoBot.struct [DemoBot.field "cam" "Camera" []] []) =
    Err (Message (ascii_bytes "#[derive(Robot)] found no #[camera] or #[motor] fields to wire up")).
Proof. vm_compute. split_and!; reflexivity. Qed.

(** A field with both attributes is wired twice: the bundle generated has two
    fields of one name, and does not compile. *)
Lemma tagged_twice_collides :
  match expand (DemoBot.struct [DemoBot.field "cam" "Camera" [DemoBot.attr "camera" []; DemoBot.attr "motor" []]] []) with
  | Ok g => (Gen.ring_fields g).*1 = [DemoBot.txt "cam"; DemoBot.txt "cam"]
  | Err _ => False
  end.
Proof. vm_compute. reflexivity. Qed.
(** An id given to one field may be the position another one defaults to. *)
Lemma default_id_collides :
  match expand (DemoBot.struct [DemoBot.field "cam" "Camera" [DemoBot.attr "camera" [("id", VInt 1)]];
                                DemoBot.field "arm" "Motor" [DemoBot.attr "motor" []]] []) with
  | Ok g => id <$> cfgs g = [1; 1]
  | Err _ => False
  end.
Proof. vm_compute. reflexivity. Qed.

(** A device whose role the profile does not assign: the launch succeeds, and the
    device never runs. *)
Lemma unassigned_role_never_runs {A} (run : list Z -> list (gset Z) -> exec A) m :
  is_ok (Gen.launch DemoBot.bot ∅ ([] : DemoBot.floor)).2 = true /\
  Forall (fun t => Gen.thread_body m t run = Panic) (started (Gen.launch DemoBot.bot ∅ ([] : DemoBot.floor)).1).
Proof. split; [vm_compute; reflexivity|]. vm_compute. repeat constructor. Qed.

(** Two cameras are given the same cores. *)
Lemma same_role_same_cores g p c1 c2 : path (role c1) = path (role c2) ->
  Gen.pinned (Gen.task g p c1) = Gen.pinned (Gen.task g p c2).
Proof. intros H. unfold Gen.task. by rewrite H. Qed.

Lemma demo_profile_ok : profile_ok DemoBot.profile /\ validate DemoBot.profile 4 = Ret (Ok tt).
Proof.
  split; [|vm_compute; reflexivity]. unfold DemoBot.profile.
  destruct (parse _) as [p|e] eqn:E; [by eapply parse_ok|]. vm_compute in E. discriminate.
Qed.

Lemma launch_isolates_witness : exists w' hs,
  Gen.launch DemoBot.bot DemoBot.profile ([] : DemoBot.floor) = (w', Ok hs) /\ length hs = 2%nat /\
  started w' = [{| Gen.device := ascii_bytes "cam"; Gen.pinned := Some [0; 1] |};
                {| Gen.device := ascii_bytes "arm"; Gen.pinned := Some [3] |}] /\
  (fun t => Gen.thread_body ([] : list (gset Z)) t (fun _ m => Ret m)) <$> started w' = [Ret [list_to_set [0; 1]]; Ret [list_to_set [3]]].
Proof.
  destruct (Gen.launch DemoBot.bot DemoBot.profile ([] : DemoBot.floor)) as [w' r] eqn:E.
  assert (Hr : exists hs, r = Ok hs).
  { assert (H : is_ok (Gen.launch DemoBot.bot DemoBot.profile ([] : DemoBot.floor)).2 = true) by (vm_compute; reflexivity).
    rewrite E in H. destruct r; [eauto | discriminate]. }
  destruct Hr as [hs ->]. destruct demo_profile_ok as [Hp Hv].
  assert (Hm : core_count ([] : list (gset Z)) <= 1024) by (vm_compute; intros H; discriminate H).
  destruct (launch_isolates DemoBot.bot DemoBot.profile [] w' hs ([] : list (gset Z)) (fun _ m => Ret m) eq_refl Hp
    Hm Hv E) as (Hs & Hl & Hb & _).
  set (c1 := {| ident := ascii_bytes "cam"; id := 0; element := ascii_bytes "Frame"; capacity := 256; role := LVideo |}) in *.
  set (c2 := {| ident := ascii_bytes "arm"; id := 7; element := ascii_bytes "Motor"; capacity := 1024; role := LInput |}) in *.
  assert (Ht : started w' = [Gen.task DemoBot.bot DemoBot.profile c1; Gen.task DemoBot.bot DemoBot.profile c2]) by (rewrite Hs; reflexivity).
  exists w', hs. split; [reflexivity|]. split; [exact Hl|]. split; [rewrite Ht; vm_compute; reflexivity|].
  rewrite Ht. cbn [fmap list_fmap].
  rewrite (Hb c1), (Hb c2) by (apply list_elem_of_In; unfold DemoBot.bot, cfgs; simpl; tauto). vm_compute. reflexivity.
Defined.
