(* ===== verification/SafetyThread.v ===== *)
(** * The safety thread: [tpt-t-safety/src/loop_.rs] ([run_until], [spawn]), [rt.rs]

    The thread that owns a [SafetyLoop], beside the threads that feed its rings and
    the handle that stops it, as interleaved events: each access of the thread to a
    ring they share is an event of its own.  [safety_thread_serves] reduces every
    interleaving to a run of the bare loop. *)

From stdpp Require Import strings.
From S2P Require Import Prelude Cast Ring Mode Pool Ser Text Float Safety SafetyLoop.

(** ** Real-time priority (rt.rs, Linux) *)

Inductive RtError (E : Type) := RtOs (e : E) | RtMach (kr : Z).
Arguments RtOs {E} e.
Arguments RtMach {E} kr.
Definition RtError_fmt {E} (show : E -> list Z) (e : RtError E) : list Z :=
  match e with
  | RtOs e => ascii_bytes "RT priority syscall failed: " ++ show e
  | RtMach kr => ascii_bytes "mach policy failed: kern=" ++ dec_signed kr
  end.

Class SchedOs (W E : Type) := {
  sched_get_priority_max : Z -> Z;
  (** thread, policy, priority *)
  sched_setscheduler : W -> Z -> Z -> Z -> W * result unit E
}.
Definition SCHED_FIFO : Z := 1.

Definition elevate_current_thread {W E} `{SO : !SchedOs W E} (w : W) : W * result unit (RtError E) :=
  let '(w, r) := sched_setscheduler w 0 SCHED_FIFO (sched_get_priority_max SCHED_FIFO) in
  (w, match r with Ok _ => Ok tt | Err e => Err (RtOs e) end).

(** ** A ring whatever it holds *)

Section Rings.
Context {Q A : Type} `{BF : !BoundedFifo Q A}.
Lemma fifo_push_total (q : Q) l v : fifo_rep q l ->
  exists q' r, fifo_push q v = Ret (q', r) /\ fifo_rep q' (if is_ok r then l ++ [v] else l) /\
               fifo_capacity q' = fifo_capacity q.
Proof.
  intros H. destruct (Z.lt_ge_cases (Z.of_nat (length l)) (fifo_capacity q)) as [Hc|Hc].
  - destruct (fifo_push_ok q l v H Hc) as (q' & -> & ? & ?). by exists q', (Ok tt).
  - rewrite (fifo_push_full q l v H Hc). by exists q, (Err v).
Qed.
Lemma fifo_pop_total (q : Q) l : fifo_rep q l ->
  exists q' o, fifo_pop q = Ret (q', o) /\ fifo_rep q' (tail l) /\ fifo_capacity q' = fifo_capacity q /\ o = head l.
Proof.
  destruct l as [|v l]; intros H.
  - rewrite (fifo_pop_nil _ H). by exists q, None.
  - destruct (fifo_pop_some _ _ _ H) as (q' & -> & ? & ?). by exists q', (Some v).
Qed.
End Rings.

(** ** The thread *)

Section Thread.
Context (hypot : f64 -> f64 -> f64).
Context {Q QE : Type} `{RQ : !BoundedFifo Q Command} `{RE : !BoundedFifo QE Transition}.
Context {W Er : Type} `{SO : !SchedOs W Er}.
Notation Loop := (SafetyLoop Q QE).

(** *** A tick in steps

    [process_one] looks at the input ring once for every command it drains; what
    comes after the drain touches, of what is shared, the output ring, once. *)
Definition finish (s : Loop) (newest : option Command) (drained : nat) (now_ns unix_ns : Z)
  : exec (Loop * nat * option Command) :=
  match newest with
  | None => Ret (s, 0%nat, None)
  | Some cmd =>
      let '(lat, _) := Latency.observe (latency s) now_ns (Cmd.timestamp_ns cmd) in
      let s := with_latency s lat in
      let cmd := Latency.compensate lat cmd in
      s ← advance_blend s;
      let cmd := mix_authority s cmd in
      '(cmd, _) ← Veto.apply (veto s) cmd;
      '(s, cmd) ← fence_stage hypot s unix_ns cmd;
      '(cmd, _) ← Limits.apply (limits (cfg s)) (last_out s) cmd;
      let '(s, cmd) := brake_stage s cmd in
      let cmd := if estop_latched s then Limits.write_emergency_stop (Cmd.seq cmd) now_ns else cmd in
      '(out, r) ← fifo_push (output s) cmd;
      let dropped := if is_ok r then dropped_out s else wadd 64 (dropped_out s) 1 in
      Ret (with_output s out cmd dropped, drained, Some cmd)
  end.

(** undisturbed, the steps are the tick *)
Lemma process_one_steps fuel (s : Loop) now u : process_one hypot fuel s now u =
  (s ← advance_blend s;
   '(inp, drained) ← fifo_drain fuel (input s);
   finish (with_rings s inp (output s)) (last drained) (length drained) now u).
Proof. reflexivity. Qed.

(** where the thread is: before its priority is raised, about to look at the stop
    flag, about to tick, about to look at the input ring with the newest command and
    the count so far, about to finish the tick, gone *)
Inductive Place :=
| Starting | Checking | Ticking
| Draining (now : Z) (newest : option Command) (drained : nat)
| Emitting (now : Z) (newest : option Command) (drained : nat)
| Finished.

(** [stop] and [rt_ok] are shared with the handle; the rings of [looped] are shared
    with their other ends *)
Record SafetyThread := { looped : Loop; stop : bool; rt_ok : bool; place : Place }.

(** [spawn]: the loop moves into the thread *)
Definition spawned (l : Loop) : SafetyThread := {| looped := l; stop := false; rt_ok := false; place := Starting |}.

Definition rt_elevated (t : SafetyThread) : bool := rt_ok t.

(** what an event did: a command was accepted by the input ring, the drain took one,
    a tick came to its end with what it emitted, the far end looked at the output *)
Inductive label := Accepted (c : Command) | Popped (c : Command) | Ticked (now unix_ns : Z) (out : option Command) | Took.

Definition at_place (t : SafetyThread) (l : Loop) (pc : Place) : SafetyThread :=
  {| looped := l; stop := stop t; rt_ok := rt_ok t; place := pc |}.

(** one step of the thread; [now]: [unix_ns_now()], [unix_ns]: the machine's clock *)
Definition thread_step (w : W) (t : SafetyThread) (now unix_ns : Z) : exec (W * SafetyThread * list label) :=
  match place t with
  | Starting =>
      let '(w, r) := elevate_current_thread w in
      Ret (w, {| looped := looped t; stop := stop t; rt_ok := is_ok r; place := Checking |}, [])
  | Checking => Ret (w, at_place t (looped t) (if stop t then Finished else Ticking), [])
  | Ticking =>
      l ← advance_blend (looped t);
      Ret (w, at_place t l (Draining now None 0), [])
  | Draining now newest n =>
      '(q, o) ← fifo_pop (input (looped t));
      let l := with_rings (looped t) q (output (looped t)) in
      match o with
      | Some c => Ret (w, at_place t l (Draining now (Some c) (S n)), [Popped c])
      | None => Ret (w, at_place t l (Emitting now newest n), [])
      end
  | Emitting now newest n =>
      '(l, _, c) ← finish (looped t) newest n now unix_ns;
      Ret (w, at_place t l Checking, [Ticked now unix_ns c])
  | Finished => Ret (w, t, [])
  end.

(** what can happen: a command is pushed at the far end of the input ring, one is
    taken at the far end of the output ring, the handle's [stop] raises the flag, the
    thread takes a step *)
Inductive event := EPush (c : Command) | ETake | EStop | EThread (now unix_ns : Z).

Definition with_loop (t : SafetyThread) (l : Loop) : SafetyThread := at_place t l (place t).

Definition happens (w : W) (t : SafetyThread) (e : event) : exec (W * SafetyThread * list label) :=
  match e with
  | EPush c =>
      '(q, r) ← fifo_push (input (looped t)) c;
      Ret (w, with_loop t (with_rings (looped t) q (output (looped t))), if is_ok r then [Accepted c] else [])
  | ETake =>
      '(q, _) ← fifo_pop (output (looped t));
      Ret (w, with_loop t (with_rings (looped t) (input (looped t)) q), [Took])
  | EStop => Ret (w, {| looped := looped t; stop := true; rt_ok := rt_ok t; place := place t |}, [])
  | EThread now u => thread_step w t now u
  end.

(** the state after the events and what they did *)
Fixpoint life (w : W) (t : SafetyThread) (es : list event) : exec (W * SafetyThread * list label) :=
  match es with
  | [] => Ret (w, t, [])
  | e :: es =>
      '(w, t, ls) ← happens w t e;
      '(w, t, ls') ← life w t es;
      Ret (w, t, ls ++ ls')
  end.

(** [run_until] of a thread of its own: the readings of the flag and the clock *)
Fixpoint run_until (l : Loop) (readings : list (bool * Z * Z)) : exec (Loop * list Command) :=
  match readings with
  | [] => NoFuel
  | (flag, now, u) :: readings =>
      if flag : bool then Ret (l, [])
      else
        '(l, _, c) ← process_one hypot (drain_fuel l) l now u;
        '(l, outs) ← run_until l readings;
        Ret (l, option_list c ++ outs)
  end.

(** ** Every interleaving is a run of the loop *)

Definition accepted (ls : list label) : list Command := omap (fun x => match x with Accepted c => Some c | _ => None end) ls.
Definition popped (ls : list label) : list Command := omap (fun x => match x with Popped c => Some c | _ => None end) ls.
Definition emitted (ls : list label) : list Command := omap (fun x => match x with Ticked _ _ o => o | _ => None end) ls.
Definition ticks (ls : list label) : nat := length (omap (fun x => match x with Ticked _ _ _ => Some tt | _ => None end) ls).
Definition steps (es : list event) : nat := length (omap (fun e => match e with EThread _ _ => Some tt | _ => None end) es).
Definition pushes (es : list event) : nat := length (omap (fun e => match e with EPush _ => Some tt | _ => None end) es).

(** the run of a bare loop that the labels stand for: each tick is given the newest
    command its drain took, and nothing else, and ticks; [newest]: of the drain going on *)
Definition bare_op (newest : option Command) (x : label) : list loop_op :=
  match x with
  | Ticked now u _ => (OpInput <$> option_list newest) ++ [OpTick now u]
  | Took => [OpTake]
  | _ => []
  end.
Definition newest_after (newest : option Command) (x : label) : option Command :=
  match x with Popped c => Some c | Ticked _ _ _ => None | _ => newest end.
Fixpoint bare_ops (newest : option Command) (ls : list label) : list loop_op :=
  match ls with
  | [] => []
  | x :: ls => bare_op newest x ++ bare_ops (newest_after newest x) ls
  end.

Lemma bare_ops_app newest a b : bare_ops newest (a ++ b) = bare_ops newest a ++ bare_ops (foldl newest_after newest a) b.
Proof.
  revert newest. induction a as [|x a IH]; intros newest; cbn [app bare_ops foldl]; [done|]. by rewrite IH, app_assoc.
Qed.

(** two loops that differ in their input rings only *)
Definition agree (a b : Loop) : Prop := b = with_rings a (input b) (output a).

Lemma agree_swap (a b : Loop) q : agree a b -> agree (with_rings a q (output a)) b.
Proof. intros H. unfold agree in *. rewrite H at 1. done. Qed.
Lemma agree_input (a b : Loop) q : agree a b -> agree a (with_rings b q (output b)).
Proof. intros ->. done. Qed.
Lemma agree_output (a b : Loop) q qa qb : agree a b -> agree (with_rings a qa q) (with_rings b qb q).
Proof. intros ->. done. Qed.

(** the stages of a tick do not look at the input ring *)
Lemma advance_blend_rings (s s' : Loop) qi qo : advance_blend s = Ret s' ->
  advance_blend (with_rings s qi qo) = Ret (with_rings s' qi qo) /\ input s' = input s /\ output s' = output s.
Proof.
  unfold advance_blend. cbn [blend cfg with_rings]. destruct (blend s) as [b|]; [|by intros [= <-]].
  destruct (Spline.advance b _) as [[b1 x]| | |]; cbn [mbind exec_bind]; [|done..]. by intros [= <-].
Qed.

Lemma fence_stage_rings (s s' : Loop) u c d qi : fence_stage hypot s u c = Ret (s', d) ->
  fence_stage hypot (with_rings s qi (output s)) u c = Ret (with_rings s' qi (output s'), d).
Proof.
  unfold fence_stage. cbn [fence cfg pose with_rings estop_latched machine].
  destruct (decide _); [by intros [= <- <-]|].
  destruct (Geo.clamp_command _ _ _ _ c) as [c'| | |]; cbn [mbind exec_bind]; [|done..].
  destruct (_ && negb (estop_latched s)); [|by intros [= <- <-]].
  destruct (Machine.force_emergency_stop (machine s) u) as [[m k]| | |]; cbn [mbind exec_bind]; [|done..].
  by intros [= <- <-].
Qed.

Lemma finish_rings (s s' : Loop) newest n now u k c qi : finish s newest n now u = Ret (s', k, c) ->
  finish (with_rings s qi (output s)) newest n now u = Ret (with_rings s' qi (output s'), k, c).
Proof.
  unfold finish. destruct newest as [cmd|]; [|by intros [= <- <- <-]]. cbn [latency with_rings].
  destruct (Latency.observe _ _ _) as [lat o]. set (s1 := with_latency s lat).
  change (with_latency (with_rings s qi (output s)) lat) with (with_rings s1 qi (output s1)).
  intros (s2 & E2 & E)%bind_ret_inv. destruct (advance_blend_rings s1 s2 qi (output s1) E2) as (-> & _ & Ho).
  rewrite ret_bind. rewrite <- Ho. cbn [veto with_rings].
  change (mix_authority (with_rings s2 qi (output s2))) with (mix_authority s2).
  apply bind_ret_inv in E as ([c1 v1] & -> & E). rewrite ret_bind.
  apply bind_ret_inv in E as ([s3 c2] & E3 & E). rewrite (fence_stage_rings _ _ _ _ _ qi E3), ret_bind.
  cbn [limits cfg last_out with_rings]. apply bind_ret_inv in E as ([c3 v3] & -> & E). rewrite ret_bind.
  change (brake_stage (with_rings s3 qi (output s3)) c3) with
    (let '(x, y) := brake_stage s3 c3 in (with_rings x qi (output s3), y)).
  destruct (brake_stage s3 c3) as [s4 c4] eqn:E4. assert (H4 : output s4 = output s3).
  { unfold brake_stage in E4. by injection E4 as <- _. }
  cbn [estop_latched output with_rings dropped_out]. rewrite <- H4.
  apply bind_ret_inv in E as ([q r] & -> & E). rewrite ret_bind. by injection E as <- <- <-.
Qed.

(** what a tick emits does not depend on how many commands it drained *)
Lemma finish_count (s s' : Loop) newest n m now u k c : finish s newest n now u = Ret (s', k, c) ->
  exists k', finish s newest m now u = Ret (s', k', c).
Proof.
  unfold finish. destruct newest as [cmd|]; [|intros [= <- _ <-]; by eexists].
  destruct (Latency.observe _ _ _). intros (s2 & -> & E)%bind_ret_inv. rewrite ret_bind.
  apply bind_ret_inv in E as ([c1 v1] & -> & E). rewrite ret_bind. apply bind_ret_inv in E as ([s3 c2] & -> & E).
  rewrite ret_bind. apply bind_ret_inv in E as ([c3 v3] & -> & E). rewrite ret_bind. destruct (brake_stage s3 c3).
  apply bind_ret_inv in E as ([q r] & -> & E). rewrite ret_bind. injection E as <- _ <-. by eexists.
Qed.

Lemma tick_ends newest q (l : Loop) outq : loop_inv l [] outq -> fifo_rep q (option_list newest) ->
  fifo_capacity (input l) = fifo_capacity q -> 1 <= fifo_capacity q -> (forall c, newest = Some c -> wf6 c) ->
  forall now u, exists l' n c, process_one hypot (drain_fuel (with_rings l q (output l))) (with_rings l q (output l)) now u = Ret (l', n, c) /\
    (exists outq', loop_inv l' [] outq') /\ fifo_capacity (input l') = fifo_capacity q.
Proof.
  intros I Hq Hc Hc1 Hw now u. set (s := with_rings l q (output l)).
  assert (Is : loop_inv s (option_list newest) outq).
  { destruct I as [H1 H2 H3 H4 H5 H6 H7]. constructor; try done. destruct newest; [|constructor]. constructor; [by apply Hw|constructor]. }
  assert (Hf : (length (option_list newest) < drain_fuel s)%nat).
  { unfold drain_fuel. change (input s) with q. destruct newest; simpl; lia. }
  destruct newest as [c|].
  - destruct (process_cmd hypot (drain_fuel s) s [c] outq c now u Is eq_refl Hf)
      as (l' & out & pre & -> & I' & _ & _ & _ & _ & Hi & _). do 3 eexists. split; [done|]. split; [by eexists|]. by rewrite Hi.
  - destruct (process_idle hypot (drain_fuel s) s outq now u Is Hf) as (l' & -> & I' & _ & _ & _ & _ & _ & _ & Hi).
    do 3 eexists. split; [done|]. split; [by eexists|]. by rewrite Hi.
Qed.

(** The thread and the bare loop [l] between two events: [newest] is what the drain
    going on has taken, [q] the commands in the input ring. *)
Record simulates (t : SafetyThread) (l : Loop) (newest : option Command) (q : list Command) : Prop := {
  sm_bare : exists outq, loop_inv l [] outq;
  sm_cap : 1 <= fifo_capacity (input l);
  sm_ring : fifo_rep (input (looped t)) q;
  sm_wf : Forall wf6 q /\ forall c, newest = Some c -> wf6 c;
  sm_loop : match place t with
            | Draining _ nw _ | Emitting _ nw _ =>
                nw = newest /\ exists x, advance_blend l = Ret x /\ agree x (looped t)
            | _ => newest = None /\ agree l (looped t)
            end
}.

Lemma agree_out (a b : Loop) : agree a b -> output b = output a.
Proof. by intros ->. Qed.

Lemma place_output t l newest q : simulates t l newest q -> output (looped t) = output l.
Proof.
  intros [_ _ _ _ H]. destruct (place t); try (destruct H as [_ H]; by apply agree_out in H);
    destruct H as [_ (x & E & H)]; apply agree_out in H; rewrite H; by apply (advance_blend_rings l x (input l) (output l)).
Qed.

(** the end of a tick is the tick of the bare loop *)
Lemma emit_tick t l newest q now n u : simulates t l newest q -> place t = Emitting now newest n ->
  exists s' k c l', finish (looped t) newest n now u = Ret (s', k, c) /\
    loop_run hypot l ((OpInput <$> option_list newest) ++ [OpTick now u]) = Ret (l', option_list c) /\
    agree l' s' /\ input s' = input (looped t) /\ (exists outq, loop_inv l' [] outq) /\ 1 <= fifo_capacity (input l').
Proof.
  intros [[outq I] Hc Hr [_ Hw] Hl] Hp. rewrite Hp in Hl. destruct Hl as [_ (x & Ex & Hx)].
  assert (Hq : exists q1, loop_run hypot l (OpInput <$> option_list newest) = Ret (with_rings l q1 (output l), []) /\
    fifo_rep q1 (option_list newest) /\ fifo_capacity q1 = fifo_capacity (input l)).
  { destruct newest as [c|]; cbn [option_list option_rect fmap list_fmap loop_run loop_step].
    - destruct (fifo_push_ok (input l) [] c (li_input _ _ _ I)) as (q1 & -> & H1 & H2); [simpl; lia|].
      rewrite !ret_bind. by eexists.
    - exists (input l). split; [by destruct l|]. split; [apply (li_input _ _ _ I) | done]. }
  destruct Hq as (q1 & E1 & Hq1 & Hc1).
  destruct (tick_ends newest q1 l outq I Hq1 (eq_sym Hc1) ltac:(lia) Hw now u) as (l' & k & c & Et & Hl' & Hc').
  pose proof Et as Es. rewrite process_one_steps in Es.
  destruct (advance_blend_rings l x q1 (output l) Ex) as (Eb & Hi & Ho). rewrite Eb, ret_bind in Es. cbn [input with_rings output] in Es.
  destruct (fifo_drain_spec (option_list newest) (drain_fuel (with_rings l q1 (output l))) q1 Hq1) as (q2 & Ed & _ & _).
  { unfold drain_fuel. cbn [input with_rings]. destruct newest; simpl; lia. }
  rewrite Ed, ret_bind in Es. cbn beta iota in Es.
  assert (Hlast : last (option_list newest) = newest) by (by destruct newest). rewrite Hlast in Es.
  change (with_rings (with_rings x q1 (output l)) q2 (output l)) with (with_rings x q2 (output l)) in Es. rewrite <- Ho in Es.
  assert (Hs : looped t = with_rings (with_rings x q2 (output x)) (input (looped t)) (output (with_rings x q2 (output x)))) by exact Hx.
  destruct (finish_count _ _ _ _ n _ _ _ _ Es) as (k' & Es').
  pose proof (finish_rings _ _ _ _ _ _ _ _ (input (looped t)) Es') as Ef. rewrite <- Hs in Ef.
  exists (with_rings l' (input (looped t)) (output l')), k', c, l'. split; [exact Ef|]. split.
  { rewrite loop_run_app, E1, ret_bind. cbn beta iota. cbn [loop_run loop_step]. rewrite Et, !ret_bind, app_nil_r. done. }
  split; [done|]. split; [done|]. split; [done|]. lia.
Qed.

(** One event: it does not panic, and the bare loop takes the operations it stands
    for. *)
Lemma happens_simulates (w : W) t l newest q e : simulates t l newest q ->
  match e with EPush c => wf6 c | _ => True end ->
  exists w' t' ls l' q', happens w t e = Ret (w', t', ls) /\
    loop_run hypot l (bare_ops newest ls) = Ret (l', emitted ls) /\
    simulates t' l' (foldl newest_after newest ls) q' /\
    q ++ accepted ls = popped ls ++ q' /\ fifo_capacity (input (looped t')) = fifo_capacity (input (looped t)).
Proof.
  intros S Hw. pose proof (place_output _ _ _ _ S) as Hout. destruct S as [[outq I] Hc Hr [Hq Hn] Hl].
  destruct e as [c| | |now u]; cbn [happens].
  - (* a push *)
    destruct (fifo_push_total (input (looped t)) q c Hr) as (q1 & r & E & H).
    rewrite E, ret_bind. exists w. do 2 eexists. exists l, (if is_ok r then q ++ [c] else q). split; [reflexivity|].
    split; [by destruct r|]. cbn [with_loop at_place looped].
    assert (S' : forall nw, nw = newest -> simulates (with_loop t (with_rings (looped t) q1 (output (looped t)))) l nw (if is_ok r then q ++ [c] else q)).
    { intros ? ->. constructor; cbn [with_loop at_place looped place input with_rings]; [by eexists | done | apply H | |].
      - split; [|done]. destruct r; cbn [is_ok]; [|done]. apply Forall_app. split; [done|]. by constructor.
      - destruct (place t); first [destruct Hl as [? Hl]; split; [done|]; by apply agree_input |
          destruct Hl as [? (x & Ex & Hx)]; split; [done|]; exists x; split; [done|]; by apply agree_input]. }
    destruct r; cbn [is_ok foldl newest_after accepted popped omap list_omap app] in *;
      (split; [by apply S'|]); split; [done | by apply H | by rewrite app_nil_r | by apply H].
  - (* a take *)
    destruct (fifo_pop_total (output l) outq (li_output _ _ _ I)) as (q1 & o & E & H & _). rewrite Hout, E, ret_bind.
    exists w. do 2 eexists. exists (with_rings l (input l) q1), q. split; [reflexivity|].
    cbn [bare_ops bare_op app loop_run loop_step]. rewrite E, !ret_bind. split; [done|].
    cbn [foldl newest_after accepted popped omap list_omap app]. rewrite app_nil_r. split; [|done].
    constructor; cbn [with_loop at_place looped place input with_rings output]; [|done|done|done|].
    + exists (tail outq). destruct I. by constructor.
    + destruct (place t); first [destruct Hl as [? Hl]; split; [done|]; by apply agree_output |
        destruct Hl as [? (x & Ex & Hx)]; split; [done|];
        exists (with_rings x (input l) q1); split; [by apply advance_blend_rings | by apply agree_output]].
  - (* the flag *)
    exists w. do 2 eexists. exists l, q. split; [reflexivity|]. split; [done|]. rewrite app_nil_r. split; [|done].
    constructor; [by eexists | done..].
  - (* the thread *)
    unfold thread_step. destruct (place t) as [| | |nw x n|nw x n|] eqn:Ep.
    + destruct (elevate_current_thread w) as [w1 r]. exists w1. do 2 eexists. exists l, q. split; [reflexivity|]. split; [done|].
      rewrite app_nil_r. split; [|done]. constructor; [by eexists | done..].
    + exists w. do 2 eexists. exists l, q. split; [reflexivity|]. split; [done|]. rewrite app_nil_r. split; [|done].
      constructor; [by eexists | done..|]. cbn [at_place place]. by destruct (stop t).
    + destruct Hl as [Hnn Hl]. destruct (advance_blend_ok l) as (a & Ea). set (x := with_blend _ _ _) in Ea.
      destruct (advance_blend_rings l x (input (looped t)) (output l) Ea) as (Eb & Hi & Ho).
      assert (Et : looped t = with_rings l (input (looped t)) (output l)) by exact Hl. rewrite <- Et in Eb. rewrite Eb, ret_bind.
      exists w. do 2 eexists. exists l, q. split; [reflexivity|]. split; [done|]. rewrite app_nil_r. split; [|done].
      constructor; cbn [at_place looped place input with_rings]; [by eexists | done..|].
      split; [done|]. exists x. split; [done|]. unfold agree. cbn [input with_rings]. by rewrite Ho.
    + destruct Hl as [-> Hl]. destruct (fifo_pop_total (input (looped t)) q Hr) as (q1 & o & E & H & Hcap & Ho).
      rewrite E, ret_bind. cbn beta iota zeta. subst o. destruct q as [|c q]; cbn [head tail] in *.
      * exists w. do 2 eexists. exists l, []. split; [reflexivity|]. split; [done|]. split; [|done].
        constructor; cbn [at_place looped place input with_rings]; [by eexists | done..|].
        destruct Hl as (y & Ey & Hy). split; [done|]. exists y. split; [done|]. by apply agree_input.
      * exists w. do 2 eexists. exists l, q. split; [reflexivity|]. split; [done|].
        cbn [foldl newest_after accepted popped omap list_omap app]. rewrite app_nil_r. split; [|done].
        apply Forall_cons in Hq as [Hcw Hq].
        constructor; cbn [at_place looped place input with_rings]; [by eexists | done | done | split; [done|]; by intros ? [= <-] |].
        destruct Hl as (y & Ey & Hy). split; [done|]. exists y. split; [done|]. by apply agree_input.
    + assert (x = newest) as -> by apply Hl.
      assert (S : simulates t l newest q) by (constructor; [by eexists | done..|]; by rewrite Ep).
      destruct (emit_tick t l newest q nw n u S Ep) as (s' & k & c & l' & Ef & Erun & Ha & Hi & [outq' I'] & Hc').
      rewrite Ef, ret_bind. cbn beta iota. exists w. do 2 eexists. exists l', q. split; [reflexivity|].
      cbn [bare_ops bare_op app emitted omap list_omap foldl newest_after accepted popped]. rewrite !app_nil_r.
      split; [by destruct c|]. cbn [at_place looped]. rewrite Hi. split; [|done].
      constructor; cbn [at_place looped place]; [by eexists | done | by rewrite Hi | by split | by split].
    + exists w. do 2 eexists. exists l, q. split; [reflexivity|]. split; [done|]. rewrite app_nil_r. split; [|done].
      constructor; [by eexists | done..|]. by rewrite Ep.
Qed.

Definition event_wf (e : event) : Prop := match e with EPush c => wf6 c | _ => True end.

Lemma omap_app' {A B} (f : A -> option B) a b : omap f (a ++ b) = omap f a ++ omap f b.
Proof. induction a as [|x a IH]; cbn; [done|]. destruct (f x); cbn; by rewrite IH. Qed.

Lemma life_simulates es : Forall event_wf es -> forall (w : W) t l newest q, simulates t l newest q ->
  exists w' t' ls l' q', life w t es = Ret (w', t', ls) /\
    loop_run hypot l (bare_ops newest ls) = Ret (l', emitted ls) /\
    simulates t' l' (foldl newest_after newest ls) q' /\
    q ++ accepted ls = popped ls ++ q' /\ fifo_capacity (input (looped t')) = fifo_capacity (input (looped t)).
Proof.
  intros Hes. induction Hes as [|e es He Hes IH]; intros w t l newest q S; cbn [life].
  - exists w, t, [], l, q. split_and!; try done. by rewrite app_nil_r.
  - destruct (happens_simulates w t l newest q e S He) as (w1 & t1 & ls1 & l1 & q1 & -> & E1 & S1 & A1 & C1). rewrite ret_bind.
    destruct (IH w1 t1 l1 _ q1 S1) as (w2 & t2 & ls2 & l2 & q2 & -> & E2 & S2 & A2 & C2). rewrite ret_bind.
    exists w2, t2, (ls1 ++ ls2), l2, q2. split; [reflexivity|]. rewrite bare_ops_app, loop_run_app, E1, ret_bind.
    cbn beta iota. rewrite E2, ret_bind. unfold emitted, accepted, popped in *. rewrite !omap_app'. split; [done|].
    rewrite foldl_app. split; [done|]. split; [by rewrite app_assoc, A1, <- app_assoc, A2, app_assoc | congruence].
Qed.

Lemma life_app (w : W) t a b : life w t (a ++ b) =
  ('(w, t, ls) ← life w t a; '(w, t, ls') ← life w t b; Ret (w, t, ls ++ ls')).
Proof.
  revert w t. induction a as [|e a IH]; intros w t; cbn [app life].
  - rewrite ret_bind. by destruct (life w t b) as [[[w1 t1] l1]| | |].
  - destruct (happens w t e) as [[[w1 t1] l1]| | |]; [|done..]. rewrite !ret_bind, IH.
    destruct (life w1 t1 a) as [[[w2 t2] l2]| | |]; [|done..]. rewrite !ret_bind.
    destruct (life w2 t2 b) as [[[w3 t3] l3]| | |]; [|done..]. by rewrite !ret_bind, app_assoc.
Qed.

(** *** The stop *)

(** how many steps the thread still takes once the flag is up, with [n] commands in
    the input ring or to come *)
Definition to_go (pc : Place) (n : nat) : nat :=
  match pc with
  | Starting => 2 | Checking => 1 | Ticking => n + 4 | Draining _ _ _ => n + 3 | Emitting _ _ _ => 2 | Finished => 0
  end.
(** and how many ticks it still ends *)
Definition ticks_to_go (pc : Place) : nat := match pc with Ticking | Draining _ _ _ | Emitting _ _ _ => 1 | _ => 0 end.

Lemma happens_stopped (w : W) t e q w' t' ls : fifo_rep (input (looped t)) q -> stop t = true ->
  happens w t e = Ret (w', t', ls) -> forall q', fifo_rep (input (looped t')) q' -> q ++ accepted ls = popped ls ++ q' ->
  stop t' = true /\ (ticks ls + ticks_to_go (place t') <= ticks_to_go (place t))%nat /\
  forall n, (to_go (place t') (length q' + n) <=
    to_go (place t) (length q + (pushes [e] + n)) - steps [e])%nat.
Proof.
  intros Hq Hs E q' Hq' Ha. apply (f_equal length) in Ha. rewrite !length_app in Ha.
  destruct e as [c| | |now u]; cbn [happens] in E.
  - apply bind_ret_inv in E as ([q1 r] & E & [= <- <- <-]). cbn [with_loop at_place place stop]. split; [done|].
    assert (Hle : (length q' <= S (length q))%nat) by (destruct r; cbn in Ha; lia).
    split; [by destruct r|]. intros n. cbn [pushes steps omap list_omap length]. destruct (place t); cbn [to_go]; lia.
  - apply bind_ret_inv in E as ([q1 r] & E & [= <- <- <-]). cbn in Ha. split; [done|]. split; [done|]. intros n.
    cbn. destruct (place t); cbn [to_go]; lia.
  - injection E as <- <- <-. cbn in Ha. split; [done|]. split; [done|]. intros n. cbn. destruct (place t); cbn [to_go]; lia.
  - unfold thread_step in E. change (pushes [EThread now u]) with O. change (steps [EThread now u]) with 1%nat.
    destruct (place t) as [| | |nw x k|nw x k|] eqn:Ep.
    + destruct (elevate_current_thread w). injection E as <- <- <-. cbn in *. split; [done|]. split; [lia|]. intros; lia.
    + rewrite Hs in E. injection E as <- <- <-. cbn in *. split; [done|]. split; [lia|]. intros; lia.
    + apply bind_ret_inv in E as (l & E & [= <- <- <-]). cbn in *. split; [done|]. split; [lia|]. intros; lia.
    + apply bind_ret_inv in E as ([q1 o] & E & E1). cbn beta iota zeta in E1.
      destruct (fifo_pop_total (input (looped t)) q Hq) as (q2 & o2 & E2 & _ & _ & Ho). rewrite E2 in E. injection E as -> ->.
      destruct q as [|c q]; cbn [head] in Ho; subst; injection E1 as <- <- <-; cbn in *; (split; [done|]); (split; [lia|]); intros; lia.
    + apply bind_ret_inv in E as ([[l m] c] & E & [= <- <- <-]). cbn in *. split; [done|]. split; [lia|]. intros; lia.
    + injection E as <- <- <-. rewrite Ep. cbn in *. split; [done|]. split; [lia|]. intros; lia.
Qed.

Lemma life_stopped es : Forall event_wf es -> forall (w : W) t l newest q, simulates t l newest q -> stop t = true ->
  exists w' t' ls, life w t es = Ret (w', t', ls) /\ (ticks ls + ticks_to_go (place t') <= ticks_to_go (place t))%nat /\
    ((to_go (place t) (length q + pushes es) <= steps es)%nat -> place t' = Finished).
Proof.
  intros Hes. induction Hes as [|e es He Hes IH]; intros w t l newest q S Hs; cbn [life].
  - exists w, t, []. split; [done|]. split; [cbn; lia|]. cbn [steps omap list_omap length].
    destruct (place t); cbn [to_go]; first [lia | done].
  - destruct (happens_simulates w t l newest q e S He) as (w1 & t1 & ls1 & l1 & q1 & E1 & _ & S1 & A1 & _).
    destruct (happens_stopped w t e q w1 t1 ls1 (sm_ring _ _ _ _ S) Hs E1 q1 (sm_ring _ _ _ _ S1) A1) as (Hs1 & Ht & Hg).
    rewrite E1, ret_bind. destruct (IH w1 t1 l1 _ q1 S1 Hs1) as (w2 & t2 & ls2 & -> & Ht2 & Hf). rewrite ret_bind.
    do 3 eexists. split; [reflexivity|]. split; [unfold ticks in *; rewrite omap_app', length_app; lia|].
    intros Hn. apply Hf. specialize (Hg (pushes es)).
    assert (Hp : pushes (e :: es) = (pushes [e] + pushes es)%nat /\ steps (e :: es) = (steps [e] + steps es)%nat).
    { unfold pushes, steps. change (e :: es) with ([e] ++ es). rewrite !omap_app', !length_app. done. }
    destruct Hp as [Hp Hst]. rewrite Hp, Hst in Hn. lia.
Qed.

Lemma spawned_simulates (l : Loop) inq outq q0 : loop_inv l inq outq -> fifo_rep q0 [] -> 1 <= fifo_capacity q0 ->
  simulates (spawned l) (with_rings l q0 (output l)) None inq.
Proof.
  intros I H0 Hc. constructor; cbn [spawned looped place input with_rings].
  - exists outq. destruct I. by constructor.
  - done.
  - apply I.
  - split; [apply I | done].
  - split; [done|]. unfold agree. by destruct l.
Qed.

(** C21: the safety thread is the safety loop.  However the other threads' pushes and
    takes interleave with the thread's own steps, which look at the input ring once
    for every command drained, the thread does not panic.  What its drains take are the
    commands that the ring held and accepted, in order, none lost or twice.  What
    its ticks emit is exactly what the bare loop emits when it is given, before each
    tick, the newest command that the tick's drain took, those pushed during the drain
    included, with the takes where they happened; raising a priority that is refused
    changes nothing.  Once the stop flag is up at most one more tick ends, and the
    thread is gone after as many steps as there are commands in the ring or pushed
    meanwhile, and four more; a producer that keeps pushing can hold it in its drain
    ([drain_outpaced]). *)
Theorem safety_thread_serves (w : W) (l : Loop) inq outq q0 es : loop_inv l inq outq -> Forall event_wf es ->
  fifo_rep q0 [] -> 1 <= fifo_capacity q0 ->
  exists w' t' ls l' rest, life w (spawned l) es = Ret (w', t', ls) /\
    inq ++ accepted ls = popped ls ++ rest /\ fifo_rep (input (looped t')) rest /\
    loop_run hypot (with_rings l q0 (output l)) (bare_ops None ls) = Ret (l', emitted ls) /\
    (match place t' with Draining _ _ _ | Emitting _ _ _ => True | _ => agree l' (looped t') end) /\
    forall before after, es = before ++ EStop :: after ->
      exists w1 t1 ls1 w2 ls2 q, life w (spawned l) before = Ret (w1, t1, ls1) /\ fifo_rep (input (looped t1)) q /\
        life w1 t1 (EStop :: after) = Ret (w2, t', ls2) /\ ls = ls1 ++ ls2 /\ (ticks ls2 <= 1)%nat /\
        ((length q + pushes after + 4 <= steps after)%nat -> place t' = Finished).
Proof.
  intros I Hw H0 Hc. pose proof (spawned_simulates l inq outq q0 I H0 Hc) as S.
  destruct (life_simulates es Hw w _ _ _ _ S) as (w' & t' & ls & l' & rest & E & Erun & S' & Ha & _).
  exists w', t', ls, l', rest. split; [done|]. split; [done|]. split; [apply S'|]. split; [done|].
  split; [pose proof (sm_loop _ _ _ _ S') as Hl; destruct (place t'); first [done | apply Hl]|].
  intros before after ->. apply Forall_app in Hw as [Hb [_ Hafter]%Forall_cons].
  destruct (life_simulates before Hb w _ _ _ _ S) as (w1 & t1 & ls1 & l1 & q & E1 & _ & S1 & _).
  rewrite life_app, E1, ret_bind in E. cbn beta iota in E. apply bind_ret_inv in E as ([[w2 t2] ls2] & E2 & [= -> -> <-]).
  exists w1, t1, ls1, w', ls2, q. split; [done|]. split; [apply S1|]. split; [done|]. split; [done|].
  cbn [life happens] in E2. rewrite ret_bind in E2. set (t1' := {| looped := looped t1; stop := true; rt_ok := rt_ok t1; place := place t1 |}) in E2.
  assert (S1' : simulates t1' l1 (foldl newest_after None ls1) q) by (destruct S1; by constructor).
  destruct (life_stopped after Hafter w1 t1' l1 _ q S1' eq_refl) as (w3 & t3 & ls3 & E3 & Ht & Hf).
  rewrite E3, ret_bind in E2. injection E2 as -> -> ->. cbn [t1' place] in *. split; [destruct (place t1); cbn in *; lia|].
  intros Hn. apply Hf. destruct (place t1); cbn [to_go]; lia.
Qed.

(** A producer that pushes as fast as the thread drains holds it in its tick, the stop
    flag up or not. *)
Lemma drain_outpaced (w : W) n : forall t now newest k q c, place t = Draining now newest k ->
  fifo_rep (input (looped t)) q -> q <> [] -> Z.of_nat (length q) < fifo_capacity (input (looped t)) ->
  exists w' t' ls now' newest' k', life w t (concat (replicate n [EPush c; EThread 0 0])) = Ret (w', t', ls) /\
    place t' = Draining now' newest' k' /\ ticks ls = 0%nat.
Proof.
  induction n as [|n IH]; intros t now newest k q c Hp Hq Hn Hc.
  - exists w, t, [], now, newest, k. split; [reflexivity|]. by split.
  - cbn [replicate concat app life happens].
    destruct (fifo_push_ok _ q c Hq Hc) as (q1 & -> & Hq1 & Hc1). rewrite !ret_bind. cbn beta iota.
    unfold thread_step. cbn [with_loop at_place place looped input with_rings output]. rewrite Hp.
    destruct q as [|d q]; [done|]. destruct (fifo_pop_some _ _ _ Hq1) as (q2 & -> & Hq2 & Hc2). rewrite !ret_bind. cbn beta iota zeta.
    match goal with |- context [life w ?y _] => destruct (IH y now (Some d) (S k) (q ++ [c]) c) as (w' & t' & ls & nw & x & m & E & Hp' & Ht') end;
      [done | exact Hq2 | by destruct q | cbn [at_place looped input with_rings]; rewrite Hc2, Hc1, length_app; cbn [length] in *; lia |].
    rewrite E, !ret_bind. do 3 eexists. exists nw, x, m. split; [reflexivity|]. split; [done|].
    cbn [is_ok app]. unfold ticks in *. cbn. exact Ht'.
Qed.

(** [run_until] on the thread of its owner is the bare loop too: a tick for each
    reading that is down, and the first that is up ends it. *)
Fixpoint reading_ops (readings : list (bool * Z * Z)) : list loop_op :=
  match readings with
  | (false, now, u) :: readings => OpTick now u :: reading_ops readings
  | _ => []
  end.
Lemma run_until_ticks readings : forall (l : Loop) inq outq, loop_inv l inq outq ->
  existsb (fun r => r.1.1) readings = true ->
  run_until l readings = loop_run hypot l (reading_ops readings) /\ exists l' outs, run_until l readings = Ret (l', outs).
Proof.
  induction readings as [|[[flag now] u] readings IH]; intros l inq outq I Hf; [done|].
  cbn [run_until reading_ops]. destruct flag; [split; [done|]; eauto|]. cbn [existsb orb fst] in Hf.
  destruct (loop_run_ok hypot [OpTick now u] l inq outq I) as (l1 & o1 & inq1 & outq1 & E1 & I1 & _); [by repeat constructor|].
  cbn [loop_run loop_step] in *. apply bind_ret_inv in E1 as ([l2 o2] & E1 & E2). injection E2 as -> <-.
  apply bind_ret_inv in E1 as ([[l2 n] c] & Ep & [= -> <-]).
  rewrite Ep, !ret_bind. destruct (IH l1 inq1 outq1 I1 Hf) as [-> (l' & outs & E)]. split; [done|].
  rewrite E, ret_bind. eauto.
Qed.

(** ** The shared machine is not heard

    The mode machine is shared with the rest of the program, and the loop never
    reads it: another mode, or an emergency stop committed there, changes nothing in
    what the loop lets through. *)

Definition sound_machine (m : Machine.StateMachine QE) : Prop := exists c h, Machine.sm_rep m c h.

Lemma advance_blend_machine (l l0 : Loop) m b : advance_blend l = Ret l0 ->
  advance_blend (with_machine l m b) = Ret (with_machine l0 m b).
Proof.
  unfold advance_blend. cbn [blend cfg with_machine]. destruct (blend l) as [bl|]; [|by intros [= <-]].
  destruct (Spline.advance bl _) as [[b1 w]| | |]; cbn [mbind exec_bind]; [|done..]. by intros [= <-].
Qed.

Lemma fence_stage_machine (l l1 : Loop) m u c d : sound_machine (machine l) -> sound_machine m ->
  fence_stage hypot l u c = Ret (l1, d) ->
  exists m', fence_stage hypot (with_machine l m (estop_latched l)) u c = Ret (with_machine l1 m' (estop_latched l1), d).
Proof.
  intros [c1 [h1 R1]] [c2 [h2 R2]]. unfold fence_stage. cbn [fence cfg pose with_machine estop_latched machine].
  destruct (decide _); [intros [= <- <-]; by exists m|].
  destruct (Geo.clamp_command _ _ _ _ c) as [c'| | |]; cbn [mbind exec_bind]; [|done..].
  destruct (_ && negb (estop_latched l)); [|intros [= <- <-]; by exists m].
  destruct (force_stop_ok _ _ _ u R1) as (sm1 & k1 & -> & _). destruct (force_stop_ok _ _ _ u R2) as (sm2 & k2 & -> & _).
  cbn [mbind exec_bind]. intros [= <- <-]. by exists sm2.
Qed.

Theorem machine_unheard fuel (l l1 : Loop) m now u n c : sound_machine (machine l) -> sound_machine m ->
  process_one hypot fuel l now u = Ret (l1, n, c) ->
  exists l2, process_one hypot fuel (with_machine l m (estop_latched l)) now u = Ret (l2, n, c).
Proof.
  intros Hl Hm. unfold process_one. intros (l0 & E0 & E)%bind_ret_inv.
  rewrite (advance_blend_machine _ _ m (estop_latched l) E0), ret_bind.
  assert (H0 : estop_latched l0 = estop_latched l /\ machine l0 = machine l).
  { unfold advance_blend in E0. destruct (blend l); [|by injection E0 as <-].
    apply bind_ret_inv in E0 as ([b w] & _ & E0). by injection E0 as <-. }
  destruct H0 as [H0 H1]. rewrite <- H0. cbn [input with_machine].
  apply bind_ret_inv in E as ([inp drained] & -> & E). rewrite ret_bind. cbv zeta in *.
  destruct (last drained) as [cmd|]; [|injection E as <- <- <-; by eexists].
  change (latency (with_rings (with_machine l0 m (estop_latched l0)) _ _)) with (latency (with_rings l0 inp (output l0))).
  destruct (Latency.observe _ now (Cmd.timestamp_ns cmd)) as [lat o].
  set (l3 := with_latency (with_rings l0 inp (output l0)) lat) in *.
  change (with_latency _ lat) with (with_machine l3 m (estop_latched l3)).
  apply bind_ret_inv in E as (l4 & E4 & E). rewrite (advance_blend_machine _ _ m (estop_latched l3) E4), ret_bind.
  assert (H4 : estop_latched l4 = estop_latched l3 /\ machine l4 = machine l3).
  { unfold advance_blend in E4. destruct (blend l3); [|by injection E4 as <-].
    apply bind_ret_inv in E4 as ([b w] & _ & E4). by injection E4 as <-. }
  destruct H4 as [H4 H5]. rewrite <- H4.
  change (mix_authority (with_machine l4 m _)) with (mix_authority l4). cbn [veto with_machine].
  apply bind_ret_inv in E as ([c1 v1] & -> & E). rewrite ret_bind.
  apply bind_ret_inv in E as ([l6 c2] & E6 & E).
  assert (Hm4 : sound_machine (machine l4)) by (by rewrite H5; change (machine l3) with (machine l0); rewrite H1).
  destruct (fence_stage_machine l4 l6 m u c1 c2 Hm4 Hm E6) as [m' ->]. rewrite ret_bind.
  cbn [limits cfg last_out with_machine].
  apply bind_ret_inv in E as ([c3 v3] & -> & E). rewrite ret_bind.
  change (brake_stage (with_machine l6 m' (estop_latched l6)) c3) with
    (let '(x, y) := brake_stage l6 c3 in (with_machine x m' (estop_latched l6), y)).
  destruct (brake_stage l6 c3) as [l7 c4] eqn:E7. assert (H7 : estop_latched l7 = estop_latched l6).
  { unfold brake_stage in E7. by injection E7 as <- _. }
  cbn [estop_latched output with_machine]. rewrite <- H7.
  apply bind_ret_inv in E as ([q r] & -> & E). rewrite ret_bind. injection E as _ <- <-. by eexists.
Qed.

End Thread.

(** ** A thread *)

Module DemoThread.

Record cpu := { refused : nat }.
(** an unprivileged process *)
#[export] Instance cpu_sched : SchedOs cpu Z := {
  sched_get_priority_max _ := 99;
  sched_setscheduler w _ _ _ := ({| refused := S (refused w) |}, Err 1)
}.
Definition l0 := demo_loop far (Cmd.zeroed f_zero Auto).
(** the first drain takes the command that was there, and one pushed meanwhile, which
    is the one emitted *)
Definition es : list event :=
  [EThread 0 0; EThread 0 0; EThread 9 9; EThread 9 9; EPush (Cmd.with_seq demo_cmd 9); ETake; EThread 9 9; EThread 9 9; EThread 9 9;
   EStop; ETake; EThread 12 12].
Definition empty_ring : Spsc.SpscRing Command := fifo_with_capacity 4.
Lemma empty_ok : fifo_rep empty_ring [] /\ 1 <= fifo_capacity empty_ring.
Proof. split; [apply fifo_new_rep; split; vm_compute; discriminate | vm_compute; discriminate]. Qed.

End DemoThread.
Import DemoThread.

Lemma safety_thread_serves_witness : exists w' t' ls out,
  life demo_hypot {| DemoThread.refused := 0 |} (spawned DemoThread.l0) DemoThread.es = Ret (w', t', ls) /\
  emitted ls = [out] /\ Cmd.seq out = 9 /\ length (popped ls) = 2%nat /\ place t' = Finished /\ rt_elevated t' = false.
Proof.
  destruct (safety_thread_serves demo_hypot {| DemoThread.refused := 0 |} DemoThread.l0 [demo_cmd] [] DemoThread.empty_ring DemoThread.es
    (demo_loop_inv far (Cmd.zeroed f_zero Auto) eq_refl) ltac:(by repeat constructor)
    (proj1 DemoThread.empty_ok) (proj2 DemoThread.empty_ok)) as (w' & t' & ls & l' & rest & E & _).
  assert (Hv : match life demo_hypot {| DemoThread.refused := 0 |} (spawned DemoThread.l0) DemoThread.es with
    | Ret (_, t, ls) => match emitted ls with [o] => Cmd.seq o = 9 | _ => False end /\ length (popped ls) = 2%nat /\
        place t = Finished /\ rt_elevated t = false
    | _ => False end) by (vm_compute; by split_and!).
  rewrite E in Hv. destruct Hv as (Ho & Hn & Hp & He). destruct (emitted ls) as [|o [|? ?]] eqn:Eo; [destruct Ho| |destruct Ho].
  exists w', t', ls, o. exact (conj E (conj Eo (conj Ho (conj Hn (conj Hp He))))).
Defined.

(** a machine stopped by another owner: the loop passes the operator's command on *)
Definition stopped_elsewhere : option (Mode * bool) :=
  match Machine.force_emergency_stop (machine DemoThread.l0) 5 with
  | Ret (m, _) =>
      match process_one demo_hypot 9 (with_machine (demo_loop Geo.pose_default (Cmd.zeroed f_zero Auto)) m false) 9 9 with
      | Ret (l, _, Some c) => Some (Machine.current (machine l), bool_decide (Cmd.mode c = Some EmergencyStop))
      | _ => None
      end
  | _ => None
  end.
Lemma stop_elsewhere_unheard : stopped_elsewhere = Some (EmergencyStop, false).
Proof. vm_compute. reflexivity. Qed.
