(* ===== verification/Hid.v ===== *)
(** * The other input back ends: [tpt-t-input/src/win_hid.rs], [macos_hid.rs], [xr.rs]

    Overlapped reads of a Windows HID handle, with the stack frames whose buffers
    the kernel may write; the macOS stub; the hand-tracking trait.  The source keeps
    the interface [NumericSource], so the input stage is safe over it. *)

From stdpp Require Import strings gmap.
From S2P Require Import Prelude Text Ring Mode Ser Float FloatText FloatFacts Hal Input.
Import Report (ControllerReport, DeviceInfo).

(** ** Identifiers in an interface path *)

Module WinHid.

Definition is_ascii_hexdigit (c : Z) : bool := bool_decide (is_Some (hex_val c)).
Fixpoint take_while (p : Z -> bool) (s : list Z) : list Z :=
  match s with
  | [] => []
  | c :: s => if p c then c :: take_while p s else []
  end.

(** [u16::from_str_radix(s, 16)] of a text without sign: checked multiplication and
    addition *)
Fixpoint radix16 (s : list Z) (v : Z) : option Z :=
  match s with
  | [] => Some v
  | c :: s => d ← hex_val c; if 16 * v + d <? 2 ^ 16 then radix16 s (16 * v + d) else None
  end.
Definition from_str_radix16 (s : list Z) : option Z :=
  match s with [] => None | _ => radix16 s 0 end.

Definition parse_u16_hex (path tag : list Z) : Z :=
  let lower := to_ascii_lowercase path in
  match find_at (to_ascii_lowercase tag) lower with
  | None => 0
  | Some i =>
      let hex := take_while is_ascii_hexdigit (drop (i + length tag) lower) in
      default 0 (from_str_radix16 (take (Nat.min (length hex) 4) hex))
  end.

Definition info_from (path : list Z) : DeviceInfo :=
  {| Report.vendor_id := parse_u16_hex path (ascii_bytes "vid_");
     Report.product_id := parse_u16_hex path (ascii_bytes "pid_");
     Report.path := path; Report.num_axes := 6; Report.num_buttons := 16 |}.

(** ** Reading (win_hid.rs) *)

Definition REPORT_LEN : nat := 9.
Definition READ_TIMEOUT_MS : Z := 4.

(** [ReadFile]: the bytes it put into the buffer, [ERROR_IO_PENDING], another error *)
Inductive read_answer := ReadDone (bs : list Z) | ReadPending | ReadFailed.
(** [GetOverlappedResultEx]: the transfer ended with these bytes in the buffer, the
    time ran out, or the transfer ended with an error *)
Inductive wait_answer := WaitDone (bs : list Z) | WaitTimeout | WaitFailed.

(** A call's buffer and its [OVERLAPPED] live in the call's stack frame, which is
    numbered.  [owned] are the frames of the transfers whose end has not been reported
    to the caller: until then the kernel may write them at any time. *)
Class OverlappedOs (W : Type) := {
  read_file : W -> Z -> nat -> nat -> W * read_answer;
  get_overlapped_result : W -> Z -> nat -> Z -> W * wait_answer;
  unix_ns_now : W -> Z;
  owned : W -> gset nat;
  read_file_len w h f n w' bs : read_file w h f n = (w', ReadDone bs) -> (length bs <= n)%nat /\ bytes bs;
  read_file_owned w h f n w' r : read_file w h f n = (w', r) ->
    owned w' = (match r with ReadPending => {[f]} | _ => ∅ end) ∪ owned w;
  get_overlapped_len w h f t w' bs : get_overlapped_result w h f t = (w', WaitDone bs) ->
    (length bs <= REPORT_LEN)%nat /\ bytes bs;
  get_overlapped_owned w h f t w' r : get_overlapped_result w h f t = (w', r) ->
    owned w' = match r with WaitTimeout => owned w | _ => owned w ∖ {[f]} end
}.

Record WinHidSource := { handle : Z; dev_info : DeviceInfo }.

(** null and [INVALID_HANDLE_VALUE] are refused *)
Definition from_handle (h : Z) (path : list Z) : result WinHidSource InputError :=
  if (h =? 0) || (to_signed 64 h =? -1) then Err (Input.Os (ascii_bytes "invalid handle"))
  else Ok {| handle := h; dev_info := info_from path |}.

(** a byte as an axis, in single precision: [ax / 255.0 * 2.0 - 1.0] *)
Definition axis (b : Z) : f32 :=
  f32_sub (f32_mul (f32_div (f32_of_Z b) (f32_of_Z 255)) (f32_of_Z 2)) (f32_of_Z 1).

(** [out.axes[i] = ..] for the bytes from index [i] on; the array has eight entries *)
Fixpoint set_axes (i : nat) (bs : list Z) (axes : list f32) : list f32 :=
  match bs with
  | [] => axes
  | b :: bs => set_axes (S i) bs (<[i := axis b]> axes)
  end.

(** the buffer after the kernel has put [bs] at its start *)
Definition filled (bs : list Z) : list Z := bs ++ drop (length bs) (replicate REPORT_LEN 0).

Section Source.
Context {W : Type} `{OS : !OverlappedOs W}.

(** [f] is the frame of this call *)
Definition receive (w : W) (h : Z) (f : nat) : W * option (list Z) :=
  let '(w, r) := read_file w h f REPORT_LEN in
  match r with
  | ReadDone bs => (w, Some (filled bs))
  | ReadFailed => (w, None)
  | ReadPending =>
      let '(w, r) := get_overlapped_result w h f READ_TIMEOUT_MS in
      match r with
      | WaitDone bs => (w, if (length bs <? REPORT_LEN)%nat then None else Some (filled bs))
      | _ => (w, None)
      end
  end.

Definition decode (buf : list Z) (now : Z) (out : ControllerReport) : ControllerReport :=
  {| Report.seq := wadd 32 (Report.seq out) 1;
     Report.buttons := le_val (take 2 (drop 1 buf));
     Report.axes := set_axes 0 (take 6 (drop 3 buf)) (Report.axes out);
     Report.timestamp_ns := now |}.

(** the world, the source, and the number of calls made, which names the next frame *)
Definition Polled : Type := W * WinHidSource * nat.
Definition frame (st : Polled) : nat := st.2.
Definition world (st : Polled) : W := st.1.1.

Definition poll (st : Polled) (out : ControllerReport) : Polled * ControllerReport * bool :=
  let '(w, s, f) := st in
  let '(w, r) := receive w (handle s) f in
  match r with
  | None => ((w, s, S f), out, false)
  | Some buf => ((w, s, S f), decode buf (unix_ns_now w) out, true)
  end.

Definition reopen (s : WinHidSource) : result unit InputError :=
  Err (Unsupported (ascii_bytes "reopen requires the platform opener; recreate the source")).

#[export] Instance source : RawInputSource Polled := {|
  Input.poll st out := Ret (poll st out);
  info st := dev_info st.1.2;
  Input.reopen st := Ret (st, reopen st.1.2)
|}.
End Source.
Arguments Polled : clear implicits.
End WinHid.
#[export] Existing Instance WinHid.source.

(** ** The macOS stub (macos_hid.rs) *)

Module MacHid.
Record MacHidSource := mk {}.
Definition deferred : InputError := Unsupported (ascii_bytes "macOS IOKit HID binding deferred").
Definition open (path : list Z) : result MacHidSource InputError := Err deferred.
Definition poll (s : MacHidSource) (out : ControllerReport) : MacHidSource * ControllerReport * bool := (s, out, false).
(** [unreachable!] *)
Definition info (s : MacHidSource) : exec DeviceInfo := Panic.
Definition reopen (s : MacHidSource) : result unit InputError := Err deferred.
End MacHid.

(** ** Hand tracking (xr.rs) *)

Module Xr.
Record HandPose := { wrist : list f32; pinch : f32; tracked : bool }.
Definition pose_default : HandPose := {| wrist := replicate 7 f_zero; pinch := f_zero; tracked := false |}.
Class HandTrackingSource (S : Type) := { poll_hands : S -> HandPose -> HandPose -> S * HandPose * HandPose * bool }.
Record NullHandTracking := new {}.
#[export] Instance null_hands : HandTrackingSource NullHandTracking := {|
  poll_hands s left right := (s, left, right, false)
|}.
End Xr.

(** ** Axes *)

Lemma axis_unit b : 0 <= b < 256 -> in_unit (WinHid.axis b).
Proof.
  intros H. assert (A : forallb (fun n => let x := WinHid.axis (Z.of_nat n) in
    negb (is_nan x) && fle Map.minus_one x && fle x Map.one) (seq 0 256) = true) by (vm_compute; reflexivity).
  rewrite forallb_forall in A. specialize (A (Z.to_nat b)). rewrite Z2Nat.id in A by lia.
  cbv zeta in A. rewrite !andb_true_iff, negb_true_iff in A.
  destruct A as [[A1 A2] A3]; [apply in_seq; lia | by split].
Qed.

Lemma length_set_axes bs : forall i axes, length (WinHid.set_axes i bs axes) = length axes.
Proof. induction bs as [|b bs IH]; intros i axes; simpl; [done|]. by rewrite IH, length_insert. Qed.

Lemma set_axes_spec bs : forall i axes j, (i + length bs <= length axes)%nat ->
  WinHid.set_axes i bs axes !! j =
  if decide (i <= j < i + length bs)%nat then WinHid.axis <$> bs !! (j - i)%nat else axes !! j.
Proof.
  induction bs as [|b bs IH]; intros i axes j Hl; cbn [WinHid.set_axes length] in *.
  - rewrite decide_False by lia. done.
  - rewrite IH by (rewrite length_insert; lia). destruct (decide (j = i)) as [->|Hne].
    + rewrite decide_False, decide_True, Nat.sub_diag by lia. cbn. apply list_lookup_insert_eq. lia.
    + rewrite list_lookup_insert_ne by done.
      case_decide; case_decide; try lia; [|done]. by replace (j - i)%nat with (S (j - S i)) by lia.
Qed.

Lemma set_axes_num bs : forall i axes, bytes bs -> Forall (fun x => is_nan x = false) axes ->
  Forall (fun x => is_nan x = false) (WinHid.set_axes i bs axes).
Proof.
  induction bs as [|b bs IH]; intros i axes Hb Ha; cbn [WinHid.set_axes]; [done|].
  inversion_clear Hb. apply IH; [done|]. apply Forall_insert; [done|]. by apply axis_unit.
Qed.

Lemma filled_length bs : (length bs <= WinHid.REPORT_LEN)%nat -> length (WinHid.filled bs) = WinHid.REPORT_LEN.
Proof. intros H. unfold WinHid.filled. rewrite length_app, length_drop, length_replicate. lia. Qed.
Lemma filled_bytes bs : bytes bs -> bytes (WinHid.filled bs).
Proof.
  intros H. apply Forall_app. split; [done|]. apply Forall_drop, Forall_replicate. by split.
Qed.

(** ** A poll *)

Section Poll.
Context {W : Type} `{OS : !WinHid.OverlappedOs W}.
Implicit Types (w : W) (st : WinHid.Polled W).

Lemma receive_full w h f w' buf : WinHid.receive w h f = (w', Some buf) ->
  length buf = WinHid.REPORT_LEN /\ bytes buf.
Proof.
  unfold WinHid.receive. destruct (WinHid.read_file w h f WinHid.REPORT_LEN) as [w1 [bs| |]] eqn:E.
  - destruct (WinHid.read_file_len _ _ _ _ _ _ E). intros [= <- <-]. split; [by apply filled_length | by apply filled_bytes].
  - destruct (WinHid.get_overlapped_result w1 h f WinHid.READ_TIMEOUT_MS) as [w2 [bs| |]] eqn:E2; [|done|done].
    destruct (WinHid.get_overlapped_len _ _ _ _ _ _ E2). case_if; [done|].
    intros [= <- <-]. split; [by apply filled_length | by apply filled_bytes].
  - done.
Qed.

(** A report is decoded field by field: the buttons from bytes 1 and 2, an axis in
    [[-1, 1]] from each of the bytes 3 to 8; the two spare axes keep their values. *)
Theorem hid_report_decoded buf now out : length buf = WinHid.REPORT_LEN -> bytes buf ->
  length (Report.axes out) = 8%nat ->
  uint 16 (Report.buttons (WinHid.decode buf now out)) /\
  length (Report.axes (WinHid.decode buf now out)) = 8%nat /\
  (forall i, (i < 6)%nat -> exists b, buf !! (3 + i)%nat = Some b /\
     Report.axes (WinHid.decode buf now out) !! i = Some (WinHid.axis b) /\ in_unit (WinHid.axis b)) /\
  (forall i, (6 <= i)%nat -> Report.axes (WinHid.decode buf now out) !! i = Report.axes out !! i).
Proof.
  intros Hl Hb Ha. unfold WinHid.decode. cbn [Report.buttons Report.axes].
  assert (L6 : length (take 6 (drop 3 buf)) = 6%nat) by (rewrite length_take, length_drop, Hl; done).
  assert (L2 : length (take 2 (drop 1 buf)) = 2%nat) by (rewrite length_take, length_drop, Hl; done).
  split; [|split; [|split]].
  - assert (H2 : bytes (take 2 (drop 1 buf))) by by apply Forall_take, Forall_drop.
    pose proof (le_val_uint _ H2) as U. rewrite L2 in U. exact U.
  - by rewrite length_set_axes.
  - intros i Hi. destruct (lookup_lt_is_Some_2 buf (3 + i)) as [b Eb]; [rewrite Hl; cbv; lia|].
    exists b. split; [done|]. rewrite set_axes_spec by lia. rewrite decide_True by lia.
    rewrite Nat.sub_0_r, lookup_take_lt, lookup_drop, Eb by lia. split; [done|].
    apply axis_unit. exact (Forall_lookup_1 _ _ _ _ Hb Eb).
  - intros i Hi. rewrite set_axes_spec by lia. by rewrite decide_False by lia.
Qed.

(** the report the source fills: eight axes, all numbers *)
Definition hid_ok (out : ControllerReport) : Prop :=
  length (Report.axes out) = 8%nat /\ Forall (fun x => is_nan x = false) (Report.axes out).

Lemma hid_poll_numeric st out : hid_ok out ->
  exists st' rep b, Input.poll st out = Ret (st', rep, b) /\ hid_ok rep /\
    (b = true -> Forall (fun x => is_nan x = false) (Report.axes rep)).
Proof.
  intros [Hl Hn]. destruct st as [[w s] f]. cbn [Input.poll WinHid.source]. unfold WinHid.poll.
  destruct (WinHid.receive w (WinHid.handle s) f) as [w' [buf|]] eqn:E; do 3 eexists; (split; [reflexivity|]).
  - destruct (receive_full _ _ _ _ _ E) as [_ Hb].
    assert (Hax : Forall (fun x => is_nan x = false) (Report.axes (WinHid.decode buf (WinHid.unix_ns_now w') out)))
      by by apply set_axes_num; [apply Forall_take, Forall_drop|].
    split; [|by intros _]. split; [|done]. unfold WinHid.decode. cbn [Report.axes]. by rewrite length_set_axes.
  - split; [by split | done].
Qed.
#[export] Instance hid_numeric : NumericSource (WinHid.Polled W) := {|
  src_ok _ out := hid_ok out;
  poll_numeric st out H := hid_poll_numeric st out H
|}.

(** *** The frames the kernel keeps *)

(** a wait that ran out of time leaves its read with the kernel *)
Lemma receive_owned w h f w' r : WinHid.receive w h f = (w', r) -> f ∉ WinHid.owned w ->
  WinHid.owned w' = WinHid.owned w \/
  (r = None /\ WinHid.owned w' = {[f]} ∪ WinHid.owned w /\
   exists w1, WinHid.read_file w h f WinHid.REPORT_LEN = (w1, WinHid.ReadPending) /\
     WinHid.get_overlapped_result w1 h f WinHid.READ_TIMEOUT_MS = (w', WinHid.WaitTimeout)).
Proof.
  unfold WinHid.receive. destruct (WinHid.read_file w h f WinHid.REPORT_LEN) as [w1 a] eqn:E.
  pose proof (WinHid.read_file_owned _ _ _ _ _ _ E) as O1. intros H Hf.
  destruct a as [bs| |]; [injection H as <- _; left; set_solver| |injection H as <- _; left; set_solver].
  destruct (WinHid.get_overlapped_result w1 h f WinHid.READ_TIMEOUT_MS) as [w2 a] eqn:E2.
  pose proof (WinHid.get_overlapped_owned _ _ _ _ _ _ E2) as O2.
  destruct a as [bs| |]; injection H as <- <-.
  - left. rewrite O2, O1. set_solver.
  - right. rewrite O2, O1. eauto.
  - left. rewrite O2, O1. set_solver.
Qed.

Fixpoint polls (st : WinHid.Polled W) (outs : list ControllerReport) : WinHid.Polled W * list bool :=
  match outs with
  | [] => (st, [])
  | out :: outs =>
      let '(st, _, b) := WinHid.poll st out in
      let '(st, bs) := polls st outs in
      (st, b :: bs)
  end.

(** the frames still to come are free *)
Definition fresh st : Prop := forall g, (WinHid.frame st <= g)%nat -> g ∉ WinHid.owned (WinHid.world st).

Lemma poll_fresh st out st' out' b : WinHid.poll st out = (st', out', b) -> fresh st -> fresh st'.
Proof.
  destruct st as [[w s] f]. unfold WinHid.poll. destruct (WinHid.receive w (WinHid.handle s) f) as [w' r] eqn:E.
  intros H Hf. assert (st' = ((w', s), S f)) as -> by (destruct r; by injection H as <- _ _).
  assert (Hnf : f ∉ WinHid.owned w) by by apply Hf. intros g Hg. cbn in Hg |- *.
  assert (Hgw : g ∉ WinHid.owned w) by (apply Hf; cbn; lia).
  destruct (receive_owned _ _ _ _ _ E Hnf) as [-> | (_ & -> & _)]; [done|].
  assert (g <> f) by lia. set_solver.
Qed.

(** what one call does to the frames: the kernel keeps the frame of the call, which
    ends with the call, exactly when the wait ran out of time *)
Lemma poll_leaves_frame st out st' out' b : WinHid.poll st out = (st', out', b) -> fresh st ->
  WinHid.frame st ∈ WinHid.owned (WinHid.world st') <->
  exists w1, WinHid.read_file (WinHid.world st) (WinHid.handle st.1.2) (WinHid.frame st) WinHid.REPORT_LEN = (w1, WinHid.ReadPending) /\
    (WinHid.get_overlapped_result w1 (WinHid.handle st.1.2) (WinHid.frame st) WinHid.READ_TIMEOUT_MS).2 = WinHid.WaitTimeout.
Proof.
  destruct st as [[w s] f]. unfold WinHid.poll. cbn [WinHid.world WinHid.frame fst snd].
  destruct (WinHid.receive w (WinHid.handle s) f) as [w' r] eqn:E. intros H Hf.
  assert (st' = ((w', s), S f)) as -> by (destruct r; by injection H as <- _ _). cbn.
  assert (Hnf : f ∉ WinHid.owned w) by by apply Hf.
  split.
  - intros Hin. destruct (receive_owned _ _ _ _ _ E Hnf) as [Eo | (_ & _ & w1 & E1 & E2)]; [by rewrite Eo in Hin|].
    exists w1. by rewrite E1, E2.
  - intros (w1 & E1 & E2). unfold WinHid.receive in E. rewrite E1 in E.
    pose proof (WinHid.read_file_owned _ _ _ _ _ _ E1) as O1.
    destruct (WinHid.get_overlapped_result w1 (WinHid.handle s) f WinHid.READ_TIMEOUT_MS) as [w2 a] eqn:E3.
    cbn in E2. subst a. injection E as <- _. rewrite (WinHid.get_overlapped_owned _ _ _ _ _ _ E3), O1. set_solver.
Qed.

Lemma poll_keeps_frames st out st' out' b : WinHid.poll st out = (st', out', b) -> fresh st ->
  WinHid.owned (WinHid.world st) ⊆ WinHid.owned (WinHid.world st').
Proof.
  destruct st as [[w s] f]. unfold WinHid.poll. destruct (WinHid.receive w (WinHid.handle s) f) as [w' r] eqn:E.
  intros H Hf. assert (st' = ((w', s), S f)) as -> by (destruct r; by injection H as <- _ _). cbn.
  assert (Hnf : f ∉ WinHid.owned w) by by apply Hf.
  destruct (receive_owned _ _ _ _ _ E Hnf) as [-> | (_ & -> & _)]; set_solver.
Qed.

Lemma polls_keep_frames outs : forall st st' bs, polls st outs = (st', bs) -> fresh st ->
  WinHid.owned (WinHid.world st) ⊆ WinHid.owned (WinHid.world st').
Proof.
  induction outs as [|out outs IH]; intros st st' bs E Hf; cbn [polls] in E; [by injection E as <- _|].
  destruct (WinHid.poll st out) as [[st1 o1] b1] eqn:E1. destruct (polls st1 outs) as [st2 bs2] eqn:E2.
  injection E as <- _. etrans; [by apply (poll_keeps_frames _ _ _ _ _ E1 Hf)|].
  exact (IH _ _ _ E2 (poll_fresh _ _ _ _ _ E1 Hf)).
Qed.

(** a device that says nothing while it is waited for *)
Definition quiet : Prop := forall w h f, exists w1 w2,
  WinHid.read_file w h f WinHid.REPORT_LEN = (w1, WinHid.ReadPending) /\
  WinHid.get_overlapped_result w1 h f WinHid.READ_TIMEOUT_MS = (w2, WinHid.WaitTimeout).

(** Nothing takes a read back that was not answered in time: polling a quiet device
    leaves the kernel with the frame of every call made, all of them gone. *)
Theorem quiet_device_keeps_frames st outs st' bs : quiet -> polls st outs = (st', bs) -> fresh st ->
  Forall (fun b => b = false) bs /\
  forall g, (WinHid.frame st <= g < WinHid.frame st + length outs)%nat -> g ∈ WinHid.owned (WinHid.world st').
Proof.
  intros Hq. revert st st' bs. induction outs as [|out outs IH]; intros st st' bs H Hf; cbn [polls] in H.
  - injection H as <- <-. split; [constructor|]. cbn [length]. lia.
  - destruct (WinHid.poll st out) as [[st1 o1] b] eqn:E. destruct (polls st1 outs) as [st2 bs2] eqn:E2.
    injection H as <- <-. pose proof (poll_fresh _ _ _ _ _ E Hf) as Hf1.
    destruct (IH _ _ _ E2 Hf1) as [Hb Hg].
    assert (Hst1 : WinHid.frame st1 = S (WinHid.frame st) /\ b = false).
    { destruct st as [[w s] f]. unfold WinHid.poll, WinHid.receive in E.
      destruct (Hq w (WinHid.handle s) f) as (w1 & w2 & E1 & E3). rewrite E1, E3 in E. by injection E as <- _ <-. }
    destruct Hst1 as [Hst1 ->]. split; [by constructor|]. intros g Hg'. cbn [length] in Hg'.
    destruct (decide (g = WinHid.frame st)) as [->|]; [|apply Hg; lia].
    assert (Hin : WinHid.frame st ∈ WinHid.owned (WinHid.world st1)).
    { apply (poll_leaves_frame _ _ _ _ _ E Hf). destruct (Hq (WinHid.world st) (WinHid.handle st.1.2) (WinHid.frame st)) as (w1 & w2 & E1 & E3).
      exists w1. by rewrite E1, E3. }
    exact (polls_keep_frames _ _ _ _ E2 Hf1 _ Hin).
Qed.

(** A read that completes at once is not measured: whatever was not filled reads as
    an axis at its lower end.  A read that completes later is refused when short. *)
Theorem short_read_is_full_deflection w h f w' bs : WinHid.read_file w h f WinHid.REPORT_LEN = (w', WinHid.ReadDone bs) ->
  (length bs <= 1)%nat -> forall s out, WinHid.handle s = h ->
  exists st' rep, WinHid.poll (w, s, f) out = (st', rep, true) /\ Report.buttons rep = 0 /\
    Report.axes rep = WinHid.set_axes 0 [0; 0; 0; 0; 0; 0] (Report.axes out).
Proof.
  intros E Hl s out <-. unfold WinHid.poll, WinHid.receive. rewrite E. do 2 eexists. split; [reflexivity|].
  destruct bs as [|b [|]]; [by split | by split | simpl in Hl; lia].
Qed.
End Poll.

(** the centre of the device's range is not the centre of the axis *)
Lemma centre_is_off : WinHid.axis 0x80 <> f_zero /\ WinHid.axis 0 = Map.minus_one /\ WinHid.axis 255 = Map.one.
Proof. by vm_compute. Qed.

(** ** Identifiers *)

(** the letter case of a path does not matter *)
Lemma lowercase_idem s : to_ascii_lowercase (to_ascii_lowercase s) = to_ascii_lowercase s.
Proof.
  unfold to_ascii_lowercase. rewrite map_map. apply map_ext. intros c. unfold ascii_lower.
  destruct ((65 <=? c) && (c <=? 90)) eqn:E; [|by rewrite E]. case_if; zbool; [lia | done].
Qed.
Lemma parse_caseless path tag : WinHid.parse_u16_hex (to_ascii_lowercase path) tag = WinHid.parse_u16_hex path tag.
Proof. unfold WinHid.parse_u16_hex. by rewrite lowercase_idem. Qed.

(** four hexadecimal digits *)
Definition hex4 (n : Z) : list Z := List.map hex_digit [n / 4096; n / 256 mod 16; n / 16 mod 16; n mod 16].

Lemma hex_digit_lower d : 0 <= d < 16 -> ascii_lower (hex_digit d) = hex_digit d.
Proof. intros H. unfold ascii_lower, hex_digit. repeat case_if; zbool; lia. Qed.

Lemma hex4_nibbles n : uint 16 n -> Forall (fun d => 0 <= d < 16) [n / 4096; n / 256 mod 16; n / 16 mod 16; n mod 16].
Proof. unfold uint. intros H. repeat constructor; Z.to_euclidean_division_equations; lia. Qed.

Lemma radix16_hex4 n : uint 16 n -> WinHid.radix16 (hex4 n) 0 = Some n.
Proof.
  intros H. pose proof (hex4_nibbles n H) as F. unfold hex4.
  assert (E : n = 16 * (16 * (16 * (n / 4096) + n / 256 mod 16) + n / 16 mod 16) + n mod 16).
  { replace 4096 with (16 * 16 * 16) by done. replace 256 with (16 * 16) by done. rewrite <- !Z.div_div by lia.
    rewrite (Z.div_mod n 16) at 1 by lia. rewrite (Z.div_mod (n / 16) 16) at 1 by lia.
    rewrite (Z.div_mod (n / 16 / 16) 16) at 1 by lia. done. }
  unfold uint in H. revert E F.
  generalize (n / 4096) (n / 256 mod 16) (n / 16 mod 16) (n mod 16). intros a b c d E F.
  repeat (apply Forall_cons in F as [? F]). cbn [List.map WinHid.radix16]. 
  rewrite !hex_val_digit by done. cbn [mbind option_bind].
  repeat (match goal with |- context [?x <? ?y] => destruct (Z.ltb_spec x y); [|lia] end).
  f_equal. lia.
Qed.

Lemma take_while_app p ds rest : Forall (fun c => p c = true) ds ->
  WinHid.take_while p (ds ++ rest) = ds ++ WinHid.take_while p rest.
Proof. induction 1 as [|c ds Hc _ IH]; [done|]. cbn [app WinHid.take_while]. by rewrite Hc, IH. Qed.

(** The identifiers are those written in the interface path: the four digits after
    the tag's first occurrence, whatever follows them. *)
Theorem id_from_path pre tag n rest : uint 16 n ->
  find_at (to_ascii_lowercase tag) (to_ascii_lowercase (pre ++ tag ++ hex4 n ++ rest)) = Some (length pre) ->
  WinHid.parse_u16_hex (pre ++ tag ++ hex4 n ++ rest) tag = n.
Proof.
  intros Hn Hf. unfold WinHid.parse_u16_hex. rewrite Hf.
  assert (El : to_ascii_lowercase (hex4 n) = hex4 n).
  { unfold to_ascii_lowercase, hex4. rewrite map_map. apply List.map_ext_Forall.
    eapply Forall_impl; [exact (hex4_nibbles n Hn)|]. apply hex_digit_lower. }
  assert (Ed : drop (length pre + length tag) (to_ascii_lowercase (pre ++ tag ++ hex4 n ++ rest)) =
    hex4 n ++ to_ascii_lowercase rest).
  { unfold to_ascii_lowercase in *. rewrite !map_app, El, app_assoc. apply drop_app_length'.
    by rewrite length_app, !length_map. }
  rewrite Ed, take_while_app.
  - cbv zeta. rewrite Nat.min_r by (rewrite length_app; simpl; lia).
    rewrite take_app_le by done. change (take 4 (hex4 n)) with (hex4 n).
    unfold WinHid.from_str_radix16. change (match hex4 n with [] => ?x | _ => ?y end) with y.
    by rewrite radix16_hex4.
  - unfold hex4. apply Forall_map. eapply Forall_impl; [exact (hex4_nibbles n Hn)|].
    intros d Hd. unfold compose, WinHid.is_ascii_hexdigit. rewrite hex_val_digit by done. by apply bool_decide_eq_true.
Qed.

(** ** The stage over a HID source *)

(** A tick over a Windows HID source returns and appends at most one command, whose
    axes are numbers. *)
Theorem hid_tick_safe {W Q K} `{OS : !WinHid.OverlappedOs W} `{RQ : !BoundedFifo Q (Cmd.ControlCommand f32)}
    `{HK : !Haptics.HapticSink K} (st : InputStage Q (WinHid.Polled W) K) l now :
  hid_ok (scratch_report st) -> fifo_rep (ring st) l -> zone_ok (deadzone (map st)) ->
  exists st' o, tick st now = Ret (st', o) /\ hid_ok (scratch_report st') /\
    match o with
    | None => fifo_rep (ring st') l
    | Some cmd => fifo_rep (ring st') (l ++ [cmd]) /\ Forall (fun x => is_nan x = false) (Cmd.axes cmd)
    end.
Proof.
  intros Hr Hq Hz. destruct (numeric_tick (NS := hid_numeric) st l now Hr Hq Hz) as (st' & o & E & Hs & H).
  exists st', o. split; [done|]. split; [exact Hs|]. destruct o; [|done]. naive_solver.
Qed.

(** ** A concrete kernel: a script of what each read meets *)

Module DemoHid.
Inductive outcome := Sync (bs : list Z) | Late (bs : list Z) | Quiet | Broken.
Record kernel := { script : list outcome; transfers : gset nat }.
Definition clip (n : nat) (bs : list Z) : list Z := List.map (wrap 8) (take n bs).
Definition start (k : kernel) (h : Z) (f n : nat) : kernel * WinHid.read_answer :=
  match script k with
  | Sync bs :: s => ({| script := s; transfers := transfers k |}, WinHid.ReadDone (clip n bs))
  | Broken :: s => ({| script := s; transfers := transfers k |}, WinHid.ReadFailed)
  | _ => ({| script := script k; transfers := {[f]} ∪ transfers k |}, WinHid.ReadPending)
  end.
Definition wait (k : kernel) (h : Z) (f : nat) (t : Z) : kernel * WinHid.wait_answer :=
  match script k with
  | Late bs :: s => ({| script := s; transfers := transfers k ∖ {[f]} |}, WinHid.WaitDone (clip WinHid.REPORT_LEN bs))
  | Quiet :: s => ({| script := s; transfers := transfers k |}, WinHid.WaitTimeout)
  | s => ({| script := s; transfers := transfers k |}, WinHid.WaitTimeout)
  end.
Lemma clip_ok n bs : (length (clip n bs) <= n)%nat /\ bytes (clip n bs).
Proof.
  unfold clip. rewrite length_map, length_take. split; [lia|]. apply Forall_map, Forall_true.
  intros c. by apply (wrap_uint 8).
Qed.
#[local] Obligation Tactic := idtac.
#[export] Program Instance os : WinHid.OverlappedOs kernel := {|
  WinHid.read_file := start;
  WinHid.get_overlapped_result := wait;
  WinHid.unix_ns_now _ := 77;
  WinHid.owned := transfers
|}.
Next Obligation. intros [[|o s] p] h f n w' bs; [|destruct o]; intros [= <- <-]; apply clip_ok. Qed.
Next Obligation. intros [[|o s] p] h f n w' r; [|destruct o]; intros [= <- <-]; simpl; set_solver. Qed.
Next Obligation. intros [[|o s] p] h f t w' bs; [|destruct o]; intros [= <- <-]; apply clip_ok. Qed.
Next Obligation. intros [[|o s] p] h f t w' r; [|destruct o]; intros [= <- <-]; simpl; set_solver. Qed.

Definition device : result WinHid.WinHidSource InputError :=
  WinHid.from_handle 16 (ascii_bytes "HID_VID_045E_PID_0789").
Definition opened (s : list outcome) : WinHid.Polled kernel :=
  ({| script := s; transfers := ∅ |},
   match device with Ok d => d | Err _ => {| WinHid.handle := 0; WinHid.dev_info := WinHid.info_from [] |} end, 0%nat).
End DemoHid.
#[export] Existing Instance DemoHid.os.

(** a device that never answers; the world is the set of frames the kernel holds *)
Module DemoSilent.
#[export] Program Instance os : WinHid.OverlappedOs (gset nat) := {|
  WinHid.read_file w h f n := ({[f]} ∪ w, WinHid.ReadPending);
  WinHid.get_overlapped_result w h f t := (w, WinHid.WaitTimeout);
  WinHid.unix_ns_now _ := 0;
  WinHid.owned w := w
|}.
Next Obligation. done. Qed.
Next Obligation. by intros w h f n w' r [= <- <-]. Qed.
Next Obligation. done. Qed.
Next Obligation. by intros w h f t w' r [= <- <-]. Qed.
End DemoSilent.

Lemma silent_is_quiet : quiet (OS := DemoSilent.os).
Proof. intros w h f. by do 2 eexists. Qed.

(** a second of polling at the loop's cadence leaves 200 frames behind *)
Example a_quiet_second : forall st' bs,
  polls (OS := DemoSilent.os) (∅, {| WinHid.handle := 16; WinHid.dev_info := WinHid.info_from [] |}, 0%nat)
    (replicate 200 Report.default) = (st', bs) ->
  (199%nat : nat) ∈ WinHid.owned (OverlappedOs := DemoSilent.os) (WinHid.world st').
Proof.
  intros st' bs E. eapply (quiet_device_keeps_frames (OS := DemoSilent.os)); [exact silent_is_quiet | exact E | |].
  - intros g _. cbn. set_solver.
  - rewrite length_replicate. cbn. lia.
Qed.

Example ids_of_demo : (fun d => (Report.vendor_id (WinHid.dev_info d), Report.product_id (WinHid.dev_info d))) <$>
  match DemoHid.device with Ok d => Some d | Err _ => None end = Some (0x45E, 0x789).
Proof. by vm_compute. Qed.

(** two quiet polls, then a report that comes in time: it is delivered, and the
    kernel still holds the frames of the first two calls *)
Example quiet_then_report :
  let '(st, bs) := polls (DemoHid.opened [DemoHid.Quiet; DemoHid.Quiet; DemoHid.Late [1; 2; 0; 128; 0; 255; 0; 0; 0]])
    (replicate 3 Report.default) in
  bs = [false; false; true] /\ WinHid.owned (WinHid.world st) = {[0%nat; 1%nat]}.
Proof. vm_compute. split; reflexivity. Qed.
