(* ===== verification/Platform.v ===== *)
(** * Windows and macOS: [core/affinity.rs], [safety/rt.rs], [analytics/direct_io.rs]

    The other platforms' branches of thread pinning, priority and direct I/O.  The
    calls are the classes [WinThreads], [MachThreads] and [WinFileOs].  The Windows
    file is an instance of [RawFd], so what [DirectIo] proves of the staging buffer
    holds of it. *)

From stdpp Require Import strings gmap.
From S2P Require Import Prelude Text Mux DirectIo.
From S2P Require CoreProfile SafetyThread.
Import CoreProfile (AffinityError, NoCores, OutOfRange, Os, Mach).
Import SafetyThread (RtError, RtOs, RtMach).

(** the checks of [pin_current], whatever the platform *)
Definition checked {W E} (max : Z) (w : W) (cores : list Z)
    (pin : W -> list Z -> W * result unit (AffinityError E)) : W * result unit (AffinityError E) :=
  if bool_decide (cores = []) then (w, Err NoCores)
  else
    match List.find (fun c => max <=? c) cores with
    | Some c => (w, Err (OutOfRange c max))
    | None => pin w cores
    end.

Lemma checked_in_range {W E} max (w : W) cores pin w' (r : result unit (AffinityError E)) :
  checked max w cores pin = (w', r) ->
  (cores = [] /\ w' = w /\ r = Err NoCores) \/
  (exists c, c ∈ cores /\ max <= c /\ w' = w /\ r = Err (OutOfRange c max)) \/
  (cores <> [] /\ Forall (fun c => c < max) cores /\ pin w cores = (w', r)).
Proof.
  unfold checked. case_bool_decide as Hn; [by intros [= <- <-]; left|].
  destruct (List.find _ cores) as [c|] eqn:Ef; intros H.
  - apply List.find_some in Ef as [Hc Hm]. injection H as <- <-. right; left. exists c.
    rewrite list_elem_of_In. zbool. by split_and!.
  - right; right. split_and!; [done| |done]. apply Forall_forall. intros c Hc. apply list_elem_of_In in Hc.
    pose proof (List.find_none _ _ Ef c Hc) as Hlt. simpl in Hlt. zbool. lia.
Qed.

(** ** Windows threads *)

Module Windows.
Class WinThreads (W E : Type) := {
  dwNumberOfProcessors : W -> Z;
  (** the previous mask, or zero *)
  SetThreadAffinityMask : W -> Z -> W * Z;
  (** non-zero on success *)
  SetThreadPriority : W -> Z -> W * Z;
  last_error : W -> E
}.
Definition THREAD_PRIORITY_TIME_CRITICAL : Z := 15.

Section Threads.
Context {W E : Type} `{OS : !WinThreads W E}.
Definition core_count (w : W) : Z := Z.max (dwNumberOfProcessors w) 1.

(** [mask |= 1usize << c]: the shift distance is taken modulo the width *)
Fixpoint mask_of (cores : list Z) (mask : Z) : Z :=
  match cores with
  | [] => mask
  | c :: cores => mask_of cores (Z.lor mask (Z.shiftl 1 (c mod 64)))
  end.
Definition pin_windows (w : W) (cores : list Z) : W * result unit (AffinityError E) :=
  let '(w, old) := SetThreadAffinityMask w (mask_of cores 0) in
  (w, if old =? 0 then Err (Os (last_error w)) else Ok tt).
Definition pin_current (w : W) (cores : list Z) : W * result unit (AffinityError E) :=
  checked (core_count w) w cores pin_windows.

Definition elevate_current_thread (w : W) : W * result unit (RtError E) :=
  let '(w, ok) := SetThreadPriority w THREAD_PRIORITY_TIME_CRITICAL in
  (w, if ok =? 0 then Err (RtOs (last_error w)) else Ok tt).
End Threads.
End Windows.

Lemma mask_of_bits cores : forall mask i, Forall (fun c => 0 <= c < 64) cores -> 0 <= i ->
  Z.testbit (Windows.mask_of cores mask) i = Z.testbit mask i || bool_decide (i ∈ cores).
Proof.
  induction cores as [|c cores IH]; intros mask i Hc Hi; cbn [Windows.mask_of].
  - rewrite bool_decide_false by set_solver. by rewrite orb_false_r.
  - inversion_clear Hc. rewrite IH by done. rewrite Z.lor_spec, Z.mod_small by done.
    rewrite Z.shiftl_1_l, Z.pow2_bits_eqb by lia. rewrite <- orb_assoc. f_equal.
    destruct (Z.eqb_spec c i) as [->|Hne]; cbn [orb].
    + by rewrite bool_decide_true by set_solver.
    + apply bool_decide_ext. set_solver.
Qed.

(** On a machine of at most 64 processors a pin asks for exactly the listed cores:
    bit [i] of the mask is set when [i] is listed, and nothing is asked for when the
    list is empty or names a core the machine does not have. *)
Theorem windows_pin_exact {W E} `{OS : !Windows.WinThreads W E} (w w' : W) cores r :
  Windows.core_count w <= 64 -> Forall (fun c => 0 <= c) cores ->
  Windows.pin_current w cores = (w', r) ->
  (w' = w /\ is_ok r = false /\ (cores = [] \/ exists c, c ∈ cores /\ Windows.core_count w <= c)) \/
  exists mask old, Windows.SetThreadAffinityMask w mask = (w', old) /\
    (forall i, 0 <= i -> Z.testbit mask i = bool_decide (i ∈ cores)) /\ is_ok r = negb (old =? 0).
Proof.
  intros Hm Hc H. apply checked_in_range in H as [(-> & -> & ->) | [(c & Hin & Hle & -> & ->) | (_ & Hlt & H)]].
  - left. split_and!; [done|done|by left].
  - left. split_and!; [done|done|]. right. by exists c.
  - right. unfold Windows.pin_windows in H.
    destruct (Windows.SetThreadAffinityMask w (Windows.mask_of cores 0)) as [w1 old] eqn:Es.
    injection H as <- <-. eexists _, old. split; [done|]. split; [|by destruct (old =? 0)].
    intros i Hi. rewrite mask_of_bits; [by rewrite Z.testbit_0_l | | done].
    apply Forall_and. split; [done|]. eapply Forall_impl; [exact Hlt|]. simpl. lia.
Qed.

(** ** Mach threads *)

Module MacOs.
(** [thread_policy_set]: flavor, policy words; the kernel's answer *)
Class MachThreads (W : Type) := {
  sysconf_nproc : W -> Z;
  thread_policy_set : W -> Z -> list Z -> W * Z
}.
Definition THREAD_EXTENDED_POLICY : Z := 1.
Definition THREAD_TIME_CONSTRAINT_POLICY : Z := 2.
Definition THREAD_AFFINITY_POLICY : Z := 4.
Definition KERN_NOT_SUPPORTED : Z := 46.
Definition COMPUTE_TICKS : Z := 50000.
Definition CONSTRAINT_TICKS : Z := 100000.

Section Threads.
Context {W E : Type} `{OS : !MachThreads W}.
Definition core_count (w : W) : Z := Z.max (sysconf_nproc w) 1.
Definition refused (kr : Z) : bool := negb (kr =? 0) && negb (kr =? KERN_NOT_SUPPORTED).

(** [c as i32 + 1] *)
Definition tag_of (c : Z) : Z := to_signed 32 (wrap 32 (to_signed 32 (wrap 32 c) + 1)).
Fixpoint set_tags (w : W) (cores : list Z) : W * result unit (AffinityError E) :=
  match cores with
  | [] => (w, Ok tt)
  | c :: cores =>
      let '(w, kr) := thread_policy_set w THREAD_AFFINITY_POLICY [tag_of c] in
      if refused kr then (w, Err (Mach kr)) else set_tags w cores
  end.
Definition pin_macos (w : W) (cores : list Z) : W * result unit (AffinityError E) :=
  let '(w, kr) := thread_policy_set w THREAD_EXTENDED_POLICY [0] in
  if refused kr then (w, Err (Mach kr)) else set_tags w cores.
Definition pin_current (w : W) (cores : list Z) : W * result unit (AffinityError E) :=
  checked (core_count w) w cores pin_macos.

Definition elevate_current_thread (w : W) : W * result unit (RtError E) :=
  let '(w, kr) := thread_policy_set w THREAD_TIME_CONSTRAINT_POLICY [0; COMPUTE_TICKS; CONSTRAINT_TICKS; 0] in
  (w, if negb (kr =? 0) then Err (RtMach kr) else Ok tt).
End Threads.

(** a thread has one affinity tag, the one set last *)
Class MachLaws (W : Type) `{OS : !MachThreads W} := {
  tag : W -> Z;
  tag_set w t w' : thread_policy_set w THREAD_AFFINITY_POLICY [t] = (w', 0) -> tag w' = t;
  tag_kept w fl ws w' kr : thread_policy_set w fl ws = (w', kr) ->
    fl <> THREAD_AFFINITY_POLICY \/ kr <> 0 -> tag w' = tag w
}.
End MacOs.

Section Mac.
Context {W E : Type} `{OS : !MacOs.MachThreads W} `{ML : !MacOs.MachLaws W}.
Implicit Types (w : W).

(** Pinning to several cores on macOS keeps the last one only: a thread has one
    affinity tag and each core of the list replaces it.  Where the kernel does not
    support tags the thread keeps the tag it had, and the pin reports success all the
    same. *)
Theorem mac_pin_keeps_last w w' cores c (r : result unit (AffinityError E)) :
  MacOs.pin_current w (cores ++ [c]) = (w', r) -> is_ok r = true ->
  MacOs.tag w' = MacOs.tag_of c \/
  exists w1 w2, MacOs.thread_policy_set w1 MacOs.THREAD_AFFINITY_POLICY [MacOs.tag_of c] = (w2, MacOs.KERN_NOT_SUPPORTED).
Proof.
  intros H Hr. apply checked_in_range in H as [(E0 & _) | [(x & _ & _ & _ & ->) | (_ & _ & H)]];
    [by destruct cores | done|].
  unfold MacOs.pin_macos in H. destruct (MacOs.thread_policy_set w _ [0]) as [w0 kr0].
  destruct (MacOs.refused kr0); [injection H as _ <-; done|].
  revert w0 H. induction cores as [|x cores IH]; intros w0 H; cbn [app MacOs.set_tags] in H.
  - destruct (MacOs.thread_policy_set w0 _ [MacOs.tag_of c]) as [w1 kr] eqn:E1.
    destruct (MacOs.refused kr) eqn:Er; injection H as <- <-; [done|].
    unfold MacOs.refused in Er. destruct (Z.eqb_spec kr 0) as [->|]; [left; exact (MacOs.tag_set _ _ _ E1)|].
    destruct (Z.eqb_spec kr MacOs.KERN_NOT_SUPPORTED) as [->|]; [|done]. right. by exists w0, w1.
  - destruct (MacOs.thread_policy_set w0 _ [MacOs.tag_of x]) as [w1 kr].
    destruct (MacOs.refused kr); [injection H as _ <-; done|]. exact (IH _ H).
Qed.

(** Raising the priority sets one policy and keeps the affinity tag. *)
Lemma mac_elevate_keeps_tag w w' (r : result unit (RtError E)) :
  MacOs.elevate_current_thread w = (w', r) -> MacOs.tag w' = MacOs.tag w.
Proof.
  unfold MacOs.elevate_current_thread. destruct (MacOs.thread_policy_set w _ _) as [w1 kr] eqn:E1.
  intros [= <- _]. apply (MacOs.tag_kept _ _ _ _ _ E1). by left.
Qed.
End Mac.

(** a machine of eight cores that grants every policy; the world is the tag *)
Module DemoMac.
#[export] Instance os : MacOs.MachThreads Z := {|
  MacOs.sysconf_nproc _ := 8;
  MacOs.thread_policy_set w fl ws :=
    match ws with t :: _ => (if fl =? MacOs.THREAD_AFFINITY_POLICY then t else w, 0) | [] => (w, 4) end
|}.
#[export] Program Instance laws : MacOs.MachLaws Z := {| MacOs.tag w := w |}.
Next Obligation. by intros w t w' [= <-]. Qed.
Next Obligation.
  intros w fl [|t ws] w' kr; cbn; [by intros [= <- _]|].
  destruct (Z.eqb_spec fl MacOs.THREAD_AFFINITY_POLICY) as [->|]; intros [= <- <-]; by intros [|].
Qed.
End DemoMac.

Example mac_two_cores : MacOs.pin_current (OS := DemoMac.os) (E := unit) 0 [2; 5] = (6, Ok tt).
Proof. reflexivity. Qed.

(** ** Windows files *)

Module WinFile.
(** [WriteFile] without an [OVERLAPPED]: whether it succeeded, the bytes it counted
    and the error otherwise.  A synchronous write to a disk file that succeeds has
    taken the whole block. *)
Class WinFileOs (H : Type) := {
  contents : H -> list Z;
  write_file : H -> list Z -> H * result nat IoError;
  write_file_ok h bs h' n : write_file h bs = (h', Ok n) -> n = length bs /\ contents h' = contents h ++ bs;
  write_file_err h bs h' e : write_file h bs = (h', Err e) -> contents h' = contents h
}.

Section File.
Context {H : Type} `{OS : !WinFileOs H}.

(** [RawFile::open]; [create_file] is what [CreateFileA] answers *)
Definition raw_open (path : list Z) (create_file : result H IoError) : result (H * bool) IoError :=
  if bool_decide (0 ∈ utf8 path) then Err InvalidInput
  else match create_file with Ok h => Ok (h, true) | Err e => Err e end.

(** the count is not looked at *)
Definition write_block (h : H) (block : list Z) : H * result unit IoError :=
  let '(h, r) := write_file h block in
  (h, match r with Ok _ => Ok tt | Err e => Err e end).

(** nothing: the handle writes through *)
Definition flush (h : H) : H * result unit IoError := (h, Ok tt).

#[export] Program Instance win_fd : RawFd H := {|
  on_disk := contents;
  sys_write := write_file;
  sys_fsync h := h
|}.
Next Obligation. intros h bs h' n E. destruct (write_file_ok _ _ _ _ E) as [-> ?]. rewrite firstn_all. by split. Qed.
Next Obligation. exact write_file_err. Qed.
Next Obligation. done. Qed.
End File.
End WinFile.

Section WinStream.
Context {H : Type} `{OS : !WinFile.WinFileOs H}.
#[local] Existing Instance WinFile.win_fd.

Lemma win_progress (h : H) bs h' n : bs <> [] -> sys_write h bs = (h', Ok n) -> (0 < n)%nat.
Proof. intros Hne E. destruct (WinFile.write_file_ok _ _ _ _ E) as [-> _]. destruct bs; [done | simpl; lia]. Qed.

(** One call of [WriteFile] is the loop of the other platforms, run once. *)
Theorem win_block_is_one_write (h : H) (block : list Z) fuel : block <> [] ->
  DirectIo.write_block (S fuel) h block = Ret (WinFile.write_block h block).
Proof.
  intros Hne. destruct block as [|b bs]; [done|]. cbn [DirectIo.write_block]. unfold WinFile.write_block.
  cbn [sys_write WinFile.win_fd]. destruct (WinFile.write_file h (b :: bs)) as [h' [n|e]] eqn:E; [|done].
  destruct (WinFile.write_file_ok _ _ _ _ E) as [-> _]. rewrite drop_all. by destruct fuel.
Qed.

Lemma win_open_is_open path create : DirectIo.raw_open path (fun _ => create) = WinFile.raw_open (H := H) path create.
Proof. unfold DirectIo.raw_open, WinFile.raw_open. case_bool_decide; [done|]. by destruct create. Qed.

(** The staging buffer over a Windows handle is the same log of bytes: a write appends
    to the stream, a flush pads it to whole sectors, and a failure leaves a prefix. *)
Theorem win_file_is_log (d : DirectFile H) s data : file_rep d s ->
  (exists d' r, write d data = Ret (d', r) /\ wrote d' (s ++ data) r) /\
  (exists d' r, DirectIo.flush d = Ret (d', r) /\ wrote d' (padded s) r /\
     (r = Ok tt -> WinFile.contents (backend d') = padded s)).
Proof.
  intros Hr. split; [exact (write_spec win_progress d s data Hr) | exact (flush_spec win_progress d s Hr)].
Qed.
End WinStream.

(** a disk that takes every block until it is full *)
Module DemoWinDisk.
Definition room : nat := 8192.
#[local] Obligation Tactic := idtac.
#[export] Program Instance os : WinFile.WinFileOs (list Z) := {|
  WinFile.contents h := h;
  WinFile.write_file h bs :=
    if (length h + length bs <=? room)%nat then (h ++ bs, Ok (length bs)) else (h, Err OtherIo)
|}.
Next Obligation. intros h bs h' n; cbn beta. destruct (_ <=? _)%nat; by intros [= <- <-]. Qed.
Next Obligation. intros h bs h' e; cbn beta. destruct (_ <=? _)%nat; by intros [= <- _]. Qed.
End DemoWinDisk.

(** the third sector does not fit: what is on disk is a prefix of the stream *)
Example win_disk_full :
  match write (F := list Z) (RF := WinFile.win_fd (OS := DemoWinDisk.os))
    {| backend := []; staging := replicate 65536 7; staging_len := 0; direct := true; written := 0 |}
    (replicate 12300 1) with
  | Ret (d, r) => (length (backend d), written d, is_ok r)
  | _ => (0%nat, 0, true)
  end = (8192%nat, 8192, false).
Proof. vm_compute. reflexivity. Qed.
